(* ===== verification/_CoqProject ===== *)
-Q . S2P
Prelude.v
Str.v
Model.v
SystemdUnit.v
Authority.v
AuthorityInv.v
AuthorityRefine.v
Foundation.v
FoundationSafe.v
Observations.v
ObservationsSafe.v
Engine.v
ServicesParser.v
Ip.v
Hosts.v
RemotePath.v
Utf8.v
Editor.v
Prog.v
Interp.v
Files.v
FilePlans.v
FilePlansSafe.v
FilePlansProps.v
Calls.v
SftpClient.v
SftpClientSafe.v
SftpReads.v
SftpMutations.v
SftpListing.v
LocalFs.v
FilePlanning.v
TransferRun.v
TransferSafe.v
Transfer.v
TransferSystem.v
TransferSystemSafe.v
TransferCancel.v
TransferTable.v
SftpLayer.v
SshChannel.v
SshChannelSafe.v
Terminal.v
TerminalSafe.v
IpText.v
KnownHosts.v
KnownHostsSafe.v
Sessions.v
SessionsInv.v
SessionsSafe.v
Services.v
ServicesSafe.v
Lifecycle.v
LifecycleSafe.v
UpdateDownload.v
Updates.v
UpdatesSafe.v
LocalAccess.v
AppFiles.v
AppFilesSafe.v
Json.v
Interfaces.v
Routes.v
ListeningPorts.v
Dns.v
Journal.v
Containers.v
F64.v
Parsers.v
Discovery.v
Monitoring.v
AppRequests.v
AuditLog.v
Repository.v
Commands.v
Vault.v
AppHosts.v
AppProcess.v
HostStack.v
Shell.v
