(* ===== verification/Prelude.v ===== *)
(** * NexusOps: a verification development

    NexusOps is a desktop application that administers Linux hosts over SSH
    and SFTP.  Its safety rests on a few Rust crates: nothing may be changed
    on a host or on the local disk except what the user reviewed, on the
    connection it was reviewed on, once, and only while that is still true.
    This library models those crates and proves it.

    ** The parts and how they interact

    - [nexus-model]: errors, hosts, connection states, service rows, transfer
      jobs ([Model], [Hosts], [Files]);
    - [nexus-operations]: the fixed read-only commands and the engine that
      runs them ([Engine]); [nexus-discovery] parses what they print: services
      ([ServicesParser]), interfaces, routes, sockets and resolver
      configuration ([Interfaces], [Routes], [ListeningPorts], [Dns]), the
      journal and containers ([Journal], [Containers]), the discovery probes
      ([Parsers], [Discovery]) and monitoring readings ([Monitoring]);
    - [nexus-core/src/service_observations.rs]: the rows of a service listing
      an operation may be planned from ([Observations]);
    - [nexus-remote-operations]: plans for the four systemd operations wait
      as one-shot authorities in a store and are executed under admission
      control ([SystemdUnit], [Authority], [Foundation]);
    - [nexus-sftp]: remote paths ([RemotePath]), the text codec of the editor
      ([Utf8], [Editor]), planning of uploads, downloads, saves, renames and
      deletions ([FilePlans], [FilePlanning], [LocalFs]), the manager that
      runs the transfers ([TransferRun], [Transfer], [TransferSystem]), and the
      client that turns its calls into SFTP requests ([SftpClient]);
    - [nexus-ssh]: connecting, host keys and authentication ([KnownHosts]),
      commands, systemd mutations, SFTP and terminal channels ([SshChannel]);
    - [nexus-terminal]: the terminals of all hosts ([Terminal]);
    - [nexus-secrets]: the encrypted store of credentials ([Vault]);
      [nexus-audit]: the audit log ([AuditLog]);
    - [nexus-core]: the sessions of the hosts and the requests that connect,
      disconnect, trust, rotate, save and delete them ([Sessions]), the
      requests for services and inventories ([Services]), files ([AppFiles]),
      monitoring and terminals ([AppRequests]), the records of the hosts
      ([Repository], [AppHosts]), and opening and shutting down the
      application ([AppProcess]);
    - [apps/desktop/src-tauri]: admission of commands, draining and exit
      ([Lifecycle]), updates ([UpdateDownload], [Updates]), the files and
      folders the user selects ([LocalAccess]) and the commands themselves
      ([Commands]).

    [HostStack], [SftpLayer] and [Shell] put components on top of each other and
    prove what only holds of the composition.

    A listing is parsed, published as observations, an observation becomes a
    plan, the plan is approved, consumed, revalidated and dispatched; a file
    selection becomes a plan, the plan becomes jobs, a job becomes a sequence
    of calls on the SFTP client and the operating system, and each call a
    sequence of requests on the wire.  All of it happens on a connection that
    a session owns, whose server key is pinned.  Every command of the desktop
    shell holds a permit while it runs; an exit or an installation first seals
    the shell and waits until the others are done.

    ** Files

    [Prelude]: results, early return, the state monad, machine integers,
    counting in finite maps, tactics.  [Str]: Rust strings as lists of
    scalar values.  [Ip], [IpText]: the text forms of [IpAddr], their round
    trip, and addresses as numbers.  [Prog]: programs as trees of calls, their runs, a
    weakest-precondition calculus over traces, and [serve], the execution of one
    call of a program by an environment; [Interp]: total correctness,
    loops, and programs whose calls are programs of the layer below.  [Calls]: the
    calls of the SFTP workspace and the types of their replies; a theorem over [Prog] holds for every reply of every call, so for
    every server, file system and interleaving.

    Each component has a file of definitions; the theorems are in the same
    file or, for the larger ones, in the files after it:

    - [Model], [Hosts], [SystemdUnit], [Engine], [ServicesParser],
      [RemotePath], [Editor]: definitions and theorems together.  Accepted
      hosts, unit names, local names and service rows hold no text that the
      next layer could misread; paths built from server-supplied names stay
      below their parent; the service parser and the editor codec have round
      trips; the engine sends only reviewed read-only commands and returns
      only bounded output.
    - [Authority] ([store.rs], [authority.rs]); [AuthorityInv] (invariant and
      the behaviour of each call) and [AuthorityRefine]: the store with its two
      maps refines an abstract store with one live plan per host.
    - [Foundation] ([lib.rs], [admission.rs], [outcome.rs]): each [execute] is
      a task with a program counter, [sys_step] interleaves all tasks, the
      store's callers, its timers and the lifecycle guards, also between the
      last readings of the seal and of the token and the call of [dispatch];
      [FoundationSafe]: a plan is dispatched at most once, only as approved,
      after sealing or a cancellation only by a task that was past the reading
      of it, and executions exclude each other and the lifecycle work of their
      host, with a concrete run.
    - [Observations]; [ObservationsSafe]: the store is bounded, published ids
      resolve to what was shown, a revoked listing is refused.
    - [Files], [FilePlans] (store of [policy.rs]); [FilePlansSafe] (the
      callers interleaved, history of registered documents and executed
      plans, invariant); [FilePlansProps]: bounds, at-most-once execution,
      binding to the session, revocation, abandoned saves.
    - [LocalFs], [FilePlanning]: the checks on local objects and the planning
      programs; an accepted plan rests on what the server reported and stays
      in the chosen folders.
    - [TransferRun] (one transfer as a program); [TransferSafe]: uploads,
      downloads, saves and mutations commit only what was reviewed, and
      staging files are settled.
    - [Transfer] (the manager's table), [TransferSystem] (all job tasks
      interleaved, with permits and destination locks); [TransferSystemSafe],
      [TransferCancel], [TransferTable]: bounds on parallelism and queue,
      cancellation is final, every job that ended followed its program, history
      trimming is right, with concrete runs.
    - [SftpClient] ([client.rs], [RawSftpClient]); [SftpClientSafe] (uploads),
      [SftpReads] (downloads and the editor's read), [SftpMutations] (what the
      reported outcomes mean, no overwriting), [SftpListing] (connecting and
      listing); [SftpLayer]: an upload job over the wire, and concrete
      servers.
    - [SshChannel] ([session.rs], [error.rs], [systemd_*.rs]);
      [SshChannelSafe]: what a dispatched mutation reports, the exact output of
      commands, lossless terminal streams.
    - [Terminal] ([manager.rs]): callers, output pumps and closing tasks
      interleaved, with the lock of a channel held across its close, the
      time-out of the close, and the clock; [TerminalSafe]: bounds, complete
      output, no leaked channel, closing ends, within two seconds per terminal
      as far as the tasks are run when they can.
    - [KnownHosts] ([known_hosts.rs], [handler.rs], [provider.rs],
      [bounded_io.rs], credentials); [KnownHostsSafe]: pins change only as
      named, trusting admits exactly one key, no credential leaves before the
      key is verified; a cancelled stream is silent.
    - [Sessions] ([nexus-core/src/sessions.rs] and [application/*.rs]): each
      request cut at its awaits, all interleaved; [SessionsInv]: the
      invariant; [SessionsSafe]: a disconnect is final, the current attempt
      decides, host keys change only as reviewed.  The generations are [u64]
      counters that wrap around: what depends on them is proved for the first
      2^64 - 1 steps.
    - [Services] ([application/services.rs], [network.rs], [logs.rs],
      [containers.rs]): each request as a program whose calls are its accesses
      to shared state; [ServicesSafe]: every guard is given back, plans rest on
      a fresh listing, executions are audited once and as the messages of the
      channel show, revalidation is fresh.
    - [Lifecycle] ([lifecycle.rs]): commands, drains with their notifications,
      exit requests and attempts interleaved; [LifecycleSafe]: draining is
      final, no wake-up is lost, the process exits only after its cleanup.
    - [UpdateDownload] ([update_download.rs]): checks and the bounded download,
      with its theorems; [Updates] ([updates.rs], [update_install.rs],
      [install_verified_update]); [UpdatesSafe]: one installer at most, with
      verified bytes, launched last; a shutdown is final.
    - [LocalAccess] ([local_access.rs]), with its theorems: a selection is used
      once, in its scope, and never after it was revoked.
    - [AppFiles] ([application/files.rs]): each file request as a program;
      [AppFilesSafe]: all requests and the ends of sessions interleaved, with
      the table of SFTP clients; what belongs to a session that ended stays
      dead once the gate of its host is free, gates are given back, no
      client is leaked, executions are audited, what was opened is what was
      read.
    - [AppRequests] ([application/monitoring.rs], [terminal.rs]), with its
      theorems: a sample compares readings of one session only, terminals are
      reached only from the current session.
    - [Json] (values and derived deserialization), [F64] (double precision through [SpecFloat]): shared by the
      discovery parsers [Interfaces], [Routes], [ListeningPorts], [Dns],
      [Journal], [Containers], [Parsers], [Monitoring], which hold their
      theorems: what is published is well-formed, canonical, bounded and
      complete, and what is displayed can be read back.  [Discovery]: the loop
      over the probes degrades and never misreports, each value being read in the
      output of its own command.
    - [AuditLog] ([storage.rs], [event.rs]): the log is bounded and is the recent
      history, over any number of starts; the application's own events are
      valid.  [Repository] ([repository.rs]): after any calls, what was saved
      last is what is loaded, over any database that obeys [HostTableLaws].  [Vault]
      ([vault.rs]): the encrypted store implements a map of credentials, over
      any key provider that obeys [KeyProviderLaws].
    - [AppHosts] ([application/hosts.rs], [security.rs], [establish]): all
      handlers interleaved, with failures of either database and the end of the
      process anywhere; no host ever refers to a credential that is gone.  The
      proof is by a rely-guarantee argument on the part of the databases that
      belongs to one host.
    - [AppProcess] ([application.rs]): a profile is open in one process at a
      time; shutting down happens in one order.
    - [Commands] ([commands.rs]): every command works under its permit, local
      selections are used in their scope.
    - [HostStack]: the handlers of [AppHosts] over the tables of [Repository] and
      [Vault], by a simulation; every saved host can connect, its credentials
      can be read.
    - [Shell]: [Commands], [Lifecycle] and [LocalAccess] as one system, all
      commands interleaved with the drains and the timers; a drained shell
      touches nothing any more, and a local file leaves only as it was chosen in
      a dialog.

    ** Conventions

    Identifiers are UUIDs in the source and only compared: they are numbers,
    and a fresh one is an argument with the freshness stated where a theorem
    needs it.  Clock readings are arguments.  A mutex-guarded structure is a
    record, a method a function of it, and lock poisoning a flag.  Numbers
    are [Z] with the source's width and its checked, saturating, wrapping or
    bounded operations written out.  Strings are lists of scalar values with their
    UTF-8 length.  SHA-256, the simple form of a UUID and Unicode lower case
    are parameters, and so are the crates the updater uses
    ([UpdateDownload.UpdateLib]); no property is assumed of them.  The syntax of
    JSON and of dates and the text of a UUID are parameters as well; [Repository]
    assumes that the text of a UUID is read back, [Vault] the laws of
    AES-256-GCM and of the JSON codec that [SealingLaws] names, with an
    instance of them.

    Fuel: [Observations.evict] gets the number of host sets (each round
    removes one); [Transfer.trim_rounds] gets the length of the job list (each
    round removes one), both proved to reach the loop's exit;
    [Files.path_ancestors] gets the length of the path; [Ip.show_radix] and
    [RemotePath.hex_digits] get more digits than the widest number has.
    [FilePlanning.KEEP_BOTH_TRIES] is the source's own bound of 1000 names.
    The loops of [SftpClient] and [SshChannel] that run as long as the remote
    side sends data take a fuel and end in a [spin] call when it is used up, which
    no run of the theorems passes for: with a finite file, more fuel than its
    length is proved to be enough; [SftpClient.read_fuel] is enough for every
    server.  [Terminal.chunks] gets the length of its input.
    [UpdateDownload.send] gets one redirect more than its policy follows;
    [send_fuel] shows that more changes nothing.

    ** Not modelled

    The SFTP and SSH protocol libraries, SQLite, the HTTP client, AES-GCM, the
    key store of the operating system and its dialogs: their answers are inputs
    or their documented laws are hypotheses.  Registration of the commands with
    the window library ([main.rs]), the build script, the SQL text of the
    database schemas, the erasing of secrets from memory and logging are left
    out.  The remaining source lines that no definition models are imports,
    tests, declarations of modules and traits, constructors and accessors of
    fields, and adapters that hand a call on; which outcome the audit log gets
    for a failed connection ([error_outcome]) is left open, since [Sessions] uses
    only whether it was recorded.  The result types of the four
    service operations are one type.  Timed waits ([quiesce_session],
    [quiesce_all]) are modelled by the verdict they reach on the table, not by
    the clock.  A statement of SQLite that fails is taken to have no effect.

    ** Left open

    Apart from the closing of terminals ([Terminal]), the deadlines of the timed
    waits are not modelled, and the fairness of the schedulers nowhere: that
    something ends is proved as a run that always can go on, as a bound on the
    steps, or as a bound on the time in which nothing could run.  The dispatch of a plan is
    joined to the channel by the outcome it returns, and to the audit log by
    its entry; the interleaving of [Foundation] is not repeated over the
    programs of [Services]. *)

From Stdlib Require Export ZArith Lia.
From stdpp Require Export base list gmap strings numbers option.

#[global] Open Scope Z_scope.

(** ** Results and early returns

    [Result<T, E>] of the source.  [?] is [mbind]; a loop with [return Err]
    is a fold in this monad. *)

Inductive result (E A : Type) : Type :=
| Ok (a : A)
| Err (e : E).
Arguments Ok {E A} a.
Arguments Err {E A} e.

#[export] Instance result_ret E : MRet (result E) := fun A a => Ok a.
#[export] Instance result_bind E : MBind (result E) := fun A B f m =>
  match m with Ok a => f a | Err e => Err e end.
#[export] Instance result_fmap E : FMap (result E) := fun A B f m =>
  match m with Ok a => Ok (f a) | Err e => Err e end.

(** [opt.ok_or_else(err)?] *)
Definition ok_or {E A} (o : option A) (e : E) : result E A :=
  match o with Some a => Ok a | None => Err e end.

(** [if bad { return Err(e) }] *)
Definition ensure {E} (bad : bool) (e : E) : result E unit :=
  if bad then Err e else Ok tt.

(** [result.ok()] *)
Definition res_ok {E A} (r : result E A) : option A :=
  match r with Ok a => Some a | Err _ => None end.

Definition is_ok {E A} (r : result E A) : bool :=
  match r with Ok _ => true | Err _ => false end.

(** [iter.map(f).collect::<Result<Vec<_>, _>>()] *)
Fixpoint collect {E A B} (f : A → result E B) (l : list A) : result E (list B) :=
  match l with
  | [] => Ok []
  | a :: l => b ← f a; bs ← collect f l; Ok (b :: bs)
  end.

(** [iter.try_fold(init, f)] *)
Fixpoint try_fold {E A B} (f : B → A → result E B) (b : B) (l : list A) : result E B :=
  match l with
  | [] => Ok b
  | a :: l => b' ← f b a; try_fold f b' l
  end.

(** ** Stateful fallible code

    A method on a shared object returns its [Result] together with the state
    it leaves behind; an error keeps the changes made before it. *)

Definition st (S E A : Type) : Type := S → result E A * S.

#[export] Instance st_ret S E : MRet (st S E) := fun A a s => (Ok a, s).
#[export] Instance st_bind S E : MBind (st S E) := fun A B f m s =>
  match m s with
  | (Ok a, s') => f a s'
  | (Err e, s') => (Err e, s')
  end.

Definition st_get {S E} : st S E S := fun s => (Ok s, s).
Definition st_put {S E} (s' : S) : st S E unit := fun _ => (Ok tt, s').
Definition st_fail {S E A} (e : E) : st S E A := fun s => (Err e, s).
Definition st_lift {S E A} (r : result E A) : st S E A := fun s => (r, s).
Definition st_ensure {S E} (bad : bool) (e : E) : st S E unit := st_lift (ensure bad e).

(** ** Machine integers *)

Definition u8_max : Z := 2 ^ 8 - 1.
Definition u16_max : Z := 2 ^ 16 - 1.
Definition u32_max : Z := 2 ^ 32 - 1.
Definition u64_max : Z := 2 ^ 64 - 1.
Definition i128_max : Z := 2 ^ 127 - 1.
Definition i128_min : Z := - 2 ^ 127.

Definition checked_add (a b : Z) : option Z :=
  if a + b <=? u64_max then Some (a + b) else None.
Definition checked_sub (a b : Z) : option Z :=
  if b <=? a then Some (a - b) else None.
Definition checked_mul (a b : Z) : option Z :=
  if a * b <=? u64_max then Some (a * b) else None.
Definition saturating_add (a b : Z) : Z := Z.min u64_max (a + b).
Definition saturating_sub (a b : Z) : Z := Z.max 0 (a - b).

Definition is_u64 (a : Z) : Prop := 0 ≤ a ≤ u64_max.

(** [v.len()] of a vector or a map, as a [usize]. *)
Abbreviation zlen l := (Z.of_nat (length l)).
Abbreviation zsize m := (Z.of_nat (size m)).

(** ** Proof automation shared by the components *)

Ltac unfold_bind :=
  cbv [mbind mret result_bind result_ret result_fmap fmap st_bind st_ret st_get st_put
       st_fail st_lift st_ensure ensure ok_or] in *.

(** One case split on the scrutinee of a [match] in a hypothesis. *)
Ltac inv_match H :=
  match type of H with
  | context [match ?x with _ => _ end] =>
      let E := fresh "E" in destruct x eqn:E; simplify_eq/=
  end.

(** Invert a successful monadic computation. *)
Ltac inv_ok H := unfold_bind; repeat (inv_match H; try discriminate).

Ltac destruct_match :=
  match goal with
  | |- context [match ?x with _ => _ end] =>
      let E := fresh "E" in destruct x eqn:E
  end.

Ltac split_bools :=
  repeat match goal with
  | H : (_ && _)%bool = true |- _ => apply andb_true_iff in H as [? ?]
  | H : (_ || _)%bool = false |- _ => apply orb_false_iff in H as [? ?]
  | H : negb _ = true |- _ => apply negb_true_iff in H
  | H : negb _ = false |- _ => apply negb_false_iff in H
  | H : (_ <=? _) = true |- _ => apply Z.leb_le in H
  | H : (_ <=? _) = false |- _ => apply Z.leb_gt in H
  | H : (_ <? _) = true |- _ => apply Z.ltb_lt in H
  | H : (_ <? _) = false |- _ => apply Z.ltb_ge in H
  | H : (_ =? _) = true |- _ => apply Z.eqb_eq in H
  | H : (_ =? _) = false |- _ => apply Z.eqb_neq in H
  | H : bool_decide _ = true |- _ => apply bool_decide_eq_true in H
  | H : bool_decide _ = false |- _ => apply bool_decide_eq_false in H
  end.

Create HintDb nexus.
Create Rewrite HintDb nexus.

(** ** Generic lemmas *)

Section Results.
Context {E A B : Type}.

Lemma bind_ok (m : result E A) (f : A → result E B) b :
  (m ≫= f) = Ok b ↔ ∃ a, m = Ok a ∧ f a = Ok b.
Proof. destruct m; naive_solver. Qed.

Lemma bind_err (m : result E A) (f : A → result E B) e :
  (m ≫= f) = Err e ↔ m = Err e ∨ ∃ a, m = Ok a ∧ f a = Err e.
Proof. destruct m; naive_solver. Qed.

Lemma ensure_ok (bad : bool) (e : E) u : ensure bad e = Ok u ↔ bad = false.
Proof. destruct bad, u; naive_solver. Qed.

Lemma ensure_err (bad : bool) (e e' : E) : ensure bad e = Err e' ↔ bad = true ∧ e = e'.
Proof. destruct bad; naive_solver. Qed.

Lemma ok_or_ok (o : option A) (e : E) a : ok_or o e = Ok a ↔ o = Some a.
Proof. destruct o; naive_solver. Qed.

Lemma ok_or_err (o : option A) (e e' : E) : ok_or o e = Err e' ↔ o = None ∧ e = e'.
Proof. destruct o; naive_solver. Qed.

End Results.

Section Folds.
Context {E A B : Type}.

Lemma collect_ok (f : A → result E B) l bs :
  collect f l = Ok bs ↔ Forall2 (λ a b, f a = Ok b) l bs.
Proof.
  revert bs; induction l as [|a l IH]; intros bs; cbn [collect].
  - split; [intros [= <-]; constructor|by inversion 1].
  - rewrite bind_ok. split.
    + intros (b & Hb & Hr). apply bind_ok in Hr as (bs' & Hbs & [= <-]).
      constructor; [done|by apply IH].
    + inversion 1; subst. eexists; split; [done|]. apply bind_ok.
      eexists; split; [by apply IH|done].
Qed.

Lemma try_fold_app (f : B → A → result E B) b l1 l2 :
  try_fold f b (l1 ++ l2) = (b' ← try_fold f b l1; try_fold f b' l2).
Proof.
  revert b; induction l1 as [|a l IH]; intros b; cbn; [done|].
  destruct (f b a) as [b'|e]; cbn; [apply IH|done].
Qed.

(** Invariant rule for a fold with early return. *)
Lemma try_fold_ind (P : list A → B → Prop) (f : B → A → result E B) b0 l b :
  P [] b0 →
  (∀ l1 a b1 b2, P l1 b1 → f b1 a = Ok b2 → P (l1 ++ [a]) b2) →
  try_fold f b0 l = Ok b → P l b.
Proof.
  intros H0 Hstep. cut (∀ l2 l1 b1, P l1 b1 → try_fold f b1 l2 = Ok b → P (l1 ++ l2) b).
  { intros H Hf. by apply (H l [] b0). }
  induction l2 as [|a l2 IH]; intros l1 b1 HP; cbn.
  - intros [= <-]. by rewrite app_nil_r.
  - rewrite bind_ok. intros (b2 & Hb2 & Hf).
    replace (l1 ++ a :: l2) with ((l1 ++ [a]) ++ l2) by (by rewrite <-app_assoc).
    eauto.
Qed.
End Folds.

Section Checked.
Lemma checked_add_spec a b c : checked_add a b = Some c ↔ c = a + b ∧ a + b ≤ u64_max.
Proof. unfold checked_add. case_match; split_bools; split; intros; simplify_eq; naive_solver lia. Qed.
Lemma checked_sub_spec a b c : checked_sub a b = Some c ↔ c = a - b ∧ b ≤ a.
Proof. unfold checked_sub. case_match; split_bools; split; intros; simplify_eq; naive_solver lia. Qed.
Lemma checked_mul_spec a b c : checked_mul a b = Some c ↔ c = a * b ∧ a * b ≤ u64_max.
Proof. unfold checked_mul. case_match; split_bools; split; intros; simplify_eq; naive_solver lia. Qed.
Lemma saturating_add_u64 a b : is_u64 a → is_u64 b → is_u64 (saturating_add a b).
Proof. unfold is_u64, saturating_add. lia. Qed.
Lemma saturating_sub_u64 a b : is_u64 a → is_u64 b → is_u64 (saturating_sub a b).
Proof. unfold is_u64, saturating_sub. lia. Qed.
End Checked.

(** ** Counting the entries of a map *)

Definition count_map {V} (f : V → bool) (m : gmap N V) : Z := zsize (filter (λ kv, f kv.2 = true) m).

Section Counting.
Context {V : Type} (f : V → bool).
Implicit Types (m : gmap N V).

Lemma count_map_nonneg m : 0 ≤ count_map f m.
Proof. unfold count_map. lia. Qed.

Lemma count_map_empty : count_map f ∅ = 0.
Proof. unfold count_map. by rewrite map_filter_empty, map_size_empty. Qed.

Lemma count_map_insert_fresh m k x : m !! k = None →
  count_map f (<[k := x]> m) = count_map f m + (if f x then 1 else 0).
Proof.
  intros Hk. unfold count_map. destruct (f x) eqn:E.
  - rewrite map_filter_insert_True by done. rewrite map_size_insert_None; [lia|].
    apply map_lookup_filter_None. auto.
  - rewrite map_filter_insert_False by (cbn; congruence). rewrite delete_id by done. lia.
Qed.

Lemma count_map_delete m k x : m !! k = Some x →
  count_map f m = count_map f (delete k m) + (if f x then 1 else 0).
Proof.
  intros Hk. rewrite <-(insert_delete_id m k x Hk) at 1.
  by rewrite count_map_insert_fresh by apply lookup_delete_eq.
Qed.

Lemma count_map_insert m k x y : m !! k = Some x →
  count_map f (<[k := y]> m) = count_map f m - (if f x then 1 else 0) + (if f y then 1 else 0).
Proof.
  intros Hk. rewrite (count_map_delete m k x Hk), <-insert_delete_eq.
  rewrite count_map_insert_fresh by apply lookup_delete_eq. lia.
Qed.

Lemma count_map_pos m : 0 < count_map f m ↔ ∃ k x, m !! k = Some x ∧ f x = true.
Proof.
  unfold count_map. split.
  - intros H. destruct (map_choose (filter (λ kv, f kv.2 = true) m)) as (k & x & Hx).
    + intros E. rewrite E, map_size_empty in H. lia.
    + apply map_lookup_filter_Some in Hx as [? ?]. eauto.
  - intros (k & x & Hk & Hx). destruct (size (filter (λ kv, f kv.2 = true) m)) eqn:E; [|lia].
    apply map_size_empty_inv in E. assert (filter (λ kv, f kv.2 = true) m !! k = Some x) as Hf
      by (by apply map_lookup_filter_Some). by rewrite E, lookup_empty in Hf.
Qed.
End Counting.

#[export] Hint Rewrite @bind_ok @bind_err @ensure_ok @ensure_err @ok_or_ok @ok_or_err
  checked_add_spec checked_sub_spec checked_mul_spec : nexus.
#[export] Hint Resolve saturating_add_u64 saturating_sub_u64 : nexus.
