(* ===== verification/Str.v ===== *)
(** Rust strings.

    A [&str] or [String] is the list of its Unicode scalar values (the
    [chars()] of the source), each a [Z]; [len] is the UTF-8 byte length the
    source's [.len()] returns.  The operations of [core::str] the program uses
    are defined here with the laws the components rely on. *)

From S2P Require Import Prelude.

Abbreviation char := Z (only parsing).
Abbreviation str := (list Z) (only parsing).

(** An ASCII literal of the source as a list of characters. *)
Definition lit (s : string) : str :=
  map (λ a, Z.of_N (Ascii.N_of_ascii a)) (String.list_ascii_of_string s).

Definition ch (s : string) : char :=
  match lit s with c :: _ => c | [] => 0 end.

Arguments lit : simpl never.
Arguments ch : simpl never.

(** ** Characters *)

(** A Unicode scalar value: what a Rust [char] can hold. *)
Definition is_char (c : char) : bool :=
  (0 <=? c) && (c <=? 0x10FFFF) && negb ((0xD800 <=? c) && (c <=? 0xDFFF)).

(** [char::len_utf8] *)
Definition utf8_width (c : char) : Z :=
  if c <? 0x80 then 1 else if c <? 0x800 then 2 else if c <? 0x10000 then 3 else 4.

Definition between (lo hi c : Z) : bool := (lo <=? c) && (c <=? hi).

(** [char::is_control]: general category Cc. *)
Definition is_control (c : char) : bool := between 0 0x1F c || between 0x7F 0x9F c.

(** [char::is_whitespace]: the Unicode White_Space property. *)
Definition is_whitespace (c : char) : bool :=
  between 0x09 0x0D c || (c =? 0x20) || (c =? 0x85) || (c =? 0xA0) || (c =? 0x1680) ||
  between 0x2000 0x200A c || (c =? 0x2028) || (c =? 0x2029) || (c =? 0x202F) ||
  (c =? 0x205F) || (c =? 0x3000).

Definition is_ascii (c : char) : bool := between 0 0x7F c.
Definition is_ascii_digit (c : char) : bool := between 0x30 0x39 c.
Definition is_ascii_upper (c : char) : bool := between 0x41 0x5A c.
Definition is_ascii_lower (c : char) : bool := between 0x61 0x7A c.
Definition is_ascii_alphanumeric (c : char) : bool :=
  is_ascii_digit c || is_ascii_upper c || is_ascii_lower c.
Definition is_ascii_hexdigit (c : char) : bool :=
  is_ascii_digit c || between 0x41 0x46 c || between 0x61 0x66 c.

Definition to_ascii_lower (c : char) : char := if is_ascii_upper c then c + 32 else c.
Definition to_ascii_upper (c : char) : char := if is_ascii_lower c then c - 32 else c.

(** ** Strings *)

(** [s.len()]: bytes, not characters. *)
Fixpoint len (s : str) : Z :=
  match s with [] => 0 | c :: s => utf8_width c + len s end.

Definition is_empty (s : str) : bool := match s with [] => true | _ => false end.
Definition contains_char (c : char) (s : str) : bool := existsb (Z.eqb c) s.
Definition str_eqb (a b : str) : bool := bool_decide (a = b).
Definition str_in (a : str) (l : list str) : bool := existsb (str_eqb a) l.

Fixpoint starts_with (p s : str) : bool :=
  match p, s with
  | [], _ => true
  | x :: p, y :: s => (x =? y) && starts_with p s
  | _, [] => false
  end.
Definition ends_with (p s : str) : bool := starts_with (rev p) (rev s).

Fixpoint drop_while (f : char → bool) (s : str) : str :=
  match s with [] => [] | c :: s' => if f c then drop_while f s' else s end.
Definition trim_start_matches (f : char → bool) (s : str) : str := drop_while f s.
Definition trim_end_matches (f : char → bool) (s : str) : str := rev (drop_while f (rev s)).
Definition trim (s : str) : str :=
  trim_end_matches is_whitespace (trim_start_matches is_whitespace s).

(** [s.split(p)] *)
Fixpoint split_on (p : char → bool) (s : str) : list str :=
  match s with
  | [] => [[]]
  | c :: s =>
      if p c then [] :: split_on p s
      else match split_on p s with [] => [[c]] | w :: ws => (c :: w) :: ws end
  end.
Definition split (c : char) : str → list str := split_on (Z.eqb c).

(** [s.split_terminator(c)]: a trailing empty piece is dropped. *)
Fixpoint drop_last_empty (ps : list str) : list str :=
  match ps with
  | [] => []
  | [p] => if is_empty p then [] else [p]
  | p :: ps => p :: drop_last_empty ps
  end.
Definition split_terminator (c : char) (s : str) : list str := drop_last_empty (split c s).

(** [s.lines()]: one CR before the LF belongs to the terminator. *)
Definition strip_cr (l : str) : str :=
  match rev l with 13 :: r => rev r | _ => l end.
Fixpoint lines_of (ps : list str) : list str :=
  match ps with
  | [] => []
  | [p] => if is_empty p then [] else [p]
  | p :: ps => strip_cr p :: lines_of ps
  end.
Definition lines (s : str) : list str := lines_of (split 10 s).

(** [s.split_whitespace()] *)
Definition split_whitespace (s : str) : list str :=
  List.filter (λ w, negb (is_empty w)) (split_on is_whitespace s).

(** [s.split_once(c)] and [s.rsplit_once(c)] *)
Fixpoint split_once (c : char) (s : str) : option (str * str) :=
  match s with
  | [] => None
  | x :: s =>
      if c =? x then Some ([], s)
      else match split_once c s with Some (a, b) => Some (x :: a, b) | None => None end
  end.
Definition rsplit_once (c : char) (s : str) : option (str * str) :=
  match split_once c (rev s) with Some (a, b) => Some (rev b, rev a) | None => None end.

(** Non-overlapping occurrences of a non-empty pattern, left to right:
    [s.matches(p).count()], [s.contains(p)] and [s.replace(p, r)]. *)
Fixpoint matches_go (skip : nat) (p s : str) : nat :=
  match s with
  | [] => 0
  | _ :: s' =>
      match skip with
      | S k => matches_go k p s'
      | O => if starts_with p s then S (matches_go (length p - 1) p s') else matches_go 0 p s'
      end
  end.
Definition matches_count (p s : str) : nat := matches_go 0 p s.
Definition contains_str (p s : str) : bool := negb (Nat.eqb (matches_count p s) 0).

Fixpoint replace_go (skip : nat) (p r s : str) : str :=
  match s with
  | [] => []
  | c :: s' =>
      match skip with
      | S k => replace_go k p r s'
      | O => if starts_with p s then r ++ replace_go (length p - 1) p r s'
             else c :: replace_go 0 p r s'
      end
  end.
Definition replace (p r s : str) : str := replace_go 0 p r s.

(** [s.parse::<uN>()]: an optional plus sign, then at least one digit. *)
Fixpoint digits_value (acc : Z) (s : str) : option Z :=
  match s with
  | [] => Some acc
  | c :: s => if is_ascii_digit c then digits_value (10 * acc + (c - 0x30)) s else None
  end.
Definition parse_digits (s : str) : option Z :=
  match s with [] => None | _ => digits_value 0 s end.
Definition parse_unsigned (max : Z) (s : str) : option Z :=
  v ← parse_digits (match s with 43 :: r => r | _ => s end);
  if v <=? max then Some v else None.
Definition parse_u64 : str → option Z := parse_unsigned u64_max.
Definition parse_u32 : str → option Z := parse_unsigned u32_max.
Definition parse_u16 : str → option Z := parse_unsigned u16_max.
Definition parse_u8 : str → option Z := parse_unsigned u8_max.

(** [s.parse::<i128>()] *)
Definition parse_i128 (s : str) : option Z :=
  match s with
  | 45 :: r => v ← parse_digits r; if v <=? - i128_min then Some (- v) else None
  | _ => parse_unsigned i128_max s
  end.

(** ** Laws *)

Lemma utf8_width_bounds c : 1 ≤ utf8_width c ≤ 4.
Proof. unfold utf8_width. repeat case_match; lia. Qed.

Lemma len_nonneg s : 0 ≤ len s.
Proof. induction s as [|c s IH]; cbn; [lia|]. pose proof (utf8_width_bounds c). lia. Qed.

Lemma len_app a b : len (a ++ b) = len a + len b.
Proof. induction a as [|c a IH]; cbn; [done|]. rewrite IH. lia. Qed.

Lemma len_rev s : len (rev s) = len s.
Proof. induction s as [|c s IH]; cbn; [done|]. rewrite len_app. cbn. lia. Qed.

Lemma len_length s : zlen s ≤ len s ≤ 4 * zlen s.
Proof. induction s as [|c s IH]; cbn; [lia|]. pose proof (utf8_width_bounds c). lia. Qed.

Lemma len_ascii s : forallb is_ascii s = true → len s = zlen s.
Proof.
  induction s as [|c s IH]; cbn; [done|]. intros H. split_bools. rewrite IH by done.
  unfold utf8_width, is_ascii, between in *. split_bools. case_match; split_bools; lia.
Qed.

Lemma len_zero s : len s = 0 → s = [].
Proof. destruct s as [|c s]; [done|]. cbn. pose proof (utf8_width_bounds c). pose proof (len_nonneg s). lia. Qed.

Lemma is_empty_false s : is_empty s = false ↔ s ≠ [].
Proof. by destruct s. Qed.

Lemma is_empty_true s : is_empty s = true ↔ s = [].
Proof. by destruct s. Qed.

Lemma contains_char_true c s : contains_char c s = true ↔ c ∈ s.
Proof.
  unfold contains_char. rewrite existsb_exists. setoid_rewrite <- list_elem_of_In.
  split; [intros (x & Hx & Heq); apply Z.eqb_eq in Heq; by subst|].
  intros H; exists c; split; [done|apply Z.eqb_refl].
Qed.

Lemma contains_char_false c s : contains_char c s = false ↔ c ∉ s.
Proof. rewrite <-not_true_iff_false, contains_char_true. done. Qed.

Lemma str_eqb_eq a b : str_eqb a b = true ↔ a = b.
Proof. apply bool_decide_eq_true. Qed.

Lemma str_in_true a l : str_in a l = true ↔ a ∈ l.
Proof.
  unfold str_in. rewrite existsb_exists. setoid_rewrite <- list_elem_of_In.
  setoid_rewrite str_eqb_eq. naive_solver.
Qed.

Lemma starts_with_true p s : starts_with p s = true ↔ ∃ r, s = p ++ r.
Proof.
  revert s; induction p as [|x p IH]; intros s; cbn.
  - split; [eauto|done].
  - destruct s as [|y s]; [naive_solver|]. rewrite andb_true_iff, Z.eqb_eq, IH.
    split; [intros [-> [r ->]]; eauto|intros [r [= -> ->]]; eauto].
Qed.

Lemma ends_with_true p s : ends_with p s = true ↔ ∃ r, s = r ++ p.
Proof.
  unfold ends_with. rewrite starts_with_true. split; intros [r Hr].
  - exists (rev r). by rewrite <-(rev_involutive s), Hr, rev_app_distr, rev_involutive.
  - exists (rev r). by rewrite Hr, rev_app_distr.
Qed.

Lemma existsb_false {A} (f : A → bool) l : existsb f l = false ↔ ∀ x, x ∈ l → f x = false.
Proof.
  induction l as [|a l IH]; cbn; [set_solver|].
  rewrite orb_false_iff, IH. setoid_rewrite elem_of_cons. naive_solver.
Qed.

Lemma forallb_true {A} (f : A → bool) l : forallb f l = true ↔ ∀ x, x ∈ l → f x = true.
Proof. rewrite forallb_forall. by setoid_rewrite list_elem_of_In. Qed.

(** *** Trimming *)

Lemma elem_of_rev {A} (x : A) l : x ∈ rev l ↔ x ∈ l.
Proof. rewrite !list_elem_of_In. symmetry. apply in_rev. Qed.

Lemma drop_while_suffix f s : ∃ a, s = a ++ drop_while f s ∧ forallb f a = true.
Proof.
  induction s as [|c s (a & Hs & Ha)]; cbn; [by exists []|].
  case_match; [|by exists []].
  exists (c :: a). cbn. split; [by f_equal|]. by apply andb_true_iff.
Qed.

Lemma drop_while_head f s c s' : drop_while f s = c :: s' → f c = false.
Proof. induction s as [|x s IH]; cbn; [done|]. case_match; [done|by intros [= <- <-]]. Qed.

Lemma drop_while_idem f s : drop_while f (drop_while f s) = drop_while f s.
Proof.
  destruct (drop_while f s) as [|c s'] eqn:E; [done|]. cbn.
  by rewrite (drop_while_head _ _ _ _ E).
Qed.

Lemma trim_end_prefix f s : ∃ b, s = trim_end_matches f s ++ b ∧ forallb f b = true.
Proof.
  unfold trim_end_matches. destruct (drop_while_suffix f (rev s)) as (a & Hs & Ha).
  exists (rev a). split.
  - rewrite <-rev_app_distr, <-Hs. by rewrite rev_involutive.
  - apply forallb_true. intros x Hx. rewrite forallb_true in Ha. apply Ha.
    by apply elem_of_rev.
Qed.

Lemma trim_end_last f s a c : trim_end_matches f s = a ++ [c] → f c = false.
Proof.
  unfold trim_end_matches. intros H. apply (f_equal (@rev Z)) in H.
  rewrite rev_involutive, rev_app_distr in H. cbn in H. by eapply drop_while_head.
Qed.

Lemma trim_infix s : ∃ a b, s = a ++ trim s ++ b.
Proof.
  unfold trim. destruct (drop_while_suffix is_whitespace s) as (a & Hs & _).
  destruct (trim_end_prefix is_whitespace (drop_while is_whitespace s)) as (b & Hb & _).
  exists a, b. unfold trim_start_matches. by rewrite <-Hb.
Qed.

Lemma trim_elem c s : c ∈ trim s → c ∈ s.
Proof. destruct (trim_infix s) as (a & b & Hs). intros H. rewrite Hs. set_solver. Qed.

Lemma trim_len s : len (trim s) ≤ len s.
Proof.
  destruct (trim_infix s) as (a & b & Hs). rewrite Hs at 2. rewrite !len_app.
  pose proof (len_nonneg a). pose proof (len_nonneg b). lia.
Qed.

(** *** Splitting *)

Lemma split_on_nonempty p s : split_on p s ≠ [].
Proof. destruct s; cbn; [done|]. repeat case_match; done. Qed.

(** [pieces.join(c)] *)
Fixpoint join (c : char) (ps : list str) : str :=
  match ps with [] => [] | [p] => p | p :: ps => p ++ c :: join c ps end.

Lemma split_join c s : join c (split c s) = s.
Proof.
  unfold split. induction s as [|x s IH]; cbn; [done|].
  destruct (c =? x) eqn:E; split_bools; subst.
  - cbn. destruct (split_on (Z.eqb x) s) eqn:Es; [by apply split_on_nonempty in Es|]. by rewrite <-IH.
  - destruct (split_on (Z.eqb c) s) as [|w ws] eqn:Es; [by apply split_on_nonempty in Es|].
    cbn in *. destruct ws; cbn in *; by rewrite <-IH.
Qed.

Lemma split_on_pieces p s w c : w ∈ split_on p s → c ∈ w → c ∈ s ∧ p c = false.
Proof.
  revert w; induction s as [|x s IH]; cbn; intros w.
  - intros ->%list_elem_of_singleton. by intros ?%elem_of_nil.
  - destruct (p x) eqn:E.
    + intros [->|Hw]%elem_of_cons; [by intros ?%elem_of_nil|]. intros Hc.
      destruct (IH _ Hw Hc). set_solver.
    + destruct (split_on p s) as [|w0 ws] eqn:Es.
      * intros ->%list_elem_of_singleton ->%list_elem_of_singleton. set_solver.
      * intros [->|Hw]%elem_of_cons Hc.
        -- apply elem_of_cons in Hc as [->|Hc]; [set_solver|].
           destruct (IH w0 ltac:(set_solver) Hc). set_solver.
        -- destruct (IH w ltac:(set_solver) Hc). set_solver.
Qed.

Lemma split_whitespace_pieces s w c :
  w ∈ split_whitespace s → c ∈ w → c ∈ s ∧ is_whitespace c = false.
Proof.
  unfold split_whitespace. rewrite list_elem_of_In, filter_In, <-list_elem_of_In.
  intros [Hw _]. by apply split_on_pieces.
Qed.

Lemma split_whitespace_nonempty s w : w ∈ split_whitespace s → w ≠ [].
Proof.
  unfold split_whitespace. rewrite list_elem_of_In, filter_In.
  intros [_ H]. split_bools. by apply is_empty_false.
Qed.

Lemma split_once_some c s a b : split_once c s = Some (a, b) ↔ s = a ++ c :: b ∧ c ∉ a.
Proof.
  revert a; induction s as [|x s IH]; intros a; cbn.
  - split; [done|]. intros [H _]. by destruct a.
  - destruct (c =? x) eqn:E; split_bools; subst.
    + split; [intros [= <- <-]; set_solver|]. intros [H Ha].
      destruct a as [|y a]; cbn in H; simplify_eq; [done|set_solver].
    + destruct (split_once c s) as [[a' b']|] eqn:Es.
      * split; [intros [= <- <-]|].
        -- destruct (proj1 (IH a') eq_refl) as [-> ?]. set_solver.
        -- intros [H Ha]. destruct a as [|y a]; cbn in H; simplify_eq.
           assert (Some (a', b') = Some (a, b)) as [= -> ->]; [|done].
           apply IH. set_solver.
      * split; [done|]. intros [H Ha]. destruct a as [|y a]; cbn in H; simplify_eq.
        assert (None = Some (a, b)); [|done]. apply IH. set_solver.
Qed.

Lemma split_once_none c s : split_once c s = None ↔ c ∉ s.
Proof.
  induction s as [|x s IH]; cbn; [set_solver|].
  destruct (c =? x) eqn:E; split_bools; subst; [set_solver|].
  destruct (split_once c s) as [[a' b']|]; set_solver.
Qed.

Lemma rsplit_once_rev c s a b :
  rsplit_once c s = Some (a, b) ↔ split_once c (rev s) = Some (rev b, rev a).
Proof.
  unfold rsplit_once. destruct (split_once c (rev s)) as [[x y]|]; [|done].
  split; [intros [= <- <-]|intros [= -> ->]]; by rewrite !rev_involutive.
Qed.

Lemma rsplit_once_some c s a b : rsplit_once c s = Some (a, b) ↔ s = a ++ c :: b ∧ c ∉ b.
Proof.
  rewrite rsplit_once_rev, split_once_some.
  rewrite (elem_of_rev c b).
  enough (rev s = rev b ++ c :: rev a ↔ s = a ++ c :: b) by tauto.
  split; [intros H; rewrite <-(rev_involutive s), H|intros ->];
    rewrite rev_app_distr; cbn; by rewrite <-app_assoc, ?rev_involutive.
Qed.

Lemma rsplit_once_none c s : rsplit_once c s = None ↔ c ∉ s.
Proof.
  rewrite <-elem_of_rev, <-split_once_none. unfold rsplit_once. by repeat case_match.
Qed.

(** *** Numbers *)

Lemma digits_value_ge acc s v : 0 ≤ acc → digits_value acc s = Some v → acc ≤ v.
Proof.
  revert acc; induction s as [|c s IH]; cbn; intros acc Hacc; [intros [= <-]; lia|].
  unfold is_ascii_digit, between. case_match; [|done]. split_bools. intros Hv%IH; lia.
Qed.

Lemma parse_unsigned_bounds max s v : parse_unsigned max s = Some v → 0 ≤ v ≤ max.
Proof.
  unfold parse_unsigned. intros (w & Hw & Hc)%bind_Some. case_match; simplify_eq. split_bools.
  split; [|done]. unfold parse_digits in Hw. case_match; [done|]. eapply digits_value_ge; [|done]. lia.
Qed.

Lemma parse_u64_is_u64 s v : parse_u64 s = Some v → is_u64 v.
Proof. apply parse_unsigned_bounds. Qed.

#[export] Hint Resolve len_nonneg parse_u64_is_u64 : nexus.
