(* ===== verification/Model.v ===== *)
(** Domain types shared by every crate ([crates/nexus-model]).

    Error codes and the user-visible error, risk levels, the connection state
    machine, the per-host session projection and the service inventory rows.
    Identifiers are UUIDs in the source; only their equality is observed, so
    they are numbers here. *)

From S2P Require Import Prelude Str.

Abbreviation Uuid := N (only parsing).
Abbreviation HostId := N (only parsing).
Abbreviation HostSessionId := N (only parsing).
Abbreviation RemoteOperationPlanId := N (only parsing).
Abbreviation ServiceObservationId := N (only parsing).

(** A reading of the monotonic clock, and a duration, in nanoseconds. *)
Abbreviation Instant := Z (only parsing).
Abbreviation Duration := Z (only parsing).
Definition from_secs (n : Z) : Duration := n * 1000000000.

(** ** Errors *)

Inductive ErrorCode :=
| Validation | NotFound | Persistence | Dns | Timeout | Refused | Authentication
| UnknownHostKey | ChangedHostKey | Discovery | SecureStorage | Cancelled | Connection
| Conflict | Policy | TerminalPty | TerminalShell | TerminalUnavailable | TerminalResize
| TerminalStream | TerminalStartup | TerminalChannel | SftpUnavailable | SftpDenied
| SftpProtocol | FilePolicy | LocalAccess | Transfer | OutcomeUnknown | UpdateCheck
| UpdateDownload | UpdateVerification | UpdateResourceLimit | UpdateTimeout
| UpdateConflict | UpdateInstall.

#[export] Instance ErrorCode_eq_dec : EqDecision ErrorCode.
Proof. solve_decision. Defined.

Record HostKeyChallenge := {
  hk_hostname : str;
  hk_port : Z;
  hk_algorithm : str;
  hk_fingerprint : str;
  hk_previous_fingerprint : option str
}.

#[export] Instance HostKeyChallenge_eq_dec : EqDecision HostKeyChallenge.
Proof. solve_decision. Defined.

Record AppError := {
  code : ErrorCode;
  message : string;
  host_key : option HostKeyChallenge
}.

#[export] Instance AppError_eq_dec : EqDecision AppError.
Proof. solve_decision. Defined.

(** [AppError::new] *)
Definition app_error (c : ErrorCode) (m : string) : AppError :=
  {| code := c; message := m; host_key := None |}.

Abbreviation Res A := (result AppError A) (only parsing).

(** ** Operations *)

Inductive OperationRisk := ReadOnly | Low | Moderate | High | Destructive.

#[export] Instance OperationRisk_eq_dec : EqDecision OperationRisk.
Proof. solve_decision. Defined.

(** The derived [Ord] of [OperationRisk]: declaration order. *)
Definition risk_rank (r : OperationRisk) : Z :=
  match r with ReadOnly => 0 | Low => 1 | Moderate => 2 | High => 3 | Destructive => 4 end.

Record Operation := {
  op_id : str;
  op_kind : str;
  op_risk : OperationRisk
}.

(** ** Connection state machine ([session.rs]) *)

Inductive ConnectionState :=
| Disconnected | Connecting | AwaitingTrust | Connected | Disconnecting | Failed.

#[export] Instance ConnectionState_eq_dec : EqDecision ConnectionState.
Proof. solve_decision. Defined.

Definition transition_allowed (self next : ConnectionState) : bool :=
  bool_decide (self = next) ||
  match self, next with
  | (Disconnected | Failed | AwaitingTrust), Connecting => true
  | Connecting, (Connected | AwaitingTrust | Failed | Disconnecting) => true
  | Connected, (Disconnecting | Failed) => true
  | Disconnecting, (Disconnected | Failed) => true
  | (AwaitingTrust | Failed), Disconnected => true
  | _, _ => false
  end.

Definition transition (self next : ConnectionState) : Res ConnectionState :=
  if transition_allowed self next then Ok next
  else Err (app_error Conflict "Invalid connection state transition.").

Record HostFingerprint := { hf_algorithm : str; hf_sha256 : str }.
Record HostIdentity := { hi_hostname : str; hi_fingerprint : HostFingerprint }.
Record HostCapability := { hc_id : str; hc_available : bool }.

#[export] Instance HostFingerprint_eq_dec : EqDecision HostFingerprint.
Proof. solve_decision. Defined.
#[export] Instance HostIdentity_eq_dec : EqDecision HostIdentity.
Proof. solve_decision. Defined.
#[export] Instance HostCapability_eq_dec : EqDecision HostCapability.
Proof. solve_decision. Defined.

(** ** Service inventory rows ([services.rs]) *)

Record ServiceEntry := {
  unit_ : str;
  load_state : str;
  active_state : str;
  sub_state : str;
  description : str;
  can_start : bool;
  can_reload : bool;
  reset_failed_observation_id : option ServiceObservationId;
  try_restart_observation_id : option ServiceObservationId;
  reload_observation_id : option ServiceObservationId;
  start_observation_id : option ServiceObservationId
}.

#[export] Instance ServiceEntry_eq_dec : EqDecision ServiceEntry.
Proof. solve_decision. Defined.

Record ServiceSnapshot := {
  snap_host_id : HostId;
  snap_host_session_id : HostSessionId;
  snap_observed_at : str;
  snap_entries : list ServiceEntry
}.

(** ** Terminals ([terminal.rs]) *)

Abbreviation TerminalSessionId := N (only parsing).

Record TerminalSize := { columns : Z; rows : Z; pixel_width : Z; pixel_height : Z }.

#[export] Instance TerminalSize_eq_dec : EqDecision TerminalSize.
Proof. solve_decision. Defined.

(** [TerminalSize::validate] *)
Definition validate_size (s : TerminalSize) : Res TerminalSize :=
  if (columns s <? 2) || (1000 <? columns s) || (rows s <? 1) || (1000 <? rows s)
     || (100000 <? pixel_width s) || (100000 <? pixel_height s)
  then Err (app_error Validation "Terminal dimensions are outside the supported range.") else Ok s.

Inductive TerminalState := TCreating | TOpen | TClosing | TClosed | TFailed | TDisconnected.

#[export] Instance TerminalState_eq_dec : EqDecision TerminalState.
Proof. solve_decision. Defined.

Record TerminalSession := {
  ts_id : TerminalSessionId;
  ts_host_id : HostId;
  ts_host_session_id : HostSessionId;
  ts_label : str;
  ts_state : TerminalState;
  ts_size : TerminalSize;
  ts_error : option AppError
}.

(** ** The connection state machine cannot skip verification *)

(** A run of accepted transitions. *)
Inductive session_run : ConnectionState → list ConnectionState → Prop :=
| run_nil s : session_run s []
| run_cons s s' l : transition s s' = Ok s' → session_run s' l → session_run s (s' :: l).

Lemma transition_ok s s' s'' : transition s s' = Ok s'' ↔ s'' = s' ∧ transition_allowed s s' = true.
Proof. unfold transition. case_match; naive_solver. Qed.

(** The only way into [Connected] is from [Connecting] (or staying there). *)
Lemma connected_pred s : transition_allowed s Connected = true → s = Connected ∨ s = Connecting.
Proof. destruct s; cbn; intros; try discriminate; auto. Qed.

(** In any accepted run from [Disconnected], reaching
    [Connected] means an earlier state of the run is [Connecting]. *)
Theorem connected_only_through_connecting (l : list ConnectionState) :
  session_run Disconnected l → Connected ∈ l →
  ∃ l1 l2, l = l1 ++ Connecting :: l2 ∧ Connected ∈ l2 ∧ Connected ∉ l1.
Proof.
  intros Hrun. remember Disconnected as s0 eqn:Hs0.
  assert (s0 ≠ Connecting ∧ s0 ≠ Connected) as Hs by (subst; done). clear Hs0.
  induction Hrun as [s|s s' l [_ Ht]%transition_ok Hrun IH]; [by intros ?%elem_of_nil|].
  intros [Heq|Hin]%elem_of_cons.
  - subst s'. apply connected_pred in Ht. naive_solver.
  - destruct (decide (s' = Connecting)) as [->|Hne]; [by exists [], l; set_solver|].
    destruct (decide (s' = Connected)) as [->|Hne'].
    + apply connected_pred in Ht. naive_solver.
    + destruct IH as (l1 & l2 & -> & H2 & H1); [done|done|].
      exists (s' :: l1), l2. set_solver.
Qed.

Lemma connected_only_through_connecting_witness :
  ∃ l1 l2, [Connecting; AwaitingTrust; Connecting; Connected] = l1 ++ Connecting :: l2
           ∧ Connected ∈ l2 ∧ Connected ∉ l1.
Proof.
  apply (connected_only_through_connecting [Connecting; AwaitingTrust; Connecting; Connected]).
  - do 4 (apply run_cons; [reflexivity|]). apply run_nil.
  - set_solver.
Defined.
