(* ===== verification/SystemdUnit.v ===== *)
(** Reviewed remote operations and their targets
    ([crates/nexus-remote-operations/src/systemd_*.rs], [authority.rs]).

    The trait [NativeOperation] is sealed: its four implementors are the
    constructors of [NativeOp], and the associated types and the [RISK]
    constant are functions of the constructor.  [TypeId::of::<O>()] is the
    constructor itself. *)

From S2P Require Import Prelude Str Model.

(** ** The restricted service unit name *)

Definition SUFFIX : str := lit ".service".
Definition MAX_UNIT_BYTES : Z := 255.

Record SystemdServiceUnitName := Unit { as_str : str }.

#[export] Instance SystemdServiceUnitName_eq_dec : EqDecision SystemdServiceUnitName.
Proof. solve_decision. Defined.

Definition unit_tail_byte (b : char) : bool :=
  is_ascii_alphanumeric b || (b =? ch "_") || (b =? ch ".") || (b =? ch ":") || (b =? ch "-").

Definition valid_part (value : str) : bool :=
  match value with
  | [] => false
  | b :: bytes => is_ascii_alphanumeric b && forallb unit_tail_byte bytes
  end.

Definition unit_invalid : AppError :=
  app_error Validation "The observed service name is not supported for remote operations.".

(** [SystemdServiceUnitName::parse] *)
Definition unit_parse (value : str) : Res SystemdServiceUnitName :=
  _ ← ensure (is_empty value || (MAX_UNIT_BYTES <? len value)
              || negb (forallb is_ascii value) || negb (ends_with SUFFIX value)
              || negb (Nat.eqb (matches_count SUFFIX value) 1)) unit_invalid;
  let stem := take (length value - length SUFFIX) value in
  match split (ch "@") stem with
  | [first] => if valid_part first then Ok (Unit value) else Err unit_invalid
  | [first; second] =>
      if valid_part first && valid_part second then Ok (Unit value) else Err unit_invalid
  | _ => Err unit_invalid
  end.

(** ** Preconditions on the observed unit state *)

Definition reset_failed_matches (load active sub : str) : bool :=
  str_eqb load (lit "loaded") && str_eqb active (lit "failed") && str_eqb sub (lit "failed").

Definition try_restart_matches (load active sub : str) : bool :=
  str_eqb load (lit "loaded") && str_eqb active (lit "active") && str_eqb sub (lit "running").

Definition reload_matches (load active sub : str) (can_reload : bool) : bool :=
  str_eqb load (lit "loaded") && str_eqb active (lit "active") && str_eqb sub (lit "running")
  && can_reload.

Definition start_matches (load active sub : str) (can_start : bool) : bool :=
  str_eqb load (lit "loaded") && str_eqb active (lit "inactive") && str_eqb sub (lit "dead")
  && can_start.

(** ** Native operations *)

Inductive NativeOp := SystemdResetFailed | SystemdTryRestart | SystemdReload | SystemdStart.

#[export] Instance NativeOp_eq_dec : EqDecision NativeOp.
Proof. solve_decision. Defined.

(** The unit structs that mark which precondition was observed. *)
Record SystemdResetFailedPreconditions := ResetFailedPre {}.
Record SystemdTryRestartPreconditions := TryRestartPre {}.
Record SystemdReloadPreconditions := ReloadPre {}.
Record SystemdStartPreconditions := StartPre {}.

Definition Target (o : NativeOp) : Type := SystemdServiceUnitName.
Definition Preconditions (o : NativeOp) : Type :=
  match o with
  | SystemdResetFailed => SystemdResetFailedPreconditions
  | SystemdTryRestart => SystemdTryRestartPreconditions
  | SystemdReload => SystemdReloadPreconditions
  | SystemdStart => SystemdStartPreconditions
  end.
Definition Payload (o : NativeOp) : Type := unit.
Definition RISK (o : NativeOp) : OperationRisk :=
  match o with
  | SystemdResetFailed => Moderate
  | SystemdTryRestart | SystemdReload | SystemdStart => High
  end.

(** ** What a parsed unit name guarantees *)

(** The characters a unit name may contain once it is accepted: no shell
    metacharacter, quote, whitespace, slash or control character. *)
Definition unit_char (c : char) : bool := unit_tail_byte c || (c =? ch "@").

Lemma unit_tail_of_alnum c : is_ascii_alphanumeric c = true → unit_tail_byte c = true.
Proof. unfold unit_tail_byte. by intros ->. Qed.

Lemma valid_part_chars p c : valid_part p = true → c ∈ p → unit_tail_byte c = true.
Proof.
  destruct p as [|b bytes]; [done|]. cbn [valid_part]. intros H. split_bools.
  intros [->|Hc]%elem_of_cons; [by apply unit_tail_of_alnum|].
  rewrite forallb_true in *. auto.
Qed.

Lemma join_elem (c x : char) ps : x ∈ join c ps → x = c ∨ ∃ p, p ∈ ps ∧ x ∈ p.
Proof.
  induction ps as [|p [|q ps] IH]; cbn [join]; [set_solver|set_solver|].
  intros [?|[->|Hx]%elem_of_cons]%elem_of_app; [set_solver|auto|].
  destruct (IH Hx) as [?|(p' & ? & ?)]; set_solver.
Qed.

(** Inversion of a successful parse: the stem is one or two valid parts. *)
Lemma unit_parse_inv value u :
  unit_parse value = Ok u →
  u = Unit value ∧ 0 < len value ≤ MAX_UNIT_BYTES ∧
  ∃ stem, value = stem ++ SUFFIX ∧ (∀ p, p ∈ split (ch "@") stem → valid_part p = true).
Proof.
  unfold unit_parse. rewrite bind_ok. intros ([] & Hg%ensure_ok & H). split_bools.
  match goal with H : ends_with _ _ = true |- _ => apply ends_with_true in H as [stem ->] end.
  rewrite length_app, Nat.add_sub, take_app_length in H.
  split; [by repeat (case_match; simplify_eq)|]. split.
  - split; [|done]. rewrite len_app.
    assert (len SUFFIX = 8) as -> by reflexivity. pose proof (len_nonneg stem). lia.
  - exists stem. split; [done|]. intros p.
    repeat (case_match; simplify_eq); split_bools; set_solver.
Qed.

Lemma unit_parse_chars value u c :
  unit_parse value = Ok u → c ∈ as_str u → unit_char c = true.
Proof.
  intros (-> & _ & stem & -> & Hparts)%unit_parse_inv. cbn.
  rewrite <-(split_join (ch "@") stem) at 1. unfold unit_char.
  intros [[->|(p & Hp & Hc)]%join_elem|Hc]%elem_of_app; [done| |].
  - by rewrite (valid_part_chars p c (Hparts p Hp) Hc).
  - revert c Hc. apply forallb_true. reflexivity.
Qed.

(** A parsed unit name is the observed text unchanged, is 1 to 255
    bytes, ends in the suffix ".service", does not start with a dash, and
    holds only ASCII letters, digits and the five characters dot, underscore,
    colon, dash and at: no shell metacharacter can reach the fixed remote
    command. *)
Theorem unit_parse_safe value u :
  unit_parse value = Ok u →
  as_str u = value ∧ 0 < len value ≤ 255 ∧
  ends_with SUFFIX value = true ∧
  (∀ c, c ∈ value → unit_char c = true) ∧
  (∃ b rest, value = b :: rest ∧ is_ascii_alphanumeric b = true).
Proof.
  intros H. pose proof (unit_parse_inv _ _ H) as (-> & Hlen & stem & -> & Hparts).
  split; [done|]. split; [done|]. split; [by apply ends_with_true; eauto|]. split.
  - intros c. by apply (unit_parse_chars _ _ c H).
  - destruct (split (ch "@") stem) as [|p ps] eqn:Es; [by apply split_on_nonempty in Es|].
    pose proof (split_join (ch "@") stem) as Hj. rewrite Es in Hj.
    specialize (Hparts p ltac:(set_solver)).
    destruct p as [|b p]; [done|]. cbn in Hparts. split_bools.
    exists b. destruct ps; cbn in Hj; rewrite <-Hj; cbn; eauto.
Qed.

(** A character outside the allowed set anywhere in the name is refused. *)
Lemma unit_parse_rejects value c :
  c ∈ value → unit_char c = false → unit_parse value = Err unit_invalid.
Proof.
  intros Hc Hbad. destruct (unit_parse value) as [u|e] eqn:H.
  - pose proof (unit_parse_inv _ _ H) as [-> _].
    rewrite (unit_parse_chars _ _ c H Hc) in Hbad. done.
  - f_equal. unfold unit_parse in H. unfold_bind.
    repeat (case_match; simplify_eq); done.
Qed.

Example unit_parse_accepts :
  Forall (λ s, unit_parse (lit s) = Ok (Unit (lit s)))
    ["ssh.service"; "my-worker.service"; "worker@1.service"; "worker@blue-1.service"].
Proof. repeat constructor. Qed.

Example unit_parse_refuses :
  Forall (λ s, unit_parse (lit s) = Err unit_invalid)
    [""; "--help.service"; "foo@.service"; "foo@@1.service"; "foo;reboot.service";
     "foo$(id).service"; "foo bar.service"; "../foo.service"; "foo.service.service";
     "foo.timer"; "f%6f.service"; "f*.service"].
Proof. repeat constructor. Qed.

Lemma unit_parse_safe_witness :
  unit_parse (lit "worker@1.service") = Ok (Unit (lit "worker@1.service")) ∧
  as_str (Unit (lit "worker@1.service")) = lit "worker@1.service".
Proof.
  split; [reflexivity|].
  apply (unit_parse_safe (lit "worker@1.service") (Unit (lit "worker@1.service"))). reflexivity.
Defined.
