(* ===== verification/Authority.v ===== *)
(** One-shot authority for remote mutations
    ([crates/nexus-remote-operations/src/authority.rs] and [store.rs]).

    [AuthorityStore] keeps at most one pending plan per host behind a mutex.
    A method is a function of the store it finds; the [Instant::now()] and the
    fresh [Uuid] it draws are arguments.  [poisoned] is the state of the
    [std::sync::Mutex]: a poisoned lock makes every method fail. *)

From S2P Require Import Prelude Str Model SystemdUnit.

Record AuthorityBinding := {
  ab_host_id : HostId;
  ab_host_session_id : HostSessionId;
  ab_generation : Z
}.

#[export] Instance AuthorityBinding_eq_dec : EqDecision AuthorityBinding.
Proof. solve_decision. Defined.

Record PlanDraft (O : NativeOp) := {
  dr_binding : AuthorityBinding;
  dr_target : Target O;
  dr_preconditions : Preconditions O;
  dr_payload : Payload O
}.
Arguments dr_binding {O}. Arguments dr_target {O}.
Arguments dr_preconditions {O}. Arguments dr_payload {O}.

Record AuthorityBody (O : NativeOp) := {
  bd_target : Target O;
  bd_preconditions : Preconditions O;
  bd_payload : Payload O
}.
Arguments bd_target {O}. Arguments bd_preconditions {O}. Arguments bd_payload {O}.

(** [Box<dyn Any>]: a body together with its dynamic type. *)
Definition AnyBody : Type := {o : NativeOp & AuthorityBody o}.

Record StoredAuthority := {
  sa_id : RemoteOperationPlanId;
  sa_binding : AuthorityBinding;
  sa_operation_type : NativeOp;
  sa_risk : OperationRisk;
  sa_issued_at : Instant;
  sa_expires_at : Instant;
  sa_body : AnyBody
}.

(** [StoredAuthority::new] *)
Definition stored_new (O : NativeOp) (id : RemoteOperationPlanId) (draft : PlanDraft O)
    (issued_at expires_at : Instant) : StoredAuthority :=
  {| sa_id := id;
     sa_binding := dr_binding draft;
     sa_operation_type := O;
     sa_risk := RISK O;
     sa_issued_at := issued_at;
     sa_expires_at := expires_at;
     sa_body := existT O {| bd_target := dr_target draft;
                            bd_preconditions := dr_preconditions draft;
                            bd_payload := dr_payload draft |} |}.

Record ConsumedAuthority (O : NativeOp) := {
  ca_id : RemoteOperationPlanId;
  ca_binding : AuthorityBinding;
  ca_risk : OperationRisk;
  ca_issued_at : Instant;
  ca_expires_at : Instant;
  ca_target : Target O;
  ca_preconditions : Preconditions O;
  ca_payload : Payload O
}.
Arguments ca_id {O}. Arguments ca_binding {O}. Arguments ca_risk {O}.
Arguments ca_issued_at {O}. Arguments ca_expires_at {O}. Arguments ca_target {O}.
Arguments ca_preconditions {O}. Arguments ca_payload {O}.

(** [Box<dyn Any>::downcast] *)
Definition downcast (O : NativeOp) (b : AnyBody) : option (AuthorityBody O) :=
  let 'existT o body := b in
  match decide (o = O) with
  | left e => Some (eq_rect o AuthorityBody body O e)
  | right _ => None
  end.

(** [StoredAuthority::into_typed] *)
Definition into_typed (O : NativeOp) (a : StoredAuthority) : option (ConsumedAuthority O) :=
  body ← downcast O (sa_body a);
  Some {| ca_id := sa_id a; ca_binding := sa_binding a; ca_risk := sa_risk a;
          ca_issued_at := sa_issued_at a; ca_expires_at := sa_expires_at a;
          ca_target := bd_target body; ca_preconditions := bd_preconditions body;
          ca_payload := bd_payload body |}.

Record PlanReceipt := {
  pr_id : RemoteOperationPlanId;
  pr_binding : AuthorityBinding;
  pr_risk : OperationRisk;
  pr_issued_at : Instant;
  pr_expires_at : Instant;
  pr_superseded : option RemoteOperationPlanId
}.

(** ** The store *)

Definition PLAN_TTL : Duration := from_secs 120.

Record StoreState := {
  pending : gmap RemoteOperationPlanId StoredAuthority;
  by_host : gmap HostId RemoteOperationPlanId;
  sealed : bool
}.

Record AuthorityStore := {
  state : StoreState;
  poisoned : bool;
  ttl : Duration
}.

Definition store_default : AuthorityStore :=
  {| state := {| pending := ∅; by_host := ∅; sealed := false |};
     poisoned := false; ttl := PLAN_TTL |}.

Abbreviation storeM A := (st AuthorityStore AppError A) (only parsing).

Definition unavailable : AppError := app_error Conflict "Remote operation authority is unavailable.".
Definition stale : AppError := app_error Conflict "The remote operation plan is stale.".
Definition expired : AppError := app_error Conflict "The remote operation plan expired.".
Definition missing : AppError :=
  app_error Conflict "The remote operation plan is missing or was already used.".
Definition policy : AppError := app_error Policy "The remote operation identity is invalid.".
Definition shutting_down : AppError :=
  app_error Conflict "NexusOps is shutting down; create a fresh plan after restart.".

Definition lock : storeM StoreState := fun s =>
  if poisoned s then (Err unavailable, s) else (Ok (state s), s).
Definition set_state (st' : StoreState) : storeM unit := fun s =>
  (Ok tt, {| state := st'; poisoned := poisoned s; ttl := ttl s |}).

Definition remove_id (id : RemoteOperationPlanId) (s : StoreState)
    : option StoredAuthority * StoreState :=
  match pending s !! id with
  | None => (None, s)
  | Some removed =>
      let host := ab_host_id (sa_binding removed) in
      (Some removed,
       {| pending := delete id (pending s);
          by_host := if bool_decide (by_host s !! host = Some id)
                     then delete host (by_host s) else by_host s;
          sealed := sealed s |})
  end.

Definition remove_expired (now : Instant) (s : StoreState) : StoreState :=
  let expired_ids :=
    map fst (List.filter (λ p, sa_expires_at p.2 <=? now) (map_to_list (pending s))) in
  foldl (λ s id, (remove_id id s).2) s expired_ids.

(** [state.pending.get(&id).is_some_and(|v| v.expires_at <= now)] *)
Definition has_expired (now : Instant) (id : RemoteOperationPlanId) (s : StoreState) : bool :=
  match pending s !! id with Some v => sa_expires_at v <=? now | None => false end.

Definition insert (O : NativeOp) (now : Instant) (id : RemoteOperationPlanId)
    (draft : PlanDraft O) (current : AuthorityBinding) : storeM PlanReceipt :=
  _ ← st_ensure (bool_decide (dr_binding draft ≠ current)) stale;
  self ← st_get;
  let expires_at := now + ttl self in
  let binding := dr_binding draft in
  let authority := stored_new O id draft now expires_at in
  s ← lock;
  _ ← st_ensure (sealed s) shutting_down;
  let s := remove_expired now s in
  let superseded := by_host s !! ab_host_id binding in
  let pending' :=
    match superseded with Some old => delete old (pending s) | None => pending s end in
  _ ← set_state {| pending := <[id := authority]> pending';
                   by_host := <[ab_host_id binding := id]> (by_host s);
                   sealed := sealed s |};
  mret {| pr_id := id; pr_binding := binding; pr_risk := RISK O; pr_issued_at := now;
          pr_expires_at := expires_at; pr_superseded := superseded |}.

Definition consume (O : NativeOp) (now : Instant) (id : RemoteOperationPlanId)
    (expected : AuthorityBinding) : storeM (ConsumedAuthority O) :=
  s ← lock;
  if has_expired now id s then
    _ ← set_state (remove_id id s).2; st_fail expired
  else
    match pending s !! id with
    | None => st_fail missing
    | Some current =>
        _ ← st_ensure (bool_decide (sa_binding current ≠ expected)) stale;
        _ ← st_ensure (bool_decide (sa_operation_type current ≠ O)
                       || bool_decide (sa_risk current ≠ RISK O)) policy;
        match remove_id id s with
        | (None, _) => st_fail missing
        | (Some stored, s') =>
            _ ← set_state s';
            st_lift (ok_or (into_typed O stored) policy)
        end
    end.

Definition discard (O : NativeOp) (now : Instant) (id : RemoteOperationPlanId)
    (expected : AuthorityBinding) : storeM bool :=
  s ← lock;
  if has_expired now id s then
    _ ← set_state (remove_id id s).2; mret false
  else
    match pending s !! id with
    | None => mret false
    | Some current =>
        _ ← st_ensure (bool_decide (sa_binding current ≠ expected)) stale;
        _ ← st_ensure (bool_decide (sa_operation_type current ≠ O)
                       || bool_decide (sa_risk current ≠ RISK O)) policy;
        let r := remove_id id s in
        _ ← set_state r.2; mret (match r.1 with Some _ => true | None => false end)
    end.

Definition revoke_host (host_id : HostId) : storeM bool :=
  s ← lock;
  match by_host s !! host_id with
  | None => mret false
  | Some id =>
      _ ← set_state {| pending := delete id (pending s);
                       by_host := delete host_id (by_host s); sealed := sealed s |};
      mret (bool_decide (is_Some (pending s !! id)))
  end.

Definition revoke_session (host_id : HostId) (host_session_id : HostSessionId) : storeM bool :=
  s ← lock;
  match by_host s !! host_id with
  | None => mret false
  | Some id =>
      match pending s !! id with
      | Some value =>
          if bool_decide (ab_host_session_id (sa_binding value) = host_session_id) then
            let r := remove_id id s in
            _ ← set_state r.2; mret (match r.1 with Some _ => true | None => false end)
          else mret false
      | None => mret false
      end
  end.

Definition revoke_all : storeM unit :=
  s ← lock; set_state {| pending := ∅; by_host := ∅; sealed := sealed s |}.

Definition seal_and_revoke_all : storeM unit :=
  _ ← lock; set_state {| pending := ∅; by_host := ∅; sealed := true |}.

Definition is_sealed : storeM bool := s ← lock; mret (sealed s).

Definition pending_count (now : Instant) : storeM Z :=
  s ← lock;
  let s := remove_expired now s in
  _ ← set_state s; mret (zsize (pending s)).

Definition contains (now : Instant) (id : RemoteOperationPlanId) : storeM bool :=
  s ← lock;
  let s := remove_expired now s in
  _ ← set_state s; mret (bool_decide (is_Some (pending s !! id))).

(** The timer task of [schedule_expiry], at the moment it fires.  A poisoned
    lock or another deadline leaves the store alone. *)
Definition expiry_fire (id : RemoteOperationPlanId) (expires : Instant)
    (self : AuthorityStore) : AuthorityStore :=
  if poisoned self then self
  else match pending (state self) !! id with
       | Some v => if sa_expires_at v =? expires
                   then {| state := (remove_id id (state self)).2;
                           poisoned := poisoned self; ttl := ttl self |}
                   else self
       | None => self
       end.
