(* ===== verification/AuthorityInv.v ===== *)
(** The authority store: its invariant and the behaviour of each operation
    under it. *)

From S2P Require Import Prelude Str Model SystemdUnit Authority.

Definition host_of (a : StoredAuthority) : HostId := ab_host_id (sa_binding a).

(** A stored plan is filed under its own id, with the body and risk of its
    operation type. *)
Definition entry_ok (id : RemoteOperationPlanId) (a : StoredAuthority) : Prop :=
  sa_id a = id ∧ projT1 (sa_body a) = sa_operation_type a ∧ sa_risk a = RISK (sa_operation_type a).

(** [by_host] is exactly the inverse of "the host of a pending plan". *)
Record wf (s : StoreState) : Prop := {
  wf_index h id : by_host s !! h = Some id ↔ ∃ a, pending s !! id = Some a ∧ host_of a = h;
  wf_entry id a : pending s !! id = Some a → entry_ok id a;
  wf_sealed : sealed s = true → pending s = ∅
}.

(** ** Removal *)

Lemma remove_id_pending id s k :
  pending (remove_id id s).2 !! k = if decide (k = id) then None else pending s !! k.
Proof.
  unfold remove_id. destruct (pending s !! id) eqn:E; cbn.
  - case_decide; subst; [apply lookup_delete_eq|by apply lookup_delete_ne].
  - case_decide; by subst.
Qed.

Lemma remove_id_sealed id s : sealed (remove_id id s).2 = sealed s.
Proof. unfold remove_id. by case_match. Qed.

(** At most one plan per host. *)
Lemma wf_unique s id id' a a' :
  wf s → pending s !! id = Some a → pending s !! id' = Some a' → host_of a = host_of a' → id = id'.
Proof.
  intros Hwf H1 H2 Hh.
  assert (by_host s !! host_of a = Some id) as E1 by (apply (wf_index _ Hwf); eauto).
  assert (by_host s !! host_of a = Some id') as E2 by (apply (wf_index _ Hwf); eauto).
  congruence.
Qed.

Lemma remove_id_by_host id s h :
  wf s → by_host (remove_id id s).2 !! h =
    match by_host s !! h with Some k => if decide (k = id) then None else Some k | None => None end.
Proof.
  intros Hwf. unfold remove_id. destruct (pending s !! id) as [a|] eqn:E; cbn.
  - assert (by_host s !! host_of a = Some id) as Hb by (apply (wf_index _ Hwf); eauto).
    fold (host_of a). rewrite bool_decide_true by done.
    destruct (decide (h = host_of a)) as [->|Hne].
    + rewrite lookup_delete_eq, Hb. by case_decide.
    + rewrite lookup_delete_ne by done. destruct (by_host s !! h) as [k|] eqn:Ek; [|done].
      case_decide; [|done]. subst k. apply (wf_index _ Hwf) in Ek as (a' & Ha' & <-).
      rewrite E in Ha'. congruence.
  - destruct (by_host s !! h) as [k|] eqn:Ek; [|done]. case_decide; [|done]. subst k.
    apply (wf_index _ Hwf) in Ek as (a' & Ha' & _). congruence.
Qed.

Lemma remove_id_wf id s : wf s → wf (remove_id id s).2.
Proof.
  intros Hwf. split.
  - intros h k. rewrite remove_id_by_host, remove_id_pending by done. split.
    + destruct (by_host s !! h) as [k'|] eqn:Ek; [|done]. case_decide; [done|]. intros [= ->].
      rewrite decide_False by done. by apply (wf_index _ Hwf).
    + case_decide; [naive_solver|]. intros Hx%(wf_index _ Hwf). rewrite Hx. by rewrite decide_False.
  - intros k a. rewrite remove_id_pending. case_decide; [done|]. apply (wf_entry _ Hwf).
  - rewrite remove_id_sealed. intros Hs. apply map_empty. intros k.
    rewrite remove_id_pending, (wf_sealed _ Hwf Hs), lookup_empty. by case_decide.
Qed.

Lemma remove_ids_wf ids s : wf s → wf (foldl (λ s id, (remove_id id s).2) s ids).
Proof. revert s; induction ids as [|id ids IH]; cbn; intros s Hwf; [done|]. auto using remove_id_wf. Qed.

Lemma remove_ids_pending ids s k :
  pending (foldl (λ s id, (remove_id id s).2) s ids) !! k
  = if decide (k ∈ ids) then None else pending s !! k.
Proof.
  revert s; induction ids as [|id ids IH]; cbn; intros s.
  - by rewrite decide_False by set_solver.
  - rewrite IH, remove_id_pending. repeat case_decide; set_solver.
Qed.

Lemma remove_ids_sealed ids s : sealed (foldl (λ s id, (remove_id id s).2) s ids) = sealed s.
Proof. revert s; induction ids as [|id ids IH]; cbn; intros s; [done|]. by rewrite IH, remove_id_sealed. Qed.

Definition live_at (now : Instant) (a : StoredAuthority) : bool := now <? sa_expires_at a.

(** [remove_expired] keeps exactly the plans whose deadline is in the future,
    whatever the iteration order of the hash map. *)
Lemma remove_expired_pending now s k :
  pending (remove_expired now s) !! k
  = (a ← pending s !! k; if live_at now a then Some a else None).
Proof.
  unfold remove_expired. rewrite remove_ids_pending.
  assert (k ∈ map fst (List.filter (λ p, sa_expires_at p.2 <=? now) (map_to_list (pending s))) ↔
          ∃ a, pending s !! k = Some a ∧ sa_expires_at a ≤ now) as Hk.
  { rewrite list_elem_of_In, in_map_iff. setoid_rewrite filter_In. split.
    - intros ([k' a] & <- & Hin & Hle). cbn in *. split_bools. exists a. split; [|done].
      by apply elem_of_map_to_list, list_elem_of_In.
    - intros (a & Ha & Hle). exists (k, a). cbn. split; [done|]. split; [|by apply Z.leb_le].
      by apply list_elem_of_In, elem_of_map_to_list. }
  unfold live_at. case_decide as Hd.
  - apply Hk in Hd as (a & -> & Hle). cbn. case_match; split_bools; [lia|done].
  - destruct (pending s !! k) as [a|]; cbn; [|done]. case_match; split_bools; [done|].
    exfalso. apply Hd, Hk. eauto.
Qed.

Lemma remove_expired_wf now s : wf s → wf (remove_expired now s).
Proof. apply remove_ids_wf. Qed.

Lemma remove_expired_sealed now s : sealed (remove_expired now s) = sealed s.
Proof. apply remove_ids_sealed. Qed.

#[export] Hint Resolve remove_id_wf remove_expired_wf : nexus.
#[export] Hint Rewrite remove_id_sealed remove_expired_sealed : nexus.

Lemma wf_cleared sl : wf {| pending := ∅; by_host := ∅; sealed := sl |}.
Proof. split; cbn; [|done|done]. intros h id. rewrite lookup_empty. setoid_rewrite lookup_empty. naive_solver. Qed.

(** ** Publication *)

(** What [insert] leaves in the store when it succeeds. *)
Definition published (O : NativeOp) (now : Instant) (id : RemoteOperationPlanId)
    (draft : PlanDraft O) (self : AuthorityStore) : StoreState :=
  let s := remove_expired now (state self) in
  let host := ab_host_id (dr_binding draft) in
  {| pending := <[id := stored_new O id draft now (now + ttl self)]>
                  (match by_host s !! host with Some old => delete old (pending s) | None => pending s end);
     by_host := <[host := id]> (by_host s);
     sealed := sealed s |}.

Lemma insert_cases O now id draft current self :
  insert O now id draft current self =
  if bool_decide (dr_binding draft ≠ current) then (Err stale, self)
  else if poisoned self then (Err unavailable, self)
  else if sealed (state self) then (Err shutting_down, self)
  else (Ok {| pr_id := id; pr_binding := dr_binding draft; pr_risk := RISK O; pr_issued_at := now;
              pr_expires_at := now + ttl self;
              pr_superseded := by_host (remove_expired now (state self)) !! ab_host_id (dr_binding draft) |},
        {| state := published O now id draft self; poisoned := poisoned self; ttl := ttl self |}).
Proof.
  unfold insert, published, lock, set_state. unfold_bind.
  destruct (bool_decide _); [done|]. destruct self as [s [] t]; cbn; [done|].
  by destruct (sealed s).
Qed.

Lemma stored_new_ok O id draft t1 t2 : entry_ok id (stored_new O id draft t1 t2).
Proof. done. Qed.

(** The superseded plan of the host is the one that goes. *)
Lemma supersede_lookup s host k :
  wf s →
  (match by_host s !! host with Some old => delete old (pending s) | None => pending s end) !! k
  = (a ← pending s !! k; if decide (host_of a = host) then None else Some a).
Proof.
  intros Hwf. destruct (by_host s !! host) as [old|] eqn:Eo.
  - apply (wf_index _ Hwf) in Eo as Ho. destruct Ho as (a0 & Ha0 & Hh0).
    destruct (decide (k = old)) as [->|Hne].
    + rewrite lookup_delete_eq, Ha0. cbn. by rewrite decide_True.
    + rewrite lookup_delete_ne by done. destruct (pending s !! k) as [a|] eqn:Ea; [|done]. cbn.
      rewrite decide_False; [done|]. intros Hh. apply Hne. eapply wf_unique; eauto. congruence.
  - destruct (pending s !! k) as [a|] eqn:Ea; [|done]. cbn. rewrite decide_False; [done|].
    intros Hh. assert (by_host s !! host = Some k) by (apply (wf_index _ Hwf); eauto). congruence.
Qed.

Lemma wf_publish s O id draft t1 t2 (host := ab_host_id (dr_binding draft)) :
  wf s → pending s !! id = None →
  wf {| pending := <[id := stored_new O id draft t1 t2]>
          (match by_host s !! host with Some old => delete old (pending s) | None => pending s end);
        by_host := <[host := id]> (by_host s); sealed := false |}.
Proof.
  intros Hwf Hf. split; cbn; [| |done].
  - intros h k. destruct (decide (k = id)) as [->|Hk].
    + rewrite lookup_insert_eq. split.
      * destruct (decide (h = host)) as [->|Hh]; [eauto|]. rewrite lookup_insert_ne by done.
        intros (a & Ha & _)%(wf_index _ Hwf). congruence.
      * intros (a & [= <-] & <-). apply lookup_insert_eq.
    + rewrite (lookup_insert_ne _ id k), supersede_lookup by done.
      destruct (decide (h = host)) as [->|Hh].
      * rewrite lookup_insert_eq. split; [congruence|]. intros (a & Ha & Hh).
        destruct (pending s !! k); cbn in Ha; [|done]. case_decide; congruence.
      * rewrite lookup_insert_ne by done. rewrite (wf_index _ Hwf). split.
        -- intros (a & -> & <-). exists a. cbn. by rewrite decide_False.
        -- intros (a & Ha & <-). destruct (pending s !! k); cbn in Ha; [|done].
           case_decide; simplify_eq. eauto.
  - intros k a. destruct (decide (k = id)) as [->|Hk].
    + rewrite lookup_insert_eq. intros [= <-]. apply stored_new_ok.
    + rewrite lookup_insert_ne, supersede_lookup by done.
      destruct (pending s !! k) as [a'|] eqn:Ea; cbn; [|done]. case_decide; [done|].
      intros [= <-]. by apply (wf_entry _ Hwf).
Qed.

Lemma published_wf O now id draft self :
  wf (state self) → sealed (state self) = false → pending (state self) !! id = None →
  wf (published O now id draft self).
Proof.
  intros Hwf Hsl Hfresh. unfold published. cbn zeta. rewrite remove_expired_sealed, Hsl.
  apply wf_publish; [by apply remove_expired_wf|]. by rewrite remove_expired_pending, Hfresh.
Qed.

(** ** Consumption and discarding *)

(** The typed view of a stored plan; [wf] makes the downcast succeed. *)
Lemma into_typed_wf id a O :
  entry_ok id a → sa_operation_type a = O →
  ∃ c, into_typed O a = Some c ∧ ca_id c = id ∧ ca_binding c = sa_binding a ∧
       ca_risk c = RISK O ∧ ca_issued_at c = sa_issued_at a ∧ ca_expires_at c = sa_expires_at a.
Proof.
  intros (Hid & Hty & Hr) <-. unfold into_typed, downcast.
  destruct (sa_body a) as [o body]. cbn in Hty. subst o.
  destruct (decide _) as [e|]; [|done]. cbn. eexists. split; [done|]. cbn. auto.
Qed.

(** A stored plan keeps what its draft said. *)
Lemma into_typed_stored_new O id draft t1 t2 :
  into_typed O (stored_new O id draft t1 t2) =
  Some {| ca_id := id; ca_binding := dr_binding draft; ca_risk := RISK O; ca_issued_at := t1;
          ca_expires_at := t2; ca_target := dr_target draft;
          ca_preconditions := dr_preconditions draft; ca_payload := dr_payload draft |}.
Proof.
  unfold into_typed, downcast, stored_new. cbn.
  destruct (decide (O = O)) as [e|]; [|done]. cbn. by rewrite (proof_irrel e eq_refl).
Qed.

Definition with_state (s : StoreState) (self : AuthorityStore) : AuthorityStore :=
  {| state := s; poisoned := poisoned self; ttl := ttl self |}.

Definition removed (id : RemoteOperationPlanId) (self : AuthorityStore) : AuthorityStore :=
  with_state (remove_id id (state self)).2 self.

Lemma remove_id_fst id s : (remove_id id s).1 = pending s !! id.
Proof. unfold remove_id. by case_match. Qed.

(** Every branch of [consume] on a well-formed, unpoisoned store. *)
Lemma consume_cases O now id expected self :
  wf (state self) → poisoned self = false →
  consume O now id expected self =
  match pending (state self) !! id with
  | None => (Err missing, self)
  | Some a =>
      if negb (live_at now a) then (Err expired, removed id self)
      else if bool_decide (sa_binding a ≠ expected) then (Err stale, self)
      else if bool_decide (sa_operation_type a ≠ O) then (Err policy, self)
      else (ok_or (into_typed O a) policy, removed id self)
  end.
Proof.
  intros Hwf Hp. unfold consume, lock, has_expired, set_state. unfold_bind. rewrite Hp.
  destruct (pending (state self) !! id) as [a|] eqn:Ea; [|done].
  unfold live_at. rewrite <-Z.leb_antisym.
  destruct (sa_expires_at a <=? now); [done|].
  destruct (bool_decide (sa_binding a ≠ expected)); [done|].
  pose proof (wf_entry _ Hwf _ _ Ea) as (_ & _ & Hr). rewrite Hr.
  case_bool_decide; cbn; [done|]. rewrite bool_decide_false by (intros ?; congruence).
  unfold removed. pose proof (remove_id_fst id (state self)) as Hf. rewrite Ea in Hf.
  destruct (remove_id id (state self)) as [o s']. cbn in Hf. subst o. by destruct (into_typed O a).
Qed.

Lemma discard_cases O now id expected self :
  wf (state self) → poisoned self = false →
  discard O now id expected self =
  match pending (state self) !! id with
  | None => (Ok false, self)
  | Some a =>
      if negb (live_at now a) then (Ok false, removed id self)
      else if bool_decide (sa_binding a ≠ expected) then (Err stale, self)
      else if bool_decide (sa_operation_type a ≠ O) then (Err policy, self)
      else (Ok true, removed id self)
  end.
Proof.
  intros Hwf Hp. unfold discard, lock, has_expired, set_state. unfold_bind. rewrite Hp.
  destruct (pending (state self) !! id) as [a|] eqn:Ea; [|done].
  unfold live_at. rewrite <-Z.leb_antisym.
  destruct (sa_expires_at a <=? now); [done|].
  destruct (bool_decide (sa_binding a ≠ expected)); [done|].
  pose proof (wf_entry _ Hwf _ _ Ea) as (_ & _ & Hr). rewrite Hr.
  case_bool_decide; cbn; [done|]. rewrite bool_decide_false by (intros ?; congruence).
  by rewrite remove_id_fst, Ea.
Qed.

(** Under [wf], [revoke_host] removes the plan of the host. *)
Lemma revoke_host_cases h self :
  wf (state self) → poisoned self = false →
  revoke_host h self =
  match by_host (state self) !! h with
  | None => (Ok false, self)
  | Some id => (Ok true, removed id self)
  end.
Proof.
  intros Hwf Hp. unfold revoke_host, lock, set_state. unfold_bind. rewrite Hp.
  destruct (by_host (state self) !! h) as [id|] eqn:E; [|done].
  pose proof (proj1 (wf_index _ Hwf _ _) E) as (a & Ha & Hh).
  rewrite bool_decide_true by (by rewrite Ha). unfold removed, with_state, remove_id. rewrite Ha.
  cbn. fold (host_of a). by rewrite Hh, bool_decide_true.
Qed.

Lemma revoke_session_cases h sid self :
  wf (state self) → poisoned self = false →
  revoke_session h sid self =
  match by_host (state self) !! h ≫= λ id, pending (state self) !! id with
  | Some a => if bool_decide (ab_host_session_id (sa_binding a) = sid)
              then (Ok true, removed (sa_id a) self) else (Ok false, self)
  | None => (Ok false, self)
  end.
Proof.
  intros Hwf Hp. unfold revoke_session, lock, set_state. unfold_bind. rewrite Hp.
  destruct (by_host (state self) !! h) as [id|] eqn:E; cbn; [|done].
  pose proof (proj1 (wf_index _ Hwf _ _) E) as (a & Ha & Hh). cbn. rewrite Ha.
  pose proof (wf_entry _ Hwf _ _ Ha) as (-> & _ & _).
  case_bool_decide; [|done]. by rewrite remove_id_fst, Ha.
Qed.
