(* ===== verification/AuthorityRefine.v ===== *)
(** Reachable states of the authority store and its abstract specification. *)

From S2P Require Import Prelude Str Model SystemdUnit Authority AuthorityInv.

(** One call on the store, with the clock reading and the fresh id it draws. *)
Inductive store_op :=
| OpInsert (O : NativeOp) (now : Instant) (id : RemoteOperationPlanId)
    (draft : PlanDraft O) (current : AuthorityBinding)
| OpConsume (O : NativeOp) (now : Instant) (id : RemoteOperationPlanId) (expected : AuthorityBinding)
| OpDiscard (O : NativeOp) (now : Instant) (id : RemoteOperationPlanId) (expected : AuthorityBinding)
| OpRevokeHost (h : HostId)
| OpRevokeSession (h : HostId) (sid : HostSessionId)
| OpRevokeAll
| OpSeal
| OpIsSealed
| OpPendingCount (now : Instant)
| OpContains (now : Instant) (id : RemoteOperationPlanId)
| OpExpiryFire (id : RemoteOperationPlanId) (expires : Instant).

Inductive store_res :=
| RReceipt (r : PlanReceipt)
| RConsumed (O : NativeOp) (c : ConsumedAuthority O)
| RBool (b : bool)
| RCount (n : Z)
| RUnit.

Definition run (op : store_op) : st AuthorityStore AppError store_res :=
  match op with
  | OpInsert o now id draft current => r ← insert o now id draft current; mret (RReceipt r)
  | OpConsume o now id expected => c ← consume o now id expected; mret (RConsumed o c)
  | OpDiscard o now id expected => b ← discard o now id expected; mret (RBool b)
  | OpRevokeHost h => b ← revoke_host h; mret (RBool b)
  | OpRevokeSession h sid => b ← revoke_session h sid; mret (RBool b)
  | OpRevokeAll => _ ← revoke_all; mret RUnit
  | OpSeal => _ ← seal_and_revoke_all; mret RUnit
  | OpIsSealed => b ← is_sealed; mret (RBool b)
  | OpPendingCount now => n ← pending_count now; mret (RCount n)
  | OpContains now id => b ← contains now id; mret (RBool b)
  | OpExpiryFire id expires => fun self => (Ok RUnit, expiry_fire id expires self)
  end.

(** A new UUID does not collide with a pending one. *)
Definition fresh_for (op : store_op) (self : AuthorityStore) : Prop :=
  match op with OpInsert _ _ id _ _ => pending (state self) !! id = None | _ => True end.

Inductive store_reachable : AuthorityStore → Prop :=
| reach_default : store_reachable store_default
| reach_step self op :
    store_reachable self → fresh_for op self → store_reachable (run op self).2.

(** ** The abstract store: the live plan of each host *)

(** [a_broken]: the lock is poisoned. *)
Record aspec := { live : gmap HostId StoredAuthority; a_sealed : bool; a_ttl : Duration; a_broken : bool }.

Definition find_plan (id : RemoteOperationPlanId) (m : gmap HostId StoredAuthority)
    : option StoredAuthority :=
  snd <$> List.find (λ p, (sa_id p.2 =? id)%N) (map_to_list m).

Definition drop_plan (id : RemoteOperationPlanId) (m : gmap HostId StoredAuthority) :=
  filter (λ p, sa_id p.2 ≠ id) m.

Definition live_only (now : Instant) (m : gmap HostId StoredAuthority) :=
  filter (λ p, live_at now p.2 = true) m.

Definition with_live (m : gmap HostId StoredAuthority) (a : aspec) : aspec :=
  {| live := m; a_sealed := a_sealed a; a_ttl := a_ttl a; a_broken := a_broken a |}.

(** Claiming a plan, for consumption or for discarding: what the caller must
    present, and what happens to the plan. *)
Definition spec_claim (O : NativeOp) (now : Instant) (id : RemoteOperationPlanId)
    (expected : AuthorityBinding) (absent late : Res store_res)
    (found : StoredAuthority → Res store_res) (a : aspec) : Res store_res * aspec :=
  match find_plan id (live a) with
  | None => (absent, a)
  | Some p =>
      if negb (live_at now p) then (late, with_live (drop_plan id (live a)) a)
      else if bool_decide (sa_binding p ≠ expected) then (Err stale, a)
      else if bool_decide (sa_operation_type p ≠ O) then (Err policy, a)
      else (found p, with_live (drop_plan id (live a)) a)
  end.

(** A broken store refuses every call, after the check an insertion makes
    first; its timers do nothing. *)
Definition spec_broken (op : store_op) : Res store_res :=
  match op with
  | OpInsert _ _ _ draft current => if bool_decide (dr_binding draft ≠ current) then Err stale else Err unavailable
  | OpExpiryFire _ _ => Ok RUnit
  | _ => Err unavailable
  end.

Definition spec_run (op : store_op) (a : aspec) : Res store_res * aspec :=
  if a_broken a then (spec_broken op, a) else
  match op with
  | OpInsert o now id draft current =>
      let h := ab_host_id (dr_binding draft) in
      if bool_decide (dr_binding draft ≠ current) then (Err stale, a)
      else if a_sealed a then (Err shutting_down, a)
      else (Ok (RReceipt {| pr_id := id; pr_binding := dr_binding draft; pr_risk := RISK o;
                            pr_issued_at := now; pr_expires_at := now + a_ttl a;
                            pr_superseded := sa_id <$> live_only now (live a) !! h |}),
            with_live (<[h := stored_new o id draft now (now + a_ttl a)]> (live_only now (live a))) a)
  | OpConsume o now id expected =>
      spec_claim o now id expected (Err missing) (Err expired)
        (λ p, RConsumed o <$> ok_or (into_typed o p) policy) a
  | OpDiscard o now id expected =>
      spec_claim o now id expected (Ok (RBool false)) (Ok (RBool false)) (λ _, Ok (RBool true)) a
  | OpRevokeHost h =>
      (Ok (RBool (bool_decide (is_Some (live a !! h)))), with_live (delete h (live a)) a)
  | OpRevokeSession h sid =>
      match live a !! h with
      | Some p => if bool_decide (ab_host_session_id (sa_binding p) = sid)
                  then (Ok (RBool true), with_live (delete h (live a)) a) else (Ok (RBool false), a)
      | None => (Ok (RBool false), a)
      end
  | OpRevokeAll => (Ok RUnit, with_live ∅ a)
  | OpSeal => (Ok RUnit, {| live := ∅; a_sealed := true; a_ttl := a_ttl a; a_broken := false |})
  | OpIsSealed => (Ok (RBool (a_sealed a)), a)
  | OpPendingCount now =>
      (Ok (RCount (zsize (live_only now (live a)))), with_live (live_only now (live a)) a)
  | OpContains now id =>
      (Ok (RBool (bool_decide (is_Some (find_plan id (live_only now (live a)))))), with_live (live_only now (live a)) a)
  | OpExpiryFire id expires =>
      match find_plan id (live a) with
      | Some p => if sa_expires_at p =? expires
                  then (Ok RUnit, with_live (drop_plan id (live a)) a) else (Ok RUnit, a)
      | None => (Ok RUnit, a)
      end
  end.

(** Abstraction: follow [by_host] into [pending]. *)
Definition abs_live (s : StoreState) : gmap HostId StoredAuthority :=
  omap (λ id, pending s !! id) (by_host s).

Definition abs (self : AuthorityStore) : aspec :=
  {| live := abs_live (state self); a_sealed := sealed (state self); a_ttl := ttl self; a_broken := poisoned self |}.

(** ** The invariant holds in every reachable state *)

(** A poisoned store answers every call without looking at its plans. *)
Lemma run_poisoned op self : poisoned self = true → run op self = (spec_broken op, self).
Proof.
  intros Hp. destruct op; cbn; unfold_bind.
  { rewrite insert_cases, Hp. by destruct (bool_decide _). }
  all: unfold consume, discard, revoke_host, revoke_session, revoke_all, seal_and_revoke_all, is_sealed,
    pending_count, contains, expiry_fire, lock; unfold_bind; by rewrite Hp.
Qed.

Lemma run_state_cases op self (P : StoreState → Prop) :
  wf (state self) → fresh_for op self →
  P (state self) →
  (∀ id, P (remove_id id (state self)).2) →
  (∀ O now id draft cur, op = OpInsert O now id draft cur →
     pending (state self) !! id = None → sealed (state self) = false →
     P (published O now id draft self)) →
  (∀ now, P (remove_expired now (state self))) →
  P {| pending := ∅; by_host := ∅; sealed := sealed (state self) |} →
  P {| pending := ∅; by_host := ∅; sealed := true |} →
  P (state (run op self).2).
Proof.
  intros Hwf Hf HP Hrm Hpub Hexp Hclr Hseal.
  destruct (poisoned self) eqn:Hp.
  { by rewrite run_poisoned. }
  destruct op; cbn; unfold_bind.
  - rewrite insert_cases, Hp. repeat case_match; simplify_eq/=; eauto.
  - rewrite consume_cases by done. repeat case_match; simplify_eq/=; auto.
  - rewrite discard_cases by done. repeat case_match; simplify_eq/=; auto.
  - rewrite revoke_host_cases by done. repeat case_match; simplify_eq/=; auto.
  - rewrite revoke_session_cases by done. repeat case_match; simplify_eq/=; auto.
  - unfold revoke_all, lock, set_state. unfold_bind. rewrite Hp. cbn. auto.
  - unfold seal_and_revoke_all, lock, set_state. unfold_bind. rewrite Hp. cbn. auto.
  - unfold is_sealed, lock. unfold_bind. rewrite Hp. cbn. auto.
  - unfold pending_count, lock, set_state. unfold_bind. rewrite Hp. cbn. auto.
  - unfold contains, lock, set_state. unfold_bind. rewrite Hp. cbn. auto.
  - unfold expiry_fire. rewrite Hp. repeat case_match; simplify_eq/=; auto.
Qed.

Lemma run_wf op self : wf (state self) → fresh_for op self → wf (state (run op self).2).
Proof.
  intros Hwf Hf. apply run_state_cases; eauto using wf_cleared, published_wf with nexus.
Qed.

(** Only [insert] adds a plan, and only the one it was asked to add. *)
Lemma run_pending op self k a :
  wf (state self) → fresh_for op self →
  pending (state (run op self).2) !! k = Some a →
  pending (state self) !! k = Some a ∨ ∃ O now draft cur, op = OpInsert O now k draft cur.
Proof.
  intros Hwf Hf.
  apply (run_state_cases op self (λ s, pending s !! k = Some a → _)); auto; cbn.
  - intros id. rewrite remove_id_pending. case_decide; [done|auto].
  - intros O now id draft cur -> Hid _. destruct (decide (k = id)) as [->|Hne]; [eauto 10|].
    rewrite lookup_insert_ne, supersede_lookup, remove_expired_pending by (auto with nexus).
    destruct (pending (state self) !! k) as [a'|]; cbn; [|done].
    destruct (live_at now a'); cbn; [|done]. case_decide; [done|auto].
  - intros now. rewrite remove_expired_pending. destruct (pending (state self) !! k); cbn; [|done].
    case_match; [auto|done].
  - by rewrite lookup_empty.
  - by rewrite lookup_empty.
Qed.

(** Sealing is permanent. *)
Lemma run_sealed op self :
  wf (state self) → fresh_for op self →
  sealed (state self) = true → sealed (state (run op self).2) = true.
Proof.
  intros Hwf Hf Hs. apply run_state_cases; auto; intros; cbn; rewrite ?remove_id_sealed, ?remove_expired_sealed; auto.
Qed.

Lemma bind_ret_state {S E A B} (m : st S E A) (f : A → B) s :
  ((x ← m; mret (f x)) s).2 = (m s).2.
Proof. unfold_bind. by destruct (m s) as [[a|e] s']. Qed.

(** In every state the authority store can reach, [by_host] indexes the
    pending plans exactly (so a host has at most one pending plan), each plan
    is filed under its own id with the body and risk of its operation, and a
    sealed store holds no plan. *)
Theorem authority_store_invariant self : store_reachable self → wf (state self).
Proof. induction 1; [apply wf_cleared|by apply run_wf]. Qed.

(** ** Refinement *)

Lemma abs_live_at s h : abs_live s !! h = by_host s !! h ≫= λ id, pending s !! id.
Proof. apply lookup_omap. Qed.

Lemma abs_live_lookup s h a :
  wf s → abs_live s !! h = Some a ↔ pending s !! sa_id a = Some a ∧ host_of a = h.
Proof.
  intros Hwf. unfold abs_live. rewrite lookup_omap_Some. split.
  - intros (id & Ha & Hh). pose proof (wf_entry _ Hwf _ _ Ha) as (<- & _).
    split; [done|]. apply (wf_index _ Hwf) in Hh as (a' & Ha' & <-). congruence.
  - intros [Ha Hh]. exists (sa_id a). split; [done|]. apply (wf_index _ Hwf). eauto.
Qed.

Lemma find_plan_abs s id : wf s → find_plan id (abs_live s) = pending s !! id.
Proof.
  intros Hwf. unfold find_plan.
  destruct (List.find _ _) as [[h a]|] eqn:E; cbn.
  - apply find_some in E as [Hin Hid]. cbn in Hid. apply N.eqb_eq in Hid. subst id.
    apply list_elem_of_In, elem_of_map_to_list, (abs_live_lookup _ _ _ Hwf) in Hin as [-> _]. done.
  - destruct (pending s !! id) as [a|] eqn:Ea; [|done]. exfalso.
    pose proof (wf_entry _ Hwf _ _ Ea) as (Hid & _). subst id.
    eapply find_none in E; [|apply list_elem_of_In, elem_of_map_to_list, (abs_live_lookup s (host_of a) a); auto].
    cbn in E. by rewrite N.eqb_refl in E.
Qed.

(** Two well-formed states with the same plans abstract to the same map. *)
Lemma abs_live_ext s (m : gmap HostId StoredAuthority) :
  wf s →
  (∀ h a, m !! h = Some a ↔ pending s !! sa_id a = Some a ∧ host_of a = h) →
  abs_live s = m.
Proof.
  intros Hwf Hm. apply map_eq. intros h. apply option_eq. intros a.
  by rewrite Hm, abs_live_lookup.
Qed.

Lemma abs_remove_id id s : wf s → abs_live (remove_id id s).2 = drop_plan id (abs_live s).
Proof.
  intros Hwf. apply abs_live_ext; [by apply remove_id_wf|]. intros h a.
  unfold drop_plan. rewrite map_lookup_filter_Some, abs_live_lookup, remove_id_pending by done.
  cbn. case_decide; naive_solver.
Qed.

Lemma abs_remove_expired now s :
  wf s → abs_live (remove_expired now s) = live_only now (abs_live s).
Proof.
  intros Hwf. apply abs_live_ext; [by apply remove_expired_wf|]. intros h a.
  unfold live_only. rewrite map_lookup_filter_Some, abs_live_lookup, remove_expired_pending by done.
  cbn. destruct (pending s !! sa_id a) as [a'|]; cbn; [|naive_solver].
  destruct (live_at now a') eqn:E; split; intros; destruct_and?; simplify_eq; repeat split; congruence.
Qed.

Lemma abs_published O now id draft self :
  wf (state self) → sealed (state self) = false → pending (state self) !! id = None →
  abs_live (published O now id draft self) =
  <[ab_host_id (dr_binding draft) := stored_new O id draft now (now + ttl self)]>
    (live_only now (abs_live (state self))).
Proof.
  intros Hwf Hsl Hf. rewrite <-abs_remove_expired by done.
  apply abs_live_ext; [by apply published_wf|]. intros h a.
  pose proof (remove_expired_wf now _ Hwf) as Hwf'.
  assert (pending (remove_expired now (state self)) !! id = None) as Hf'.
  { by rewrite remove_expired_pending, Hf. }
  unfold published. cbn [pending by_host sealed].
  revert Hwf' Hf'. generalize (remove_expired now (state self)) as s. intros s Hwf' Hf'.
  rewrite lookup_insert_Some, abs_live_lookup by done.
  destruct (decide (sa_id a = id)) as [Hid|Hid].
  - rewrite Hid, lookup_insert_eq. split.
    + intros [[<- <-]|(_ & Ha & _)]; [done|congruence].
    + intros [[= <-] <-]. auto.
  - rewrite lookup_insert_ne, supersede_lookup by done. split.
    + intros [[<- <-]|(Hne & Ha & Hh)]; [done|]. rewrite Ha. cbn. subst h. by rewrite decide_False.
    + intros [Ha <-]. right. destruct (pending s !! sa_id a) as [a'|]; cbn in Ha; [|done].
      case_decide; simplify_eq. auto.
Qed.

Lemma abs_removed id self :
  wf (state self) → abs (removed id self) = with_live (drop_plan id (abs_live (state self))) (abs self).
Proof.
  intros Hwf. unfold abs, removed, with_live. cbn. by rewrite abs_remove_id, remove_id_sealed.
Qed.

(** Dropping the plan found at a host is deleting the host. *)
Lemma drop_plan_host s h id :
  wf s → by_host s !! h = Some id → drop_plan id (abs_live s) = delete h (abs_live s).
Proof.
  intros Hwf Hb. apply map_eq. intros k. apply option_eq. intros a.
  unfold drop_plan. rewrite map_lookup_filter_Some, lookup_delete_Some, abs_live_lookup by done. cbn.
  assert (∀ b, pending s !! sa_id b = Some b → sa_id b = id ↔ host_of b = h) as Hid.
  { intros b Hpb. pose proof (proj1 (wf_index _ Hwf _ _) Hb) as (a' & Ha' & Hh).
    split; [intros Hi; rewrite Hi, Ha' in Hpb; congruence|].
    intros Hh'. eapply (wf_unique s _ _ b a'); eauto. congruence. }
  split; [intros [[Hp Hh] Hne]|intros (Hne & Hp & Hh)]; specialize (Hid a Hp);
    repeat split; auto; intros ?; apply Hne; naive_solver.
Qed.

Lemma abs_size s : wf s → size (abs_live s) = size (pending s).
Proof.
  intros Hwf. rewrite <-!length_map_to_list, <-(length_map snd (map_to_list (pending s))),
    <-(length_map snd (map_to_list (abs_live s))).
  apply Permutation_length, NoDup_Permutation.
  - apply NoDup_fmap_2_strong; [|apply NoDup_map_to_list].
    intros [h a] [h' a'] H1 H2 Heq. cbn in Heq. subst a'.
    apply elem_of_map_to_list, (abs_live_lookup _ _ _ Hwf) in H1, H2. naive_solver.
  - apply NoDup_fmap_2_strong; [|apply NoDup_map_to_list].
    intros [i a] [i' a'] H1 H2 Heq. cbn in Heq. subst a'.
    apply elem_of_map_to_list, (wf_entry _ Hwf) in H1, H2.
    destruct H1 as (? & _), H2 as (? & _). congruence.
  - intros a. rewrite !list_elem_of_fmap. split.
    + intros ([h a'] & -> & H). apply elem_of_map_to_list, (abs_live_lookup _ _ _ Hwf) in H as [H _].
      exists (sa_id a', a'). split; [done|]. by apply elem_of_map_to_list.
    + intros ([i a'] & -> & H). apply elem_of_map_to_list in H.
      pose proof (wf_entry _ Hwf _ _ H) as (<- & _).
      exists (host_of a', a'). split; [done|]. apply elem_of_map_to_list, abs_live_lookup; auto.
Qed.

Lemma spec_claim_abs O now id expected absent late found self :
  wf (state self) →
  spec_claim O now id expected absent late found (abs self) =
  match pending (state self) !! id with
  | None => (absent, abs self)
  | Some p =>
      if negb (live_at now p) then (late, abs (removed id self))
      else if bool_decide (sa_binding p ≠ expected) then (Err stale, abs self)
      else if bool_decide (sa_operation_type p ≠ O) then (Err policy, abs self)
      else (found p, abs (removed id self))
  end.
Proof. intros Hwf. unfold spec_claim. cbn [abs live]. by rewrite find_plan_abs, abs_removed. Qed.

Lemma published_sealed O now id draft self :
  sealed (published O now id draft self) = sealed (state self).
Proof. apply remove_expired_sealed. Qed.

Lemma superseded_abs now s h :
  wf s → sa_id <$> live_only now (abs_live s) !! h = by_host (remove_expired now s) !! h.
Proof.
  intros Hwf. pose proof (remove_expired_wf now _ Hwf) as Hwf'.
  rewrite <-abs_remove_expired, abs_live_at by done.
  destruct (by_host (remove_expired now s) !! h) as [old|] eqn:E; [|done]. cbn.
  apply (wf_index _ Hwf') in E as (a & Ha & _). rewrite Ha. cbn.
  by pose proof (wf_entry _ Hwf' _ _ Ha) as (-> & _).
Qed.

(** [C8] Every call on a well-formed store returns what the abstract store
    (one live plan per host) returns, and moves the abstract store the same
    way: publishing supersedes the host's plan and forgets expired ones,
    claiming a plan checks deadline, binding and operation in that order and
    removes it, sealing forgets everything for good, and counting or looking
    for plans forgets the expired ones.  A store whose lock is poisoned refuses
    every call and keeps its plans.  The calls are all of [AuthorityStore]'s
    and its timers'; the identifier of a new plan is not that of a pending
    one. *)
Theorem authority_store_refines op self :
  wf (state self) → fresh_for op self →
  spec_run op (abs self) = ((run op self).1, abs (run op self).2).
Proof.
  intros Hwf Hf. destruct (poisoned self) eqn:Hp.
  { rewrite run_poisoned by done. unfold spec_run. cbn [abs a_broken]. by rewrite Hp. }
  unfold spec_run. cbn [abs a_broken]. rewrite Hp.
  destruct op as [o now id draft cur|o now id ex|o now id ex|h|h sid| | | |now|now id|id ex]; cbn [run].
  - unfold_bind. rewrite insert_cases, Hp. cbn [abs a_sealed a_ttl live].
    destruct (bool_decide _); [done|]. destruct (sealed (state self)) eqn:Hs; [done|].
    rewrite superseded_abs by done. unfold abs, with_live.
    cbn [fst snd live a_sealed a_ttl state poisoned ttl].
    rewrite abs_published, published_sealed by done. cbn. by rewrite Hp.
  - unfold_bind. rewrite spec_claim_abs, consume_cases by done.
    repeat case_match; simplify_eq/=; done.
  - unfold_bind. rewrite spec_claim_abs, discard_cases by done.
    repeat case_match; simplify_eq/=; done.
  - unfold_bind. rewrite revoke_host_cases by done. cbn [abs live].
    rewrite abs_live_at.
    destruct (by_host (state self) !! h) as [id|] eqn:E; cbn.
    + pose proof (proj1 (wf_index _ Hwf _ _) E) as (a & -> & _).
      by rewrite abs_removed, (drop_plan_host _ h id).
    + rewrite delete_id; [done|]. by rewrite abs_live_at, E.
  - unfold_bind. rewrite revoke_session_cases by done. cbn [abs live].
    rewrite abs_live_at.
    destruct (by_host (state self) !! h) as [id|] eqn:E; cbn; [|done].
    pose proof (proj1 (wf_index _ Hwf _ _) E) as (a & Ha & Hh). rewrite Ha.
    pose proof (wf_entry _ Hwf _ _ Ha) as (Hid & _). case_bool_decide; [|done].
    cbn. rewrite Hid. by rewrite abs_removed, (drop_plan_host _ h id).
  - unfold revoke_all, lock, set_state. unfold_bind. rewrite Hp. cbn. unfold abs, abs_live. cbn.
    by rewrite omap_empty, ?Hp.
  - unfold seal_and_revoke_all, lock, set_state. unfold_bind. rewrite Hp. cbn. unfold abs, abs_live. cbn.
    by rewrite omap_empty, ?Hp.
  - unfold is_sealed, lock. unfold_bind. by rewrite Hp.
  - unfold pending_count, lock, set_state. unfold_bind. rewrite Hp. cbn. unfold abs, with_live. cbn.
    rewrite <-abs_remove_expired, remove_expired_sealed by done.
    by rewrite abs_size by (by apply remove_expired_wf).
  - unfold contains, lock, set_state. unfold_bind. rewrite Hp. cbn. unfold abs, with_live. cbn.
    rewrite <-abs_remove_expired, remove_expired_sealed by done.
    by rewrite find_plan_abs by (by apply remove_expired_wf).
  - unfold expiry_fire. rewrite Hp. cbn [abs live]. rewrite find_plan_abs by done.
    destruct (pending (state self) !! id) as [p|]; [|done]. case_match; [|done].
    cbn. rewrite <-abs_removed by done. unfold removed, with_state. by rewrite Hp.
Qed.
