(* ===== verification/Foundation.v ===== *)
(** Admission and one-shot execution of remote mutations
    ([crates/nexus-remote-operations/src/admission.rs], [outcome.rs], [lib.rs]).

    [RemoteOperationFoundation::execute] is an async function: other tasks run
    between its await points and, on a multi-threaded runtime, between any two
    of its statements.  Each call is therefore a task with a program counter
    ([Phase]); every reading of the seal and of the token, every change of the
    store and the call of the transport is a step of its own ([exec_step]), so
    that a shutdown or a cancellation can fall between any two of them.
    Admission takes its gate and its permit in one step, and a call that returns
    gives them back in the step that decides so.  [sys_step] interleaves the tasks with planning,
    discarding, revocation, shutdown, cancellation, timers and host lifecycle
    work. *)

From S2P Require Import Prelude Str Model SystemdUnit Authority.

(** ** Admission *)

Record ExecutionAdmission := {
  host_gates : gmap HostId bool;   (** gate exists; [true] while its mutex is held *)
  gates_poisoned : bool;
  global : Z                       (** permits left in the semaphore *)
}.

Definition admission_default : ExecutionAdmission :=
  {| host_gates := ∅; gates_poisoned := false; global := 1 |}.

Definition busy : AppError := app_error Conflict "Another remote operation is already in progress.".
Definition admission_unavailable : AppError :=
  app_error Conflict "Remote operation admission is unavailable.".

Definition set_gate (h : HostId) (locked : bool) (a : ExecutionAdmission) : ExecutionAdmission :=
  {| host_gates := <[h := locked]> (host_gates a);
     gates_poisoned := gates_poisoned a; global := global a |}.

(** [host_gate]: the gate is created on first use. Returns whether it is held. *)
Definition host_gate (h : HostId) : st ExecutionAdmission AppError bool := fun a =>
  if gates_poisoned a then (Err admission_unavailable, a)
  else match host_gates a !! h with
       | Some locked => (Ok locked, a)
       | None => (Ok false, set_gate h false a)
       end.

(** [try_lifecycle_guard]; [lifecycle_guard] is the same once the gate is free. *)
Definition try_lifecycle_guard (h : HostId) : st ExecutionAdmission AppError unit :=
  locked ← host_gate h;
  if locked : bool then st_fail busy else fun a => (Ok tt, set_gate h true a).

Definition drop_lifecycle_guard (h : HostId) (a : ExecutionAdmission) : ExecutionAdmission :=
  set_gate h false a.

(** [try_execute]: host mutex, then the global semaphore; dropping the host
    guard on the error path unlocks the gate again. *)
Definition try_execute (h : HostId) : st ExecutionAdmission AppError unit :=
  locked ← host_gate h;
  if locked : bool then st_fail busy
  else fun a =>
    let a := set_gate h true a in
    if global a <=? 0 then (Err busy, set_gate h false a)
    else (Ok tt, {| host_gates := host_gates a; gates_poisoned := gates_poisoned a;
                    global := global a - 1 |}).

(** Dropping an [ExecutionPermit]. *)
Definition drop_permit (h : HostId) (a : ExecutionAdmission) : ExecutionAdmission :=
  {| host_gates := <[h := false]> (host_gates a);
     gates_poisoned := gates_poisoned a; global := global a + 1 |}.

(** ** Outcomes *)

Inductive RemoteOperationOutcome := OSuccess | OFailed | OCancelled | OOutcomeUnknown.
Inductive NotDispatchedReason := NdCancelled | NdTimeout | NdConnection | NdRejected.
Inductive CompletionUnknownReason := CuCancelled | CuTimeout | CuConnectionLost | CuOutputLimit.
Inductive MutationTransportOutcome :=
| NotDispatched (r : NotDispatchedReason)
| CompletionConfirmed (success : bool)
| CompletionUnknown (r : CompletionUnknownReason).

Definition operation_outcome (o : MutationTransportOutcome) : RemoteOperationOutcome :=
  match o with
  | NotDispatched NdCancelled => OCancelled
  | NotDispatched _ => OFailed
  | CompletionConfirmed true => OSuccess
  | CompletionConfirmed false => OFailed
  | CompletionUnknown _ => OOutcomeUnknown
  end.

Inductive ExecutionTerminal :=
| RevalidationFailed
| CancelledBeforeDispatch
| Transport (o : MutationTransportOutcome).

Record ExecutionResult := { er_outcome : RemoteOperationOutcome; er_terminal : ExecutionTerminal }.

Definition cancelled_before_dispatch : ExecutionResult :=
  {| er_outcome := OCancelled; er_terminal := CancelledBeforeDispatch |}.
Definition revalidation_failed : ExecutionResult :=
  {| er_outcome := OFailed; er_terminal := RevalidationFailed |}.
Definition transport_result (o : MutationTransportOutcome) : ExecutionResult :=
  {| er_outcome := operation_outcome o; er_terminal := Transport o |}.

(** ** One [execute] call *)

Record Request := {
  rq_op : NativeOp;
  rq_plan : RemoteOperationPlanId;
  rq_binding : AuthorityBinding
}.

Definition AnyConsumed : Type := {o : NativeOp & ConsumedAuthority o}.
Definition any_id (a : AnyConsumed) : RemoteOperationPlanId := ca_id (projT2 a).

Inductive Phase :=
| PSealedCheck                    (** before the first [is_sealed] *)
| PAdmission                      (** before [try_execute] *)
| PSealedCheckAdmitted            (** permit held, before the second [is_sealed] *)
| PConsume                        (** before [consume] *)
| PCancelCheck (a : AnyConsumed)  (** authority consumed, first cancellation check *)
| PRevalidate (a : AnyConsumed)   (** awaiting the revalidator *)
| PDispatchCheck (a : AnyConsumed)(** dispatch guard held, before the last [is_sealed] *)
| PCancelRecheck (a : AnyConsumed)(** before the last [is_cancelled] *)
| PDispatchCall (a : AnyConsumed) (** before the call of [dispatch] *)
| PDispatching (a : AnyConsumed)  (** awaiting the transport *)
| PReturned (r : Res ExecutionResult)
| PDropped.                       (** the future was dropped at an await point *)

(** [_permit] is in scope. *)
Definition holds_permit (p : Phase) : bool :=
  match p with
  | PSealedCheckAdmitted | PConsume | PCancelCheck _ | PRevalidate _
  | PDispatchCheck _ | PCancelRecheck _ | PDispatchCall _ | PDispatching _ => true
  | _ => false
  end.

(** The authority a task still carries. *)
Definition carried (p : Phase) : option AnyConsumed :=
  match p with
  | PCancelCheck a | PRevalidate a | PDispatchCheck a | PCancelRecheck a | PDispatchCall a | PDispatching a => Some a
  | _ => None
  end.

(** What the revalidator and the transport answer, and what the clock and the
    cancellation token read, when the task takes its next step. *)
Record Answers := {
  an_now : Instant;
  an_cancelled : bool;
  an_revalidated : bool;
  an_outcome : MutationTransportOutcome
}.

(** The code of [execute] from one observable point to the next. *)
Definition exec_step (rq : Request) (an : Answers) (p : Phase)
    (store : AuthorityStore) (adm : ExecutionAdmission)
    : Phase * AuthorityStore * ExecutionAdmission :=
  let host := ab_host_id (rq_binding rq) in
  match p with
  | PSealedCheck =>
      match (is_sealed store).1 with
      | Err e => (PReturned (Err e), store, adm)
      | Ok true => (PReturned (Err shutting_down), store, adm)
      | Ok false => (PAdmission, store, adm)
      end
  | PAdmission =>
      match try_execute host adm with
      | (Err e, adm') => (PReturned (Err e), store, adm')
      | (Ok _, adm') => (PSealedCheckAdmitted, store, adm')
      end
  | PSealedCheckAdmitted =>
      match (is_sealed store).1 with
      | Err e => (PReturned (Err e), store, drop_permit host adm)
      | Ok true => (PReturned (Err shutting_down), store, drop_permit host adm)
      | Ok false => (PConsume, store, adm)
      end
  | PConsume =>
      match consume (rq_op rq) (an_now an) (rq_plan rq) (rq_binding rq) store with
      | (Err e, store') => (PReturned (Err e), store', drop_permit host adm)
      | (Ok c, store') => (PCancelCheck (existT (rq_op rq) c), store', adm)
      end
  | PCancelCheck a =>
      if an_cancelled an then (PReturned (Ok cancelled_before_dispatch), store, drop_permit host adm)
      else (PRevalidate a, store, adm)
  | PRevalidate a =>
      if an_revalidated an then (PDispatchCheck a, store, adm)
      else if an_cancelled an
      then (PReturned (Ok cancelled_before_dispatch), store, drop_permit host adm)
      else (PReturned (Ok revalidation_failed), store, drop_permit host adm)
  | PDispatchCheck a =>
      if (match (is_sealed store).1 with Ok b => b | Err _ => true end)
      then (PReturned (Ok cancelled_before_dispatch), store, drop_permit host adm)
      else (PCancelRecheck a, store, adm)
  | PCancelRecheck a =>
      if an_cancelled an then (PReturned (Ok cancelled_before_dispatch), store, drop_permit host adm)
      else (PDispatchCall a, store, adm)
  | PDispatchCall a => (PDispatching a, store, adm)
  | PDispatching a =>
      (PReturned (Ok (transport_result (an_outcome an))), store, drop_permit host adm)
  | PReturned _ | PDropped => (p, store, adm)
  end.

(** [transport.dispatch] is called by this step. *)
Definition dispatches (p p' : Phase) : option AnyConsumed :=
  match p, p' with PDispatchCall _, PDispatching a => Some a | _, _ => None end.

(** ** The whole foundation *)

Record Sys := {
  sys_store : AuthorityStore;
  sys_adm : ExecutionAdmission;
  sys_tasks : gmap N (Request * Phase);
  sys_cancelled : gset N;             (** tasks whose token is cancelled *)
  sys_guards : gset HostId;           (** hosts whose lifecycle guard is held *)
  sys_issued : gset RemoteOperationPlanId;   (** ids ever published *)
  sys_dispatched : list (N * AnyConsumed)   (** calls of [transport.dispatch] and their tasks, newest first *)
}.

Definition sys_default : Sys :=
  {| sys_store := store_default; sys_adm := admission_default; sys_tasks := ∅;
     sys_cancelled := ∅; sys_guards := ∅; sys_issued := ∅; sys_dispatched := [] |}.

Definition with_store (store : AuthorityStore) (s : Sys) : Sys :=
  {| sys_store := store; sys_adm := sys_adm s; sys_tasks := sys_tasks s;
     sys_cancelled := sys_cancelled s; sys_guards := sys_guards s;
     sys_issued := sys_issued s; sys_dispatched := sys_dispatched s |}.

Definition with_guards (adm : ExecutionAdmission) (g : gset HostId) (s : Sys) : Sys :=
  {| sys_store := sys_store s; sys_adm := adm; sys_tasks := sys_tasks s;
     sys_cancelled := sys_cancelled s; sys_guards := g;
     sys_issued := sys_issued s; sys_dispatched := sys_dispatched s |}.

(** Store operations the rest of the application may run at any time. *)
Inductive store_change : AuthorityStore → AuthorityStore → Prop :=
| ch_discard O now id b self : store_change self (discard O now id b self).2
| ch_revoke_host h self : store_change self (revoke_host h self).2
| ch_revoke_session h sid self : store_change self (revoke_session h sid self).2
| ch_seal self : store_change self (seal_and_revoke_all self).2
| ch_expiry id t self : store_change self (expiry_fire id t self).

Inductive sys_step : Sys → Sys → Prop :=
(** [plan]: a UUID that was never issued before. *)
| step_plan s O now id draft current :
    id ∉ sys_issued s →
    sys_step s {| sys_store := (insert O now id draft current (sys_store s)).2;
                  sys_adm := sys_adm s; sys_tasks := sys_tasks s;
                  sys_cancelled := sys_cancelled s; sys_guards := sys_guards s;
                  sys_issued := {[id]} ∪ sys_issued s; sys_dispatched := sys_dispatched s |}
(** [discard], [revoke_host], [revoke_session], [begin_shutdown], an expiry timer. *)
| step_store s store' :
    store_change (sys_store s) store' → sys_step s (with_store store' s)
(** [lifecycle_guard] or [try_lifecycle_guard] succeeds; the guard is dropped. *)
| step_guard s h adm' :
    try_lifecycle_guard h (sys_adm s) = (Ok tt, adm') →
    sys_step s (with_guards adm' ({[h]} ∪ sys_guards s) s)
| step_unguard s h :
    h ∈ sys_guards s →
    sys_step s (with_guards (drop_lifecycle_guard h (sys_adm s)) (sys_guards s ∖ {[h]}) s)
(** [execute] is called. *)
| step_call s t rq :
    sys_tasks s !! t = None →
    sys_step s {| sys_store := sys_store s; sys_adm := sys_adm s;
                  sys_tasks := <[t := (rq, PSealedCheck)]> (sys_tasks s);
                  sys_cancelled := sys_cancelled s; sys_guards := sys_guards s;
                  sys_issued := sys_issued s; sys_dispatched := sys_dispatched s |}
| step_cancel s t :
    sys_step s {| sys_store := sys_store s; sys_adm := sys_adm s; sys_tasks := sys_tasks s;
                  sys_cancelled := {[t]} ∪ sys_cancelled s; sys_guards := sys_guards s;
                  sys_issued := sys_issued s; sys_dispatched := sys_dispatched s |}
(** A task takes its next step. *)
| step_task s t rq p an p' store' adm' :
    sys_tasks s !! t = Some (rq, p) →
    an_cancelled an = bool_decide (t ∈ sys_cancelled s) →
    exec_step rq an p (sys_store s) (sys_adm s) = (p', store', adm') →
    sys_step s {| sys_store := store'; sys_adm := adm';
                  sys_tasks := <[t := (rq, p')]> (sys_tasks s);
                  sys_cancelled := sys_cancelled s; sys_guards := sys_guards s;
                  sys_issued := sys_issued s;
                  sys_dispatched := (pair t <$> option_list (dispatches p p')) ++ sys_dispatched s |}
(** The caller drops the future while it awaits. *)
| step_drop s t rq p :
    sys_tasks s !! t = Some (rq, p) →
    (∃ a, p = PRevalidate a ∨ p = PDispatching a) →
    sys_step s {| sys_store := sys_store s;
                  sys_adm := drop_permit (ab_host_id (rq_binding rq)) (sys_adm s);
                  sys_tasks := <[t := (rq, PDropped)]> (sys_tasks s);
                  sys_cancelled := sys_cancelled s; sys_guards := sys_guards s;
                  sys_issued := sys_issued s; sys_dispatched := sys_dispatched s |}.

Definition sys_reachable : Sys → Prop := rtc sys_step sys_default.
