(* ===== verification/FoundationSafe.v ===== *)
(** Safety of the remote-operation foundation under every interleaving. *)

From S2P Require Import Prelude Str Model SystemdUnit Authority AuthorityInv AuthorityRefine Foundation.

Definition holder (s : Sys) (t : N) : Prop :=
  ∃ rq p, sys_tasks s !! t = Some (rq, p) ∧ holds_permit p = true.

(** ** The store under the foundation's operations *)

(** Plans only disappear; what is gone does not come back. *)
Record shrinks (self self' : AuthorityStore) : Prop := {
  sh_wf : wf (state self) → wf (state self');
  sh_pending k a : wf (state self) → pending (state self') !! k = Some a →
                   pending (state self) !! k = Some a;
  sh_sealed : wf (state self) → sealed (state self) = true → sealed (state self') = true
}.

Lemma run_shrinks op self :
  (∀ O now id draft cur, op ≠ OpInsert O now id draft cur) → shrinks self (run op self).2.
Proof.
  intros Hop. assert (fresh_for op self) as Hf by (destruct op; try done; naive_solver).
  split.
  - intros. by apply run_wf.
  - intros k a Hwf Hk. destruct (run_pending op self k a Hwf Hf Hk) as [?|(? & ? & ? & ? & ->)]; naive_solver.
  - intros. by apply run_sealed.
Qed.

Lemma consume_shrinks O now id b self : shrinks self (consume O now id b self).2.
Proof. rewrite <-(bind_ret_state _ (RConsumed O)). by apply (run_shrinks (OpConsume O now id b)). Qed.

Lemma store_change_shrinks self self' : store_change self self' → shrinks self self'.
Proof.
  intros [O now id b|h|h sid| |id t].
  - rewrite <-(bind_ret_state _ RBool). by apply (run_shrinks (OpDiscard O now id b)).
  - rewrite <-(bind_ret_state _ RBool). by apply (run_shrinks (OpRevokeHost h)).
  - rewrite <-(bind_ret_state _ RBool). by apply (run_shrinks (OpRevokeSession h sid)).
  - rewrite <-(bind_ret_state _ (λ _, RUnit)). by apply (run_shrinks OpSeal).
  - by apply (run_shrinks (OpExpiryFire id t)).
Qed.

Lemma insert_run O now id draft cur self :
  (insert O now id draft cur self).2 = (run (OpInsert O now id draft cur) self).2.
Proof. symmetry. apply bind_ret_state. Qed.

(** A successful [consume] takes the plan out of the store and hands over
    exactly the authority that was filed there. *)
Lemma consume_ok O now id b self c self' :
  wf (state self) → consume O now id b self = (Ok c, self') →
  ∃ a, pending (state self) !! id = Some a ∧ live_at now a = true ∧
       ca_id c = id ∧ ca_binding c = b ∧ ca_risk c = RISK O ∧
       pending (state self') !! id = None.
Proof.
  intros Hwf. destruct (poisoned self) eqn:Hp.
  { unfold consume, lock. unfold_bind. by rewrite Hp. }
  rewrite consume_cases by done. destruct (pending (state self) !! id) as [a|] eqn:Ea; [|done].
  destruct (live_at now a) eqn:El; cbn [negb]; [|done].
  case_bool_decide as Hb; [done|]. case_bool_decide as Ho; [done|].
  destruct (into_typed_wf id a O (wf_entry _ Hwf _ _ Ea) Ho) as (c' & -> & H1 & H2 & H3 & _).
  cbn. intros [= <- <-]. exists a. repeat split; auto; [congruence|].
  cbn. rewrite remove_id_pending. by rewrite decide_True.
Qed.

(** ** The invariant *)

Definition dispatched_ids (s : Sys) : list RemoteOperationPlanId := any_id ∘ snd <$> sys_dispatched s.

(** Spent: the id was issued and is not pending, so it can never be consumed again. *)
Definition spent (s : Sys) (id : RemoteOperationPlanId) : Prop :=
  id ∈ sys_issued s ∧ pending (state (sys_store s)) !! id = None.

(** A consumed authority answers the request that consumed it. *)
Definition answers_request (rq : Request) (a : AnyConsumed) : Prop :=
  projT1 a = rq_op rq ∧ any_id a = rq_plan rq ∧
  ca_binding (projT2 a) = rq_binding rq ∧ ca_risk (projT2 a) = RISK (projT1 a).

Definition permits_ok (s : Sys) : Prop :=
  (global (sys_adm s) = 1 ∧ ∀ t, ¬ holder s t) ∨
  (global (sys_adm s) = 0 ∧ ∃ t, holder s t ∧ ∀ t', holder s t' → t' = t).

Record sinv (s : Sys) : Prop := {
  si_wf : wf (state (sys_store s));
  si_issued id a : pending (state (sys_store s)) !! id = Some a → id ∈ sys_issued s;
  si_carried t rq p a : sys_tasks s !! t = Some (rq, p) → carried p = Some a →
    spent s (any_id a) ∧ answers_request rq a ∧
    ((∀ b, p ≠ PDispatching b) → any_id a ∉ dispatched_ids s);
  si_dispatched id : id ∈ dispatched_ids s → spent s id;
  si_nodup : NoDup (dispatched_ids s);
  si_permits : permits_ok s;
  si_gates t rq p : sys_tasks s !! t = Some (rq, p) → holds_permit p = true →
    host_gates (sys_adm s) !! ab_host_id (rq_binding rq) = Some true ∧
    ab_host_id (rq_binding rq) ∉ sys_guards s;
  si_guards h : h ∈ sys_guards s → host_gates (sys_adm s) !! h = Some true
}.

Lemma carried_holds p a : carried p = Some a → holds_permit p = true.
Proof. by destruct p. Qed.

Lemma holder_unique s t t' : permits_ok s → holder s t → holder s t' → t = t'.
Proof. intros [[_ H]|(_ & t0 & _ & H)] H1 H2; [by apply H in H1|]. rewrite (H _ H1), (H _ H2). done. Qed.

(** *** Steps that only touch the store *)

Lemma spent_shrinks s store' id :
  wf (state (sys_store s)) → shrinks (sys_store s) store' → spent s id → spent (with_store store' s) id.
Proof.
  intros Hwf Hsh [Hi Hp]. split; [done|]. cbn.
  destruct (pending (state store') !! id) eqn:E; [|done].
  apply (sh_pending _ _ Hsh) in E; [congruence|done].
Qed.

Lemma sinv_shrinks s store' : sinv s → shrinks (sys_store s) store' → sinv (with_store store' s).
Proof.
  intros Hi Hsh. pose proof (si_wf _ Hi) as Hwf.
  split; cbn.
  - by apply (sh_wf _ _ Hsh).
  - intros id a Ha. eapply (si_issued _ Hi). by apply (sh_pending _ _ Hsh).
  - intros t rq p a Ht Hc. destruct (si_carried _ Hi _ _ _ _ Ht Hc) as (? & ? & ?).
    split; [by apply spent_shrinks|done].
  - intros id Hid. apply spent_shrinks; auto. by apply (si_dispatched _ Hi).
  - apply (si_nodup _ Hi).
  - apply (si_permits _ Hi).
  - apply (si_gates _ Hi).
  - apply (si_guards _ Hi).
Qed.

Lemma sinv_plan s O now id draft cur :
  sinv s → id ∉ sys_issued s →
  sinv {| sys_store := (insert O now id draft cur (sys_store s)).2;
          sys_adm := sys_adm s; sys_tasks := sys_tasks s;
          sys_cancelled := sys_cancelled s; sys_guards := sys_guards s;
          sys_issued := {[id]} ∪ sys_issued s; sys_dispatched := sys_dispatched s |}.
Proof.
  intros Hi Hid. pose proof (si_wf _ Hi) as Hwf.
  assert (pending (state (sys_store s)) !! id = None) as Hf.
  { destruct (_ !! id) eqn:E; [|done]. apply (si_issued _ Hi) in E. done. }
  rewrite insert_run. set (op := OpInsert O now id draft cur).
  assert (∀ k, k ∈ sys_issued s → pending (state (sys_store s)) !! k = None →
               pending (state (run op (sys_store s)).2) !! k = None) as Hspent.
  { intros k Hk Hp. destruct (pending _ !! k) as [a|] eqn:E in |- *; [|done].
    apply (run_pending op) in E as [?|(? & ? & ? & ? & [= -> _])]; [congruence|set_solver|done|done]. }
  split; cbn [sys_store sys_adm sys_tasks sys_cancelled sys_guards sys_issued sys_dispatched].
  - by apply (run_wf op).
  - intros k a Ha. apply (run_pending op) in Ha as [Ha|(? & ? & ? & ? & [= -> _])]; [|set_solver|done|done].
    apply (si_issued _ Hi) in Ha. set_solver.
  - intros t rq p a Ht Hc. destruct (si_carried _ Hi _ _ _ _ Ht Hc) as ([? ?] & ? & ?).
    split; [|done]. split; cbn; [set_solver|by apply Hspent].
  - intros k Hk. destruct (si_dispatched _ Hi _ Hk). split; cbn; [set_solver|by apply Hspent].
  - apply (si_nodup _ Hi).
  - apply (si_permits _ Hi).
  - apply (si_gates _ Hi).
  - apply (si_guards _ Hi).
Qed.

(** ** Admission *)

Definition held (adm : ExecutionAdmission) (h : HostId) : Prop := host_gates adm !! h = Some true.

Lemma held_set_gate h b adm k :
  held (set_gate h b adm) k ↔ (k = h ∧ b = true) ∨ (k ≠ h ∧ held adm k).
Proof. unfold held, set_gate. cbn. rewrite lookup_insert. case_decide; naive_solver. Qed.

Lemma host_gate_spec h adm locked adm' :
  host_gate h adm = (Ok locked, adm') →
  (locked = true ↔ held adm h) ∧ global adm' = global adm ∧ (∀ k, held adm' k ↔ held adm k).
Proof.
  unfold host_gate. repeat case_match; intros [= <- <-].
  - split; [|done]. unfold held. naive_solver.
  - split; [unfold held; naive_solver|]. split; [done|]. intros k. rewrite held_set_gate.
    unfold held. naive_solver.
Qed.

Lemma host_gate_err h adm e adm' : host_gate h adm = (Err e, adm') → adm' = adm.
Proof. unfold host_gate. repeat case_match; naive_solver. Qed.

Lemma try_lifecycle_ok h adm u adm' :
  try_lifecycle_guard h adm = (Ok u, adm') →
  ¬ held adm h ∧ global adm' = global adm ∧ (∀ k, held adm' k ↔ k = h ∨ held adm k).
Proof.
  unfold try_lifecycle_guard. unfold_bind.
  destruct (host_gate h adm) as [[[]|e] adm1] eqn:E; [done| |done]. intros [= <- <-].
  apply host_gate_spec in E as (Hl & Hg & Hh).
  split; [naive_solver|]. split; [done|]. intros k. rewrite held_set_gate, Hh.
  destruct (decide (k = h)); naive_solver.
Qed.

Lemma try_execute_ok h adm u adm' :
  try_execute h adm = (Ok u, adm') →
  ¬ held adm h ∧ 0 < global adm ∧ global adm' = global adm - 1 ∧
  (∀ k, held adm' k ↔ k = h ∨ held adm k).
Proof.
  unfold try_execute. unfold_bind.
  destruct (host_gate h adm) as [[[]|e] adm1] eqn:E; [done| |done].
  apply host_gate_spec in E as (Hl & Hg & Hh). cbn.
  case_match; [done|]. intros [= <- <-]. split_bools.
  split; [naive_solver|]. split; [lia|]. split; [cbn; lia|]. intros k.
  etransitivity; [apply (held_set_gate h true adm1 k)|]. rewrite Hh.
  destruct (decide (k = h)); naive_solver.
Qed.

(** Refused admission changes nothing another caller can see. *)
Lemma try_execute_err h adm e adm' :
  try_execute h adm = (Err e, adm') →
  global adm' = global adm ∧ (∀ k, held adm' k ↔ held adm k).
Proof.
  unfold try_execute. unfold_bind.
  destruct (host_gate h adm) as [[[]|e'] adm1] eqn:E.
  - intros [= <- <-]. by apply host_gate_spec in E as (_ & ? & ?).
  - apply host_gate_spec in E as (Hl & Hg & Hh). cbn.
    case_match; [|done]. intros [= <- <-]. split; [done|]. intros k.
    rewrite !held_set_gate, Hh. assert (¬ held adm h) by naive_solver.
    destruct (decide (k = h)); naive_solver.
  - intros [= <- <-]. apply host_gate_err in E. by subst.
Qed.

Lemma held_drop_permit h adm k : held (drop_permit h adm) k ↔ k ≠ h ∧ held adm k.
Proof. etransitivity; [apply (held_set_gate h false adm k)|]. naive_solver. Qed.

(** ** Task steps *)

Definition upd (s : Sys) (t : N) (rq : Request) (p' : Phase) (store' : AuthorityStore)
    (adm' : ExecutionAdmission) (d : list AnyConsumed) : Sys :=
  {| sys_store := store'; sys_adm := adm'; sys_tasks := <[t := (rq, p')]> (sys_tasks s);
     sys_cancelled := sys_cancelled s; sys_guards := sys_guards s;
     sys_issued := sys_issued s; sys_dispatched := (pair t <$> d) ++ sys_dispatched s |}.

Lemma holder_upd s t rq p' store' adm' d k :
  holder (upd s t rq p' store' adm' d) k ↔
  (k = t ∧ holds_permit p' = true) ∨ (k ≠ t ∧ holder s k).
Proof.
  unfold holder. cbn. setoid_rewrite lookup_insert. case_decide; naive_solver.
Qed.

Lemma tasks_upd s t rq p' store' adm' d k x :
  sys_tasks (upd s t rq p' store' adm' d) !! k = Some x →
  (k = t ∧ x = (rq, p')) ∨ (k ≠ t ∧ sys_tasks s !! k = Some x).
Proof. cbn. rewrite lookup_insert_Some. naive_solver. Qed.

(** What a task step must establish about its own task; everything about the
    other tasks follows. *)
Lemma sinv_upd s t rq p' store' adm' d :
  sinv s → shrinks (sys_store s) store' →
  (∀ a, carried p' = Some a →
     (any_id a ∈ sys_issued s ∧ pending (state store') !! any_id a = None) ∧ answers_request rq a ∧
     ((∀ b, p' ≠ PDispatching b) → any_id a ∉ dispatched_ids s)) →
  (d = [] ∨ holder s t) →
  (∀ a, a ∈ d → spent s (any_id a) ∧ (any_id a ∉ dispatched_ids s) ∧ p' = PDispatching a) →
  (length d ≤ 1)%nat →
  permits_ok (upd s t rq p' store' adm' d) →
  (holds_permit p' = true →
     held adm' (ab_host_id (rq_binding rq)) ∧ ab_host_id (rq_binding rq) ∉ sys_guards s) →
  (∀ k h, k ≠ t → holder s k → held (sys_adm s) h → held adm' h) →
  (∀ h, h ∈ sys_guards s → held (sys_adm s) h → held adm' h) →
  sinv (upd s t rq p' store' adm' d).
Proof.
  intros Hi Hsh Hcar Hd Hdd Hlen Hperm Hgate Hother Hguards. pose proof (si_wf _ Hi) as Hwf.
  assert (∀ id, spent s id → id ∈ sys_issued s ∧ pending (state store') !! id = None) as Hsp.
  { intros id Hid. apply (spent_shrinks _ _ _ Hwf Hsh) in Hid. exact Hid. }
  assert (∀ id, id ∈ dispatched_ids (upd s t rq p' store' adm' d) ↔
                id ∈ (any_id <$> d) ∨ id ∈ dispatched_ids s) as Hids.
  { intros id. unfold dispatched_ids. cbn. rewrite fmap_app, <-list_fmap_compose. apply elem_of_app. }
  split; cbn [upd sys_store sys_guards sys_adm sys_issued sys_dispatched].
  - by apply (sh_wf _ _ Hsh).
  - intros id a Ha. eapply (si_issued _ Hi). by apply (sh_pending _ _ Hsh).
  - intros k rq' p a [[-> [= -> ->]]|[Hk Ht]]%tasks_upd Hc.
    + destruct (Hcar a Hc) as (Hs & Ha & Hnd). repeat (split; [done|]). intros Hp.
      rewrite Hids. intros [Hin|Hin]; [|by apply Hnd].
      destruct Hd as [->|_]; [by apply elem_of_nil in Hin|].
      apply list_elem_of_fmap in Hin as (b & _ & Hb). 
      destruct (Hdd b Hb) as (_ & _ & Heq). by apply (Hp b).
    + destruct (si_carried _ Hi _ _ _ _ Ht Hc) as (Hs & Ha & Hnd).
      split; [by apply Hsp|]. split; [done|]. intros Hp. rewrite Hids. intros [Hin|Hin]; [|by apply Hnd].
      destruct Hd as [->|Ht']; [by apply elem_of_nil in Hin|]. apply Hk.
      eapply holder_unique; [apply (si_permits _ Hi)| |done]. exists rq', p. eauto using carried_holds.
  - intros id [Hin|Hin]%Hids; [|by apply Hsp, (si_dispatched _ Hi)].
    apply list_elem_of_fmap in Hin as (b & -> & Hb).  destruct (Hdd b Hb). by apply Hsp.
  - unfold dispatched_ids. cbn. rewrite fmap_app, <-list_fmap_compose. destruct d as [|b [|]]; cbn in *; [apply (si_nodup _ Hi)| |lia].
    constructor; [|apply (si_nodup _ Hi)]. by destruct (Hdd b ltac:(set_solver)) as (_ & ? & _).
  - done.
  - intros k rq' p [[-> [= -> ->]]|[Hk Ht]]%tasks_upd Hp; [auto|].
    destruct (si_gates _ Hi _ _ _ Ht Hp). split; [|done]. eapply Hother; [done| |done]. by exists rq', p.
  - intros h Hh. apply Hguards; [done|]. by apply (si_guards _ Hi).
Qed.

Lemma shrinks_refl self : shrinks self self.
Proof. by split. Qed.

(** The permit is released. *)
Lemma sinv_release s t rq p p' store' :
  sinv s → sys_tasks s !! t = Some (rq, p) → holds_permit p = true → holds_permit p' = false →
  shrinks (sys_store s) store' →
  sinv (upd s t rq p' store' (drop_permit (ab_host_id (rq_binding rq)) (sys_adm s)) []).
Proof.
  intros Hi Ht Hp Hp' Hsh. assert (holder s t) as Hht by (by exists rq, p).
  assert (∀ k, k ≠ t → ¬ holder s k) as Hno.
  { intros k Hk Hh. apply Hk. eapply holder_unique; [apply (si_permits _ Hi)|done|done]. }
  apply sinv_upd; auto; cbn; try done.
  - intros a Ha%carried_holds. congruence.
  - by intros x ?%elem_of_nil.
  - left. split.
    + cbn. destruct (si_permits _ Hi) as [[_ H]|[-> _]]; [by apply H in Hht|lia].
    + intros k [[_ ?]|[Hk ?]]%holder_upd; [congruence|by apply (Hno k)].
  - congruence.
  - intros k h Hk Hh. by apply Hno in Hh.
  - intros h Hh Hheld. apply held_drop_permit. split; [|done]. intros ->.
    by destruct (si_gates _ Hi _ _ _ Ht Hp).
Qed.

(** The task moves on without touching its permit. *)
Lemma sinv_keep s t rq p p' adm' :
  sinv s → sys_tasks s !! t = Some (rq, p) → holds_permit p' = holds_permit p →
  (∀ a, carried p' = Some a → carried p = Some a ∧ ∀ b, p ≠ PDispatching b) →
  global adm' = global (sys_adm s) → (∀ k, held adm' k ↔ held (sys_adm s) k) →
  sinv (upd s t rq p' (sys_store s) adm' []).
Proof.
  intros Hi Ht Hp Hcar Hg Hh.
  assert (∀ k, holder (upd s t rq p' (sys_store s) adm' []) k ↔ holder s k) as Hhold.
  { intros k. rewrite holder_upd, Hp. split.
    - intros [[-> ?]|[? ?]]; [by exists rq, p|done].
    - intros (rq' & q & Hk & Hq). destruct (decide (k = t)) as [->|]; [left; naive_solver|right; split; [done|by exists rq', q]]. }
  apply sinv_upd; auto using shrinks_refl; cbn; try done.
  - intros a Ha. destruct (Hcar a Ha) as [Hc Hnd].
    destruct (si_carried _ Hi _ _ _ _ Ht Hc) as (? & ? & ?). auto.
  - by intros x ?%elem_of_nil.
  - destruct (si_permits _ Hi) as [[H1 H2]|(H1 & t0 & H2 & H3)]; [left|right]; cbn; rewrite Hg.
    + split; [done|]. intros k. by rewrite Hhold.
    + split; [done|]. exists t0. rewrite Hhold. split; [done|]. intros k. rewrite Hhold. auto.
  - rewrite Hp. intros H. rewrite Hh. by apply (si_gates _ Hi _ _ _ Ht).
  - intros k h _ _. by rewrite Hh.
  - intros h _. by rewrite Hh.
Qed.

Lemma sinv_admit s t rq adm' :
  sinv s → sys_tasks s !! t = Some (rq, PAdmission) →
  try_execute (ab_host_id (rq_binding rq)) (sys_adm s) = (Ok tt, adm') →
  sinv (upd s t rq PSealedCheckAdmitted (sys_store s) adm' []).
Proof.
  intros Hi Ht (Hfree & Hpos & Hg & Hh)%try_execute_ok.
  destruct (si_permits _ Hi) as [[H1 H2]|(H1 & _)]; [|lia].
  apply sinv_upd; auto using shrinks_refl; cbn; try done.
  - by intros x ?%elem_of_nil.
  - right. cbn. split; [lia|]. exists t. split; [apply holder_upd; auto|].
    intros k [[-> _]|[_ Hk]]%holder_upd; [done|]. by apply H2 in Hk.
  - intros _. split; [apply Hh; auto|]. intros Hin. by apply Hfree, (si_guards _ Hi).
  - intros k h _ Hk. by apply H2 in Hk.
  - intros h _ Hheld. apply Hh. auto.
Qed.

Lemma permits_move s t rq p p' store' adm' d :
  permits_ok s → sys_tasks s !! t = Some (rq, p) → holds_permit p = true → holds_permit p' = true →
  global adm' = global (sys_adm s) → permits_ok (upd s t rq p' store' adm' d).
Proof.
  intros Hi Ht Hp Hp' Hg. assert (holder s t) as Hht by (by exists rq, p).
  destruct Hi as [[_ H2]|(H1 & t0 & H2 & H3)]; [by apply H2 in Hht|].
  right. cbn. rewrite Hg. split; [done|]. exists t. split; [apply holder_upd; auto|].
  intros k [[-> _]|[_ Hk]]%holder_upd; [done|]. rewrite (H3 _ Hk), (H3 _ Hht). done.
Qed.

Lemma sinv_consume s t rq now c store' :
  sinv s → sys_tasks s !! t = Some (rq, PConsume) →
  consume (rq_op rq) now (rq_plan rq) (rq_binding rq) (sys_store s) = (Ok c, store') →
  sinv (upd s t rq (PCancelCheck (existT (rq_op rq) c)) store' (sys_adm s) []).
Proof.
  intros Hi Ht Hc. pose proof (consume_shrinks (rq_op rq) now (rq_plan rq) (rq_binding rq) (sys_store s)) as Hsh.
  rewrite Hc in Hsh. cbn in Hsh.
  destruct (consume_ok _ _ _ _ _ _ _ (si_wf _ Hi) Hc) as (a & Ha & _ & Hid & Hb & Hr & Hnone).
  apply sinv_upd; auto; cbn; try done.
  - intros x [= <-]. unfold any_id. cbn. rewrite Hid. split; [split; [by eapply (si_issued _ Hi)|done]|].
    split; [done|]. intros _ [_ Hp]%(si_dispatched _ Hi). congruence.
  - by intros x ?%elem_of_nil.
  - eapply permits_move; eauto. apply (si_permits _ Hi).
  - intros _. by apply (si_gates _ Hi _ _ _ Ht).
Qed.

Lemma sinv_dispatch s t rq a :
  sinv s → sys_tasks s !! t = Some (rq, PDispatchCall a) →
  sinv (upd s t rq (PDispatching a) (sys_store s) (sys_adm s) [a]).
Proof.
  intros Hi Ht. destruct (si_carried _ Hi _ _ _ a Ht) as (Hs & Ha & Hnd); [done|].
  assert (holder s t) as Hht by (by exists rq, (PDispatchCall a)).
  apply sinv_upd; auto using shrinks_refl; cbn; try done.
  - intros b [= <-]. split; [done|]. split; [done|]. intros H. by destruct (H a).
  - intros b ->%list_elem_of_singleton. split; [done|]. split; [by apply Hnd|done].
  - eapply permits_move; eauto. apply (si_permits _ Hi).
  - intros _. by apply (si_gates _ Hi _ _ _ Ht).
Qed.

(** ** Every step preserves the invariant *)

Lemma upd_task s t rq p p' store' adm' :
  {| sys_store := store'; sys_adm := adm'; sys_tasks := <[t := (rq, p')]> (sys_tasks s);
     sys_cancelled := sys_cancelled s; sys_guards := sys_guards s; sys_issued := sys_issued s;
     sys_dispatched := (pair t <$> option_list (dispatches p p')) ++ sys_dispatched s |}
  = upd s t rq p' store' adm' (option_list (dispatches p p')).
Proof. done. Qed.

Lemma is_sealed_fst store : (is_sealed store).1 = if poisoned store then Err unavailable else Ok (sealed (state store)).
Proof. unfold is_sealed, lock. unfold_bind. by destruct (poisoned store). Qed.

Lemma sinv_task s t rq p an p' store' adm' :
  sinv s → sys_tasks s !! t = Some (rq, p) →
  exec_step rq an p (sys_store s) (sys_adm s) = (p', store', adm') →
  sinv (upd s t rq p' store' adm' (option_list (dispatches p p'))).
Proof.
  intros Hi Ht. destruct p as [| | | |a|a|a|a|a|a|r|]; cbn [exec_step].
  - repeat case_match; intros [= <- <- <-]; cbn; eapply sinv_keep; eauto; done.
  - destruct (try_execute _ _) as [[[]|e] adm1] eqn:E; intros [= <- <- <-]; cbn.
    + by apply sinv_admit.
    + apply try_execute_err in E as [? ?]. eapply sinv_keep; eauto; done.
  - repeat case_match; intros [= <- <- <-]; cbn;
      [eapply sinv_release|eapply sinv_keep|eapply sinv_release]; eauto using shrinks_refl; done.
  - destruct (consume _ _ _ _ _) as [[c|e] store1] eqn:E; intros [= <- <- <-]; cbn.
    + by eapply sinv_consume.
    + eapply sinv_release; eauto. pose proof (consume_shrinks (rq_op rq) (an_now an) (rq_plan rq) (rq_binding rq) (sys_store s)) as Hsh.
      by rewrite E in Hsh.
  - case_match; intros [= <- <- <-]; cbn;
      [eapply sinv_release|eapply sinv_keep]; eauto using shrinks_refl; cbn; naive_solver.
  - repeat case_match; intros [= <- <- <-]; cbn;
      [eapply sinv_keep|eapply sinv_release|eapply sinv_release]; eauto using shrinks_refl; cbn; naive_solver.
  - destruct (match (is_sealed _).1 with Ok b => b | Err _ => true end); intros [= <- <- <-]; cbn;
      [eapply sinv_release|eapply sinv_keep]; eauto using shrinks_refl; cbn; naive_solver.
  - case_match; intros [= <- <- <-]; cbn;
      [eapply sinv_release|eapply sinv_keep]; eauto using shrinks_refl; cbn; naive_solver.
  - intros [= <- <- <-]; cbn. by apply sinv_dispatch.
  - intros [= <- <- <-]; cbn. eapply sinv_release; eauto using shrinks_refl.
  - intros [= <- <- <-]; cbn. eapply sinv_keep; eauto; done.
  - intros [= <- <- <-]; cbn. eapply sinv_keep; eauto; done.
Qed.

Lemma sinv_guard s h adm' :
  sinv s → try_lifecycle_guard h (sys_adm s) = (Ok tt, adm') →
  sinv (with_guards adm' ({[h]} ∪ sys_guards s) s).
Proof.
  intros Hi (Hfree & Hg & Hh)%try_lifecycle_ok.
  destruct Hi. split; cbn; auto.
  - destruct si_permits0 as [[? ?]|[? ?]]; [left|right]; cbn; by rewrite Hg.
  - intros t rq p Ht Hp. destruct (si_gates0 _ _ _ Ht Hp). split; [apply Hh; auto|].
    intros [Heq%elem_of_singleton|?]%elem_of_union; [|done]. by rewrite <-Heq in Hfree.
  - intros k [->%elem_of_singleton|?]%elem_of_union; apply Hh; auto. right. by apply si_guards0.
Qed.

Lemma sinv_unguard s h :
  sinv s → h ∈ sys_guards s →
  sinv (with_guards (drop_lifecycle_guard h (sys_adm s)) (sys_guards s ∖ {[h]}) s).
Proof.
  intros [] Hh. split; cbn; auto.
  - intros t rq p Ht Hp. destruct (si_gates0 _ _ _ Ht Hp). split; [|set_solver].
    rewrite lookup_insert_ne; [done|]. intros Heq. by rewrite Heq in Hh.
  - intros k Hk. rewrite lookup_insert_ne by set_solver. apply si_guards0. set_solver.
Qed.

Lemma sinv_call s t rq :
  sinv s → sys_tasks s !! t = None →
  sinv {| sys_store := sys_store s; sys_adm := sys_adm s;
          sys_tasks := <[t := (rq, PSealedCheck)]> (sys_tasks s);
          sys_cancelled := sys_cancelled s; sys_guards := sys_guards s;
          sys_issued := sys_issued s; sys_dispatched := sys_dispatched s |}.
Proof.
  intros Hi Ht. apply (sinv_upd s t rq PSealedCheck (sys_store s) (sys_adm s) []);
    auto using shrinks_refl; cbn; try done.
  - by intros x ?%elem_of_nil.
  - assert (∀ k, holder (upd s t rq PSealedCheck (sys_store s) (sys_adm s) []) k → holder s k) as H1.
    { by intros k [[_ ?]|[_ ?]]%holder_upd. }
    assert (∀ k, holder s k → holder (upd s t rq PSealedCheck (sys_store s) (sys_adm s) []) k) as H2.
    { intros k Hk. apply holder_upd. right. split; [|done]. intros ->. destruct Hk as (? & ? & ? & _). congruence. }
    destruct (si_permits _ Hi) as [[? ?]|(? & t0 & ? & ?)]; [left|right]; naive_solver.
Qed.

Lemma sys_step_sinv s s' : sinv s → sys_step s s' → sinv s'.
Proof.
  intros Hi Hs. inversion Hs; subst.
  - by apply sinv_plan.
  - apply sinv_shrinks; [done|]. by apply store_change_shrinks.
  - by apply sinv_guard.
  - by apply sinv_unguard.
  - by apply sinv_call.
  - destruct Hi. by split.
  - rewrite upd_task. by eapply sinv_task.
  - match goal with H : ∃ _, _ |- _ => destruct H as (a & Hp) end.
    eapply (sinv_release s t rq p PDropped); eauto using shrinks_refl. naive_solver.
Qed.

Lemma sinv_default : sinv sys_default.
Proof.
  split; cbn; try done; try set_solver.
  - apply wf_cleared.
  - constructor.
  - left. split; [done|]. intros t (? & ? & ? & _). done.
Qed.

Lemma sys_reachable_sinv s : sys_reachable s → sinv s.
Proof. intros H. eapply (rtc_ind_r sinv); eauto using sinv_default, sys_step_sinv. Qed.

(** ** Properties *)

(** [C1] One-shot authority: whatever tasks, planners, timers, cancellations
    and lifecycle work interleave, no plan id is ever handed to the mutation
    transport twice. *)
Theorem plan_dispatched_at_most_once s : sys_reachable s → NoDup (dispatched_ids s).
Proof. intros H. apply (si_nodup _ (sys_reachable_sinv _ H)). Qed.

(** Executions never overlap: two tasks that both hold an execution
    permit are the same task, its host's lifecycle gate is locked, and no
    lifecycle guard of that host is held at the same time. *)
Theorem execution_is_exclusive s t1 rq1 p1 t2 rq2 p2 :
  sys_reachable s →
  sys_tasks s !! t1 = Some (rq1, p1) → holds_permit p1 = true →
  sys_tasks s !! t2 = Some (rq2, p2) → holds_permit p2 = true →
  t1 = t2 ∧ host_gates (sys_adm s) !! ab_host_id (rq_binding rq1) = Some true ∧
  ab_host_id (rq_binding rq1) ∉ sys_guards s.
Proof.
  intros H Ht1 Hp1 Ht2 Hp2. pose proof (sys_reachable_sinv _ H) as Hi.
  split; [|by apply (si_gates _ Hi _ _ _ Ht1)].
  eapply holder_unique; [apply (si_permits _ Hi)|by exists rq1, p1|by exists rq2, p2].
Qed.

(** *** What was dispatched, and when it was last checked *)

(** A task that has read the seal, or the token, for the last time, and what
    it is about to dispatch. *)
Definition past_seal (p : Phase) : option AnyConsumed :=
  match p with PCancelRecheck a | PDispatchCall a => Some a | _ => None end.
Definition past_token (p : Phase) : option AnyConsumed :=
  match p with PDispatchCall a => Some a | _ => None end.

Lemma past_seal_holds p a : past_seal p = Some a → holds_permit p = true.
Proof. by destruct p. Qed.

(** One step of a task, as far as dispatching goes. *)
Lemma exec_step_past rq an p store adm p' store' adm' :
  exec_step rq an p store adm = (p', store', adm') →
  (∀ a, dispatches p p' = Some a → p = PDispatchCall a) ∧
  (∀ a, past_seal p' = Some a → past_seal p = Some a ∨ sealed (state store) = false) ∧
  (∀ a, past_token p' = Some a → past_token p = Some a ∨ (past_seal p = Some a ∧ an_cancelled an = false)).
Proof.
  destruct p; cbn [exec_step]; rewrite ?is_sealed_fst; repeat case_match; intros [= <- <- <-]; simplify_eq/=;
    (split_and!; [by intros ? ?; simplify_eq/=|by intros ? ?; simplify_eq/=; auto|by intros ? ?; simplify_eq/=; auto]).
Qed.

(** Every call of the transport belongs to a task that answers its request. *)
Definition log_ok (s : Sys) : Prop := ∀ t a, (t, a) ∈ sys_dispatched s →
  ∃ rq p, sys_tasks s !! t = Some (rq, p) ∧ answers_request rq a.

Lemma log_ok_insert s t rq p x : log_ok s → (sys_tasks s !! t = None ∨ ∃ q, sys_tasks s !! t = Some (rq, q)) →
  x ∈ sys_dispatched s → ∃ rq' p', <[t := (rq, p)]> (sys_tasks s) !! x.1 = Some (rq', p') ∧ answers_request rq' x.2.
Proof.
  intros Hl Ht Hx. destruct x as [k a]. destruct (Hl k a Hx) as (rq' & p' & Hk & Ha). cbn. rewrite lookup_insert.
  case_decide; [|by eauto]. subst k. destruct Ht as [Ht|[q Ht]]; rewrite Ht in Hk; [done|]. injection Hk as -> ->. eauto.
Qed.

Lemma sys_step_log s s' : sinv s → log_ok s → sys_step s s' → log_ok s'.
Proof.
  intros Hi Hl Hs. inversion Hs as [| | | |? t rq Ht| |? t rq p an p' store' adm' Ht Hc He|? t rq p Ht _]; subst; try done; cbn.
  - intros k a Hk. by apply (log_ok_insert s t rq PSealedCheck (k, a) Hl (or_introl Ht)).
  - intros k a [Hk|Hk]%elem_of_app; [|by apply (log_ok_insert s t rq p' (k, a) Hl); eauto].
    apply list_elem_of_fmap in Hk as (b & [= -> <-] & Hb). destruct (dispatches p p') as [c|] eqn:E; [|by apply elem_of_nil in Hb].
    apply list_elem_of_singleton in Hb as ->. destruct (exec_step_past _ _ _ _ _ _ _ _ He) as (Hd & _ & _). rewrite (Hd c E) in Ht.
    destruct (si_carried _ Hi _ _ _ c Ht eq_refl) as (_ & Ha & _). cbn. rewrite lookup_insert_eq. eauto.
  - intros k a Hk. by apply (log_ok_insert s t rq PDropped (k, a) Hl); eauto.
Qed.

Lemma sys_reachable_log s : sys_reachable s → sinv s ∧ log_ok s.
Proof.
  intros H. eapply (rtc_ind_r (λ s, sinv s ∧ log_ok s)); [|intros x y _ Hs [Hi Hl]; eauto using sys_step_sinv, sys_step_log|exact H].
  split; [apply sinv_default|]. by intros t a ?%elem_of_nil.
Qed.

(** The store stays sealed. *)
Lemma sys_step_sealed s s' : sinv s → sys_step s s' → sealed (state (sys_store s)) = true → sealed (state (sys_store s')) = true.
Proof.
  intros Hi Hs Hsx. pose proof (si_wf _ Hi) as Hwf.
  inversion Hs as [? O now id draft cur Hid|? store' Hc| | | | |? t rq p an p' store' adm' Ht Hc He|]; subst; cbn; try done.
  - rewrite insert_cases, Hsx. by repeat case_match.
  - by eapply sh_sealed; [apply store_change_shrinks|..].
  - destruct p; cbn [exec_step] in He; try (by repeat case_match; simplify_eq/=).
    pose proof (consume_shrinks (rq_op rq) (an_now an) (rq_plan rq) (rq_binding rq) (sys_store s)) as Hsh.
    destruct (consume _ _ _ _ _) as [[c|e] store1]; simplify_eq/=; by apply (sh_sealed _ _ Hsh).
Qed.

(** What a later state [x] owes to an earlier one [s]: after a seal only tasks
    that had read it before go on to the transport, after a cancellation only
    a task that had read its token before. *)
Record since (s x : Sys) : Prop := {
  sn_sealed : sealed (state (sys_store s)) = true → sealed (state (sys_store x)) = true ∧
    ∀ t rq p a, sys_tasks x !! t = Some (rq, p) → past_seal p = Some a →
      ∃ rq' p', sys_tasks s !! t = Some (rq', p') ∧ past_seal p' = Some a;
  sn_cancelled t : t ∈ sys_cancelled s → t ∈ sys_cancelled x ∧
    ∀ rq p a, sys_tasks x !! t = Some (rq, p) → past_token p = Some a → ∃ rq', sys_tasks s !! t = Some (rq', PDispatchCall a);
  sn_log t a : (t, a) ∈ sys_dispatched x → (t, a) ∈ sys_dispatched s ∨
    (sealed (state (sys_store s)) = true → ∃ rq p, sys_tasks s !! t = Some (rq, p) ∧ past_seal p = Some a) ∧
    (t ∈ sys_cancelled s → ∃ rq, sys_tasks s !! t = Some (rq, PDispatchCall a))
}.

Lemma since_refl s : since s s.
Proof.
  split; [by eauto| |by left]. intros t Ht. split; [done|]. intros rq p a Hp Ha. destruct p; try done. injection Ha as ->. eauto.
Qed.

(** A step that begins or ends a task. *)
Lemma since_tasks s x y : since s x → sys_dispatched y = sys_dispatched x → sys_cancelled x ⊆ sys_cancelled y →
  (sealed (state (sys_store x)) = true → sealed (state (sys_store y)) = true) →
  (∀ t rq p, sys_tasks y !! t = Some (rq, p) → sys_tasks x !! t = Some (rq, p) ∨ past_seal p = None) → since s y.
Proof.
  intros [H1 H2 H3] Hd Hc Hs Ht. split; [| |by rewrite Hd].
  - intros Hse. destruct (H1 Hse) as [Hx Hp]. split; [auto|]. intros t rq p a Hy Ha.
    destruct (Ht t rq p Hy) as [Hx'|Hn]; [by eapply Hp|congruence].
  - intros t Hse. destruct (H2 t Hse) as [Hx Hp]. split; [auto|]. intros rq p a Hy Ha.
    destruct (Ht t rq p Hy) as [Hx'|Hn]; [by eapply Hp|by destruct p].
Qed.

Lemma since_step s x y : sinv x → since s x → sys_step x y → since s y.
Proof.
  intros Hi Hsi Hs. pose proof (sys_step_sealed _ _ Hi Hs) as Hseal.
  inversion Hs as [| | | |? t rq Ht| |? t rq p an p' store' adm' Ht Hc He|? t rq p Ht _]; subst;
    try (apply (since_tasks s x); [done|done|done|done|by left]).
  - apply (since_tasks s x); [done|done|done|done|]. cbn. intros k rq' p' [[<- [= <- <-]]|[_ Hk]]%lookup_insert_Some; [by right|by left].
  - apply (since_tasks s x); [done|done|apply union_subseteq_r|done|by left].
  - destruct (exec_step_past _ _ _ _ _ _ _ _ He) as (Hd & Hp1 & Hp2). pose proof Hsi as [H1 H2 H3]. split; cbn.
    + intros Hse. destruct (H1 Hse) as [Hx Hp]. split; [by apply Hseal|].
      intros k rq' q a [[<- [= <- <-]]|[_ Hk]]%lookup_insert_Some Ha; [|by eapply Hp].
      destruct (Hp1 a Ha) as [Ho|Ho]; [by eapply Hp|congruence].
    + intros k Hse. destruct (H2 k Hse) as [Hx Hp]. split; [done|].
      intros rq' q a [[<- [= <- <-]]|[_ Hk]]%lookup_insert_Some Ha; [|by eapply Hp].
      destruct (Hp2 a Ha) as [Ho|[_ Ho]]; [by eapply Hp|]. rewrite Hc in Ho. by apply bool_decide_eq_false in Ho.
    + intros k a [Hk|Hk]%elem_of_app; [|by apply H3]. apply list_elem_of_fmap in Hk as (b & [= -> <-] & Hb).
      destruct (dispatches p p') as [c|] eqn:E; [|by apply elem_of_nil in Hb]. apply list_elem_of_singleton in Hb as ->.
      rewrite (Hd c eq_refl) in Ht. right. split; [intros Hse; by eapply (H1 Hse)|intros Hse; by eapply (H2 t Hse)].
  - apply (since_tasks s x); [done|done|done|done|]. cbn. intros k rq' p' [[<- [= <- <-]]|[_ Hk]]%lookup_insert_Some; [by right|by left].
Qed.

Lemma since_run s s' : sinv s → rtc sys_step s s' → sinv s' ∧ since s s'.
Proof.
  intros Hi. apply (rtc_ind_r (λ x, sinv x ∧ since s x) s); [by auto using since_refl|].
  intros x y _ Hs [Hx Hsi]. eauto using sys_step_sinv, since_step.
Qed.

(** [C3] What reaches the transport is what was approved, and nothing does
    after a shutdown or a cancellation but what had already passed its last
    check.  Take any state and any run from it, and a call of [dispatch] in
    that run: its authority carries the plan id, the operation and the
    connection binding of the request of its task and the fixed risk of that
    operation, and the plan is no longer pending.  If the store was sealed in
    the first state, the task had then already read the seal for the last
    time, and no other call follows: at most one dispatch comes after a
    shutdown.  If the task's token was cancelled in the first state, the task
    had then read its token too and was at the call itself. *)
Theorem dispatch_is_authorized s s' t a :
  sys_reachable s → rtc sys_step s s' → (t, a) ∈ sys_dispatched s' → (t, a) ∉ sys_dispatched s →
  (∃ rq p, sys_tasks s' !! t = Some (rq, p) ∧ any_id a = rq_plan rq ∧ projT1 a = rq_op rq ∧
     ca_binding (projT2 a) = rq_binding rq ∧ ca_risk (projT2 a) = RISK (rq_op rq)) ∧
  pending (state (sys_store s')) !! any_id a = None ∧
  (sealed (state (sys_store s)) = true → (∃ rq p, sys_tasks s !! t = Some (rq, p) ∧ past_seal p = Some a) ∧
     ∀ t' a', (t', a') ∈ sys_dispatched s' → (t', a') ∉ sys_dispatched s → t' = t ∧ a' = a) ∧
  (t ∈ sys_cancelled s → ∃ rq, sys_tasks s !! t = Some (rq, PDispatchCall a)).
Proof.
  intros Hr Hrun Hin Hnew. destruct (sys_reachable_log s' (rtc_trans _ _ _ Hr Hrun)) as [Hi' Hl].
  destruct (since_run s s' (sys_reachable_sinv _ Hr) Hrun) as [_ [_ _ H3]].
  destruct (Hl t a Hin) as (rq & p & Ht & Ho & Hid & Hb & Hk). split; [exists rq, p; by rewrite <-Ho|].
  split; [apply (si_dispatched _ Hi'), list_elem_of_fmap; by exists (t, a)|].
  destruct (H3 t a Hin) as [?|[Hs Hc]]; [done|]. split; [|done]. intros Hse. split; [auto|]. intros t' a' Hin' Hnew'.
  destruct (H3 t' a' Hin') as [?|[Hs' _]]; [done|]. destruct (Hs Hse) as (r1 & p1 & T1 & P1), (Hs' Hse) as (r2 & p2 & T2 & P2).
  assert (t' = t) as ->; [|rewrite T1 in T2; split; [done|congruence]].
  eapply holder_unique; [apply (si_permits _ (sys_reachable_sinv _ Hr))|exists r2, p2|exists r1, p1]; eauto using past_seal_holds.
Qed.

(** Shutdown is final: once the store is sealed and no task is past its last
    reading of the seal, no later step of any task reaches the transport. *)
Theorem no_dispatch_after_seal s s' x :
  sys_reachable s → sealed (state (sys_store s)) = true → (∀ t rq p, sys_tasks s !! t = Some (rq, p) → past_seal p = None) →
  rtc sys_step s s' → x ∈ sys_dispatched s' → x ∈ sys_dispatched s.
Proof.
  intros Hr Hse Hno Hrun Hx. destruct x as [t a].
  destruct (since_run s s' (sys_reachable_sinv _ Hr) Hrun) as [_ [_ _ H3]].
  destruct (H3 t a Hx) as [?|[Hs _]]; [done|]. destruct (Hs Hse) as (rq & p & Ht & Hp). by rewrite (Hno _ _ _ Ht) in Hp.
Qed.

(** ** A concrete run of the remote-operation foundation: one plan is published,
    executed up to the dispatch and beyond; the safety theorems apply to it. *)


(** Let one task take its next step. *)
Definition sys_run (t : N) (an : Answers) (s : Sys) : Sys :=
  match sys_tasks s !! t with
  | Some (rq, p) =>
      let '(p', store', adm') := exec_step rq an p (sys_store s) (sys_adm s) in
      upd s t rq p' store' adm' (option_list (dispatches p p'))
  | None => s
  end.

Lemma sys_run_step t an s rq p :
  sys_tasks s !! t = Some (rq, p) → an_cancelled an = bool_decide (t ∈ sys_cancelled s) →
  sys_step s (sys_run t an s).
Proof.
  intros Ht Hc. unfold sys_run. rewrite Ht. destruct (exec_step _ _ _ _ _) as [[p' store'] adm'] eqn:E.
  by eapply step_task.
Qed.

Definition ex_binding : AuthorityBinding :=
  {| ab_host_id := 1%N; ab_host_session_id := 7%N; ab_generation := 3 |}.

Definition ex_draft : PlanDraft SystemdTryRestart :=
  Build_PlanDraft SystemdTryRestart ex_binding (Unit (lit "nginx.service")) TryRestartPre tt.

Definition ex_request : Request :=
  {| rq_op := SystemdTryRestart; rq_plan := 42%N; rq_binding := ex_binding |}.

Definition ex_answers : Answers :=
  {| an_now := from_secs 5; an_cancelled := false; an_revalidated := true;
     an_outcome := CompletionConfirmed true |}.

Definition ex_planned : Sys :=
  {| sys_store := (insert SystemdTryRestart 0 42%N ex_draft ex_binding store_default).2;
     sys_adm := admission_default; sys_tasks := ∅; sys_cancelled := ∅; sys_guards := ∅;
     sys_issued := {[42%N]} ∪ ∅; sys_dispatched := [] |}.

Definition ex_called : Sys :=
  {| sys_store := sys_store ex_planned; sys_adm := sys_adm ex_planned;
     sys_tasks := <[1%N := (ex_request, PSealedCheck)]> ∅; sys_cancelled := ∅; sys_guards := ∅;
     sys_issued := sys_issued ex_planned; sys_dispatched := [] |}.

Definition ex_after (n : nat) : Sys := Nat.iter n (sys_run 1%N ex_answers) ex_called.

Lemma ex_planned_reachable : sys_reachable ex_planned.
Proof. apply rtc_once. by apply (step_plan sys_default SystemdTryRestart 0 42%N ex_draft ex_binding). Qed.

Lemma ex_called_reachable : sys_reachable ex_called.
Proof.
  eapply rtc_r; [apply ex_planned_reachable|]. by apply (step_call ex_planned 1%N ex_request).
Qed.

Lemma ex_after_task n : ∃ p, sys_tasks (ex_after n) !! 1%N = Some (ex_request, p) ∧ sys_cancelled (ex_after n) = ∅.
Proof.
  induction n as [|n (p & Hp & Hc)]; [eauto|].
  change (ex_after (S n)) with (sys_run 1%N ex_answers (ex_after n)). unfold sys_run. rewrite Hp.
  destruct (exec_step _ _ _ _ _) as [[p' store'] adm']. cbn. rewrite lookup_insert_eq. eauto.
Qed.

Lemma ex_after_reachable n : sys_reachable (ex_after n).
Proof.
  induction n as [|n IH]; [apply ex_called_reachable|]. eapply rtc_r; [exact IH|].
  destruct (ex_after_task n) as (p & Hp & Hc). apply (sys_run_step 1%N ex_answers (ex_after n) ex_request p Hp). by rewrite Hc.
Qed.

(** The ninth step calls the transport, the tenth returns its answer. *)
Example ex_run_result :
  dispatched_ids (ex_after 9) = [42%N] ∧
  sys_tasks (ex_after 10) !! 1%N =
    Some (ex_request, PReturned (Ok (transport_result (CompletionConfirmed true)))).
Proof. split; vm_compute; reflexivity. Qed.

Lemma plan_dispatched_at_most_once_witness :
  dispatched_ids (ex_after 9) = [42%N] ∧ NoDup (dispatched_ids (ex_after 9)).
Proof.
  split; [vm_compute; reflexivity|].
  apply (plan_dispatched_at_most_once (ex_after 9)). apply ex_after_reachable.
Defined.

Definition ex_phase (n : nat) : Phase :=
  match sys_tasks (ex_after n) !! 1%N with Some (_, p) => p | None => PDropped end.

Lemma execution_is_exclusive_witness :
  holds_permit (ex_phase 4) = true ∧
  (1%N = 1%N ∧ host_gates (sys_adm (ex_after 4)) !! 1%N = Some true ∧ 1%N ∉ sys_guards (ex_after 4)).
Proof.
  split; [vm_compute; reflexivity|].
  apply (execution_is_exclusive (ex_after 4) 1%N ex_request (ex_phase 4) 1%N ex_request (ex_phase 4)).
  - apply ex_after_reachable.
  - vm_compute; reflexivity.
  - vm_compute; reflexivity.
  - vm_compute; reflexivity.
  - vm_compute; reflexivity.
Defined.

Definition ex_authority : AnyConsumed :=
  existT SystemdTryRestart
    (Build_ConsumedAuthority SystemdTryRestart 42%N ex_binding High 0 PLAN_TTL
       (Unit (lit "nginx.service")) TryRestartPre tt).

(** The store is sealed and the token cancelled right before the call. *)
Definition ex_sealed (n : nat) : Sys := with_store (seal_and_revoke_all (sys_store (ex_after n))).2 (ex_after n).
Definition ex_late : Sys :=
  {| sys_store := sys_store (ex_sealed 8); sys_adm := sys_adm (ex_sealed 8); sys_tasks := sys_tasks (ex_sealed 8);
     sys_cancelled := {[1%N]} ∪ sys_cancelled (ex_sealed 8); sys_guards := sys_guards (ex_sealed 8);
     sys_issued := sys_issued (ex_sealed 8); sys_dispatched := sys_dispatched (ex_sealed 8) |}.
Definition ex_too_late : Answers :=
  {| an_now := from_secs 5; an_cancelled := true; an_revalidated := true; an_outcome := CompletionConfirmed true |}.

Lemma ex_sealed_reachable n : sys_reachable (ex_sealed n).
Proof. eapply rtc_r; [apply (ex_after_reachable n)|]. apply step_store, ch_seal. Qed.
Lemma ex_late_reachable : sys_reachable ex_late.
Proof. eapply rtc_r; [apply (ex_sealed_reachable 8)|]. apply (step_cancel (ex_sealed 8) 1%N). Qed.

Lemma ex_step an s rq p : sys_tasks s !! 1%N = Some (rq, p) → an_cancelled an = bool_decide (1%N ∈ sys_cancelled s) →
  rtc sys_step s (sys_run 1%N an s).
Proof. intros H1 H2. by eapply rtc_once, sys_run_step. Qed.

Lemma dispatch_is_authorized_witness :
  sealed (state (sys_store ex_late)) = true ∧ sys_dispatched (sys_run 1%N ex_too_late ex_late) = [(1%N, ex_authority)] ∧
  ca_binding (projT2 ex_authority) = ex_binding ∧ ca_risk (projT2 ex_authority) = RISK SystemdTryRestart ∧
  ∃ rq, sys_tasks ex_late !! 1%N = Some (rq, PDispatchCall ex_authority).
Proof.
  assert (sealed (state (sys_store ex_late)) = true) as Hs by (vm_compute; reflexivity).
  assert (sys_dispatched (sys_run 1%N ex_too_late ex_late) = [(1%N, ex_authority)]) as Hd by (vm_compute; reflexivity).
  split; [done|]. split; [done|].
  destruct (dispatch_is_authorized ex_late (sys_run 1%N ex_too_late ex_late) 1%N ex_authority)
    as ((rq & p & Ht & _ & _ & Hb & Hr) & _ & _ & Hc).
  - apply ex_late_reachable.
  - eapply ex_step; vm_compute; reflexivity.
  - rewrite Hd. apply list_elem_of_singleton. reflexivity.
  - change (sys_dispatched ex_late) with (@nil (N * AnyConsumed)). by intros ?%elem_of_nil.
  - split; [reflexivity|]. split; [reflexivity|]. apply Hc. vm_compute. reflexivity.
Defined.

(** Sealed one step earlier, the same task does not reach the transport. *)
Lemma no_dispatch_after_seal_witness x :
  x ∈ sys_dispatched (sys_run 1%N ex_answers (ex_sealed 6)) → x ∈ sys_dispatched (ex_sealed 6).
Proof.
  apply (no_dispatch_after_seal (ex_sealed 6)).
  - apply ex_sealed_reachable.
  - vm_compute; reflexivity.
  - intros t rq p Ht. destruct (ex_after_task 6) as (q & _ & _). change (sys_tasks (ex_after 6) !! t = Some (rq, p)) in Ht.
    revert Ht. vm_compute (sys_tasks (ex_after 6)). intros Ht. destruct (decide (t = 1%N)) as [->|Hne].
    + vm_compute in Ht. by injection Ht as <- <-.
    + exfalso. change (({[1%N := (ex_request, ex_phase 6)]} : gmap N (Request * Phase)) !! t = Some (rq, p)) in Ht.
      by rewrite lookup_singleton_ne in Ht.
  - eapply ex_step; vm_compute; reflexivity.
Qed.

Definition ex_store : AuthorityStore := sys_store ex_planned.

Lemma ex_store_reachable : store_reachable ex_store.
Proof.
  apply (reach_step store_default (OpInsert SystemdTryRestart 0 42%N ex_draft ex_binding));
    [constructor|reflexivity].
Qed.

Lemma authority_store_invariant_witness : by_host (state ex_store) !! 1%N = Some 42%N ∧ wf (state ex_store).
Proof.
  split; [vm_compute; reflexivity|].
  apply (authority_store_invariant ex_store). apply ex_store_reachable.
Defined.

Definition ex_consume : store_op := OpConsume SystemdTryRestart (from_secs 5) 42%N ex_binding.

Lemma ex_store_wf : wf (state ex_store).
Proof. exact (run_wf (OpInsert SystemdTryRestart 0 42%N ex_draft ex_binding) store_default (wf_cleared _) eq_refl). Qed.

Lemma authority_store_refines_witness :
  poisoned ex_store = false ∧
  spec_run ex_consume (abs ex_store) = ((run ex_consume ex_store).1, abs (run ex_consume ex_store).2).
Proof.
  split; [reflexivity|].
  apply (authority_store_refines ex_consume ex_store).
  - apply ex_store_wf.
  - exact I.
Defined.
