(* ===== verification/Observations.v ===== *)
(** Service observations: what a remote operation may be planned from
    ([crates/nexus-core/src/service_observations.rs]).

    A service listing is published under the host's connection binding; each
    row that satisfies an operation's precondition gets an opaque observation
    id, valid for 120 seconds.  [gen i] is the [i]-th [ServiceObservationId]
    a call of [publish] draws. *)

From S2P Require Import Prelude Str Model SystemdUnit Authority.

Definition SERVICE_OBSERVATION_TTL : Duration := from_secs 120.
Definition MAX_HOST_SETS : Z := 64.
Definition MAX_ACTIONABLE_GLOBAL : Z := 4096.

Record ResetFailedObservation := {
  rf_unit : SystemdServiceUnitName; rf_preconditions : SystemdResetFailedPreconditions }.
Record TryRestartObservation := {
  tr_unit : SystemdServiceUnitName; tr_preconditions : SystemdTryRestartPreconditions }.
Record ReloadObservation := {
  rl_unit : SystemdServiceUnitName; rl_preconditions : SystemdReloadPreconditions }.
Record StartObservation := {
  sr_unit : SystemdServiceUnitName; sr_preconditions : SystemdStartPreconditions }.

Inductive ActionableServiceObservation :=
| ResetFailed (o : ResetFailedObservation)
| TryRestart (o : TryRestartObservation)
| Reload (o : ReloadObservation)
| Start (o : StartObservation).

Record ObservationSet := {
  os_binding : AuthorityBinding;
  os_issued_at : Instant;
  os_expires_at : Instant;
  os_entries : gmap ServiceObservationId ActionableServiceObservation
}.

Record ObservationState := {
  sets : gmap HostId ObservationSet;
  newest_request : gmap HostId Z;
  obs_sealed : bool
}.

Record ServiceObservationStore := { obs_state : ObservationState; obs_poisoned : bool }.

Definition observation_store_default : ServiceObservationStore :=
  {| obs_state := {| sets := ∅; newest_request := ∅; obs_sealed := false |}; obs_poisoned := false |}.

Abbreviation obsM A := (st ServiceObservationStore AppError A) (only parsing).

Definition obs_stale : AppError :=
  app_error Conflict "The service observation is stale; refresh services and try again.".
Definition obs_shutting_down : AppError :=
  app_error Conflict "NexusOps is shutting down; service observations are unavailable.".
Definition obs_unavailable : AppError :=
  app_error Conflict "Service observation authority is unavailable.".

Definition obs_lock : obsM ObservationState := fun s =>
  if obs_poisoned s then (Err obs_unavailable, s) else (Ok (obs_state s), s).
Definition obs_set (st' : ObservationState) : obsM unit := fun s =>
  (Ok tt, {| obs_state := st'; obs_poisoned := obs_poisoned s |}).

(** [newest_request.get(&host).copied().unwrap_or_default().saturating_add(1)] *)
Definition next_sequence (host_id : HostId) (s : ObservationState) : Z :=
  saturating_add (default 0 (newest_request s !! host_id)) 1.

Definition actionable_count (m : gmap HostId ObservationSet) : Z :=
  map_fold (λ _ set n, zsize (os_entries set) + n) 0 m.

Definition obs_remove_expired (now : Instant) (s : ObservationState) : ObservationState :=
  {| sets := filter (λ p, now < os_expires_at p.2) (sets s);
     newest_request := newest_request s; obs_sealed := obs_sealed s |}.

Definition begin_request (host_id : HostId) : obsM Z :=
  s ← obs_lock;
  _ ← st_ensure (obs_sealed s) obs_shutting_down;
  let sequence := next_sequence host_id s in
  _ ← obs_set {| sets := sets s; newest_request := <[host_id := sequence]> (newest_request s);
                 obs_sealed := obs_sealed s |};
  mret sequence.

(** *** Publishing a listing *)

Definition Acc : Type := nat * gmap ServiceObservationId ActionableServiceObservation.

(** [let id = ServiceObservationId::new(); ...; entries.insert(id, obs)] *)
Definition offer (gen : nat → ServiceObservationId) (cond : bool)
    (obs : ActionableServiceObservation) (acc : Acc) : option ServiceObservationId * Acc :=
  let '(n, m) := acc in
  if cond then (Some (gen n), (S n, <[gen n := obs]> m)) else (None, (n, m)).

Definition clear_ids (e : ServiceEntry) : ServiceEntry :=
  {| unit_ := unit_ e; load_state := load_state e; active_state := active_state e;
     sub_state := sub_state e; description := description e; can_start := can_start e;
     can_reload := can_reload e; reset_failed_observation_id := None;
     try_restart_observation_id := None; reload_observation_id := None;
     start_observation_id := None |}.

(** One iteration of the loop over [snapshot.entries]. *)
Definition publish_entry (gen : nat → ServiceObservationId) (acc : Acc) (e : ServiceEntry)
    : Acc * ServiceEntry :=
  match unit_parse (unit_ e) with
  | Err _ => (acc, clear_ids e)
  | Ok u =>
      let '(rf, acc) := offer gen (reset_failed_matches (load_state e) (active_state e) (sub_state e))
        (ResetFailed {| rf_unit := u; rf_preconditions := ResetFailedPre |}) acc in
      let '(tr, acc) := offer gen (try_restart_matches (load_state e) (active_state e) (sub_state e))
        (TryRestart {| tr_unit := u; tr_preconditions := TryRestartPre |}) acc in
      let '(rl, acc) := offer gen (reload_matches (load_state e) (active_state e) (sub_state e) (can_reload e))
        (Reload {| rl_unit := u; rl_preconditions := ReloadPre |}) acc in
      let '(sr, acc) := offer gen (start_matches (load_state e) (active_state e) (sub_state e) (can_start e))
        (Start {| sr_unit := u; sr_preconditions := StartPre |}) acc in
      (acc, {| unit_ := unit_ e; load_state := load_state e; active_state := active_state e;
               sub_state := sub_state e; description := description e; can_start := can_start e;
               can_reload := can_reload e; reset_failed_observation_id := rf;
               try_restart_observation_id := tr; reload_observation_id := rl;
               start_observation_id := sr |})
  end.

Fixpoint publish_entries (gen : nat → ServiceObservationId) (acc : Acc) (l : list ServiceEntry)
    : Acc * list ServiceEntry :=
  match l with
  | [] => (acc, [])
  | e :: l =>
      let '(acc, e') := publish_entry gen acc e in
      let '(acc, l') := publish_entries gen acc l in
      (acc, e' :: l')
  end.

(** [state.sets.iter().min_by_key(|(_, set)| set.issued_at)] *)
Definition older (p q : HostId * ObservationSet) : HostId * ObservationSet :=
  if os_issued_at q.2 <? os_issued_at p.2 then q else p.
Definition oldest_set (m : gmap HostId ObservationSet) : option HostId :=
  match map_to_list m with
  | [] => None
  | p :: l => Some (foldl older p l).1
  end.

Definition over_budget (incoming : Z) (m : gmap HostId ObservationSet) : bool :=
  (MAX_HOST_SETS <=? zsize m) ||
  (MAX_ACTIONABLE_GLOBAL <? saturating_add (actionable_count m) incoming).

(** The eviction loop; [fuel] is one more than the number of sets. *)
Fixpoint evict (fuel : nat) (incoming : Z) (m : gmap HostId ObservationSet)
    : gmap HostId ObservationSet :=
  match fuel with
  | O => m
  | S fuel =>
      if over_budget incoming m then
        match oldest_set m with
        | None => m
        | Some oldest => evict fuel incoming (delete oldest m)
        end
      else m
  end.

Definition with_entries (l : list ServiceEntry) (snap : ServiceSnapshot) : ServiceSnapshot :=
  {| snap_host_id := snap_host_id snap; snap_host_session_id := snap_host_session_id snap;
     snap_observed_at := snap_observed_at snap; snap_entries := l |}.

(** [publish]: returns the snapshot it rewrites in place. *)
Definition publish (gen : nat → ServiceObservationId) (now : Instant)
    (binding : AuthorityBinding) (sequence : Z) (snapshot : ServiceSnapshot) : obsM ServiceSnapshot :=
  _ ← st_ensure (bool_decide (snap_host_id snapshot ≠ ab_host_id binding)
                 || bool_decide (snap_host_session_id snapshot ≠ ab_host_session_id binding)
                 || (512 <? zlen (snap_entries snapshot))) obs_stale;
  s ← obs_lock;
  _ ← st_ensure (obs_sealed s
                 || bool_decide (newest_request s !! ab_host_id binding ≠ Some sequence)) obs_stale;
  let live := delete (ab_host_id binding) (sets (obs_remove_expired now s)) in
  let '((_, entries), rows) := publish_entries gen (0%nat, ∅) (snap_entries snapshot) in
  let kept := evict (S (size live)) (zsize entries) live in
  _ ← obs_set {| sets := <[ab_host_id binding :=
                    {| os_binding := binding; os_issued_at := now;
                       os_expires_at := now + SERVICE_OBSERVATION_TTL;
                       os_entries := entries |}]> kept;
                 newest_request := newest_request s; obs_sealed := obs_sealed s |};
  mret (with_entries rows snapshot).

(** *** Resolution *)

Definition resolve (now : Instant) (id : ServiceObservationId) (expected : AuthorityBinding)
    : obsM ActionableServiceObservation :=
  s ← obs_lock;
  let s := obs_remove_expired now s in
  _ ← obs_set s;
  match sets s !! ab_host_id expected with
  | None => st_fail obs_stale
  | Some set =>
      _ ← st_ensure (bool_decide (os_binding set ≠ expected)) obs_stale;
      st_lift (ok_or (os_entries set !! id) obs_stale)
  end.

Definition resolve_reset_failed (now : Instant) (id : ServiceObservationId)
    (expected : AuthorityBinding) : obsM ResetFailedObservation :=
  o ← resolve now id expected;
  match o with
  | ResetFailed value => mret value
  | TryRestart _ | Reload _ | Start _ => st_fail obs_stale
  end.

Definition resolve_try_restart (now : Instant) (id : ServiceObservationId)
    (expected : AuthorityBinding) : obsM TryRestartObservation :=
  o ← resolve now id expected;
  match o with
  | TryRestart value => mret value
  | ResetFailed _ | Reload _ | Start _ => st_fail obs_stale
  end.

Definition resolve_reload (now : Instant) (id : ServiceObservationId)
    (expected : AuthorityBinding) : obsM ReloadObservation :=
  o ← resolve now id expected;
  match o with
  | Reload value => mret value
  | ResetFailed _ | TryRestart _ | Start _ => st_fail obs_stale
  end.

Definition resolve_start (now : Instant) (id : ServiceObservationId)
    (expected : AuthorityBinding) : obsM StartObservation :=
  o ← resolve now id expected;
  match o with
  | Start value => mret value
  | ResetFailed _ | TryRestart _ | Reload _ => st_fail obs_stale
  end.

(** *** Revocation *)

Definition obs_revoke_host (host_id : HostId) : obsM unit :=
  s ← obs_lock;
  obs_set {| sets := delete host_id (sets s);
             newest_request := <[host_id := next_sequence host_id s]> (newest_request s);
             obs_sealed := obs_sealed s |}.

Definition obs_revoke_session (host_id : HostId) (host_session_id : HostSessionId) : obsM unit :=
  s ← obs_lock;
  obs_set {| sets := match sets s !! host_id with
                     | Some set => if bool_decide (ab_host_session_id (os_binding set) = host_session_id)
                                   then delete host_id (sets s) else sets s
                     | None => sets s
                     end;
             newest_request := <[host_id := next_sequence host_id s]> (newest_request s);
             obs_sealed := obs_sealed s |}.

Definition obs_seal_and_revoke_all : obsM unit :=
  _ ← obs_lock; obs_set {| sets := ∅; newest_request := ∅; obs_sealed := true |}.
