(* ===== verification/ObservationsSafe.v ===== *)
(** Safety of the observation store: what an observation id stands for, how
    many are kept, and when they stop resolving. *)

From S2P Require Import Prelude Str Model SystemdUnit Authority Observations.

(** ** Publishing a row *)

(** A row's ids lead to observations of that very unit, whose state met the
    operation's precondition. *)
Record row_ok (m : gmap ServiceObservationId ActionableServiceObservation) (e : ServiceEntry) : Prop := {
  row_rf id : reset_failed_observation_id e = Some id →
    ∃ u, unit_parse (unit_ e) = Ok u ∧ m !! id = Some (ResetFailed (Build_ResetFailedObservation u ResetFailedPre)) ∧
         reset_failed_matches (load_state e) (active_state e) (sub_state e) = true;
  row_tr id : try_restart_observation_id e = Some id →
    ∃ u, unit_parse (unit_ e) = Ok u ∧ m !! id = Some (TryRestart (Build_TryRestartObservation u TryRestartPre)) ∧
         try_restart_matches (load_state e) (active_state e) (sub_state e) = true;
  row_rl id : reload_observation_id e = Some id →
    ∃ u, unit_parse (unit_ e) = Ok u ∧ m !! id = Some (Reload (Build_ReloadObservation u ReloadPre)) ∧
         reload_matches (load_state e) (active_state e) (sub_state e) (can_reload e) = true;
  row_sr id : start_observation_id e = Some id →
    ∃ u, unit_parse (unit_ e) = Ok u ∧ m !! id = Some (Start (Build_StartObservation u StartPre)) ∧
         start_matches (load_state e) (active_state e) (sub_state e) (can_start e) = true
}.

(** The ids a row shows. *)
Definition row_ids (e : ServiceEntry) : list ServiceObservationId :=
  option_list (reset_failed_observation_id e) ++ option_list (try_restart_observation_id e) ++
  option_list (reload_observation_id e) ++ option_list (start_observation_id e).

Section Publishing.
Context (gen : nat → ServiceObservationId) `{!Inj (=) (=) gen}.

(** Ids drawn so far are exactly the keys. *)
Definition acc_ok (acc : Acc) : Prop := ∀ i, (acc.1 ≤ i)%nat → acc.2 !! gen i = None.

(** [acc'] extends [acc] by at most [k] observations, listed by [ids]. *)
Record grows (k : nat) (acc acc' : Acc) (ids : list ServiceObservationId) : Prop := {
  gr_sub : acc.2 ⊆ acc'.2;
  gr_ok : acc_ok acc → acc_ok acc';
  gr_size : acc_ok acc → (size acc'.2 = size acc.2 + length ids)%nat;
  gr_len : (length ids ≤ k)%nat;
  gr_keys id : is_Some (acc'.2 !! id) → is_Some (acc.2 !! id) ∨ id ∈ ids
}.

Lemma offer_grows cond obs acc id acc' :
  acc_ok acc → offer gen cond obs acc = (id, acc') →
  grows (if cond then 1 else 0) acc acc' (option_list id) ∧
  (∀ i, id = Some i → cond = true ∧ acc'.2 !! i = Some obs).
Proof.
  destruct acc as [n m]. unfold offer. cbn. intros Hok.
  destruct cond; intros [= <- <-]; cbn.
  - assert (m !! gen n = None) as Hn by (apply Hok; cbn; lia).
    split; [|intros i [= <-]; split; [done|apply lookup_insert_eq]]. split; cbn; [| | |lia|].
    + by apply insert_subseteq.
    + intros H i Hi. cbn in *. rewrite lookup_insert_ne; [apply H; cbn; lia|].
      intros E%(inj gen). lia.
    + intros _. rewrite map_size_insert_None by done. lia.
    + intros i. rewrite lookup_insert_is_Some'. set_solver.
  - split; [|done]. by split; cbn; auto.
Qed.

Lemma grows_trans k1 k2 a b c l1 l2 :
  grows k1 a b l1 → grows k2 b c l2 → acc_ok a → grows (k1 + k2) a c (l1 ++ l2).
Proof.
  intros [] [] Ha. split; [by etrans|auto| | |].
  - intros _. rewrite gr_size1, gr_size0, length_app; auto. lia.
  - rewrite length_app. lia.
  - intros id Hid. apply gr_keys1 in Hid as [Hid|]; [apply gr_keys0 in Hid as [|]|]; set_solver.
Qed.

Lemma grows_le k k' a b l : (k ≤ k')%nat → grows k a b l → grows k' a b l.
Proof. intros Hk []. split; auto. lia. Qed.

(** The four preconditions: at most two hold at once (a running unit that
    can reload). *)
Lemma matches_at_most_two e :
  ((if reset_failed_matches (load_state e) (active_state e) (sub_state e) then 1 else 0) +
   ((if try_restart_matches (load_state e) (active_state e) (sub_state e) then 1 else 0) +
    ((if reload_matches (load_state e) (active_state e) (sub_state e) (can_reload e) then 1 else 0) +
     (if start_matches (load_state e) (active_state e) (sub_state e) (can_start e) then 1 else 0))) ≤ 2)%nat.
Proof.
  unfold reset_failed_matches, try_restart_matches, reload_matches, start_matches, str_eqb.
  repeat case_bool_decide; simplify_eq; cbn; destruct (can_reload e), (can_start e); cbn; try lia;
    exfalso; match goal with H1 : active_state e = _, H2 : active_state e = _ |- _ =>
      rewrite H1 in H2; vm_compute in H2; discriminate end.
Qed.

Lemma publish_entry_grows acc e acc' e' :
  acc_ok acc → publish_entry gen acc e = (acc', e') →
  grows 2 acc acc' (row_ids e') ∧ row_ok acc'.2 e' ∧ clear_ids e' = clear_ids e.
Proof.
  intros Hok. unfold publish_entry. destruct (unit_parse (unit_ e)) as [u|] eqn:Hu.
  2: { intros [= <- <-]. cbn. split; [|done]. split; cbn; auto; lia. }
  destruct (offer _ _ _ acc) as [rf a1] eqn:E1. destruct (offer _ _ _ a1) as [tr a2] eqn:E2.
  destruct (offer _ _ _ a2) as [rl a3] eqn:E3. destruct (offer _ _ _ a3) as [sr a4] eqn:E4.
  intros [= <- <-].
  apply offer_grows in E1 as [G1 R1]; [|done]. pose proof (gr_ok _ _ _ _ G1 Hok) as Hok1.
  apply offer_grows in E2 as [G2 R2]; [|done]. pose proof (gr_ok _ _ _ _ G2 Hok1) as Hok2.
  apply offer_grows in E3 as [G3 R3]; [|done]. pose proof (gr_ok _ _ _ _ G3 Hok2) as Hok3.
  apply offer_grows in E4 as [G4 R4]; [|done].
  split; [|split; [|done]].
  - eapply grows_le; [|eapply grows_trans; [done|eapply grows_trans; [done|eapply grows_trans; [done|done|done]|done]|done]].
    apply matches_at_most_two.
  - pose proof (gr_sub _ _ _ _ G2) as S2. pose proof (gr_sub _ _ _ _ G3) as S3.
    pose proof (gr_sub _ _ _ _ G4) as S4.
    assert (a2.2 ⊆ a4.2) as S24 by (by etrans). assert (a1.2 ⊆ a4.2) as S14 by (by etrans).
    split; cbn; intros id Hid; [apply R1 in Hid|apply R2 in Hid|apply R3 in Hid|apply R4 in Hid];
      destruct Hid; exists u; split_and!; auto; by eapply lookup_weaken.
Qed.

Lemma row_ok_mono m m' e : m ⊆ m' → row_ok m e → row_ok m' e.
Proof.
  intros Hs [H1 H2 H3 H4]. split; intros id Hid;
    [apply H1 in Hid|apply H2 in Hid|apply H3 in Hid|apply H4 in Hid];
    destruct Hid as (u & ? & ? & ?); exists u; split_and!; auto; by eapply lookup_weaken.
Qed.

Lemma publish_entries_grows l acc acc' l' :
  acc_ok acc → publish_entries gen acc l = (acc', l') →
  grows (2 * length l) acc acc' (l' ≫= row_ids) ∧
  Forall (row_ok acc'.2) l' ∧ map clear_ids l' = map clear_ids l.
Proof.
  revert acc l'. induction l as [|e l IH]; cbn [publish_entries]; intros acc l' Hok.
  { intros [= <- <-]. cbn. split; [|auto]. split; cbn; auto; lia. }
  destruct (publish_entry gen acc e) as [a1 e'] eqn:E1.
  destruct (publish_entries gen a1 l) as [a2 l2] eqn:E2. intros [= <- <-].
  destruct (publish_entry_grows _ _ _ _ Hok E1) as (G1 & R1 & C1).
  destruct (IH a1 l2 (gr_ok _ _ _ _ G1 Hok) E2) as (G2 & R2 & C2).
  split; [|split].
  - eapply grows_le; [|by eapply grows_trans]. cbn. lia.
  - constructor; [|done]. by eapply row_ok_mono; [apply (gr_sub _ _ _ _ G2)|].
  - cbn. by rewrite C1, C2.
Qed.
End Publishing.

(** ** Eviction *)

Lemma actionable_insert h x m :
  m !! h = None → actionable_count (<[h := x]> m) = zsize (os_entries x) + actionable_count m.
Proof. intros H. unfold actionable_count. apply (map_fold_insert_L (λ _ set n, zsize (os_entries set) + n)); [lia|done]. Qed.

Lemma actionable_nonneg m : 0 ≤ actionable_count m.
Proof. induction m as [|h x m Hh IH] using map_ind; [done|]. rewrite actionable_insert by done. lia. Qed.

Lemma actionable_mono m m' : m ⊆ m' → actionable_count m ≤ actionable_count m'.
Proof.
  revert m'. induction m as [|h x m Hh IH] using map_ind; intros m' Hs; [apply actionable_nonneg|].
  assert (m' !! h = Some x) as Hx by (eapply lookup_weaken; [apply lookup_insert_eq|done]).
  rewrite <-(insert_delete_id m' h x Hx), !actionable_insert; [|apply lookup_delete_eq|done].
  assert (m ⊆ delete h m') as Hm.
  { rewrite <-(delete_insert_id m h x Hh). by apply delete_mono. }
  specialize (IH _ Hm). lia.
Qed.

Lemma foldl_older p l :
  (foldl older p l = p ∨ foldl older p l ∈ l) ∧
  ∀ q, q ∈ p :: l → os_issued_at (foldl older p l).2 ≤ os_issued_at q.2.
Proof.
  revert p. induction l as [|a l IH]; intros p; cbn; [set_solver by lia|].
  destruct (IH (older p a)) as [Hin Hmin].
  assert (os_issued_at (older p a).2 ≤ os_issued_at p.2 ∧ os_issued_at (older p a).2 ≤ os_issued_at a.2 ∧
          (older p a = p ∨ older p a = a)) as (H1 & H2 & H3).
  { unfold older. case_match; split_bools; split_and!; auto; lia. }
  split.
  - destruct Hin as [->|]; [|set_solver]. destruct H3 as [->| ->]; set_solver.
  - pose proof (Hmin (older p a) ltac:(set_solver)).
    intros q [->|[->|Hq]%elem_of_cons]%elem_of_cons; [lia|lia|apply Hmin; set_solver].
Qed.

(** The loop evicts a set that no other set precedes. *)
Lemma oldest_set_some m h :
  oldest_set m = Some h →
  ∃ x, m !! h = Some x ∧ ∀ h' x', m !! h' = Some x' → os_issued_at x ≤ os_issued_at x'.
Proof.
  unfold oldest_set. destruct (map_to_list m) as [|p l] eqn:E; [done|]. intros [= <-].
  destruct (foldl_older p l) as [Hin Hmin].
  assert (foldl older p l ∈ map_to_list m) as Hm by (rewrite E; set_solver).
  destruct (foldl older p l) as [h x]. apply elem_of_map_to_list in Hm. exists x. split; [done|].
  intros h' x' Hx'. apply (Hmin (h', x')). rewrite <-E. by apply elem_of_map_to_list.
Qed.

Lemma oldest_set_none m : oldest_set m = None → m = ∅.
Proof. unfold oldest_set. destruct (map_to_list m) eqn:E; [|done]. by apply map_to_list_empty_iff in E. Qed.

Lemma evict_subseteq fuel n m : evict fuel n m ⊆ m.
Proof.
  revert m. induction fuel as [|fuel IH]; intros m; cbn; [done|].
  repeat case_match; try done. etrans; [apply IH|apply delete_subseteq].
Qed.

(** With one more unit of fuel than sets, the loop has run to its end. *)
Lemma evict_done fuel n m :
  (size m < fuel)%nat → over_budget n (evict fuel n m) = false ∨ evict fuel n m = ∅.
Proof.
  revert m. induction fuel as [|fuel IH]; intros m Hf; cbn; [lia|].
  destruct (over_budget n m) eqn:E; [|auto]. destruct (oldest_set m) as [h|] eqn:Eo.
  - apply oldest_set_some in Eo as (x & Hx & _). apply IH.
    rewrite map_size_delete, Hx. cbn. assert (size m ≠ 0%nat); [|lia].
    intros H0%map_size_empty_inv. subst. done.
  - right. by apply oldest_set_none.
Qed.

(** ** Bounds *)

Definition obs_bounded (s : ObservationState) : Prop :=
  zsize (sets s) ≤ MAX_HOST_SETS ∧ actionable_count (sets s) ≤ MAX_ACTIONABLE_GLOBAL.

Lemma bounded_sub m m' :
  m ⊆ m' → zsize m' ≤ MAX_HOST_SETS ∧ actionable_count m' ≤ MAX_ACTIONABLE_GLOBAL →
  zsize m ≤ MAX_HOST_SETS ∧ actionable_count m ≤ MAX_ACTIONABLE_GLOBAL.
Proof.
  intros Hs [? ?]. pose proof (actionable_mono _ _ Hs). apply map_subseteq_size in Hs.
  split; lia.
Qed.

Lemma evict_insert_bounded h x n m :
  m !! h = None → n = zsize (os_entries x) → n ≤ 1024 →
  let m' := <[h := x]> (evict (S (size m)) n m) in
  zsize m' ≤ MAX_HOST_SETS ∧ actionable_count m' ≤ MAX_ACTIONABLE_GLOBAL.
Proof.
  intros Hh -> Hn. cbn zeta.
  assert (evict (S (size m)) (zsize (os_entries x)) m !! h = None) as Hnone.
  { eapply lookup_weaken_None; [done|apply evict_subseteq]. }
  rewrite actionable_insert, map_size_insert_None by done.
  pose proof (actionable_nonneg (evict (S (size m)) (zsize (os_entries x)) m)).
  destruct (evict_done (S (size m)) (zsize (os_entries x)) m) as [Hb| ->]; [lia| |].
  - unfold over_budget, saturating_add, MAX_HOST_SETS, MAX_ACTIONABLE_GLOBAL, u64_max in *. split_bools. lia.
  - unfold MAX_HOST_SETS, MAX_ACTIONABLE_GLOBAL. rewrite map_size_empty. unfold actionable_count.
    rewrite map_fold_empty. lia.
Qed.

Lemma acc_ok_empty gen : acc_ok gen (0%nat, ∅).
Proof. intros i _. apply lookup_empty. Qed.

(** A listing of at most 512 rows yields at most 1024 observations. *)
Lemma publish_entries_size gen `{!Inj (=) (=) gen} l acc l' :
  publish_entries gen (0%nat, ∅) l = (acc, l') → zlen l ≤ 512 → zsize acc.2 ≤ 1024.
Proof.
  intros E Hl. destruct (publish_entries_grows gen l _ _ _ (acc_ok_empty gen) E) as (G & _ & _).
  pose proof (gr_size _ _ _ _ _ G (acc_ok_empty gen)) as Hs. pose proof (gr_len _ _ _ _ _ G).
  cbn in Hs. rewrite map_size_empty in Hs. lia.
Qed.

(** ** Cases of [publish] *)

Definition published_set (now : Instant) (b : AuthorityBinding)
    (m : gmap ServiceObservationId ActionableServiceObservation) : ObservationSet :=
  {| os_binding := b; os_issued_at := now; os_expires_at := now + SERVICE_OBSERVATION_TTL; os_entries := m |}.

Lemma publish_ok gen now b seq snap self snap' self' :
  publish gen now b seq snap self = (Ok snap', self') →
  ∃ acc, publish_entries gen (0%nat, ∅) (snap_entries snap) = (acc, snap_entries snap') ∧
    zlen (snap_entries snap) ≤ 512 ∧ newest_request (obs_state self) !! ab_host_id b = Some seq ∧
    obs_sealed (obs_state self) = false ∧ obs_poisoned self' = obs_poisoned self ∧ obs_poisoned self = false ∧
    let live := delete (ab_host_id b) (sets (obs_remove_expired now (obs_state self))) in
    obs_state self' =
      {| sets := <[ab_host_id b := published_set now b acc.2]> (evict (S (size live)) (zsize acc.2) live);
         newest_request := newest_request (obs_state self); obs_sealed := false |}.
Proof.
  unfold publish, obs_lock, obs_set. unfold_bind.
  destruct (_ || (512 <? _)) eqn:E1; [done|]. split_bools.
  destruct (obs_poisoned self) eqn:Ep; [done|].
  destruct (obs_sealed (obs_state self) || _) eqn:E2; [done|]. split_bools.
  destruct (publish_entries gen _ _) as [[n m] rows] eqn:E. intros [= <- <-].
  exists (n, m). cbn. repeat split; auto; [by apply dec_stable|by f_equal].
Qed.

Lemma publish_err_state gen now b seq snap self e self' :
  publish gen now b seq snap self = (Err e, self') → self' = self.
Proof.
  unfold publish, obs_lock, obs_set. unfold_bind.
  repeat case_match; intros; simplify_eq; done.
Qed.

(** ** Reachable stores *)

Inductive obs_step : ServiceObservationStore → ServiceObservationStore → Prop :=
| os_begin h self : obs_step self (begin_request h self).2
| os_publish gen `{!Inj (=) (=) gen} now b seq snap self : obs_step self (publish gen now b seq snap self).2
| os_resolve now id b self : obs_step self (resolve now id b self).2
| os_revoke_host h self : obs_step self (obs_revoke_host h self).2
| os_revoke_session h sid self : obs_step self (obs_revoke_session h sid self).2
| os_seal self : obs_step self (obs_seal_and_revoke_all self).2.

Definition obs_reachable : ServiceObservationStore → Prop := rtc obs_step observation_store_default.

Lemma obs_remove_expired_sub now s : sets (obs_remove_expired now s) ⊆ sets s.
Proof. apply map_filter_subseteq. Qed.

Ltac obs_sub :=
  repeat case_match; simplify_eq/=;
  first [done|apply obs_remove_expired_sub|apply delete_subseteq|apply map_empty_subseteq].

(** What a step does to the sets and to the request counters. *)
Lemma obs_step_cases self self' :
  obs_step self self' →
  sets (obs_state self') ⊆ sets (obs_state self) ∨
  ∃ gen now b seq snap snap', Inj (=) (=) gen ∧ publish gen now b seq snap self = (Ok snap', self').
Proof.
  intros Hs. destruct Hs as [h self|gen Hinj now b seq snap self|now id b self|h self|h sid self|self].
  - left. unfold begin_request, obs_lock, obs_set. unfold_bind. repeat case_match; simplify_eq/=; done.
  - destruct (publish gen now b seq snap self) as [[snap'|e] self'] eqn:E; cbn.
    + right. by exists gen, now, b, seq, snap, snap'.
    + left. by rewrite (publish_err_state _ _ _ _ _ _ _ _ E).
  - left. unfold resolve, obs_lock, obs_set. unfold_bind.
    obs_sub.
  - left. unfold obs_revoke_host, obs_lock, obs_set. unfold_bind.
    obs_sub.
  - left. unfold obs_revoke_session, obs_lock, obs_set. unfold_bind.
    obs_sub.
  - left. unfold obs_seal_and_revoke_all, obs_lock, obs_set. unfold_bind.
    obs_sub.
Qed.

(** However listings arrive, the store never holds more than 64 host
    sets or more than 4096 actionable observations in total. *)
Theorem observation_store_bounded self : obs_reachable self → obs_bounded (obs_state self).
Proof.
  revert self. apply (rtc_ind_r (λ s, obs_bounded (obs_state s))); [by split; vm_compute|].
  intros self self' _ Hs IH.
  destruct (obs_step_cases _ _ Hs) as [Hsub|(gen & now & b & seq & snap & snap' & Hinj & Hp)].
  { by eapply bounded_sub. }
  apply publish_ok in Hp as (acc & E & Hl & _ & _ & _ & _ & Hst). unfold obs_bounded. rewrite Hst. cbn.
  apply evict_insert_bounded; [apply lookup_delete_eq|done|]. by eapply publish_entries_size.
Qed.

(** ** Publish, then resolve *)

Lemma resolve_published now' id b m now self :
  obs_poisoned self = false → now' < now + SERVICE_OBSERVATION_TTL →
  sets (obs_state self) !! ab_host_id b = Some (published_set now b m) →
  (resolve now' id b self).1 = ok_or (m !! id) obs_stale.
Proof.
  intros Hp Ht Hs. unfold resolve, obs_lock, obs_set. unfold_bind. rewrite Hp. cbn.
  rewrite (map_lookup_filter_Some_2 _ _ _ (published_set now b m)) by done. cbn.
  rewrite bool_decide_false by naive_solver. done.
Qed.

(** Publish and resolve agree: for 120 seconds after a listing is
    published, every observation id shown on one of its rows resolves, under
    the same connection binding and for the matching operation only, to the
    parsed unit of that row, whose state met the operation's precondition. *)
Theorem published_ids_resolve gen now b seq snap self snap' self' now' e :
  Inj (=) (=) gen →
  publish gen now b seq snap self = (Ok snap', self') →
  e ∈ snap_entries snap' → now' < now + SERVICE_OBSERVATION_TTL →
  (∀ id, reset_failed_observation_id e = Some id → ∃ u, unit_parse (unit_ e) = Ok u ∧
     reset_failed_matches (load_state e) (active_state e) (sub_state e) = true ∧
     (resolve_reset_failed now' id b self').1 = Ok (Build_ResetFailedObservation u ResetFailedPre) ∧
     (resolve_try_restart now' id b self').1 = Err obs_stale) ∧
  (∀ id, try_restart_observation_id e = Some id → ∃ u, unit_parse (unit_ e) = Ok u ∧
     try_restart_matches (load_state e) (active_state e) (sub_state e) = true ∧
     (resolve_try_restart now' id b self').1 = Ok (Build_TryRestartObservation u TryRestartPre) ∧
     (resolve_reload now' id b self').1 = Err obs_stale) ∧
  (∀ id, reload_observation_id e = Some id → ∃ u, unit_parse (unit_ e) = Ok u ∧
     reload_matches (load_state e) (active_state e) (sub_state e) (can_reload e) = true ∧
     (resolve_reload now' id b self').1 = Ok (Build_ReloadObservation u ReloadPre) ∧
     (resolve_start now' id b self').1 = Err obs_stale) ∧
  (∀ id, start_observation_id e = Some id → ∃ u, unit_parse (unit_ e) = Ok u ∧
     start_matches (load_state e) (active_state e) (sub_state e) (can_start e) = true ∧
     (resolve_start now' id b self').1 = Ok (Build_StartObservation u StartPre) ∧
     (resolve_reset_failed now' id b self').1 = Err obs_stale).
Proof.
  intros Hinj Hp He Ht. apply publish_ok in Hp as (acc & E & _ & _ & _ & Hp1 & Hp2 & Hst).
  destruct (publish_entries_grows gen _ _ _ _ (acc_ok_empty gen) E) as (_ & Hrows & _).
  destruct (proj1 (list.Forall_forall _ _) Hrows e He) as [H1 H2 H3 H4].
  assert (∀ id obs, acc.2 !! id = Some obs → (resolve now' id b self').1 = Ok obs) as Hres.
  { intros id obs Hobs. rewrite (resolve_published now' id b acc.2 now); [by rewrite Hobs|congruence|done|].
    rewrite Hst. cbn. by rewrite lookup_insert_eq. }
  unfold resolve_reset_failed, resolve_try_restart, resolve_reload, resolve_start. unfold_bind.
  split_and!; intros id Hid; [apply H1 in Hid|apply H2 in Hid|apply H3 in Hid|apply H4 in Hid];
    destruct Hid as (u & Hu & Hm & Hpre); exists u; apply Hres in Hm;
    destruct (resolve now' id b self') as [r s']; cbn in Hm; subst r; done.
Qed.

(** An id is refused once its deadline passed, or under any other binding. *)
Lemma resolve_refused now id b self :
  obs_poisoned self = false →
  (∀ x, sets (obs_state self) !! ab_host_id b = Some x → os_expires_at x ≤ now ∨ os_binding x ≠ b) →
  (resolve now id b self).1 = Err obs_stale.
Proof.
  intros Hp H. unfold resolve, obs_lock, obs_set. unfold_bind. rewrite Hp. cbn.
  destruct (filter _ _ !! _) as [x|] eqn:E; [|done].
  apply map_lookup_filter_Some in E as [Hx Hlt]. cbn in Hlt.
  destruct (H x Hx) as [?|?]; [lia|]. by rewrite bool_decide_true.
Qed.

(** ** Revocation outruns a listing in flight *)

Definition newest (h : HostId) (self : ServiceObservationStore) : Z :=
  default 0 (newest_request (obs_state self) !! h).

(** Counters never go back, and shutdown clears them for good. *)
Lemma obs_step_newest self self' h :
  obs_step self self' → obs_sealed (obs_state self') = true ∨
  (newest h self ≤ newest h self' ∧ obs_sealed (obs_state self) = false) ∨ newest h self > u64_max.
Proof.
  assert (∀ k s, default 0 (newest_request s !! h) ≤ u64_max →
    default 0 (newest_request s !! h) ≤ default 0 (<[k := next_sequence k s]> (newest_request s) !! h)) as Hins.
  { intros k s Hle. rewrite lookup_insert. case_decide; [|done]. subst. unfold next_sequence, saturating_add. cbn. lia. }
  intros Hs. destruct (decide (newest h self ≤ u64_max)); [|lia]. unfold newest in *.
  destruct (obs_sealed (obs_state self')) eqn:Hsl; [auto|]. right; left. revert Hsl.
  destruct Hs as [k self|gen Hinj now b seq snap self|now id b self|k self|k sid self|self].
  - unfold begin_request, obs_lock, obs_set. unfold_bind. repeat case_match; simplify_eq/=; auto with lia.
  - destruct (publish gen now b seq snap self) as [[snap'|e] self'] eqn:E; cbn.
    + apply publish_ok in E as (acc & _ & _ & _ & Hn & _ & _ & Hst). rewrite Hst. cbn. auto with lia.
    + rewrite (publish_err_state _ _ _ _ _ _ _ _ E). auto with lia.
  - unfold resolve, obs_lock, obs_set. unfold_bind. repeat case_match; simplify_eq/=; auto with lia.
  - unfold obs_revoke_host, obs_lock, obs_set. unfold_bind. repeat case_match; simplify_eq/=; auto with lia.
  - unfold obs_revoke_session, obs_lock, obs_set. unfold_bind. repeat case_match; simplify_eq/=; auto with lia.
  - unfold obs_seal_and_revoke_all, obs_lock, obs_set. unfold_bind. repeat case_match; simplify_eq/=; auto with lia.
Qed.

Lemma obs_step_sealed self self' :
  obs_step self self' → obs_sealed (obs_state self) = true → obs_sealed (obs_state self') = true.
Proof.
  intros Hs Hsl. destruct Hs as [k self|gen Hinj now b seq snap self|now id b self|k self|k sid self|self].
  2: { destruct (publish gen now b seq snap self) as [[snap'|e] self'] eqn:E; cbn.
       - apply publish_ok in E as (acc & _ & _ & _ & Hn & _). congruence.
       - by rewrite (publish_err_state _ _ _ _ _ _ _ _ E). }
  all: unfold begin_request, resolve, obs_revoke_host, obs_revoke_session, obs_seal_and_revoke_all, obs_lock, obs_set;
    unfold_bind; repeat case_match; simplify_eq/=; congruence.
Qed.

Lemma obs_step_poisoned self self' : obs_step self self' → obs_poisoned self' = obs_poisoned self.
Proof.
  intros Hs. destruct Hs as [k self|gen Hinj now b seq snap self|now id b self|k self|k sid self|self].
  2: { destruct (publish gen now b seq snap self) as [[snap'|e] self'] eqn:E; cbn.
       - by apply publish_ok in E as (acc & _ & _ & _ & _ & -> & _).
       - by rewrite (publish_err_state _ _ _ _ _ _ _ _ E). }
  all: unfold begin_request, resolve, obs_revoke_host, obs_revoke_session, obs_seal_and_revoke_all, obs_lock, obs_set;
    unfold_bind; repeat case_match; simplify_eq/=; congruence.
Qed.

Lemma next_sequence_le k s : next_sequence k s ≤ u64_max.
Proof. unfold next_sequence, saturating_add. lia. Qed.

(** Counters are 64-bit: saturation keeps them in range. *)
Lemma obs_step_u64 self self' h : obs_step self self' → newest h self ≤ u64_max → newest h self' ≤ u64_max.
Proof.
  assert (∀ k s, default 0 (newest_request s !! h) ≤ u64_max →
    default 0 (<[k := next_sequence k s]> (newest_request s) !! h) ≤ u64_max) as Hins.
  { intros k s Hle. rewrite lookup_insert. case_decide; [apply next_sequence_le|done]. }
  assert (0 ≤ u64_max) as H0 by done.
  unfold newest. intros Hs Hle.
  destruct Hs as [k self|gen Hinj now b seq snap self|now id b self|k self|k sid self|self].
  2: { destruct (publish gen now b seq snap self) as [[snap'|e] self'] eqn:E; cbn.
       - apply publish_ok in E as (acc & _ & _ & _ & _ & _ & _ & ->). done.
       - by rewrite (publish_err_state _ _ _ _ _ _ _ _ E). }
  all: unfold begin_request, resolve, obs_revoke_host, obs_revoke_session, obs_seal_and_revoke_all, obs_lock, obs_set;
    unfold_bind; repeat case_match; simplify_eq/=; auto.
Qed.

Lemma obs_steps_newest h n self self' :
  rtc obs_step self self' → newest h self ≤ u64_max → n ≤ newest h self →
  obs_sealed (obs_state self') = true ∨ n ≤ newest h self'.
Proof.
  intros Hs. induction Hs as [x|x y z Hxy Hyz IH]; [auto|]. intros Hu Hn.
  pose proof (obs_step_u64 _ _ h Hxy Hu) as Hu'.
  destruct (obs_step_newest _ _ h Hxy) as [Hsl|[[Hle _]|Hgt]]; [|apply IH; lia|lia].
  left. clear -Hsl Hyz. induction Hyz; [done|]. by apply IHHyz, (obs_step_sealed x).
Qed.

(** Revocation outruns a listing in flight: once a host is revoked, a
    listing requested before the revocation is refused, whatever else happens
    in between, and refusing it changes nothing.  (The 64-bit request counter
    must not have saturated.) *)
Theorem revoked_listing_is_refused h self self' gen now b seq snap :
  newest h self < u64_max → seq ≤ newest h self → ab_host_id b = h →
  rtc obs_step (obs_revoke_host h self).2 self' →
  ∃ e, publish gen now b seq snap self' = (Err e, self').
Proof.
  intros Hu Hseq Hb Hs.
  destruct (publish gen now b seq snap self') as [[snap'|e] self''] eqn:E.
  2: { exists e. by rewrite (publish_err_state _ _ _ _ _ _ _ _ E). }
  exfalso. apply publish_ok in E as (acc & _ & _ & Hn & Hsl & _ & Hp & _).
  assert (obs_poisoned (obs_revoke_host h self).2 = false) as Hp'.
  { rewrite <-Hp. clear -Hs. induction Hs as [|x y z Hxy _ IH]; [done|]. rewrite <-IH. symmetry. by apply obs_step_poisoned. }
  assert (newest h (obs_revoke_host h self).2 = newest h self + 1) as Hnew.
  { revert Hp'. unfold obs_revoke_host, obs_lock, obs_set, newest. unfold_bind.
    destruct (obs_poisoned self) eqn:Hps; cbn; [congruence|]. intros _. rewrite lookup_insert_eq. cbn.
    unfold next_sequence, saturating_add, newest in *. lia. }
  destruct (obs_steps_newest h (newest h self + 1) _ _ Hs) as [?|Hle]; [lia|lia|congruence|].
  unfold newest in Hle, Hseq. rewrite <-Hb, Hn in Hle. cbn in Hle. rewrite <-Hb in Hseq. lia.
Qed.

(** ** A concrete store *)

Definition ex_row : ServiceEntry :=
  {| unit_ := lit "nginx.service"; load_state := lit "loaded"; active_state := lit "active";
     sub_state := lit "running"; description := lit "web"; can_start := true; can_reload := true;
     reset_failed_observation_id := None; try_restart_observation_id := None;
     reload_observation_id := None; start_observation_id := None |}.

Definition ex_obs_binding : AuthorityBinding :=
  {| ab_host_id := 1%N; ab_host_session_id := 7%N; ab_generation := 3 |}.

Definition ex_snapshot : ServiceSnapshot :=
  {| snap_host_id := 1%N; snap_host_session_id := 7%N; snap_observed_at := []; snap_entries := [ex_row] |}.

Definition ex_requested : ServiceObservationStore := (begin_request 1%N observation_store_default).2.
Definition ex_obs_published := publish N.of_nat 0 ex_obs_binding 1 ex_snapshot ex_requested.

Definition ex_row' : ServiceEntry :=
  {| unit_ := unit_ ex_row; load_state := load_state ex_row; active_state := active_state ex_row;
     sub_state := sub_state ex_row; description := description ex_row; can_start := true; can_reload := true;
     reset_failed_observation_id := None; try_restart_observation_id := Some 0%N;
     reload_observation_id := Some 1%N; start_observation_id := None |}.

Definition ex_snapshot' : ServiceSnapshot := with_entries [ex_row'] ex_snapshot.

Lemma ex_obs_published_eq : ex_obs_published = (Ok ex_snapshot', ex_obs_published.2).
Proof. vm_compute. reflexivity. Qed.

Lemma observation_store_bounded_witness :
  size (sets (obs_state ex_obs_published.2)) = 1%nat ∧ obs_bounded (obs_state ex_obs_published.2).
Proof.
  split; [vm_compute; reflexivity|].
  apply (observation_store_bounded ex_obs_published.2).
  eapply rtc_l; [apply (os_begin 1%N)|]. apply rtc_once.
  exact (os_publish N.of_nat 0 ex_obs_binding 1 ex_snapshot ex_requested).
Defined.

Lemma published_ids_resolve_witness :
  ∃ u, unit_parse (unit_ ex_row') = Ok u ∧
    (resolve_try_restart (from_secs 100) 0%N ex_obs_binding ex_obs_published.2).1
    = Ok (Build_TryRestartObservation u TryRestartPre).
Proof.
  destruct (published_ids_resolve N.of_nat 0 ex_obs_binding 1 ex_snapshot ex_requested ex_snapshot'
              ex_obs_published.2 (from_secs 100) ex_row' _ ex_obs_published_eq
              ltac:(by apply list_elem_of_singleton) ltac:(by vm_compute)) as (_ & H & _).
  destruct (H 0%N eq_refl) as (u & Hu & _ & Hr & _). exists u. split; [exact Hu|exact Hr].
Defined.

Lemma revoked_listing_is_refused_witness :
  newest 1%N ex_requested = 1 ∧
  ∃ e, publish N.of_nat 0 ex_obs_binding 1 ex_snapshot (obs_revoke_host 1%N ex_requested).2
       = (Err e, (obs_revoke_host 1%N ex_requested).2).
Proof.
  split; [vm_compute; reflexivity|].
  apply (revoked_listing_is_refused 1%N ex_requested (obs_revoke_host 1%N ex_requested).2
           N.of_nat 0 ex_obs_binding 1 ex_snapshot).
  - vm_compute; reflexivity.
  - vm_compute; discriminate.
  - reflexivity.
  - apply rtc_refl.
Defined.
