(* ===== verification/Engine.v ===== *)
(** Read-only operations: the command allowlist and the policy engine
    ([crates/nexus-operations/src/command.rs] and [engine.rs]).

    The remote session is a parameter: what its [execute] answers to a fixed
    command, as seen by the [select!] of the engine. *)

From S2P Require Import Prelude Str Model.

Inductive ReadOnlyCommand :=
| Hostname | OsRelease | Kernel | Architecture | Uptime | LoadAverage | Memory | RootFilesystem
| CpuStat | NetworkDevices | NetworkAddresses | NetworkRoutesV4 | NetworkRoutesV6 | ListeningPorts
| DnsConfiguration | SystemServices | SystemJournal | DockerContainers.

#[export] Instance ReadOnlyCommand_eq_dec : EqDecision ReadOnlyCommand.
Proof. solve_decision. Defined.

(** A literal in which a tilde stands for a double quote. *)
Definition quoted (s : string) : str := map (λ c, if c =? 126 then 34 else c) (lit s).

(** [ReadOnlyCommand::command]: the exact remote shell input. *)
Definition command (c : ReadOnlyCommand) : str :=
  match c with
  | Hostname => lit "uname -n"
  | OsRelease => lit "cat /etc/os-release"
  | Kernel => lit "uname -r"
  | Architecture => lit "uname -m"
  | Uptime => lit "cat /proc/uptime"
  | LoadAverage => lit "cat /proc/loadavg"
  | Memory => lit "cat /proc/meminfo"
  | RootFilesystem => lit "LC_ALL=C df -Pk /"
  | CpuStat => lit "cat /proc/stat"
  | NetworkDevices => lit "cat /proc/net/dev"
  | NetworkAddresses => lit "LC_ALL=C ip -j address show"
  | NetworkRoutesV4 => lit "LC_ALL=C ip -j -4 route show table main"
  | NetworkRoutesV6 => lit "LC_ALL=C ip -j -6 route show table main"
  | ListeningPorts => lit "LC_ALL=C ss -H -lntu"
  | DnsConfiguration => lit "LC_ALL=C cat /etc/resolv.conf"
  | SystemJournal => lit "LC_ALL=C SYSTEMD_COLORS=0 SYSTEMD_URLIFY=0 journalctl --system --no-pager --quiet --boot=0 --reverse --lines=10 --output=json --output-fields=MESSAGE,PRIORITY,_SYSTEMD_UNIT,SYSLOG_IDENTIFIER"
  | DockerContainers => quoted "LC_ALL=C docker --host unix:///var/run/docker.sock container ls --last 64 --no-trunc --format '{~id~:{{json .ID}},~image~:{{json .Image}},~name~:{{json .Names}},~state~:{{json .State}},~status~:{{json .Status}},~ports~:{{json .Ports}},~networks~:{{json .Networks}}}'"
  | SystemServices => lit "LC_ALL=C SYSTEMD_COLORS=0 SYSTEMD_URLIFY=0 systemctl --system --no-pager --all --type=service --property=Id --property=LoadState --property=ActiveState --property=SubState --property=CanStart --property=CanReload --property=Description show"
  end.

Definition kind (c : ReadOnlyCommand) : str :=
  match c with
  | Hostname => lit "discovery.hostname"
  | OsRelease => lit "discovery.os_release"
  | Kernel => lit "discovery.kernel"
  | Architecture => lit "discovery.architecture"
  | Uptime => lit "discovery.uptime"
  | LoadAverage => lit "discovery.load"
  | Memory => lit "discovery.memory"
  | RootFilesystem => lit "discovery.root_filesystem"
  | CpuStat => lit "monitor.cpu"
  | NetworkDevices => lit "monitor.network"
  | NetworkAddresses => lit "network.list"
  | NetworkRoutesV4 => lit "network.routes_v4"
  | NetworkRoutesV6 => lit "network.routes_v6"
  | ListeningPorts => lit "network.listening_ports"
  | DnsConfiguration => lit "network.dns_configuration"
  | SystemServices => lit "services.list"
  | SystemJournal => lit "logs.list"
  | DockerContainers => lit "containers.list"
  end.

(** [ReadOnlyCommand::operation] with the UUID text it draws. *)
Definition operation (uuid : str) (c : ReadOnlyCommand) : Operation :=
  {| op_id := uuid; op_kind := kind c; op_risk := ReadOnly |}.

(** ** The engine *)

(** [operation] is public in the source: a caller may overwrite it; the
    command is private. *)
Record OperationPlan := { plan_operation : Operation; plan_command : ReadOnlyCommand }.

Inductive RollbackStatus := NotRequired.

Record OperationEngine := { timeout : Duration; max_output_bytes : Z }.

Definition engine_default : OperationEngine :=
  {| timeout := from_secs 8; max_output_bytes := 64 * 1024 |}.

Definition engine_plan (uuid : str) (c : ReadOnlyCommand) : OperationPlan :=
  {| plan_operation := operation uuid c; plan_command := c |}.

Definition policy_error : AppError :=
  app_error Policy "Only approved read-only discovery operations are available.".
Definition engine_cancelled : AppError := app_error Cancelled "The operation was cancelled.".
Definition connection_closed : AppError := app_error Connection "The connection is closed.".
Definition timed_out : AppError := app_error Timeout "The discovery operation timed out.".
Definition invalid_output : AppError :=
  app_error Discovery "The remote command returned invalid or oversized discovery data.".

Definition validate (p : OperationPlan) : Res unit :=
  ensure (bool_decide (op_risk (plan_operation p) ≠ ReadOnly)
          || negb (str_eqb (op_kind (plan_operation p)) (kind (plan_command p)))) policy_error.

Definition verify (e : OperationEngine) (p : OperationPlan) (output : str) : Res unit :=
  _ ← validate p;
  ensure ((max_output_bytes e <? len output) || contains_char 0 output) invalid_output.

Definition rollback (p : OperationPlan) : Res RollbackStatus :=
  _ ← validate p; Ok NotRequired.

(** Which branch of [select!] finishes first, and with what. *)
Inductive Race := RaceCancelled | RaceTimeout | RaceAnswer (r : Res str).

(** A [dyn RemoteSession] at the time of the call. *)
Record Session := { is_closed : bool; race : ReadOnlyCommand → Race }.

(** [execute]: the result, and the commands sent to the session. *)
Definition execute (e : OperationEngine) (session : Session) (p : OperationPlan) (cancelled : bool)
    : Res str * list ReadOnlyCommand :=
  match validate p with
  | Err err => (Err err, [])
  | Ok _ =>
      if cancelled then (Err engine_cancelled, [])
      else if is_closed session then (Err connection_closed, [])
      else (match race session (plan_command p) with
            | RaceCancelled => Err engine_cancelled
            | RaceTimeout => Err timed_out
            | RaceAnswer r => output ← r; _ ← verify e p output; Ok output
            end, [plan_command p])
  end.

(** ** Properties *)

Lemma validate_ok p u :
  validate p = Ok u ↔
  op_risk (plan_operation p) = ReadOnly ∧ op_kind (plan_operation p) = kind (plan_command p).
Proof.
  unfold validate. rewrite ensure_ok, orb_false_iff, bool_decide_eq_false, negb_false_iff, str_eqb_eq.
  split; [|naive_solver]. intros [H ?]. split; [|done]. by apply dec_stable.
Qed.

Lemma validate_err p e : validate p = Err e → e = policy_error.
Proof. unfold validate. rewrite ensure_err. naive_solver. Qed.

#[export] Instance kind_inj : Inj (=) (=) kind.
Proof. intros [] []; intros H; try reflexivity; vm_compute in H; discriminate. Qed.

Lemma execute_calls e session p cancelled c :
  c ∈ (execute e session p cancelled).2 →
  c = plan_command p ∧ validate p = Ok tt ∧ cancelled = false ∧ is_closed session = false.
Proof.
  unfold execute. destruct (validate p) as [[]|] eqn:E; cbn; [|by intros ?%elem_of_nil].
  destruct cancelled; cbn; [by intros ?%elem_of_nil|].
  destruct (is_closed session); cbn; [by intros ?%elem_of_nil|].
  by intros ->%list_elem_of_singleton.
Qed.

(** Nothing but a reviewed read-only command reaches a session: if
    [execute] sends a command, the plan's metadata still says read-only and
    names exactly that command, the call is not cancelled and the session is
    open; and a plan whose kind was overwritten with another command's kind is
    refused before any remote call. *)
Theorem engine_executes_only_reviewed e session p cancelled c :
  c ∈ (execute e session p cancelled).2 →
  op_risk (plan_operation p) = ReadOnly ∧
  (∀ c', op_kind (plan_operation p) = kind c' → c' = c) ∧
  op_kind (plan_operation p) = kind c ∧ cancelled = false ∧ is_closed session = false.
Proof.
  intros (-> & [Hr Hk]%validate_ok & Hc & Ho)%execute_calls.
  repeat split; auto. intros c' Hc'. apply (inj kind). congruence.
Qed.

(** What [execute] returns is bounded: a successful output is what the
    session answered to the plan's command, within the output limit and
    without NUL. *)
Theorem engine_output_bounded e session p cancelled out :
  (execute e session p cancelled).1 = Ok out →
  race session (plan_command p) = RaceAnswer (Ok out) ∧
  len out ≤ max_output_bytes e ∧ 0 ∉ out.
Proof.
  unfold execute. destruct (validate p) as [[]|] eqn:E; cbn; [|done].
  destruct cancelled, (is_closed session); cbn; try done.
  destruct (race session (plan_command p)) as [| |r]; cbn; try done.
  rewrite bind_ok. intros (o & -> & H). apply bind_ok in H as (u & Hv & [= ->]).
  split; [done|]. unfold verify in Hv. rewrite E in Hv. cbn in Hv.
  rewrite ensure_ok in Hv. split_bools. split; [done|]. by apply contains_char_false.
Qed.

(** Every way [execute] can end, by the state of the plan, the token and
    the session. *)
Theorem engine_execute_cases e session p cancelled :
  execute e session p cancelled =
  if negb (bool_decide (op_risk (plan_operation p) = ReadOnly ∧
                        op_kind (plan_operation p) = kind (plan_command p)))
  then (Err policy_error, [])
  else if cancelled then (Err engine_cancelled, [])
  else if is_closed session then (Err connection_closed, [])
  else (match race session (plan_command p) with
        | RaceCancelled => Err engine_cancelled
        | RaceTimeout => Err timed_out
        | RaceAnswer (Err err) => Err err
        | RaceAnswer (Ok out) =>
            if (len out <=? max_output_bytes e) && negb (contains_char 0 out)
            then Ok out else Err invalid_output
        end, [plan_command p]).
Proof.
  unfold execute. destruct (validate p) as [[]|err] eqn:E.
  - pose proof (proj1 (validate_ok p tt) E). rewrite bool_decide_true by done. cbn.
    destruct cancelled, (is_closed session); try done. f_equal.
    destruct (race session (plan_command p)) as [| |[out|err]]; try done.
    cbn. unfold verify. rewrite E. cbn. unfold ensure. rewrite Z.leb_antisym.
    by destruct (max_output_bytes e <? len out), (contains_char 0 out).
  - rewrite bool_decide_false; [cbn; by rewrite (validate_err _ _ E)|].
    intros H. apply (validate_ok p tt) in H. congruence.
Qed.

Lemma engine_plan_valid uuid c : validate (engine_plan uuid c) = Ok tt.
Proof. by apply validate_ok. Qed.

Definition ex_session : Session :=
  {| is_closed := false; race := λ _, RaceAnswer (Ok (lit "web-1")) |}.

Lemma engine_executes_only_reviewed_witness :
  op_kind (plan_operation (engine_plan [] Hostname)) = kind Hostname ∧
  (op_risk (plan_operation (engine_plan [] Hostname)) = ReadOnly).
Proof.
  destruct (engine_executes_only_reviewed engine_default ex_session (engine_plan [] Hostname) false Hostname)
    as (H1 & _ & H2 & _).
  - apply list_elem_of_In. vm_compute. auto.
  - split; [exact H2|exact H1].
Defined.

Lemma engine_output_bounded_witness :
  (execute engine_default ex_session (engine_plan [] Hostname) false).1 = Ok (lit "web-1") ∧
  len (lit "web-1") ≤ max_output_bytes engine_default.
Proof.
  split; [vm_compute; reflexivity|].
  apply (engine_output_bounded engine_default ex_session (engine_plan [] Hostname) false (lit "web-1")).
  vm_compute; reflexivity.
Defined.
