(* ===== verification/ServicesParser.v ===== *)
(** The systemd service inventory parser
    ([crates/nexus-discovery/src/services.rs]).

    The input is remote-controlled text, already capped at 64 KiB by the
    engine; the parser either rejects it as a whole or yields display-safe,
    duplicate-free rows. *)

From S2P Require Import Prelude Str Model Engine.

Definition MAX_SERVICES : Z := 512.
Definition MAX_UNIT : Z := 255.
Definition MAX_STATE_BYTES : Z := 32.
Definition MAX_DESCRIPTION_BYTES : Z := 512.

Definition services_invalid : AppError :=
  app_error Discovery "The host returned an invalid service inventory.".

(** Bidirectional controls and zero-width characters, common to the display
    filters of the discovery crate. *)
Definition bidi_or_zero_width (c : char) : bool :=
  (c =? 0x061C) || (c =? 0x200E) || (c =? 0x200F) || between 0x202A 0x202E c || between 0x2066 0x2069 c
  || between 0x200B 0x200D c || (c =? 0x2060) || (c =? 0xFEFF).

Definition unsafe_display (c : char) : bool :=
  is_control c || (is_whitespace c && negb (c =? ch " ")) || bidi_or_zero_width c.

Definition token (value : str) (max_bytes : Z) : Res unit :=
  ensure (is_empty value || (max_bytes <? len value)
          || existsb (λ c, is_whitespace c || unsafe_display c) value) services_invalid.

Record ServiceProperties := {
  p_id : option str;
  p_load_state : option str;
  p_active_state : option str;
  p_sub_state : option str;
  p_description : option str;
  p_can_start : option str;
  p_can_reload : option str
}.

Definition properties_default : ServiceProperties := Build_ServiceProperties None None None None None None None.

Definition properties_is_empty (p : ServiceProperties) : bool :=
  match p with
  | Build_ServiceProperties None None None None None None None => true
  | _ => false
  end.

Definition is_none {A} (o : option A) : bool := match o with None => true | Some _ => false end.

(** [insert]: unknown and repeated keys are rejected. *)
Definition properties_insert (key value : str) (p : ServiceProperties) : Res ServiceProperties :=
  let '(Build_ServiceProperties i l a s d cs cr) := p in
  if str_eqb key (lit "Id") then
    _ ← ensure (negb (is_none i)) services_invalid; Ok (Build_ServiceProperties (Some value) l a s d cs cr)
  else if str_eqb key (lit "LoadState") then
    _ ← ensure (negb (is_none l)) services_invalid; Ok (Build_ServiceProperties i (Some value) a s d cs cr)
  else if str_eqb key (lit "ActiveState") then
    _ ← ensure (negb (is_none a)) services_invalid; Ok (Build_ServiceProperties i l (Some value) s d cs cr)
  else if str_eqb key (lit "SubState") then
    _ ← ensure (negb (is_none s)) services_invalid; Ok (Build_ServiceProperties i l a (Some value) d cs cr)
  else if str_eqb key (lit "Description") then
    _ ← ensure (negb (is_none d)) services_invalid; Ok (Build_ServiceProperties i l a s (Some value) cs cr)
  else if str_eqb key (lit "CanStart") then
    _ ← ensure (negb (is_none cs)) services_invalid; Ok (Build_ServiceProperties i l a s d (Some value) cr)
  else if str_eqb key (lit "CanReload") then
    _ ← ensure (negb (is_none cr)) services_invalid; Ok (Build_ServiceProperties i l a s d cs (Some value))
  else Err services_invalid.

Definition yes_no (value : str) : Res bool :=
  if str_eqb value (lit "yes") then Ok true
  else if str_eqb value (lit "no") then Ok false
  else Err services_invalid.

(** [finish], with the set of unit names seen so far. *)
Definition properties_finish (p : ServiceProperties) (units : gset str) : Res (ServiceEntry * gset str) :=
  id ← ok_or (p_id p) services_invalid;
  load ← ok_or (p_load_state p) services_invalid;
  active ← ok_or (p_active_state p) services_invalid;
  sub ← ok_or (p_sub_state p) services_invalid;
  desc ← ok_or (p_description p) services_invalid;
  cs ← ok_or (p_can_start p) services_invalid; can_start ← yes_no cs;
  cr ← ok_or (p_can_reload p) services_invalid; can_reload ← yes_no cr;
  _ ← token id MAX_UNIT;
  _ ← ensure (negb (ends_with (lit ".service") id)) services_invalid;
  _ ← token load MAX_STATE_BYTES;
  _ ← token active MAX_STATE_BYTES;
  _ ← token sub MAX_STATE_BYTES;
  _ ← ensure ((MAX_DESCRIPTION_BYTES <? len desc) || existsb unsafe_display desc
              || bool_decide (id ∈ units)) services_invalid;
  Ok ({| unit_ := id; load_state := load; active_state := active; sub_state := sub;
         description := desc; can_start := can_start; can_reload := can_reload;
         reset_failed_observation_id := None; try_restart_observation_id := None;
         reload_observation_id := None; start_observation_id := None |}, {[id]} ∪ units).

Record ParseState := {
  ps_entries : list ServiceEntry;
  ps_units : gset str;
  ps_properties : ServiceProperties
}.

(** [entries.push(properties.finish(&mut units)?)] with its bound check. *)
Definition push_finished (s : ParseState) : Res ParseState :=
  _ ← ensure (zlen (ps_entries s) =? MAX_SERVICES) services_invalid;
  r ← properties_finish (ps_properties s) (ps_units s);
  Ok {| ps_entries := ps_entries s ++ [r.1]; ps_units := r.2; ps_properties := properties_default |}.

Definition parse_line (s : ParseState) (line : str) : Res ParseState :=
  if is_empty line then
    _ ← ensure (properties_is_empty (ps_properties s)) services_invalid;
    push_finished s
  else
    kv ← ok_or (split_once (ch "=") line) services_invalid;
    p ← properties_insert kv.1 kv.2 (ps_properties s);
    Ok {| ps_entries := ps_entries s; ps_units := ps_units s; ps_properties := p |}.

Definition parse_services (output : str) : Res (list ServiceEntry) :=
  s ← try_fold parse_line {| ps_entries := []; ps_units := ∅; ps_properties := properties_default |}
        (split_terminator 10 output);
  s ← if properties_is_empty (ps_properties s) then Ok s else push_finished s;
  Ok (ps_entries s).

(** [observe_services]: one engine call, then the parser. *)
Definition observe_services (session : Session) (cancelled : bool) (uuid observed_at : str)
    (host_id : HostId) (host_session_id : HostSessionId) : Res ServiceSnapshot :=
  output ← (execute engine_default session (engine_plan uuid SystemServices) cancelled).1;
  entries ← parse_services output;
  Ok {| snap_host_id := host_id; snap_host_session_id := host_session_id;
        snap_observed_at := observed_at; snap_entries := entries |}.

(** ** What an accepted row looks like *)

Definition safe_token (max : Z) (v : str) : Prop :=
  v ≠ [] ∧ len v ≤ max ∧ ∀ c, c ∈ v → is_whitespace c = false ∧ unsafe_display c = false.

Record safe_row (e : ServiceEntry) : Prop := {
  sr_token : safe_token 255 (unit_ e);
  sr_suffix : ends_with (lit ".service") (unit_ e) = true;
  sr_load : safe_token 32 (load_state e);
  sr_active : safe_token 32 (active_state e);
  sr_sub : safe_token 32 (sub_state e);
  sr_desc : len (description e) ≤ 512 ∧ ∀ c, c ∈ description e → unsafe_display c = false;
  sr_noids : reset_failed_observation_id e = None ∧ try_restart_observation_id e = None ∧
             reload_observation_id e = None ∧ start_observation_id e = None
}.

Lemma token_ok v max u : token v max = Ok u ↔ safe_token max v.
Proof.
  unfold token, safe_token. rewrite ensure_ok, !orb_false_iff, is_empty_false, Z.ltb_ge, existsb_false.
  split; [intros [[Hne Hl] Hc]|intros (Hne & Hl & Hc)]; split_and!; auto;
    intros c Hin; apply orb_false_iff; by apply Hc.
Qed.

Lemma yes_no_ok v b : yes_no v = Ok b ↔ v = if b then lit "yes" else lit "no".
Proof.
  unfold yes_no, str_eqb. destruct b; repeat case_bool_decide; subst; split; intros; try done; try congruence.
Qed.

(** [finish] accepts exactly the safe rows with a new unit name. *)
Lemma finish_ok p units e units' :
  properties_finish p units = Ok (e, units') ↔
  p = {| p_id := Some (unit_ e); p_load_state := Some (load_state e);
         p_active_state := Some (active_state e); p_sub_state := Some (sub_state e);
         p_description := Some (description e);
         p_can_start := Some (if can_start e then lit "yes" else lit "no");
         p_can_reload := Some (if can_reload e then lit "yes" else lit "no") |} ∧
  safe_row e ∧ (unit_ e ∉ units) ∧ units' = {[unit_ e]} ∪ units.
Proof.
  unfold properties_finish. split.
  - repeat setoid_rewrite bind_ok. setoid_rewrite ok_or_ok. setoid_rewrite yes_no_ok.
    setoid_rewrite token_ok. setoid_rewrite ensure_ok.
    intros (id & H1 & load & H2 & act & H3 & sub & H4 & desc & H5 & cs & H6 & b1 & Hb1 & cr & H7 & b2 & Hb2 &
            _ & T1 & _ & Hsuf & _ & T2 & _ & T3 & _ & T4 & _ & Hd & [= <- <-]).
    destruct p. cbn in *. subst. split_bools. rewrite existsb_false in *.
    split; [done|]. split; [split; cbn; auto|]. auto.
  - intros (-> & [T1 S1 T2 T3 T4 [D1 D2] (I1 & I2 & I3 & I4)] & Hu & ->).
    do 5 (apply bind_ok; eexists; split; [reflexivity|]).
    do 2 (apply bind_ok; eexists; split; [reflexivity|];
          apply bind_ok; eexists; split; [by apply yes_no_ok|]).
    apply bind_ok; exists tt; split; [by apply token_ok|].
    rewrite S1. apply bind_ok; exists tt; split; [done|].
    do 3 (apply bind_ok; exists tt; split; [by apply token_ok|]).
    apply bind_ok; exists tt; split.
    + apply ensure_ok. rewrite !orb_false_iff, existsb_false, bool_decide_eq_false, Z.ltb_ge. done.
    + destruct e. cbn in *. by subst.
Qed.

(** ** Soundness *)

Record parse_inv (s : ParseState) : Prop := {
  pi_len : zlen (ps_entries s) ≤ MAX_SERVICES;
  pi_rows : Forall safe_row (ps_entries s);
  pi_nodup : NoDup (map unit_ (ps_entries s));
  pi_units u : u ∈ map unit_ (ps_entries s) → u ∈ ps_units s
}.

Lemma push_finished_inv s s' : parse_inv s → push_finished s = Ok s' → parse_inv s'.
Proof.
  intros [] H. unfold push_finished in H. rewrite bind_ok in H. destruct H as (u & Hlen%ensure_ok & H).
  rewrite bind_ok in H. destruct H as ([e units'] & (_ & Hsafe & Hnew & ->)%finish_ok & [= <-]).
  split_bools. split; cbn.
  - rewrite length_app. cbn. lia.
  - apply Forall_app. auto.
  - rewrite map_app. apply list.NoDup_app. split; [done|]. split; [|apply NoDup_singleton].
    intros x Hx%pi_units0 ->%list_elem_of_singleton. done.
  - intros x. rewrite map_app, elem_of_app. cbn. set_solver.
Qed.

Lemma parse_line_inv s l s' : parse_inv s → parse_line s l = Ok s' → parse_inv s'.
Proof.
  intros Hi. unfold parse_line. destruct (is_empty l).
  - rewrite bind_ok. intros (_ & _ & Hp). by eapply push_finished_inv.
  - rewrite bind_ok. intros (kv & _ & Hp). rewrite bind_ok in Hp. destruct Hp as (p & _ & [= <-]).
    by destruct Hi.
Qed.

(** Remote text that is accepted as a service inventory yields at most
    512 rows with pairwise distinct unit names; every name is 1 to 255 bytes
    and ends in ".service", every state is 1 to 32 bytes, no name or state
    contains whitespace, and no field contains control, bidirectional or
    zero-width characters; no row carries an observation id yet. *)
Theorem parse_services_sound output entries :
  parse_services output = Ok entries →
  zlen entries ≤ 512 ∧ NoDup (map unit_ entries) ∧ Forall safe_row entries.
Proof.
  unfold parse_services. rewrite bind_ok. intros (s & Hf & H). rewrite bind_ok in H.
  destruct H as (s' & Hs' & [= <-]).
  assert (parse_inv s) as Hi.
  { refine (try_fold_ind (λ _ s, parse_inv s) _ _ _ _ _ _ Hf).
    - split; cbn; [done|constructor|constructor|set_solver].
    - intros l1 a b1 b2 Hb Hstep. by eapply parse_line_inv. }
  assert (parse_inv s') as [] by (revert Hs'; case_match; [by intros [= <-]|by apply push_finished_inv]).
  auto.
Qed.

(** ** Round trip *)

(** The lines [systemctl show] prints for one unit. *)
Definition property (key : string) (value : str) : str := lit key ++ ch "=" :: value.

Definition render_lines (e : ServiceEntry) : list str :=
  [property "Id" (unit_ e); property "LoadState" (load_state e);
   property "ActiveState" (active_state e); property "SubState" (sub_state e);
   property "CanStart" (if can_start e then lit "yes" else lit "no");
   property "CanReload" (if can_reload e then lit "yes" else lit "no");
   property "Description" (description e)].

Definition unlines (ls : list str) : str := concat (map (λ l, l ++ [10]) ls).

(** The output for several units: a blank line between two of them, and none
    after the last. *)
Fixpoint separated (es : list ServiceEntry) : list str :=
  match es with
  | [] => []
  | [e] => render_lines e
  | e :: es => render_lines e ++ [] :: separated es
  end.

Definition render (es : list ServiceEntry) : str := unlines (separated es).

Lemma split_on_app c l r : c ∉ l → split c (l ++ c :: r) = l :: split c r.
Proof.
  unfold split. induction l as [|x l IH]; cbn; intros Hc; [by rewrite Z.eqb_refl|].
  rewrite (proj2 (Z.eqb_neq c x)) by set_solver. rewrite IH by set_solver. done.
Qed.

Lemma split_unlines ls : Forall (λ l, 10 ∉ l) ls → split 10 (unlines ls) = ls ++ [[]].
Proof.
  unfold unlines. induction 1 as [|l ls Hl _ IH]; cbn; [done|].
  rewrite <-app_assoc. cbn [app]. rewrite split_on_app by done. by rewrite IH.
Qed.

Lemma drop_last_empty_snoc ls : drop_last_empty (ls ++ [[]]) = ls.
Proof. induction ls as [|l [|l' ls] IH]; cbn in *; [done|done|by rewrite IH]. Qed.

Lemma split_terminator_unlines ls : Forall (λ l, 10 ∉ l) ls → split_terminator 10 (unlines ls) = ls.
Proof. intros H. unfold split_terminator. by rewrite split_unlines, drop_last_empty_snoc. Qed.

Lemma safe_no_newline (v : str) : (∀ c, c ∈ v → unsafe_display c = false) → 10 ∉ v.
Proof. intros H Hin. specialize (H 10 Hin). by vm_compute in H. Qed.

Lemma property_clean k v :
  contains_char 10 (lit k) = false → 10 ∉ v → 10 ∉ property k v.
Proof. intros Hk%contains_char_false Hv. unfold property. assert (10 ≠ ch "=") by done. set_solver. Qed.

Lemma render_lines_clean e : safe_row e → Forall (λ l, 10 ∉ l) (render_lines e).
Proof.
  intros [(_ & _ & T1) _ (_ & _ & T2) (_ & _ & T3) (_ & _ & T4) [_ T5] _].
  assert (∀ b : bool, 10 ∉ if b then lit "yes" else lit "no") as Hb.
  { intros []; by apply contains_char_false. }
  unfold render_lines. rewrite !list.Forall_cons.
  split_and!; try (apply property_clean; [reflexivity|]); auto;
    try (apply safe_no_newline; intros c Hc; first [by apply T1|by apply T2|by apply T3|by apply T4|by apply T5]).
Qed.

Lemma separated_clean es : Forall safe_row es → Forall (λ l, 10 ∉ l) (separated es).
Proof.
  induction 1 as [|e es He Hes IH]; [constructor|]. apply render_lines_clean in He. destruct es as [|e' es]; [done|].
  apply Forall_app. split; [done|]. constructor; [by apply not_elem_of_nil|done].
Qed.

Lemma parse_property s k v p :
  (exists c k', lit k = c :: k') → contains_char (ch "=") (lit k) = false →
  properties_insert (lit k) v (ps_properties s) = Ok p →
  parse_line s (property k v) =
  Ok {| ps_entries := ps_entries s; ps_units := ps_units s; ps_properties := p |}.
Proof.
  intros (c & k' & Hk) Hc%contains_char_false Hp. unfold parse_line.
  rewrite (proj2 (is_empty_false (property k v))) by (unfold property; by rewrite Hk).
  unfold property. rewrite (proj2 (split_once_some _ _ (lit k) v)) by done. cbn. by rewrite Hp.
Qed.

(** The seven lines of a row read, and the row not pushed yet. *)
Definition pending (es : list ServiceEntry) (units : gset str) (e : ServiceEntry) : ParseState :=
  {| ps_entries := es; ps_units := units;
     ps_properties := {| p_id := Some (unit_ e); p_load_state := Some (load_state e); p_active_state := Some (active_state e);
       p_sub_state := Some (sub_state e); p_description := Some (description e);
       p_can_start := Some (if can_start e then lit "yes" else lit "no");
       p_can_reload := Some (if can_reload e then lit "yes" else lit "no") |} |}.

Lemma parse_render_lines es units e :
  try_fold parse_line {| ps_entries := es; ps_units := units; ps_properties := properties_default |} (render_lines e) = Ok (pending es units e).
Proof.
  unfold render_lines. cbn [try_fold].
  do 7 (erewrite parse_property by (first [reflexivity|eexists _, _; reflexivity]);
        cbn [mbind result_bind ps_entries ps_units ps_properties]).
  done.
Qed.

(** The push, at a blank line and at the end of the input, appends the row. *)
Lemma push_pending es units e :
  zlen es < MAX_SERVICES → safe_row e → unit_ e ∉ units →
  push_finished (pending es units e) = Ok {| ps_entries := es ++ [e]; ps_units := {[unit_ e]} ∪ units; ps_properties := properties_default |}.
Proof.
  intros Hlen Hsafe Hnew. unfold push_finished. cbn [pending ps_entries ps_units ps_properties].
  rewrite (proj2 (Z.eqb_neq _ _)) by lia. cbn [ensure mbind result_bind].
  rewrite (proj2 (finish_ok _ units e ({[unit_ e]} ∪ units))) by done. done.
Qed.

(** A blank line after some properties is a push. *)
Lemma parse_blank s : properties_is_empty (ps_properties s) = false → parse_line s [] = push_finished s.
Proof. intros H. unfold parse_line. cbn [is_empty]. by rewrite H. Qed.

(** The lines of a list of rows: all but the last are pushed, the last one
    waits for a blank line or for the end of the input. *)
Lemma parse_separated es0 units e es :
  zlen (es0 ++ e :: es) ≤ MAX_SERVICES → Forall safe_row (e :: es) → NoDup (map unit_ (e :: es)) →
  (∀ x, x ∈ e :: es → unit_ x ∉ units) →
  ∃ s' units', try_fold parse_line {| ps_entries := es0; ps_units := units; ps_properties := properties_default |} (separated (e :: es)) = Ok s' ∧
    properties_is_empty (ps_properties s') = false ∧
    push_finished s' = Ok {| ps_entries := es0 ++ e :: es; ps_units := units'; ps_properties := properties_default |}.
Proof.
  revert es0 units e. induction es as [|e' es IH]; intros es0 units e Hlen Hrows Hnd Hnew;
    rewrite length_app in Hlen; cbn in Hlen; inversion Hrows as [|? ? He Hes]; subst.
  - exists (pending es0 units e), ({[unit_ e]} ∪ units). split; [apply parse_render_lines|]. split; [done|].
    apply push_pending; [lia|done|apply Hnew; set_solver].
  - change (NoDup (unit_ e :: map unit_ (e' :: es))) in Hnd. apply list.NoDup_cons in Hnd as [Hin Hnd].
    destruct (IH (es0 ++ [e]) ({[unit_ e]} ∪ units) e') as (s' & units' & H1 & H2 & H3); [|done|done| |].
    + rewrite !length_app. cbn. lia.
    + intros x Hx. apply not_elem_of_union. split; [|by apply Hnew, list_elem_of_further].
      intros Heq%elem_of_singleton. apply Hin. rewrite <-Heq. apply list_elem_of_fmap. eauto.
    + exists s', units'. change (separated (e :: e' :: es)) with (render_lines e ++ [] :: separated (e' :: es)).
      rewrite try_fold_app, parse_render_lines. cbn [mbind result_bind try_fold]. rewrite parse_blank by done.
      rewrite (push_pending es0 units e); [|lia|done|apply Hnew; set_solver].
      rewrite <-app_assoc in H3. done.
Qed.

(** [C40] Round trip: any list of at most 512 display-safe rows with distinct
    unit names, printed the way [systemctl show] prints the seven selected
    properties, a blank line between two units, is parsed back to exactly those
    rows, the last one included; so it is when a blank line follows the last
    unit too. *)
Theorem parse_services_roundtrip es :
  zlen es ≤ 512 → Forall safe_row es → NoDup (map unit_ es) →
  parse_services (render es) = Ok es ∧ (es ≠ [] → parse_services (render es ++ [10]) = Ok es).
Proof.
  intros Hlen Hrows Hnd. pose proof (separated_clean es Hrows) as Hc. destruct es as [|e es]; [done|].
  destruct (parse_separated [] ∅ e es) as (s' & units' & H1 & H2 & H3); [done|done|done|set_solver|].
  assert (render (e :: es) ++ [10] = unlines (separated (e :: es) ++ [[]])) as Hb.
  { unfold render, unlines. by rewrite map_app, concat_app. }
  split; [|intros _]; unfold parse_services.
  - unfold render. rewrite split_terminator_unlines by done. rewrite H1. cbn [mbind result_bind]. by rewrite H2, H3.
  - rewrite Hb, split_terminator_unlines by (apply Forall_app; split; [done|]; constructor; [by apply not_elem_of_nil|constructor]).
    rewrite try_fold_app, H1. cbn [mbind result_bind try_fold]. rewrite parse_blank by done. by rewrite H3.
Qed.

Definition ex_service : ServiceEntry :=
  {| unit_ := lit "ssh.service"; load_state := lit "loaded"; active_state := lit "active";
     sub_state := lit "running"; description := lit "OpenBSD = Secure Shell"; can_start := true;
     can_reload := false; reset_failed_observation_id := None; try_restart_observation_id := None;
     reload_observation_id := None; start_observation_id := None |}.

Lemma ex_service_safe : safe_row ex_service.
Proof.
  assert (∀ max v, token v max = Ok tt → safe_token max v) as Ht by (intros; by apply (token_ok v max tt)).
  split; [apply Ht|..]; try reflexivity; try (apply Ht; reflexivity); [|done].
  split; [by vm_compute|]. apply existsb_false. reflexivity.
Qed.

Definition ex_timer : ServiceEntry :=
  {| unit_ := lit "cron.service"; load_state := lit "loaded"; active_state := lit "inactive";
     sub_state := lit "dead"; description := []; can_start := true;
     can_reload := true; reset_failed_observation_id := None; try_restart_observation_id := None;
     reload_observation_id := None; start_observation_id := None |}.

Lemma ex_timer_safe : safe_row ex_timer.
Proof.
  assert (∀ max v, token v max = Ok tt → safe_token max v) as Ht by (intros; by apply (token_ok v max tt)).
  split; [apply Ht|..]; try reflexivity; try (apply Ht; reflexivity); [|done].
  split; [by vm_compute|]. apply existsb_false. reflexivity.
Qed.

Lemma parse_services_roundtrip_witness : parse_services (render [ex_service; ex_timer]) = Ok [ex_service; ex_timer].
Proof.
  destruct (parse_services_roundtrip [ex_service; ex_timer]) as [H _]; [| | |exact H].
  - vm_compute; discriminate.
  - constructor; [apply ex_service_safe|]. constructor; [apply ex_timer_safe|constructor].
  - change (NoDup [lit "ssh.service"; lit "cron.service"]). apply list.NoDup_cons. split; [|apply NoDup_singleton].
    rewrite list_elem_of_singleton. discriminate.
Defined.

Lemma parse_services_sound_witness :
  parse_services (render [ex_service]) = Ok [ex_service] ∧ zlen [ex_service] ≤ 512.
Proof.
  split; [vm_compute; reflexivity|].
  apply (parse_services_sound (render [ex_service]) [ex_service]). vm_compute; reflexivity.
Defined.
