(* ===== verification/Ip.v ===== *)
(** [std::net::IpAddr]: text parsing and canonical display.

    The discovery parsers and host validation accept addresses through
    [str::parse::<IpAddr>()] and publish [to_string()].  This file models both
    from the standard library. *)

From S2P Require Import Prelude Str.

Inductive IpAddr :=
| V4 (a b c d : Z)
| V6 (segments : list Z).

#[export] Instance IpAddr_eq_dec : EqDecision IpAddr.
Proof. solve_decision. Defined.

(** [char::to_digit(radix)] for radix 10 and 16. *)
Definition to_digit (radix c : Z) : option Z :=
  let d := if is_ascii_digit c then Some (c - 0x30)
           else if between 0x61 0x66 c then Some (c - 0x61 + 10)
           else if between 0x41 0x46 c then Some (c - 0x41 + 10)
           else None in
  match d with Some v => if v <? radix then Some v else None | None => None end.

(** The longest run of digits: value, count and rest. *)
Fixpoint read_digits (radix acc : Z) (count : nat) (s : str) : Z * nat * str :=
  match s with
  | c :: s' => match to_digit radix c with
               | Some d => read_digits radix (acc * radix + d) (S count) s'
               | None => (acc, count, s)
               end
  | [] => (acc, count, s)
  end.

Definition read_number (radix : Z) (max_digits : nat) (allow_zero_prefix : bool) (max : Z) (s : str)
    : option (Z * str) :=
  let '(v, count, rest) := read_digits radix 0 0 s in
  let leading_zero := match s with 48 :: _ => true | _ => false end in
  if (max_digits <? count)%nat then None
  else if (count =? 0)%nat then None
  else if negb allow_zero_prefix && leading_zero && (1 <? count)%nat then None
  else if v <=? max then Some (v, rest) else None.

Definition read_char (c : char) (s : str) : option str :=
  match s with x :: s' => if x =? c then Some s' else None | [] => None end.

(** [read_separator(sep, index, inner)] *)
Definition read_separated {A} (sep : char) (first : bool) (inner : str → option (A * str)) (s : str)
    : option (A * str) :=
  if first then inner s else s' ← read_char sep s; inner s'.

Definition read_octet : str → option (Z * str) := read_number 10 3 false 255.
Definition read_group : str → option (Z * str) := read_number 16 4 true 65535.

Definition read_ipv4 (s : str) : option ((Z * Z * Z * Z) * str) :=
  '(a, s) ← read_octet s;
  '(b, s) ← read_separated (ch ".") false read_octet s;
  '(c, s) ← read_separated (ch ".") false read_octet s;
  '(d, s) ← read_separated (ch ".") false read_octet s;
  Some ((a, b, c, d), s).

(** At most [limit] groups; an embedded IPv4 address ends the sequence. *)
Fixpoint read_groups (limit : nat) (first : bool) (s : str) : list Z * bool * str :=
  match limit with
  | O => ([], false, s)
  | S r =>
      let v4 := match r with
                | O => None
                | S _ => read_separated (ch ":") first read_ipv4 s
                end in
      match v4 with
      | Some ((a, b, c, d), s') => ([a * 256 + b; c * 256 + d], true, s')
      | None =>
          match read_separated (ch ":") first read_group s with
          | Some (g, s') => let '(gs, v4, s'') := read_groups r false s' in (g :: gs, v4, s'')
          | None => ([], false, s)
          end
      end
  end.

Definition read_ipv6 (s : str) : option (list Z * str) :=
  let '(head, head_v4, s1) := read_groups 8 true s in
  if (length head =? 8)%nat then Some (head, s1)
  else if head_v4 then None
  else
    s2 ← read_char (ch ":") s1;
    s3 ← read_char (ch ":") s2;
    let '(tail, _, s4) := read_groups (8 - (length head + 1)) true s3 in
    Some (head ++ replicate (8 - length head - length tail) 0 ++ tail, s4).

(** [s.parse::<IpAddr>()] *)
Definition parse_ip (s : str) : option IpAddr :=
  match read_ipv4 s with
  | Some ((a, b, c, d), rest) => if is_empty rest then Some (V4 a b c d) else None
  | None =>
      match read_ipv6 s with
      | Some (segs, rest) => if is_empty rest then Some (V6 segs) else None
      | None => None
      end
  end.

(** ** Display *)

Definition digit_char (d : Z) : char := if d <? 10 then 0x30 + d else 0x61 + (d - 10).

Fixpoint show_radix (fuel : nat) (radix n : Z) (acc : str) : str :=
  match fuel with
  | O => acc
  | S fuel =>
      let acc := digit_char (n mod radix) :: acc in
      if n / radix =? 0 then acc else show_radix fuel radix (n / radix) acc
  end.

(** [u64] needs at most 20 decimal digits. *)
Definition show_dec (n : Z) : str := show_radix 20 10 n [].
Definition show_hex (n : Z) : str := show_radix 16 16 n [].

Definition show_v4 (a b c d : Z) : str :=
  show_dec a ++ ch "." :: show_dec b ++ ch "." :: show_dec c ++ ch "." :: show_dec d.

Definition show_groups (gs : list Z) : str := join (ch ":") (map show_hex gs).

(** The longest run of zero segments, the first one on ties. *)
Fixpoint longest_zeros (i cur_start cur_len best_start best_len : nat) (l : list Z) : nat * nat :=
  match l with
  | [] => (best_start, best_len)
  | g :: l =>
      if g =? 0 then
        let cur_start := if (cur_len =? 0)%nat then i else cur_start in
        let cur_len := S cur_len in
        if (best_len <? cur_len)%nat
        then longest_zeros (S i) cur_start cur_len cur_start cur_len l
        else longest_zeros (S i) cur_start cur_len best_start best_len l
      else longest_zeros (S i) 0 0 best_start best_len l
  end.

Definition show_v6 (segs : list Z) : str :=
  match segs with
  | [0; 0; 0; 0; 0; 0xffff; g; h] =>
      lit "::ffff:" ++ show_v4 (g / 256) (g mod 256) (h / 256) (h mod 256)
  | _ =>
      let '(start, n) := longest_zeros 0 0 0 0 0 segs in
      if (1 <? n)%nat
      then show_groups (take start segs) ++ lit "::" ++ show_groups (drop (start + n) segs)
      else show_groups segs
  end.

(** [addr.to_string()] *)
Definition show_ip (a : IpAddr) : str :=
  match a with V4 a b c d => show_v4 a b c d | V6 segs => show_v6 segs end.

(** ** Parsed addresses are in range *)

Definition ip_ok (a : IpAddr) : Prop :=
  match a with
  | V4 a b c d => Forall (λ x, 0 ≤ x ≤ 255) [a; b; c; d]
  | V6 segs => length segs = 8%nat ∧ Forall (λ x, 0 ≤ x ≤ 65535) segs
  end.

Lemma to_digit_bounds r c d : 0 < r → to_digit r c = Some d → 0 ≤ d < r.
Proof.
  unfold to_digit, is_ascii_digit, between. intros Hr.
  repeat case_match; intros; simplify_eq; split_bools; lia.
Qed.

Lemma read_digits_nonneg r acc n s v k rest :
  0 < r → 0 ≤ acc → read_digits r acc n s = (v, k, rest) → 0 ≤ v.
Proof.
  intros Hr. revert acc n. induction s as [|c s IH]; cbn; intros acc n Ha; [naive_solver|].
  destruct (to_digit r c) as [d|] eqn:E; [|naive_solver].
  apply to_digit_bounds in E; [|done]. apply IH. nia.
Qed.

Lemma read_number_bounds r m z mx s v rest :
  0 < r → read_number r m z mx s = Some (v, rest) → 0 ≤ v ≤ mx.
Proof.
  intros Hr. unfold read_number. destruct (read_digits r 0 0 s) as [[v' k] rest'] eqn:E.
  apply read_digits_nonneg in E; [|done|done].
  repeat (case_match; try done); intros; simplify_eq; split_bools; lia.
Qed.

Lemma read_separated_some {A} sep first (p : str → option (A * str)) s x :
  read_separated sep first p s = Some x → ∃ s', p s' = Some x.
Proof. unfold read_separated. destruct first; [eauto|]. intros (s' & _ & ?)%bind_Some. eauto. Qed.

Lemma read_ipv4_bounds s a b c d rest :
  read_ipv4 s = Some ((a, b, c, d), rest) → Forall (λ x, 0 ≤ x ≤ 255) [a; b; c; d].
Proof.
  unfold read_ipv4. intros H.
  repeat match type of H with
  | (_ ≫= _) = Some _ => let x := fresh "x" in let Hx := fresh "Hx" in
      apply bind_Some in H as ([x ?] & Hx & H)
  end. simplify_eq.
  repeat match goal with
  | H : read_separated _ _ _ _ = Some _ |- _ => apply read_separated_some in H as [? H]
  | H : read_octet _ = Some _ |- _ => apply read_number_bounds in H; [|done]
  end. auto.
Qed.

Lemma read_groups_bounds limit first s gs v4 rest :
  read_groups limit first s = (gs, v4, rest) →
  Forall (λ x, 0 ≤ x ≤ 65535) gs ∧ (length gs ≤ limit)%nat.
Proof.
  revert first s gs v4 rest. induction limit as [|r IH]; cbn; intros first s gs v4 rest; [naive_solver|].
  destruct (match r with O => None | S _ => read_separated (ch ":") first read_ipv4 s end)
    as [[[[[a b] c] d] s']|] eqn:E4.
  - intros [= <- <- <-]. destruct r; [done|]. apply read_separated_some in E4 as [? E4].
    apply read_ipv4_bounds in E4. decompose_Forall. split; [|cbn; lia].
    repeat constructor; lia.
  - destruct (read_separated (ch ":") first read_group s) as [[g s']|] eqn:Eg; [|intros [= <- <- <-]; split; [constructor|cbn; lia]].
    destruct (read_groups r false s') as [[gs' v'] s''] eqn:Er. intros [= <- <- <-].
    apply IH in Er as [? ?]. apply read_separated_some in Eg as [? Eg].
    apply read_number_bounds in Eg; [|done]. split; [by constructor|cbn; lia].
Qed.

Lemma parse_ip_ok s a : parse_ip s = Some a → ip_ok a.
Proof.
  unfold parse_ip. destruct (read_ipv4 s) as [[[[[x y] z] w] rest]|] eqn:E4.
  { case_match; [|done]. intros [= <-]. by eapply read_ipv4_bounds. }
  unfold read_ipv6. destruct (read_groups 8 true s) as [[hd v] s1] eqn:Eh.
  apply read_groups_bounds in Eh as [Hb Hl].
  destruct (length hd =? 8)%nat eqn:E8.
  { apply Nat.eqb_eq in E8. case_match; [|done]. intros [= <-]. done. }
  apply Nat.eqb_neq in E8. destruct v; [done|].
  destruct (read_char _ s1) as [s2|]; cbn; [|done]. destruct (read_char _ s2) as [s3|]; cbn; [|done].
  destruct (read_groups _ true s3) as [[tl v'] s4] eqn:Et. apply read_groups_bounds in Et as [Hb' Hl'].
  case_match; [|done]. intros [= <-]. split.
  - rewrite !length_app, length_replicate. lia.
  - apply Forall_app. split; [done|]. apply Forall_app. split; [|done].
    apply Forall_replicate. lia.
Qed.

(** ** What address text is made of *)

Definition ip_char (c : char) : bool := is_ascii_hexdigit c || (c =? ch ":") || (c =? ch ".").

(** A parser consumes a prefix made of address characters only. *)
Definition consumes {A} (p : str → option (A * str)) : Prop :=
  ∀ s x rest, p s = Some (x, rest) → ∃ pre, s = pre ++ rest ∧ forallb ip_char pre = true.

Lemma to_digit_char r c d : to_digit r c = Some d → ip_char c = true.
Proof.
  unfold to_digit, ip_char, is_ascii_hexdigit. destruct (is_ascii_digit c), (between 0x61 0x66 c), (between 0x41 0x46 c); done.
Qed.

Lemma read_digits_prefix r acc n s v k rest :
  read_digits r acc n s = (v, k, rest) → ∃ pre, s = pre ++ rest ∧ forallb ip_char pre = true.
Proof.
  revert acc n. induction s as [|c s IH]; cbn; intros acc n; [intros [= <- <- <-]; by exists []|].
  destruct (to_digit r c) as [d|] eqn:E; [|intros [= <- <- <-]; by exists []].
  intros (pre & -> & Hpre)%IH. exists (c :: pre). cbn. by rewrite (to_digit_char _ _ _ E), Hpre.
Qed.

Lemma read_number_consumes r m z mx : consumes (read_number r m z mx).
Proof.
  intros s x rest. unfold read_number. destruct (read_digits r 0 0 s) as [[v k] rest'] eqn:E.
  apply read_digits_prefix in E. repeat (case_match; try done); intros; simplify_eq; done.
Qed.

Lemma read_char_some c s s' : read_char c s = Some s' → s = c :: s'.
Proof. destruct s as [|x s]; cbn; [done|]. case_match; [|done]. split_bools. by intros [= <-]; subst. Qed.

Lemma read_separated_consumes {A} sep first (p : str → option (A * str)) :
  ip_char sep = true → consumes p → consumes (read_separated sep first p).
Proof.
  intros Hsep Hp s x rest. unfold read_separated. destruct first; [apply Hp|].
  intros (s' & ->%read_char_some & Hx)%bind_Some. apply Hp in Hx as (pre & -> & Hpre).
  exists (sep :: pre). cbn. by rewrite Hsep, Hpre.
Qed.

Lemma read_ipv4_consumes : consumes read_ipv4.
Proof.
  intros s x rest H. unfold read_ipv4 in H.
  pose proof (read_number_consumes 10 3 false 255) as Hn.
  pose proof (read_separated_consumes (ch ".") false _ eq_refl Hn) as Hs.
  apply bind_Some in H as ([a s1] & (p1 & -> & H1)%Hn & H).
  apply bind_Some in H as ([b s2] & (p2 & -> & H2)%Hs & H).
  apply bind_Some in H as ([c s3] & (p3 & -> & H3)%Hs & H).
  apply bind_Some in H as ([d s4] & (p4 & -> & H4)%Hs & H). simplify_eq.
  exists (p1 ++ p2 ++ p3 ++ p4). rewrite <-!app_assoc, !forallb_app, H1, H2, H3, H4. done.
Qed.

Lemma read_groups_consumes limit first s gs v4 rest :
  read_groups limit first s = (gs, v4, rest) → ∃ pre, s = pre ++ rest ∧ forallb ip_char pre = true.
Proof.
  revert first s gs v4 rest. induction limit as [|r IH]; cbn; intros first s gs v4 rest;
    [intros [= <- <- <-]; by exists []|].
  pose proof (read_separated_consumes (ch ":") first _ eq_refl read_ipv4_consumes) as H4.
  pose proof (read_separated_consumes (ch ":") first read_group eq_refl (read_number_consumes 16 4 true 65535)) as Hg.
  destruct (match r with O => None | S _ => read_separated (ch ":") first read_ipv4 s end)
    as [[[[[a b] c] d] s']|] eqn:E4.
  - intros [= <- <- <-]. destruct r; [done|]. by apply H4 in E4.
  - destruct (read_separated (ch ":") first read_group s) as [[g s']|] eqn:Eg;
      [|intros [= <- <- <-]; by exists []].
    destruct (read_groups r false s') as [[gs' v'] s''] eqn:Er. intros [= <- <- <-].
    apply IH in Er as (p2 & -> & H2). apply Hg in Eg as (p1 & -> & H1).
    exists (p1 ++ p2). by rewrite <-app_assoc, forallb_app, H1, H2.
Qed.

Lemma parse_ip_chars s a : parse_ip s = Some a → forallb ip_char s = true.
Proof.
  unfold parse_ip. destruct (read_ipv4 s) as [[[[[x y] z] w] rest]|] eqn:E4.
  { apply read_ipv4_consumes in E4 as (pre & -> & Hp). destruct rest; [|done].
    by rewrite app_nil_r. }
  unfold read_ipv6. destruct (read_groups 8 true s) as [[hd v] s1] eqn:Eh.
  apply read_groups_consumes in Eh as (p1 & -> & H1).
  destruct (length hd =? 8)%nat; [destruct s1; [|done]; by rewrite app_nil_r|].
  destruct v; [done|].
  destruct (read_char _ s1) as [s2|] eqn:E2; cbn; [|done]. apply read_char_some in E2 as ->.
  destruct (read_char _ s2) as [s3|] eqn:E3; cbn; [|done]. apply read_char_some in E3 as ->.
  destruct (read_groups _ true s3) as [[tl v'] s4] eqn:Et.
  apply read_groups_consumes in Et as (p2 & -> & H2). destruct s4; [|done]. intros _.
  rewrite app_nil_r, forallb_app, H1. cbn. by rewrite H2.
Qed.

(** ** IPv4 text round trip *)

(** Decimal octets have one to three digits and no leading zero. *)
Lemma read_show_octet n rest :
  0 ≤ n ≤ 255 → (∀ c r, rest = c :: r → to_digit 10 c = None) →
  read_octet (show_dec n ++ rest) = Some (n, rest).
Proof.
  intros Hn Hrest.
  assert (∀ s acc n0, forallb (λ c, bool_decide (is_Some (to_digit 10 c))) s = true →
    read_digits 10 acc n0 (s ++ rest) =
    (let '(v, k, _) := read_digits 10 acc n0 s in (v, k, rest))) as Happ.
  { induction s as [|c s IH]; cbn; intros acc n0 Hs.
    - destruct rest as [|c r]; cbn; [done|]. by rewrite (Hrest c r eq_refl).
    - split_bools. destruct (to_digit 10 c) as [d|] eqn:E; [by apply IH|].
      match goal with H : is_Some None |- _ => by destruct H end. }
  assert (forallb (λ n, let s := show_dec n in
    forallb (λ c, bool_decide (is_Some (to_digit 10 c))) s &&
    bool_decide (read_octet s = Some (n, [])) && negb (is_empty s))
    (map Z.of_nat (seq 0 256)) = true) as Hall by (vm_compute; reflexivity).
  rewrite forallb_true in Hall. specialize (Hall n). cbn zeta in Hall.
  assert (n ∈ map Z.of_nat (seq 0 256)) as Hin.
  { apply list_elem_of_fmap. exists (Z.to_nat n). split; [lia|]. apply elem_of_seq. lia. }
  specialize (Hall Hin). split_bools.
  match goal with H : read_octet _ = _ |- _ => revert H end.
  unfold read_octet, read_number. rewrite Happ by done.
  destruct (read_digits 10 0 0 (show_dec n)) as [[v k] r].
  destruct (show_dec n) as [|c0 s0]; [done|]. cbn [app].
  repeat (case_match; try done). all: intros; simplify_eq; done.
Qed.

(** Every IPv4 address the parser accepts prints to its canonical dotted
    text, and parsing that text gives the address back. *)
Lemma ipv4_text_roundtrip a b c d :
  ip_ok (V4 a b c d) → parse_ip (show_ip (V4 a b c d)) = Some (V4 a b c d).
Proof.
  intros H. unfold ip_ok in H. decompose_Forall. cbn [show_ip].
  assert (∀ r c r', ch "." :: r = c :: r' → to_digit 10 c = None) as Hdot by (by intros r ? r' [= <- <-]).
  unfold parse_ip, read_ipv4, show_v4.
  rewrite read_show_octet; [|lia|apply Hdot]. cbn [mbind option_bind read_separated read_char].
  rewrite Z.eqb_refl. cbn [mbind option_bind]. rewrite read_show_octet; [|lia|apply Hdot].
  cbn [mbind option_bind read_separated read_char]. rewrite Z.eqb_refl. cbn [mbind option_bind].
  rewrite read_show_octet; [|lia|apply Hdot].
  cbn [mbind option_bind read_separated read_char]. rewrite Z.eqb_refl. cbn [mbind option_bind].
  rewrite <-(app_nil_r (show_dec d)). rewrite read_show_octet; [done|lia|done].
Qed.

Example ip_examples :
  (show_ip <$> parse_ip (lit "2001:DB8:0:0:0:0:0:1")) = Some (lit "2001:db8::1") ∧
  (show_ip <$> parse_ip (lit "::ffff:10.0.0.1")) = Some (lit "::ffff:10.0.0.1") ∧
  (show_ip <$> parse_ip (lit "fe80::1:0:0:2")) = Some (lit "fe80::1:0:0:2") ∧
  (show_ip <$> parse_ip (lit "::")) = Some (lit "::") ∧
  parse_ip (lit "1.2.3.04") = None ∧ parse_ip (lit "1::2::3") = None ∧
  parse_ip (lit "1:2:3:4:5:6:7:8:9") = None ∧ parse_ip (lit "fe80::1%eth0") = None.
Proof. vm_compute. auto 20. Qed.
