(* ===== verification/Hosts.v ===== *)
(** Host records: normalisation and validation
    ([crates/nexus-model/src/host.rs]). *)

From S2P Require Import Prelude Str Model Ip.

Inductive AuthenticationMethod := Password | PrivateKey.

#[export] Instance AuthenticationMethod_eq_dec : EqDecision AuthenticationMethod.
Proof. solve_decision. Defined.

Record HostConnectionConfig := {
  hostname : str;
  port : Z;
  username : str;
  authentication : AuthenticationMethod
}.

#[export] Instance HostConnectionConfig_eq_dec : EqDecision HostConnectionConfig.
Proof. solve_decision. Defined.

(** [normalize] *)
Definition normalize (c : HostConnectionConfig) : HostConnectionConfig :=
  {| hostname := map to_ascii_lower (trim_end_matches (Z.eqb (ch ".")) (trim (hostname c)));
     port := port c;
     username := trim (username c);
     authentication := authentication c |}.

Definition dns_label (label : str) : bool :=
  negb (is_empty label) && (len label <=? 63)
  && negb (starts_with (lit "-") label) && negb (ends_with (lit "-") label)
  && forallb (λ c, is_ascii_alphanumeric c || (c =? ch "-")) label.

Definition is_dns (h : str) : bool :=
  negb (is_empty h) && (len h <=? 253) && forallb dns_label (split (ch ".") h).

Definition hostname_error : AppError :=
  app_error Validation "Enter a hostname or IP address without a URL, path or spaces.".
Definition port_error : AppError := app_error Validation "SSH port must be between 1 and 65535.".
Definition username_error : AppError :=
  app_error Validation "Enter a username without whitespace or control characters.".
Definition display_name_error : AppError :=
  app_error Validation "Display name must contain 1–120 characters without control characters.".

(** [HostConnectionConfig::validate] *)
Definition host_validate (c : HostConnectionConfig) : Res unit :=
  let is_ip := bool_decide (is_Some (parse_ip (hostname c))) in
  _ ← ensure (negb is_ip && negb (is_dns (hostname c))) hostname_error;
  _ ← ensure (port c =? 0) port_error;
  ensure (is_empty (username c) || (128 <? len (username c))
          || existsb (λ c, is_control c || is_whitespace c) (username c)) username_error.

Record Host := { host_id : HostId; display_name : str; connection : HostConnectionConfig }.

#[export] Instance Host_eq_dec : EqDecision Host.
Proof. solve_decision. Defined.

Record HostInput := {
  in_id : option HostId;
  in_display_name : str;
  in_connection : HostConnectionConfig
}.

(** [HostInput::into_host]; [fresh] is the id [unwrap_or_default] would draw. *)
Definition into_host (fresh : HostId) (i : HostInput) : Res Host :=
  let name := trim (in_display_name i) in
  _ ← ensure (is_empty name || (120 <? len name) || existsb is_control name) display_name_error;
  let c := normalize (in_connection i) in
  _ ← host_validate c;
  Ok {| host_id := default fresh (in_id i); display_name := name; connection := c |}.

(** ** Properties *)

Definition hostname_char (c : char) : bool :=
  is_ascii_digit c || is_ascii_lower c || (c =? ch "-") || (c =? ch ":") || (c =? ch ".").

Lemma to_ascii_lower_not_upper c : is_ascii_upper (to_ascii_lower c) = false.
Proof.
  unfold to_ascii_lower, is_ascii_upper, between. case_match; split_bools; [|done].
  apply andb_false_iff. rewrite !Z.leb_gt. lia.
Qed.

Lemma to_ascii_lower_idem c : to_ascii_lower (to_ascii_lower c) = to_ascii_lower c.
Proof. unfold to_ascii_lower at 1. by rewrite to_ascii_lower_not_upper. Qed.

Lemma is_dns_chars h c : is_dns h = true → c ∈ h → is_ascii_alphanumeric c || (c =? ch "-") || (c =? ch ".") = true.
Proof.
  unfold is_dns. intros H Hc. split_bools.
  rewrite <-(split_join (ch ".") h) in Hc.
  assert (∀ ps x, x ∈ join (ch ".") ps → x = ch "." ∨ ∃ p, p ∈ ps ∧ x ∈ p) as Hj.
  { induction ps as [|p [|q ps] IH]; cbn [join]; intros x; [set_solver|set_solver|].
    intros [?|[->|Hx]%elem_of_cons]%elem_of_app; [set_solver|auto|].
    destruct (IH _ Hx) as [?|(p' & ? & ?)]; set_solver. }
  apply Hj in Hc as [->|(p & Hp & Hc)]; [by rewrite orb_true_r|].
  match goal with H : forallb dns_label _ = true |- _ => rewrite forallb_true in H; specialize (H p Hp) end.
  unfold dns_label in *. split_bools.
  match goal with H : forallb _ p = true |- _ => rewrite forallb_true in H; specialize (H c Hc) end.
  match goal with H : _ = true |- _ => by rewrite H end.
Qed.

(** The hostname of a valid, normalised configuration. *)
Lemma valid_hostname_chars c u x :
  host_validate (normalize c) = Ok u → x ∈ hostname (normalize c) → hostname_char x = true.
Proof.
  intros H Hx. unfold host_validate in H. apply bind_ok in H as (_ & Hh%ensure_ok & _).
  apply andb_false_iff in Hh.
  assert (is_ascii_upper x = false) as Hup.
  { cbn in Hx. apply list_elem_of_fmap in Hx as (y & -> & _). apply to_ascii_lower_not_upper. }
  assert (is_ascii_alphanumeric x || (x =? ch "-") || (x =? ch ":") || (x =? ch ".") = true) as Hal.
  { destruct Hh as [Hip|Hdns]; apply negb_false_iff in Hip || apply negb_false_iff in Hdns.
    - apply bool_decide_eq_true in Hip as [a Ha]. apply parse_ip_chars in Ha.
      rewrite forallb_true in Ha. specialize (Ha x Hx). revert Ha.
      unfold ip_char, is_ascii_hexdigit, is_ascii_alphanumeric, is_ascii_upper, is_ascii_lower, is_ascii_digit, between.
      rewrite !orb_true_iff, !andb_true_iff, !Z.leb_le, !Z.eqb_eq. lia.
    - specialize (is_dns_chars _ x Hdns Hx). rewrite !orb_true_iff. tauto. }
  revert Hal. unfold hostname_char, is_ascii_alphanumeric. by rewrite Hup, orb_false_r.
Qed.

Lemma trim_not_space (s : str) : (∀ c, c ∈ s → is_whitespace c = false) → trim s = s.
Proof.
  intros H. assert (∀ l, (∀ c, c ∈ l → is_whitespace c = false) → drop_while is_whitespace l = l) as Hd.
  { intros [|c l] Hl; [done|]. cbn. by rewrite Hl by set_solver. }
  unfold trim, trim_start_matches, trim_end_matches. rewrite (Hd s H).
  rewrite (Hd (rev s)); [apply rev_involutive|]. intros c. rewrite elem_of_rev. apply H.
Qed.

Lemma trim_idem s : trim (trim s) = trim s.
Proof.
  unfold trim at 1. unfold trim_start_matches.
  destruct (trim s) as [|c t] eqn:E; [done|].
  assert (is_whitespace c = false) as Hc.
  { unfold trim, trim_start_matches in E.
    destruct (trim_end_prefix is_whitespace (drop_while is_whitespace s)) as (b & Hb & _).
    rewrite E in Hb. by eapply drop_while_head. }
  cbn [drop_while]. rewrite Hc. unfold trim in E. unfold trim_end_matches in *. rewrite <-E.
  rewrite rev_involutive. by rewrite drop_while_idem.
Qed.

Lemma map_lower_id (s : str) : (∀ c, c ∈ s → hostname_char c = true) → map to_ascii_lower s = s.
Proof.
  intros H. rewrite <-(list_fmap_id s) at 2. apply list_fmap_ext. intros i x Hx.
  apply list_elem_of_lookup_2, H in Hx.
  unfold to_ascii_lower. destruct (is_ascii_upper x) eqn:E; [|done]. exfalso.
  unfold hostname_char, is_ascii_upper, is_ascii_digit, is_ascii_lower, between in *.
  rewrite !orb_true_iff, !andb_true_iff, !Z.leb_le, !Z.eqb_eq in Hx.
  rewrite !andb_true_iff, !Z.leb_le in E. cbv [ch lit] in Hx. cbn in Hx. lia.
Qed.

Lemma hostname_not_space x : hostname_char x = true → is_whitespace x = false.
Proof.
  destruct (is_whitespace x) eqn:E; [|done]. unfold hostname_char, is_whitespace, is_ascii_digit, is_ascii_lower, between in *.
  rewrite !orb_true_iff, !andb_true_iff, !Z.leb_le, !Z.eqb_eq in *.
  change (ch "-") with 45. change (ch ":") with 58. change (ch ".") with 46. lia.
Qed.

Lemma lower_dot x : Z.eqb (ch ".") (to_ascii_lower x) = Z.eqb (ch ".") x.
Proof.
  change (ch ".") with 46. unfold to_ascii_lower, is_ascii_upper, between. case_match; split_bools; [|done].
  rewrite (proj2 (Z.eqb_neq 46 x)), (proj2 (Z.eqb_neq 46 (x + 32))); [done|lia|lia].
Qed.

Lemma drop_while_map (f : char → bool) (g : char → char) s :
  (∀ x, f (g x) = f x) → drop_while f (map g s) = map g (drop_while f s).
Proof. intros H. induction s as [|c s IH]; cbn; [done|]. rewrite H. by case_match. Qed.

(** Lower-casing does not touch the trailing dots. *)
Lemma trim_dots_lower s :
  trim_end_matches (Z.eqb (ch ".")) (map to_ascii_lower (trim_end_matches (Z.eqb (ch ".")) s))
  = map to_ascii_lower (trim_end_matches (Z.eqb (ch ".")) s).
Proof.
  unfold trim_end_matches. rewrite <-map_rev, rev_involutive, drop_while_map by apply lower_dot.
  by rewrite drop_while_idem, map_rev.
Qed.

Lemma normalize_valid_idem c u : host_validate (normalize c) = Ok u → normalize (normalize c) = normalize c.
Proof.
  intros H. pose proof (λ x, valid_hostname_chars c u x H) as Hc.
  unfold normalize at 1. rewrite (trim_not_space (hostname (normalize c))).
  2: { intros x Hx. by apply hostname_not_space, Hc. }
  assert (trim_end_matches (Z.eqb (ch ".")) (hostname (normalize c)) = hostname (normalize c)) as ->.
  { apply trim_dots_lower. }
  rewrite map_lower_id by done.
  assert (trim (username (normalize c)) = username (normalize c)) as -> by apply trim_idem. done.
Qed.

(** A host that is accepted holds no text the SSH layer could misread:
    the hostname is made of lower-case letters, digits, dash, colon and dot,
    the username is 1 to 128 bytes without whitespace or control characters,
    the port is not zero, and the display name is trimmed, 1 to 120 bytes and
    free of control characters. *)
Theorem into_host_safe fresh i h :
  into_host fresh i = Ok h →
  (∀ x, x ∈ hostname (connection h) → hostname_char x = true) ∧
  port (connection h) ≠ 0 ∧
  0 < len (username (connection h)) ≤ 128 ∧
  (∀ x, x ∈ username (connection h) → is_control x = false ∧ is_whitespace x = false) ∧
  0 < len (display_name h) ≤ 120 ∧
  trim (display_name h) = display_name h ∧
  (∀ x, x ∈ display_name h → is_control x = false).
Proof.
  unfold into_host. rewrite bind_ok. intros (_ & Hn%ensure_ok & H). apply bind_ok in H as ([] & Hv & [= <-]).
  cbn [connection display_name]. split; [intros x; by apply (valid_hostname_chars _ tt)|].
  unfold host_validate in Hv. apply bind_ok in Hv as (_ & _ & Hv). apply bind_ok in Hv as (_ & Hp%ensure_ok & Hu%ensure_ok).
  rewrite !orb_false_iff, !is_empty_false, !Z.ltb_ge, existsb_false in Hn, Hu.
  destruct Hn as [[Hn1 Hn2] Hn3], Hu as [[Hu1 Hu2] Hu3].
  assert (∀ s, s ≠ [] → 0 < len s) as Hpos.
  { intros s Hs. pose proof (len_nonneg s). destruct (decide (len s = 0)) as [E|]; [|lia].
    by apply len_zero in E. }
  split; [by apply Z.eqb_neq|]. split; [auto|].
  split; [intros x Hx; by apply orb_false_iff, Hu3|]. split; [auto|]. split; [apply trim_idem|exact Hn3].
Qed.

(** Saving what was accepted is stable: resubmitting the stored host
    under its own id yields exactly the same host. *)
Theorem into_host_idempotent fresh fresh' i h :
  into_host fresh i = Ok h →
  into_host fresh' {| in_id := Some (host_id h); in_display_name := display_name h;
                      in_connection := connection h |} = Ok h.
Proof.
  unfold into_host. rewrite bind_ok. intros (u & Hn & H). apply bind_ok in H as ([] & Hv & [= <-]).
  cbn [connection display_name host_id in_id in_display_name in_connection].
  rewrite trim_idem, Hn, (normalize_valid_idem _ tt Hv). cbn [mbind result_bind]. by rewrite Hv.
Qed.

Definition ex_input : HostInput :=
  {| in_id := None; in_display_name := lit "  Web  ";
     in_connection := {| hostname := lit " Web-1.Example.COM. "; port := 22;
                         username := lit " root "; authentication := Password |} |}.

Definition ex_host : Host :=
  {| host_id := 9%N; display_name := lit "Web";
     connection := {| hostname := lit "web-1.example.com"; port := 22; username := lit "root";
                      authentication := Password |} |}.

Lemma into_host_safe_witness : into_host 9%N ex_input = Ok ex_host ∧ port (connection ex_host) ≠ 0.
Proof.
  split; [vm_compute; reflexivity|].
  apply (into_host_safe 9%N ex_input ex_host). vm_compute; reflexivity.
Defined.

Lemma into_host_idempotent_witness :
  into_host 3%N {| in_id := Some 9%N; in_display_name := lit "Web"; in_connection := connection ex_host |} = Ok ex_host.
Proof.
  apply (into_host_idempotent 9%N 3%N ex_input ex_host). vm_compute; reflexivity.
Defined.
