(* ===== verification/RemotePath.v ===== *)
(** Remote path handling ([nexus-sftp/src/path.rs]): what the client accepts
    as a path and as a child name, how it joins and splits paths, how it
    shows names, and which names it lets become local Windows files. *)

From S2P Require Import Prelude Str Model.

Definition MAX_REMOTE_PATH_BYTES : Z := 4096.

Definition policy (message : string) : AppError := app_error FilePolicy message.

Definition validate_remote_path (path : str) : Res unit :=
  ensure (is_empty path || (MAX_REMOTE_PATH_BYTES <? len path) || contains_char 0 path)
    (policy "The remote path is empty, contains NUL, or exceeds 4096 bytes.").

Definition validate_child_name (name : str) : Res unit :=
  ensure (is_empty name || str_eqb name (lit ".") || str_eqb name (lit "..")
          || contains_char (ch "/") name || contains_char 0 name || (255 <? len name))
    (policy "The server returned an unsafe child entry name.").

Definition trim_slashes (path : str) : str := trim_end_matches (Z.eqb (ch "/")) path.

Definition join_remote (parent child : str) : Res str :=
  _ ← validate_remote_path parent;
  _ ← validate_child_name child;
  let joined := if str_eqb parent (lit "/") then ch "/" :: child
                else trim_slashes parent ++ ch "/" :: child in
  _ ← validate_remote_path joined;
  Ok joined.

Definition parent_remote (path : str) : Res str :=
  _ ← validate_remote_path path;
  if str_eqb path (lit "/") then Ok (lit "/") else
  let trimmed := trim_slashes path in
  Ok match rsplit_once (ch "/") trimmed with
     | None => lit "."
     | Some (parent, _) => if is_empty parent then lit "/" else parent
     end.

Definition is_bidi_control (c : char) : bool :=
  (c =? 0x061C) || (c =? 0x200E) || (c =? 0x200F) || between 0x202A 0x202E c || between 0x2066 0x2069 c.

(** [write!(output, "\\u{{{:04X}}}", c)]: upper-case hexadecimal, padded with
    zeros to four digits.  Six digits hold every scalar value. *)
Definition hex_digit (d : Z) : char := if d <? 10 then 0x30 + d else 0x37 + d.
Fixpoint hex_digits (fuel : nat) (n : Z) (acc : str) : str :=
  match fuel with
  | 0%nat => acc
  | S k => let acc := hex_digit (n mod 16) :: acc in if n <? 16 then acc else hex_digits k (n / 16) acc
  end.
Definition hex4 (n : Z) : str :=
  let d := hex_digits 6 n [] in replicate (4 - length d) (ch "0") ++ d.
Definition escape (c : char) : str := ch "\" :: ch "u" :: ch "{" :: hex4 c ++ [ch "}"].

Definition display_name (value : str) : str :=
  flat_map (λ c, if is_control c || is_bidi_control c then escape c else [c]) value.

Definition windows_forbidden : str := lit "\:*?" ++ [0x22] ++ lit "<>|".

(** [upper.as_bytes()[3]]: at byte length four with a three-byte ASCII prefix
    the fourth byte is the fourth character. *)
Definition windows_device (upper : str) : bool :=
  str_in upper [lit "CON"; lit "PRN"; lit "AUX"; lit "NUL"]
  || ((len upper =? 4) && (starts_with (lit "COM") upper || starts_with (lit "LPT") upper)
      && match upper !! 3%nat with Some b => between (ch "1") (ch "9") b | None => false end).

Definition windows_stem (name : str) : str :=
  map to_ascii_upper
    (trim_end_matches (λ c, (c =? ch ".") || (c =? ch " "))
       (match split (ch ".") name with s :: _ => s | [] => name end)).

Definition validate_windows_file_name (name : str) : Res unit :=
  _ ← validate_child_name name;
  _ ← ensure (match list.last name with Some c => (c =? ch ".") || (c =? ch " ") | None => false end
              || existsb (λ c, contains_char c windows_forbidden) name
              || existsb is_control name)
        (policy "The remote name is not a valid Windows file name. Rename it explicitly before download.");
  ensure (windows_device (windows_stem name))
    (policy "The remote name is reserved by Windows. Rename it explicitly before download.").

(** ** Accepted names and paths *)

Lemma validate_child_name_ok n u :
  validate_child_name n = Ok u ↔
  n ≠ [] ∧ n ≠ lit "." ∧ n ≠ lit ".." ∧ ch "/" ∉ n ∧ 0 ∉ n ∧ len n ≤ 255.
Proof.
  unfold validate_child_name. rewrite ensure_ok, !orb_false_iff, is_empty_false, !contains_char_false, Z.ltb_ge.
  unfold str_eqb. rewrite !bool_decide_eq_false. tauto.
Qed.

Lemma validate_remote_path_ok p u :
  validate_remote_path p = Ok u ↔ p ≠ [] ∧ len p ≤ MAX_REMOTE_PATH_BYTES ∧ 0 ∉ p.
Proof.
  unfold validate_remote_path. rewrite ensure_ok, !orb_false_iff, is_empty_false, contains_char_false, Z.ltb_ge. tauto.
Qed.

Lemma trim_slashes_root : trim_slashes (lit "/") = [].
Proof. reflexivity. Qed.

Lemma join_remote_ok p c j :
  join_remote p c = Ok j ↔
  validate_remote_path p = Ok tt ∧ validate_child_name c = Ok tt ∧
  j = trim_slashes p ++ ch "/" :: c ∧ validate_remote_path j = Ok tt.
Proof.
  unfold join_remote. rewrite bind_ok.
  assert ((if str_eqb p (lit "/") then ch "/" :: c else trim_slashes p ++ ch "/" :: c)
          = trim_slashes p ++ ch "/" :: c) as ->.
  { unfold str_eqb. case_bool_decide; [|done]. by subst. }
  split.
  - intros ([] & H1 & H). apply bind_ok in H as ([] & H2 & H). apply bind_ok in H as ([] & H3 & [= <-]). done.
  - intros (H1 & H2 & -> & H3). exists tt. split; [done|]. rewrite H2. cbn [mbind result_bind]. by rewrite H3.
Qed.

(** A path that ends in something else than a slash is left alone. *)
Lemma trim_slashes_id a x c : x ≠ ch "/" → c = a ++ [x] → trim_slashes c = c.
Proof.
  intros Hx ->. unfold trim_slashes, trim_end_matches. rewrite rev_app_distr. cbn [rev app drop_while].
  destruct (ch "/" =? x) eqn:E; [split_bools; congruence|]. cbn [rev]. by rewrite rev_involutive.
Qed.

Lemma child_last (n : str) u : validate_child_name n = Ok u → ∃ a x, n = a ++ [x] ∧ x ≠ ch "/".
Proof.
  rewrite validate_child_name_ok. intros (Hne & _ & _ & Hs & _).
  destruct (exists_last Hne) as (a & x & ->). exists a, x. split; [done|]. set_solver.
Qed.

Lemma trim_slashes_join p c u : validate_child_name c = Ok u →
  trim_slashes (trim_slashes p ++ ch "/" :: c) = trim_slashes p ++ ch "/" :: c.
Proof.
  intros Hc. destruct (child_last _ _ Hc) as (a & x & -> & Hx).
  apply (trim_slashes_id (trim_slashes p ++ ch "/" :: a) x); [done|].
  by rewrite <-app_assoc.
Qed.

Lemma split_app_sep c a b : c ∉ b → split c (a ++ c :: b) = split c a ++ [b].
Proof.
  intros Hb. assert (split c b = [b]) as Hsb.
  { unfold split. induction b as [|x b IH]; [done|]. cbn.
    destruct (c =? x) eqn:E; [split_bools; set_solver|]. rewrite IH; [done|set_solver]. }
  unfold split in *. induction a as [|x a IH]; cbn.
  - by rewrite Z.eqb_refl, Hsb.
  - destruct (c =? x); [by rewrite IH|].
    rewrite IH. pose proof (split_on_nonempty (Z.eqb c) a). by destruct (split_on _ a).
Qed.

(** A path built from a server-supplied name stays one level below its
    parent: its components are exactly the parent's (without trailing
    slashes) followed by the name, which is not empty, [.] or [..]; its
    parent is the path it was joined to; and it obeys the 4096-byte limit. *)
Theorem join_remote_confined p c j :
  join_remote p c = Ok j →
  split (ch "/") j = split (ch "/") (trim_slashes p) ++ [c] ∧
  c ∉ [[]; lit "."; lit ".."] ∧ ch "/" ∉ c ∧ 0 ∉ j ∧ len j ≤ MAX_REMOTE_PATH_BYTES ∧
  parent_remote j = Ok (if is_empty (trim_slashes p) then lit "/" else trim_slashes p).
Proof.
  rewrite join_remote_ok. intros (_ & Hc & Hj & Hv). pose proof Hv as Hv'. pose proof Hc as Hc'.
  apply validate_remote_path_ok in Hv' as (_ & Hl & H0).
  apply validate_child_name_ok in Hc' as (He & Hd & Hdd & Hs & _).
  split; [subst j; by apply split_app_sep|]. split; [set_solver|]. do 3 (split; [done|]).
  unfold parent_remote. rewrite Hv. cbn [mbind result_bind].
  assert (rsplit_once (ch "/") (trim_slashes j) = Some (trim_slashes p, c)) as ->.
  { subst j. rewrite (trim_slashes_join _ _ _ Hc). by apply rsplit_once_some. }
  unfold str_eqb. case_bool_decide as E; [|done]. exfalso. subst j.
  apply (f_equal length) in E. rewrite length_app in E. change (length (lit "/")) with 1%nat in E. cbn [length] in E. destruct c; [done|cbn [length] in E; lia].
Qed.

Lemma join_remote_confined_witness :
  split (ch "/") (lit "/home/a/notes") = split (ch "/") (lit "/home/a") ++ [lit "notes"].
Proof.
  apply (join_remote_confined (lit "/home/a/") (lit "notes") (lit "/home/a/notes")). vm_compute; reflexivity.
Defined.

(** ** Shown names *)

Lemma hex_digit_safe d : 0 ≤ d < 16 → is_control (hex_digit d) = false ∧ is_bidi_control (hex_digit d) = false.
Proof.
  intros H. assert (d ∈ [0;1;2;3;4;5;6;7;8;9;10;11;12;13;14;15]) as Hd.
  { rewrite !elem_of_cons. lia. }
  revert Hd. clear H. apply (list.Forall_forall (λ d, is_control (hex_digit d) = false ∧ is_bidi_control (hex_digit d) = false)).
  repeat (apply list.Forall_cons; split; [split; reflexivity|]). constructor.
Qed.

Definition shown_safe (c : char) : Prop := is_control c = false ∧ is_bidi_control c = false.

Lemma hex_digits_safe k n acc : Forall shown_safe acc → Forall shown_safe (hex_digits k n acc).
Proof.
  revert n acc; induction k as [|k IH]; intros n acc Ha; cbn [hex_digits]; [done|].
  assert (Forall shown_safe (hex_digit (n mod 16) :: acc)) as Ha'.
  { apply list.Forall_cons. split; [apply hex_digit_safe, Z.mod_pos_bound; lia|done]. }
  case_match; auto.
Qed.

Lemma escape_safe c : Forall shown_safe (escape c).
Proof.
  unfold escape, hex4. repeat (apply list.Forall_cons; split; [split; reflexivity|]).
  rewrite !Forall_app. split; [split|].
  - apply Forall_replicate. split; reflexivity.
  - apply hex_digits_safe. constructor.
  - apply list.Forall_cons. split; [split; reflexivity|constructor].
Qed.

(** A shown name carries no control character and no bidirectional
    override, whatever the server sent, and a name without any is shown as
    it is. *)
Theorem display_name_safe value :
  Forall shown_safe (display_name value) ∧ (Forall shown_safe value → display_name value = value).
Proof.
  unfold display_name. induction value as [|c s [IH1 IH2]]; cbn; [done|]. split.
  - apply Forall_app. split; [|done]. case_match eqn:E; [apply escape_safe|].
    apply list.Forall_cons. apply orb_false_iff in E. by split.
  - intros [[H1 H2] Hs]%list.Forall_cons. rewrite H1, H2. cbn. by rewrite IH2.
Qed.

(** A name that may become a local file cannot leave the chosen folder
    or name a Windows device: no separator, drive colon, wildcard or control
    character, no trailing dot or blank, at most 255 bytes, and its stem in
    capitals is none of CON, PRN, AUX, NUL, COM1 to COM9 and LPT1 to LPT9. *)
Theorem windows_name_safe name :
  validate_windows_file_name name = Ok tt →
  (∀ x, x ∈ name → x ≠ ch "/" ∧ x ∉ windows_forbidden ∧ is_control x = false) ∧
  name ≠ lit ".." ∧ name ≠ [] ∧ len name ≤ 255 ∧
  (∀ a x, name = a ++ [x] → x ≠ ch "." ∧ x ≠ ch " ") ∧
  windows_stem name ∉ [lit "CON"; lit "PRN"; lit "AUX"; lit "NUL"] ∧
  (∀ d, between (ch "1") (ch "9") d = true →
        windows_stem name ≠ lit "COM" ++ [d] ∧ windows_stem name ≠ lit "LPT" ++ [d]).
Proof.
  unfold validate_windows_file_name. rewrite bind_ok. intros ([] & Hc & H).
  apply bind_ok in H as (_ & Hw%ensure_ok & Hd%ensure_ok).
  apply validate_child_name_ok in Hc as (He & _ & Hdd & Hs & _ & Hl).
  apply orb_false_iff in Hw as [Hw Hctl]. apply orb_false_iff in Hw as [Hlast Hforb].
  pose proof (proj1 (existsb_false _ _) Hctl) as Hctl'. pose proof (proj1 (existsb_false _ _) Hforb) as Hforb'.
  unfold windows_device in Hd. apply orb_false_iff in Hd as [Hd1 Hd2].
  split; [|split; [done|split; [done|split; [done|split; [|split]]]]].
  - intros x Hx. split; [by intros ->|]. split; [|auto]. apply contains_char_false; auto.
  - intros a x ->. rewrite last_snoc in Hlast. by apply orb_false_iff in Hlast as [?%Z.eqb_neq ?%Z.eqb_neq].
  - intros Hin%str_in_true. congruence.
  - intros d Hb. assert (∀ p, p = lit "COM" ∨ p = lit "LPT" → windows_stem name ≠ p ++ [d]) as Hp.
    { intros p Hp E. rewrite E in Hd2.
      assert (len (p ++ [d]) = 4) as Hl4.
      { rewrite len_app. cbn [len]. assert (utf8_width d = 1) as ->.
        { unfold utf8_width. change (ch "1") with 49 in Hb. change (ch "9") with 57 in Hb.
          unfold between in Hb. split_bools. by rewrite (proj2 (Z.ltb_lt d 0x80)) by lia. }
        by destruct Hp as [-> | ->]. }
      rewrite Hl4 in Hd2.
      destruct Hp as [-> | ->]; change (between (ch "1") (ch "9") d = false) in Hd2; congruence. }
    split; apply Hp; auto.
Qed.

Lemma windows_name_safe_witness :
  validate_windows_file_name (lit "com.notes.txt") = Ok tt ∧ lit "com.notes.txt" ≠ lit "..".
Proof.
  split; [vm_compute; reflexivity|].
  apply (windows_name_safe (lit "com.notes.txt")). vm_compute; reflexivity.
Defined.

(** The root written with more than one slash is not recognized as the root:
    its parent is the relative path [.]. *)
Example parent_of_double_slash : parent_remote (lit "//") = Ok (lit ".").
Proof. vm_compute. reflexivity. Qed.
