(* ===== verification/Utf8.v ===== *)
(** UTF-8 as the Rust standard library reads and writes it: [as_bytes] and
    the strict [std::str::from_utf8] (no overlong forms, no surrogates,
    nothing above U+10FFFF), with the two round trips. *)

From S2P Require Import Prelude Str.

Definition encode_char (c : char) : list Z :=
  if c <? 0x80 then [c]
  else if c <? 0x800 then [0xC0 + c / 64; 0x80 + c mod 64]
  else if c <? 0x10000 then [0xE0 + c / 4096; 0x80 + (c / 64) mod 64; 0x80 + c mod 64]
  else [0xF0 + c / 262144; 0x80 + (c / 4096) mod 64; 0x80 + (c / 64) mod 64; 0x80 + c mod 64].

(** [s.as_bytes()] *)
Definition as_bytes (s : str) : list Z := flat_map encode_char s.

Definition cont (b : Z) : bool := between 0x80 0xBF b.
Definition lead3 (b0 b1 : Z) : bool :=
  ((b0 =? 0xE0) && between 0xA0 0xBF b1)
  || ((between 0xE1 0xEC b0 || between 0xEE 0xEF b0) && cont b1)
  || ((b0 =? 0xED) && between 0x80 0x9F b1).
Definition lead4 (b0 b1 : Z) : bool :=
  ((b0 =? 0xF0) && between 0x90 0xBF b1) || (between 0xF1 0xF3 b0 && cont b1)
  || ((b0 =? 0xF4) && between 0x80 0x8F b1).

Fixpoint from_utf8 (bs : list Z) : option str :=
  match bs with
  | [] => Some []
  | b0 :: r0 =>
      if between 0 0x7F b0 then cons b0 <$> from_utf8 r0 else
      match r0 with
      | [] => None
      | b1 :: r1 =>
          if between 0xC2 0xDF b0 && cont b1
          then cons ((b0 - 0xC0) * 64 + (b1 - 0x80)) <$> from_utf8 r1 else
          match r1 with
          | [] => None
          | b2 :: r2 =>
              if lead3 b0 b1 && cont b2
              then cons ((b0 - 0xE0) * 4096 + (b1 - 0x80) * 64 + (b2 - 0x80)) <$> from_utf8 r2 else
              match r2 with
              | [] => None
              | b3 :: r3 =>
                  if lead4 b0 b1 && cont b2 && cont b3
                  then cons ((b0 - 0xF0) * 262144 + (b1 - 0x80) * 4096 + (b2 - 0x80) * 64 + (b3 - 0x80))
                         <$> from_utf8 r3
                  else None
              end
          end
      end
  end.

(** ** Laws *)

Lemma as_bytes_app a b : as_bytes (a ++ b) = as_bytes a ++ as_bytes b.
Proof. apply flat_map_app. Qed.

Lemma encode_char_length c : zlen (encode_char c) = utf8_width c.
Proof. unfold encode_char, utf8_width. by repeat case_match. Qed.

(** The byte length [len] used throughout is the length of the encoding. *)
Lemma as_bytes_length s : zlen (as_bytes s) = len s.
Proof.
  unfold as_bytes. induction s as [|c s IH]; [done|]. cbn [flat_map len].
  rewrite length_app, Nat2Z.inj_add, IH, encode_char_length. done.
Qed.

Ltac reflect_bytes :=
  unfold lead3, lead4, cont, between, is_char in *;
  rewrite ?andb_true_iff, ?andb_false_iff, ?orb_true_iff, ?orb_false_iff, ?negb_true_iff, ?andb_false_iff,
    ?Z.leb_le, ?Z.leb_gt, ?Z.eqb_eq, ?Z.eqb_neq in *.

Ltac div64 := Z.div_mod_to_equations; lia.

Lemma between_false lo hi c : c < lo ∨ hi < c → between lo hi c = false.
Proof. unfold between. rewrite andb_false_iff, !Z.leb_gt. lia. Qed.

Lemma between_true lo hi c : lo ≤ c ≤ hi → between lo hi c = true.
Proof. unfold between. rewrite andb_true_iff, !Z.leb_le. lia. Qed.

Lemma decode_encode c r : is_char c = true → from_utf8 (encode_char c ++ r) = cons c <$> from_utf8 r.
Proof.
  intros Hc. unfold encode_char. repeat case_match; split_bools; cbn [app from_utf8].
  - rewrite between_true; [done|]. reflect_bytes. lia.
  - rewrite between_false by div64. unfold cont. rewrite (between_true 0xC2), (between_true 0x80) by div64. cbn [andb].
    do 2 f_equal. div64.
  - rewrite between_false by div64. rewrite (between_false 0xC2) by div64. cbn [andb].
    assert (lead3 (0xE0 + c / 4096) (0x80 + (c / 64) mod 64) = true) as ->.
    { reflect_bytes. div64. }
    unfold cont. rewrite between_true by div64. cbn [andb]. do 2 f_equal. div64.
  - assert (c ≤ 0x10FFFF) as Hmax by (reflect_bytes; lia).
    rewrite between_false by div64. rewrite (between_false 0xC2) by div64. cbn [andb].
    assert (lead3 (0xF0 + c / 262144) (0x80 + (c / 4096) mod 64) = false) as ->.
    { clear Hc. unfold lead3. set (b0 := 0xF0 + c / 262144). assert (0xF0 ≤ b0) by (subst b0; div64).
      rewrite (between_false 0xE1 0xEC b0), (between_false 0xEE 0xEF b0) by lia.
      rewrite (proj2 (Z.eqb_neq b0 0xE0)), (proj2 (Z.eqb_neq b0 0xED)) by lia. done. }
    assert (lead4 (0xF0 + c / 262144) (0x80 + (c / 4096) mod 64) = true) as ->.
    { clear Hc. reflect_bytes. div64. }
    unfold cont. rewrite (between_true 0x80 0xBF (0x80 + (c / 64) mod 64)), (between_true 0x80 0xBF (0x80 + c mod 64)) by div64. cbn [andb]. do 2 f_equal.
    replace (c / 262144) with (c / 64 / 64 / 64) by (rewrite !Z.div_div by lia; done).
    replace (c / 4096) with (c / 64 / 64) by (rewrite !Z.div_div by lia; done). div64.
Qed.

(** Reading back what was written. *)
Lemma from_utf8_as_bytes s : Forall (λ c, is_char c = true) s → from_utf8 (as_bytes s) = Some s.
Proof.
  unfold as_bytes. induction 1 as [|c s Hc Hs IH]; [done|]. cbn [flat_map].
  by rewrite decode_encode, IH.
Qed.

Lemma encode_unfold2 b0 b1 : between 0xC2 0xDF b0 = true → cont b1 = true →
  let c := (b0 - 0xC0) * 64 + (b1 - 0x80) in encode_char c = [b0; b1] ∧ is_char c = true.
Proof.
  intros H0 H1 c. subst c. reflect_bytes. unfold encode_char.
  rewrite (proj2 (Z.ltb_ge _ 0x80)), (proj2 (Z.ltb_lt _ 0x800)) by lia.
  split; [|lia]. f_equal; [div64|]. f_equal. div64.
Qed.

Lemma encode_unfold3 b0 b1 b2 : lead3 b0 b1 = true → cont b2 = true →
  let c := (b0 - 0xE0) * 4096 + (b1 - 0x80) * 64 + (b2 - 0x80) in
  encode_char c = [b0; b1; b2] ∧ is_char c = true.
Proof.
  intros H0 H1 c. subst c. reflect_bytes. unfold encode_char.
  rewrite (proj2 (Z.ltb_ge _ 0x80)), (proj2 (Z.ltb_ge _ 0x800)), (proj2 (Z.ltb_lt _ 0x10000)) by lia.
  split; [|lia]. f_equal; [div64|]. f_equal; [div64|]. f_equal. div64.
Qed.

Lemma encode_unfold4 b0 b1 b2 b3 : lead4 b0 b1 = true → cont b2 = true → cont b3 = true →
  let c := (b0 - 0xF0) * 262144 + (b1 - 0x80) * 4096 + (b2 - 0x80) * 64 + (b3 - 0x80) in
  encode_char c = [b0; b1; b2; b3] ∧ is_char c = true.
Proof.
  intros H0 H1 H2 c. subst c. reflect_bytes. unfold encode_char.
  rewrite (proj2 (Z.ltb_ge _ 0x80)), (proj2 (Z.ltb_ge _ 0x800)), (proj2 (Z.ltb_ge _ 0x10000)) by lia.
  split; [|lia]. f_equal; [div64|]. f_equal; [div64|]. f_equal; [div64|]. f_equal. div64.
Qed.

Lemma encode_unfold1 b : between 0 0x7F b = true → encode_char b = [b] ∧ is_char b = true.
Proof. intros H. unfold encode_char. reflect_bytes. rewrite (proj2 (Z.ltb_lt b 0x80)) by lia. split; [done|lia]. Qed.

(** What is accepted is exactly an encoding of scalar values. *)
Lemma from_utf8_sound bs s : from_utf8 bs = Some s → as_bytes s = bs ∧ Forall (λ c, is_char c = true) s.
Proof.
  revert bs s. assert (∀ k e r c s, from_utf8 r = Some s → encode_char c = e ∧ is_char c = true →
    (∀ bs s, (length bs < k)%nat → from_utf8 bs = Some s → as_bytes s = bs ∧ Forall (λ c, is_char c = true) s) →
    (length r < k)%nat → as_bytes (c :: s) = e ++ r ∧ Forall (λ c, is_char c = true) (c :: s)) as step.
  { intros k e r c s Hr [<- Hc] IH Hk. apply IH in Hr as [<- Hs]; [|done]. split; [done|by constructor]. }
  cut (∀ k bs s, (length bs < k)%nat → from_utf8 bs = Some s → as_bytes s = bs ∧ Forall (λ c, is_char c = true) s).
  { intros H bs s. apply (H (S (length bs))). lia. }
  induction k as [|k IH]; intros bs s Hk H; [lia|].
  destruct bs as [|b0 r0]; cbn [from_utf8] in H; [simplify_eq; by split|]. cbn [length] in Hk.
  destruct (between 0 0x7F b0) eqn:E0.
  { apply fmap_Some in H as (s' & H & ->). apply (step k [b0] r0); eauto using encode_unfold1; lia. }
  destruct r0 as [|b1 r1]; [done|]. cbn [length] in Hk.
  destruct (between 0xC2 0xDF b0 && cont b1) eqn:E1.
  { apply andb_true_iff in E1 as [??]. apply fmap_Some in H as (s' & H & ->).
    apply (step k [b0; b1] r1); eauto using encode_unfold2; lia. }
  destruct r1 as [|b2 r2]; [done|]. cbn [length] in Hk.
  destruct (lead3 b0 b1 && cont b2) eqn:E2.
  { apply andb_true_iff in E2 as [??]. apply fmap_Some in H as (s' & H & ->).
    apply (step k [b0; b1; b2] r2); eauto using encode_unfold3; lia. }
  destruct r2 as [|b3 r3]; [done|]. cbn [length] in Hk.
  destruct (lead4 b0 b1 && cont b2 && cont b3) eqn:E3; [|done].
  apply andb_true_iff in E3 as [[??]%andb_true_iff ?]. apply fmap_Some in H as (s' & H & ->).
  apply (step k [b0; b1; b2; b3] r3); eauto using encode_unfold4; lia.
Qed.
