(* ===== verification/Editor.v ===== *)
(** The remote text editor's codec ([nexus-sftp/src/editor.rs]): what a file's
    bytes become in the editor and what saving writes back. *)

From S2P Require Import Prelude Str Model Utf8 RemotePath.

Definition MAX_REMOTE_EDITOR_BYTES : Z := 1024 * 1024.

Inductive TextNewline := Lf | CrLf.
#[export] Instance TextNewline_eq_dec : EqDecision TextNewline.
Proof. solve_decision. Defined.

Definition BOM : list Z := [0xEF; 0xBB; 0xBF].
Definition crlf : str := [13; 10].

Definition decode_text (bytes : list Z) : Res (str * TextNewline * bool) :=
  _ ← ensure (MAX_REMOTE_EDITOR_BYTES <? zlen bytes)
        (policy "The remote text file exceeds the 1 MiB editor limit.");
  let bom := starts_with BOM bytes in
  let body := if bom then drop 3 bytes else bytes in
  original ← ok_or (from_utf8 body) (policy "The remote file is not valid UTF-8 text.");
  _ ← ensure (contains_char 0 original) (policy "NUL bytes are not supported by the text editor.");
  let has_crlf := contains_str crlf original in
  let without_crlf := replace crlf [] original in
  _ ← ensure (contains_char 13 without_crlf || (has_crlf && contains_char 10 without_crlf))
        (policy "Mixed or unsupported newline conventions cannot be edited safely.");
  let newline := if has_crlf then CrLf else Lf in
  let text := if has_crlf then replace crlf [10] original else original in
  Ok (text, newline, bom).

Definition encode_text (text : str) (newline : TextNewline) (bom : bool) : Res (list Z) :=
  let extra := if bom then 3 else 0 in
  _ ← ensure (MAX_REMOTE_EDITOR_BYTES <? len text + extra)
        (policy "The edited text exceeds the 1 MiB editor limit.");
  _ ← ensure (contains_char 0 text || contains_char 13 text)
        (policy "The editor accepts LF-normalized UTF-8 text without NUL bytes.");
  let body := match newline with Lf => text | CrLf => replace [10] crlf text end in
  let size := len body + extra in
  _ ← ensure (MAX_REMOTE_EDITOR_BYTES <? size) (policy "The edited text exceeds the 1 MiB editor limit.");
  Ok ((if bom then BOM else []) ++ as_bytes body).

(** ** Line endings *)

Section Newlines.
Implicit Types (s t r : str).

Lemma crlf_ind (P : str → Prop) :
  P [] → (∀ s, P s → P (13 :: 10 :: s)) →
  (∀ c s, starts_with crlf (c :: s) = false → P s → P (c :: s)) → ∀ s, P s.
Proof.
  intros H0 Hhit Hmiss. cut (∀ k s, (length s < k)%nat → P s); [eauto|].
  induction k as [|k IH]; intros s Hk; [lia|]. destruct s as [|c s]; [done|].
  destruct (starts_with crlf (c :: s)) eqn:E.
  - apply starts_with_true in E as [r [= -> ->]]. apply Hhit, IH. cbn in Hk. lia.
  - apply Hmiss, IH; [done|]. cbn in Hk. lia.
Qed.

Lemma replace_hit r s : replace crlf r (13 :: 10 :: s) = r ++ replace crlf r s.
Proof. reflexivity. Qed.

Lemma replace_miss r c s : starts_with crlf (c :: s) = false → replace crlf r (c :: s) = c :: replace crlf r s.
Proof. unfold replace. cbn [replace_go]. by intros ->. Qed.

Lemma contains_hit s : contains_str crlf (13 :: 10 :: s) = true.
Proof. reflexivity. Qed.

Lemma contains_miss c s : starts_with crlf (c :: s) = false → contains_str crlf (c :: s) = contains_str crlf s.
Proof. unfold contains_str, matches_count. cbn [matches_go]. by intros ->. Qed.

Lemma no_cr_miss c s : c ≠ 13 → starts_with crlf (c :: s) = false.
Proof. intros H. unfold crlf. cbn [starts_with]. by rewrite (proj2 (Z.eqb_neq 13 c)). Qed.

Lemma replace_lf t c : replace [10] crlf (c :: t) = (if c =? 10 then crlf else [c]) ++ replace [10] crlf t.
Proof. unfold replace. cbn [replace_go starts_with]. rewrite andb_true_r, Z.eqb_sym. by case_match. Qed.

(** Reading a CRLF text and writing it back. *)
Lemma crlf_restore s :
  13 ∉ replace crlf [] s → 10 ∉ replace crlf [] s →
  replace [10] crlf (replace crlf [10] s) = s ∧ 13 ∉ replace crlf [10] s.
Proof.
  revert s. refine (crlf_ind _ _ _ _).
  - intros _ _. split; [done|]. apply not_elem_of_nil.
  - intros s IH. rewrite !replace_hit. cbn [app]. intros H1 H2. destruct (IH H1 H2) as [E H].
    rewrite replace_lf. cbn [Z.eqb Pos.eqb]. rewrite E. split; [done|]. set_solver.
  - intros c s Hm IH. rewrite !replace_miss by done. intros H1 H2.
    apply not_elem_of_cons in H1 as [H1 H1']. apply not_elem_of_cons in H2 as [H2 H2'].
    destruct (IH H1' H2') as [E H]. rewrite replace_lf, (proj2 (Z.eqb_neq c 10)) by done. rewrite E.
    split; [done|]. by apply not_elem_of_cons.
Qed.

Lemma no_cr_id r s : 13 ∉ s → replace crlf r s = s ∧ contains_str crlf s = false.
Proof.
  induction s as [|c s IH]; [done|]. intros [H1 H2]%not_elem_of_cons.
  rewrite replace_miss, contains_miss by (apply no_cr_miss; done). destruct (IH H2) as [-> ->]. done.
Qed.

(** Writing an LF text as CRLF and reading it back. *)
Lemma crlf_reread t : 13 ∉ t →
  let s := replace [10] crlf t in
  replace crlf [10] s = t ∧ 13 ∉ replace crlf [] s ∧ 10 ∉ replace crlf [] s ∧
  contains_str crlf s = contains_char 10 t.
Proof.
  induction t as [|c t IH]; [intros _; repeat split; by apply not_elem_of_nil|].
  intros [H1 H2]%not_elem_of_cons. destruct (IH H2) as (E & A & B & C). rewrite replace_lf. cbn zeta.
  unfold contains_char. cbn [existsb]. rewrite (Z.eqb_sym 10). destruct (c =? 10) eqn:Ec.
  - apply Z.eqb_eq in Ec as ->. set (u := replace [10] crlf t) in *.
    change (crlf ++ u) with (13 :: 10 :: u).
    rewrite !replace_hit, E, contains_hit. cbn [app]. done.
  - apply Z.eqb_neq in Ec. cbn [app].
    rewrite !replace_miss, contains_miss, E, C by (apply no_cr_miss; done).
    split; [done|]. split; [by apply not_elem_of_cons|]. split; [by apply not_elem_of_cons|]. done.
Qed.

Lemma replace_crlf_len s : len (replace crlf [10] s) ≤ len s.
Proof.
  revert s. refine (crlf_ind _ _ _ _); [done| |].
  - intros s IH. rewrite replace_hit. cbn [app len]. change (utf8_width 13) with 1. lia.
  - intros c s Hm IH. rewrite replace_miss by done. cbn [len]. lia.
Qed.

Lemma replace_crlf_elem s x : x ∈ replace crlf [10] s → x ∈ s.
Proof.
  revert s. refine (crlf_ind _ _ _ _); [done| |].
  - intros s IH. rewrite replace_hit. set_solver.
  - intros c s Hm IH. rewrite replace_miss by done. set_solver.
Qed.

Lemma replace_lf_chars t :
  Forall (λ c, is_char c = true) t → Forall (λ c, is_char c = true) (replace [10] crlf t).
Proof.
  induction 1 as [|c t Hc Ht IH]; [constructor|]. rewrite replace_lf. apply Forall_app. split; [|done].
  case_match; [|by constructor]. by repeat (constructor; [reflexivity|]).
Qed.

Lemma replace_lf_nul t : 0 ∉ t → 0 ∉ replace [10] crlf t.
Proof.
  induction t as [|c t IH]; [done|]. intros [H1 H2]%not_elem_of_cons. rewrite replace_lf, not_elem_of_app.
  split; [|auto]. case_match; unfold crlf; set_solver.
Qed.
End Newlines.

(** The byte-order mark is the encoding of U+FEFF. *)
Lemma bom_utf8 r : from_utf8 (BOM ++ r) = cons 0xFEFF <$> from_utf8 r.
Proof. reflexivity. Qed.

(** ** Round trips *)

(** The accepted texts, before the byte-order mark is put back. *)
Definition editable (original : str) : Prop :=
  0 ∉ original ∧ 13 ∉ replace crlf [] original ∧
  (contains_str crlf original = true → 10 ∉ replace crlf [] original).

Lemma decode_text_inv bytes text nl bom :
  decode_text bytes = Ok (text, nl, bom) →
  ∃ original, bytes = (if bom then BOM else []) ++ as_bytes original ∧ editable original ∧
    zlen bytes ≤ MAX_REMOTE_EDITOR_BYTES ∧ Forall (λ c, is_char c = true) original ∧
    nl = (if contains_str crlf original then CrLf else Lf) ∧
    text = (if contains_str crlf original then replace crlf [10] original else original).
Proof.
  unfold decode_text. remember (starts_with BOM bytes) as b eqn:E. symmetry in E.
  rewrite bind_ok. intros (_ & Hl%ensure_ok & H). apply bind_ok in H as (original & Hu%ok_or_ok & H). apply bind_ok in H as (_ & H0%ensure_ok & H).
  apply bind_ok in H as (_ & Hm%ensure_ok & [= <- <- <-]).
  apply from_utf8_sound in Hu as [Hb Hch]. apply Z.ltb_ge in Hl.
  apply orb_false_iff in Hm as [Hm1 Hm2]. exists original.
  split; [|split; [|by split]].
  - rewrite Hb. destruct b; [|done]. apply starts_with_true in E as [r ->]. done.
  - split; [by apply contains_char_false|]. split; [by apply contains_char_false|].
    intros Hc. rewrite Hc in Hm2. by apply contains_char_false.
Qed.

(** What saving the text of an accepted file writes. *)
Lemma editable_restore original : editable original →
  let text := if contains_str crlf original then replace crlf [10] original else original in
  0 ∉ text ∧ 13 ∉ text ∧ len text ≤ len original ∧
  match (if contains_str crlf original then CrLf else Lf) with
  | Lf => text | CrLf => replace [10] crlf text end = original.
Proof.
  intros (H0 & H13 & H10). destruct (contains_str crlf original) eqn:E; cbn zeta.
  - destruct (crlf_restore original H13 (H10 eq_refl)) as [Hr Hc].
    split; [by intros ?%replace_crlf_elem|]. auto using replace_crlf_len.
  - split; [done|]. split; [|by split].
    revert original E H0 H13 H10. refine (crlf_ind _ _ _ _).
    + intros _ _ _ _. apply not_elem_of_nil.
    + intros s _ E. by rewrite contains_hit in E.
    + intros c s Hm IH. rewrite contains_miss, replace_miss by done. intros E.
      rewrite !not_elem_of_cons. naive_solver.
Qed.

(** [C39] Opening a remote file and saving it unchanged writes the same bytes:
    byte-order mark, line endings and every character are restored. *)
Theorem editor_save_is_identity bytes text nl bom :
  decode_text bytes = Ok (text, nl, bom) → encode_text text nl bom = Ok bytes.
Proof.
  intros H. apply decode_text_inv in H as (original & Hb & He & Hl & _ & -> & ->).
  destruct (editable_restore _ He) as (H0 & H13 & Hlen & Hbody).
  assert (len original + (if bom then 3 else 0) ≤ MAX_REMOTE_EDITOR_BYTES) as Hsize.
  { rewrite <-as_bytes_length. subst bytes. rewrite length_app in Hl. destruct bom; cbn [BOM length] in Hl; lia. }
  unfold encode_text. set (t := if contains_str crlf original then _ else _) in *. cbn zeta in *. rewrite Hbody.
  set (extra := if bom then 3 else 0) in *.
  rewrite (proj2 (Z.ltb_ge MAX_REMOTE_EDITOR_BYTES (len t + extra))) by lia.
  rewrite (proj2 (Z.ltb_ge MAX_REMOTE_EDITOR_BYTES (len original + extra))) by lia.
  rewrite (proj2 (contains_char_false _ _) H0), (proj2 (contains_char_false _ _) H13).
  by rewrite Hb.
Qed.

Definition ex_file : list Z := BOM ++ as_bytes (lit "a" ++ crlf ++ [0x044F] ++ crlf).

Lemma editor_save_is_identity_witness :
  decode_text ex_file = Ok ([97; 10; 0x044F; 10], CrLf, true) ∧
  encode_text [97; 10; 0x044F; 10] CrLf true = Ok ex_file.
Proof.
  split; [vm_compute; reflexivity|]. apply editor_save_is_identity. vm_compute; reflexivity.
Defined.

(** What [decode_text] does with the bytes of an editable text. *)
Lemma decode_text_fwd (bom : bool) original :
  editable original → Forall (λ c, is_char c = true) original →
  len original + (if bom then 3 else 0) ≤ MAX_REMOTE_EDITOR_BYTES →
  (bom = false → hd 0 original ≠ 0xFEFF) →
  decode_text ((if bom then BOM else []) ++ as_bytes original) =
  Ok (if contains_str crlf original then replace crlf [10] original else original,
      if contains_str crlf original then CrLf else Lf, bom).
Proof.
  intros (H0 & H13 & H10) Hc Hl Hb. unfold decode_text.
  rewrite (proj2 (Z.ltb_ge MAX_REMOTE_EDITOR_BYTES _)).
  2: { rewrite length_app, Nat2Z.inj_add, as_bytes_length. destruct bom; cbn [BOM length]; lia. }
  assert (starts_with BOM ((if bom then BOM else []) ++ as_bytes original) = bom) as ->.
  { destruct bom; [by apply starts_with_true; eexists|]. cbn [app].
    destruct (starts_with BOM (as_bytes original)) eqn:E; [|done].
    apply starts_with_true in E as [r E]. pose proof (from_utf8_as_bytes _ Hc) as Hd.
    rewrite E, bom_utf8 in Hd. apply fmap_Some in Hd as (s & _ & ->). by destruct (Hb eq_refl). }
  assert ((if bom then drop 3 ((if bom then BOM else []) ++ as_bytes original)
           else (if bom then BOM else []) ++ as_bytes original) = as_bytes original) as -> by (by destruct bom).
  cbn [mbind result_bind ensure]. rewrite (from_utf8_as_bytes _ Hc). cbn [mbind result_bind ok_or].
  rewrite (proj2 (contains_char_false _ _) H0), (proj2 (contains_char_false _ _) H13). cbn [mbind result_bind ensure orb].
  assert (contains_str crlf original && contains_char 10 (replace crlf [] original) = false) as ->.
  { destruct (contains_str crlf original); [|done]. by apply contains_char_false, H10. }
  done.
Qed.

(** What the editor saves is what it opens next time: the same text, the
    same line endings and the same mark, for every text that has a line to
    carry its convention ([Lf] needs none) and does not itself begin with
    U+FEFF when saved without a mark. *)
Theorem editor_reopen text nl (bom : bool) bytes :
  encode_text text nl bom = Ok bytes →
  Forall (λ c, is_char c = true) text →
  (nl = CrLf → 10 ∈ text) → (bom = false → hd 0 text ≠ 0xFEFF) →
  decode_text bytes = Ok (text, nl, bom).
Proof.
  unfold encode_text. rewrite bind_ok. intros (_ & Hl%ensure_ok & H) Hc Hnl Hbom.
  apply bind_ok in H as (_ & H0%ensure_ok & H). apply bind_ok in H as (_ & Hs%ensure_ok & [= <-]).
  apply Z.ltb_ge in Hl, Hs. apply orb_false_iff in H0 as [H0%contains_char_false H13%contains_char_false].
  destruct nl.
  - destruct (no_cr_id [] text H13) as [Hi Hn]. rewrite decode_text_fwd; [by rewrite Hn| |done|done|done].
    unfold editable. rewrite Hi, Hn. done.
  - destruct (crlf_reread text H13) as (Ht & A & B & C).
    rewrite (proj2 (contains_char_true 10 text)) in C by auto.
    rewrite decode_text_fwd; [by rewrite C, Ht| |by apply replace_lf_chars|done|].
    + split; [by apply replace_lf_nul|]. by split.
    + intros Hb. specialize (Hbom Hb). destruct text as [|c t]; [done|]. rewrite replace_lf.
      cbn [hd] in Hbom. destruct (c =? 10); [discriminate|exact Hbom].
Qed.

Lemma editor_reopen_witness :
  encode_text [97; 10; 0x1F600; 10] CrLf false = Ok [97; 13; 10; 0xF0; 0x9F; 0x98; 0x80; 13; 10] ∧
  decode_text [97; 13; 10; 0xF0; 0x9F; 0x98; 0x80; 13; 10] = Ok ([97; 10; 0x1F600; 10], CrLf, false).
Proof.
  split; [vm_compute; reflexivity|].
  apply (editor_reopen [97; 10; 0x1F600; 10] CrLf false).
  - vm_compute; reflexivity.
  - by repeat (constructor; [reflexivity|]).
  - intros _. set_solver.
  - intros _. discriminate.
Defined.
