(* ===== verification/Prog.v ===== *)
(** Effectful code as trees of calls.

    An [async fn] of the source talks to a server, the file system and shared
    tables, and anything may happen between two of its calls.  A [prog] is
    such a function: it either returns or makes one call and goes on with the
    reply.  [R] gives the type of the reply to each call.  [runs p t a] says
    that [p] may make exactly the calls of the trace [t], be given exactly its
    replies, and return [a]: a statement about all runs is a statement about
    every behaviour of the environment.  Every tree is finite, so a program
    returns after finitely many calls whatever it is told. *)

From S2P Require Import Prelude.

Inductive prog {C : Type} (R : C → Type) (A : Type) : Type :=
| Ret (a : A)
| Do (c : C) (k : R c → prog R A).
Arguments Ret {C R A} a.
Arguments Do {C R A} c k.

Inductive event {C : Type} (R : C → Type) : Type := Ev (c : C) (r : R c).
Arguments Ev {C R} c r.

Definition ev_call {C} {R : C → Type} (e : event R) : C := let 'Ev c _ := e in c.

Definition ev_reply {C} {R : C → Type} (e : event R) : R (ev_call e) := match e with Ev _ r => r end.

Fixpoint pbind {C} {R : C → Type} {A B} (p : prog R A) (f : A → prog R B) : prog R B :=
  match p with
  | Ret a => f a
  | Do c k => Do c (λ r, pbind (k r) f)
  end.

Inductive runs {C} {R : C → Type} {A} : prog R A → list (event R) → A → Prop :=
| runs_ret a : runs (Ret a) [] a
| runs_do c k r t a : runs (k r) t a → runs (Do c k) (Ev c r :: t) a.

(** One environment: a fixed reply to each call. *)
Fixpoint interp {C} {R : C → Type} {A} (answer : ∀ c, R c) (p : prog R A) : list (event R) * A :=
  match p with
  | Ret a => ([], a)
  | Do c k => let '(t, a) := interp answer (k (answer c)) in (Ev c (answer c) :: t, a)
  end.

(** One environment with a state of its own. *)
Fixpoint serve {C} {R : C → Type} {A S} (respond : ∀ c, S → R c * S) (p : prog R A) (s : S) : A * S :=
  match p with
  | Ret a => (a, s)
  | Do c k => let '(r, s') := respond c s in serve respond (k r) s'
  end.

(** A system whose steps follow the program under that environment reaches its
    end. *)
Lemma serve_rtc {C} {R : C → Type} {A S T} (respond : ∀ c, S → R c * S) (step : T → T → Prop) (f : prog R A → S → T) :
  (∀ c k s, step (f (Do c k) s) (f (k (respond c s).1) (respond c s).2)) →
  ∀ p s, rtc step (f p s) (f (Ret (serve respond p s).1) (serve respond p s).2).
Proof.
  intros Hstep p. induction p as [a|c k IH]; intros s; cbn; [apply rtc_refl|]. specialize (Hstep c k s).
  destruct (respond c s) as [r s']. eapply rtc_l; [done|]. apply IH.
Qed.

(** Fallible programs: [?] after an [.await]. *)
Definition io {C} (R : C → Type) (E A : Type) : Type := prog R (result E A).

#[export] Instance io_ret {C} (R : C → Type) E : MRet (io R E) := λ A a, Ret (Ok a).
#[export] Instance io_bind {C} (R : C → Type) E : MBind (io R E) := λ A B f m,
  pbind m (λ r, match r with Ok a => f a | Err e => Ret (Err e) end).

Definition io_fail {C} {R : C → Type} {E A} (e : E) : io R E A := Ret (Err e).
Definition io_lift {C} {R : C → Type} {E A} (r : result E A) : io R E A := Ret r.
Definition io_ensure {C} {R : C → Type} {E} (bad : bool) (e : E) : io R E unit := Ret (ensure bad e).

Declare Scope prog_scope.
Delimit Scope prog_scope with prog.
(** [let x = p.await;] without the question mark. *)
Notation "'let!' x := p 'in' k" := (pbind p (λ x, (k : io _ _ _)) : io _ _ _)
  (at level 10, x name, p at level 100, k at level 200) : prog_scope.
#[global] Open Scope prog_scope.

(** ** All runs at once

    [wp p t Q]: whatever the environment replies, [p] started after the calls
    [t] returns a value [a] and leaves a trace [t'] with [Q t' a]. *)
Fixpoint wp {C} {R : C → Type} {A} (p : prog R A) (t : list (event R)) (Q : list (event R) → A → Prop) : Prop :=
  match p with
  | Ret a => Q t a
  | Do c k => ∀ r, wp (k r) (t ++ [Ev c r]) Q
  end.

Section Laws.
Context {C : Type} {R : C → Type}.

Lemma wp_runs {A} (p : prog R A) t0 t a Q : wp p t0 Q → runs p t a → Q (t0 ++ t) a.
Proof.
  intros Hwp Hr. revert t0 Hwp. induction Hr as [a|c k r t a Hr IH]; intros t0 Hwp; cbn in Hwp.
  - by rewrite app_nil_r.
  - specialize (IH _ (Hwp r)). by rewrite <-app_assoc in IH.
Qed.

Lemma wp_mono {A} (p : prog R A) t (Q Q' : list (event R) → A → Prop) :
  (∀ t a, Q t a → Q' t a) → wp p t Q → wp p t Q'.
Proof. intros H. revert t. induction p as [a|c k IH]; intros t; cbn; eauto. Qed.

Lemma wp_bind {A B} (p : prog R A) (f : A → prog R B) t Q :
  wp (pbind p f) t Q ↔ wp p t (λ t a, wp (f a) t Q).
Proof.
  revert t. induction p as [a|c k IH]; intros t; cbn; [done|].
  split; intros H r; by apply IH.
Qed.

Lemma wp_and {A} (p : prog R A) t (Q Q' : list (event R) → A → Prop) :
  wp p t Q → wp p t Q' → wp p t (λ t a, Q t a ∧ Q' t a).
Proof. revert t. induction p as [a|c k IH]; intros t; cbn; auto. Qed.

(** The runs are exactly what [wp] ranges over. *)
Lemma wp_all {A} (p : prog R A) t : wp p t (λ t' a, ∃ t1, runs p t1 a ∧ t' = t ++ t1).
Proof.
  revert t. induction p as [a|c k IH]; intros t; cbn.
  - exists []. split; [constructor|by rewrite app_nil_r].
  - intros r. eapply wp_mono; [|apply IH]. intros t' a (t1 & H & ->). exists (Ev c r :: t1).
    split; [by constructor|]. by rewrite <-app_assoc.
Qed.

Lemma runs_ret_inv {A} (a b : A) t : runs (Ret a : prog R A) t b → t = [] ∧ b = a.
Proof. intros H. by apply (wp_runs (Ret a) [] t b (λ t b, t = [] ∧ b = a)). Qed.

Lemma runs_do_inv {A} c (k : R c → prog R A) t a :
  runs (Do c k) t a → ∃ r t', t = Ev c r :: t' ∧ runs (k r) t' a.
Proof.
  intros H. apply (wp_runs (Do c k) [] t a (λ t a, ∃ r t', t = Ev c r :: t' ∧ runs (k r) t' a)); [|done].
  cbn. intros r. eapply wp_mono; [|apply wp_all]. intros t' b (t1 & H1 & ->). by exists r, t1.
Qed.

(** Runs of a sequence are runs of its parts. *)
Lemma runs_bind {A B} (p : prog R A) (f : A → prog R B) t b :
  runs (pbind p f) t b ↔ ∃ a t1 t2, runs p t1 a ∧ runs (f a) t2 b ∧ t = t1 ++ t2.
Proof.
  split.
  - revert t. induction p as [a|c k IH]; intros t H; cbn in H.
    + exists a, [], t. split; [constructor|done].
    + apply runs_do_inv in H as (r & t' & -> & H). apply IH in H as (a & t1 & t2 & H1 & H2 & ->).
      exists a, (Ev c r :: t1), t2. split; [by constructor|done].
  - intros (a & t1 & t2 & H1 & H2 & ->). induction H1 as [a|c k r t1 a H1 IH]; cbn; [done|].
    constructor. auto.
Qed.

Lemma runs_io_ok {E A B} (m : io R E A) (f : A → io R E B) t b :
  runs (m ≫= f : prog R _) t (Ok b) ↔
  ∃ a t1 t2, runs (m : prog R _) t1 (Ok a) ∧ runs (f a : prog R _) t2 (Ok b) ∧ t = t1 ++ t2.
Proof.
  unfold mbind, io_bind. rewrite runs_bind. split.
  - intros ([a|e] & t1 & t2 & H1 & H2 & ->); [by exists a, t1, t2|].
    apply runs_ret_inv in H2 as [_ ?]. done.
  - intros (a & t1 & t2 & H1 & H2 & ->). by exists (Ok a), t1, t2.
Qed.

(** Every program returns, whatever the replies. *)
Lemma interp_runs {A} (answer : ∀ c, R c) (p : prog R A) : runs p (interp answer p).1 (interp answer p).2.
Proof.
  induction p as [a|c k IH]; cbn; [constructor|]. specialize (IH (answer c)).
  destruct (interp answer (k (answer c))). by constructor.
Qed.

Lemma interp_runs_eq {A} (answer : ∀ c, R c) (p : prog R A) a :
  (interp answer p).2 = a → runs p (interp answer p).1 a.
Proof. intros <-. apply interp_runs. Qed.

Lemma wp_io_bind {E A B} (m : io R E A) (f : A → io R E B) t Q :
  wp (m ≫= f) t Q ↔
  wp (m : prog R (result E A)) t (λ t r, match r with Ok a => wp (f a : prog R (result E B)) t Q | Err e => Q t (Err e) end).
Proof.
  unfold mbind, io_bind. rewrite wp_bind. split; apply wp_mono; intros t' [a|e]; cbn; auto.
Qed.
End Laws.

(** Invert a successful run of a sequence, naming its first result. *)
Ltac run_ok H a Ha := apply runs_io_ok in H as (a & ? & ? & Ha & H & ->).

Lemma runs_lift {C} {R : C → Type} {E A} (r : result E A) t a :
  runs (io_lift r : prog R (result E A)) t (Ok a) → t = [] ∧ r = Ok a.
Proof. intros [-> H]%runs_ret_inv. by rewrite H. Qed.

Lemma runs_ensure {C} {R : C → Type} {E} bad (e : E) t u :
  runs (io_ensure bad e : prog R (result E unit)) t (Ok u) → t = [] ∧ bad = false.
Proof. intros [-> H]%runs_ret_inv. symmetry in H. by apply ensure_ok in H. Qed.

Lemma runs_mret {C} {R : C → Type} {E A} (a b : A) t :
  runs ((mret a : io R E A) : prog R (result E A)) t (Ok b) → t = [] ∧ b = a.
Proof. intros [-> H]%runs_ret_inv. by injection H as ->. Qed.

(** ** Programs that make only calls of a kind *)

Fixpoint only {C} {R : C → Type} {A} (P : C → bool) (p : prog R A) : Prop :=
  match p with
  | Ret _ => True
  | Do c k => P c = true ∧ ∀ r, only P (k r)
  end.

Section Only.
Context {C : Type} {R : C → Type} (P : C → bool).

Lemma only_bind {A B} (p : prog R A) (f : A → prog R B) : only P p → (∀ a, only P (f a)) → only P (pbind p f).
Proof. intros Hp Hf. induction p as [a|c k IH]; cbn in *; [done|]. destruct Hp. split; auto. Qed.

Lemma only_io_bind {E A B} (m : io R E A) (f : A → io R E B) :
  only P (m : prog R _) → (∀ a, only P (f a : prog R _)) → only P (m ≫= f : prog R _).
Proof. intros Hm Hf. apply only_bind; [done|]. intros [a|e]; cbn; auto. Qed.

Lemma only_runs {A} (p : prog R A) t a : only P p → runs p t a → Forall (λ e, P (ev_call e) = true) t.
Proof. intros Hp Hr. induction Hr as [a|c k r t a Hr IH]; cbn in Hp; [constructor|]. destruct Hp. constructor; auto. Qed.
End Only.
