(* ===== verification/Interp.v ===== *)
(** Loops, environments and layers for the programs of [Prog].

    A loop of the source has no bound of its own, so [loop] is given fuel and
    goes to [spin] when it runs out: a program whose call never returns, which
    has no completed run.  The completed runs of [loop] are exactly the finite
    iterations of its body ([loop_iterates], [iterates_loop]), and [steps]
    reaches every intermediate point of a program, so that termination is the
    statement that [spin] is not reached.  [simulate] runs a program against
    an environment with a state of its own; [layer] replaces each call of a
    program by a program over the calls of the layer below. *)

From S2P Require Import Prelude Prog.

Section Loops.
Context {C : Type} {R : C → Type} (spin : ∀ A, prog R A).

Fixpoint loop {S A} (fuel : nat) (body : S → prog R (S + A)) (s : S) : prog R A :=
  match fuel with
  | O => spin A
  | S k => pbind (body s) (λ x, match x with inl s' => loop k body s' | inr a => Ret a end)
  end.

(** What the loop does, without a bound. *)
Inductive iterates {S A} (body : S → prog R (S + A)) : S → list (event R) → A → Prop :=
| it_stop s t a : runs (body s) t (inr a) → iterates body s t a
| it_next s s' t1 t2 a : runs (body s) t1 (inl s') → iterates body s' t2 a → iterates body s (t1 ++ t2) a.

(** [spin] never completes. *)
Definition never : Prop := ∀ A t (a : A), runs (spin A) t a → False.

Lemma loop_iterates {S A} (H : never) fuel (body : S → prog R (S + A)) s t a :
  runs (loop fuel body s) t a → iterates body s t a.
Proof.
  revert s t. induction fuel as [|k IH]; intros s t Hr; cbn in Hr; [by apply H in Hr|].
  apply runs_bind in Hr as ([s'|b] & t1 & t2 & H1 & H2 & ->).
  - eapply it_next; eauto.
  - apply runs_ret_inv in H2 as [-> ->]. rewrite app_nil_r. by apply it_stop.
Qed.

Lemma iterates_loop {S A} (body : S → prog R (S + A)) s t a :
  iterates body s t a → ∃ n, ∀ fuel, (n ≤ fuel)%nat → runs (loop fuel body s) t a.
Proof.
  induction 1 as [s t a H|s s' t1 t2 a H _ [n IH]].
  - exists 1%nat. intros [|k] ?; [lia|]. cbn. apply runs_bind. exists (inr a), t, [].
    split; [done|]. split; [constructor|by rewrite app_nil_r].
  - exists (Datatypes.S n). intros [|k] ?; [lia|]. cbn. apply runs_bind. exists (inl s'), t1, t2.
    split; [done|]. split; [apply IH; lia|done].
Qed.

(** Partial correctness by an invariant of the state and of what was done. *)
Lemma wp_loop {S A} (I : list (event R) → S → Prop) (Q : list (event R) → A → Prop) (body : S → prog R (S + A)) :
  (∀ t, wp (spin A) t Q) →
  (∀ t s, I t s → wp (body s) t (λ t' x, match x with inl s' => I t' s' | inr a => Q t' a end)) →
  ∀ fuel t s, I t s → wp (loop fuel body s) t Q.
Proof.
  intros Hs Hb. induction fuel as [|k IH]; intros t s HI; cbn [loop]; [apply Hs|].
  rewrite wp_bind. eapply wp_mono; [|by apply Hb]. intros t' [s'|a]; [apply IH|done].
Qed.
End Loops.

(** ** Total correctness under an assumption on the environment

    [twp E p t Q]: as long as the calls and replies so far satisfy [E], [p]
    started after [t] never reaches a [stuck] call, hence returns, and ends
    with [Q]. *)
Section Total.
Context {C : Type} {R : C → Type} (stuck : C → bool) (E : list (event R) → Prop).

Fixpoint twp {A} (p : prog R A) (t : list (event R)) (Q : list (event R) → A → Prop) : Prop :=
  match p with
  | Ret a => Q t a
  | Do c k => stuck c = false ∧ ∀ r, E (t ++ [Ev c r]) → twp (k r) (t ++ [Ev c r]) Q
  end.

Lemma twp_mono {A} (p : prog R A) t (Q Q' : list (event R) → A → Prop) :
  (∀ t a, Q t a → Q' t a) → twp p t Q → twp p t Q'.
Proof. intros H. revert t. induction p as [a|c k IH]; intros t; cbn; [auto|]. intros [? Hk]. eauto. Qed.

Lemma twp_bind {A B} (p : prog R A) (f : A → prog R B) t Q :
  twp (pbind p f) t Q ↔ twp p t (λ t a, twp (f a) t Q).
Proof.
  revert t. induction p as [a|c k IH]; intros t; cbn; [done|].
  split; intros [? H]; (split; [done|]); intros r Hr; by apply IH, H.
Qed.

Lemma twp_io_bind {Er A B} (m : io R Er A) (f : A → io R Er B) t Q :
  twp (m ≫= f) t Q ↔
  twp (m : prog R (result Er A)) t (λ t r, match r with Ok a => twp (f a : prog R (result Er B)) t Q | Err e => Q t (Err e) end).
Proof. unfold mbind, io_bind. rewrite twp_bind. split; apply twp_mono; intros t' [a|e]; cbn; auto. Qed.

(** The completed runs satisfy it, when the assumption holds at every point
    of the run. *)
Lemma twp_runs {A} (p : prog R A) t0 t a Q :
  (∀ t1 t2, E (t1 ++ t2) → E t1) → twp p t0 Q → runs p t a → E (t0 ++ t) → Q (t0 ++ t) a.
Proof.
  intros Hpre Hwp Hr. revert t0 Hwp. induction Hr as [a|c k r t a Hr IH]; intros t0 Hwp HE; cbn in Hwp.
  - by rewrite app_nil_r.
  - destruct Hwp as [_ Hwp]. assert (E (t0 ++ [Ev c r])) as Hc.
    { apply Hpre with t. by rewrite <-app_assoc. }
    specialize (IH _ (Hwp r Hc)). rewrite <-app_assoc in IH. by apply IH.
Qed.

(** Termination and partial correctness together. *)
Lemma twp_wp {A} (p : prog R A) t (Q : list (event R) → A → Prop) :
  twp p t (λ _ _, True) → wp p t Q → twp p t Q.
Proof. revert t. induction p as [a|c k IH]; intros t; cbn; [done|]. intros [? H1] H2. split; [done|]. eauto. Qed.

(** A loop whose measure drops in every round needs no more fuel than it. *)
Lemma twp_loop {S A} (spin : ∀ A, prog R A) (I : list (event R) → S → nat → Prop) (body : S → prog R (S + A)) Q :
  (∀ t s n, I t s n →
     twp (body s) t (λ t' x, match x with inl s' => ∃ m, (m < n)%nat ∧ I t' s' m | inr a => Q t' a end)) →
  ∀ fuel n t s, (n < fuel)%nat → I t s n → twp (loop spin fuel body s) t Q.
Proof.
  intros Hb. induction fuel as [|k IH]; intros n t s Hlt HI; [lia|]. cbn [loop]. rewrite twp_bind.
  eapply twp_mono; [|by apply Hb]. intros t' [s'|a]; [|done]. intros (m & Hm & HI'). apply (IH m); [lia|done].
Qed.
End Total.

(** ** Environments with a state *)

Fixpoint simulate {C S} {R : C → Type} {A} (env : S → ∀ c, option (R c * S)) (s : S) (p : prog R A)
    : option (list (event R) * S * A) :=
  match p with
  | Ret a => Some ([], s, a)
  | Do c k =>
      match env s c with
      | Some (r, s') =>
          match simulate env s' (k r) with
          | Some (t, s'', a) => Some (Ev c r :: t, s'', a)
          | None => None
          end
      | None => None
      end
  end.

Lemma simulate_runs {C S} {R : C → Type} {A} (env : S → ∀ c, option (R c * S)) s (p : prog R A) t s' a :
  simulate env s p = Some (t, s', a) → runs p t a.
Proof.
  revert s t. induction p as [b|c k IH]; intros s t; cbn.
  - intros [= <- <- <-]. constructor.
  - destruct (env s c) as [[r s1]|]; [|done]. destruct (simulate env s1 (k r)) as [[[t1 s2] b]|] eqn:E; [|done].
    intros [= <- <- <-]. constructor. by eapply IH.
Qed.

(** ** Layers *)

Section Layers.
Context {C D : Type} {R : C → Type} {T : D → Type} (h : ∀ c, prog T (R c)).

Fixpoint layer {A} (p : prog R A) : prog T A :=
  match p with
  | Ret a => Ret a
  | Do c k => pbind (h c) (λ r, layer (k r))
  end.

(** A trace of the layer below, cut into the runs of the calls above. *)
Inductive implements : list (event R) → list (event T) → Prop :=
| impl_nil : implements [] []
| impl_cons c r t1 up t2 : runs (h c) t1 r → implements up t2 → implements (Ev c r :: up) (t1 ++ t2).

(** The program over the lower layer does what the program above does, with
    each call carried out by its implementation. *)
Theorem runs_layer {A} (p : prog R A) t a :
  runs (layer p) t a ↔ ∃ up, runs p up a ∧ implements up t.
Proof.
  split.
  - revert t. induction p as [b|c k IH]; intros t H; cbn in H.
    + apply runs_ret_inv in H as [-> ->]. exists []. split; constructor.
    + apply runs_bind in H as (r & t1 & t2 & H1 & H2 & ->). apply IH in H2 as (up & Hu & Hi).
      exists (Ev c r :: up). split; by constructor.
  - intros (up & Hr & Hi). revert t Hi. induction Hr as [b|c k r up a Hr IH]; intros t Hi.
    + inversion Hi; subst. constructor.
    + cbn. remember (Ev c r :: up) as l eqn:El. destruct Hi as [|c' r' t1 up' t2 H1 H2]; [done|].
      apply (inj2 cons) in El as [Ee ->]. apply runs_bind.
      assert (∃ r0, runs (h c) t1 r0 ∧ r0 = r) as (r0 & H0 & ->).
      { revert H1. change (runs (h (ev_call (Ev c' r'))) t1 (ev_reply (Ev c' r')) → ∃ r0, runs (h c) t1 r0 ∧ r0 = r).
        rewrite Ee. intros H. by exists r. }
      exists r, t1, t2. split; [done|]. split; [by apply IH|done].
Qed.

Lemma implements_app up1 up2 t :
  implements (up1 ++ up2) t ↔ ∃ t1 t2, implements up1 t1 ∧ implements up2 t2 ∧ t = t1 ++ t2.
Proof.
  split.
  - revert t. induction up1 as [|e up IH]; intros t H; [exists [], t; split; [constructor|done]|].
    cbn in H. remember (e :: up ++ up2) as l eqn:El. destruct H as [|c r t1 l' t2 H1 H2]; [done|].
    injection El as <- ->. apply IH in H2 as (t3 & t4 & H3 & H4 & ->).
    exists (t1 ++ t3), t4. rewrite app_assoc. split; [by constructor|done].
  - intros (t1 & t2 & H1 & H2 & ->). induction H1 as [|c r t1 up t1' Hr H1 IH]; [done|].
    rewrite <-app_assoc. cbn. by constructor.
Qed.

(** Where an event of the lower layer comes from. *)
Lemma implements_elem up t e :
  implements up t → e ∈ t → ∃ up1 c r up2 t1, up = up1 ++ Ev c r :: up2 ∧ runs (h c) t1 r ∧ e ∈ t1.
Proof.
  induction 1 as [|c r t1 up t2 Hr Hi IH]; intros He; [by apply not_elem_of_nil in He|].
  apply elem_of_app in He as [He|He]; [by exists [], c, r, up, t1|].
  apply IH in He as (u1 & c' & r' & u2 & t' & -> & ? & ?). by exists (Ev c r :: u1), c', r', u2, t'.
Qed.
End Layers.
