(* ===== verification/Files.v ===== *)
(** Data of the SFTP workspace: the wire types of [nexus-model/src/sftp.rs],
    the identities of [nexus-sftp/src/client.rs] and the plans of
    [nexus-sftp/src/policy.rs]. *)

From S2P Require Import Prelude Str Model Ip Editor.

Abbreviation SftpSessionId := N (only parsing).
Abbreviation FilePlanId := N (only parsing).
Abbreviation TransferJobId := N (only parsing).
Abbreviation EditorDocumentId := N (only parsing).

Record SftpExtension := { ext_name : str; ext_version : str }.

Record SftpLimits := {
  max_packet_bytes : option str;
  max_read_bytes : option str;
  max_write_bytes : option str;
  max_open_handles : option str;
  client_chunk_bytes : str;
  listing_entry_cap : Z
}.

Record SftpSessionInfo := {
  info_id : SftpSessionId;
  info_host_id : HostId;
  info_host_session_id : HostSessionId;
  protocol_version : Z;
  extensions : list SftpExtension;
  limits : SftpLimits;
  root_path : str
}.

Inductive RemoteEntryKind := KFile | KDirectory | KSymlink | KOther | KUnknown.
#[export] Instance RemoteEntryKind_eq_dec : EqDecision RemoteEntryKind.
Proof. solve_decision. Defined.

Inductive ConflictPolicy := PSkip | PKeepBoth | PReplace.
#[export] Instance ConflictPolicy_eq_dec : EqDecision ConflictPolicy.
Proof. solve_decision. Defined.

Inductive FileOperationKind := OpUpload | OpDownload | OpCreateDirectory | OpRename | OpDelete | OpEditText.
#[export] Instance FileOperationKind_eq_dec : EqDecision FileOperationKind.
Proof. solve_decision. Defined.

Record FilePlanItem := {
  source_display : str;
  destination_display : str;
  item_size_bytes : option str
}.

(** ** What the server and the local file system say an entry is *)

Record EntryIdentity := {
  ei_kind : RemoteEntryKind;
  ei_size : option Z;
  ei_modified : option Z
}.
#[export] Instance EntryIdentity_eq_dec : EqDecision EntryIdentity.
Proof. solve_decision. Defined.

Record EditorRevision := {
  er_identity : EntryIdentity;
  raw_mode : Z;
  er_uid : Z;
  er_gid : Z
}.
#[export] Instance EditorRevision_eq_dec : EqDecision EditorRevision.
Proof. solve_decision. Defined.

Record RemoteEntry := {
  re_name : str;
  re_display_name : str;
  re_path : str;
  re_kind : RemoteEntryKind;
  re_size_bytes : option str;
  re_modified_at : option str;
  re_permissions : option str;
  re_uid : option Z;
  re_gid : option Z
}.

Record DirectoryListing := {
  dl_host_id : HostId;
  dl_host_session_id : HostSessionId;
  dl_sftp_session_id : SftpSessionId;
  dl_path : str;
  dl_entries : list RemoteEntry;
  dl_partial : bool;
  dl_entry_cap : Z
}.

(** [fs::Metadata], as far as the policy reads it. *)
Record Metadata := {
  md_is_file : bool;
  md_is_dir : bool;
  md_is_reparse : bool;
  md_len : Z;
  md_modified : option Z
}.

Record LocalObjectId := { storage_id : Z; file_id : Z }.
#[export] Instance LocalObjectId_eq_dec : EqDecision LocalObjectId.
Proof. solve_decision. Defined.

Record LocalIdentity := {
  li_size : Z;
  li_modified : option Z;
  li_object_id : LocalObjectId
}.
#[export] Instance LocalIdentity_eq_dec : EqDecision LocalIdentity.
Proof. solve_decision. Defined.

(** An open [File], named by its descriptor. *)
Abbreviation Handle := N (only parsing).

(** [std::path::Path] by its components: an optional root (with its drive
    prefix), then normal components. *)
Inductive Component := RootDir (prefix : str) | Normal (name : str).
#[export] Instance Component_eq_dec : EqDecision Component.
Proof. solve_decision. Defined.
Abbreviation Path := (list Component) (only parsing).

(** [Path::parent]: what is left when the last component is a normal one. *)
Definition path_parent (p : Path) : option Path :=
  match list.last p with
  | Some (Normal _) => Some (removelast p)
  | _ => None
  end.

(** [Path::ancestors], the path itself first. *)
Fixpoint path_ancestors (fuel : nat) (p : Path) : list Path :=
  p :: match fuel, path_parent p with
       | S k, Some q => path_ancestors k q
       | _, _ => []
       end.

(** [Path::join] with one normal component. *)
Definition path_join (p : Path) (name : str) : Path := p ++ [Normal name].

(** [Path::file_name] *)
Definition path_file_name (p : Path) : option str :=
  match list.last p with Some (Normal n) => Some n | _ => None end.

(** ** Plans *)

Record LocalItem := {
  lit_path : Path;
  lit_display_name : str;
  lit_size : Z;
  lit_identity : LocalIdentity;
  lit_handle : Handle
}.

Record LocalDirectory := {
  ld_path : Path;
  ld_display_name : str;
  ld_identity : LocalIdentity;
  ld_handle : Handle
}.

Record RemoteSource := {
  rs_path : str;
  rs_name : str;
  rs_size : option Z;
  rs_identity : EntryIdentity
}.

Inductive DestinationAction (T : Type) := ASkip | ACreateNew | AReplaceExisting (expected : T).
Arguments ASkip {T}. Arguments ACreateNew {T}. Arguments AReplaceExisting {T} expected.

Record PlannedUpload := {
  pu_source : LocalItem;
  pu_destination : str;
  pu_action : DestinationAction EntryIdentity
}.

Record PlannedDownload := {
  pd_source : RemoteSource;
  pd_destination : LocalDirectory;
  pd_file_name : str;
  pd_action : DestinationAction LocalIdentity
}.

Inductive MutationSpec :=
| MCreateDirectory (path : str)
| MRename (source destination : str) (expected_source : EntryIdentity)
| MDelete (path : str) (kind : RemoteEntryKind) (expected : EntryIdentity).

(** A digest value of SHA-256. *)
Abbreviation Digest := (list Z) (only parsing).

(** [Arc<dyn SftpClient>] is represented by the session it belongs to. *)
Abbreviation Client := SftpSessionInfo (only parsing).

Inductive PlanPayload :=
| EditorSave (client : Client) (path : str) (expected : EditorRevision) (original_digest : Digest) (bytes : list Z)
| Upload (client : Client) (policy : ConflictPolicy) (items : list PlannedUpload)
| Download (client : Client) (policy : ConflictPolicy) (items : list PlannedDownload)
| Mutation (client : Client) (spec : MutationSpec).

(** The view also shows when the plan expires, as text; the deadline itself
    is kept with the plan. *)
Record FileOperationPlan := {
  fp_id : FilePlanId;
  fp_host_id : HostId;
  fp_host_session_id : HostSessionId;
  fp_sftp_session_id : SftpSessionId;
  fp_kind : FileOperationKind;
  fp_risk : OperationRisk;
  fp_conflict_policy : option ConflictPolicy;
  fp_items : list FilePlanItem
}.

Record InternalPlan := { view : FileOperationPlan; payload : PlanPayload }.

Definition payload_client (p : PlanPayload) : Client :=
  match p with EditorSave c _ _ _ _ | Upload c _ _ | Download c _ _ | Mutation c _ => c end.

(** [supports] *)
Definition supports (info : SftpSessionInfo) (name version : str) : bool :=
  existsb (λ e, str_eqb (ext_name e) name && str_eqb (ext_version e) version) (extensions info).

(** ** Local paths *)

Lemma path_parent_join p n : path_parent (path_join p n) = Some p.
Proof. unfold path_parent, path_join. rewrite last_snoc, removelast_last. done. Qed.

Lemma path_file_name_join p n : path_file_name (path_join p n) = Some n.
Proof. unfold path_file_name, path_join. by rewrite last_snoc. Qed.

(** The limits of a session on a server without the limits extension, for
    examples. *)
Definition no_limits : SftpLimits :=
  {| max_packet_bytes := None; max_read_bytes := None; max_write_bytes := None; max_open_handles := None;
     client_chunk_bytes := lit "65536"; listing_entry_cap := 5000 |}.
Definition sample_info (id : SftpSessionId) (host : HostId) (session : HostSessionId) (exts : list SftpExtension)
    : SftpSessionInfo :=
  {| info_id := id; info_host_id := host; info_host_session_id := session; protocol_version := 3;
     extensions := exts; limits := no_limits; root_path := lit "/" |}.
