(* ===== verification/FilePlans.v ===== *)
(** The file-operation plan store ([FilePlanStore] of
    [nexus-sftp/src/policy.rs]): reviewed plans waiting for approval and the
    authority of open editor documents.

    The two tables sit behind two mutexes, always taken documents first; a
    method is a function of the store it finds, and [Instant::now()] and the
    fresh identifiers it draws are arguments.  A method holds its locks to
    its end, so one clock reading per method stands for the readings it
    makes.  The lifetime of a plan is the default one (the field is private
    and only tests set it). *)

From S2P Require Import Prelude Str Model Ip RemotePath Editor Files.

Definition PLAN_LIFETIME : Duration := from_secs (5 * 60).
Definition PLAN_CAP : Z := 100.
Definition DOCUMENT_LIFETIME : Duration := from_secs (60 * 60).

Inductive EditorDocumentUse := Ready | Planning (p : FilePlanId) | Pending (p : FilePlanId).
#[export] Instance EditorDocumentUse_eq_dec : EqDecision EditorDocumentUse.
Proof. solve_decision. Defined.

Record EditorDocumentAuthority := {
  ed_host : HostId;
  ed_host_session : HostSessionId;
  ed_sftp : SftpSessionId;
  ed_path : str;
  ed_revision : EditorRevision;
  ed_content_digest : Digest;
  ed_newline : TextNewline;
  ed_bom : bool;
  ed_expires : Instant;
  ed_use_state : EditorDocumentUse
}.

Record StoredPlan := {
  sp_plan : option InternalPlan;
  sp_expires : Instant;
  sp_editor_document : option EditorDocumentId
}.

Record PlanInsert := {
  pi_id : FilePlanId;
  pi_info : SftpSessionInfo;
  pi_kind : FileOperationKind;
  pi_risk : OperationRisk;
  pi_conflict_policy : option ConflictPolicy;
  pi_items : list FilePlanItem;
  pi_payload : PlanPayload;
  pi_editor_document : option EditorDocumentId
}.

Record FilePlanStore := {
  plans : gmap FilePlanId StoredPlan;
  documents : gmap EditorDocumentId EditorDocumentAuthority;
  plans_poisoned : bool;
  documents_poisoned : bool
}.

Definition store_default : FilePlanStore :=
  {| plans := ∅; documents := ∅; plans_poisoned := false; documents_poisoned := false |}.

Abbreviation storeM A := (st FilePlanStore AppError A) (only parsing).

Definition policy_error (m : string) : AppError := app_error FilePolicy m.

Definition with_plans (s : FilePlanStore) p : FilePlanStore :=
  {| plans := p; documents := documents s; plans_poisoned := plans_poisoned s;
     documents_poisoned := documents_poisoned s |}.
Definition with_documents (s : FilePlanStore) d : FilePlanStore :=
  {| plans := plans s; documents := d; plans_poisoned := plans_poisoned s;
     documents_poisoned := documents_poisoned s |}.

Definition lock_documents (m : string) : storeM (gmap EditorDocumentId EditorDocumentAuthority) := λ s,
  if documents_poisoned s then (Err (policy_error m), s) else (Ok (documents s), s).
Definition lock_plans (m : string) : storeM (gmap FilePlanId StoredPlan) := λ s,
  if plans_poisoned s then (Err (policy_error m), s) else (Ok (plans s), s).
Definition set_documents d : storeM unit := λ s, (Ok tt, with_documents s d).
Definition set_plans p : storeM unit := λ s, (Ok tt, with_plans s p).

Definition docs_unavailable : string := "The editor authority store is unavailable.".
Definition plans_unavailable : string := "The file plan store is unavailable.".

(** [map.retain(|_, v| keep(v))] *)
Definition retain {V} (keep : V → bool) (m : gmap N V) : gmap N V := filter (λ kv, keep kv.2 = true) m.

Definition set_use (d : EditorDocumentAuthority) (u : EditorDocumentUse) : EditorDocumentAuthority :=
  {| ed_host := ed_host d; ed_host_session := ed_host_session d; ed_sftp := ed_sftp d;
     ed_path := ed_path d; ed_revision := ed_revision d; ed_content_digest := ed_content_digest d;
     ed_newline := ed_newline d; ed_bom := ed_bom d; ed_expires := ed_expires d; ed_use_state := u |}.

Definition release_editor_reservation (now : Instant) (docs : gmap EditorDocumentId EditorDocumentAuthority)
    (document_id : EditorDocumentId) (expected : EditorDocumentUse)
    : bool * gmap EditorDocumentId EditorDocumentAuthority :=
  match docs !! document_id with
  | None => (false, docs)
  | Some document =>
      if bool_decide (ed_use_state document ≠ expected) then (false, docs)
      else if ed_expires document <=? now then (false, delete document_id docs)
      else (true, <[document_id := set_use document Ready]> docs)
  end.

Definition revoke_all : storeM unit :=
  _ ← lock_documents "File authority is unavailable.";
  _ ← set_documents ∅;
  _ ← lock_plans "File authority is unavailable.";
  set_plans ∅.

Definition doc_of_session (host : HostId) (session : HostSessionId) (d : EditorDocumentAuthority) : bool :=
  bool_decide (ed_host d = host) && bool_decide (ed_host_session d = session).
Definition plan_of_session (host : HostId) (session : HostSessionId) (p : InternalPlan) : bool :=
  bool_decide (fp_host_id (view p) = host) && bool_decide (fp_host_session_id (view p) = session).

Definition revoke_session (host : HostId) (host_session : HostSessionId) (s : FilePlanStore) : FilePlanStore :=
  let s := if documents_poisoned s then s
           else with_documents s (retain (λ d, negb (doc_of_session host host_session d)) (documents s)) in
  if plans_poisoned s then s
  else with_plans s (retain (λ p, match sp_plan p with
                                  | Some plan => negb (plan_of_session host host_session plan)
                                  | None => false
                                  end) (plans s)).

(** A document that opening [path] again replaces, or that has expired. *)
Definition retired_document (now : Instant) (info : SftpSessionInfo) (path : str)
    (d : EditorDocumentAuthority) : bool :=
  (ed_expires d <=? now)
  || bool_decide ((ed_host d, ed_host_session d, ed_sftp d, ed_path d)
                  = (info_host_id info, info_host_session_id info, info_id info, path)).

Definition retired_ids (now : Instant) (info : SftpSessionInfo) (path : str)
    (docs : gmap EditorDocumentId EditorDocumentAuthority) : list EditorDocumentId :=
  (map_to_list (filter (λ kv, retired_document now info path kv.2 = true) docs)).*1.
Definition remove_ids (ids : list EditorDocumentId) (docs : gmap EditorDocumentId EditorDocumentAuthority)
    : gmap EditorDocumentId EditorDocumentAuthority := filter (λ kv, kv.1 ∉ ids) docs.

Section Digest.
(** [Sha256::digest] of the sha2 crate. *)
Context (digest : list Z → Digest).

Definition register_editor_document (now : Instant) (id : EditorDocumentId) (info : SftpSessionInfo)
    (path : str) (revision : EditorRevision) (original_bytes : list Z) (newline : TextNewline) (bom : bool)
    : storeM EditorDocumentId :=
  _ ← st_lift (validate_remote_path path);
  docs ← lock_documents docs_unavailable;
  let retired := retired_ids now info path docs in
  let docs := remove_ids retired docs in
  _ ← set_documents docs;
  _ ← (if bool_decide (retired = []) then mret tt else
         ps ← lock_plans plans_unavailable;
         set_plans (retain (λ p, match sp_editor_document p with
                                 | Some d => negb (bool_decide (d ∈ retired))
                                 | None => true
                                 end) ps));
  _ ← st_ensure (PLAN_CAP <=? zsize docs) (policy_error "Too many editor documents are open.");
  _ ← set_documents
        (<[id := {| ed_host := info_host_id info; ed_host_session := info_host_session_id info;
                    ed_sftp := info_id info; ed_path := path; ed_revision := revision;
                    ed_content_digest := digest original_bytes; ed_newline := newline; ed_bom := bom;
                    ed_expires := now + DOCUMENT_LIFETIME; ed_use_state := Ready |}]> docs);
  mret id.

Definition discard_editor_document (id : EditorDocumentId) (host : HostId) (host_session : HostSessionId)
    (sftp : SftpSessionId) : storeM unit :=
  docs ← lock_documents docs_unavailable;
  match docs !! id with
  | None => mret tt
  | Some document =>
      _ ← st_ensure (bool_decide ((ed_host document, ed_host_session document, ed_sftp document)
                                  ≠ (host, host_session, sftp)))
            (policy_error "The editor document belongs to another SFTP session.");
      _ ← set_documents (delete id docs);
      match ed_use_state document with
      | Pending plan_id =>
          ps ← lock_plans plans_unavailable;
          set_plans (match ps !! plan_id with
                     | Some stored => if bool_decide (sp_editor_document stored = Some id)
                                      then delete plan_id ps else ps
                     | None => ps
                     end)
      | _ => mret tt
      end
  end.

Definition insert_with_id (now : Instant) (request : PlanInsert) : storeM FileOperationPlan :=
  let expires := now + PLAN_LIFETIME in
  let v := {| fp_id := pi_id request; fp_host_id := info_host_id (pi_info request);
              fp_host_session_id := info_host_session_id (pi_info request);
              fp_sftp_session_id := info_id (pi_info request);
              fp_kind := pi_kind request; fp_risk := pi_risk request;
              fp_conflict_policy := pi_conflict_policy request; fp_items := pi_items request |} in
  ps ← lock_plans plans_unavailable;
  let ps := retain (λ p, (now <? sp_expires p) && bool_decide (is_Some (sp_plan p))) ps in
  _ ← set_plans ps;
  _ ← st_ensure (PLAN_CAP <=? zsize ps) (policy_error "Too many file-operation plans are awaiting approval.");
  _ ← set_plans (<[pi_id request := {| sp_plan := Some {| view := v; payload := pi_payload request |};
                                       sp_expires := expires;
                                       sp_editor_document := pi_editor_document request |}]> ps);
  mret v.

(** [FilePlanStore::insert], behind uploads, downloads and mutations. *)
Definition insert (now : Instant) (id : FilePlanId) (info : SftpSessionInfo) (kind : FileOperationKind)
    (risk : OperationRisk) (conflict_policy : option ConflictPolicy) (items : list FilePlanItem)
    (p : PlanPayload) : storeM FileOperationPlan :=
  insert_with_id now {| pi_id := id; pi_info := info; pi_kind := kind; pi_risk := risk;
                        pi_conflict_policy := conflict_policy; pi_items := items; pi_payload := p;
                        pi_editor_document := None |}.

(** ** [plan_editor_save]

    The method awaits the server between taking the document and storing the
    plan, so it is three steps: reserve, check against the server's answers,
    finish.  A future that fails or is dropped in between runs the guard. *)

Definition save_reserve (now : Instant) (info : SftpSessionInfo) (reservation : FilePlanId)
    (document_id : EditorDocumentId) : storeM EditorDocumentAuthority :=
  docs ← lock_documents docs_unavailable;
  existing ← st_lift (ok_or (docs !! document_id) (policy_error "The editor document is stale; reload it."));
  _ ← st_ensure ((ed_expires existing <=? now)
                 || bool_decide ((ed_host existing, ed_host_session existing, ed_sftp existing)
                                 ≠ (info_host_id info, info_host_session_id info, info_id info)))
        (policy_error "The editor document belongs to an old or expired session.");
  _ ← st_ensure (bool_decide (ed_use_state existing ≠ Ready))
        (policy_error "A save is already being prepared or reviewed for this document.");
  let existing := set_use existing (Planning reservation) in
  _ ← set_documents (<[document_id := existing]> docs);
  mret existing.

(** The checks made with no lock held; [revision] and [current_bytes] are the
    server's answers to [editor_revision] and [read_editor_bytes]. *)
Definition save_check (info : SftpSessionInfo) (document : EditorDocumentAuthority) (text : str)
    (revision : Res EditorRevision) (current_bytes : Res (list Z)) : Res (list Z) :=
  _ ← ensure (negb (supports info (lit "posix-rename@openssh.com") (lit "1")))
        (app_error SftpUnavailable "Safe editor replacement requires posix-rename@openssh.com v1.");
  bytes ← encode_text text (ed_newline document) (ed_bom document);
  revision ← revision;
  _ ← ensure (bool_decide (revision ≠ ed_revision document))
        (app_error Conflict "The remote file changed since it was opened.");
  current_bytes ← current_bytes;
  _ ← ensure (bool_decide (digest current_bytes ≠ ed_content_digest document))
        (app_error Conflict "The remote file contents changed since it was opened.");
  Ok bytes.

Definition save_finish (now : Instant) (info : SftpSessionInfo) (reservation : FilePlanId)
    (document_id : EditorDocumentId) (document : EditorDocumentAuthority) (bytes : list Z)
    : storeM FileOperationPlan :=
  docs ← lock_documents docs_unavailable;
  current ← st_lift (ok_or (docs !! document_id)
                       (policy_error "The editor document was retired during planning."));
  _ ← st_ensure ((ed_expires current <=? now)
                 || bool_decide (ed_use_state current ≠ Planning reservation)
                 || bool_decide ((ed_host current, ed_host_session current, ed_sftp current)
                                 ≠ (info_host_id info, info_host_session_id info, info_id info)))
        (policy_error "The editor document was retired or expired during planning.");
  v ← insert_with_id now
        {| pi_id := reservation; pi_info := info; pi_kind := OpEditText; pi_risk := High;
           pi_conflict_policy := None;
           pi_items := [{| source_display := lit "Edited text";
                           destination_display := display_name (ed_path document);
                           item_size_bytes := Some (show_dec (zlen bytes)) |}];
           pi_payload := EditorSave info (ed_path document) (ed_revision document)
                           (ed_content_digest document) bytes;
           pi_editor_document := Some document_id |};
  _ ← set_documents (<[document_id := set_use current (Pending reservation)]> docs);
  mret v.

(** [Drop for EditorPlanningGuard], when the guard is still active. *)
Definition guard_drop (now : Instant) (document_id : EditorDocumentId) (reservation : FilePlanId)
    (s : FilePlanStore) : FilePlanStore :=
  if documents_poisoned s then s
  else with_documents s (release_editor_reservation now (documents s) document_id (Planning reservation)).2.
End Digest.

Definition release_pending (now : Instant) (id : FilePlanId) (editor_document : option EditorDocumentId)
    (docs : gmap EditorDocumentId EditorDocumentAuthority) : bool * gmap EditorDocumentId EditorDocumentAuthority :=
  match editor_document with
  | Some document_id => release_editor_reservation now docs document_id (Pending id)
  | None => (true, docs)
  end.

Definition discard (now : Instant) (id : FilePlanId) (host : HostId) (host_session : HostSessionId)
    (sftp : SftpSessionId) : storeM bool :=
  docs ← lock_documents docs_unavailable;
  ps ← lock_plans plans_unavailable;
  match ps !! id with
  | None => mret false
  | Some stored =>
      if sp_expires stored <=? now then
        _ ← set_plans (delete id ps);
        _ ← set_documents (release_pending now id (sp_editor_document stored) docs).2;
        mret false
      else
        match sp_plan stored with
        | None => _ ← set_plans (delete id ps); mret false
        | Some plan =>
            _ ← st_ensure (bool_decide ((fp_host_id (view plan), fp_host_session_id (view plan),
                                         fp_sftp_session_id (view plan)) ≠ (host, host_session, sftp)))
                  (policy_error "The file-operation plan does not belong to this host session.");
            _ ← set_plans (delete id ps);
            let r := release_pending now id (sp_editor_document stored) docs in
            _ ← set_documents r.2;
            mret r.1
        end
  end.

(** The document still stands behind the plan [id]. *)
Definition document_authorizes (now : Instant) (id : FilePlanId) (host : HostId) (host_session : HostSessionId)
    (sftp : SftpSessionId) (o : option EditorDocumentAuthority) : bool :=
  match o with
  | None => false
  | Some d => (now <? ed_expires d) && bool_decide (ed_use_state d = Pending id)
              && bool_decide ((ed_host d, ed_host_session d, ed_sftp d) = (host, host_session, sftp))
  end.

Definition taken (s : StoredPlan) : StoredPlan :=
  {| sp_plan := None; sp_expires := sp_expires s; sp_editor_document := sp_editor_document s |}.

Definition consume (now : Instant) (id : FilePlanId) (host : HostId) (host_session : HostSessionId)
    (sftp : SftpSessionId) : storeM InternalPlan :=
  docs ← lock_documents docs_unavailable;
  ps ← lock_plans plans_unavailable;
  if match ps !! id with Some stored => sp_expires stored <? now | None => false end then
    _ ← set_plans (delete id ps);
    _ ← set_documents (release_pending now id (ps !! id ≫= sp_editor_document) docs).2;
    st_fail (policy_error "The file-operation plan expired.")
  else
    stored ← st_lift (ok_or (ps !! id) (policy_error "The file-operation plan is missing or was already used."));
    _ ← st_ensure (match sp_plan stored with
                   | None => true
                   | Some plan => bool_decide (fp_host_id (view plan) ≠ host)
                                  || bool_decide (fp_host_session_id (view plan) ≠ host_session)
                                  || bool_decide (fp_sftp_session_id (view plan) ≠ sftp)
                   end) (policy_error "The file-operation plan does not belong to this host session.");
    _ ← match sp_editor_document stored with
        | None => mret tt
        | Some document_id =>
            if document_authorizes now id host host_session sftp (docs !! document_id)
            then set_documents (delete document_id docs)
            else _ ← set_plans (delete id ps);
                 st_fail (policy_error "The editor document was retired or expired.")
        end;
    plan ← st_lift (ok_or (sp_plan stored) (policy_error "The file-operation plan was already used."));
    _ ← set_plans (<[id := taken stored]> ps);
    mret plan.

(** The two timer tasks, at the moment they fire. *)
Definition plan_expiry_fire (now : Instant) (id : FilePlanId) (expires : Instant)
    (editor_document : option EditorDocumentId) (s : FilePlanStore) : FilePlanStore :=
  if documents_poisoned s then s else
  let s := if plans_poisoned s then s
           else match plans s !! id with
                | Some stored => if sp_expires stored =? expires then with_plans s (delete id (plans s)) else s
                | None => s
                end in
  match editor_document with
  | Some document_id =>
      with_documents s (release_editor_reservation now (documents s) document_id (Pending id)).2
  | None => s
  end.

Definition document_expiry_fire (id : EditorDocumentId) (expires : Instant) (s : FilePlanStore) : FilePlanStore :=
  if documents_poisoned s then s else
  match documents s !! id with
  | Some value =>
      if ed_expires value =? expires then
        let s := with_documents s (delete id (documents s)) in
        match ed_use_state value with
        | Pending plan_id =>
            if plans_poisoned s then s else
            match plans s !! plan_id with
            | Some stored => if bool_decide (sp_editor_document stored = Some id)
                             then with_plans s (delete plan_id (plans s)) else s
            | None => s
            end
        | _ => s
        end
      else s
  | None => s
  end.
