(* ===== verification/FilePlansSafe.v ===== *)
(** What the plan store guarantees across any interleaving of its callers.

    [Sys] is the store together with the saves being planned (tasks between
    reserving a document and storing a plan) and, as history, the documents
    ever registered and the plans ever handed out for execution. *)

From S2P Require Import Prelude Str Model Ip RemotePath Editor Files FilePlans.

Record Saving := { sv_document_id : EditorDocumentId; sv_document : EditorDocumentAuthority; sv_info : SftpSessionInfo }.

Record Executed := { ex_id : FilePlanId; ex_plan : InternalPlan; ex_document : option EditorDocumentId }.

Record Sys := {
  store : FilePlanStore;
  saving : gmap FilePlanId Saving;
  registered : gmap EditorDocumentId EditorDocumentAuthority;
  issued : gset FilePlanId;
  executed : list Executed
}.

Definition sys_default : Sys :=
  {| store := store_default; saving := ∅; registered := ∅; issued := ∅; executed := [] |}.

Inductive label :=
| LRegister (now : Instant) (id : EditorDocumentId) (info : SftpSessionInfo) (path : str) (rev : EditorRevision)
    (bytes : list Z) (nl : TextNewline) (bom : bool)
| LDiscardDocument (id : EditorDocumentId) (host : HostId) (session : HostSessionId) (sftp : SftpSessionId)
| LReserve (now : Instant) (info : SftpSessionInfo) (plan : FilePlanId) (id : EditorDocumentId)
| LFinish (now : Instant) (plan : FilePlanId) (text : str) (rev : Res EditorRevision) (bytes : Res (list Z))
| LAbort (now : Instant) (plan : FilePlanId)
| LInsert (now : Instant) (id : FilePlanId) (kind : FileOperationKind) (risk : OperationRisk)
    (cp : option ConflictPolicy) (items : list FilePlanItem) (p : PlanPayload)
| LConsume (now : Instant) (id : FilePlanId) (host : HostId) (session : HostSessionId) (sftp : SftpSessionId)
| LDiscard (now : Instant) (id : FilePlanId) (host : HostId) (session : HostSessionId) (sftp : SftpSessionId)
| LRevokeSession (host : HostId) (session : HostSessionId)
| LRevokeAll
| LPlanTimer (now : Instant) (id : FilePlanId) (expires : Instant) (doc : option EditorDocumentId)
| LDocumentTimer (id : EditorDocumentId) (expires : Instant)
| LPoison (plans documents : bool).

Definition set_store (y : Sys) (s : FilePlanStore) : Sys :=
  {| store := s; saving := saving y; registered := registered y; issued := issued y; executed := executed y |}.

Section System.
Context (digest : list Z → Digest).

(** Identifiers come from [Uuid::new_v4]: never one used before.  The saves
    under way are those that reserved and have not finished.  Uploads,
    downloads and mutations go through [insert], with the session of their
    own client. *)
Definition enabled (l : label) (y : Sys) : Prop :=
  match l with
  | LRegister _ id _ _ _ _ _ _ => registered y !! id = None
  | LReserve _ _ plan _ => plan ∉ issued y
  | LInsert _ plan _ _ _ _ p => plan ∉ issued y ∧ match p with EditorSave _ _ _ _ _ => False | _ => True end
  | LFinish _ plan _ _ _ | LAbort _ plan => is_Some (saving y !! plan)
  | _ => True
  end.

(** The end of [plan_editor_save]: success disarms the guard, an error or a
    dropped future runs it. *)
Definition finish_save (now : Instant) (plan : FilePlanId) (v : Saving) (text : str)
    (rev : Res EditorRevision) (bytes : Res (list Z)) (s : FilePlanStore) : FilePlanStore :=
  match save_check digest (sv_info v) (sv_document v) text rev bytes with
  | Err _ => guard_drop now (sv_document_id v) plan s
  | Ok body =>
      match save_finish now (sv_info v) plan (sv_document_id v) (sv_document v) body s with
      | (Ok _, s') => s'
      | (Err _, s') => guard_drop now (sv_document_id v) plan s'
      end
  end.

Definition exec (l : label) (y : Sys) : Sys :=
  match l with
  | LRegister now id info path rev bytes nl bom =>
      let '(r, s) := register_editor_document digest now id info path rev bytes nl bom (store y) in
      {| store := s; saving := saving y;
         registered := match r, documents s !! id with
                       | Ok _, Some d => <[id := d]> (registered y)
                       | _, _ => registered y
                       end;
         issued := issued y; executed := executed y |}
  | LDiscardDocument id host session sftp => set_store y (discard_editor_document id host session sftp (store y)).2
  | LReserve now info plan id =>
      let '(r, s) := save_reserve now info plan id (store y) in
      {| store := s;
         saving := match r with
                   | Ok d => <[plan := {| sv_document_id := id; sv_document := d; sv_info := info |}]> (saving y)
                   | Err _ => saving y
                   end;
         registered := registered y; issued := {[plan]} ∪ issued y; executed := executed y |}
  | LFinish now plan text rev bytes =>
      match saving y !! plan with
      | None => y
      | Some v => {| store := finish_save now plan v text rev bytes (store y);
                     saving := delete plan (saving y); registered := registered y;
                     issued := issued y; executed := executed y |}
      end
  | LAbort now plan =>
      match saving y !! plan with
      | None => y
      | Some v => {| store := guard_drop now (sv_document_id v) plan (store y);
                     saving := delete plan (saving y); registered := registered y;
                     issued := issued y; executed := executed y |}
      end
  | LInsert now id kind risk cp items p =>
      {| store := (insert now id (payload_client p) kind risk cp items p (store y)).2;
         saving := saving y; registered := registered y; issued := {[id]} ∪ issued y; executed := executed y |}
  | LConsume now id host session sftp =>
      let '(r, s) := consume now id host session sftp (store y) in
      {| store := s; saving := saving y; registered := registered y; issued := issued y;
         executed := match r with
                     | Ok plan => {| ex_id := id; ex_plan := plan;
                                     ex_document := plans (store y) !! id ≫= sp_editor_document |} :: executed y
                     | Err _ => executed y
                     end |}
  | LDiscard now id host session sftp => set_store y (discard now id host session sftp (store y)).2
  | LRevokeSession host session => set_store y (revoke_session host session (store y))
  | LRevokeAll => set_store y (revoke_all (store y)).2
  | LPlanTimer now id expires doc => set_store y (plan_expiry_fire now id expires doc (store y))
  | LDocumentTimer id expires => set_store y (document_expiry_fire id expires (store y))
  | LPoison p d =>
      set_store y {| plans := plans (store y); documents := documents (store y);
                     plans_poisoned := plans_poisoned (store y) || p;
                     documents_poisoned := documents_poisoned (store y) || d |}
  end.

(** Any number of steps whose labels satisfy [P]. *)
Inductive steps (P : label → Prop) : Sys → Sys → Prop :=
| steps_refl y : steps P y y
| steps_next y l y' : P l → enabled l y → steps P (exec l y) y' → steps P y y'.

Definition reachable (y : Sys) : Prop := steps (λ _, True) sys_default y.
End System.

(** ** Losing authority

    Most operations only take plans and documents away, take a plan out of
    its slot or change what a document is in use for. *)

(** Two states of the same registered document. *)
Definition same_doc (a b : EditorDocumentAuthority) : Prop := set_use a Ready = set_use b Ready.

Lemma same_doc_fields a b : same_doc a b →
  ed_host a = ed_host b ∧ ed_host_session a = ed_host_session b ∧ ed_sftp a = ed_sftp b ∧
  ed_path a = ed_path b ∧ ed_revision a = ed_revision b ∧ ed_content_digest a = ed_content_digest b ∧
  ed_newline a = ed_newline b ∧ ed_bom a = ed_bom b.
Proof.
  intros H. repeat split; [apply (f_equal ed_host H)|apply (f_equal ed_host_session H)|apply (f_equal ed_sftp H)
    |apply (f_equal ed_path H)|apply (f_equal ed_revision H)|apply (f_equal ed_content_digest H)
    |apply (f_equal ed_newline H)|apply (f_equal ed_bom H)].
Qed.

Definition plans_sub (m m' : gmap FilePlanId StoredPlan) : Prop :=
  ∀ k x', m' !! k = Some x' → ∃ x, m !! k = Some x ∧ (x' = x ∨ x' = taken x).
Definition docs_sub (m m' : gmap EditorDocumentId EditorDocumentAuthority) : Prop :=
  ∀ k x', m' !! k = Some x' → ∃ x, m !! k = Some x ∧ same_doc x' x.
Definition shrinks (s s' : FilePlanStore) : Prop :=
  plans_sub (plans s) (plans s') ∧ docs_sub (documents s) (documents s').

Lemma taken_taken x : taken (taken x) = taken x.
Proof. done. Qed.
Lemma same_doc_use x u : same_doc (set_use x u) x.
Proof. done. Qed.
#[export] Instance same_doc_equiv : Equivalence same_doc.
Proof. unfold same_doc. split; [done|by intros ??|intros ??? -> ->; done]. Qed.

#[export] Instance plans_sub_preorder : PreOrder plans_sub.
Proof.
  split; [intros m k x Hx; eauto|].
  intros m1 m2 m3 H12 H23 k x3 H3. destruct (H23 _ _ H3) as (x2 & H2 & E2). destruct (H12 _ _ H2) as (x1 & H1 & E1).
  exists x1. split; [done|]. destruct E1 as [-> | ->], E2 as [-> | ->]; auto.
Qed.
#[export] Instance docs_sub_preorder : PreOrder docs_sub.
Proof.
  split; [intros m k x Hx; by exists x|].
  intros m1 m2 m3 H12 H23 k x3 H3. destruct (H23 _ _ H3) as (x2 & H2 & E2). destruct (H12 _ _ H2) as (x1 & H1 & E1).
  exists x1. split; [done|]. by rewrite E2.
Qed.
#[export] Instance shrinks_preorder : PreOrder shrinks.
Proof.
  split; [intros s; split; reflexivity|].
  intros s1 s2 s3 [? ?] [? ?]. split; etransitivity; eauto.
Qed.

Lemma plans_sub_delete m k : plans_sub m (delete k m).
Proof. intros i x [_ H]%lookup_delete_Some. eauto. Qed.
Lemma docs_sub_delete m k : docs_sub m (delete k m).
Proof. intros i x [_ Hx]%lookup_delete_Some. by exists x. Qed.
Lemma retain_some {V} (f : V → bool) (m : gmap N V) k x :
  retain f m !! k = Some x ↔ m !! k = Some x ∧ f x = true.
Proof. unfold retain. by rewrite map_lookup_filter_Some. Qed.
Lemma plans_sub_retain m f : plans_sub m (retain f m).
Proof. intros i x [Hx _]%retain_some. eauto. Qed.
Lemma docs_sub_retain m f : docs_sub m (retain f m).
Proof. intros i x [Hx _]%retain_some. by exists x. Qed.
Lemma docs_sub_filter (P : N * EditorDocumentAuthority → Prop) `{!∀ x, Decision (P x)} m : docs_sub m (filter P m).
Proof. intros i x [Hx _]%map_lookup_filter_Some. by exists x. Qed.
Lemma plans_sub_empty m : plans_sub m ∅.
Proof. intros i x H. by rewrite lookup_empty in H. Qed.
Lemma docs_sub_empty m : docs_sub m ∅.
Proof. intros i x H. by rewrite lookup_empty in H. Qed.
Lemma plans_sub_taken m k x : m !! k = Some x → plans_sub m (<[k := taken x]> m).
Proof.
  intros Hk i x'. destruct (decide (i = k)) as [->|Hne].
  - rewrite lookup_insert_eq. intros [= <-]. eauto.
  - rewrite lookup_insert_ne by done. eauto.
Qed.
Lemma docs_sub_use m k x u : m !! k = Some x → docs_sub m (<[k := set_use x u]> m).
Proof.
  intros Hk i x'. destruct (decide (i = k)) as [->|Hne].
  - rewrite lookup_insert_eq. intros [= <-]. exists x. split; [done|apply same_doc_use].
  - rewrite lookup_insert_ne by done. intros Hx. by exists x'.
Qed.
Lemma docs_sub_release now docs id u : docs_sub docs (release_editor_reservation now docs id u).2.
Proof.
  unfold release_editor_reservation. destruct (docs !! id) as [d|] eqn:E; [|reflexivity].
  repeat case_match; cbn; auto using docs_sub_delete, docs_sub_use; reflexivity.
Qed.
Lemma docs_sub_release_pending now docs id o : docs_sub docs (release_pending now id o docs).2.
Proof. destruct o; [apply docs_sub_release|reflexivity]. Qed.

Create HintDb shrink.
#[export] Hint Resolve plans_sub_delete docs_sub_delete plans_sub_retain docs_sub_retain plans_sub_empty
  docs_sub_empty plans_sub_taken docs_sub_use docs_sub_release docs_sub_release_pending docs_sub_filter : shrink.
#[export] Hint Extern 1 (plans_sub ?x ?x) => reflexivity : shrink.
#[export] Hint Extern 1 (docs_sub ?x ?x) => reflexivity : shrink.

(** Unfold one method on both locks and look at what each branch leaves. *)
Ltac shrink_cases :=
  unfold lock_documents, lock_plans, set_documents, set_plans, with_documents, with_plans; unfold_bind;
  repeat (case_match; simplify_eq/=; try done);
  try (split; cbn; eauto with shrink).

Lemma guard_drop_shrinks now d r s : shrinks s (guard_drop now d r s).
Proof. unfold guard_drop. shrink_cases. Qed.
Lemma revoke_session_shrinks h hs s : shrinks s (revoke_session h hs s).
Proof. unfold revoke_session. shrink_cases. Qed.
Lemma revoke_all_shrinks s : shrinks s (revoke_all s).2.
Proof. unfold revoke_all. shrink_cases. Qed.
Lemma discard_editor_document_shrinks id h hs f s : shrinks s (discard_editor_document id h hs f s).2.
Proof. unfold discard_editor_document. shrink_cases. Qed.
Lemma discard_shrinks now id h hs f s : shrinks s (discard now id h hs f s).2.
Proof. unfold discard. shrink_cases. Qed.
Lemma plan_consume_shrinks now id h hs f s : shrinks s (consume now id h hs f s).2.
Proof. unfold consume. shrink_cases. Qed.
Lemma plan_expiry_fire_shrinks now id e d s : shrinks s (plan_expiry_fire now id e d s).
Proof. unfold plan_expiry_fire. shrink_cases. Qed.
Lemma document_expiry_fire_shrinks id e s : shrinks s (document_expiry_fire id e s).
Proof. unfold document_expiry_fire. shrink_cases. Qed.
#[export] Hint Resolve guard_drop_shrinks revoke_session_shrinks revoke_all_shrinks
  discard_editor_document_shrinks discard_shrinks plan_consume_shrinks plan_expiry_fire_shrinks
  document_expiry_fire_shrinks : shrink.

(** ** The invariant *)

Definition same_session (info : SftpSessionInfo) (d : EditorDocumentAuthority) : Prop :=
  (ed_host d, ed_host_session d, ed_sftp d) = (info_host_id info, info_host_session_id info, info_id info).

(** A plan is bound to its client's session; an editor save carries what was
    registered when its document was opened, and an encoding of some text. *)
Definition plan_ok (reg : gmap EditorDocumentId EditorDocumentAuthority) (k : FilePlanId)
    (doc : option EditorDocumentId) (p : InternalPlan) : Prop :=
  let c := payload_client (payload p) in
  fp_id (view p) = k ∧
  (fp_host_id (view p), fp_host_session_id (view p), fp_sftp_session_id (view p))
    = (info_host_id c, info_host_session_id c, info_id c) ∧
  match payload p with
  | EditorSave c path rev dig bytes =>
      ∃ d a text, doc = Some d ∧ reg !! d = Some a ∧ same_session c a ∧ path = ed_path a ∧
        rev = ed_revision a ∧ dig = ed_content_digest a ∧
        encode_text text (ed_newline a) (ed_bom a) = Ok bytes
  | _ => doc = None
  end.

Definition ids (l : list Executed) : list FilePlanId := map ex_id l.
Definition docs (l : list Executed) : list EditorDocumentId := omap ex_document l.

Record Inv (y : Sys) : Prop := {
  inv_plans_cap : zsize (plans (store y)) ≤ PLAN_CAP;
  inv_docs_cap : zsize (documents (store y)) ≤ PLAN_CAP;
  inv_plans : ∀ k x, plans (store y) !! k = Some x → k ∈ issued y ∧ saving y !! k = None ∧
    ∀ p, sp_plan x = Some p → k ∉ ids (executed y) ∧ plan_ok (registered y) k (sp_editor_document x) p;
  inv_docs : ∀ d a, documents (store y) !! d = Some a →
    d ∉ docs (executed y) ∧ ∃ a0, registered y !! d = Some a0 ∧ same_doc a a0;
  inv_saving : ∀ k v, saving y !! k = Some v → k ∈ issued y ∧ k ∉ ids (executed y) ∧
    same_session (sv_info v) (sv_document v) ∧
    ∃ a0, registered y !! sv_document_id v = Some a0 ∧ same_doc (sv_document v) a0;
  inv_ids : NoDup (ids (executed y)) ∧ ∀ k, k ∈ ids (executed y) → k ∈ issued y;
  inv_exec_docs : NoDup (docs (executed y)) ∧ ∀ d, d ∈ docs (executed y) → is_Some (registered y !! d);
  inv_executed : ∀ e, e ∈ executed y → plan_ok (registered y) (ex_id e) (ex_document e) (ex_plan e)
}.

Lemma inv_default : Inv sys_default.
Proof.
  split; cbn; try (intros *; by rewrite lookup_empty).
  - rewrite map_size_empty. unfold PLAN_CAP. lia.
  - rewrite map_size_empty. unfold PLAN_CAP. lia.
  - split; [constructor|by intros ? ?%elem_of_nil].
  - split; [constructor|by intros ? ?%elem_of_nil].
  - by intros ? ?%elem_of_nil.
Qed.

Lemma plans_sub_size m m' : plans_sub m m' → (size m' ≤ size m)%nat.
Proof.
  intros H. rewrite <-!size_dom. apply subseteq_size. intros k [x Hx]%elem_of_dom.
  apply elem_of_dom. destruct (H _ _ Hx) as (? & ? & _). eauto.
Qed.
Lemma docs_sub_size m m' : docs_sub m m' → (size m' ≤ size m)%nat.
Proof.
  intros H. rewrite <-!size_dom. apply subseteq_size. intros k [x Hx]%elem_of_dom.
  apply elem_of_dom. destruct (H _ _ Hx) as (? & ? & _). eauto.
Qed.

Lemma inv_shrink y s sv : Inv y → shrinks (store y) s → sv ⊆ saving y →
  Inv {| store := s; saving := sv; registered := registered y; issued := issued y; executed := executed y |}.
Proof.
  intros I [Hp Hd] Hsv. split; cbn; try apply I.
  - pose proof (plans_sub_size _ _ Hp). pose proof (inv_plans_cap _ I). lia.
  - pose proof (docs_sub_size _ _ Hd). pose proof (inv_docs_cap _ I). lia.
  - intros k x' Hx. destruct (Hp _ _ Hx) as (x & Hx0 & Ex). destruct (inv_plans _ I _ _ Hx0) as (H1 & H2 & H3).
    split; [done|]. split; [by apply (lookup_weaken_None sv (saving y))|].
    destruct Ex as [-> | ->]; [done|]. intros p Hnone. discriminate Hnone.
  - intros d a' Ha. destruct (Hd _ _ Ha) as (a & Ha0 & Ea). destruct (inv_docs _ I _ _ Ha0) as (H1 & a0 & H2 & H3).
    split; [done|]. exists a0. split; [done|]. by rewrite Ea.
  - intros k v Hv. apply (inv_saving _ I). by apply (lookup_weaken sv (saving y)).
Qed.

(** ** Gaining authority: the four operations that add or use it *)

Lemma register_cases digest now id info path rev bytes nl bom s :
  let '(r, s') := register_editor_document digest now id info path rev bytes nl bom s in
  match r with
  | Err _ => shrinks s s'
  | Ok _ => plans_sub (plans s) (plans s') ∧ ∃ ds a, docs_sub (documents s) ds ∧ zsize ds < PLAN_CAP ∧
      documents s' = <[id := a]> ds ∧ same_session info a
  end.
Proof.
  unfold register_editor_document, lock_documents, lock_plans, set_documents, set_plans, with_documents, with_plans.
  unfold_bind. assert (docs_sub (documents s) (remove_ids (retired_ids now info path (documents s)) (documents s))) as Hsub
    by apply docs_sub_filter.
  repeat (case_match; simplify_eq/=; try done); split_bools; try (split; cbn; eauto with shrink);
    (do 2 eexists; split; [exact Hsub|]; split; [lia|]; split; reflexivity).
Qed.

Lemma insert_with_id_cases now req s :
  let '(r, s') := insert_with_id now req s in
  match r with
  | Err _ => shrinks s s'
  | Ok v => documents s' = documents s ∧
      fp_id v = pi_id req ∧
      (fp_host_id v, fp_host_session_id v, fp_sftp_session_id v)
        = (info_host_id (pi_info req), info_host_session_id (pi_info req), info_id (pi_info req)) ∧
      ∃ ps e, plans_sub (plans s) ps ∧ zsize ps < PLAN_CAP ∧
      plans s' = <[pi_id req := {| sp_plan := Some {| view := v; payload := pi_payload req |};
                                   sp_expires := e; sp_editor_document := pi_editor_document req |}]> ps
  end.
Proof.
  unfold insert_with_id, lock_plans, set_plans, with_plans. unfold_bind.
  repeat (case_match; simplify_eq/=; try done); split_bools.
  - do 3 (split; [done|]). do 2 eexists. split; [|split; [|done]]; eauto with shrink.
  - split; cbn; eauto with shrink.
Qed.

Lemma reserve_cases now info plan id s :
  let '(r, s') := save_reserve now info plan id s in
  match r with
  | Err _ => s' = s
  | Ok d => ∃ a, documents s !! id = Some a ∧ d = set_use a (Planning plan) ∧ ed_use_state a = Ready ∧
      same_session info d ∧ s' = with_documents s (<[id := d]> (documents s))
  end.
Proof.
  unfold save_reserve, lock_documents, set_documents. unfold_bind.
  repeat (case_match; simplify_eq/=; try done). split_bools.
  eexists. split; [done|]. split; [done|]. split; [by apply dec_stable|]. split; [unfold same_session; cbn; by apply dec_stable|done].
Qed.

Lemma save_finish_cases now info plan id d bytes s :
  let '(r, s') := save_finish now info plan id d bytes s in
  match r with
  | Err _ => shrinks s s'
  | Ok v => ∃ a, documents s !! id = Some a ∧ ed_use_state a = Planning plan ∧ same_session info a ∧
      documents s' = <[id := set_use a (Pending plan)]> (documents s) ∧
      fp_id v = plan ∧
      (fp_host_id v, fp_host_session_id v, fp_sftp_session_id v)
        = (info_host_id info, info_host_session_id info, info_id info) ∧
      ∃ ps e, plans_sub (plans s) ps ∧ zsize ps < PLAN_CAP ∧
      plans s' = <[plan := {| sp_plan := Some {| view := v;
                                payload := EditorSave info (ed_path d) (ed_revision d) (ed_content_digest d) bytes |};
                              sp_expires := e; sp_editor_document := Some id |}]> ps
  end.
Proof.
  unfold save_finish, lock_documents, set_documents. unfold_bind.
  destruct (documents_poisoned s); [reflexivity|]. destruct (documents s !! id) as [a|] eqn:Ea; [|reflexivity].
  destruct ((ed_expires a <=? now) || _ || _)%bool eqn:Eg; [reflexivity|]. split_bools.
  match goal with |- context [insert_with_id now ?req s] => pose proof (insert_with_id_cases now req s) as Hi end.
  destruct (insert_with_id _ _ s) as [[v|e] s1]; [|done]. destruct Hi as (Hd & Hf & Hs & ps & ex & Hp & Hc & He).
  exists a. split; [done|]. split; [by apply dec_stable|]. split; [unfold same_session; by apply dec_stable|].
  split; [done|]. split; [done|]. split; [done|]. by exists ps, ex.
Qed.

Lemma plan_consume_cases now id h hs f s :
  let '(r, s') := consume now id h hs f s in
  match r with
  | Err _ => shrinks s s'
  | Ok p => ∃ x, plans s !! id = Some x ∧ sp_plan x = Some p ∧ now ≤ sp_expires x ∧
      (fp_host_id (view p), fp_host_session_id (view p), fp_sftp_session_id (view p)) = (h, hs, f) ∧
      plans s' = <[id := taken x]> (plans s) ∧
      match sp_editor_document x with
      | None => documents s' = documents s
      | Some d => ∃ a, documents s !! d = Some a ∧ ed_use_state a = Pending id ∧ now < ed_expires a ∧
          documents s' = delete d (documents s)
      end
  end.
Proof.
  pose proof (plan_consume_shrinks now id h hs f s) as Hs. destruct (consume now id h hs f s) as [[p|e] s'] eqn:E; [|done].
  clear Hs. revert E. unfold consume, lock_documents, lock_plans, set_documents, set_plans, document_authorizes.
  unfold_bind. destruct (documents_poisoned s); [done|]. destruct (plans_poisoned s); [done|].
  destruct (plans s !! id) as [x|] eqn:Ex; cbn; [|done]. destruct (sp_expires x <? now) eqn:Ee; [done|].
  destruct (sp_plan x) as [q|] eqn:Eq; [|done].
  destruct (_ || _) eqn:Eb; [done|]. apply orb_false_iff in Eb as [[E1 E2]%orb_false_iff E3].
  apply bool_decide_eq_false, dec_stable in E1, E2, E3.
  destruct (sp_editor_document x) as [d|] eqn:Ed.
  - destruct (documents s !! d) as [a|] eqn:Ea; [|done]. destruct (_ && _) eqn:Eb; [|done]. split_bools.
    intros [= <- <-]. exists x. rewrite Ed. do 3 (split; [done|]). split; [by subst|]. split; [done|].
    exists a. auto.
  - split_bools. intros [= <- <-]. exists x. rewrite Ed. do 3 (split; [done|]). split; [by subst|]. split; done.
Qed.

(** ** Every step keeps the invariant *)

Section Preservation.
Context (digest : list Z → Digest).
Implicit Types (y : Sys).

Lemma insert_size {V} (m : gmap N V) k x : zsize m < PLAN_CAP → zsize (<[k := x]> m) ≤ PLAN_CAP.
Proof. intros H. rewrite map_size_insert. case_match; unfold id; lia. Qed.

Lemma plan_ok_weaken reg id a k o p : reg !! id = None → plan_ok reg k o p → plan_ok (<[id := a]> reg) k o p.
Proof.
  unfold plan_ok. intros Hn (H1 & H2 & H3). split; [done|]. split; [done|]. destruct (payload p); auto.
  destruct H3 as (d & a' & text & -> & Hd & H3). exists d, a', text. split; [done|].
  split; [|done]. rewrite lookup_insert_ne; [done|]. intros ->. congruence.
Qed.

Lemma inv_register y now id info path rev bytes nl bom :
  Inv y → registered y !! id = None → Inv (exec digest (LRegister now id info path rev bytes nl bom) y).
Proof.
  intros I Hf. cbn [exec]. pose proof (register_cases digest now id info path rev bytes nl bom (store y)) as Hc.
  destruct (register_editor_document _ _ _ _ _ _ _ _ _ _) as [[r|e] s'].
  2: { by apply (inv_shrink y s' (saving y)). }
  destruct Hc as (Hp & ds & a & Hd & Hs & Hdocs & _). rewrite Hdocs, lookup_insert_eq.
  assert (shrinks (store y) (with_documents s' ds)) as Hsh by done.
  pose proof (inv_shrink y _ _ I Hsh (reflexivity (saving y))) as [I1 I2 I3 I4 I5 I6 [I7 I7'] I8]. cbn in *.
  split; cbn; [done|by rewrite Hdocs; apply insert_size| | | |done| |].
  - intros k x Hx. destruct (I3 _ _ Hx) as (H1 & H2 & H3). split; [done|]. split; [done|].
    intros p Hpl. destruct (H3 p Hpl). auto using plan_ok_weaken.
  - intros d a'. rewrite Hdocs. destruct (decide (d = id)) as [->|Hne].
    + rewrite lookup_insert_eq. intros [= <-]. split; [|exists a; by rewrite lookup_insert_eq].
      intros Hin. destruct (I7' _ Hin) as [? ?]. congruence.
    + rewrite !lookup_insert_ne by done. apply I4.
  - intros k v Hv. destruct (I5 _ _ Hv) as (H1 & H2 & H3 & a0 & H4 & H5). split; [done|]. split; [done|].
    split; [done|]. exists a0. split; [|done]. rewrite lookup_insert_ne; [done|]. intros E. congruence.
  - split; [done|]. intros d Hin. destruct (decide (d = id)) as [->|Hne]; [by rewrite lookup_insert_eq|].
    rewrite lookup_insert_ne by done. auto.
  - intros e He. auto using plan_ok_weaken.
Qed.

Lemma inv_reserve y now info plan id :
  Inv y → plan ∉ issued y → Inv (exec digest (LReserve now info plan id) y).
Proof.
  intros I Hf. cbn [exec]. pose proof (reserve_cases now info plan id (store y)) as Hc.
  assert (plans (store y) !! plan = None) as Hnp.
  { destruct (plans (store y) !! plan) eqn:E; [|done]. by destruct (inv_plans _ I _ _ E). }
  destruct (save_reserve _ _ _ _ _) as [[d|e] s'].
  2: { subst s'. destruct I as [I1 I2 I3 I4 I5 [I6 I6'] I7 I8]. split; cbn; auto.
       - intros k x Hx. destruct (I3 _ _ Hx) as (H1 & H2 & H3). split; [set_solver|done].
       - intros k v Hv. destruct (I5 _ _ Hv) as (H1 & H2). split; [set_solver|done].
       - split; [done|]. intros k Hk. specialize (I6' k Hk). set_solver. }
  destruct Hc as (a & Ha & Hd & _ & Hss & ->). destruct I as [I1 I2 I3 I4 I5 [I6 I6'] I7 I8].
  destruct (I4 _ _ Ha) as (Hnx & a0 & Hr & Hsame). assert (same_doc d a0) as Hsd by (by subst d).
  split; cbn; auto.
  - rewrite map_size_insert_Some; eauto.
  - intros k x Hx. destruct (I3 _ _ Hx) as (H1 & H2 & H3). split; [set_solver|]. split; [|done].
    rewrite lookup_insert_ne; [done|]. intros ->. congruence.
  - intros d' a'. destruct (decide (d' = id)) as [->|Hne].
    + rewrite lookup_insert_eq. intros [= <-]. eauto.
    + rewrite lookup_insert_ne by done. eauto.
  - intros k v. destruct (decide (k = plan)) as [->|Hne].
    + rewrite lookup_insert_eq. intros [= <-]. cbn. split; [set_solver|]. split; [|by split; [|exists a0]].
      intros Hin. by apply Hf, I6'.
    + rewrite lookup_insert_ne by done. intros Hv. destruct (I5 _ _ Hv) as (H1 & H2). split; [set_solver|done].
  - split; [done|]. intros k Hk. specialize (I6' k Hk). set_solver.
Qed.

(** Storing a plan under an identifier that has none. *)
Lemma inv_insert_plan y s ps plan x sv iss :
  Inv y → shrinks (store y) (with_plans s ps) → zsize ps < PLAN_CAP → plans s = <[plan := x]> ps →
  sv ⊆ saving y → sv !! plan = None → issued y ⊆ iss → plan ∈ iss → plan ∉ ids (executed y) →
  (∀ p, sp_plan x = Some p → plan_ok (registered y) plan (sp_editor_document x) p) →
  Inv {| store := s; saving := sv; registered := registered y; issued := iss; executed := executed y |}.
Proof.
  intros I Hsh Hs Hps Hsv Hnone Hiss Hin Hnx Hok.
  pose proof (inv_shrink y _ sv I Hsh Hsv) as [I1 I2 I3 I4 I5 [I6 I6'] I7 I8]. cbn in *.
  split; cbn; auto.
  - rewrite Hps. by apply insert_size.
  - intros k x'. rewrite Hps. destruct (decide (k = plan)) as [->|Hne].
    + rewrite lookup_insert_eq. intros [= <-]. split; [done|]. split; [done|]. auto.
    + rewrite lookup_insert_ne by done. intros Hx. destruct (I3 _ _ Hx) as (H1 & H2 & H3). split; [set_solver|done].
  - intros k v Hv. destruct (I5 _ _ Hv) as (H1 & H2). split; [set_solver|done].
Qed.

Lemma inv_insert y now id kind risk cp items p :
  Inv y → id ∉ issued y → match p with EditorSave _ _ _ _ _ => False | _ => True end →
  Inv (exec digest (LInsert now id kind risk cp items p) y).
Proof.
  intros I Hf Hp. cbn [exec]. unfold insert.
  match goal with |- context [insert_with_id now ?req _] => pose proof (insert_with_id_cases now req (store y)) as Hc end.
  assert (id ∉ ids (executed y)) as Hx by (intros ?%(inv_ids _ I); done).
  assert (saving y !! id = None) as Hsv.
  { destruct (saving y !! id) eqn:E; [|done]. by destruct (inv_saving _ I _ _ E). }
  destruct (insert_with_id _ _ _) as [[v|e] s']; cbn [snd].
  - destruct Hc as (Hd & Hid & Hs & ps & ex & Hsub & Hcap & Hps). cbn in *.
    eapply (inv_insert_plan y s' ps id); eauto; [|set_solver|set_solver|].
    + split; [done|]. cbn. by rewrite Hd.
    + cbn. intros q [= <-]. split; [done|]. split; [done|]. cbn. by destruct p.
  - pose proof (inv_shrink y s' _ I Hc (reflexivity (saving y))) as [I1 I2 I3 I4 I5 [I6 I6'] I7 I8]. split; cbn; auto.
    + intros k x Hk. destruct (I3 _ _ Hk) as (H1 & H2). split; [set_solver|done].
    + intros k w Hk. destruct (I5 _ _ Hk) as (H1 & H2). split; [set_solver|done].
    + split; [done|]. intros k Hk. specialize (I6' k Hk). set_solver.
Qed.

Lemma save_check_ok info d text rev bytes body :
  save_check digest info d text rev bytes = Ok body →
  encode_text text (ed_newline d) (ed_bom d) = Ok body ∧ rev = Ok (ed_revision d) ∧
  ∃ b, bytes = Ok b ∧ digest b = ed_content_digest d.
Proof.
  unfold save_check. rewrite bind_ok. intros (_ & _ & H). apply bind_ok in H as (b & Hb & H).
  apply bind_ok in H as (r & Hr & H). apply bind_ok in H as (_ & H1%ensure_ok & H).
  apply bind_ok in H as (b' & Hb' & H). apply bind_ok in H as (_ & H2%ensure_ok & [= <-]).
  apply bool_decide_eq_false, dec_stable in H1, H2. subst. eauto.
Qed.

Lemma inv_finish y now plan v text rev bytes :
  Inv y → saving y !! plan = Some v →
  Inv {| store := finish_save digest now plan v text rev bytes (store y); saving := delete plan (saving y);
         registered := registered y; issued := issued y; executed := executed y |}.
Proof.
  intros I Hv. destruct (inv_saving _ I _ _ Hv) as (Hi & Hx & Hss & a0 & Hr & Hsd).
  unfold finish_save. destruct (save_check _ _ _ _ _ _) as [body|e] eqn:Hck.
  2: { apply inv_shrink; [done|apply guard_drop_shrinks|apply delete_subseteq]. }
  pose proof (save_finish_cases now (sv_info v) plan (sv_document_id v) (sv_document v) body (store y)) as Hc.
  destruct (save_finish _ _ _ _ _ _ _) as [[w|e] s'].
  2: { apply inv_shrink; [done| |apply delete_subseteq]. etransitivity; [done|apply guard_drop_shrinks]. }
  destruct Hc as (a & Ha & _ & _ & Hdocs & Hid & Hs & ps & ex & Hsub & Hcap & Hps).
  refine (inv_insert_plan y s' ps plan _ _ _ I _ Hcap Hps (delete_subseteq _ _) (lookup_delete_eq _ _) _ Hi Hx _);
    [|done|].
  - split; [done|]. cbn. rewrite Hdocs. by apply docs_sub_use.
  - cbn. intros q [= <-]. split; [done|]. split; [done|]. cbn.
    apply save_check_ok in Hck as (Henc & _). exists (sv_document_id v), a0, text.
    destruct (same_doc_fields _ _ Hsd) as (E1 & E2 & E3 & E4 & E5 & E6 & E7 & E8).
    unfold same_session in *. rewrite <-E1, <-E2, <-E3, <-E4, <-E5, <-E6, <-E7, <-E8. auto 10.
Qed.

Lemma inv_consume y now id h hs f : Inv y → Inv (exec digest (LConsume now id h hs f) y).
Proof.
  intros I. cbn [exec]. pose proof (plan_consume_cases now id h hs f (store y)) as Hc.
  pose proof (plan_consume_shrinks now id h hs f (store y)) as Hsh.
  destruct (consume _ _ _ _ _ _) as [[p|e] s']; cbn [snd] in Hsh.
  2: { by apply (inv_shrink y s' (saving y)). }
  destruct Hc as (x & Hx & Hp & _ & _ & Hps & Hd). rewrite Hx. cbn.
  destruct (inv_plans _ I _ _ Hx) as (Hi & Hsv & Hok). destruct (Hok p Hp) as [Hnx Hpok].
  pose proof (inv_shrink y _ _ I Hsh (reflexivity (saving y))) as [I1 I2 I3 I4 I5 [I6 I6'] [I7 I7'] I8]. cbn in *.
  assert (∀ d, sp_editor_document x = Some d → d ∉ docs (executed y) ∧ is_Some (registered y !! d) ∧
    documents s' = delete d (documents (store y))) as Hdoc.
  { intros d Ed. rewrite Ed in Hd. destruct Hd as (a & Ha & _ & _ & Hdel).
    destruct (inv_docs _ I _ _ Ha) as (H1 & a0 & H2 & _). eauto. }
  split; cbn; auto.
  - intros k x' Hk. destruct (I3 _ _ Hk) as (H1 & H2 & H3). split; [done|]. split; [done|]. intros q Hq.
    destruct (H3 q Hq) as [H4 H5]. split; [|done]. apply not_elem_of_cons. split; [|done]. intros ->.
    rewrite Hps, lookup_insert_eq in Hk. by simplify_eq.
  - intros d a Ha. destruct (I4 _ _ Ha) as (H1 & H2). split; [|done].
    unfold docs. cbn. destruct (sp_editor_document x) as [d'|] eqn:Ed; [|done]. apply not_elem_of_cons. split; [|done].
    intros ->. destruct (Hdoc d' eq_refl) as (_ & _ & E). by rewrite E, lookup_delete_eq in Ha.
  - intros k v Hv. destruct (I5 _ _ Hv) as (H1 & H2 & H3). split; [done|]. split; [|done].
    apply not_elem_of_cons. split; [|done]. intros ->. congruence.
  - split; [by apply list.NoDup_cons|]. intros k [->|Hk]%elem_of_cons; auto.
  - unfold docs. cbn. destruct (sp_editor_document x) as [d'|] eqn:Ed; [|done].
    destruct (Hdoc d' eq_refl) as (H1 & H2 & _). split; [by apply list.NoDup_cons|].
    intros d [->|Hk]%elem_of_cons; auto.
  - intros e [->|He]%elem_of_cons; auto.
Qed.

Lemma inv_step y l : Inv y → enabled l y → Inv (exec digest l y).
Proof.
  intros I He. destruct l; cbn [enabled] in He.
  - by apply inv_register.
  - apply (inv_shrink y _ (saving y)); eauto with shrink.
  - by apply inv_reserve.
  - destruct He as [v Hv]. cbn [exec]. rewrite Hv. by apply inv_finish.
  - destruct He as [v Hv]. cbn [exec]. rewrite Hv.
    apply inv_shrink; [done|apply guard_drop_shrinks|apply delete_subseteq].
  - destruct He. by apply inv_insert.
  - by apply inv_consume.
  - apply (inv_shrink y _ (saving y)); eauto with shrink.
  - apply (inv_shrink y _ (saving y)); eauto with shrink.
  - apply (inv_shrink y _ (saving y)); eauto with shrink.
  - apply (inv_shrink y _ (saving y)); eauto with shrink.
  - apply (inv_shrink y _ (saving y)); eauto with shrink.
  - apply (inv_shrink y _ (saving y)); [done| |done]. split; reflexivity.
Qed.

Lemma inv_steps P y y' : Inv y → steps digest P y y' → Inv y'.
Proof. intros I H. induction H; auto using inv_step. Qed.

Lemma inv_reachable y : reachable digest y → Inv y.
Proof. apply inv_steps, inv_default. Qed.
End Preservation.
