(* ===== verification/FilePlansProps.v ===== *)
(** The properties of the plan store, in terms of the interleavings of
    [FilePlansSafe]. *)

From S2P Require Import Prelude Str Model Ip RemotePath Editor Files FilePlans FilePlansSafe.

Section Properties.
Context (digest : list Z → Digest).
Implicit Types (y : Sys).

(** ** Revoking a session *)

Definition session_free (h : HostId) (hs : HostSessionId) (s : FilePlanStore) : Prop :=
  (∀ k x p, plans s !! k = Some x → sp_plan x = Some p → plan_of_session h hs p = false) ∧
  (∀ d a, documents s !! d = Some a → doc_of_session h hs a = false).

(** Steps that plan or open something for the session [(h, hs)] anew. *)
Definition grants (h : HostId) (hs : HostSessionId) (l : label) : bool :=
  let of_session info := bool_decide (info_host_id info = h) && bool_decide (info_host_session_id info = hs) in
  match l with
  | LRegister _ _ info _ _ _ _ _ => of_session info
  | LInsert _ _ _ _ _ _ p => of_session (payload_client p)
  | _ => false
  end.

Lemma session_free_shrinks h hs s s' : session_free h hs s → shrinks s s' → session_free h hs s'.
Proof.
  intros [Hp Hd] [Sp Sd]. split.
  - intros k x' p Hx Hpl. destruct (Sp _ _ Hx) as (x & Hx0 & [-> | ->]); [eauto|]. discriminate Hpl.
  - intros d a' Ha. destruct (Sd _ _ Ha) as (a & Ha0 & Hs). unfold doc_of_session.
    destruct (same_doc_fields _ _ Hs) as (-> & -> & _). by apply (Hd d).
Qed.

Lemma revoke_session_free h hs s :
  plans_poisoned s = false → documents_poisoned s = false → session_free h hs (revoke_session h hs s).
Proof.
  intros Hp Hd. unfold revoke_session. rewrite Hd. cbn. rewrite Hp. split; cbn.
  - intros k x p [_ Hk]%retain_some Hx. rewrite Hx in Hk. by apply negb_true_iff in Hk.
  - intros d a [_ Hk]%retain_some. by apply negb_true_iff in Hk.
Qed.

Lemma session_free_doc h hs s ds d a : session_free h hs s → docs_sub (documents s) ds →
  doc_of_session h hs a = false → ∀ d' a', <[d := a]> ds !! d' = Some a' → doc_of_session h hs a' = false.
Proof.
  intros Hf Hs Ha d' a'. destruct (decide (d' = d)) as [->|Hne].
  - rewrite lookup_insert_eq. by intros [= <-].
  - rewrite lookup_insert_ne by done. intros Hl.
    apply (proj2 (session_free_shrinks h hs s (with_documents s ds) Hf (conj (reflexivity _) Hs)) d' a' Hl).
Qed.

Lemma session_free_plan h hs s ps k x p : session_free h hs s → plans_sub (plans s) ps → sp_plan x = Some p →
  plan_of_session h hs p = false →
  ∀ k' x' p', <[k := x]> ps !! k' = Some x' → sp_plan x' = Some p' → plan_of_session h hs p' = false.
Proof.
  intros Hf Hs Hx Hp k' x' p'. destruct (decide (k' = k)) as [->|Hne].
  - rewrite lookup_insert_eq. intros [= <-]. congruence.
  - rewrite lookup_insert_ne by done. intros Hl.
    apply (proj1 (session_free_shrinks h hs s (with_plans s ps) Hf (conj Hs (reflexivity _))) k' x' p' Hl).
Qed.

Lemma same_session_free h hs info a : same_session info a → doc_of_session h hs a = false →
  bool_decide (info_host_id info = h) && bool_decide (info_host_session_id info = hs) = false.
Proof. unfold same_session, doc_of_session. by intros [= -> -> _]. Qed.

Lemma free_register h hs y now id info path rev bytes nl bom :
  session_free h hs (store y) → grants h hs (LRegister now id info path rev bytes nl bom) = false →
  session_free h hs (store (exec digest (LRegister now id info path rev bytes nl bom) y)).
Proof.
  intros Hf Hg. cbn [exec]. pose proof (register_cases digest now id info path rev bytes nl bom (store y)) as Hc.
  destruct (register_editor_document _ _ _ _ _ _ _ _ _ _) as [[r|e] s']; [|by eapply session_free_shrinks].
  destruct Hc as (Hp & ds & a & Hd & _ & Hdocs & Hss). cbn. split.
  - apply (proj1 (session_free_shrinks h hs (store y) (with_plans (store y) (plans s')) Hf (conj Hp (reflexivity _)))).
  - rewrite Hdocs. eapply session_free_doc; [done|done|]. unfold same_session in Hss. simplify_eq.
    unfold doc_of_session. destruct a; cbn in *; subst. done.
Qed.

Lemma free_reserve h hs y now info plan id :
  session_free h hs (store y) → session_free h hs (store (exec digest (LReserve now info plan id) y)).
Proof.
  intros Hf. cbn [exec]. pose proof (reserve_cases now info plan id (store y)) as Hc.
  destruct (save_reserve _ _ _ _ _) as [[d|e] s']; cbn [store]; [|by subst].
  destruct Hc as (a & Ha & -> & _ & _ & ->). eapply session_free_shrinks; [done|].
  split; [reflexivity|]. by apply docs_sub_use.
Qed.

Lemma free_finish h hs y now plan v text rev bytes :
  session_free h hs (store y) → session_free h hs (finish_save digest now plan v text rev bytes (store y)).
Proof.
  intros Hf. unfold finish_save. destruct (save_check _ _ _ _ _ _) as [body|e];
    [|eapply session_free_shrinks; eauto with shrink].
  pose proof (save_finish_cases now (sv_info v) plan (sv_document_id v) (sv_document v) body (store y)) as Hc.
  destruct (save_finish _ _ _ _ _ _ _) as [[w|e] s'].
  2: { eapply session_free_shrinks; [|apply guard_drop_shrinks]. by eapply session_free_shrinks. }
  destruct Hc as (a & Ha & _ & Hss & Hdocs & _ & Hs & ps & ex & Hsub & _ & Hps). split.
  - rewrite Hps. eapply session_free_plan; [done|done|done|]. unfold plan_of_session. cbn. injection Hs as -> -> _.
    eapply same_session_free; [done|]. by apply (proj2 Hf (sv_document_id v)).
  - rewrite Hdocs. eapply session_free_doc; [done|reflexivity|]. exact (proj2 Hf _ a Ha).
Qed.

Lemma free_insert h hs y now id kind risk cp items p :
  session_free h hs (store y) → grants h hs (LInsert now id kind risk cp items p) = false →
  session_free h hs (store (exec digest (LInsert now id kind risk cp items p) y)).
Proof.
  intros Hf Hg. cbn [exec store]. unfold insert.
  match goal with |- context [insert_with_id now ?req _] => pose proof (insert_with_id_cases now req (store y)) as Hc end.
  destruct (insert_with_id _ _ _) as [[v|e] s']; cbn [snd]; [|by eapply session_free_shrinks].
  destruct Hc as (Hd & _ & Hs & ps & ex & Hsub & _ & Hps). cbn in *. split.
  - rewrite Hps. eapply session_free_plan; [done|done|done|]. unfold plan_of_session. cbn. by injection Hs as -> -> _.
  - rewrite Hd. apply Hf.
Qed.

Definition of_session (h : HostId) (hs : HostSessionId) (e : Executed) : bool := plan_of_session h hs (ex_plan e).

Lemma free_step h hs y l :
  session_free h hs (store y) → grants h hs l = false → enabled l y →
  session_free h hs (store (exec digest l y)) ∧
  List.filter (of_session h hs) (executed (exec digest l y)) = List.filter (of_session h hs) (executed y).
Proof.
  intros Hf Hg He. destruct l; cbn [enabled] in He.
  all: try solve [split; [eapply session_free_shrinks; [done|]; cbn [exec set_store store]; eauto with shrink|done]].
  - split; [by apply free_register|]. cbn [exec]. by destruct (register_editor_document _ _ _ _ _ _ _ _ _ _).
  - split; [by apply free_reserve|]. cbn [exec]. by destruct (save_reserve _ _ _ _ _).
  - destruct He as [v Hv]. cbn [exec]. rewrite Hv. split; [by apply free_finish|done].
  - destruct He as [v Hv]. cbn [exec]. rewrite Hv. split; [|done].
    eapply session_free_shrinks; [done|apply guard_drop_shrinks].
  - split; [by apply free_insert|done].
  - cbn [exec]. pose proof (plan_consume_shrinks now id host session sftp (store y)) as Hsh.
    pose proof (plan_consume_cases now id host session sftp (store y)) as Hc.
    destruct (consume _ _ _ _ _ _) as [[p|e] s']; cbn [snd] in Hsh; split; try by eapply session_free_shrinks.
    + destruct Hc as (x & Hx & Hp & _). cbn [executed List.filter]. unfold of_session at 1. cbn [ex_plan]. by rewrite (proj1 Hf _ _ _ Hx Hp).
    + done.
  - split; [|done]. eapply session_free_shrinks; [done|]. split; reflexivity.
Qed.

(** However the callers interleave, the store holds at most 100 plans
    and 100 open documents. *)
Theorem file_plan_store_bounded y :
  reachable digest y → zsize (plans (store y)) ≤ PLAN_CAP ∧ zsize (documents (store y)) ≤ PLAN_CAP.
Proof. intros I%inv_reachable. split; apply I. Qed.

(** [C4] A reviewed plan is handed out for execution at most once, and an
    opened editor document is saved at most once, in any interleaving of
    planning, approval, cancellation, expiry and revocation. *)
Theorem file_plan_executes_once y :
  reachable digest y → NoDup (ids (executed y)) ∧ NoDup (docs (executed y)).
Proof. intros I%inv_reachable. split; apply I. Qed.

(** What is executed is bound to the session it was planned for: the
    plan carries its own identifier and the session of its client, and an
    editor save writes an encoding of some text, in the line endings of the
    document, to the very path, revision and content registered when that
    document was opened on that session. *)
Theorem executed_plan_is_bound y e :
  reachable digest y → e ∈ executed y → plan_ok (registered y) (ex_id e) (ex_document e) (ex_plan e).
Proof. intros I%inv_reachable. apply I. Qed.

(** Revoking a session takes back everything it could do: from then on,
    unless something is planned or opened for that session again, no plan of
    it is executed, including saves that were being planned at that moment. *)
Theorem revoked_session_executes_nothing h hs y y' :
  plans_poisoned (store y) = false → documents_poisoned (store y) = false →
  steps digest (λ l, grants h hs l = false) (exec digest (LRevokeSession h hs) y) y' →
  session_free h hs (store y') ∧
  List.filter (of_session h hs) (executed y') = List.filter (of_session h hs) (executed y).
Proof.
  intros Hp Hd Hs. assert (session_free h hs (store (exec digest (LRevokeSession h hs) y))) as Hf
    by (by apply revoke_session_free).
  change (executed y) with (executed (exec digest (LRevokeSession h hs) y)).
  induction Hs as [z|z l z' Hg He Hs IH]; [done|].
  destruct (free_step h hs z l Hf Hg He) as [Hf' <-]. auto.
Qed.

(** A save that is given up before it was stored leaves the document as
    it was: if the guard runs before the document expires, the store is
    exactly the one the reservation found. *)
Theorem abandoned_save_restores now now' info plan id s a s' :
  save_reserve now info plan id s = (Ok a, s') → now' < ed_expires a → guard_drop now' id plan s' = s.
Proof.
  intros E Hn. pose proof (reserve_cases now info plan id s) as Hc. rewrite E in Hc.
  destruct Hc as (x & Hx & -> & Hr & _ & ->).
  assert (documents_poisoned s = false) as Hpd.
  { unfold save_reserve, lock_documents in E. unfold_bind. destruct (documents_poisoned s); [discriminate|done]. }
  unfold guard_drop. cbn. rewrite Hpd. unfold release_editor_reservation. rewrite lookup_insert_eq. cbn.
  rewrite bool_decide_false by auto. rewrite (proj2 (Z.leb_gt (ed_expires x) now')) by exact Hn. cbn. unfold with_documents. cbn.
  rewrite insert_insert_eq. assert (set_use x Ready = x) as Ex by (destruct x; cbn in *; by subst).
  change (set_use (set_use x (Planning plan)) Ready) with (set_use x Ready). rewrite Ex, insert_id by done.
  by destruct s.
Qed.
End Properties.

(** ** A concrete run: open, plan a save, approve it *)

Section Example.
Definition ex_digest (b : list Z) : Digest := b.
Definition ex_info : SftpSessionInfo :=
  sample_info 7%N 1%N 2%N [{| ext_name := lit "posix-rename@openssh.com"; ext_version := lit "1" |}].
Definition ex_rev : EditorRevision :=
  {| er_identity := {| ei_kind := KFile; ei_size := Some 2; ei_modified := Some 5 |};
     raw_mode := 33188; er_uid := 0; er_gid := 0 |}.
Definition ex_register : label := LRegister 0 100%N ex_info (lit "/a") ex_rev (lit "hi") Lf false.
Definition ex_reserve : label := LReserve 1 ex_info 50%N 100%N.
Definition ex_finish : label := LFinish 2 50%N (lit "ho") (Ok ex_rev) (Ok (lit "hi")).
Definition ex_consume : label := LConsume 3 50%N 1%N 2%N 7%N.
Definition ex_run (ls : list label) : Sys := foldl (λ y l, exec ex_digest l y) sys_default ls.
Definition ex_sys : Sys := ex_run [ex_register; ex_reserve; ex_finish; ex_consume].
Definition ex_executed : Executed :=
  {| ex_id := 50%N; ex_document := Some 100%N;
     ex_plan := {| view := {| fp_id := 50%N; fp_host_id := 1%N; fp_host_session_id := 2%N; fp_sftp_session_id := 7%N;
                              fp_kind := OpEditText; fp_risk := High; fp_conflict_policy := None;
                              fp_items := [{| source_display := lit "Edited text"; destination_display := lit "/a";
                                              item_size_bytes := Some (lit "2") |}] |};
                   payload := EditorSave ex_info (lit "/a") ex_rev (lit "hi") (lit "ho") |} |}.

Lemma ex_reachable : reachable ex_digest ex_sys.
Proof.
  apply (steps_next _ _ _ ex_register); [done|reflexivity|].
  apply (steps_next _ _ _ ex_reserve); [done|by apply (bool_decide_unpack _); vm_compute|].
  apply (steps_next _ _ _ ex_finish); [done|by eexists; vm_compute; reflexivity|].
  apply (steps_next _ _ _ ex_consume); [done|done|]. apply steps_refl.
Qed.

Lemma file_plan_store_bounded_witness : zsize (plans (store ex_sys)) ≤ PLAN_CAP ∧ zsize (documents (store ex_sys)) ≤ PLAN_CAP.
Proof. apply (file_plan_store_bounded ex_digest), ex_reachable. Defined.

Lemma file_plan_executes_once_witness : NoDup (ids (executed ex_sys)) ∧ NoDup (docs (executed ex_sys)) ∧ executed ex_sys = [ex_executed].
Proof.
  assert (NoDup (ids (executed ex_sys)) ∧ NoDup (docs (executed ex_sys))) as [? ?]
    by apply (file_plan_executes_once ex_digest), ex_reachable.
  split; [done|]. split; [done|]. vm_compute. reflexivity.
Defined.

Lemma executed_plan_is_bound_witness : plan_ok (registered ex_sys) 50%N (Some 100%N) (ex_plan ex_executed).
Proof.
  apply (executed_plan_is_bound ex_digest ex_sys ex_executed); [apply ex_reachable|].
  assert (executed ex_sys = [ex_executed]) as -> by (vm_compute; reflexivity). apply list_elem_of_singleton. done.
Defined.

(** The session is revoked while a save is being planned; finishing it and
    approving it change nothing. *)
Definition ex_planning : Sys := ex_run [ex_register; ex_reserve].
Definition ex_late : Sys :=
  foldl (λ y l, exec ex_digest l y) (exec ex_digest (LRevokeSession 1%N 2%N) ex_planning) [ex_finish; ex_consume].

Lemma revoked_session_executes_nothing_witness :
  session_free 1%N 2%N (store ex_late) ∧
  List.filter (of_session 1%N 2%N) (executed ex_late) = List.filter (of_session 1%N 2%N) (executed ex_planning).
Proof.
  apply (revoked_session_executes_nothing ex_digest 1%N 2%N ex_planning ex_late); [reflexivity|reflexivity|].
  apply (steps_next _ _ _ ex_finish); [reflexivity|by eexists; vm_compute; reflexivity|].
  apply (steps_next _ _ _ ex_consume); [reflexivity|done|]. apply steps_refl.
Defined.

Lemma abandoned_save_restores_witness :
  ∃ a s', save_reserve 1 ex_info 50%N 100%N (store (ex_run [ex_register])) = (Ok a, s') ∧
    guard_drop 2 100%N 50%N s' = store (ex_run [ex_register]).
Proof.
  destruct (save_reserve 1 ex_info 50%N 100%N (store (ex_run [ex_register]))) as [[a|e] s'] eqn:E;
    [|vm_compute in E; discriminate].
  exists a, s'. split; [done|].
  apply (abandoned_save_restores 1 2 ex_info 50%N 100%N (store (ex_run [ex_register])) a s'); [done|].
  vm_compute in E. injection E as <- _. reflexivity.
Defined.
End Example.
