(* ===== verification/Calls.v ===== *)
(** The calls the SFTP workspace makes: the methods of the [SftpClient] trait
    ([nexus-sftp/src/client.rs]), the operating system, and the shared table
    of the transfer manager.  The server and the file system belong to
    others: a reply may be anything of its type. *)

From S2P Require Import Prelude Str Model Files Prog.

Inductive TransferState :=
| Queued | Preparing | AwaitingDecision | Transferring | CancelRequested | Finalizing
| Completed | TFailed | TCancelled | TOutcomeUnknown.
#[export] Instance TransferState_eq_dec : EqDecision TransferState.
Proof. solve_decision. Defined.

Inductive StagedUploadFailure :=
| NotCreated (e : AppError) | OwnedFailure (e : AppError) | CreationOutcomeUnknown (e : AppError).

Inductive StagingCleanup := Removed | AlreadyAbsent.

(** [std::io::Error], by what the code tells apart. *)
Inductive IoError := IoNotFound | IoOther.

(** What a staged upload reads: a selected file or the bytes of an edit. *)
Inductive UploadReader := FromHandle (h : Handle) | FromBytes (b : list Z).

(** How a local object is opened; each maps its failure to its own error. *)
Inductive OpenMode := OpenDirectory | OpenSource | OpenIdentity.

Inductive call :=
(* SftpClient *)
| CStat (path : str)
| CIdentity (path : str)
| CEditorRevision (path : str)
| CReadEditorBytes (path : str)
| CUploadStaged (reader : UploadReader) (staging : str)
| CPreserveEditorMetadata (staging : str) (expected : EditorRevision)
| CCommitNew (staging destination : str)
| CCommitReplace (staging destination : str)
| CRemoveOwnedStaging (staging : str)
| CDownload (remote : str)
| CCreateDir (path : str)
| CRenameNoclobber (source destination : str)
| CRemoveFile (path : str)
| CRemoveDir (path : str)
(* operating system *)
| CSymlinkMetadata (p : Path)
| COpen (m : OpenMode) (p : Path)
| CHandleMetadata (h : Handle)
| CFileId (h : Handle)
| CExists (p : Path)
| CTryClone (h : Handle)
| CSeekStart (h : Handle)
| CTempfileIn (directory : Path)
| CSyncAll
| CPersist (destination : Path)
| CPersistNoclobber (destination : Path)
(* the manager's table and the job's cancellation token *)
| CSetState (next : TransferState)
| CEnterFinalizing
| CIsCancelled
| CCleanupUnconfirmed
| CSpawnCleanup (staging : str).

(** An upload also tells whether the server confirmed the exclusive creation
    of the staging file: [StagingOwnership]. *)
Definition reply (c : call) : Type :=
  match c with
  | CStat _ => Res RemoteEntry
  | CIdentity _ => Res (option EntryIdentity)
  | CEditorRevision _ => Res EditorRevision
  | CReadEditorBytes _ => Res (list Z)
  | CUploadStaged _ _ => bool * result StagedUploadFailure Z
  | CPreserveEditorMetadata _ _ | CCommitNew _ _ | CCommitReplace _ _ | CCreateDir _
  | CRenameNoclobber _ _ | CRemoveFile _ | CRemoveDir _ => Res unit
  | CRemoveOwnedStaging _ => Res StagingCleanup
  | CDownload _ => Res Z
  | CSymlinkMetadata _ => result IoError Metadata
  | COpen _ _ => option Handle
  | CHandleMetadata _ => option Metadata
  | CFileId _ => option LocalObjectId
  | CExists _ => bool
  | CTryClone _ => option Handle
  | CSeekStart _ | CTempfileIn _ | CSyncAll | CPersist _ | CPersistNoclobber _ => bool
  | CSetState _ | CCleanupUnconfirmed | CSpawnCleanup _ => unit
  | CEnterFinalizing => Res unit
  | CIsCancelled => bool
  end.

Abbreviation prg A := (prog reply A) (only parsing).
Abbreviation iop A := (io reply AppError A) (only parsing).
Abbreviation trace := (list (event reply)) (only parsing).

(** [p.await] for one call. *)
Definition ask (c : call) : prog reply (reply c) := Do c (λ r, Ret r).

(** One call whose reply is a [Result] the caller passes on. *)
Definition client_stat p : iop RemoteEntry := ask (CStat p).
Definition client_identity p : iop (option EntryIdentity) := ask (CIdentity p).
Definition client_editor_revision p : iop EditorRevision := ask (CEditorRevision p).
Definition client_read_editor_bytes p : iop (list Z) := ask (CReadEditorBytes p).
Definition client_create_dir p : iop unit := ask (CCreateDir p).
Definition client_rename_noclobber a b : iop unit := ask (CRenameNoclobber a b).
Definition client_remove_file p : iop unit := ask (CRemoveFile p).
Definition client_remove_dir p : iop unit := ask (CRemoveDir p).

(** [opt.ok_or(e)] on the reply of a fallible operation. *)
Definition ask_some {A} (p : prog reply (option A)) (e : AppError) : iop A :=
  let! r := p in Ret (ok_or r e).
Definition ask_true (p : prog reply bool) (e : AppError) : iop unit :=
  let! r := p in Ret (ensure (negb r) e).

Definition local_access_error (m : string) : AppError := app_error LocalAccess m.
Definition transfer_error (m : string) : AppError := app_error Transfer m.

(** ** Inverting single calls *)

Lemma runs_ask c t r : runs (ask c) t r → t = [Ev c r].
Proof.
  intros (r' & t' & -> & H)%runs_do_inv. by apply runs_ret_inv in H as [-> ->].
Qed.

Lemma runs_ask_some {A} (p : prg (option A)) e t a :
  runs (ask_some p e : prg _) t (Ok a) → runs p t (Some a).
Proof.
  unfold ask_some. intros (o & t1 & t2 & H1 & H2 & ->)%runs_bind. apply runs_ret_inv in H2 as [-> H2].
  symmetry in H2. apply ok_or_ok in H2 as ->. by rewrite app_nil_r.
Qed.

Lemma runs_ask_true (p : prg bool) e t u : runs (ask_true p e : prg _) t (Ok u) → runs p t true.
Proof.
  unfold ask_true. intros (o & t1 & t2 & H1 & H2 & ->)%runs_bind. apply runs_ret_inv in H2 as [-> H2].
  symmetry in H2. apply ensure_ok in H2. apply negb_false_iff in H2 as ->. by rewrite app_nil_r.
Qed.

Lemma runs_identity p t r : runs (client_identity p : prg _) t r → t = [Ev (CIdentity p) r].
Proof. exact (runs_ask (CIdentity p) t r). Qed.
Lemma runs_stat p t r : runs (client_stat p : prg _) t r → t = [Ev (CStat p) r].
Proof. exact (runs_ask (CStat p) t r). Qed.
Lemma runs_editor_revision p t r : runs (client_editor_revision p : prg _) t r → t = [Ev (CEditorRevision p) r].
Proof. exact (runs_ask (CEditorRevision p) t r). Qed.
Lemma runs_read_editor_bytes p t r : runs (client_read_editor_bytes p : prg _) t r → t = [Ev (CReadEditorBytes p) r].
Proof. exact (runs_ask (CReadEditorBytes p) t r). Qed.

(** An event of one of the pieces of a trace. *)
Ltac find_event :=
  rewrite ?elem_of_app; repeat first [left; apply list_elem_of_singleton; reflexivity | right].

(** A well-behaved environment, used to exhibit concrete runs: the server has
    the entries of [remote], the local disk those of [local] (files and
    directories), nobody cancels and every operation succeeds. *)
Definition sample_metadata (dir : bool) : Metadata :=
  {| md_is_file := negb dir; md_is_dir := dir; md_is_reparse := false; md_len := 4; md_modified := Some 1 |}.
Definition sample_identity : LocalIdentity :=
  {| li_size := 4; li_modified := Some 1; li_object_id := {| storage_id := 3; file_id := 8 |} |}.

Definition sample_answer (remote : str → option EntryIdentity) (local : Path → option bool)
    (revision : EditorRevision) (content : list Z) (c : call) : reply c :=
  match c return reply c with
  | CStat p => Ok {| re_name := lit "f.txt"; re_display_name := lit "f.txt"; re_path := p; re_kind := KFile;
                    re_size_bytes := Some (lit "4"); re_modified_at := None; re_permissions := None;
                    re_uid := Some 0; re_gid := Some 0 |}
  | CIdentity p => Ok (remote p)
  | CEditorRevision _ => Ok revision
  | CReadEditorBytes _ => Ok content
  | CUploadStaged r _ => (true, Ok match r with FromHandle _ => 4 | FromBytes b => zlen b end)
  | CPreserveEditorMetadata _ _ | CCommitNew _ _ | CCommitReplace _ _ | CCreateDir _
  | CRenameNoclobber _ _ | CRemoveFile _ | CRemoveDir _ => Ok tt
  | CRemoveOwnedStaging _ => Ok Removed
  | CDownload _ => Ok 4
  | CSymlinkMetadata p => match local p with Some d => Ok (sample_metadata d) | None => Err IoNotFound end
  | COpen _ _ => Some 1%N
  | CHandleMetadata _ => Some (sample_metadata false)
  | CFileId _ => Some (li_object_id sample_identity)
  | CExists p => match local p with Some _ => true | None => false end
  | CTryClone _ => Some 2%N
  | CSeekStart _ | CTempfileIn _ | CSyncAll | CPersist _ | CPersistNoclobber _ => true
  | CSetState _ | CCleanupUnconfirmed | CSpawnCleanup _ => tt
  | CEnterFinalizing => Ok tt
  | CIsCancelled => false
  end.
