(* ===== verification/SftpClient.v ===== *)
(** The SFTP client ([RawSftpClient] of [nexus-sftp/src/client.rs]): each
    method as a program over the requests of the SFTP session, the local
    reader and writer, and the caller's token.

    The session ([russh_sftp]) and [chrono] are not part of the repository:
    a request is a call and its reply may be anything of its type;
    [file_type], [rfc3339] and [permission_text] are parameters. *)

From stdpp Require Import sorting.
From S2P Require Import Prelude Str Model Ip RemotePath Utf8 Editor Files Prog Interp Calls.

Definition CLIENT_CHUNK_BYTES : Z := 64 * 1024.
Definition LISTING_ENTRY_CAP : Z := 5000.

(** ** What the session answers, as far as the client tells it apart *)

Inductive StatusCode :=
| SOk | SEof | SNoSuchFile | SPermissionDenied | SOpUnsupported | SNoConnection | SConnectionLost | SOther.
#[export] Instance StatusCode_eq_dec : EqDecision StatusCode.
Proof. solve_decision. Defined.

Inductive SftpError := EStatus (s : StatusCode) | ETimeout | ELimited | EOther.

Inductive FileType := FtFile | FtDir | FtSymlink | FtOther.
#[export] Instance FileType_eq_dec : EqDecision FileType.
Proof. solve_decision. Defined.

Record FileAttributes := {
  fa_size : option Z;
  fa_uid : option Z;
  fa_gid : option Z;
  fa_permissions : option Z;
  fa_mtime : option Z
}.
Definition attrs_default : FileAttributes := Build_FileAttributes None None None None None.

Inductive OpenFlags := FRead | FCreateExclusive.

Inductive Packet := PStatus (s : StatusCode) | PData.

Record ServerFile := { sf_filename : str; sf_attrs : FileAttributes }.

Record RawLimits := { max_packet_len : Z; max_read_len : Z; max_write_len : Z; max_open_handles_len : Z }.

Inductive request :=
| RInit
| RLimits
| RSetLimits (packet_len read_len write_len open_handles : option Z)
| RRealpath (path : str)
| RCloseSession
| RLstat (path : str)
| RFstat (handle : str)
| ROpen (path : str) (flags : OpenFlags) (attrs : FileAttributes)
| RClose (handle : str)
| RRead (handle : str) (offset len : Z)
| RWrite (handle : str) (offset : Z) (data : list Z)
| RFsync (handle : str)
| ROpendir (path : str)
| RReaddir (handle : str)
| RSetstat (path : str) (attrs : FileAttributes)
| RMkdir (path : str) (attrs : FileAttributes)
| RRemove (path : str)
| RRmdir (path : str)
| RHardlink (old new : str)
| RExtended (name : str) (data : list Z)
(* the caller's reader, writer and progress callback *)
| LRead (len : Z)
| LWriteAll (data : list Z)
| LFlush
| LProgress (confirmed : Z)
| LMarkOwned
(* [select!] of a request against the caller's token, and a loop that never ends *)
| Race (c : request)
| Spin.

(** [None] in a race: the token was first. *)
Fixpoint answer (c : request) : Type :=
  match c with
  | RInit => result SftpError (Z * gmap str str)
  | RLimits => result SftpError RawLimits
  | RSetLimits _ _ _ _ | RCloseSession | LProgress _ | LMarkOwned => unit
  | RRealpath _ => result SftpError (list str)
  | RLstat _ | RFstat _ => result SftpError FileAttributes
  | ROpen _ _ _ | ROpendir _ => result SftpError str
  | RRead _ _ _ => result SftpError (list Z)
  | RReaddir _ => result SftpError (list ServerFile)
  | RClose _ | RWrite _ _ _ | RFsync _ | RSetstat _ _ | RMkdir _ _ | RRemove _ | RRmdir _ | RHardlink _ _ =>
      result SftpError StatusCode
  | RExtended _ _ => result SftpError Packet
  | LRead _ => option (list Z)
  | LWriteAll _ | LFlush => bool
  | Race c => option (answer c)
  | Spin => Empty_set
  end.

Abbreviation rprg A := (prog answer A) (only parsing).
Abbreviation rio A := (io answer AppError A) (only parsing).
Abbreviation rtrace := (list (event answer)) (only parsing).

Definition req (c : request) : prog answer (answer c) := Do c (λ r, Ret r).
Definition spin (A : Type) : prog answer A := Do Spin (λ e : answer Spin, match e : Empty_set with end).

(** ** Errors *)

Definition not_found : AppError := app_error NotFound "The remote entry no longer exists.".
Definition conflict : AppError := app_error Conflict "The destination already exists.".
Definition local_io : AppError := app_error LocalAccess "The selected local file could not be read or written.".
Definition cancelled_transfer : AppError := app_error Cancelled "The transfer was cancelled.".
Definition offset_overflow : AppError := app_error Transfer "The transfer offset overflowed.".
Definition editor_limit : AppError := app_error FilePolicy "The remote text file exceeds the 1 MiB editor limit.".

Definition map_status (s : StatusCode) : AppError :=
  match s with
  | SNoSuchFile => not_found
  | SPermissionDenied => app_error SftpDenied "The remote account denied this file operation."
  | SOpUnsupported => app_error SftpUnavailable "The SFTP server does not support this operation."
  | SNoConnection | SConnectionLost => app_error Connection "The SFTP connection was lost."
  | _ => app_error SftpProtocol "The SFTP server rejected the operation."
  end.

Definition map_error (e : SftpError) : AppError :=
  match e with
  | EStatus s => map_status s
  | ETimeout => app_error Timeout "The SFTP server did not respond in time."
  | ELimited => app_error SftpProtocol "The SFTP request exceeded a negotiated limit."
  | EOther => app_error SftpProtocol "The SFTP request failed."
  end.

Definition initialization_error (e : SftpError) : AppError :=
  match e with
  | EStatus SPermissionDenied => app_error SftpDenied "The SSH server denied the SFTP subsystem."
  | _ => app_error SftpUnavailable "The SSH server did not provide a usable SFTP subsystem."
  end.

Definition map_err {E F A} (f : E → F) (r : result E A) : result F A :=
  match r with Ok a => Ok a | Err e => Err (f e) end.

Definition status_ok (r : result SftpError StatusCode) : Res unit :=
  s ← map_err map_error r;
  if bool_decide (s = SOk) then Ok tt else Err (map_status s).

Definition mutation_status (r : result SftpError StatusCode) (unknown_message : string) : Res unit :=
  match r with
  | Ok s => if bool_decide (s = SOk) then Ok tt else Err (map_status s)
  | Err (EStatus s) => Err (map_status s)
  | Err _ => Err (app_error OutcomeUnknown unknown_message)
  end.

(** [raw.request(..).await.map_err(map_error)?] *)
Definition lstat (path : str) : rio FileAttributes := let! r := req (RLstat path) in Ret (map_err map_error r).
Definition fstat (handle : str) : rio FileAttributes := let! r := req (RFstat handle) in Ret (map_err map_error r).
Definition open (path : str) (flags : OpenFlags) (attrs : FileAttributes) : rio str :=
  let! r := req (ROpen path flags attrs) in Ret (map_err map_error r).
Definition opendir (path : str) : rio str := let! r := req (ROpendir path) in Ret (map_err map_error r).
Definition setstat (path : str) (attrs : FileAttributes) : rio unit :=
  let! r := req (RSetstat path attrs) in Ret (status_ok r).
Definition close_handle (handle : str) : rio unit := let! r := req (RClose handle) in Ret (status_ok r).

(** [length ++ bytes], the string of the SFTP wire format. *)
Definition to_be_bytes (n : Z) : list Z :=
  [Z.land (Z.shiftr n 24) 255; Z.land (Z.shiftr n 16) 255; Z.land (Z.shiftr n 8) 255; Z.land n 255].

Definition encode_string (output : list Z) (value : str) : Res (list Z) :=
  if u32_max <? len value then Err (app_error FilePolicy "The remote path is too long.")
  else Ok (output ++ to_be_bytes (len value) ++ as_bytes value).

Definition hardlink_name : str := lit "hardlink@openssh.com".
Definition posix_rename_name : str := lit "posix-rename@openssh.com".
Definition fsync_name : str := lit "fsync@openssh.com".
Definition limits_name : str := lit "limits@openssh.com".

Record RawSftpClient := {
  rc_info : SftpSessionInfo;
  extension_map : gmap str str;
  read_chunk : Z;
  write_chunk : Z
}.

Definition rc_supports (self : RawSftpClient) (name version : str) : bool :=
  match extension_map self !! name with Some value => str_eqb value version | None => false end.

(** ** Connecting *)

(** [a.name.cmp(&b.name)]: UTF-8 order is the order of the scalar values. *)
Fixpoint str_leb (a b : str) : bool :=
  match a, b with
  | [], _ => true
  | _ :: _, [] => false
  | x :: a', y :: b' => (x <? y) || ((x =? y) && str_leb a' b')
  end.

Definition sort_extensions (m : gmap str str) : list SftpExtension :=
  merge_sort (λ a b, Is_true (str_leb (ext_name a) (ext_name b)))
    (map (λ kv, {| ext_name := kv.1; ext_version := kv.2 |}) (map_to_list m)).

Definition positive (n : Z) : option Z := if 0 <? n then Some n else None.
Definition chunk (n : option Z) : Z := Z.max 1 (Z.min CLIENT_CHUNK_BYTES (from_option id CLIENT_CHUNK_BYTES n)).

Definition connect (id : SftpSessionId) (host_id : HostId) (host_session_id : HostSessionId) : rio RawSftpClient :=
  let! r := req RInit in
  version ← io_lift (map_err initialization_error r);
  if negb (version.1 =? 3) then
    let! _ := req RCloseSession in
    io_fail (app_error SftpUnavailable "The server negotiated an unsupported SFTP protocol version.")
  else
  let exts := version.2 in
  negotiated ←
    (if match exts !! limits_name with Some v => str_eqb v (lit "1") | None => false end then
       let! l := req RLimits in
       value ← io_lift (map_err initialization_error l);
       let packet := positive (max_packet_len value) in
       let read := positive (max_read_len value) in
       let write := positive (max_write_len value) in
       let handles := positive (max_open_handles_len value) in
       let! _ := req (RSetLimits packet read write handles) in
       mret (packet, read, write, handles)
     else mret (None, None, None, None));
  let '(packet, read, write, handles) := negotiated in
  let! p := req (RRealpath (lit ".")) in
  files ← io_lift (map_err map_error p);
  root ← io_lift (ok_or (head files) (app_error SftpProtocol "The SFTP server returned no start directory."));
  _ ← io_lift (validate_remote_path root);
  mret {| rc_info :=
            {| info_id := id; info_host_id := host_id; info_host_session_id := host_session_id;
               protocol_version := 3; extensions := sort_extensions exts;
               limits := {| max_packet_bytes := show_dec <$> packet; max_read_bytes := show_dec <$> read;
                            max_write_bytes := show_dec <$> write; max_open_handles := show_dec <$> handles;
                            client_chunk_bytes := show_dec CLIENT_CHUNK_BYTES;
                            listing_entry_cap := LISTING_ENTRY_CAP |};
               root_path := root |};
          extension_map := exts; read_chunk := chunk read; write_chunk := chunk write |}.

Section Client.
Context (file_type : FileAttributes → FileType) (rfc3339 : Z → option str) (permission_text : FileAttributes → str).
Context (self : RawSftpClient) (fuel : nat).

Definition supports_ext (name : str) : bool := rc_supports self name (lit "1").

(** ** Entries *)

Definition entry_identity (attrs : FileAttributes) : EntryIdentity :=
  {| ei_kind := match fa_permissions attrs with
                | None => KUnknown
                | Some _ => match file_type attrs with
                            | FtFile => KFile | FtDir => KDirectory | FtSymlink => KSymlink | FtOther => KOther
                            end
                end;
     ei_size := fa_size attrs; ei_modified := fa_mtime attrs |}.

Definition remote_entry (parent name : str) (attrs : FileAttributes) : Res RemoteEntry :=
  _ ← validate_child_name name;
  path ← (if is_empty parent then Ok name else join_remote parent name);
  Ok {| re_name := name; re_display_name := display_name name; re_path := path;
        re_kind := ei_kind (entry_identity attrs); re_size_bytes := show_dec <$> fa_size attrs;
        re_modified_at := fa_mtime attrs ≫= rfc3339;
        re_permissions := (λ _, permission_text attrs) <$> fa_permissions attrs;
        re_uid := fa_uid attrs; re_gid := fa_gid attrs |}.

Definition stat (path : str) : rio RemoteEntry :=
  _ ← io_lift (validate_remote_path path);
  attrs ← lstat path;
  let name := from_option id path (list.last (split (ch "/") (trim_slashes path))) in
  io_lift (remote_entry (from_option fst [] (rsplit_once (ch "/") path)) name attrs).

Definition identity_of (path : str) : rio (option EntryIdentity) :=
  _ ← io_lift (validate_remote_path path);
  let! r := req (RLstat path) in
  match r with
  | Ok attrs => mret (Some (entry_identity attrs))
  | Err (EStatus SNoSuchFile) => mret None
  | Err e => io_fail (map_error e)
  end.

(** ** Listing a directory *)

Fixpoint take_batch (path : str) (entries : list RemoteEntry) (files : list ServerFile)
    : Res (list RemoteEntry * bool) :=
  match files with
  | [] => Ok (entries, false)
  | file :: rest =>
      if str_eqb (sf_filename file) (lit ".") || str_eqb (sf_filename file) (lit "..")
      then take_batch path entries rest
      else _ ← validate_child_name (sf_filename file);
           if zlen entries =? LISTING_ENTRY_CAP then Ok (entries, true)
           else entry ← remote_entry path (sf_filename file) (sf_attrs file);
                take_batch path (entries ++ [entry]) rest
  end.

Definition list_round (path handle : str) (entries : list RemoteEntry)
    : rprg (list RemoteEntry + Res (list RemoteEntry * bool)) :=
  pbind (req (Race (RReaddir handle))) (λ r, Ret
    match r with
    | None => inr (Err (app_error Cancelled "Directory loading was cancelled."))
    | Some (Ok files) =>
        match take_batch path entries files with
        | Err e => inr (Err e)
        | Ok (entries', true) => inr (Ok (entries', true))
        | Ok (entries', false) => inl entries'
        end
    | Some (Err (EStatus SEof)) => inr (Ok (entries, false))
    | Some (Err e) => inr (Err (map_error e))
    end).

Definition list_directory (path : str) : rio DirectoryListing :=
  _ ← io_lift (validate_remote_path path);
  handle ← opendir path;
  let! r := loop spin fuel (list_round path handle) [] in
  let! close := close_handle handle in
  listed ← io_lift r;
  _ ← io_lift close;
  mret {| dl_host_id := info_host_id (rc_info self); dl_host_session_id := info_host_session_id (rc_info self);
          dl_sftp_session_id := info_id (rc_info self); dl_path := path; dl_entries := listed.1;
          dl_partial := listed.2; dl_entry_cap := LISTING_ENTRY_CAP |}.

(** ** The editor's reads *)

Definition editor_revision (path : str) : rio EditorRevision :=
  _ ← io_lift (validate_remote_path path);
  attrs ← lstat path;
  _ ← io_ensure (bool_decide (file_type attrs ≠ FtFile))
        (app_error FilePolicy "Only regular non-symlink files can be edited.");
  match fa_permissions attrs, fa_uid attrs, fa_gid attrs, fa_size attrs, fa_mtime attrs with
  | Some mode, Some uid, Some gid, Some _, Some _ =>
      mret {| er_identity := entry_identity attrs; raw_mode := mode; er_uid := uid; er_gid := gid |}
  | _, _, _, _, _ =>
      io_fail (app_error FilePolicy "Required remote revision or ownership metadata is unavailable.")
  end.

(** The open file is still the one whose revision was taken. *)
Definition revision_differs (before : EditorRevision) (attrs : FileAttributes) : bool :=
  bool_decide (entry_identity attrs ≠ er_identity before)
  || bool_decide (fa_permissions attrs ≠ Some (raw_mode before))
  || bool_decide (fa_uid attrs ≠ Some (er_uid before))
  || bool_decide (fa_gid attrs ≠ Some (er_gid before)).

Definition read_round (handle : str) (bytes : list Z) : rprg (list Z + Res (list Z)) :=
  if MAX_REMOTE_EDITOR_BYTES <? zlen bytes then Ret (inr (Ok bytes)) else
  let remaining := MAX_REMOTE_EDITOR_BYTES + 1 - zlen bytes in
  pbind (req (RRead handle (zlen bytes) (Z.min (read_chunk self) remaining))) (λ r, Ret
    match r with
    | Ok [] => inr (Ok bytes)
    | Ok data =>
        if remaining <? zlen data
        then inr (Err (app_error FilePolicy "The SFTP server exceeded the bounded editor read."))
        else inl (bytes ++ data)
    | Err (EStatus SEof) => inr (Ok bytes)
    | Err e => inr (Err (map_error e))
    end).

(** Every round that goes on adds a byte, and none starts above the limit. *)
Definition read_fuel : nat := Z.to_nat (MAX_REMOTE_EDITOR_BYTES + 2).

Definition read_opened (before : EditorRevision) (handle : str) : rio (list Z) :=
  opened ← fstat handle;
  _ ← io_ensure (revision_differs before opened) (app_error Conflict "The remote text file changed while opening.");
  bytes ← (loop spin read_fuel (read_round handle) [] : rio _);
  _ ← io_ensure (MAX_REMOTE_EDITOR_BYTES <? zlen bytes) editor_limit;
  finished ← fstat handle;
  _ ← io_ensure (revision_differs before finished) (app_error Conflict "The remote text file changed while reading.");
  mret bytes.

Definition read_editor_bytes (path : str) : rio (list Z) :=
  _ ← io_lift (validate_remote_path path);
  before ← editor_revision path;
  _ ← io_ensure (match ei_size (er_identity before) with
                 | Some size => MAX_REMOTE_EDITOR_BYTES <? size | None => false end) editor_limit;
  handle ← open path FRead attrs_default;
  let! r := read_opened before handle in
  let! close := close_handle handle in
  bytes ← io_lift r;
  _ ← io_lift close;
  mret bytes.

Definition perm_bits (mode : Z) : Z := Z.land mode 0xFFF.

Definition preserve_editor_metadata (staging : str) (expected : EditorRevision) : rio unit :=
  _ ← io_lift (validate_remote_path staging);
  current ← lstat staging;
  _ ← io_ensure (bool_decide (file_type current ≠ FtFile))
        (app_error FilePolicy "The owned editor staging file is no longer regular.");
  _ ← (if bool_decide (fa_uid current ≠ Some (er_uid expected)) || bool_decide (fa_gid current ≠ Some (er_gid expected))
       then setstat staging {| fa_size := None; fa_uid := Some (er_uid expected); fa_gid := Some (er_gid expected);
                               fa_permissions := None; fa_mtime := None |}
       else mret tt);
  _ ← setstat staging {| fa_size := None; fa_uid := None; fa_gid := None;
                         fa_permissions := Some (perm_bits (raw_mode expected)); fa_mtime := None |};
  final ← lstat staging;
  io_ensure (bool_decide (file_type final ≠ FtFile)
             || bool_decide (fa_uid final ≠ Some (er_uid expected))
             || bool_decide (fa_gid final ≠ Some (er_gid expected))
             || bool_decide (perm_bits <$> fa_permissions final ≠ Some (perm_bits (raw_mode expected))))
    (app_error FilePolicy "Remote mode or ownership preservation could not be confirmed.").

(** ** Mutations *)

Definition mutate (c : prog answer (result SftpError StatusCode)) (unknown : string) : rio unit :=
  let! r := c in Ret (mutation_status r unknown).

Definition create_dir (path : str) : rio unit :=
  _ ← io_lift (validate_remote_path path);
  found ← identity_of path;
  _ ← io_ensure (bool_decide (found ≠ None)) conflict;
  mutate (req (RMkdir path {| fa_size := None; fa_uid := None; fa_gid := None; fa_permissions := Some 0x41C0; fa_mtime := None |}))
    "The create-directory reply was lost; refresh before taking another action.".

Definition remove_file (path : str) : rio unit :=
  _ ← io_lift (validate_remote_path path);
  entry ← stat path;
  _ ← io_ensure (negb (bool_decide (re_kind entry = KFile) || bool_decide (re_kind entry = KSymlink)))
        (app_error FilePolicy "Only regular files and symbolic links can be deleted as files.");
  mutate (req (RRemove path)) "The delete reply was lost; refresh before taking another action.".

Definition remove_dir (path : str) : rio unit :=
  _ ← io_lift (validate_remote_path path);
  entry ← stat path;
  _ ← io_ensure (bool_decide (re_kind entry ≠ KDirectory))
        (app_error FilePolicy "Only a directory can be removed with this action.");
  mutate (req (RRmdir path)) "The remove-directory reply was lost; refresh before taking another action.".

(** A new name, then the old one removed. *)
Definition link_then_remove (old new : str) (unknown left : string) : rio unit :=
  _ ← mutate (req (RHardlink old new)) unknown;
  let! r := mutate (req (RRemove old)) left in
  match r with
  | Ok _ => mret tt
  | Err _ => io_fail (app_error OutcomeUnknown left)
  end.

Definition rename_noclobber (source destination : str) : rio unit :=
  _ ← io_lift (validate_remote_path source);
  _ ← io_lift (validate_remote_path destination);
  from ← io_lift (parent_remote source);
  to ← io_lift (parent_remote destination);
  _ ← io_ensure (negb (str_eqb from to)) (app_error FilePolicy "Rename is limited to the same remote directory.");
  found ← identity_of source;
  source_identity ← io_lift (ok_or found not_found);
  _ ← io_ensure (bool_decide (ei_kind source_identity ≠ KFile) || negb (supports_ext hardlink_name))
        (app_error SftpUnavailable
           "Safe no-clobber rename is available only for regular files when hardlink@openssh.com v1 is negotiated.");
  existing ← identity_of destination;
  _ ← io_ensure (bool_decide (existing ≠ None)) conflict;
  link_then_remove source destination "The rename reply was lost; refresh before taking another action."
    "The new name was created, but removal of the old name could not be confirmed.".

Definition commit_new (staging destination : str) : rio unit :=
  _ ← io_ensure (negb (supports_ext hardlink_name))
        (app_error SftpUnavailable "Safe no-clobber finalization requires hardlink@openssh.com v1.");
  existing ← identity_of destination;
  _ ← io_ensure (bool_decide (existing ≠ None)) conflict;
  link_then_remove staging destination "The new-file commit reply was lost; refresh before taking another action."
    "The final file exists, but staging cleanup could not be confirmed.".

Definition commit_replace (staging destination : str) : rio unit :=
  _ ← io_ensure (negb (supports_ext posix_rename_name))
        (app_error SftpUnavailable "Safe Replace requires posix-rename@openssh.com v1.");
  data ← io_lift (encode_string [] staging);
  data ← io_lift (encode_string data destination);
  let! r := req (RExtended posix_rename_name data) in
  match r with
  | Ok (PStatus s) => if bool_decide (s = SOk) then mret tt else io_fail (map_status s)
  | _ => io_fail (app_error OutcomeUnknown
           "The Replace reply could not confirm the final destination; refresh before taking another action.")
  end.

Definition remove_owned_staging (staging : str) : rio StagingCleanup :=
  let! r := req (RRemove staging) in
  match r with
  | Ok SOk => mret Removed
  | Ok SNoSuchFile | Err (EStatus SNoSuchFile) => mret AlreadyAbsent
  | Ok s | Err (EStatus s) => io_fail (map_status s)
  | Err _ => io_fail (app_error SftpProtocol
               "Owned staging cleanup could not be confirmed; inspect the remote directory.")
  end.

(** ** Streaming *)

Definition upload_round (handle : str) (confirmed : Z) : rprg (Z + Res Z) :=
  pbind (req (Race (LRead (write_chunk self)))) (λ r,
    match r with
    | None => Ret (inr (Err cancelled_transfer))
    | Some None => Ret (inr (Err local_io))
    | Some (Some []) => Ret (inr (Ok confirmed))
    | Some (Some data) =>
        pbind (req (RWrite handle confirmed data)) (λ w,
          match status_ok w with
          | Err e => Ret (inr (Err e))
          | Ok _ =>
              match checked_add confirmed (zlen data) with
              | None => Ret (inr (Err offset_overflow))
              | Some confirmed' => pbind (req (LProgress confirmed')) (λ _, Ret (inl confirmed'))
              end
          end)
    end).

Definition upload_stream (handle : str) : rio Z :=
  confirmed ← (loop spin fuel (upload_round handle) 0 : rio _);
  _ ← (if supports_ext fsync_name then let! r := req (RFsync handle) in Ret (status_ok r) else mret tt);
  mret confirmed.

(** The pair tells whether the server confirmed the exclusive creation
    ([StagingOwnership]). *)
Definition upload_staged (staging : str) : rprg (bool * result StagedUploadFailure Z) :=
  match validate_remote_path staging with
  | Err e => Ret (false, Err (NotCreated e))
  | Ok _ =>
      pbind (req (ROpen staging FCreateExclusive
                    {| fa_size := None; fa_uid := None; fa_gid := None; fa_permissions := Some 0x8180; fa_mtime := None |}))
        (λ r, match r with
              | Err (EStatus s) => Ret (false, Err (NotCreated (map_status s)))
              | Err _ => Ret (false, Err (CreationOutcomeUnknown (app_error OutcomeUnknown
                           "The staging-file create reply was lost; ownership cannot be established.")))
              | Ok handle =>
                  pbind (req LMarkOwned) (λ _,
                  pbind (upload_stream handle) (λ stream_result,
                  pbind (close_handle handle) (λ close,
                  Ret (true, match stream_result, close with
                             | Ok confirmed, Ok _ => Ok confirmed
                             | Err e, _ | Ok _, Err e => Err (OwnedFailure e)
                             end))))
              end)
  end.

Definition download_round (handle : str) (confirmed : Z) : rprg (Z + Res Z) :=
  pbind (req (Race (RRead handle confirmed (read_chunk self)))) (λ r,
    match r with
    | None => Ret (inr (Err cancelled_transfer))
    | Some (Ok []) => Ret (inr (Ok confirmed))
    | Some (Ok data) =>
        pbind (req (LWriteAll data)) (λ w,
          if w then
            match checked_add confirmed (zlen data) with
            | None => Ret (inr (Err offset_overflow))
            | Some confirmed' => pbind (req (LProgress confirmed')) (λ _, Ret (inl confirmed'))
            end
          else Ret (inr (Err local_io)))
    | Some (Err (EStatus SEof)) => Ret (inr (Ok confirmed))
    | Some (Err e) => Ret (inr (Err (map_error e)))
    end).

Definition download (remote : str) : rio Z :=
  _ ← io_lift (validate_remote_path remote);
  entry ← stat remote;
  _ ← io_ensure (bool_decide (re_kind entry ≠ KFile)) (app_error FilePolicy "Only regular files can be downloaded.");
  handle ← open remote FRead attrs_default;
  let! r := loop spin fuel (download_round handle) 0 in
  let! close := close_handle handle in
  bytes ← io_lift r;
  _ ← io_lift close;
  let! flushed := req LFlush in
  if flushed then mret bytes else io_fail local_io.
End Client.
