(* ===== verification/SftpClientSafe.v ===== *)
(** What every run of the SFTP client's methods guarantees, whatever the
    server replies: streams are complete and in order, handles are closed,
    mutations report honestly what is known, and every method ends. *)

From S2P Require Import Prelude Str Model Ip RemotePath Utf8 Editor Files Prog Interp Calls SftpClient.

(** ** Reading a trace *)

(** Bytes the server delivered, the local reader delivered, the server
    confirmed, the local writer took. *)
Definition received_of (e : event answer) : list Z :=
  match e with
  | Ev (RRead _ _ _) (Ok d) | Ev (Race (RRead _ _ _)) (Some (Ok d)) => d
  | _ => []
  end.
Definition local_of (e : event answer) : list Z :=
  match e with Ev (Race (LRead _)) (Some (Some d)) => d | _ => [] end.
Definition written_of (e : event answer) : list Z :=
  match e with Ev (RWrite _ _ d) (Ok SOk) => d | _ => [] end.
Definition stored_of (e : event answer) : list Z :=
  match e with Ev (LWriteAll d) true => d | _ => [] end.
Definition received (t : rtrace) : list Z := concat (map received_of t).
Definition local_data (t : rtrace) : list Z := concat (map local_of t).
Definition written (t : rtrace) : list Z := concat (map written_of t).
Definition stored (t : rtrace) : list Z := concat (map stored_of t).

(** Every block goes to, or comes from, the offset where the previous one
    ended. *)
Definition offset_ok (t : rtrace) (e : event answer) : Prop :=
  match e with
  | Ev (RWrite _ o _) _ => o = zlen (written t)
  | Ev (RRead _ o _) _ | Ev (Race (RRead _ o _)) _ => o = zlen (received t)
  | _ => True
  end.
Definition contiguous (t : rtrace) : Prop := ∀ t1 e t2, t = t1 ++ e :: t2 → offset_ok t1 e.

(** The end of the stream was seen. *)
Definition at_end (e : event answer) : Prop :=
  match e with
  | Ev (Race (LRead _)) (Some (Some [])) => True
  | Ev (RRead _ _ _) (Ok []) | Ev (RRead _ _ _) (Err (EStatus SEof)) => True
  | Ev (Race (RRead _ _ _)) (Some (Ok [])) | Ev (Race (RRead _ _ _)) (Some (Err (EStatus SEof))) => True
  | _ => False
  end.

(** Requests that change something on the server's disk. *)
Definition changes (c : request) : bool :=
  match c with
  | RSetstat _ _ | RMkdir _ _ | RRemove _ | RRmdir _ | RHardlink _ _ | RExtended _ _ => true
  | ROpen _ FCreateExclusive _ | RWrite _ _ _ => true
  | _ => false
  end.

(** What the reply to such a request tells. *)
Inductive verdict := Done | Refused | Lost.
Definition verdict_of (e : event answer) : option verdict :=
  match e with
  | Ev (RMkdir _ _) r | Ev (RRemove _) r | Ev (RRmdir _) r | Ev (RHardlink _ _) r | Ev (RSetstat _ _) r =>
      Some match r with
           | Ok SOk => Done
           | Ok _ | Err (EStatus _) => Refused
           | Err _ => Lost
           end
  | Ev (RExtended _ _) r =>
      Some match r with Ok (PStatus SOk) => Done | Ok (PStatus _) => Refused | _ => Lost end
  | _ => None
  end.
Definition verdicts (t : rtrace) : list verdict := omap verdict_of t.

Lemma received_app t1 t2 : received (t1 ++ t2) = received t1 ++ received t2.
Proof. unfold received. by rewrite map_app, concat_app. Qed.
Lemma local_app t1 t2 : local_data (t1 ++ t2) = local_data t1 ++ local_data t2.
Proof. unfold local_data. by rewrite map_app, concat_app. Qed.
Lemma written_app t1 t2 : written (t1 ++ t2) = written t1 ++ written t2.
Proof. unfold written. by rewrite map_app, concat_app. Qed.
Lemma stored_app t1 t2 : stored (t1 ++ t2) = stored t1 ++ stored t2.
Proof. unfold stored. by rewrite map_app, concat_app. Qed.
Lemma verdicts_app t1 t2 : verdicts (t1 ++ t2) = verdicts t1 ++ verdicts t2.
Proof. apply omap_app. Qed.
Lemma written_snoc t e : written (t ++ [e]) = written t ++ written_of e.
Proof. rewrite written_app. cbn. by rewrite app_nil_r. Qed.
Lemma local_snoc t e : local_data (t ++ [e]) = local_data t ++ local_of e.
Proof. rewrite local_app. cbn. by rewrite app_nil_r. Qed.
Lemma received_snoc t e : received (t ++ [e]) = received t ++ received_of e.
Proof. rewrite received_app. cbn. by rewrite app_nil_r. Qed.
Lemma stored_snoc t e : stored (t ++ [e]) = stored t ++ stored_of e.
Proof. rewrite stored_app. cbn. by rewrite app_nil_r. Qed.
Lemma contiguous_nil : contiguous [].
Proof. intros t1 e t2 H. by destruct t1. Qed.
Lemma contiguous_snoc t e : contiguous t → offset_ok t e → contiguous (t ++ [e]).
Proof.
  intros Ht He t1 e' t2 H. destruct t2 as [|x t2 _] using rev_ind.
  - apply app_inj_tail in H as [-> ->]. done.
  - rewrite app_comm_cons, app_assoc in H. apply app_inj_tail in H as [-> _]. by eapply Ht.
Qed.
Create Rewrite HintDb trace.
#[export] Hint Rewrite received_app local_app written_app stored_app verdicts_app : trace.

(** ** Rules *)

Lemma wp_req c t (Q : rtrace → answer c → Prop) : (∀ r, Q (t ++ [Ev c r]) r) → wp (req c) t Q.
Proof. intros H r. apply H. Qed.

Lemma wp_lift {A} (r : Res A) t (Q : rtrace → Res A → Prop) : Q t r → wp (io_lift r : rprg _) t Q.
Proof. done. Qed.

Lemma wp_ensure_client bad e t (Q : rtrace → Res unit → Prop) :
  (bad = true → Q t (Err e)) → (bad = false → Q t (Ok tt)) → wp (io_ensure bad e : rprg _) t Q.
Proof. intros H1 H2. cbn. destruct bad; auto. Qed.

Lemma wp_spin A t (Q : rtrace → A → Prop) : wp (spin A) t Q.
Proof. intros []. Qed.

Lemma status_ok_inv r u : status_ok r = Ok u → r = Ok SOk.
Proof.
  unfold status_ok. destruct r as [s|e]; cbn; [|done]. case_bool_decide; [by subst|done].
Qed.

(** ** Streaming to the server *)

Definition new_file_attrs : FileAttributes :=
  {| fa_size := None; fa_uid := None; fa_gid := None; fa_permissions := Some 0x8180; fa_mtime := None |}.

(** The calls of a stream on one handle. *)
Definition streams (handle : str) (c : request) : bool :=
  match c with
  | Race (LRead _) | LProgress _ => true
  | RWrite h _ _ | RFsync h => str_eqb h handle
  | _ => false
  end.

Definition only_streams (handle : str) (t : rtrace) : Prop := Forall (λ e, streams handle (ev_call e) = true) t.

Lemma only_streams_snoc handle t e :
  only_streams handle t → streams handle (ev_call e) = true → only_streams handle (t ++ [e]).
Proof. intros H1 H2. apply Forall_app. by split; [|apply Forall_singleton]. Qed.

Lemma streams_refl handle : str_eqb handle handle = true.
Proof. by apply str_eqb_eq. Qed.

Section Upload.
Context (self : RawSftpClient) (fuel : nat) (staging handle : str).

(** After [t0] and the calls [t'] of the stream. *)
Record upload_inv (t0 t : rtrace) (confirmed : Z) : Prop := {
  ui_calls : ∃ t', t = t0 ++ t' ∧ only_streams handle t';
  ui_contiguous : contiguous t;
  ui_confirmed : confirmed = zlen (written t);
  ui_complete : written t = local_data t
}.

Record upload_done (t0 t : rtrace) (r : Res Z) : Prop := {
  ud_calls : ∃ t', t = t0 ++ t' ∧ only_streams handle t' ∧ (is_ok r = true → ∃ e, e ∈ t' ∧ at_end e);
  ud_contiguous : contiguous t;
  ud_complete : ∀ n, r = Ok n → n = zlen (written t) ∧ written t = local_data t
}.

Lemma upload_round_inv t0 t confirmed : upload_inv t0 t confirmed →
  wp (upload_round self handle confirmed) t
    (λ t' x, match x with inl s => upload_inv t0 t' s | inr r => upload_done t0 t' r end).
Proof.
  intros [(t' & -> & Hs) Hc Hn Hw]. unfold upload_round.
  rewrite wp_bind. apply (wp_req (Race (LRead _))). intros r.
  set (e := Ev _ r). assert (contiguous ((t0 ++ t') ++ [e])) as Hc1 by by apply contiguous_snoc.
  assert (only_streams handle (t' ++ [e])) as Hs1 by by apply only_streams_snoc.
  assert (written ((t0 ++ t') ++ [e]) = written (t0 ++ t')) as Hw1 by by rewrite written_app, app_nil_r.
  assert (∀ er, upload_done t0 ((t0 ++ t') ++ [e]) (Err er)) as Hfail.
  { intros er. split; [|done|done]. exists (t' ++ [e]). rewrite app_assoc. by split_and!. }
  destruct r as [[[|b data]|]|]; [..|apply Hfail|apply Hfail].
  - split; [|done|].
    + exists (t' ++ [e]). rewrite app_assoc. split_and!; [done..|]. intros _. exists e. split; [find_event|exact I].
    + intros n [= <-]. rewrite Hw1. split; [done|]. by rewrite local_snoc, app_nil_r.
  - rewrite wp_bind. apply (wp_req (RWrite _ _ _)). intros w. set (e2 := Ev _ w).
    assert (contiguous (((t0 ++ t') ++ [e]) ++ [e2])) as Hc2
      by (apply contiguous_snoc; [done|unfold e2; cbn [offset_ok]; by rewrite Hw1]).
    assert (only_streams handle ((t' ++ [e]) ++ [e2])) as Hs2 by (apply only_streams_snoc; [done|apply streams_refl]).
    assert (∀ er, upload_done t0 (((t0 ++ t') ++ [e]) ++ [e2]) (Err er)) as Hfail2.
    { intros er. split; [|done|done]. exists ((t' ++ [e]) ++ [e2]). rewrite !app_assoc. by split_and!. }
    destruct (status_ok w) as [u|er] eqn:Ew; [|apply Hfail2]. apply status_ok_inv in Ew as ->.
    destruct (checked_add _ _) as [n|] eqn:En; [|apply Hfail2]. apply checked_add_spec in En as [-> _].
    rewrite wp_bind. apply (wp_req (LProgress _)). intros p. split.
    + exists (((t' ++ [e]) ++ [e2]) ++ [Ev (LProgress (confirmed + zlen (b :: data))) p]).
      rewrite !app_assoc. split; [done|]. by apply only_streams_snoc.
    + by apply contiguous_snoc.
    + rewrite !written_snoc, Hn. cbn [written_of e e2]. rewrite !length_app. cbn [length]. lia.
    + rewrite !written_snoc, !local_snoc, Hw. cbn [written_of local_of e e2]. by rewrite !app_nil_r.
Qed.

Lemma upload_stream_done t0 : contiguous t0 → written t0 = [] → local_data t0 = [] →
  wp (upload_stream self fuel handle : rprg _) t0 (λ t r, upload_done t0 t r).
Proof.
  intros H1 H2 H3. unfold upload_stream. rewrite wp_io_bind.
  eapply wp_mono; [|apply (wp_loop spin (upload_inv t0) (upload_done t0)); [intros; apply wp_spin|apply upload_round_inv|]].
  2: { split; [by exists []; rewrite app_nil_r; split; [|constructor]|done|by rewrite H2|congruence]. }
  intros t [n|e] [(t' & -> & Hs & He) Hc Hn]; [|split; [by exists t'|done|done]].
  rewrite wp_io_bind. destruct (supports_ext self fsync_name).
  2: { split; [by exists t'|done|done]. }
  rewrite wp_bind. apply (wp_req (RFsync _)). intros r.
  assert (upload_done t0 ((t0 ++ t') ++ [Ev (RFsync handle) r]) (Ok n)) as [Hd1 Hd2 Hd3].
  { split.
    - exists (t' ++ [Ev (RFsync handle) r]). rewrite app_assoc. split_and!; [done| |].
      + apply only_streams_snoc; [done|apply streams_refl].
      + intros _. destruct (He eq_refl) as (e & ? & ?). exists e. split; [|done]. apply elem_of_app. by left.
    - by apply contiguous_snoc.
    - intros m [= <-]. rewrite written_app, local_app, !app_nil_r. by apply Hn. }
  destruct (status_ok r); [by split|]. destruct Hd1 as (u & ? & ? & _). split; [|done|done]. by exists u.
Qed.
End Upload.

Definition open_staging (staging : str) (r : result SftpError str) : event answer :=
  Ev (ROpen staging FCreateExclusive new_file_attrs) r.

Definition staged_spec (staging : str) (t : rtrace) (x : bool * result StagedUploadFailure Z) : Prop :=
  match x.2 with
  | Err (NotCreated _) => x.1 = false ∧ (t = [] ∨ ∃ s, t = [open_staging staging (Err (EStatus s))])
  | Err (CreationOutcomeUnknown e) =>
      x.1 = false ∧ code e = OutcomeUnknown ∧
      ∃ er, (∀ s, er ≠ EStatus s) ∧ t = [open_staging staging (Err er)]
  | Err (OwnedFailure _) | Ok _ =>
      x.1 = true ∧ ∃ h body c,
        t = open_staging staging (Ok h) :: Ev LMarkOwned tt :: body ++ [Ev (RClose h) c] ∧
        only_streams h body ∧ contiguous t ∧
        ∀ n, x.2 = Ok n →
          c = Ok SOk ∧ n = zlen (written t) ∧ written t = local_data t ∧ ∃ e, e ∈ body ∧ at_end e
  end.

Lemma upload_staged_spec self fuel staging :
  wp (upload_staged self fuel staging) [] (staged_spec staging).
Proof.
  unfold upload_staged. destruct (validate_remote_path staging) as [[]|e0]; [|by split; [|left]].
  rewrite wp_bind. apply (wp_req (ROpen _ _ _)). intros [h|er].
  2: { destruct er as [s| | |]; [by split; [|right; exists s]|..]; (split; [done|]; split; [done|]).
       - by exists ETimeout.
       - by exists ELimited.
       - by exists EOther. }
  rewrite wp_bind. apply (wp_req LMarkOwned). intros [].
  rewrite wp_bind. set (t0 := ([] ++ [_]) ++ [_]).
  eapply wp_mono; [|apply upload_stream_done; [|done|done]].
  2: { do 2 (apply contiguous_snoc; [|done]). apply contiguous_nil. }
  intros t r [(body & -> & Hs & He) Hc Hn]. rewrite wp_bind. unfold close_handle. rewrite wp_bind.
  apply (wp_req (RClose h)). intros c.
  assert (contiguous ((t0 ++ body) ++ [Ev (RClose h) c])) as Hc' by by apply contiguous_snoc.
  assert ((t0 ++ body) ++ [Ev (RClose h) c] =
          open_staging staging (Ok h) :: Ev LMarkOwned tt :: body ++ [Ev (RClose h) c]) as Ht by done.
  cbn [wp]. rewrite Ht in Hc' |- *. destruct r as [n|e], (status_ok c) as [u|e'] eqn:Ec; cbn [staged_spec fst snd];
    (split; [done|]; exists h, body, c; split_and!; [done..|]); try done.
  intros m [= <-]. apply status_ok_inv in Ec as ->. destruct (Hn n eq_refl) as [-> Hw]. rewrite <-Ht.
  rewrite written_snoc, local_snoc, !app_nil_r. split_and!; [done..|]. by apply He.
Qed.

(** *** An upload of a finite file ends *)

Definition is_spin (c : request) : bool := match c with Spin => true | _ => false end.

Lemma twp_req c (E : rtrace → Prop) t (Q : rtrace → answer c → Prop) :
  is_spin c = false → (∀ r, E (t ++ [Ev c r]) → Q (t ++ [Ev c r]) r) → twp is_spin E (req c) t Q.
Proof. intros H1 H2. split; [done|]. intros r Hr. by apply H2. Qed.

(** The reader delivers at most the bytes of the file. *)
Definition reads_file (content : list Z) (t : rtrace) : Prop := local_data t `prefix_of` content.

Lemma upload_loop_ends self handle content fuel (t : rtrace) :
  (length content < fuel)%nat → local_data t = [] →
  twp is_spin (reads_file content) (loop spin fuel (upload_round self handle) 0) t (λ _ _, True).
Proof.
  intros Hf Ht. eapply (twp_loop _ _ spin (λ t _ n, (length (local_data t) + n = length content)%nat)); [|exact Hf|].
  2: { by rewrite Ht. }
  clear Hf Ht t. intros t confirmed n HI. unfold upload_round. rewrite twp_bind. apply (twp_req (Race (LRead _))); [done|].
  intros r Hp. destruct r as [[[|b data]|]|]; try exact I.
  assert (length (b :: data) ≤ n)%nat as Hle.
  { apply prefix_length in Hp. rewrite local_snoc, length_app in Hp. cbn [local_of] in Hp. lia. }
  rewrite twp_bind. apply (twp_req (RWrite _ _ _)); [done|]. intros w _.
  destruct (status_ok w); [|exact I]. destruct (checked_add _ _); [|exact I].
  rewrite twp_bind. apply (twp_req (LProgress _)); [done|]. intros p _.
  exists (n - length (b :: data))%nat. rewrite !local_snoc, !length_app. cbn [local_of length] in *. lia.
Qed.

(** Staging an upload is exact, and it ends.  Whatever the server and the
    local reader do: the server's confirmed exclusive creation is what makes
    the file owned; success means that every byte the reader delivered up to
    its end was confirmed by the server in order and without gaps, that the
    length returned is their number and that the handle was closed; an owned
    file's handle is closed in every case, and nothing else is sent in
    between; a creation that was refused or whose reply was lost is reported
    as such.  A reader that delivers at most a finite file makes the upload
    end. *)
Theorem upload_stages_exactly self fuel staging :
  (∀ t x, runs (upload_staged self fuel staging) t x → staged_spec staging t x) ∧
  (∀ content, (length content < fuel)%nat →
     twp is_spin (reads_file content) (upload_staged self fuel staging) [] (λ t x, staged_spec staging t x)).
Proof.
  split; [intros t x H; apply (wp_runs _ [] t x _ (upload_staged_spec self fuel staging) H)|].
  intros content Hf. apply twp_wp; [|apply upload_staged_spec].
  unfold upload_staged. destruct (validate_remote_path staging); [|exact I].
  rewrite twp_bind. apply (twp_req (ROpen _ _ _)); [done|]. intros [h|[]] _; try exact I.
  rewrite twp_bind. apply (twp_req LMarkOwned); [done|]. intros [] _. rewrite twp_bind.
  unfold upload_stream. rewrite twp_io_bind. eapply twp_mono; [|by apply (upload_loop_ends self h content)].
  assert (∀ t (r : Res Z), twp is_spin (reads_file content)
    (pbind (close_handle h) (λ close, Ret (true, match r, close with
       | Ok confirmed, Ok _ => Ok confirmed | Err e, _ | Ok _, Err e => Err (OwnedFailure e) end))) t (λ _ _, True)) as Hclose.
  { intros t r. rewrite twp_bind. unfold close_handle. rewrite twp_bind. apply (twp_req (RClose h)); [done|].
    intros c _. exact I. }
  intros t [n|e] _; [|apply (Hclose t (Err e))].
  rewrite twp_io_bind. destruct (supports_ext self fsync_name); [|apply (Hclose t (Ok n))].
  rewrite twp_bind. apply (twp_req (RFsync h)); [done|]. intros r _. cbn.
  destruct (status_ok r) as [u|e]; [apply (Hclose _ (Ok n))|apply (Hclose _ (Err e))].
Qed.
