(* ===== verification/SftpReads.v ===== *)
(** Reading through the SFTP client: downloads, the editor's bounded reads and
    directory listings. *)

From S2P Require Import Prelude Str Model Ip RemotePath Utf8 Editor Files Prog Interp Calls SftpClient SftpClientSafe.

(** Handles the server gave out and handles the client closed, in order. *)
Definition opened_of (e : event answer) : option str :=
  match e with Ev (ROpen _ _ _) (Ok h) | Ev (ROpendir _) (Ok h) => Some h | _ => None end.
Definition closed_of (e : event answer) : option str :=
  match e with Ev (RClose h) _ => Some h | _ => None end.
Definition opened (t : rtrace) : list str := omap opened_of t.
Definition closed (t : rtrace) : list str := omap closed_of t.
Definition balanced (t : rtrace) : Prop := opened t = closed t.

(** Between opening and closing. *)
Definition idle (c : request) : bool :=
  match c with ROpen _ _ _ | ROpendir _ | RClose _ => false | _ => true end.

Lemma opened_app t1 t2 : opened (t1 ++ t2) = opened t1 ++ opened t2.
Proof. apply omap_app. Qed.
Lemma closed_app t1 t2 : closed (t1 ++ t2) = closed t1 ++ closed t2.
Proof. apply omap_app. Qed.
Lemma idle_opened t : Forall (λ e, idle (ev_call e) = true) t → opened t = [] ∧ closed t = [].
Proof.
  induction 1 as [|[c r] t He _ [IH1 IH2]]; [done|]. unfold opened, closed in *. cbn in *. by destruct c.
Qed.

(** ** Downloads *)

Definition pulls (handle : str) (c : request) : bool :=
  match c with
  | Race (RRead h _ _) => str_eqb h handle
  | LWriteAll _ | LProgress _ => true
  | _ => false
  end.
Definition only_pulls (handle : str) (t : rtrace) : Prop := Forall (λ e, pulls handle (ev_call e) = true) t.

Lemma only_pulls_snoc handle t e :
  only_pulls handle t → pulls handle (ev_call e) = true → only_pulls handle (t ++ [e]).
Proof. intros H1 H2. apply Forall_app. by split; [|apply Forall_singleton]. Qed.

Lemma pulls_idle handle t : only_pulls handle t → opened t = [] ∧ closed t = [].
Proof. intros H. apply idle_opened. eapply list.Forall_impl; [exact H|]. intros [c r]. by destruct c. Qed.

Section Download.
Context (file_type : FileAttributes → FileType) (rfc3339 : Z → option str) (permission_text : FileAttributes → str).
Context (self : RawSftpClient) (fuel : nat) (remote handle : str).

Record download_inv (t0 t : rtrace) (confirmed : Z) : Prop := {
  di_calls : ∃ t', t = t0 ++ t' ∧ only_pulls handle t';
  di_contiguous : contiguous t;
  di_confirmed : confirmed = zlen (received t);
  di_complete : stored t = received t
}.

Record download_done (t0 t : rtrace) (r : Res Z) : Prop := {
  dd_calls : ∃ t', t = t0 ++ t' ∧ only_pulls handle t' ∧ (is_ok r = true → ∃ e, e ∈ t' ∧ at_end e);
  dd_contiguous : contiguous t;
  dd_complete : ∀ n, r = Ok n → n = zlen (received t) ∧ stored t = received t
}.

Lemma download_round_inv t0 t confirmed : download_inv t0 t confirmed →
  wp (download_round self handle confirmed) t
    (λ t' x, match x with inl s => download_inv t0 t' s | inr r => download_done t0 t' r end).
Proof.
  intros [(t' & -> & Hs) Hc Hn Hw]. unfold download_round.
  rewrite wp_bind. apply (wp_req (Race (RRead _ _ _))). intros r.
  set (e := Ev _ r). assert (contiguous ((t0 ++ t') ++ [e])) as Hc1 by by apply contiguous_snoc.
  assert (only_pulls handle (t' ++ [e])) as Hs1 by (apply only_pulls_snoc; [done|apply streams_refl]).
  assert (∀ er, download_done t0 ((t0 ++ t') ++ [e]) (Err er)) as Hfail.
  { intros er. split; [|done|done]. exists (t' ++ [e]). rewrite app_assoc. by split_and!. }
  assert (at_end e → received_of e = [] → download_done t0 ((t0 ++ t') ++ [e]) (Ok confirmed)) as Hend.
  { intros Hat Hnil. split; [|done|].
    - exists (t' ++ [e]). rewrite app_assoc. split_and!; [done..|]. intros _. exists e. split; [find_event|done].
    - intros n [= <-]. rewrite received_snoc, stored_snoc, Hnil, Hw, !app_nil_r. done. }
  destruct r as [[[|b data]|er]|]; [by apply Hend| |destruct er as [[]| | |]; first [by apply Hend|apply Hfail]|apply Hfail].
  rewrite wp_bind. apply (wp_req (LWriteAll _)). intros w. set (e2 := Ev _ w).
  assert (contiguous (((t0 ++ t') ++ [e]) ++ [e2])) as Hc2 by by apply contiguous_snoc.
  assert (only_pulls handle ((t' ++ [e]) ++ [e2])) as Hs2 by by apply only_pulls_snoc.
  assert (∀ er, download_done t0 (((t0 ++ t') ++ [e]) ++ [e2]) (Err er)) as Hfail2.
  { intros er. split; [|done|done]. exists ((t' ++ [e]) ++ [e2]). rewrite !app_assoc. by split_and!. }
  destruct w; [|apply Hfail2].
  destruct (checked_add _ _) as [n|] eqn:En; [|apply Hfail2]. apply checked_add_spec in En as [-> _].
  rewrite wp_bind. apply (wp_req (LProgress _)). intros p. split.
  + exists (((t' ++ [e]) ++ [e2]) ++ [Ev (LProgress (confirmed + zlen (b :: data))) p]).
    rewrite !app_assoc. split; [done|]. by apply only_pulls_snoc.
  + by apply contiguous_snoc.
  + rewrite !received_snoc, Hn. cbn [received_of e e2]. rewrite !length_app. cbn [length]. lia.
  + rewrite !received_snoc, !stored_snoc, Hw. cbn [received_of stored_of e e2]. by rewrite !app_nil_r.
Qed.
End Download.

Section Spec.
Context (file_type : FileAttributes → FileType) (rfc3339 : Z → option str) (permission_text : FileAttributes → str).
Context (self : RawSftpClient) (fuel : nat).

Definition download_spec (remote : str) (t : rtrace) (r : Res Z) : Prop :=
  balanced t ∧ contiguous t ∧
  ∀ n, r = Ok n → ∃ attrs h body,
    t = Ev (RLstat remote) (Ok attrs) :: Ev (ROpen remote FRead attrs_default) (Ok h) ::
        body ++ [Ev (RClose h) (Ok SOk); Ev LFlush true] ∧
    ei_kind (entry_identity file_type attrs) = KFile ∧ only_pulls h body ∧
    n = zlen (received t) ∧ stored t = received t ∧ ∃ e, e ∈ body ∧ at_end e.

Lemma remote_entry_kind parent name attrs entry :
  remote_entry file_type rfc3339 permission_text parent name attrs = Ok entry →
  re_kind entry = ei_kind (entry_identity file_type attrs).
Proof.
  unfold remote_entry. intros H. apply bind_ok in H as (u & _ & H). apply bind_ok in H as (p & _ & H).
  by injection H as <-.
Qed.

Lemma wp_stat path t (Q : rtrace → Res RemoteEntry → Prop) :
  (∀ e, Q t (Err e)) → (∀ r e, Q (t ++ [Ev (RLstat path) r]) (Err e)) →
  (∀ attrs entry, re_kind entry = ei_kind (entry_identity file_type attrs) →
     Q (t ++ [Ev (RLstat path) (Ok attrs)]) (Ok entry)) →
  wp (stat file_type rfc3339 permission_text path : rprg _) t Q.
Proof.
  intros H1 H2 H3. unfold stat. rewrite wp_io_bind. apply wp_lift. destruct (validate_remote_path path); [|apply H1].
  rewrite wp_io_bind. unfold lstat. rewrite wp_bind. apply (wp_req (RLstat path)). intros [attrs|e]; cbn [wp map_err]; [|apply H2].
  apply wp_lift. destruct (remote_entry _ _ _ _ _ _) eqn:E; [|apply H2]. apply H3. by eapply remote_entry_kind.
Qed.

Lemma wp_client_download remote : wp (download file_type rfc3339 permission_text self fuel remote : rprg _) [] (download_spec remote).
Proof.
  assert (∀ t e, contiguous t → balanced t → download_spec remote t (Err e)) as Hfail.
  { intros t e Hc Hb. split; [done|]. by split. }
  unfold download. rewrite wp_io_bind. apply wp_lift.
  destruct (validate_remote_path remote); [|by apply Hfail; [apply contiguous_nil|]].
  rewrite wp_io_bind. apply wp_stat.
  { intros e. by apply Hfail; [apply contiguous_nil|]. }
  { intros r e. apply Hfail; [by apply contiguous_snoc; [apply contiguous_nil|]|done]. }
  intros attrs entry Hk. rewrite wp_io_bind. set (t1 := [] ++ [Ev (RLstat remote) (Ok attrs)]).
  assert (contiguous t1) as Ht1 by (by apply contiguous_snoc; [apply contiguous_nil|]).
  apply wp_ensure_client; [intros _; by apply Hfail|]. intros Hkind. apply bool_decide_eq_false, dec_stable in Hkind.
  rewrite wp_io_bind. unfold open. rewrite wp_bind. apply (wp_req (ROpen _ _ _)). intros [h|er]; cbn [wp map_err].
  2: { apply Hfail; [by apply contiguous_snoc|done]. }
  set (t2 := t1 ++ [Ev (ROpen remote FRead attrs_default) (Ok h)]).
  assert (contiguous t2) as Ht2 by by apply contiguous_snoc.
  rewrite wp_bind. eapply wp_mono;
    [|apply (wp_loop spin (download_inv h t2) (download_done h t2)); [intros; apply wp_spin|apply download_round_inv|]].
  2: { split; [by exists []; rewrite app_nil_r; split; [|constructor]|done|done|done]. }
  intros t r [(body & -> & Hs & He) Hc Hn]. rewrite wp_bind. unfold close_handle. rewrite wp_bind.
  apply (wp_req (RClose h)). intros c. cbn [wp]. set (t3 := (t2 ++ body) ++ [Ev (RClose h) c]).
  assert (contiguous t3) as Ht3 by by apply contiguous_snoc.
  assert (balanced t3) as Hb.
  { unfold balanced, t3, t2, t1. rewrite !opened_app, !closed_app. destruct (pulls_idle h body Hs) as [-> ->]. done. }
  rewrite wp_io_bind. apply wp_lift. destruct r as [n|er]; [|by apply Hfail].
  rewrite wp_io_bind. apply wp_lift. destruct (status_ok c) as [u|er] eqn:Ec; [|by apply Hfail].
  rewrite wp_bind. apply (wp_req LFlush). intros f.
  assert (contiguous (t3 ++ [Ev LFlush f])) as Ht4 by by apply contiguous_snoc.
  assert (balanced (t3 ++ [Ev LFlush f])) as Hb4.
  { unfold balanced. rewrite opened_app, closed_app, Hb. done. }
  cbn [answer] in f. destruct f; [|by apply Hfail]. split_and!; [done..|]. intros m [= <-].
  apply status_ok_inv in Ec as ->. exists attrs, h, body.
  split; [by unfold t3, t2, t1; cbn; rewrite <-app_assoc|]. split; [congruence|]. split; [done|].
  unfold t3. rewrite !received_snoc, !stored_snoc, !app_nil_r. destruct (Hn n eq_refl) as [-> ->]. split_and!; [done..|].
  by apply He.
Qed.

(** The server's file is finite. *)
Definition serves_file (content : list Z) (t : rtrace) : Prop := received t `prefix_of` content.

Lemma download_loop_ends handle content (t : rtrace) :
  (length content < fuel)%nat → received t = [] →
  twp is_spin (serves_file content) (loop spin fuel (download_round self handle) 0) t (λ _ _, True).
Proof.
  intros Hf Ht. eapply (twp_loop _ _ spin (λ t _ n, (length (received t) + n = length content)%nat)); [|exact Hf|].
  2: { by rewrite Ht. }
  clear Hf Ht t. intros t confirmed n HI. unfold download_round. rewrite twp_bind.
  apply (twp_req (Race (RRead _ _ _))); [done|].
  intros r Hp. destruct r as [[[|b data]|[[]| | |]]|]; try exact I.
  assert (length (b :: data) ≤ n)%nat as Hle.
  { apply prefix_length in Hp. rewrite received_snoc, length_app in Hp. cbn [received_of] in Hp. lia. }
  rewrite twp_bind. apply (twp_req (LWriteAll _)); [done|]. intros w _. destruct w; [|exact I].
  destruct (checked_add _ _); [|exact I].
  rewrite twp_bind. apply (twp_req (LProgress _)); [done|]. intros p _.
  exists (n - length (b :: data))%nat. rewrite !received_snoc, !length_app. cbn [received_of length] in *. lia.
Qed.

(** A download is exact, and it ends.  Success means that the remote entry
    was reported a regular file, that every byte the server delivered up to
    its end was taken by the local writer in order and without gaps, that the
    length returned is their number, and that the handle was closed and the
    writer flushed; in every case the handles the server gave out are closed.
    A server that delivers at most a finite file makes the download end. *)
Theorem download_is_exact remote :
  (∀ t r, runs (download file_type rfc3339 permission_text self fuel remote : rprg _) t r → download_spec remote t r) ∧
  (∀ content, (length content < fuel)%nat →
     twp is_spin (serves_file content) (download file_type rfc3339 permission_text self fuel remote : rprg _) []
       (download_spec remote)).
Proof.
  split; [intros t r H; apply (wp_runs _ [] t r _ (wp_client_download remote) H)|].
  intros content Hf. apply twp_wp; [|apply wp_client_download].
  unfold download. rewrite twp_io_bind. cbn [twp io_lift]. destruct (validate_remote_path remote); [|exact I].
  rewrite twp_io_bind. unfold stat. rewrite twp_io_bind. cbn [twp io_lift]. destruct (validate_remote_path remote); [|exact I].
  rewrite twp_io_bind. unfold lstat. rewrite twp_bind. apply (twp_req (RLstat _)); [done|]. intros [attrs|] _; [|exact I].
  cbn [twp io_lift map_err]. destruct (remote_entry _ _ _ _ _ _); [|exact I].
  rewrite twp_io_bind. unfold io_ensure. cbn [twp]. destruct (ensure _ _); [|exact I].
  rewrite twp_io_bind. unfold open. rewrite twp_bind. apply (twp_req (ROpen _ _ _)); [done|]. intros [h|] _; [|exact I].
  cbn [twp map_err]. rewrite twp_bind. eapply twp_mono; [|by apply (download_loop_ends h content)].
  intros t r _. rewrite twp_bind. unfold close_handle. rewrite twp_bind. apply (twp_req (RClose _)); [done|]. intros c _.
  cbn [twp]. rewrite twp_io_bind. cbn [twp io_lift]. destruct r; [|exact I]. rewrite twp_io_bind. cbn [twp io_lift].
  destruct (status_ok c); [|exact I]. rewrite twp_bind. apply (twp_req LFlush); [done|]. intros [] _; exact I.
Qed.

(** ** The editor's bounded read *)

Definition fetches (handle : str) (c : request) : bool :=
  match c with RRead h _ _ => str_eqb h handle | _ => false end.
Definition only_fetches (handle : str) (t : rtrace) : Prop := Forall (λ e, fetches handle (ev_call e) = true) t.

Lemma fetches_idle handle t : only_fetches handle t → opened t = [] ∧ closed t = [].
Proof. intros H. apply idle_opened. eapply list.Forall_impl; [exact H|]. intros [c r]. by destruct c. Qed.

Abbreviation total := (twp is_spin (λ _ : rtrace, True)).

Lemma max_editor_pos : 0 < MAX_REMOTE_EDITOR_BYTES.
Proof. done. Qed.
Opaque MAX_REMOTE_EDITOR_BYTES.

Record read_inv (h : str) (t0 t : rtrace) (bytes : list Z) (n : nat) : Prop := {
  ri_calls : ∃ t', t = t0 ++ t' ∧ only_fetches h t';
  ri_contiguous : contiguous t;
  ri_bytes : bytes = received t;
  ri_left : Z.of_nat n = MAX_REMOTE_EDITOR_BYTES + 1 - zlen bytes
}.

Record read_done (h : str) (t0 t : rtrace) (r : Res (list Z)) : Prop := {
  rd_calls : ∃ t', t = t0 ++ t' ∧ only_fetches h t' ∧
    (∀ bytes, r = Ok bytes → bytes = received t ∧ (zlen bytes ≤ MAX_REMOTE_EDITOR_BYTES → ∃ e, e ∈ t' ∧ at_end e));
  rd_contiguous : contiguous t
}.

Lemma read_round_total h t0 t bytes n : read_inv h t0 t bytes n →
  total (read_round self h bytes) t
    (λ t' x, match x with inl b => ∃ m, (m < n)%nat ∧ read_inv h t0 t' b m | inr r => read_done h t0 t' r end).
Proof.
  intros [(t' & -> & Hs) Hc Hb Hn]. unfold read_round. destruct (Z.ltb_spec MAX_REMOTE_EDITOR_BYTES (zlen bytes)) as [Hlt|Hle].
  { split; [|done]. exists t'. split_and!; [done..|]. intros b [= <-]. split; [done|lia]. }
  rewrite twp_bind. apply (twp_req (RRead _ _ _)); [done|]. intros r _. set (e := Ev _ r).
  assert (contiguous ((t0 ++ t') ++ [e])) as Hc1 by (apply contiguous_snoc; [done|unfold e; cbn [offset_ok]; by rewrite Hb]).
  assert (only_fetches h (t' ++ [e])) as Hs1.
  { apply Forall_app. split; [done|]. apply Forall_singleton, streams_refl. }
  assert (∀ er, read_done h t0 ((t0 ++ t') ++ [e]) (Err er)) as Hfail.
  { intros er. split; [|done]. exists (t' ++ [e]). rewrite app_assoc. by split_and!. }
  assert (at_end e → received_of e = [] → read_done h t0 ((t0 ++ t') ++ [e]) (Ok bytes)) as Hend.
  { intros Hat Hnil. split; [|done]. exists (t' ++ [e]). rewrite app_assoc. split_and!; [done..|].
    intros b [= <-]. rewrite received_snoc, Hnil, app_nil_r. split; [done|]. intros _. exists e. split; [find_event|done]. }
  cbn [twp]. destruct r as [[|b data]|[[]| | |]]; try first [apply Hfail | by apply Hend].
  destruct (MAX_REMOTE_EDITOR_BYTES + 1 - zlen bytes <? zlen (b :: data)) eqn:Hcmp; [apply Hfail|]. apply Z.ltb_ge in Hcmp.
  exists (n - length (b :: data))%nat. cbn [length] in *. split; [lia|]. split; [|done| |].
  - exists (t' ++ [e]). by rewrite app_assoc.
  - by rewrite received_snoc, Hb.
  - rewrite length_app. cbn [length]. lia.
Qed.

Lemma read_loop_total h t0 : contiguous t0 → received t0 = [] →
  total (loop spin read_fuel (read_round self h) []) t0 (read_done h t0).
Proof.
  intros H1 H2. pose proof max_editor_pos.
  apply (twp_loop _ _ spin (read_inv h t0)) with (n := Z.to_nat (MAX_REMOTE_EDITOR_BYTES + 1)).
  - intros t s n. apply read_round_total.
  - unfold read_fuel. lia.
  - split; [exists []; split; [by rewrite app_nil_r|constructor]|done|done|cbn [length]; lia].
Qed.

Definition editor_read_spec (path : str) (t : rtrace) (r : Res (list Z)) : Prop :=
  balanced t ∧ contiguous t ∧
  ∀ bytes, r = Ok bytes → ∃ revision a h f1 body f2,
    t = Ev (RLstat path) (Ok a) :: Ev (ROpen path FRead attrs_default) (Ok h) :: Ev (RFstat h) (Ok f1) ::
        body ++ [Ev (RFstat h) (Ok f2); Ev (RClose h) (Ok SOk)] ∧
    only_fetches h body ∧ file_type a = FtFile ∧
    Forall (λ attrs, revision_differs file_type revision attrs = false) [a; f1; f2] ∧
    bytes = received t ∧ zlen bytes ≤ MAX_REMOTE_EDITOR_BYTES ∧ ∃ e, e ∈ body ∧ at_end e.

Lemma total_ensure bad e t (Q : rtrace → Res unit → Prop) :
  (bad = true → Q t (Err e)) → (bad = false → Q t (Ok tt)) → total (io_ensure bad e : rprg _) t Q.
Proof. intros H1 H2. cbn. destruct bad; auto. Qed.

Lemma total_revision path t (Q : rtrace → Res EditorRevision → Prop) :
  (∀ e, Q t (Err e)) → (∀ r e, Q (t ++ [Ev (RLstat path) r]) (Err e)) →
  (∀ a revision, file_type a = FtFile → revision_differs file_type revision a = false →
     Q (t ++ [Ev (RLstat path) (Ok a)]) (Ok revision)) →
  total (editor_revision file_type path : rprg _) t Q.
Proof.
  intros H1 H2 H3. unfold editor_revision. rewrite twp_io_bind. cbn [twp io_lift].
  destruct (validate_remote_path path) as [[]|]; [|apply H1].
  rewrite twp_io_bind. unfold lstat. rewrite twp_bind. apply (twp_req (RLstat path)); [done|].
  intros [a|e] _; cbn [twp map_err]; [|apply H2].
  rewrite twp_io_bind. apply total_ensure; [intros _; apply H2|]. intros Hf. apply bool_decide_eq_false, dec_stable in Hf.
  destruct (fa_permissions a) as [mode|] eqn:E1; [|apply H2]. destruct (fa_uid a) as [uid|] eqn:E2; [|apply H2].
  destruct (fa_gid a) as [gid|] eqn:E3; [|apply H2]. destruct (fa_size a); [|apply H2]. destruct (fa_mtime a); [|apply H2].
  apply H3; [done|]. unfold revision_differs. cbn [er_identity raw_mode er_uid er_gid].
  rewrite E1, E2, E3, !bool_decide_false by auto. done.
Qed.

Lemma total_fstat h t (Q : rtrace → Res FileAttributes → Prop) :
  (∀ r, Q (t ++ [Ev (RFstat h) r]) (map_err map_error r)) → total (fstat h : rprg _) t Q.
Proof. intros H. unfold fstat. rewrite twp_bind. apply (twp_req (RFstat h)); [done|]. intros r _. apply H. Qed.

(** What [read_opened] leaves after the trace [t0]. *)
Definition opened_spec (revision : EditorRevision) (h : str) (t0 t : rtrace) (r : Res (list Z)) : Prop :=
  contiguous t ∧ ∃ t', t = t0 ++ t' ∧ opened t' = [] ∧ closed t' = [] ∧
  ∀ bytes, r = Ok bytes → ∃ f1 body f2, t' = Ev (RFstat h) (Ok f1) :: body ++ [Ev (RFstat h) (Ok f2)] ∧
    only_fetches h body ∧ Forall (λ attrs, revision_differs file_type revision attrs = false) [f1; f2] ∧
    bytes = received t ∧ zlen bytes ≤ MAX_REMOTE_EDITOR_BYTES ∧ ∃ e, e ∈ body ∧ at_end e.

Lemma total_read_opened revision h t0 : contiguous t0 → received t0 = [] →
  total (read_opened file_type self revision h : rprg _) t0 (opened_spec revision h t0).
Proof.
  intros Hc Hr. unfold read_opened.
  rewrite twp_io_bind. apply total_fstat. intros f1. set (t1 := t0 ++ [Ev (RFstat h) f1]).
  assert (contiguous t1) as Hc1 by by apply contiguous_snoc.
  assert (∀ er, opened_spec revision h t0 t1 (Err er)) as Hfail.
  { intros er. split; [done|]. exists [Ev (RFstat h) f1]. by split_and!. }
  destruct f1 as [f1|]; cbn [map_err]; [|apply Hfail].
  rewrite twp_io_bind. apply total_ensure; [intros _; apply Hfail|]. intros Hd1.
  rewrite twp_io_bind. eapply twp_mono; [|apply (read_loop_total h t1); [done|by unfold t1; rewrite received_snoc, Hr]].
  intros t r [(body & -> & Hs & Hb) Hc2]. destruct (fetches_idle h body Hs) as [Ho Hcl].
  assert (∀ er, opened_spec revision h t0 (t1 ++ body) (Err er)) as Hfail2.
  { intros er. split; [done|]. exists (Ev (RFstat h) (Ok f1) :: body). split; [by unfold t1; rewrite <-app_assoc|]. by split_and!. }
  destruct r as [bytes|]; [|apply Hfail2]. destruct (Hb bytes eq_refl) as [-> He].
  rewrite twp_io_bind. apply total_ensure; [intros _; apply Hfail2|]. intros Hle. apply Z.ltb_ge in Hle.
  rewrite twp_io_bind. apply total_fstat. intros f2. set (t2 := (t1 ++ body) ++ [Ev (RFstat h) f2]).
  assert (contiguous t2) as Hc3 by by apply contiguous_snoc.
  assert (t2 = t0 ++ Ev (RFstat h) (Ok f1) :: body ++ [Ev (RFstat h) f2]) as Ht2 by (unfold t2, t1; by rewrite <-!app_assoc).
  assert (opened ([Ev (RFstat h) (Ok f1)] ++ body ++ [Ev (RFstat h) f2]) = [] ∧
          closed ([Ev (RFstat h) (Ok f1)] ++ body ++ [Ev (RFstat h) f2]) = []) as [Ho2 Hcl2].
  { rewrite !opened_app, !closed_app, Ho, Hcl. done. }
  assert (∀ er, opened_spec revision h t0 t2 (Err er)) as Hfail3.
  { intros er. split; [done|]. eexists. by split_and!. }
  destruct f2 as [f2|]; cbn [map_err]; [|apply Hfail3].
  rewrite twp_io_bind. apply total_ensure; [intros _; apply Hfail3|]. intros Hd2.
  split; [done|]. eexists. split_and!; [done..|]. intros b [= <-]. exists f1, body, f2.
  split_and!; [done|done| | |done|by apply He]. { by repeat constructor. }
  unfold t2. by rewrite received_snoc, app_nil_r.
Qed.

Lemma total_read_editor path : total (read_editor_bytes file_type self path : rprg _) [] (editor_read_spec path).
Proof.
  assert (∀ t e, contiguous t → balanced t → editor_read_spec path t (Err e)) as Hfail.
  { intros t e Hc Hb. split; [done|]. by split. }
  unfold read_editor_bytes. rewrite twp_io_bind. cbn [twp io_lift].
  destruct (validate_remote_path path) as [[]|]; [|by apply Hfail; [apply contiguous_nil|]].
  rewrite twp_io_bind. apply total_revision.
  { intros e. by apply Hfail; [apply contiguous_nil|]. }
  { intros r e. by apply Hfail; [apply contiguous_snoc; [apply contiguous_nil|]|]. }
  intros a revision Hf Hd. rewrite twp_io_bind. set (t1 := [] ++ [_]).
  assert (contiguous t1) as Hc1 by (by apply contiguous_snoc; [apply contiguous_nil|]).
  apply total_ensure; [intros _; by apply Hfail|]. intros _.
  rewrite twp_io_bind. unfold open. rewrite twp_bind. apply (twp_req (ROpen _ _ _)); [done|]. intros [h|er] _; cbn [twp map_err].
  2: { apply Hfail; [by apply contiguous_snoc|done]. }
  set (t2 := t1 ++ [_]). assert (contiguous t2) as Hc2 by by apply contiguous_snoc.
  rewrite twp_bind. eapply twp_mono; [|by apply (total_read_opened revision h t2)].
  intros t r (Hc3 & t' & -> & Ho & Hcl & Hok). rewrite twp_bind. unfold close_handle. rewrite twp_bind.
  apply (twp_req (RClose h)); [done|]. intros c _. cbn [twp].
  assert (contiguous ((t2 ++ t') ++ [Ev (RClose h) c])) as Hc4 by by apply contiguous_snoc.
  assert (balanced ((t2 ++ t') ++ [Ev (RClose h) c])) as Hb.
  { unfold balanced, t2, t1. rewrite !opened_app, !closed_app, Ho, Hcl. done. }
  rewrite twp_io_bind. cbn [twp io_lift]. destruct r as [bytes|]; [|by apply Hfail].
  rewrite twp_io_bind. cbn [twp io_lift]. destruct (status_ok c) as [u|] eqn:Ec; [|by apply Hfail].
  split_and!; [done..|]. intros b [= <-]. apply status_ok_inv in Ec as ->.
  destruct (Hok bytes eq_refl) as (f1 & body & f2 & -> & Hs & Hd2 & -> & Hle & He).
  exists revision, a, h, f1, body, f2.
  split_and!; [unfold t2, t1; cbn; by rewrite <-app_assoc|done|done|by constructor| |done|done].
  by rewrite received_snoc, app_nil_r.
Qed.

(** [C37] The editor's read is bounded, exact and always ends, whatever the
    server sends: within a bounded number of requests it returns, with at most
    1 MiB; the bytes are what the server delivered, in order and without gaps
    up to its end, through one handle that is closed, and the entry that was
    named, the file that was opened and the file after reading all had the
    same revision. *)
Theorem editor_read_is_bounded path :
  twp is_spin (λ _, True) (read_editor_bytes file_type self path : rprg _) [] (editor_read_spec path) ∧
  ∀ t r, runs (read_editor_bytes file_type self path : rprg _) t r → editor_read_spec path t r.
Proof.
  split; [apply total_read_editor|]. intros t r H.
  by apply (twp_runs is_spin (λ _, True) _ [] t r _ (λ _ _ _, I) (total_read_editor path) H).
Qed.
End Spec.
