(* ===== verification/SftpMutations.v ===== *)
(** Changing the server through the SFTP client: what an outcome says about the
    server, that nothing is overwritten unasked, and directory listings. *)

From S2P Require Import Prelude Str Model Ip RemotePath Utf8 Editor Files Prog Interp Calls SftpClient SftpClientSafe SftpReads.

(** ** Outcomes are honest *)

(** Success: the server confirmed every change.  An error other than
    [OutcomeUnknown]: it refused every change that was requested.
    [OutcomeUnknown]: it confirmed one or its reply was lost. *)
Record honest {A} (t : rtrace) (r : Res A) : Prop := {
  ho_ok : is_ok r = true → verdicts t ≠ [] ∧ Forall (λ v, v = Done) (verdicts t);
  ho_refused : ∀ e, r = Err e → code e ≠ OutcomeUnknown → Forall (λ v, v = Refused) (verdicts t);
  ho_unknown : ∀ e, r = Err e → code e = OutcomeUnknown → ∃ v, v ∈ verdicts t ∧ v ≠ Refused
}.

Definition certain (e : AppError) : Prop := code e ≠ OutcomeUnknown.

Lemma map_status_certain s : certain (map_status s).
Proof. by destruct s. Qed.
Lemma map_error_certain e : certain (map_error e).
Proof. destruct e; [apply map_status_certain|done..]. Qed.
Lemma validate_path_certain p e : validate_remote_path p = Err e → certain e.
Proof. unfold validate_remote_path, ensure. case_match; [intros [= <-]; done|done]. Qed.
Lemma parent_certain p e : parent_remote p = Err e → certain e.
Proof.
  unfold parent_remote. destruct (validate_remote_path p) eqn:E1; cbn; [by case_match|].
  intros [= <-]. by eapply validate_path_certain.
Qed.

(** Nothing was changed yet. *)
Definition quiet (t : rtrace) : Prop := Forall (λ e, changes (ev_call e) = false) t.

Lemma quiet_verdicts t : quiet t → verdicts t = [].
Proof. induction 1 as [|[c r] t He _ IH]; [done|]. unfold verdicts in *. cbn in *. by destruct c. Qed.
Lemma quiet_nil : quiet [].
Proof. constructor. Qed.
Lemma quiet_snoc t e : quiet t → changes (ev_call e) = false → quiet (t ++ [e]).
Proof. intros H1 H2. apply Forall_app. by split; [|apply Forall_singleton]. Qed.

Lemma honest_early {A} t e : quiet t → certain e → honest t (Err e : Res A).
Proof. intros Ht%quiet_verdicts He. split; [done|by rewrite Ht|]. intros e' [= <-] ?. done. Qed.

Section Mutations.
Context (file_type : FileAttributes → FileType) (rfc3339 : Z → option str) (permission_text : FileAttributes → str).
Context (self : RawSftpClient).


(** One look at an entry, with nothing changed. *)
Lemma wp_identity path t (Q : rtrace → Res (option EntryIdentity) → Prop) :
  (∀ t' e, quiet t' → certain e → Q (t ++ t') (Err e)) →
  (∀ a, Q (t ++ [Ev (RLstat path) (Ok a)]) (Ok (Some (entry_identity file_type a)))) →
  Q (t ++ [Ev (RLstat path) (Err (EStatus SNoSuchFile))]) (Ok None) →
  wp (identity_of file_type path : rprg _) t Q.
Proof.
  intros H1 H2 H3. unfold identity_of. rewrite wp_io_bind. apply wp_lift.
  destruct (validate_remote_path path) as [[]|] eqn:E; [|rewrite <-(app_nil_r t); apply H1; [by repeat constructor|by eapply validate_path_certain]].
  rewrite wp_bind. apply (wp_req (RLstat path)). intros [a|er]; [apply H2|].
  destruct er as [s| | |]; [|apply H1; [by repeat constructor|apply map_error_certain]..].
  destruct s; first [exact H3 | apply H1; [by repeat constructor|apply map_error_certain]].
Qed.


(** One request that changes something, its reply translated. *)
Lemma mutation_status_verdict r m :
  match mutation_status r m with
  | Ok _ => r = Ok SOk
  | Err e => r ≠ Ok SOk ∧ (certain e ↔ match r with Ok _ | Err (EStatus _) => True | Err _ => False end)
  end.
Proof.
  unfold mutation_status. destruct r as [s|[s| | |]]; [case_bool_decide as Hs; [by subst|]|..].
  1, 2: split; [congruence|]; split; [done|intros _; apply map_status_certain].
  all: split; [done|]; split; [|done]; intros Hc; by apply Hc.
Qed.

(** A single change, as the last thing done. *)
Lemma honest_one t c (r : result SftpError StatusCode) m (e : event answer) :
  verdicts t = [] →
  verdict_of e = Some match r with Ok SOk => Done | Ok _ | Err (EStatus _) => Refused | Err _ => Lost end →
  c = mutation_status r m → honest (t ++ [e]) c.
Proof.
  intros Ht He ->. pose proof (mutation_status_verdict r m) as Hv.
  assert (verdicts (t ++ [e]) = [match r with Ok SOk => Done | Ok _ | Err (EStatus _) => Refused | Err _ => Lost end]) as Hvs.
  { rewrite verdicts_app, Ht. cbn. by rewrite He. }
  split; rewrite Hvs; destruct (mutation_status r m) as [u|er]; try done.
  - subst r. intros _. split; [done|by constructor].
  - intros e' [= <-] Hc. destruct Hv as [Hne Hv]. apply Hv in Hc. constructor; [|constructor].
    destruct r as [[]|[]]; done.
  - intros e' [= <-] Hc. destruct Hv as [Hne Hv]. eexists. split; [by apply list_elem_of_singleton|].
    destruct r as [[]|[]]; try done; (assert (certain er) by by apply Hv); done.
Qed.

(** ** A new name, never an overwritten one *)

Definition absent (path : str) : event answer := Ev (RLstat path) (Err (EStatus SNoSuchFile)).

(** The runs of a method that gives [old] the name [new]: the new name is
    linked right after the server said that nothing has it, and the old name
    is removed only when the server confirmed the link. *)
Inductive link_run (old new : str) : rtrace → Res unit → Prop :=
| lr_none t e : quiet t → link_run old new t (Err e)
| lr_refused t h e : quiet t → h ≠ Ok SOk → link_run old new (t ++ [absent new; Ev (RHardlink old new) h]) (Err e)
| lr_linked t d r : quiet t → (r = Ok tt ↔ d = Ok SOk) →
    link_run old new (t ++ [absent new; Ev (RHardlink old new) (Ok SOk); Ev (RRemove old) d]) r.

Definition linked (old new : str) (t : rtrace) (r : Res unit) : Prop := honest t r ∧ link_run old new t r.

Lemma linked_early old new t e : quiet t → certain e → linked old new t (Err e).
Proof. intros Ht He. split; [by apply honest_early|by apply lr_none]. Qed.

Lemma wp_link old new unknown left t :
  quiet t → wp (link_then_remove old new unknown left : rprg _) (t ++ [absent new]) (linked old new).
Proof.
  intros Ht. unfold link_then_remove, mutate. rewrite wp_io_bind, wp_bind. apply (wp_req (RHardlink _ _)). intros h. cbn [wp].
  assert (verdicts (t ++ [absent new]) = []) as Hq by by rewrite verdicts_app, quiet_verdicts.
  pose proof (mutation_status_verdict h unknown) as Hv.
  pose proof (honest_one (t ++ [absent new]) (mutation_status h unknown) h unknown (Ev (RHardlink old new) h) Hq eq_refl eq_refl) as Hh.
  destruct (mutation_status h unknown) as [u|e].
  2: { split; [done|]. rewrite <-app_assoc. apply lr_refused; [done|]. by destruct Hv. }
  subst h. rewrite wp_bind, wp_bind. apply (wp_req (RRemove _)). intros d. cbn [wp].
  set (t3 := (_ ++ _) ++ [_]).
  assert (t3 = t ++ [absent new; Ev (RHardlink old new) (Ok SOk); Ev (RRemove old) d]) as Ht3.
  { unfold t3. by rewrite <-!app_assoc. }
  assert (∃ v, verdicts t3 = [Done; v] ∧ (d = Ok SOk → v = Done)) as (v & Hvs & Hd).
  { rewrite Ht3, verdicts_app, quiet_verdicts by done. eexists. split; [reflexivity|]. by intros ->. }
  pose proof (mutation_status_verdict d left) as Hv'. destruct (mutation_status d left) as [u'|e'].
  - subst d. split; [|rewrite Ht3; by apply lr_linked]. split; [|done|done].
    intros _. rewrite Hvs. split; [done|]. constructor; [done|]. constructor; [by apply Hd|constructor].
  - split; [|rewrite Ht3; apply lr_linked; [done|]; split; [done|intros ->; by destruct Hv']].
    split; [done|by intros e [= <-] Hc|]. intros e _ _. rewrite Hvs. exists Done. split; [left|done].
Qed.

Lemma quiet_app t1 t2 : quiet t1 → quiet t2 → quiet (t1 ++ t2).
Proof. intros. by apply Forall_app. Qed.

(** The destination must be free, then the link. *)
Lemma wp_link_absent old new unknown left t : quiet t →
  wp (existing ← identity_of file_type new;
      _ ← io_ensure (bool_decide (existing ≠ None)) conflict;
      link_then_remove old new unknown left : rprg _) t (linked old new).
Proof.
  intros Ht. rewrite wp_io_bind. apply wp_identity.
  - intros t' e Ht' He. by apply linked_early; [apply quiet_app|].
  - intros a. rewrite wp_io_bind. apply wp_ensure_client; [intros _; apply linked_early; [by apply quiet_snoc|done]|].
    by intros Hc%bool_decide_eq_false%dec_stable.
  - rewrite wp_io_bind. apply wp_ensure_client; [by intros Hc%bool_decide_eq_true|]. intros _. by apply wp_link.
Qed.

Lemma wp_commit_new staging destination :
  wp (commit_new file_type self staging destination : rprg _) [] (linked staging destination).
Proof.
  unfold commit_new. rewrite wp_io_bind. apply wp_ensure_client; [intros _; by apply linked_early; [apply quiet_nil|]|].
  intros _. apply wp_link_absent, quiet_nil.
Qed.

Lemma wp_lift_path {A} (r : Res A) t (f : A → rio unit) (Q : rtrace → Res unit → Prop) :
  (∀ e, r = Err e → Q t (Err e)) → (∀ a, r = Ok a → wp (f a : rprg _) t Q) → wp (io_lift r ≫= f : rprg _) t Q.
Proof. intros H1 H2. rewrite wp_io_bind. apply wp_lift. destruct r; auto. Qed.

Lemma wp_rename source destination :
  wp (rename_noclobber file_type self source destination : rprg _) [] (linked source destination).
Proof.
  assert (∀ t e, quiet t → certain e → linked source destination t (Err e)) as Hearly by apply linked_early.
  unfold rename_noclobber. do 2 (apply wp_lift_path; [intros e He; by apply Hearly; [apply quiet_nil|by eapply validate_path_certain]|intros _ _]).
  do 2 (apply wp_lift_path; [intros e He; by apply Hearly; [apply quiet_nil|by eapply parent_certain]|intros ? _]).
  rewrite wp_io_bind. apply wp_ensure_client; [intros _; by apply Hearly; [apply quiet_nil|]|]. intros _.
  rewrite wp_io_bind. apply wp_identity.
  - intros t e Ht He. by apply Hearly.
  - intros attrs. apply wp_lift_path; [done|]. intros i [= <-].
    rewrite wp_io_bind. apply wp_ensure_client; [intros _; by apply Hearly; [repeat constructor|]|]. intros _.
    apply wp_link_absent. by repeat constructor.
  - apply wp_lift_path; [|done]. intros e [= <-]. by apply Hearly; [repeat constructor|].
Qed.

(** ** The other changes *)
















(** Renaming and putting a new file in place never overwrite: the new name
    is linked only right after the server reported that nothing has it, by a
    request that fails if it exists by then; the old name is removed only after
    the server confirmed the link; nothing else is changed; and success is
    reported exactly when both were confirmed. *)
Theorem links_never_clobber old new t r :
  (runs (commit_new file_type self old new : rprg _) t r ∨ runs (rename_noclobber file_type self old new : rprg _) t r) →
  link_run old new t r.
Proof.
  intros [H|H]; [apply (wp_runs _ [] t r _ (wp_commit_new old new) H)|apply (wp_runs _ [] t r _ (wp_rename old new) H)].
Qed.
End Mutations.

(** ** The Replace request *)

Definition of_be_bytes (b : list Z) : Z := foldl (λ acc x, acc * 256 + x) 0 b.

(** How a server reads a string off the wire. *)
Definition decode_string (data : list Z) : option (str * list Z) :=
  let n := Z.to_nat (of_be_bytes (take 4 data)) in
  let rest := drop 4 data in
  if decide (n ≤ length rest)%nat then (λ s, (s, drop n rest)) <$> from_utf8 (take n rest) else None.

Lemma to_be_bytes_roundtrip n : 0 ≤ n ≤ u32_max → of_be_bytes (to_be_bytes n) = n.
Proof.
  intros Hn. unfold of_be_bytes, to_be_bytes. cbn [foldl]. change 255 with (Z.ones 8). rewrite !Z.land_ones by lia.
  rewrite !Z.shiftr_div_pow2 by lia. unfold u32_max in Hn.
  change (2 ^ 8) with 256 in *. change (2 ^ 16) with 65536 in *. change (2 ^ 24) with 16777216 in *.
  change (2 ^ 32) with 4294967296 in Hn. Z.div_mod_to_equations. lia.
Qed.

Lemma decode_encode_string v rest : Forall (λ c, is_char c = true) v → len v ≤ u32_max →
  decode_string (to_be_bytes (len v) ++ as_bytes v ++ rest) = Some (v, rest).
Proof.
  intros Hv Hl. unfold decode_string. pose proof (len_nonneg v).
  change (take 4 (to_be_bytes (len v) ++ as_bytes v ++ rest)) with (to_be_bytes (len v)).
  change (drop 4 (to_be_bytes (len v) ++ as_bytes v ++ rest)) with (as_bytes v ++ rest).
  rewrite to_be_bytes_roundtrip by lia. rewrite <-as_bytes_length, Nat2Z.id.
  rewrite decide_True by (rewrite length_app; lia). rewrite take_app_length, drop_app_length.
  by rewrite from_utf8_as_bytes.
Qed.

Definition replace_spec (self : RawSftpClient) (staging destination : str) (t : rtrace) (r : Res unit) : Prop :=
  t = [] ∧ is_ok r = false ∨
  ∃ data a rest, t = [Ev (RExtended posix_rename_name data) a] ∧ rc_supports self posix_rename_name (lit "1") = true ∧
    decode_string data = Some (staging, rest) ∧ decode_string rest = Some (destination, []) ∧
    (r = Ok tt ↔ a = Ok (PStatus SOk)).

(** Replacing asks the server for exactly the two paths: the only request
    is one posix-rename, whose data a server reads back as the staging path
    followed by the destination and nothing else; it is sent only when the
    server announced version 1 of that extension, and success is reported
    exactly when the server confirmed it. *)
Theorem replace_names_both_paths self staging destination t r :
  Forall (λ c, is_char c = true) staging → Forall (λ c, is_char c = true) destination →
  runs (commit_replace self staging destination : rprg _) t r → replace_spec self staging destination t r.
Proof.
  intros Hs Hd H. refine (wp_runs _ [] t r (replace_spec self staging destination) _ H). clear H t r.
  unfold commit_replace. rewrite wp_io_bind. apply wp_ensure_client; [intros _; by left|].
  intros Hx%negb_false_iff. apply wp_lift_path; [intros e _; by left|]. unfold encode_string at 1.
  destruct (Z.ltb_spec u32_max (len staging)) as [|Hl1]; [done|]. intros d1 Hd1.
  apply wp_lift_path; [intros e _; by left|]. unfold encode_string.
  destruct (Z.ltb_spec u32_max (len destination)) as [|Hl2]; [done|]. intros data Hdata.
  set (rest := to_be_bytes (len destination) ++ as_bytes destination) in *.
  assert (decode_string data = Some (staging, rest)) as H1.
  { injection Hdata as <-. injection Hd1 as <-. by apply (decode_encode_string staging rest). }
  assert (decode_string rest = Some (destination, [])) as H2.
  { rewrite <-(decode_encode_string destination []) by done. by rewrite app_nil_r. }
  clear Hd1 Hdata. rewrite wp_bind. apply (wp_req (RExtended _ _)). intros a.
  destruct a as [[s|]|er].
  - case_bool_decide as Hok; right; exists data, (Ok (PStatus s)), rest; split_and!; try done.
    + by subst s.
    + split; [done|]. by intros [= ->].
  - right. exists data, (Ok PData), rest. by split_and!.
  - right. exists data, (Err er), rest. by split_and!.
Qed.
