(* ===== verification/SftpListing.v ===== *)
(** Connecting and listing directories through the SFTP client. *)

From stdpp Require Import sorting.
From S2P Require Import Prelude Str Model Ip RemotePath Utf8 Editor Files Prog Interp Calls SftpClient SftpClientSafe SftpReads.

(** ** Connecting *)

Lemma sort_extensions_elem m e : e ∈ sort_extensions m ↔ m !! ext_name e = Some (ext_version e).
Proof.
  unfold sort_extensions. rewrite merge_sort_Permutation, list_elem_of_fmap. split.
  - intros ([k v] & -> & H). by apply elem_of_map_to_list in H.
  - intros H. exists (ext_name e, ext_version e). split; [by destruct e|]. by apply elem_of_map_to_list.
Qed.

(** The planning code reads the announced extensions from the session's
    record, the client from its map: the answers agree. *)
Lemma supports_agree info m name version : extensions info = sort_extensions m →
  supports info name version = match m !! name with Some value => str_eqb value version | None => false end.
Proof.
  intros He. unfold supports. rewrite He. apply eq_bool_prop_intro. rewrite !Is_true_true, existsb_exists. split.
  - intros (e & Hin & Hb). apply andb_true_iff in Hb as [Hn Hv]. apply str_eqb_eq in Hn as <-.
    apply list_elem_of_In, sort_extensions_elem in Hin. by rewrite Hin.
  - destruct (m !! name) as [v|] eqn:E; [|done]. intros Hv.
    exists {| ext_name := name; ext_version := v |}. split; [|cbn; by rewrite (proj2 (str_eqb_eq name name) eq_refl)].
    by apply list_elem_of_In, sort_extensions_elem.
Qed.

Lemma chunk_bounds n : 1 ≤ chunk n ≤ CLIENT_CHUNK_BYTES.
Proof. unfold chunk, CLIENT_CHUNK_BYTES. lia. Qed.

Lemma str_leb_total a b : str_leb a b = true ∨ str_leb b a = true.
Proof.
  revert b. induction a as [|x a IH]; intros [|y b]; cbn; [by left..|by right|].
  destruct (Z.ltb_spec x y), (Z.ltb_spec y x), (Z.eqb_spec x y), (Z.eqb_spec y x); cbn; try (by auto); try lia; apply IH.
Qed.

Definition ext_le (a b : SftpExtension) : Prop := Is_true (str_leb (ext_name a) (ext_name b)).

#[local] Instance ext_le_total : Total ext_le.
Proof. intros a b. unfold ext_le. rewrite !Is_true_true. apply str_leb_total. Qed.

Lemma sort_extensions_sorted m : Sorted ext_le (sort_extensions m).
Proof. apply (Sorted_merge_sort ext_le). Qed.

(** What a connection offers is consistent: the session speaks version 3,
    block sizes are between 1 and 64 KiB whatever limits the server announced,
    the start directory is a valid path, the extensions are listed in order,
    and what the planning code reads from the session's record about an
    extension is what the client itself goes by. *)
Theorem connect_is_consistent id host session t c :
  runs (connect id host session : rprg _) t (Ok c) →
  (info_id (rc_info c), info_host_id (rc_info c), info_host_session_id (rc_info c)) = (id, host, session) ∧
  protocol_version (rc_info c) = 3 ∧ validate_remote_path (root_path (rc_info c)) = Ok tt ∧
  1 ≤ read_chunk c ≤ CLIENT_CHUNK_BYTES ∧ 1 ≤ write_chunk c ≤ CLIENT_CHUNK_BYTES ∧
  Sorted ext_le (extensions (rc_info c)) ∧
  ∀ name version, supports (rc_info c) name version = rc_supports c name version.
Proof.
  intros H. unfold connect in H. apply runs_bind in H as (r & ? & ? & _ & H & ->).
  run_ok H version Hv. destruct (negb (version.1 =? 3)).
  { apply runs_bind in H as (? & ? & ? & _ & H & _). by apply runs_ret_inv in H as [_ ?]. }
  run_ok H neg Hneg. clear Hneg. destruct neg as [[[packet read] write] handles].
  apply runs_bind in H as (p & ? & ? & _ & H & ->). run_ok H files Hf. run_ok H root Hr. run_ok H u Hu.
  apply runs_lift in Hu as [_ Hu]. apply runs_mret in H as [_ ->]. cbn [rc_info].
  split_and!; [done|done|by destruct u|apply chunk_bounds..|apply sort_extensions_sorted|].
  intros name v. by rewrite (supports_agree _ version.2).
Qed.

(** ** Listing *)

Definition is_dot (name : str) : bool := str_eqb name (lit ".") || str_eqb name (lit "..").

(** The names the server sent, without the two dots. *)
Definition names (files : list ServerFile) : list str := filter (λ n, is_dot n = false) (map sf_filename files).
Definition listed_of (e : event answer) : list str :=
  match e with Ev (Race (RReaddir _)) (Some (Ok files)) => names files | _ => [] end.
Definition listed (t : rtrace) : list str := concat (map listed_of t).

Lemma listed_snoc t e : listed (t ++ [e]) = listed t ++ listed_of e.
Proof. unfold listed. rewrite map_app, concat_app. cbn. by rewrite app_nil_r. Qed.

Section Listing.
Context (file_type : FileAttributes → FileType) (rfc3339 : Z → option str) (permission_text : FileAttributes → str).
Context (self : RawSftpClient) (fuel : nat) (path : str).

(** An entry as it is shown: a safe name directly below the directory. *)
Record entry_safe (e : RemoteEntry) : Prop := {
  es_name : validate_child_name (re_name e) = Ok tt;
  es_path : join_remote path (re_name e) = Ok (re_path e);
  es_shown : re_display_name e = display_name (re_name e)
}.

Lemma remote_entry_safe name attrs e : is_empty path = false →
  remote_entry file_type rfc3339 permission_text path name attrs = Ok e → re_name e = name ∧ entry_safe e.
Proof.
  intros Hp H. unfold remote_entry in H. rewrite Hp in H. apply bind_ok in H as ([] & Hn & H).
  apply bind_ok in H as (p & Hj & H). injection H as <-. split; [done|]. by split.
Qed.

Lemma take_batch_ok files entries entries' partial : is_empty path = false →
  zlen entries ≤ LISTING_ENTRY_CAP →
  take_batch file_type rfc3339 permission_text path entries files = Ok (entries', partial) →
  ∃ added, entries' = entries ++ added ∧ Forall entry_safe added ∧ zlen entries' ≤ LISTING_ENTRY_CAP ∧
    (if partial then zlen entries' = LISTING_ENTRY_CAP ∧ map re_name added `prefix_of` names files
     else map re_name added = names files).
Proof.
  intros Hp. revert entries. induction files as [|f files IH]; intros entries Hle H; cbn [take_batch] in H.
  { injection H as <- <-. exists []. by rewrite app_nil_r. }
  change (str_eqb (sf_filename f) (lit ".") || str_eqb (sf_filename f) (lit "..")) with (is_dot (sf_filename f)) in H.
  unfold names. cbn [map]. destruct (is_dot (sf_filename f)) eqn:Hd.
  { rewrite filter_cons_False by congruence. by apply IH. }
  rewrite filter_cons_True by done. apply bind_ok in H as ([] & _ & H).
  destruct (Z.eqb_spec (zlen entries) LISTING_ENTRY_CAP) as [Hcap|Hcap].
  { injection H as <- <-. exists []. rewrite app_nil_r. split_and!; [done|constructor|done|done|apply prefix_nil]. }
  apply bind_ok in H as (e & He & H). apply remote_entry_safe in He as [Hn He]; [|done].
  apply IH in H as (added & -> & Hs & Hl & Hrest); [|rewrite length_app; cbn [length]; lia].
  exists (e :: added). rewrite <-app_assoc in Hl |- *. split_and!; [done|by constructor|done|].
  rewrite <-app_assoc in Hrest. cbn [map]. rewrite Hn. destruct partial.
  - destruct Hrest. split; [done|]. by apply prefix_cons.
  - by rewrite Hrest.
Qed.

Record list_inv (t : rtrace) (entries : list RemoteEntry) : Prop := {
  lv_bound : zlen entries ≤ LISTING_ENTRY_CAP;
  lv_safe : Forall entry_safe entries;
  lv_names : map re_name entries = listed t
}.

Definition list_done (t : rtrace) (r : Res (list RemoteEntry * bool)) : Prop :=
  ∀ entries partial, r = Ok (entries, partial) →
    zlen entries ≤ LISTING_ENTRY_CAP ∧ Forall entry_safe entries ∧
    (if partial then zlen entries = LISTING_ENTRY_CAP ∧ map re_name entries `prefix_of` listed t
     else map re_name entries = listed t ∧ ∃ h, Ev (Race (RReaddir h)) (Some (Err (EStatus SEof))) ∈ t).

Lemma list_round_inv h t entries : is_empty path = false → list_inv t entries →
  wp (list_round file_type rfc3339 permission_text path h entries) t
    (λ t' x, match x with inl s => list_inv t' s | inr r => list_done t' r end).
Proof.
  intros Hp [Hle Hs Hn]. unfold list_round. rewrite wp_bind. apply (wp_req (Race (RReaddir h))). intros r.
  set (e := Ev _ r). cbn [wp]. destruct r as [[files|er]|]; [|destruct er as [[]| | |]; try done|done].
  - destruct (take_batch _ _ _ path entries files) as [[entries' partial]|] eqn:Et; [|done].
    apply take_batch_ok in Et as (added & -> & Hs' & Hle' & Hrest); [|done..].
    assert (Forall entry_safe (entries ++ added)) by by apply Forall_app.
    destruct partial.
    + intros es p [= <- <-]. destruct Hrest as [Hcap Hpre]. split_and!; [done|done|done|].
      rewrite map_app, listed_snoc, Hn. by apply prefix_app.
    + split; [done|done|]. by rewrite map_app, listed_snoc, Hn, Hrest.
  - intros es p [= <- <-]. split_and!; [done|done|by rewrite listed_snoc, app_nil_r|].
    exists h. apply elem_of_app. right. by apply list_elem_of_singleton.
Qed.

Definition list_spec (t : rtrace) (r : Res DirectoryListing) : Prop :=
  balanced t ∧
  ∀ l, r = Ok l →
    dl_path l = path ∧ dl_sftp_session_id l = info_id (rc_info self) ∧
    zlen (dl_entries l) ≤ LISTING_ENTRY_CAP ∧ Forall entry_safe (dl_entries l) ∧
    (if dl_partial l
     then zlen (dl_entries l) = LISTING_ENTRY_CAP ∧ map re_name (dl_entries l) `prefix_of` listed t
     else map re_name (dl_entries l) = listed t ∧ ∃ h, Ev (Race (RReaddir h)) (Some (Err (EStatus SEof))) ∈ t).

Lemma idle_runs h entries t x :
  runs (list_round file_type rfc3339 permission_text path h entries) t x → opened t = [] ∧ closed t = [].
Proof.
  intros H. apply idle_opened. eapply (only_runs idle); [|exact H]. split; [done|]. intros r. exact I.
Qed.

Lemma wp_list : wp (list_directory file_type rfc3339 permission_text self fuel path : rprg _) [] list_spec.
Proof.
  assert (∀ t e, balanced t → list_spec t (Err e)) as Hfail by (intros t e Hb; by split).
  unfold list_directory. rewrite wp_io_bind. apply wp_lift. destruct (validate_remote_path path) as [u|] eqn:Ep; [|by apply Hfail].
  assert (is_empty path = false) as Hp.
  { apply ensure_ok in Ep. by apply orb_false_iff in Ep as [[? _]%orb_false_iff _]. }
  rewrite wp_io_bind. unfold opendir. rewrite wp_bind. apply (wp_req (ROpendir path)). intros [h|]; cbn [wp map_err]; [|by apply Hfail].
  rewrite wp_bind. set (t0 := [] ++ [_]).
  eapply wp_mono; [|apply (wp_loop spin (λ t es, list_inv t es ∧ opened t = [h] ∧ closed t = [])
                            (λ t r, list_done t r ∧ opened t = [h] ∧ closed t = []));
                    [intros; apply wp_spin| |by split; [split; [done|constructor|done]|]]].
  2: { intros t es [Hi [Ho Hc]]. eapply wp_mono; [|eapply wp_and; [by apply (list_round_inv h)|apply wp_all]].
       intros t' x [Hx (t1 & Hr & ->)]. apply idle_runs in Hr as [Ho' Hc'].
       rewrite opened_app, closed_app, Ho, Hc, Ho', Hc'. destruct x; by split. }
  intros t r [Hd [Ho Hc]]. rewrite wp_bind. unfold close_handle. rewrite wp_bind. apply (wp_req (RClose h)). intros c. cbn [wp].
  set (t1 := t ++ _). assert (balanced t1) as Hb by (unfold balanced, t1; by rewrite opened_app, closed_app, Ho, Hc).
  rewrite wp_io_bind. apply wp_lift. destruct r as [[entries partial]|]; [|by apply Hfail].
  rewrite wp_io_bind. apply wp_lift. destruct (status_ok c); [|by apply Hfail].
  split; [done|]. intros l [= <-]. cbn. destruct (Hd entries partial eq_refl) as (H1 & H2 & H3). split_and!; [done..|].
  unfold t1. rewrite listed_snoc, app_nil_r. destruct partial; [done|]. destruct H3 as [? (h' & ?)]. split; [done|].
  exists h'. apply elem_of_app. by left.
Qed.

(** A listing is bounded, safe and complete.  Whatever the server sends,
    at most 5000 entries are returned, each with a name that is a single safe
    component, a path directly below the directory and an escaped display
    name; unless the listing says it is partial, its names are all the names
    the server sent, in order, up to the server's end of the directory; a
    partial listing is the first 5000 of them; and the directory handle is
    closed in every case. *)
Theorem listing_is_safe t r :
  runs (list_directory file_type rfc3339 permission_text self fuel path : rprg _) t r → list_spec t r.
Proof. intros H. apply (wp_runs _ [] t r _ wp_list H). Qed.
End Listing.
