(* ===== verification/LocalFs.v ===== *)
(** Local files under policy ([nexus-sftp/src/policy.rs]): the checks that a
    selected local object is still the approved one, as programs over the
    operating-system calls of [Calls]. *)

From S2P Require Import Prelude Str Model RemotePath Editor Files Prog Calls FilePlans.

(** [open_directory_handle], [open_source_handle], [open_file_identity_handle] *)
Definition open_error (m : OpenMode) : AppError :=
  match m with
  | OpenDirectory => local_access_error "The selected directory could not be opened safely."
  | OpenSource => local_access_error "The selected local file could not be locked for reading."
  | OpenIdentity => local_access_error "The local filesystem object could not be identified."
  end.
Definition open_handle (m : OpenMode) (p : Path) : iop Handle := ask_some (ask (COpen m p)) (open_error m).
Definition handle_metadata (h : Handle) (m : string) : iop Metadata :=
  ask_some (ask (CHandleMetadata h)) (local_access_error m).

Definition handle_identity (h : Handle) (md : Metadata) : iop LocalIdentity :=
  id ← ask_some (ask (CFileId h))
         (local_access_error "Strong local filesystem identity is unavailable for this object.");
  mret {| li_size := md_len md; li_modified := md_modified md; li_object_id := id |}.

Definition regular (md : Metadata) : bool := md_is_file md && negb (md_is_reparse md).

Definition local_identity (p : Path) : iop (option LocalIdentity) :=
  let! r := ask (CSymlinkMetadata p) in
  match r with
  | Ok metadata =>
      _ ← io_ensure (negb (regular metadata))
            (policy_error "The local destination is not a regular non-reparse file.");
      handle ← open_handle OpenIdentity p;
      md ← handle_metadata handle "The local destination identity could not be read.";
      _ ← io_ensure (negb (regular md))
            (policy_error "The local destination is not a regular non-reparse file.");
      identity ← handle_identity handle md;
      mret (Some identity)
  | Err IoNotFound => mret None
  | Err IoOther => io_fail (local_access_error "The local destination metadata could not be read.")
  end.

(** The ancestors of a path, root first, without the empty path. *)
Definition ancestry (p : Path) : list Path :=
  List.filter (λ q, negb (bool_decide (q = []))) (rev (path_ancestors (length p) p)).

Fixpoint check_ancestry (l : list Path) : iop unit :=
  match l with
  | [] => mret tt
  | component :: l =>
      let! r := ask (CSymlinkMetadata component) in
      match r with
      | Err _ => io_fail (local_access_error "The selected local directory ancestry is unavailable.")
      | Ok metadata =>
          if md_is_reparse metadata
          then io_fail (policy_error "The selected local directory ancestry contains a symlink or reparse point.")
          else check_ancestry l
      end
  end.

Definition validate_local_directory (p : Path) : iop unit :=
  _ ← check_ancestry (ancestry p);
  let! r := ask (CSymlinkMetadata p) in
  match r with
  | Err _ => io_fail (local_access_error "The selected local directory is unavailable.")
  | Ok metadata => io_ensure (negb (md_is_dir metadata))
                     (policy_error "The selected local destination is not a directory.")
  end.

Definition validate_parent (p : Path) : iop unit :=
  match path_parent p with Some parent => validate_local_directory parent | None => mret tt end.

Definition open_local_source (p : Path) (name : str) : iop LocalItem :=
  _ ← validate_parent p;
  let! r := ask (CSymlinkMetadata p) in
  match r with
  | Err _ => io_fail (local_access_error "A selected local file is unavailable.")
  | Ok path_metadata =>
      _ ← io_ensure (negb (regular path_metadata))
            (local_access_error "Uploads accept only regular non-reparse files.");
      handle ← open_handle OpenSource p;
      md ← handle_metadata handle "A selected local file identity is unavailable.";
      _ ← io_ensure (negb (regular md)) (local_access_error "Uploads accept only regular non-reparse files.");
      identity ← handle_identity handle md;
      path_handle ← open_handle OpenIdentity p;
      path_md ← handle_metadata path_handle "A selected local file identity is unavailable.";
      path_identity ← handle_identity path_handle path_md;
      _ ← io_ensure (bool_decide (identity ≠ path_identity))
            (local_access_error "The selected local file changed while it was opened.");
      mret {| lit_path := p; lit_display_name := name; lit_size := li_size identity;
              lit_identity := identity; lit_handle := handle |}
  end.

Section Display.
(** [Path::to_string_lossy]: the platform's spelling of a path. *)
Context (to_string_lossy : Path → str).

Definition open_local_directory (p : Path) : iop LocalDirectory :=
  _ ← validate_local_directory p;
  handle ← open_handle OpenDirectory p;
  md ← handle_metadata handle "The selected directory identity is unavailable.";
  identity ← handle_identity handle md;
  path_handle ← open_handle OpenDirectory p;
  path_md ← handle_metadata path_handle "The selected directory identity is unavailable.";
  path_identity ← handle_identity path_handle path_md;
  _ ← io_ensure (bool_decide (identity ≠ path_identity))
        (local_access_error "The selected directory changed while it was opened.");
  mret {| ld_path := p; ld_display_name := display_name (to_string_lossy p);
          ld_identity := identity; ld_handle := handle |}.

Definition validate_local_source (item : LocalItem) : iop unit :=
  _ ← validate_parent (lit_path item);
  let! r := ask (CSymlinkMetadata (lit_path item)) in
  match r with
  | Err _ => io_fail (local_access_error "The selected local source is unavailable.")
  | Ok path_metadata =>
      path_handle ← open_handle OpenIdentity (lit_path item);
      path_md ← handle_metadata path_handle "The selected local source is unavailable.";
      md ← handle_metadata (lit_handle item) "The selected local source handle is unavailable.";
      let changed := policy_error "The selected local source changed after approval." in
      _ ← io_ensure (negb (regular path_metadata) || negb (regular path_md)) changed;
      path_identity ← handle_identity path_handle path_md;
      _ ← io_ensure (bool_decide (path_identity ≠ lit_identity item)) changed;
      identity ← handle_identity (lit_handle item) md;
      io_ensure (bool_decide (identity ≠ lit_identity item)) changed
  end.

Definition same_local_object (left right : LocalIdentity) : bool :=
  bool_decide (li_object_id left = li_object_id right).

Definition validate_local_directory_handle (directory : LocalDirectory) : iop unit :=
  _ ← validate_local_directory (ld_path directory);
  path_handle ← open_handle OpenDirectory (ld_path directory);
  path_md ← handle_metadata path_handle "The selected local directory is unavailable.";
  path_identity ← handle_identity path_handle path_md;
  selected_md ← handle_metadata (ld_handle directory) "The selected directory handle is unavailable.";
  selected_identity ← handle_identity (ld_handle directory) selected_md;
  io_ensure (negb (same_local_object path_identity (ld_identity directory))
             || negb (same_local_object selected_identity (ld_identity directory)))
    (policy_error "The selected local directory changed after selection.").
End Display.

(** ** The checks only look *)

(** Reading the file system: metadata, identities, opening for reading. *)
Definition looks (c : call) : bool :=
  match c with
  | CSymlinkMetadata _ | COpen _ _ | CHandleMetadata _ | CFileId _ | CExists _ => true
  | _ => false
  end.

Ltac only_tac :=
  repeat first
  [ done
  | apply only_io_bind; [|intros ?]
  | apply only_bind; [|intros ?]
  | split; [reflexivity|intros ?]
  | case_match ].

Lemma check_ancestry_looks l : only looks (check_ancestry l : prg _).
Proof. induction l as [|p l IH]; cbn [check_ancestry]; only_tac. Qed.

Lemma validate_local_directory_looks p : only looks (validate_local_directory p : prg _).
Proof. unfold validate_local_directory. apply only_io_bind; [apply check_ancestry_looks|]. intros _. only_tac. Qed.

Lemma handle_identity_looks h md : only looks (handle_identity h md : prg _).
Proof. unfold handle_identity, ask_some. only_tac. Qed.
Lemma open_handle_looks m p : only looks (open_handle m p : prg _).
Proof. unfold open_handle, ask_some. only_tac. Qed.
Lemma handle_metadata_looks h m : only looks (handle_metadata h m : prg _).
Proof. unfold handle_metadata, ask_some. only_tac. Qed.

Ltac only_local :=
  repeat first
  [ apply handle_identity_looks | apply open_handle_looks | apply handle_metadata_looks
  | apply validate_local_directory_looks
  | done
  | apply only_io_bind; [|intros ?]
  | split; [reflexivity|intros ?]
  | case_match ].

Lemma validate_local_source_looks item : only looks (validate_local_source item : prg _).
Proof.
  unfold validate_local_source, validate_parent. apply only_io_bind; [only_local|]. intros _.
  apply only_bind; [only_local|]. intros [md|e]; only_local.
Qed.

Lemma validate_local_directory_handle_looks d : only looks (validate_local_directory_handle d : prg _).
Proof. unfold validate_local_directory_handle. only_local. Qed.

Lemma local_identity_looks p : only looks (local_identity p : prg _).
Proof. unfold local_identity. apply only_bind; [only_local|]. intros [md|[]]; only_local. Qed.
