(* ===== verification/FilePlanning.v ===== *)
(** Planning uploads, downloads and mutations ([plan_upload],
    [plan_download], [plan_mutation] and the Keep both names of
    [nexus-sftp/src/policy.rs]).

    Each method asks the server and the file system, then hands a request to
    [insert_with_id] of the plan store; the programs here return that request. *)

From S2P Require Import Prelude Str Model RemotePath Editor Ip Files Prog Calls FilePlans LocalFs.

Definition split_name (name : str) : str * str :=
  match rsplit_once (ch ".") name with
  | Some (stem, extension) => if is_empty stem then (name, []) else (stem, ch "." :: extension)
  | None => (name, [])
  end.

(** [format!("{stem} ({number}){extension}")] *)
Definition numbered (name : str) (number : Z) : str :=
  let '(stem, extension) := split_name name in
  stem ++ lit " (" ++ show_dec number ++ lit ")" ++ extension.

Definition KEEP_BOTH_TRIES : nat := 1000.

Fixpoint keep_both_remote_from (tries : nat) (number : Z) (directory name : str) : iop str :=
  match tries with
  | 0%nat => io_fail (policy_error "No available Keep both name was found.")
  | S k =>
      candidate ← io_lift (join_remote directory (numbered name number));
      existing ← client_identity candidate;
      match existing with
      | None => mret candidate
      | Some _ => keep_both_remote_from k (number + 1) directory name
      end
  end.
Definition keep_both_remote (directory name : str) : iop str := keep_both_remote_from KEEP_BOTH_TRIES 1 directory name.

Fixpoint keep_both_local_from (tries : nat) (number : Z) (directory : Path) (name : str) : iop Path :=
  match tries with
  | 0%nat => io_fail (policy_error "No available Keep both name was found.")
  | S k =>
      let candidate := path_join directory (numbered name number) in
      let! exists_ := ask (CExists candidate) in
      if exists_ then keep_both_local_from k (number + 1) directory name else mret candidate
  end.
Definition keep_both_local (directory : Path) (name : str) : iop Path :=
  keep_both_local_from KEEP_BOTH_TRIES 1 directory name.

Definition hardlink_ext : str := lit "hardlink@openssh.com".
Definition posix_rename_ext : str := lit "posix-rename@openssh.com".

Definition upload_destination (client : Client) (directory name base : str) (policy : ConflictPolicy)
    (existing : option EntryIdentity) : iop (str * DestinationAction EntryIdentity) :=
  match existing, policy with
  | None, _ =>
      if supports client hardlink_ext (lit "1") then mret (base, ACreateNew)
      else io_fail (policy_error "Safe new-file finalization requires hardlink@openssh.com v1.")
  | Some _, PSkip => mret (base, ASkip)
  | Some identity, PReplace =>
      if bool_decide (ei_kind identity = KFile) && supports client posix_rename_ext (lit "1")
      then mret (base, AReplaceExisting identity)
      else io_fail (policy_error "Replace is limited to an existing regular file.")
  | Some _, PKeepBoth =>
      _ ← io_ensure (negb (supports client hardlink_ext (lit "1")))
            (policy_error "Safe Keep both finalization requires hardlink@openssh.com v1.");
      candidate ← keep_both_remote directory name;
      mret (candidate, ACreateNew)
  end.

Definition plan_one_upload (client : Client) (directory : str) (policy : ConflictPolicy) (source : LocalItem)
    : iop (FilePlanItem * PlannedUpload) :=
  _ ← validate_local_source source;
  _ ← io_lift (validate_child_name (lit_display_name source));
  base ← io_lift (join_remote directory (lit_display_name source));
  existing ← client_identity base;
  da ← upload_destination client directory (lit_display_name source) base policy existing;
  mret ({| source_display := display_name (lit_display_name source);
           destination_display := display_name da.1;
           item_size_bytes := Some (show_dec (lit_size source)) |},
        {| pu_source := source; pu_destination := da.1; pu_action := da.2 |}).

Fixpoint plan_each {A B} (f : A → iop B) (l : list A) : iop (list B) :=
  match l with
  | [] => mret []
  | a :: l => b ← f a; bs ← plan_each f l; mret (b :: bs)
  end.

Definition request (id : FilePlanId) (client : Client) (kind : FileOperationKind) (risk : OperationRisk)
    (policy : option ConflictPolicy) (items : list FilePlanItem) (p : PlanPayload) : PlanInsert :=
  {| pi_id := id; pi_info := client; pi_kind := kind; pi_risk := risk; pi_conflict_policy := policy;
     pi_items := items; pi_payload := p; pi_editor_document := None |}.

Definition plan_upload (id : FilePlanId) (client : Client) (sources : list LocalItem) (remote_directory : str)
    (policy : ConflictPolicy) : iop PlanInsert :=
  _ ← io_lift (validate_remote_path remote_directory);
  _ ← io_ensure (bool_decide (length sources = 0%nat)) (policy_error "Select at least one regular file.");
  planned ← plan_each (plan_one_upload client remote_directory policy) sources;
  mret (request id client OpUpload Moderate (Some policy) planned.*1 (Upload client policy planned.*2)).

Section Display.
Context (to_string_lossy : Path → str).

Definition plan_one_download (local_directory : LocalDirectory) (policy : ConflictPolicy) (path : str)
    : iop (FilePlanItem * PlannedDownload) :=
  entry ← client_stat path;
  _ ← io_ensure (bool_decide (re_kind entry ≠ KFile)) (policy_error "Only regular files can be downloaded.");
  _ ← io_lift (validate_windows_file_name (re_name entry));
  _ ← validate_local_directory_handle local_directory;
  let destination := path_join (ld_path local_directory) (re_name entry) in
  existing ← local_identity destination;
  da ← match existing, policy with
       | None, _ => mret (destination, ACreateNew)
       | Some _, PSkip => mret (destination, ASkip)
       | Some value, PReplace => mret (destination, AReplaceExisting value)
       | Some _, PKeepBoth =>
           candidate ← keep_both_local (ld_path local_directory) (re_name entry);
           mret (candidate, ACreateNew)
       end;
  found ← client_identity path;
  identity ← io_lift (ok_or found (app_error NotFound "The remote source no longer exists."));
  file_name ← io_lift (ok_or (path_file_name da.1) (policy_error "The local filename is unavailable."));
  mret ({| source_display := re_display_name entry;
           destination_display := display_name (to_string_lossy da.1);
           item_size_bytes := re_size_bytes entry |},
        {| pd_source := {| rs_path := path; rs_name := re_name entry; rs_size := ei_size identity;
                           rs_identity := identity |};
           pd_destination := local_directory; pd_file_name := file_name; pd_action := da.2 |}).

Definition plan_download (id : FilePlanId) (client : Client) (remote_paths : list str)
    (local_directory : LocalDirectory) (policy : ConflictPolicy) : iop PlanInsert :=
  _ ← io_ensure (bool_decide (length remote_paths = 0%nat)) (policy_error "Select at least one regular file.");
  planned ← plan_each (plan_one_download local_directory policy) remote_paths;
  mret (request id client OpDownload Moderate (Some policy) planned.*1 (Download client policy planned.*2)).
End Display.

Definition plan_mutation (id : FilePlanId) (client : Client) (spec : MutationSpec) : Res PlanInsert :=
  match spec with
  | MCreateDirectory path =>
      _ ← validate_remote_path path;
      Ok (request id client OpCreateDirectory Low None
            [{| source_display := lit "New directory"; destination_display := display_name path;
                item_size_bytes := None |}] (Mutation client spec))
  | MRename source destination _ =>
      _ ← validate_remote_path source;
      _ ← validate_remote_path destination;
      Ok (request id client OpRename Moderate None
            [{| source_display := display_name source; destination_display := display_name destination;
                item_size_bytes := None |}] (Mutation client spec))
  | MDelete path _ _ =>
      _ ← validate_remote_path path;
      Ok (request id client OpDelete Destructive None
            [{| source_display := display_name path; destination_display := lit "Permanent deletion";
                item_size_bytes := None |}] (Mutation client spec))
  end.

(** ** What an accepted plan rests on *)

(** Every element was planned by a run that is part of the whole. *)
Lemma plan_each_ok {A B} (f : A → iop B) l t bs :
  runs (plan_each f l : prg _) t (Ok bs) →
  Forall2 (λ a b, ∃ t', t' ⊆ t ∧ runs (f a : prg _) t' (Ok b)) l bs.
Proof.
  revert t bs. induction l as [|a l IH]; intros t bs; cbn [plan_each].
  - intros [-> ->]%runs_mret. constructor.
  - intros H. run_ok H b Hb. run_ok H bs' Hbs. apply runs_mret in H as [-> ->].
    constructor.
    + exists x. split; [set_solver|done].
    + apply IH in Hbs. eapply list.Forall2_impl; [done|]. intros a' b' (t' & Ht & H'). exists t'. split; [set_solver|done].
Qed.

(** The action agrees with what the server said about the destination. *)
Definition observed (policy : ConflictPolicy) (t : trace) (destination : str)
    (action : DestinationAction EntryIdentity) : Prop :=
  match action with
  | ACreateNew => Ev (CIdentity destination) (Ok None) ∈ t
  | AReplaceExisting i => policy = PReplace ∧ ei_kind i = KFile ∧ Ev (CIdentity destination) (Ok (Some i)) ∈ t
  | ASkip => policy = PSkip ∧ ∃ i, Ev (CIdentity destination) (Ok (Some i)) ∈ t
  end.

Lemma observed_mono policy t t' d a : t ⊆ t' → observed policy t d a → observed policy t' d a.
Proof. intros Ht. destruct a; cbn; naive_solver set_solver. Qed.

Lemma keep_both_remote_ok tries n directory name t c :
  runs (keep_both_remote_from tries n directory name : prg _) t (Ok c) →
  (∃ child, join_remote directory child = Ok c) ∧ Ev (CIdentity c) (Ok None) ∈ t.
Proof.
  revert n t. induction tries as [|k IH]; intros n t; cbn [keep_both_remote_from].
  - by intros [_ ?]%runs_ret_inv.
  - intros H. run_ok H cand Hc. apply runs_lift in Hc as [-> Hc]. run_ok H fnd He. apply runs_identity in He as ->.
    destruct fnd as [i|]; [apply IH in H as [H1 H2]; split; [done|set_solver]|].
    apply runs_mret in H as [-> ->]. split; [eauto|set_solver].
Qed.

Lemma upload_destination_ok client directory name base policy existing t d a :
  join_remote directory name = Ok base →
  runs (upload_destination client directory name base policy existing : prg _) t (Ok (d, a)) →
  (∃ child, join_remote directory child = Ok d) ∧
  observed policy (Ev (CIdentity base) (Ok existing) :: t) d a.
Proof.
  intros Hb. unfold upload_destination. destruct existing as [i|].
  - destruct policy.
    + intros [-> [= -> ->]]%runs_mret. split; [eauto|]. split; [done|]. exists i. set_solver.
    + intros H. run_ok H u Hu. apply runs_ensure in Hu as [-> _]. run_ok H c Hc.
      apply runs_mret in H as [-> [= -> ->]]. apply keep_both_remote_ok in Hc as [H1 H2]. split; [done|].
      cbn. set_solver.
    + destruct (bool_decide (ei_kind i = KFile) && _) eqn:E; [|by intros [_ ?]%runs_ret_inv].
      intros [-> [= -> ->]]%runs_mret. split_bools. split; [eauto|]. cbn. split; [done|]. split; [done|set_solver].
  - destruct (supports _ _ _); [|by intros [_ ?]%runs_ret_inv].
    intros [-> [= -> ->]]%runs_mret. split; [eauto|]. cbn. set_solver.
Qed.

(** An accepted upload plan writes only below the chosen remote folder,
    one entry per selected file, and rests on what the server said: a file is
    created only where the server reported no entry, and replaced only under
    the Replace policy and only the regular file the server reported. *)
Theorem plan_upload_observed id client sources dir policy t req :
  runs (plan_upload id client sources dir policy : prg _) t (Ok req) →
  ∃ items, pi_payload req = Upload client policy items ∧ sources ≠ [] ∧
  Forall2 (λ s u, pu_source u = s ∧ (∃ child, join_remote dir child = Ok (pu_destination u)) ∧
                  observed policy t (pu_destination u) (pu_action u)) sources items.
Proof.
  unfold plan_upload. intros H. run_ok H u0 Hu0. run_ok H u1 Hu1. run_ok H planned Hp.
  apply runs_mret in H as [-> ->]. apply runs_lift in Hu0 as [-> _]. apply runs_ensure in Hu1 as [-> Hne].
  exists planned.*2. split; [done|]. split; [destruct sources; [discriminate Hne|done]|].
  apply plan_each_ok in Hp. rewrite !app_nil_l, app_nil_r. apply Forall2_fmap_r.
  eapply list.Forall2_impl; [done|]. clear. intros s [it u] (t' & Ht & H). unfold plan_one_upload in H.
  run_ok H u0 Hu0. run_ok H u1 Hu1. run_ok H base Hb. run_ok H fnd Hex. run_ok H da Hda.
  apply runs_mret in H as [-> [= -> ->]]. apply runs_lift in Hb as [-> Hb]. apply runs_identity in Hex as ->.
  destruct da as [d a]. apply (upload_destination_ok _ _ _ _ _ _ _ _ _ Hb) in Hda as [H1 H2]. cbn [pu_source pu_destination pu_action].
  split; [done|]. split; [done|]. eapply observed_mono; [|done]. set_solver.
Qed.

(** ** Local names *)

Definition local_safe (x : char) : bool :=
  negb (x =? ch "/") && negb (contains_char x windows_forbidden) && negb (is_control x).

Lemma digits_local_safe d : 0 ≤ d < 10 → local_safe (digit_char d) = true.
Proof.
  intros H. assert (d ∈ [0;1;2;3;4;5;6;7;8;9]) as Hd by (rewrite !elem_of_cons; lia).
  revert Hd. clear H. apply (list.Forall_forall (λ d, local_safe (digit_char d) = true)).
  repeat (apply list.Forall_cons; split; [reflexivity|]). constructor.
Qed.

Lemma show_dec_local_safe fuel n acc :
  Forall (λ x, local_safe x = true) acc → Forall (λ x, local_safe x = true) (show_radix fuel 10 n acc).
Proof.
  revert n acc. induction fuel as [|k IH]; intros n acc Ha; cbn [show_radix]; [done|].
  assert (Forall (λ x, local_safe x = true) (digit_char (n mod 10) :: acc)) as Ha'.
  { apply list.Forall_cons. split; [apply digits_local_safe, Z.mod_pos_bound; lia|done]. }
  case_match; auto.
Qed.

Lemma split_name_app name : (split_name name).1 ++ (split_name name).2 = name.
Proof.
  unfold split_name. destruct (rsplit_once (ch ".") name) as [[a b]|] eqn:E; [|apply app_nil_r].
  apply rsplit_once_some in E as [-> _]. destruct a; [apply app_nil_r|done].
Qed.

Lemma numbered_safe name n :
  Forall (λ x, local_safe x = true) name → Forall (λ x, local_safe x = true) (numbered name n) ∧ numbered name n ≠ [].
Proof.
  intros Hn. unfold numbered. pose proof (split_name_app name) as Hs. destruct (split_name name) as [stem ext].
  cbn in Hs. subst name. apply Forall_app in Hn as [Hs He]. split.
  - rewrite !Forall_app. split; [done|]. split; [by repeat (apply list.Forall_cons; split; [reflexivity|])|].
    split; [apply show_dec_local_safe; constructor|]. split; [|done].
    by repeat (apply list.Forall_cons; split; [reflexivity|]).
  - by destruct stem.
Qed.

Lemma keep_both_local_ok tries n directory name t p :
  runs (keep_both_local_from tries n directory name : prg _) t (Ok p) → ∃ m, p = path_join directory (numbered name m).
Proof.
  revert n t. induction tries as [|k IH]; intros n t; cbn [keep_both_local_from].
  - by intros [_ ?]%runs_ret_inv.
  - intros (e & t1 & t2 & _ & H & ->)%runs_bind. destruct e; [by apply IH in H|].
    apply runs_mret in H as [_ ->]. eauto.
Qed.

Lemma windows_name_local_safe name :
  validate_windows_file_name name = Ok tt → Forall (λ x, local_safe x = true) name ∧ name ≠ [].
Proof.
  unfold validate_windows_file_name. rewrite bind_ok. intros ([] & Hc & H).
  apply bind_ok in H as (_ & Hw%ensure_ok & _). apply validate_child_name_ok in Hc as (He & _ & _ & Hs & _).
  apply orb_false_iff in Hw as [[_ Hf]%orb_false_iff Hctl]. split; [|done].
  apply list.Forall_forall. intros x Hx. unfold local_safe. rewrite !andb_true_iff, !negb_true_iff, Z.eqb_neq.
  pose proof (proj1 (existsb_false _ _) Hf x Hx). pose proof (proj1 (existsb_false _ _) Hctl x Hx).
  split; [split|]; [by intros ->|done|done].
Qed.

(** An accepted download plan stays in the chosen local folder and rests
    on what the server said: each local name is one non-empty component
    without separators, drive colons, wildcards or control characters; the
    source was reported a regular file, its recorded identity is the one the
    server gave, and an existing local file is replaced only under the
    Replace policy. *)
Theorem plan_download_confined lossy id client paths dir policy t req :
  runs (plan_download lossy id client paths dir policy : prg _) t (Ok req) →
  ∃ items, pi_payload req = Download client policy items ∧ paths ≠ [] ∧
  Forall2 (λ p d, rs_path (pd_source d) = p ∧ pd_destination d = dir ∧
                  Forall (λ x, local_safe x = true) (pd_file_name d) ∧ pd_file_name d ≠ [] ∧
                  (∃ e, Ev (CStat p) (Ok e) ∈ t ∧ re_kind e = KFile) ∧
                  Ev (CIdentity p) (Ok (Some (rs_identity (pd_source d)))) ∈ t ∧
                  (∀ v, pd_action d = AReplaceExisting v → policy = PReplace) ∧
                  (pd_action d = ASkip → policy = PSkip)) paths items.
Proof.
  unfold plan_download. intros H. run_ok H u1 Hu1. run_ok H planned Hp.
  apply runs_mret in H as [-> ->]. apply runs_ensure in Hu1 as [-> Hne].
  exists planned.*2. split; [done|]. split; [destruct paths; [discriminate Hne|done]|].
  apply plan_each_ok in Hp. rewrite app_nil_l, app_nil_r. apply Forall2_fmap_r.
  eapply list.Forall2_impl; [done|]. clear. intros p [it d] (t' & Ht & H). unfold plan_one_download in H.
  run_ok H e He. run_ok H u0 Hk. run_ok H u1 Hw. run_ok H u2 Hv. run_ok H fnd Hl. run_ok H da Hda.
  run_ok H fnd2 Hid. run_ok H idn Hi. run_ok H fname Hn.
  apply runs_mret in H as [-> [= -> ->]]. apply runs_stat in He as ->. apply runs_ensure in Hk as [-> Hk%bool_decide_eq_false%dec_stable].
  apply runs_lift in Hw as [-> Hw], Hi as [-> Hi], Hn as [-> Hn]. apply runs_identity in Hid as ->.
  apply ok_or_ok in Hi, Hn. subst fnd2. destruct u1. apply windows_name_local_safe in Hw as [Hw1 Hw2].
  assert ((∃ n, da.1 = path_join (ld_path dir) n ∧ Forall (λ x, local_safe x = true) n ∧ n ≠ []) ∧
          (∀ v, da.2 = AReplaceExisting v → policy = PReplace) ∧ (da.2 = ASkip → policy = PSkip)) as [(n & En & Hn1 & Hn2) Hact].
  { destruct fnd as [v|], policy; cbv beta iota in Hda.
    all: try (apply runs_mret in Hda as [_ ->]; cbn; by split; [eauto|]).
    run_ok Hda c Hc. apply runs_mret in Hda as [_ ->]. apply keep_both_local_ok in Hc as (m & ->). cbn.
    split; [|done]. eexists. split; [done|]. by apply numbered_safe. }
  rewrite En, path_file_name_join in Hn. injection Hn as <-. cbn [pd_source pd_destination pd_file_name pd_action rs_path rs_identity].
  split; [done|]. split; [done|]. split; [done|]. split; [done|].
  split; [exists e; split; [apply Ht; find_event|done]|]. split; [apply Ht; find_event|done].
Qed.

(** ** Concrete plans *)

Definition ex_client : Client :=
  sample_info 7%N 1%N 2%N [{| ext_name := hardlink_ext; ext_version := lit "1" |}].
Definition ex_source : LocalItem :=
  {| lit_path := [RootDir (lit "C:"); Normal (lit "f.txt")]; lit_display_name := lit "f.txt"; lit_size := 4;
     lit_identity := sample_identity; lit_handle := 1%N |}.
Definition ex_directory : LocalDirectory :=
  {| ld_path := [RootDir (lit "C:")]; ld_display_name := lit "C:\"; ld_identity := sample_identity; ld_handle := 1%N |}.
Definition ex_entry : EntryIdentity := {| ei_kind := KFile; ei_size := Some 4; ei_modified := None |}.
Definition ex_revision : EditorRevision := {| er_identity := ex_entry; raw_mode := 33188; er_uid := 0; er_gid := 0 |}.

(** The remote folder already has [f.txt]; Keep both picks another name. *)
Definition ex_answer : ∀ c, reply c :=
  sample_answer (λ p, if str_eqb p (lit "/up/f.txt") then Some ex_entry else None)
    (λ p, Some (bool_decide (p = [RootDir (lit "C:")]))) ex_revision [].
Definition ex_upload : iop PlanInsert := plan_upload 5%N ex_client [ex_source] (lit "/up") PKeepBoth.
Definition ex_upload_request : PlanInsert :=
  request 5%N ex_client OpUpload Moderate (Some PKeepBoth)
    [{| source_display := lit "f.txt"; destination_display := lit "/up/f (1).txt"; item_size_bytes := Some (lit "4") |}]
    (Upload ex_client PKeepBoth [{| pu_source := ex_source; pu_destination := lit "/up/f (1).txt"; pu_action := ACreateNew |}]).

Lemma plan_upload_observed_witness :
  (interp ex_answer (ex_upload : prg _)).2 = Ok ex_upload_request ∧
  ∃ items, pi_payload ex_upload_request = Upload ex_client PKeepBoth items ∧ [ex_source] ≠ [] ∧
  Forall2 (λ s u, pu_source u = s ∧ (∃ child, join_remote (lit "/up") child = Ok (pu_destination u)) ∧
     observed PKeepBoth (interp ex_answer (ex_upload : prg _)).1 (pu_destination u) (pu_action u)) [ex_source] items.
Proof.
  assert ((interp ex_answer (ex_upload : prg _)).2 = Ok ex_upload_request) as E by (vm_compute; reflexivity).
  split; [exact E|]. apply (plan_upload_observed 5%N ex_client [ex_source] (lit "/up") PKeepBoth).
  apply (interp_runs_eq ex_answer), E.
Defined.

Definition ex_remote_answer : ∀ c, reply c :=
  sample_answer (λ _, Some ex_entry) (λ p, Some (bool_decide (p = [RootDir (lit "C:")]))) ex_revision [].
Definition ex_download : iop PlanInsert :=
  plan_download (λ _, lit "C:\f.txt") 6%N ex_client [lit "/up/f.txt"] ex_directory PReplace.

Lemma plan_download_confined_witness :
  ∃ req items, (interp ex_remote_answer (ex_download : prg _)).2 = Ok req ∧
    pi_payload req = Download ex_client PReplace items ∧ length items = 1%nat.
Proof.
  destruct (interp ex_remote_answer (ex_download : prg _)).2 as [req|e] eqn:E; [|vm_compute in E; discriminate].
  destruct (plan_download_confined (λ _, lit "C:\f.txt") 6%N ex_client [lit "/up/f.txt"] ex_directory PReplace
              (interp ex_remote_answer (ex_download : prg _)).1 req) as (items & H1 & _ & H2).
  { apply (interp_runs_eq ex_remote_answer), E. }
  exists req, items. split; [reflexivity|]. split; [exact H1|]. symmetry. exact (Forall2_length H2).
Defined.
