(* ===== verification/TransferRun.v ===== *)
(** Running one transfer ([run_transfer], [run_editor_save], [run_upload],
    [run_download_with_staging] and [execute_mutation] of
    [nexus-sftp/src/transfer.rs]) as programs over the calls of [Calls].

    Cleaning up after an error is part of each program; the guard that is
    dropped while it still owns a staging file spawns the cleanup task. *)

From S2P Require Import Prelude Str Model RemotePath Editor Files Prog Calls FilePlans LocalFs.

Inductive TransferDirection := DUpload | DDownload.

Inductive Source :=
| SLocal (item : LocalItem)
| SRemote (source : RemoteSource)
| SEditor (bytes : list Z) (expected : EditorRevision) (original_digest : Digest).

Inductive Destination :=
| DRemote (path : str) (action : DestinationAction EntryIdentity)
| DLocal (directory : LocalDirectory) (file_name : str) (action : DestinationAction LocalIdentity).

Record JobSpec := {
  js_client : Client;
  js_direction : TransferDirection;
  js_source : Source;
  js_destination : Destination
}.

(** [RemoteStagingGuard::cleanup] when the guard is armed. *)
Definition cleanup (owned : bool) (staging : str) : iop unit :=
  if owned then
    let! r := ask (CRemoveOwnedStaging staging) in
    match r with
    | Ok _ => mret tt
    | Err e =>
        let! _ := ask CCleanupUnconfirmed in
        io_fail (app_error (code e) "Owned staging cleanup could not be confirmed; inspect the remote directory.")
    end
  else mret tt.

(** [Drop for RemoteStagingGuard] when the guard is armed. *)
Definition drop_guard (owned : bool) (staging : str) : prg unit :=
  if owned then ask (CSpawnCleanup staging) else Ret tt.

Definition fail_clean {A} (owned : bool) (staging : str) (e : AppError) : iop A :=
  _ ← cleanup owned staging; io_fail e.
Definition fail_drop {A} (owned : bool) (staging : str) (e : AppError) : iop A :=
  let! _ := drop_guard owned staging in io_fail e.

(** [match r { Ok(v) => v, Err(e) => { guard.cleanup().await?; return Err(e) } }] *)
Definition or_clean {A} (owned : bool) (staging : str) (m : iop A) : iop A :=
  let! r := (m : prg (Res A)) in
  match r with Ok a => mret a | Err e => fail_clean owned staging e end.
Definition ensure_clean (owned : bool) (staging : str) (bad : bool) (e : AppError) : iop unit :=
  if bad then fail_clean owned staging e else mret tt.

Definition cancelled_before_finalization : AppError :=
  app_error Cancelled "The transfer was cancelled before finalization.".

(** After a staged upload failed with the staging file created. *)
Definition owned_failure {A} (owned : bool) (staging : str) (cancelled e : AppError) : iop A :=
  _ ← cleanup owned staging;
  let! c := ask CIsCancelled in
  if c && bool_decide (code e ≠ OutcomeUnknown) then io_fail cancelled else io_fail e.

(** The end of an upload: the commit succeeded, or the staging file goes. *)
Definition finish_commit (owned : bool) (staging : str) (unconfirmed : string) (r : Res unit) : iop unit :=
  match r with
  | Ok _ => mret tt
  | Err e =>
      let! cleaned := (cleanup owned staging : prg (Res unit)) in
      match cleaned with
      | Ok _ => io_fail e
      | Err cleanup_error =>
          if bool_decide (code e = OutcomeUnknown) then io_fail (app_error OutcomeUnknown unconfirmed)
          else io_fail cleanup_error
      end
  end.

Section Run.
(** [Sha256::digest], [Uuid::simple] and the job's identifier. *)
Context (digest : list Z → Digest) (simple : TransferJobId → str) (id : TransferJobId).

Definition staging_name (suffix : str) : str := lit ".nexusops-" ++ simple id ++ suffix.
Definition staging_path (destination suffix : str) : Res str :=
  parent ← parent_remote destination; join_remote parent (staging_name suffix).

Definition run_editor_save (destination : str) (bytes : list Z) (expected : EditorRevision)
    (original_digest : Digest) : iop unit :=
  revision ← client_editor_revision destination;
  _ ← io_ensure (bool_decide (revision ≠ expected)) (app_error Conflict "The remote file changed before editor save.");
  before ← client_read_editor_bytes destination;
  _ ← io_ensure (bool_decide (digest before ≠ original_digest))
        (app_error Conflict "The remote file contents changed before editor save.");
  staging ← io_lift (staging_path destination (lit ".edit.part"));
  let! _ := ask (CSetState Transferring) in
  let! uploaded := ask (CUploadStaged (FromBytes bytes) staging) in
  let owned := uploaded.1 in
  streamed ← match uploaded.2 with
             | Ok value => mret value
             | Err (NotCreated e) | Err (CreationOutcomeUnknown e) => fail_drop owned staging e
             | Err (OwnedFailure e) =>
                 owned_failure owned staging (app_error Cancelled "Editor save was cancelled before finalization.") e
             end;
  _ ← ensure_clean owned staging (bool_decide (streamed ≠ zlen bytes))
        (transfer_error "The editor staging byte count did not match.");
  _ ← or_clean owned staging (ask (CPreserveEditorMetadata staging expected));
  staged ← or_clean owned staging (client_editor_revision destination);
  _ ← ensure_clean owned staging (bool_decide (staged ≠ expected))
        (app_error Conflict "The remote file changed during editor staging.");
  staged_bytes ← or_clean owned staging (client_read_editor_bytes destination);
  _ ← ensure_clean owned staging (bool_decide (digest staged_bytes ≠ original_digest))
        (app_error Conflict "The remote file contents changed during editor staging.");
  current ← or_clean owned staging (client_editor_revision destination);
  _ ← ensure_clean owned staging (bool_decide (current ≠ expected))
        (app_error Conflict "The remote file changed before editor replacement.");
  final_bytes ← or_clean owned staging (client_read_editor_bytes destination);
  _ ← ensure_clean owned staging (bool_decide (digest final_bytes ≠ original_digest))
        (app_error Conflict "The remote file contents changed before editor replacement.");
  _ ← or_clean owned staging (ask CEnterFinalizing);
  let! r := ask (CCommitReplace staging destination) in
  finish_commit owned staging "Editor replacement and owned staging cleanup could not be confirmed." r.

(** The destination is still what was approved. *)
Definition destination_matches {T} `{EqDecision T} (action : DestinationAction T) (current : option T) : bool :=
  match action with
  | ACreateNew => bool_decide (current = None)
  | AReplaceExisting expected => bool_decide (current = Some expected)
  | ASkip => true
  end.

Definition run_upload (source : LocalItem) (destination : str) (action : DestinationAction EntryIdentity) : iop unit :=
  _ ← validate_local_source source;
  file ← ask_some (ask (CTryClone (lit_handle source)))
           (local_access_error "The selected local source handle is unavailable.");
  _ ← ask_true (ask (CSeekStart file))
        (local_access_error "The selected local source could not be read from the beginning.");
  staging ← io_lift (staging_path destination (lit ".part"));
  let! _ := ask (CSetState Transferring) in
  let! uploaded := ask (CUploadStaged (FromHandle file) staging) in
  let owned := uploaded.1 in
  streamed ← match uploaded.2 with
             | Ok value => mret value
             | Err (NotCreated e) | Err (CreationOutcomeUnknown e) => fail_drop owned staging e
             | Err (OwnedFailure e) => owned_failure owned staging cancelled_before_finalization e
             end;
  _ ← ensure_clean owned staging (bool_decide (streamed ≠ lit_size source))
        (transfer_error "The local source size changed during transfer.");
  _ ← or_clean owned staging (validate_local_source source);
  let! c := ask CIsCancelled in
  _ ← ensure_clean owned staging c cancelled_before_finalization;
  _ ← or_clean owned staging (ask CEnterFinalizing);
  current ← or_clean owned staging (client_identity destination);
  _ ← ensure_clean owned staging (negb (destination_matches action current))
        (app_error Conflict "The remote destination changed after approval.");
  let! r := match action with
            | AReplaceExisting _ => ask (CCommitReplace staging destination)
            | ACreateNew => ask (CCommitNew staging destination)
            | ASkip => Ret (Ok tt)
            end in
  finish_commit owned staging
    "The final mutation and owned staging cleanup could not be confirmed; refresh before taking another action." r.

Definition run_download (source : RemoteSource) (directory : LocalDirectory) (file_name : str)
    (action : DestinationAction LocalIdentity) : iop unit :=
  before ← client_identity (rs_path source);
  _ ← io_ensure (bool_decide (before ≠ Some (rs_identity source)))
        (app_error Conflict "The remote source changed after approval.");
  _ ← validate_local_directory_handle directory;
  let destination := path_join (ld_path directory) file_name in
  _ ← ask_true (ask (CTempfileIn (ld_path directory)))
        (local_access_error "A local staging file could not be created.");
  let! _ := ask (CSetState Transferring) in
  let! r := ask (CDownload (rs_path source)) in
  bytes ← match r with
          | Ok bytes => mret bytes
          | Err e =>
              let! c := ask CIsCancelled in
              if c && bool_decide (code e ≠ OutcomeUnknown) then io_fail cancelled_before_finalization else io_fail e
          end;
  _ ← io_ensure (match rs_size source with Some size => bool_decide (size ≠ bytes) | None => false end)
        (transfer_error "The remote source size changed during transfer.");
  after ← client_identity (rs_path source);
  _ ← io_ensure (bool_decide (after ≠ Some (rs_identity source)))
        (app_error Conflict "The remote source changed during transfer.");
  _ ← ask_true (ask CSyncAll) (transfer_error "The local staging file could not be synchronized.");
  let! c := ask CIsCancelled in
  _ ← io_ensure c cancelled_before_finalization;
  _ ← (ask CEnterFinalizing : iop unit);
  _ ← validate_local_directory_handle directory;
  current ← local_identity destination;
  _ ← io_ensure (negb (destination_matches action current))
        (app_error Conflict "The local destination changed after approval.");
  match action with
  | AReplaceExisting _ =>
      ask_true (ask (CPersist destination)) (app_error OutcomeUnknown "The local Replace result could not be confirmed.")
  | ACreateNew =>
      ask_true (ask (CPersistNoclobber destination))
        (app_error Conflict "The local destination appeared before finalization.")
  | ASkip => mret tt
  end.

Definition skips (d : Destination) : bool :=
  match d with DRemote _ ASkip | DLocal _ _ ASkip => true | _ => false end.

Definition run_transfer (spec : JobSpec) : iop unit :=
  if skips (js_destination spec) then mret tt else
  match js_source spec, js_destination spec with
  | SEditor bytes expected original_digest, DRemote path _ => run_editor_save path bytes expected original_digest
  | SLocal source, DRemote path action => run_upload source path action
  | SRemote source, DLocal directory file_name action => run_download source directory file_name action
  | _, _ => io_fail (transfer_error "Invalid transfer specification.")
  end.
End Run.

Definition execute_mutation (spec : MutationSpec) : iop unit :=
  match spec with
  | MCreateDirectory path => client_create_dir path
  | MRename source destination expected_source =>
      found ← client_identity source;
      _ ← io_ensure (bool_decide (found ≠ Some expected_source))
            (app_error Conflict "The remote source changed after approval.");
      client_rename_noclobber source destination
  | MDelete path kind expected =>
      found ← client_identity path;
      _ ← io_ensure (bool_decide (found ≠ Some expected))
            (app_error Conflict "The remote entry changed after approval.");
      match kind with
      | KFile | KSymlink => client_remove_file path
      | KDirectory => client_remove_dir path
      | _ => io_fail (app_error FilePolicy "Special files cannot be deleted.")
      end
  end.
