(* ===== verification/TransferSafe.v ===== *)
(** What every run of a transfer guarantees, whatever the server, the file
    system and the other tasks do between its calls. *)

From S2P Require Import Prelude Str Model RemotePath Editor Files Prog Calls FilePlans LocalFs TransferRun.

(** ** Reading a trace *)

(** The calls that put something at a destination. *)
Definition commits (c : call) : bool :=
  match c with
  | CCommitNew _ _ | CCommitReplace _ _ | CPersist _ | CPersistNoclobber _ => true
  | _ => false
  end.
Definition commits_in (t : trace) : bool := existsb (λ e, commits (ev_call e)) t.

(** The server confirmed that it created the staging file. *)
Definition owns (e : event reply) : bool :=
  match e with
  | Ev (CUploadStaged _ _) r => r.1
  | _ => false
  end.
Definition owns_in (t : trace) : bool := existsb owns t.

(** A commit the server confirmed. *)
Definition committed (e : event reply) : bool :=
  match e with
  | Ev (CCommitNew _ _) r | Ev (CCommitReplace _ _) r => is_ok r
  | _ => false
  end.

(** The staging file was removed, or its removal was tried or handed to the
    cleanup task. *)
Definition cleans (staging : str) (c : call) : bool :=
  match c with CRemoveOwnedStaging s | CSpawnCleanup s => str_eqb s staging | _ => false end.
Definition settled (staging : str) (t : trace) : bool :=
  existsb (λ e, committed e || cleans staging (ev_call e)) t.

(** What the program writes on the server: the calls that can change it. *)
Definition writes (c : call) : option str :=
  match c with
  | CUploadStaged _ s | CPreserveEditorMetadata s _ | CRemoveOwnedStaging s | CSpawnCleanup s => Some s
  | CCommitNew _ d | CCommitReplace _ d => Some d
  | CCreateDir p | CRemoveFile p | CRemoveDir p => Some p
  | CRenameNoclobber _ d => Some d
  | _ => None
  end.

Lemma commits_in_app t1 t2 : commits_in (t1 ++ t2) = commits_in t1 || commits_in t2.
Proof. apply existsb_app. Qed.
Lemma owns_in_app t1 t2 : owns_in (t1 ++ t2) = owns_in t1 || owns_in t2.
Proof. apply existsb_app. Qed.
Lemma settled_app s t1 t2 : settled s (t1 ++ t2) = settled s t1 || settled s t2.
Proof. apply existsb_app. Qed.

(** ** Rules for the building blocks *)

Section Rules.
Context {A : Type}.
Implicit Types (t : trace) (e : AppError).

Lemma wp_ask c t (Q : trace → reply c → Prop) : (∀ r, Q (t ++ [Ev c r]) r) → wp (ask c) t Q.
Proof. intros H r. apply H. Qed.

Lemma wp_ensure bad e t (Q : trace → Res unit → Prop) :
  (bad = true → Q t (Err e)) → (bad = false → Q t (Ok tt)) → wp (io_ensure bad e : prg _) t Q.
Proof. intros H1 H2. cbn. destruct bad; auto. Qed.

(** What cleaning up leaves on the trace. *)
Definition tidy (owned : bool) (staging : str) (ct : trace) : Prop :=
  commits_in ct = false ∧ owns_in ct = false ∧ (owned = true → settled staging ct = true).

Lemma str_eqb_refl s : str_eqb s s = true.
Proof. by apply str_eqb_eq. Qed.

Lemma wp_cleanup owned staging t (Q : trace → Res unit → Prop) :
  (∀ ct r, tidy owned staging ct → Q (t ++ ct) r) → wp (cleanup owned staging : prg _) t Q.
Proof.
  intros H. unfold cleanup. destruct owned; [|cbn; rewrite <-(app_nil_r t); by apply H].
  intros [x|e]; cbn; intros; rewrite <-?app_assoc; apply H; split_and!; try done; cbn; by rewrite str_eqb_refl.
Qed.

Lemma wp_fail_clean owned staging e t (Q : trace → Res A → Prop) :
  (∀ ct e', tidy owned staging ct → Q (t ++ ct) (Err e')) → wp (fail_clean owned staging e : prg _) t Q.
Proof.
  intros H. unfold fail_clean. rewrite wp_io_bind. apply wp_cleanup. intros ct [[]|e'] Ht; [by apply H|by apply H].
Qed.

Lemma wp_fail_drop owned staging e t (Q : trace → Res A → Prop) :
  (∀ ct, tidy owned staging ct → Q (t ++ ct) (Err e)) → wp (fail_drop owned staging e : prg _) t Q.
Proof.
  intros H. unfold fail_drop, drop_guard. destruct owned; cbn; [|rewrite <-(app_nil_r t); by apply H].
  intros []. apply H. split_and!; try done. cbn. by rewrite str_eqb_refl.
Qed.

Lemma wp_or_clean owned staging (m : iop A) t (Q : trace → Res A → Prop) :
  wp (m : prg _) t (λ t' r, match r with
    | Ok a => Q t' (Ok a)
    | Err e => ∀ ct e', tidy owned staging ct → Q (t' ++ ct) (Err e')
    end) → wp (or_clean owned staging m : prg _) t Q.
Proof.
  intros H. unfold or_clean. rewrite wp_bind. eapply wp_mono; [|done]. intros t' [a|e] H'; [done|].
  by apply wp_fail_clean.
Qed.

Lemma wp_ensure_clean owned staging bad e t (Q : trace → Res unit → Prop) :
  (bad = true → ∀ ct e', tidy owned staging ct → Q (t ++ ct) (Err e')) →
  (bad = false → Q t (Ok tt)) → wp (ensure_clean owned staging bad e : prg _) t Q.
Proof.
  intros H1 H2. unfold ensure_clean. destruct bad; [|by apply H2].
  unfold fail_clean. rewrite wp_io_bind. apply wp_cleanup. intros ct [[]|e'] Ht; by apply H1.
Qed.

Lemma wp_owned_failure owned staging c e t (Q : trace → Res A → Prop) :
  (∀ ct e', tidy owned staging ct → Q (t ++ ct) (Err e')) → wp (owned_failure owned staging c e : prg _) t Q.
Proof.
  intros H. unfold owned_failure. rewrite wp_io_bind. apply wp_cleanup. intros ct [[]|e'] Ht; [|by apply H].
  intros b. rewrite <-app_assoc.
  assert (tidy owned staging (ct ++ [Ev CIsCancelled b])) as Ht'.
  { destruct Ht as (H1 & H2 & H3). split_and!.
    - by rewrite commits_in_app, H1.
    - by rewrite owns_in_app, H2.
    - intros Ho. by rewrite settled_app, H3. }
  cbn in b |- *. destruct (b && _)%bool; by apply H.
Qed.

Lemma wp_finish_commit owned staging m r t (Q : trace → Res unit → Prop) :
  (r = Ok tt → Q t (Ok tt)) →
  (∀ e, r = Err e → ∀ ct e', tidy owned staging ct → Q (t ++ ct) (Err e')) →
  wp (finish_commit owned staging m r : prg _) t Q.
Proof.
  intros H1 H2. unfold finish_commit. destruct r as [[]|e]; [by apply H1|].
  rewrite wp_bind. apply wp_cleanup. intros ct [[]|e'] Ht; cbn; [by eapply H2|].
  case_match; by eapply H2.
Qed.

(** Only a sub-program's own trace matters to what follows it. *)
Lemma wp_frame {B} (p : prg B) t (Q : trace → B → Prop) :
  (∀ t' b, runs p t' b → Q (t ++ t') b) → wp p t Q.
Proof. intros H. eapply wp_mono; [|apply wp_all]. intros t' b (t1 & H1 & ->). by apply H. Qed.
End Rules.

Section Save.
Context (digest : list Z → Digest) (simple : TransferJobId → str) (id : TransferJobId).
Context (destination : str) (bytes : list Z) (expected : EditorRevision) (original : Digest).

(** The calls that lead to replacing the file, with the replies they need. *)
Definition save_prefix (staging : str) (owned : bool) (b1 b2 b3 : list Z) : trace :=
  [Ev (CEditorRevision destination) (Ok expected); Ev (CReadEditorBytes destination) (Ok b1);
   Ev (CSetState Transferring) tt; Ev (CUploadStaged (FromBytes bytes) staging) (owned, Ok (zlen bytes));
   Ev (CPreserveEditorMetadata staging expected) (Ok tt);
   Ev (CEditorRevision destination) (Ok expected); Ev (CReadEditorBytes destination) (Ok b2);
   Ev (CEditorRevision destination) (Ok expected); Ev (CReadEditorBytes destination) (Ok b3);
   Ev CEnterFinalizing (Ok tt)].

Abbreviation edit_staging := (staging_path simple id destination (lit ".edit.part")).

Definition save_spec (t : trace) (r : Res unit) : Prop :=
  (commits_in t = true →
     ∃ staging owned b1 b2 b3 c tail,
       edit_staging = Ok staging ∧
       t = save_prefix staging owned b1 b2 b3 ++ Ev (CCommitReplace staging destination) c :: tail ∧
       digest b1 = original ∧ digest b2 = original ∧ digest b3 = original ∧ (r = Ok tt ↔ c = Ok tt)) ∧
  (r = Ok tt → commits_in t = true) ∧
  (owns_in t = true → ∃ staging, edit_staging = Ok staging ∧ settled staging t = true).

Lemma save_spec_fail t e : commits_in t = false →
  (owns_in t = true → ∃ staging, edit_staging = Ok staging ∧ settled staging t = true) → save_spec t (Err e).
Proof. intros H1 H2. split_and!; [congruence|done|done]. Qed.

(** A failure after the staging file was created. *)
Lemma save_spec_clean t owned staging ct e :
  edit_staging = Ok staging → commits_in t = false → owns_in t = owned → tidy owned staging ct →
  save_spec (t ++ ct) (Err e).
Proof.
  intros Hs Hc Ho (H1 & H2 & H3). apply save_spec_fail; [by rewrite commits_in_app, Hc|].
  rewrite owns_in_app, H2, orb_false_r, Ho. intros Hown. exists staging. split; [done|].
  by rewrite settled_app, H3, orb_true_r.
Qed.

Ltac save_clean := intros ct ? Htidy; cbv beta iota; eapply save_spec_clean; [done|reflexivity|cbn; by rewrite ?orb_false_r|exact Htidy].
Ltac same H := apply bool_decide_eq_false, dec_stable in H; subst.

Lemma wp_save : wp (run_editor_save digest simple id destination bytes expected original : prg _) [] save_spec.
Proof.
  unfold run_editor_save.
  rewrite wp_io_bind. apply (wp_ask (CEditorRevision destination)). intros [rev|e]; [|by apply save_spec_fail].
  rewrite wp_io_bind. apply wp_ensure; [by intros _; apply save_spec_fail|]. intros E1. same E1.
  rewrite wp_io_bind. apply (wp_ask (CReadEditorBytes destination)). intros [b1|e]; [|by apply save_spec_fail].
  rewrite wp_io_bind. apply wp_ensure; [by intros _; apply save_spec_fail|]. intros E1. apply bool_decide_eq_false, dec_stable in E1.
  rewrite wp_io_bind. cbn [wp io_lift]. destruct edit_staging as [staging|e] eqn:Es; [|by apply save_spec_fail].
  rewrite wp_bind. apply wp_ask. intros [].
  rewrite wp_bind. apply wp_ask. intros [owned up].
  rewrite wp_io_bind. cbn [fst snd].
  destruct up as [streamed|[e|e|e]].
  2: { apply wp_fail_drop. intros ct Htidy. eapply save_spec_clean; [done|reflexivity|cbn; by rewrite ?orb_false_r|exact Htidy]. }
  3: { apply wp_fail_drop. intros ct Htidy. eapply save_spec_clean; [done|reflexivity|cbn; by rewrite ?orb_false_r|exact Htidy]. }
  2: { apply wp_owned_failure. save_clean. }
  cbn [wp mret io_ret].
  rewrite wp_io_bind. apply wp_ensure_clean; [intros _; save_clean|]. intros E2. same E2.
  rewrite wp_io_bind. apply wp_or_clean. apply (wp_ask (CPreserveEditorMetadata staging expected)). intros [[]|e]; [|save_clean].
  rewrite wp_io_bind. apply wp_or_clean. apply (wp_ask (CEditorRevision destination)). intros [rev|e]; [|save_clean].
  rewrite wp_io_bind. apply wp_ensure_clean; [intros _; save_clean|]. intros E2. same E2.
  rewrite wp_io_bind. apply wp_or_clean. apply (wp_ask (CReadEditorBytes destination)). intros [b2|e]; [|save_clean].
  rewrite wp_io_bind. apply wp_ensure_clean; [intros _; save_clean|]. intros E2. apply bool_decide_eq_false, dec_stable in E2.
  rewrite wp_io_bind. apply wp_or_clean. apply (wp_ask (CEditorRevision destination)). intros [rev|e]; [|save_clean].
  rewrite wp_io_bind. apply wp_ensure_clean; [intros _; save_clean|]. intros E3. same E3.
  rewrite wp_io_bind. apply wp_or_clean. apply (wp_ask (CReadEditorBytes destination)). intros [b3|e]; [|save_clean].
  rewrite wp_io_bind. apply wp_ensure_clean; [intros _; save_clean|]. intros E3. apply bool_decide_eq_false, dec_stable in E3.
  rewrite wp_io_bind. apply wp_or_clean. apply (wp_ask CEnterFinalizing). intros [[]|e]; [|save_clean].
  rewrite wp_bind. apply wp_ask. intros c. apply wp_finish_commit.
  - intros ->. cbn. split_and!; [|done|].
    + intros _. by exists staging, owned, b1, b2, b3, (Ok tt), [].
    + intros _. by exists staging.
  - intros e -> ct e' (H1 & H2 & H3). split_and!; [|done|].
    + intros _. by exists staging, owned, b1, b2, b3, (Err e), ct.
    + intros Ho. exists staging. split; [done|]. rewrite settled_app, H3; [apply orb_true_r|].
      rewrite owns_in_app, H2, orb_false_r in Ho. cbn in Ho. by rewrite orb_false_r in Ho.
Qed.
End Save.

(** ** Uploads *)

(** Looking around commits nothing and creates nothing. *)
Lemma looks_quiet t : Forall (λ e, looks (ev_call e) = true) t → commits_in t = false ∧ owns_in t = false.
Proof.
  induction 1 as [|e t He Ht [IH1 IH2]]; [done|]. cbn. destruct e as [c r]. cbn in *.
  unfold commits_in, owns_in in IH1, IH2. rewrite IH1, IH2. by destruct c.
Qed.

Lemma source_quiet item t r : runs (validate_local_source item : prg _) t r → commits_in t = false ∧ owns_in t = false.
Proof. intros H. eapply looks_quiet, only_runs; [apply validate_local_source_looks|done]. Qed.
Lemma directory_quiet d t r :
  runs (validate_local_directory_handle d : prg _) t r → commits_in t = false ∧ owns_in t = false.
Proof. intros H. eapply looks_quiet, only_runs; [apply validate_local_directory_handle_looks|done]. Qed.
Lemma local_identity_quiet p t r : runs (local_identity p : prg _) t r → commits_in t = false ∧ owns_in t = false.
Proof. intros H. eapply looks_quiet, only_runs; [apply local_identity_looks|done]. Qed.

Section Upload.
Context (simple : TransferJobId → str) (id : TransferJobId).
Context (source : LocalItem) (destination : str) (action : DestinationAction EntryIdentity).

Abbreviation up_staging := (staging_path simple id destination (lit ".part")).

(** From the selected file to the point of no return. *)
Definition upload_prefix (v1 v2 : trace) (file : Handle) (staging : str) (owned : bool)
    (current : option EntryIdentity) : trace :=
  v1 ++ [Ev (CTryClone (lit_handle source)) (Some file); Ev (CSeekStart file) true; Ev (CSetState Transferring) tt;
         Ev (CUploadStaged (FromHandle file) staging) (owned, Ok (lit_size source))] ++
  v2 ++ [Ev CIsCancelled false; Ev CEnterFinalizing (Ok tt); Ev (CIdentity destination) (Ok current)].

(** The commit the approved action asks for. *)
Definition commit_event (staging : str) (c : Res unit) : option (event reply) :=
  match action with
  | ACreateNew => Some (Ev (CCommitNew staging destination) c)
  | AReplaceExisting _ => Some (Ev (CCommitReplace staging destination) c)
  | ASkip => None
  end.

Definition upload_spec (t : trace) (r : Res unit) : Prop :=
  (commits_in t = true →
     ∃ v1 v2 file staging owned current c e tail,
       up_staging = Ok staging ∧ commit_event staging c = Some e ∧
       t = upload_prefix v1 v2 file staging owned current ++ e :: tail ∧
       runs (validate_local_source source : prg _) v1 (Ok tt) ∧
       runs (validate_local_source source : prg _) v2 (Ok tt) ∧
       destination_matches action current = true ∧ (r = Ok tt ↔ c = Ok tt)) ∧
  (r = Ok tt → action = ASkip ∨ commits_in t = true) ∧
  (owns_in t = true → action = ASkip ∨ ∃ staging, up_staging = Ok staging ∧ settled staging t = true).

Lemma upload_spec_fail t e : commits_in t = false → owns_in t = false → upload_spec t (Err e).
Proof. intros H1 H2. split_and!; [congruence|done|congruence]. Qed.

Lemma upload_spec_clean t owned staging ct e :
  up_staging = Ok staging → commits_in t = false → owns_in t = owned → tidy owned staging ct →
  upload_spec (t ++ ct) (Err e).
Proof.
  intros Hs Hc Ho (H1 & H2 & H3). split_and!; [|done|].
  - rewrite commits_in_app, Hc, H1. discriminate.
  - rewrite owns_in_app, H2, orb_false_r, Ho. intros Hown. right. exists staging. split; [done|].
    by rewrite settled_app, H3, orb_true_r.
Qed.

(** Compute the flags of a trace made of known events and quiet pieces. *)
Ltac flags :=
  rewrite ?commits_in_app, ?owns_in_app;
  repeat match goal with H : _ = false ∧ _ = false |- _ => destruct H as [?Hq ?Hq] end;
  repeat match goal with H : commits_in ?x = false |- context [commits_in ?x] => rewrite H end;
  repeat match goal with H : owns_in ?x = false |- context [owns_in ?x] => rewrite H end;
  cbn; rewrite ?orb_false_r; done.
Ltac up_fail := intros; apply upload_spec_fail; flags.
Ltac up_clean := intros ct ? Htidy; cbv beta iota; eapply upload_spec_clean; [done|flags|flags|exact Htidy].

Lemma wp_upload : wp (run_upload simple id source destination action : prg _) [] upload_spec.
Proof.
  unfold run_upload.
  rewrite wp_io_bind. apply wp_frame. intros v1 [[]|e] Hv1; pose proof (source_quiet _ _ _ Hv1) as Hq1; [|up_fail].
  rewrite wp_io_bind. intros [file|]; [|up_fail]. cbn [pbind wp ok_or].
  rewrite wp_io_bind. intros []; [|up_fail]. cbn [pbind wp ensure negb].
  rewrite wp_io_bind. cbn [wp io_lift]. destruct up_staging as [staging|e] eqn:Es; [|up_fail].
  rewrite wp_bind. apply wp_ask. intros [].
  rewrite wp_bind. apply wp_ask. intros [owned up].
  rewrite wp_io_bind. cbn [fst snd].
  destruct up as [streamed|[e|e|e]].
  2: { apply wp_fail_drop. intros ct Htidy. eapply upload_spec_clean; [done|flags|flags|exact Htidy]. }
  3: { apply wp_fail_drop. intros ct Htidy. eapply upload_spec_clean; [done|flags|flags|exact Htidy]. }
  2: { apply wp_owned_failure. up_clean. }
  cbn [wp mret io_ret].
  rewrite wp_io_bind. apply wp_ensure_clean; [intros _; up_clean|]. intros E1. apply bool_decide_eq_false, dec_stable in E1. subst streamed.
  rewrite wp_io_bind. apply wp_or_clean. apply wp_frame. intros v2 [[]|e] Hv2; pose proof (source_quiet _ _ _ Hv2) as Hq2; [|up_clean].
  rewrite wp_bind. apply wp_ask. intros c.
  rewrite wp_io_bind. apply wp_ensure_clean; [intros _; up_clean|]. intros ->.
  rewrite wp_io_bind. apply wp_or_clean. apply (wp_ask CEnterFinalizing). intros [[]|e]; [|up_clean].
  rewrite wp_io_bind. apply wp_or_clean. apply (wp_ask (CIdentity destination)). intros [current|e]; [|up_clean].
  rewrite wp_io_bind. apply wp_ensure_clean; [intros _; up_clean|]. intros Hm%negb_false_iff.
  match goal with |- wp _ ?T _ =>
    assert (T = upload_prefix v1 v2 file staging owned current) as ->
      by (unfold upload_prefix; cbn [app]; by rewrite <-?app_assoc) end.
  assert (commits_in (upload_prefix v1 v2 file staging owned current) = false) as Hpc by (unfold upload_prefix; flags).
  assert (owns_in (upload_prefix v1 v2 file staging owned current) = owned) as Hpo by (unfold upload_prefix; flags).
  assert (∀ c e, commit_event staging c = Some e → wp (finish_commit owned staging
    "The final mutation and owned staging cleanup could not be confirmed; refresh before taking another action." c : prg _)
    (upload_prefix v1 v2 file staging owned current ++ [e]) upload_spec) as Hend.
  { intros c e He. assert (commits (ev_call e) = true ∧ committed e = is_ok c) as [He1 He2].
    { unfold commit_event in He. destruct action; by simplify_eq. }
    apply wp_finish_commit.
    - intros ->. split_and!.
      + intros _. exists v1, v2, file, staging, owned, current, (Ok tt), e, []. done.
      + intros _. right. rewrite commits_in_app. cbn. by rewrite He1, orb_true_r.
      + intros _. right. exists staging. split; [done|]. rewrite settled_app. cbn. by rewrite He2, orb_true_r.
    - intros e0 -> ct e' (H1 & H2 & H3). rewrite <-app_assoc. split_and!; [|done|].
      + intros _. exists v1, v2, file, staging, owned, current, (Err e0), e, ct. done.
      + rewrite !owns_in_app, Hpo, H2. intros Ho. right. exists staging. split; [done|].
        assert (owned = true) as Hown.
        { destruct owned; [done|]. unfold commit_event in He. destruct action; simplify_eq; discriminate. }
        by rewrite !settled_app, H3, !orb_true_r. }
  destruct action eqn:Ea; rewrite wp_bind.
  - cbn. split_and!; [congruence|auto|auto].
  - apply wp_ask. intros c. apply Hend. unfold commit_event. by rewrite Ea.
  - apply wp_ask. intros c. apply Hend. unfold commit_event. by rewrite Ea.
Qed.
End Upload.

(** ** Downloads *)

Section Download.
Context (source : RemoteSource) (directory : LocalDirectory) (file_name : str) (action : DestinationAction LocalIdentity).

Definition download_prefix (v1 v2 li : trace) (bytes : Z) : trace :=
  [Ev (CIdentity (rs_path source)) (Ok (Some (rs_identity source)))] ++ v1 ++
  [Ev (CTempfileIn (ld_path directory)) true; Ev (CSetState Transferring) tt; Ev (CDownload (rs_path source)) (Ok bytes);
   Ev (CIdentity (rs_path source)) (Ok (Some (rs_identity source))); Ev CSyncAll true; Ev CIsCancelled false;
   Ev CEnterFinalizing (Ok tt)] ++ v2 ++ li.

Definition persist_event (done_ : bool) : option (event reply) :=
  match action with
  | ACreateNew => Some (Ev (CPersistNoclobber (path_join (ld_path directory) file_name)) done_)
  | AReplaceExisting _ => Some (Ev (CPersist (path_join (ld_path directory) file_name)) done_)
  | ASkip => None
  end.

Definition download_spec (t : trace) (r : Res unit) : Prop :=
  (commits_in t = true →
     ∃ v1 v2 li bytes current ok_ e,
       persist_event ok_ = Some e ∧ t = download_prefix v1 v2 li bytes ++ [e] ∧
       runs (validate_local_directory_handle directory : prg _) v1 (Ok tt) ∧
       runs (validate_local_directory_handle directory : prg _) v2 (Ok tt) ∧
       runs (local_identity (path_join (ld_path directory) file_name) : prg _) li (Ok current) ∧
       destination_matches action current = true ∧
       (∀ size, rs_size source = Some size → size = bytes) ∧ (r = Ok tt ↔ ok_ = true)) ∧
  (r = Ok tt → action = ASkip ∨ commits_in t = true).

Lemma download_spec_fail t e : commits_in t = false → download_spec t (Err e).
Proof. intros H. split; [congruence|done]. Qed.

Ltac down_fail :=
  intros; apply download_spec_fail; rewrite ?commits_in_app;
  repeat match goal with H : _ = false ∧ _ = false |- _ => destruct H as [?Hq ?Hq] end;
  repeat match goal with H : commits_in ?x = false |- context [commits_in ?x] => rewrite H end;
  done.

Lemma wp_download : wp (run_download source directory file_name action : prg _) [] download_spec.
Proof.
  unfold run_download.
  rewrite wp_io_bind. apply (wp_ask (CIdentity (rs_path source))). intros [before|e]; [|down_fail].
  rewrite wp_io_bind. apply wp_ensure; [down_fail|]. intros E1%bool_decide_eq_false%dec_stable. subst before.
  rewrite wp_io_bind. apply wp_frame. intros v1 [[]|e] Hv1; pose proof (directory_quiet _ _ _ Hv1) as Hq1; [|down_fail].
  cbn zeta. rewrite wp_io_bind. intros []; [|down_fail]. cbn [pbind wp ensure negb].
  rewrite wp_bind. apply wp_ask. intros [].
  rewrite wp_bind. apply wp_ask. intros [bytes|e].
  2: { rewrite wp_io_bind. intros c. change (reply CIsCancelled) with bool in c. cbn [pbind]. destruct (c && _)%bool; down_fail. }
  rewrite wp_io_bind. cbn [wp mret io_ret].
  rewrite wp_io_bind. apply wp_ensure; [down_fail|]. intros E2.
  rewrite wp_io_bind. apply (wp_ask (CIdentity (rs_path source))). intros [after|e]; [|down_fail].
  rewrite wp_io_bind. apply wp_ensure; [down_fail|]. intros E3%bool_decide_eq_false%dec_stable. subst after.
  rewrite wp_io_bind. intros []; [|down_fail]. cbn [pbind wp ensure negb].
  rewrite wp_bind. apply wp_ask. intros c.
  rewrite wp_io_bind. apply wp_ensure; [down_fail|]. intros ->.
  rewrite wp_io_bind. apply (wp_ask CEnterFinalizing). intros [[]|e]; [|down_fail].
  rewrite wp_io_bind. apply wp_frame. intros v2 [[]|e] Hv2; pose proof (directory_quiet _ _ _ Hv2) as Hq2; [|down_fail].
  rewrite wp_io_bind. apply wp_frame. intros li [current|e] Hli; pose proof (local_identity_quiet _ _ _ Hli) as Hq3; [|down_fail].
  rewrite wp_io_bind. apply wp_ensure; [down_fail|]. intros Hm%negb_false_iff.
  match goal with |- wp _ ?T _ =>
    assert (T = download_prefix v1 v2 li bytes) as ->
      by (unfold download_prefix; cbn [app]; by rewrite <-?app_assoc) end.
  assert (∀ size, rs_size source = Some size → size = bytes) as Hsize.
  { intros size Hs. rewrite Hs in E2. by apply bool_decide_eq_false, dec_stable in E2. }
  assert (commits_in (download_prefix v1 v2 li bytes) = false) as Hpc.
  { destruct Hq1 as [Hc1 _], Hq2 as [Hc2 _], Hq3 as [Hc3 _]. unfold download_prefix. rewrite !commits_in_app, Hc1, Hc2, Hc3. done. }
  assert (∀ ok_ e r, persist_event ok_ = Some e → (r = Ok tt ↔ ok_ = true) →
    download_spec (download_prefix v1 v2 li bytes ++ [e]) r) as Hend.
  { intros ok_ e r He Hr. assert (commits (ev_call e) = true) as He1.
    { unfold persist_event in He. destruct action; by simplify_eq. }
    split; [intros _; by exists v1, v2, li, bytes, current, ok_, e|].
    intros _. right. rewrite commits_in_app. cbn. by rewrite He1, orb_true_r. }
  destruct action eqn:Ea.
  - cbn [wp mret io_ret]. split; [rewrite Hpc; discriminate|auto].
  - intros []; cbn; eapply Hend; [unfold persist_event; by rewrite Ea|done|unfold persist_event; by rewrite Ea|done].
  - intros []; cbn; eapply Hend; [unfold persist_event; by rewrite Ea|done|unfold persist_event; by rewrite Ea|done].
Qed.
End Download.

(** A download never creates anything on the server. *)
Definition remote_quiet (c : call) : bool := match c with CUploadStaged _ _ => false | _ => true end.

Lemma looks_remote_quiet {A} (p : prg A) : only looks p → only remote_quiet p.
Proof. induction p as [a|c k IH]; cbn; [done|]. intros [Hc Hk]. split; [by destruct c|auto]. Qed.

Lemma run_download_quiet source dir name action : only remote_quiet (run_download source dir name action : prg _).
Proof.
  unfold run_download.
  repeat first
  [ done
  | apply looks_remote_quiet, validate_local_directory_handle_looks
  | apply looks_remote_quiet, local_identity_looks
  | apply only_io_bind; [|intros ?]
  | apply only_bind; [|intros ?]
  | split; [reflexivity|intros ?]
  | progress cbn zeta
  | case_match ].
Qed.

Lemma quiet_owns t : Forall (λ e, remote_quiet (ev_call e) = true) t → owns_in t = false.
Proof. induction 1 as [|[c r] t He Ht IH]; [done|]. cbn. unfold owns_in in IH. rewrite IH. by destruct c. Qed.

(** ** The properties *)

(** A remote file that is being edited is replaced only if, three times
    over, it still has the revision and the content it was opened with: before
    staging, after staging and immediately before the job was allowed to
    finalize; only the staged bytes of exactly the reviewed length are moved
    into place, and the save reports success exactly when the server
    confirmed the replacement. *)
Theorem editor_save_guarded digest simple id destination bytes expected original t r :
  runs (run_editor_save digest simple id destination bytes expected original : prg _) t r →
  (commits_in t = true →
     ∃ staging owned b1 b2 b3 c tail,
       staging_path simple id destination (lit ".edit.part") = Ok staging ∧
       t = save_prefix destination bytes expected staging owned b1 b2 b3
             ++ Ev (CCommitReplace staging destination) c :: tail ∧
       digest b1 = original ∧ digest b2 = original ∧ digest b3 = original ∧ (r = Ok tt ↔ c = Ok tt)) ∧
  (r = Ok tt → commits_in t = true).
Proof.
  intros H. pose proof (wp_runs _ [] t r _ (wp_save digest simple id destination bytes expected original) H) as (H1 & H2 & _).
  by split.
Qed.

(** [C5] An upload puts a file in place only when the selected local file was
    still the approved one before and after streaming, exactly its approved
    size was streamed, the job was allowed to finalize, and the destination
    is what was approved: absent for a new file, the very entry reviewed for
    a replacement.  It reports success exactly when the server confirmed. *)
Theorem upload_guarded simple id source destination action t r :
  runs (run_upload simple id source destination action : prg _) t r →
  (commits_in t = true →
     ∃ v1 v2 file staging owned current c e tail,
       staging_path simple id destination (lit ".part") = Ok staging ∧
       commit_event destination action staging c = Some e ∧
       t = upload_prefix source destination v1 v2 file staging owned current ++ e :: tail ∧
       runs (validate_local_source source : prg _) v1 (Ok tt) ∧
       runs (validate_local_source source : prg _) v2 (Ok tt) ∧
       destination_matches action current = true ∧ (r = Ok tt ↔ c = Ok tt)) ∧
  (r = Ok tt → action = ASkip ∨ commits_in t = true).
Proof.
  intros H. pose proof (wp_runs _ [] t r _ (wp_upload simple id source destination action) H) as (H1 & H2 & _).
  by split.
Qed.

(** No upload and no editor save leaves an owned staging file behind
    unnoticed: if the server confirmed creating it, then in every run the
    commit was confirmed or the removal of that very file was requested,
    directly or through the cleanup task. *)
Theorem staging_is_settled digest simple id spec t r :
  skips (js_destination spec) = false →
  runs (run_transfer digest simple id spec : prg _) t r → owns_in t = true →
  ∃ destination suffix staging, staging_path simple id destination suffix = Ok staging ∧ settled staging t = true.
Proof.
  unfold run_transfer. intros Hs. rewrite Hs. destruct (js_source spec) as [item|src|bytes exp dig],
    (js_destination spec) as [path action|dir name action]; intros Hr Ho.
  - destruct (wp_runs _ [] t r _ (wp_upload simple id item path action) Hr) as (_ & _ & H).
    destruct (H Ho) as [->|(staging & H1 & H2)]; [discriminate Hs|]. by exists path, (lit ".part"), staging.
  - by apply runs_ret_inv in Hr as [-> _].
  - by apply runs_ret_inv in Hr as [-> _].
  - pose proof (quiet_owns _ (only_runs _ _ _ _ (run_download_quiet src dir name action) Hr)). congruence.
  - destruct (wp_runs _ [] t r _ (wp_save digest simple id path bytes exp dig) Hr) as (_ & _ & H).
    destruct (H Ho) as (staging & H1 & H2). by exists path, (lit ".edit.part"), staging.
  - by apply runs_ret_inv in Hr as [-> _].
Qed.

(** A download becomes the local file only when the remote source had
    the approved identity before and after streaming, the streamed length is
    the approved size, the local folder is still the selected one before and
    after, the job was allowed to finalize, and the local destination is what
    was approved; success is reported exactly when the move succeeded. *)
Theorem download_guarded source directory file_name action t r :
  runs (run_download source directory file_name action : prg _) t r →
  (commits_in t = true →
     ∃ v1 v2 li bytes current ok_ e,
       persist_event directory file_name action ok_ = Some e ∧
       t = download_prefix source directory v1 v2 li bytes ++ [e] ∧
       runs (validate_local_directory_handle directory : prg _) v1 (Ok tt) ∧
       runs (validate_local_directory_handle directory : prg _) v2 (Ok tt) ∧
       runs (local_identity (path_join (ld_path directory) file_name) : prg _) li (Ok current) ∧
       destination_matches action current = true ∧
       (∀ size, rs_size source = Some size → size = bytes) ∧ (r = Ok tt ↔ ok_ = true)) ∧
  (r = Ok tt → action = ASkip ∨ commits_in t = true).
Proof.
  intros H. exact (wp_runs _ [] t r _ (wp_download source directory file_name action) H).
Qed.

(** ** Mutations *)

Definition mutates (c : call) : bool :=
  match c with CCreateDir _ | CRenameNoclobber _ _ | CRemoveFile _ | CRemoveDir _ => true | _ => false end.

(** What must have been seen before a mutation, and the mutation itself. *)
Definition mutation_events (spec : MutationSpec) (c : Res unit) : option trace :=
  match spec with
  | MCreateDirectory p => Some [Ev (CCreateDir p) c]
  | MRename s d e => Some [Ev (CIdentity s) (Ok (Some e)); Ev (CRenameNoclobber s d) c]
  | MDelete p (KFile | KSymlink) e => Some [Ev (CIdentity p) (Ok (Some e)); Ev (CRemoveFile p) c]
  | MDelete p KDirectory e => Some [Ev (CIdentity p) (Ok (Some e)); Ev (CRemoveDir p) c]
  | MDelete _ _ _ => None
  end.

(** A rename or a deletion is sent only right after the server reported
    the very entry that was reviewed, deletions use the call for the reviewed
    kind and special files are never deleted; the result is the server's. *)
Theorem mutation_guarded spec t r :
  runs (execute_mutation spec : prg _) t r →
  existsb (λ e, mutates (ev_call e)) t = true ∨ r = Ok tt →
  mutation_events spec r = Some t.
Proof.
  intros Hr. pose (Q := λ (t : trace) (r : Res unit),
    existsb (λ e, mutates (ev_call e)) t = true ∨ r = Ok tt → mutation_events spec r = Some t).
  apply (wp_runs (execute_mutation spec : prg _) [] t r Q); [|done]. clear t r Hr.
  assert (∀ t e, existsb (λ e, mutates (ev_call e)) t = false → Q t (Err e)) as Hfail.
  { intros t e Ht [?|?]; [congruence|discriminate]. }
  destruct spec as [p|s d e|p k e]; unfold execute_mutation.
  - intros c _. done.
  - rewrite wp_io_bind. apply (wp_ask (CIdentity s)). intros [x|e']; [|by apply Hfail].
    rewrite wp_io_bind. apply wp_ensure; [by intros _; apply Hfail|]. intros E%bool_decide_eq_false%dec_stable.
    subst x. intros c _. done.
  - rewrite wp_io_bind. apply (wp_ask (CIdentity p)). intros [x|e']; [|by apply Hfail].
    rewrite wp_io_bind. apply wp_ensure; [by intros _; apply Hfail|]. intros E%bool_decide_eq_false%dec_stable.
    subst x. destruct k; try (by apply Hfail); intros c _; done.
Qed.

(** ** Concrete runs *)

Definition sx_identity : EntryIdentity := {| ei_kind := KFile; ei_size := Some 4; ei_modified := None |}.
Definition sx_revision : EditorRevision := {| er_identity := sx_identity; raw_mode := 33188; er_uid := 0; er_gid := 0 |}.
Definition sx_source : LocalItem :=
  {| lit_path := [RootDir (lit "C:"); Normal (lit "f.txt")]; lit_display_name := lit "f.txt"; lit_size := 4;
     lit_identity := sample_identity; lit_handle := 1%N |}.
Definition sx_directory : LocalDirectory :=
  {| ld_path := [RootDir (lit "C:")]; ld_display_name := lit "C:\"; ld_identity := sample_identity; ld_handle := 1%N |}.
Definition sx_answer (found : option EntryIdentity) : ∀ c, reply c :=
  sample_answer (λ _, found) (λ p, if bool_decide (p = [RootDir (lit "C:"); Normal (lit "f.txt")]) then Some false
                                   else if bool_decide (p = [RootDir (lit "C:")]) then Some true else None)
    sx_revision (lit "old").
Definition sx_simple (n : TransferJobId) : str := lit "0123".

Definition sx_save : iop unit :=
  run_editor_save (λ b, b) sx_simple 3%N (lit "/etc/motd") (lit "new") sx_revision (lit "old").
Lemma editor_save_guarded_witness :
  (interp (sx_answer None) (sx_save : prg _)).2 = Ok tt ∧ commits_in (interp (sx_answer None) (sx_save : prg _)).1 = true.
Proof.
  assert ((interp (sx_answer None) (sx_save : prg _)).2 = Ok tt) as E by (vm_compute; reflexivity).
  split; [exact E|].
  apply (editor_save_guarded (λ b, b) sx_simple 3%N (lit "/etc/motd") (lit "new") sx_revision (lit "old") _ (Ok tt));
    [|reflexivity]. apply (interp_runs_eq (sx_answer None)), E.
Defined.

Definition sx_upload : iop unit := run_upload sx_simple 3%N sx_source (lit "/up/f.txt") ACreateNew.
Lemma upload_guarded_witness :
  (interp (sx_answer None) (sx_upload : prg _)).2 = Ok tt ∧
  (@ACreateNew EntryIdentity = ASkip ∨ commits_in (interp (sx_answer None) (sx_upload : prg _)).1 = true).
Proof.
  assert ((interp (sx_answer None) (sx_upload : prg _)).2 = Ok tt) as E by (vm_compute; reflexivity).
  split; [exact E|].
  apply (upload_guarded sx_simple 3%N sx_source (lit "/up/f.txt") ACreateNew _ (Ok tt)); [|reflexivity].
  apply (interp_runs_eq (sx_answer None)), E.
Defined.

Definition sx_spec : JobSpec :=
  {| js_client := sample_info 1%N 1%N 1%N [];
     js_direction := DUpload; js_source := SLocal sx_source; js_destination := DRemote (lit "/up/f.txt") ACreateNew |}.
(** The destination appeared meanwhile, so the staged file is removed again. *)
Definition sx_conflict : list (event reply) * Res unit :=
  interp (sx_answer (Some sx_identity)) (run_transfer (λ b, b) sx_simple 3%N sx_spec : prg _).
Lemma staging_is_settled_witness :
  sx_conflict.2 = Err (app_error Conflict "The remote destination changed after approval.") ∧
  ∃ destination suffix staging, staging_path sx_simple 3%N destination suffix = Ok staging ∧ settled staging sx_conflict.1 = true.
Proof.
  assert (sx_conflict.2 = Err (app_error Conflict "The remote destination changed after approval.")) as E by (vm_compute; reflexivity).
  split; [exact E|].
  apply (staging_is_settled (λ b, b) sx_simple 3%N sx_spec _ sx_conflict.2); [reflexivity| |vm_compute; reflexivity].
  apply (interp_runs (sx_answer (Some sx_identity))).
Defined.

Definition sx_remote : RemoteSource :=
  {| rs_path := lit "/up/g.txt"; rs_name := lit "g.txt"; rs_size := Some 4; rs_identity := sx_identity |}.
Definition sx_download : iop unit := run_download sx_remote sx_directory (lit "g.txt") ACreateNew.
Lemma download_guarded_witness :
  (interp (sx_answer (Some sx_identity)) (sx_download : prg _)).2 = Ok tt ∧
  (@ACreateNew LocalIdentity = ASkip ∨ commits_in (interp (sx_answer (Some sx_identity)) (sx_download : prg _)).1 = true).
Proof.
  assert ((interp (sx_answer (Some sx_identity)) (sx_download : prg _)).2 = Ok tt) as E by (vm_compute; reflexivity).
  split; [exact E|].
  apply (download_guarded sx_remote sx_directory (lit "g.txt") ACreateNew _ (Ok tt)); [|reflexivity].
  apply (interp_runs_eq (sx_answer (Some sx_identity))), E.
Defined.

Definition sx_delete : MutationSpec := MDelete (lit "/up/g.txt") KFile sx_identity.
Lemma mutation_guarded_witness :
  mutation_events sx_delete (Ok tt) = Some (interp (sx_answer (Some sx_identity)) (execute_mutation sx_delete : prg _)).1.
Proof.
  apply (mutation_guarded sx_delete); [|right; reflexivity].
  apply (interp_runs_eq (sx_answer (Some sx_identity))). vm_compute. reflexivity.
Defined.
