(* ===== verification/Transfer.v ===== *)
(** The transfer manager's table ([TransferManager] and the helpers on
    [ManagerState] of [nexus-sftp/src/transfer.rs]).

    One mutex guards the table; each helper is a function of the table it
    finds.  A cancellation token is shared by the table and the job's task;
    the set [cancelled] holds the jobs whose token was cancelled.  Fresh job
    identifiers are arguments. *)

From S2P Require Import Prelude Str Model RemotePath Editor Ip Files Prog Calls FilePlans LocalFs TransferRun.

Definition GLOBAL_ACTIVE : Z := 4.
Definition HOST_ACTIVE : Z := 2.
Definition JOB_CAP : Z := 100.
Definition HISTORY_CAP : Z := 100.

Record TransferJob := {
  tj_id : TransferJobId;
  tj_host_id : HostId;
  tj_host_session_id : HostSessionId;
  tj_sftp_session_id : SftpSessionId;
  tj_direction : TransferDirection;
  tj_source_display : str;
  tj_destination_display : str;
  tj_state : TransferState;
  tj_confirmed_bytes : str;
  tj_total_bytes : option str;
  tj_error : option AppError;
  tj_retryable : bool
}.

Record JobRecord := {
  jr_view : TransferJob;
  active_spec : option JobSpec;
  cleanup_unconfirmed : bool
}.

Record ManagerState := {
  jobs : gmap TransferJobId JobRecord;
  order : list TransferJobId;
  disconnecting : gset (HostId * HostSessionId);
  cleanup_tasks : gset TransferJobId;
  shutting_down : bool;
  cancelled : gset TransferJobId;
  poisoned : bool
}.

(** [TransferManager::new] *)
Definition manager_new : ManagerState :=
  {| jobs := ∅; order := []; disconnecting := ∅; cleanup_tasks := ∅; shutting_down := false;
     cancelled := ∅; poisoned := false |}.

Definition terminal (s : TransferState) : bool :=
  match s with Completed | TFailed | TCancelled | TOutcomeUnknown => true | _ => false end.

(** [matches!(state, Queued | Preparing | Transferring)] *)
Definition cancellable (s : TransferState) : bool :=
  match s with Queued | Preparing | Transferring => true | _ => false end.

Definition view_with (v : TransferJob) (state : TransferState) (error : option AppError) (retryable : bool)
    (confirmed : str) : TransferJob :=
  {| tj_id := tj_id v; tj_host_id := tj_host_id v; tj_host_session_id := tj_host_session_id v;
     tj_sftp_session_id := tj_sftp_session_id v; tj_direction := tj_direction v;
     tj_source_display := tj_source_display v; tj_destination_display := tj_destination_display v;
     tj_state := state; tj_confirmed_bytes := confirmed; tj_total_bytes := tj_total_bytes v;
     tj_error := error; tj_retryable := retryable |}.
Definition with_state (v : TransferJob) (s : TransferState) : TransferJob :=
  view_with v s (tj_error v) (tj_retryable v) (tj_confirmed_bytes v).
Definition job_with (j : JobRecord) (v : TransferJob) : JobRecord :=
  {| jr_view := v; active_spec := active_spec j; cleanup_unconfirmed := cleanup_unconfirmed j |}.
Definition set_jobs (m : ManagerState) js ord : ManagerState :=
  {| jobs := js; order := ord; disconnecting := disconnecting m; cleanup_tasks := cleanup_tasks m;
     shutting_down := shutting_down m; cancelled := cancelled m; poisoned := poisoned m |}.
Definition set_cancelled (m : ManagerState) c : ManagerState :=
  {| jobs := jobs m; order := order m; disconnecting := disconnecting m; cleanup_tasks := cleanup_tasks m;
     shutting_down := shutting_down m; cancelled := c; poisoned := poisoned m |}.

Definition count_jobs (f : JobRecord → bool) (m : ManagerState) : Z := count_map f (jobs m).
Definition is_terminal (j : JobRecord) : bool := terminal (tj_state (jr_view j)).

(** What history may drop: finished, and nothing left to clean up. *)
Definition removable (m : ManagerState) (id : TransferJobId) : bool :=
  match jobs m !! id with
  | Some j => is_terminal j && negb (cleanup_unconfirmed j)
  | None => false
  end && negb (bool_decide (id ∈ cleanup_tasks m)).

(** Remove the first element of a list that satisfies [f]. *)
Fixpoint remove_first {A} (f : A → bool) (l : list A) : option (A * list A) :=
  match l with
  | [] => None
  | x :: l => if f x then Some (x, l)
              else match remove_first f l with Some (y, l') => Some (y, x :: l') | None => None end
  end.

(** The [while] loop: every round takes one entry off [order], so its length
    bounds the number of rounds. *)
Fixpoint trim_rounds (fuel : nat) (m : ManagerState) : ManagerState :=
  match fuel with
  | 0%nat => m
  | S k =>
      if HISTORY_CAP <? count_jobs is_terminal m then
        match remove_first (removable m) (order m) with
        | None => m
        | Some (id, order') => trim_rounds k (set_jobs m (delete id (jobs m)) order')
        end
      else m
  end.
Definition trim_history_locked (m : ManagerState) : ManagerState := trim_rounds (length (order m)) m.

(** ** Requests from the user interface *)

Definition list_jobs (host : option HostId) (m : ManagerState) : list TransferJob :=
  if poisoned m then [] else
  List.filter (λ v, match host with Some h => bool_decide (tj_host_id v = h) | None => true end)
    (map jr_view (omap (λ id, jobs m !! id) (order m))).

(** Ask a job that has not reached the point of no return to stop. *)
Definition request_cancel (id : TransferJobId) (j : JobRecord) (m : ManagerState) : ManagerState :=
  if cancellable (tj_state (jr_view j))
  then set_cancelled (set_jobs m (<[id := job_with j (with_state (jr_view j) CancelRequested)]> (jobs m)) (order m))
         ({[id]} ∪ cancelled m)
  else m.

Definition job_session (j : JobRecord) : HostId * HostSessionId :=
  (tj_host_id (jr_view j), tj_host_session_id (jr_view j)).

Definition unavailable : AppError := transfer_error "The transfer manager is unavailable.".

Definition cancel (id : TransferJobId) (host : HostId) (host_session : HostSessionId) (sftp : SftpSessionId)
    : st ManagerState AppError unit := λ m,
  if poisoned m then (Err unavailable, m) else
  match jobs m !! id with
  | None => (Err (transfer_error "The transfer no longer exists."), m)
  | Some j =>
      if bool_decide ((job_session j, tj_sftp_session_id (jr_view j)) ≠ ((host, host_session), sftp))
      then (Err (app_error Policy "The transfer does not belong to this SFTP session."), m)
      else (Ok tt, request_cancel id j m)
  end.

Definition retry_plan (id : TransferJobId) (host : HostId) (host_session : HostSessionId) (sftp : SftpSessionId)
    (m : ManagerState) : Res FileOperationPlan :=
  if poisoned m then Err unavailable else
  j ← ok_or (jobs m !! id) (transfer_error "The transfer no longer exists.");
  _ ← ensure (bool_decide ((job_session j, tj_sftp_session_id (jr_view j)) ≠ ((host, host_session), sftp)))
        (app_error Policy "The transfer belongs to a different SFTP session.");
  _ ← ensure (negb (bool_decide (tj_state (jr_view j) = TCancelled)
                    || (bool_decide (tj_state (jr_view j) = TFailed) && tj_retryable (jr_view j))))
        (app_error Policy "This transfer outcome cannot be retried; refresh and prepare a new operation.");
  Err (app_error Policy "Select the local source or destination again to prepare a retry.").

(** Cancel every job that satisfies [f] and may still stop. *)
Definition cancel_where (f : JobRecord → bool) (m : ManagerState) : ManagerState :=
  let stops j := f j && cancellable (tj_state (jr_view j)) in
  set_cancelled
    (set_jobs m ((λ j, if stops j then job_with j (with_state (jr_view j) CancelRequested) else j) <$> jobs m) (order m))
    (dom (filter (λ kv, stops kv.2 = true) (jobs m)) ∪ cancelled m).

Definition set_flags (m : ManagerState) d s : ManagerState :=
  {| jobs := jobs m; order := order m; disconnecting := d; cleanup_tasks := cleanup_tasks m;
     shutting_down := s; cancelled := cancelled m; poisoned := poisoned m |}.

Definition disconnect (host : HostId) (host_session : HostSessionId) (m : ManagerState) : ManagerState :=
  if poisoned m then m else
  cancel_where (λ j, bool_decide (job_session j = (host, host_session)))
    (set_flags m ({[(host, host_session)]} ∪ disconnecting m) (shutting_down m)).

(** The sessions of the jobs that satisfy [f]. *)
Definition sessions_of (f : JobRecord → bool) (m : ManagerState) : gset (HostId * HostSessionId) :=
  list_to_set (map job_session (List.filter f (map snd (map_to_list (jobs m))))).

Definition shutdown (m : ManagerState) : ManagerState :=
  if poisoned m then m else
  cancel_where (λ _, true)
    (set_flags m (sessions_of (λ j, negb (is_terminal j)) m ∪ disconnecting m) true).

(** The last check of [quiesce_session], once the waiting is over. *)
Definition quiesce_verdict (host : HostId) (host_session : HostSessionId) (m : ManagerState) : Res unit :=
  if poisoned m then Err unavailable else
  let of_session j := bool_decide (job_session j = (host, host_session)) in
  _ ← ensure (0 <? count_jobs (λ j, of_session j && cleanup_unconfirmed j) m)
        (transfer_error "Owned staging cleanup could not be confirmed; the SFTP session remains open.");
  ensure (0 <? count_jobs (λ j, of_session j && negb (is_terminal j)) m)
    (transfer_error "A transfer stopped before cleanup could be confirmed; the SFTP session remains open.").

(** The sessions [quiesce_all] still has to wait for. *)
Definition quiesce_sessions (m : ManagerState) : gset (HostId * HostSessionId) :=
  list_to_set (map (λ kv, job_session kv.2)
    (List.filter (λ kv, negb (is_terminal kv.2) || cleanup_unconfirmed kv.2 || bool_decide (kv.1 ∈ cleanup_tasks m))
       (map_to_list (jobs m)))).

(** ** Queueing *)

Definition labels (spec : JobSpec) : str * str * option Z :=
  match js_source spec, js_destination spec with
  | SEditor bytes _ _, DRemote path _ => (lit "Edited text", display_name path, Some (zlen bytes))
  | SLocal s, DRemote path _ => (display_name (lit_display_name s), display_name path, Some (lit_size s))
  | SRemote s, DLocal directory file_name _ =>
      (display_name (rs_name s), display_name (ld_display_name directory ++ ch "\" :: file_name), rs_size s)
  | _, _ => (lit "Unavailable", lit "Unavailable", None)
  end.

Definition new_job (id : TransferJobId) (spec : JobSpec) : TransferJob :=
  let info := js_client spec in
  let '(source_display, destination_display, total) := labels spec in
  {| tj_id := id; tj_host_id := info_host_id info; tj_host_session_id := info_host_session_id info;
     tj_sftp_session_id := info_id info; tj_direction := js_direction spec;
     tj_source_display := source_display; tj_destination_display := destination_display;
     tj_state := Queued; tj_confirmed_bytes := lit "0";
     tj_total_bytes := show_dec <$> total; tj_error := None; tj_retryable := false |}.

Definition enqueue_one (m : ManagerState) (p : TransferJobId * JobSpec) : ManagerState :=
  let '(id, spec) := p in
  set_jobs m (<[id := {| jr_view := new_job id spec; active_spec := Some spec; cleanup_unconfirmed := false |}]> (jobs m))
    (order m ++ [id]).

(** The admission of [enqueue_batch]; each [id] is a fresh [TransferJobId]. *)
Definition enqueue_batch (specs : list (TransferJobId * JobSpec)) : st ManagerState AppError (list TransferJob) := λ m,
  match specs with
  | [] => (Ok [], m)
  | _ =>
      if poisoned m then (Err unavailable, m) else
      if shutting_down m
         || existsb (λ p, bool_decide ((info_host_id (js_client p.2), info_host_session_id (js_client p.2)) ∈ disconnecting m)) specs
      then (Err (app_error Cancelled "This SFTP session is disconnecting."), m) else
      let m := trim_history_locked m in
      let nonterminal := count_jobs (λ j, negb (is_terminal j)) m in
      if saturating_sub JOB_CAP nonterminal <? zlen specs
      then (Err (transfer_error "The complete transfer batch cannot fit in the bounded queue."), m)
      else (Ok (map (λ p, new_job p.1 p.2) specs), foldl enqueue_one m specs)
  end.

Definition upload_spec (client : Client) (item : PlannedUpload) : JobSpec :=
  {| js_client := client; js_direction := DUpload; js_source := SLocal (pu_source item);
     js_destination := DRemote (pu_destination item) (pu_action item) |}.
Definition download_spec (client : Client) (item : PlannedDownload) : JobSpec :=
  {| js_client := client; js_direction := DDownload; js_source := SRemote (pd_source item);
     js_destination := DLocal (pd_destination item) (pd_file_name item) (pd_action item) |}.

(** The jobs of an approved plan; [None] is a mutation, which runs at once. *)
Definition plan_specs (p : PlanPayload) : option (list JobSpec) :=
  match p with
  | EditorSave client path expected original_digest bytes =>
      Some [{| js_client := client; js_direction := DUpload; js_source := SEditor bytes expected original_digest;
               js_destination := DRemote path ACreateNew |}]
  | Upload client _ items => Some (map (upload_spec client) items)
  | Download client _ items => Some (map (download_spec client) items)
  | Mutation _ _ => None
  end.

(** ** Updates from a job's own task *)

Definition set_state (id : TransferJobId) (next : TransferState) (m : ManagerState) : ManagerState :=
  if poisoned m then m else
  match jobs m !! id with
  | None => m
  | Some j =>
      let v := with_state (jr_view j) next in
      if terminal next then
        trim_history_locked
          (set_jobs m (<[id := {| jr_view := view_with v next (tj_error v) false (tj_confirmed_bytes v);
                                  active_spec := None; cleanup_unconfirmed := cleanup_unconfirmed j |}]> (jobs m)) (order m))
      else set_jobs m (<[id := job_with j v]> (jobs m)) (order m)
  end.

Definition enter_finalizing (id : TransferJobId) : st ManagerState AppError unit := λ m,
  if poisoned m then (Err unavailable, m) else
  match jobs m !! id with
  | None => (Err (transfer_error "The transfer no longer exists."), m)
  | Some j =>
      if bool_decide (id ∈ cancelled m) || bool_decide (tj_state (jr_view j) = CancelRequested)
      then (Err cancelled_before_finalization, m)
      else (Ok tt, set_jobs m (<[id := job_with j (with_state (jr_view j) Finalizing)]> (jobs m)) (order m))
  end.

Definition finish_with (s : TransferState) (id : TransferJobId) (e : AppError) (m : ManagerState) : ManagerState :=
  if poisoned m then m else
  trim_history_locked
    match jobs m !! id with
    | None => m
    | Some j =>
        set_jobs m (<[id := {| jr_view := view_with (jr_view j) s (Some e) false (tj_confirmed_bytes (jr_view j));
                               active_spec := None; cleanup_unconfirmed := cleanup_unconfirmed j |}]> (jobs m)) (order m)
    end.
Definition finish_error : TransferJobId → AppError → ManagerState → ManagerState := finish_with TFailed.
Definition finish_unknown : TransferJobId → AppError → ManagerState → ManagerState := finish_with TOutcomeUnknown.

Definition progress (id : TransferJobId) (bytes : Z) (m : ManagerState) : ManagerState :=
  if poisoned m then m else
  match jobs m !! id with
  | None => m
  | Some j => let v := jr_view j in
      set_jobs m (<[id := job_with j (view_with v (tj_state v) (tj_error v) (tj_retryable v) (show_dec bytes))]> (jobs m)) (order m)
  end.

Definition mark_unconfirmed (id : TransferJobId) (m : ManagerState) : ManagerState :=
  if poisoned m then m else
  match jobs m !! id with
  | None => m
  | Some j => set_jobs m (<[id := {| jr_view := jr_view j; active_spec := active_spec j; cleanup_unconfirmed := true |}]> (jobs m)) (order m)
  end.

Definition set_cleanup (m : ManagerState) c : ManagerState :=
  {| jobs := jobs m; order := order m; disconnecting := disconnecting m; cleanup_tasks := c;
     shutting_down := shutting_down m; cancelled := cancelled m; poisoned := poisoned m |}.

(** The cleanup task of a dropped guard: registered when the guard drops, and
    when the removal was answered. *)
Definition cleanup_spawned (id : TransferJobId) (m : ManagerState) : ManagerState :=
  if poisoned m then m else set_cleanup m ({[id]} ∪ cleanup_tasks m).
Definition cleanup_answered (id : TransferJobId) (removed : bool) (m : ManagerState) : ManagerState :=
  let m := if removed then m else mark_unconfirmed id m in
  let m := finish_error id (transfer_error
             (if removed then "The transfer stopped unexpectedly after owned staging was removed."
              else "The transfer stopped and owned staging cleanup could not be confirmed.")) m in
  if poisoned m then m else set_cleanup m (cleanup_tasks m ∖ {[id]}).

(** The end of a job's task: how its outcome becomes a state. *)
Definition finish_job (id : TransferJobId) (outcome : Res unit) (m : ManagerState) : ManagerState :=
  match outcome with
  | Ok _ => set_state id Completed m
  | Err e =>
      if bool_decide (code e = Cancelled) then set_state id TCancelled m
      else if bool_decide (code e = OutcomeUnknown) then finish_unknown id e m
      else finish_error id e m
  end.

(** [u128]'s decimal display: at most 39 digits. *)
Definition show_u128 (n : Z) : str := show_radix 39 10 n [].

Section Key.
(** [Uuid]'s display and [str::to_lowercase]. *)
Context (show_uuid : N → str) (to_lowercase : str → str).
Definition destination_key (spec : JobSpec) : str :=
  match js_destination spec with
  | DRemote path _ => lit "r:" ++ show_uuid (info_id (js_client spec)) ++ ch ":" :: path
  | DLocal directory file_name _ =>
      lit "l:" ++ show_dec (storage_id (li_object_id (ld_identity directory))) ++ ch ":"
        :: show_u128 (file_id (li_object_id (ld_identity directory))) ++ ch ":" :: to_lowercase file_name
  end.
End Key.
