(* ===== verification/TransferSystem.v ===== *)
(** The manager and all its job tasks running together ([spawn_job] of
    [nexus-sftp/src/transfer.rs]).

    A task waits for a permit of its host, a global permit and the lock of
    its destination, then runs its transfer one call at a time; between two
    of its calls any other task may run and the user may cancel, disconnect
    or shut down.  Replies of the server and the file system are arbitrary;
    replies of the manager are those of [Transfer].  [select!] is biased: a
    waiting task looks at its cancellation token first. *)

From S2P Require Import Prelude Str Model RemotePath Editor Files Prog Calls FilePlans LocalFs TransferRun TransferSafe Transfer.

Inductive Phase := PHost | PGlobal | PDest | PRun (p : prg (Res unit)).

Record Task := { tk_spec : JobSpec; tk_phase : Phase }.

Record TSys := {
  mgr : ManagerState;
  tasks : gmap TransferJobId Task;
  used : gset TransferJobId;
  (* history *)
  tlog : list (TransferJobId * event reply);
  finalized : gset TransferJobId;
  outcomes : list (TransferJobId * JobSpec * Res unit)
}.

Definition tsys_new : TSys :=
  {| mgr := manager_new; tasks := ∅; used := ∅; tlog := []; finalized := ∅; outcomes := [] |}.

(** The events of one job. *)
Definition log_of (id : TransferJobId) (l : list (TransferJobId * event reply)) : trace :=
  map snd (List.filter (λ p, bool_decide (p.1 = id)) l).

Arguments log_of : simpl never.

(** Calls the manager answers. *)
Definition mgr_call (id : TransferJobId) (m : ManagerState) (c : call) : option (reply c * ManagerState) :=
  match c return option (reply c * ManagerState) with
  | CSetState s => Some (tt, set_state id s m)
  | CEnterFinalizing => Some (enter_finalizing id m)
  | CIsCancelled => Some (bool_decide (id ∈ cancelled m), m)
  | CCleanupUnconfirmed => Some (tt, mark_unconfirmed id m)
  | CSpawnCleanup _ => Some (tt, cleanup_spawned id m)
  | _ => None
  end.

(** [r] may be the reply to [c] and [m'] the table afterwards. *)
Definition answers (id : TransferJobId) (m : ManagerState) (c : call) (r : reply c) (m' : ManagerState) : Prop :=
  match mgr_call id m c with
  | Some (r0, m0) => r = r0 ∧ m' = m0
  | None => m' = m
  end.

(** The job was allowed to finalize. *)
Definition finalizes (e : event reply) : bool :=
  match e with Ev CEnterFinalizing r => is_ok r | _ => false end.

Definition past_host (k : Task) : bool := match tk_phase k with PHost => false | _ => true end.
Definition past_global (k : Task) : bool := match tk_phase k with PHost | PGlobal => false | _ => true end.
Definition running (k : Task) : bool := match tk_phase k with PRun _ => true | _ => false end.
Definition waiting (k : Task) : bool := negb (running k).
Definition on_host (h : HostId) (k : Task) : bool := past_host k && bool_decide (info_host_id (js_client (tk_spec k)) = h).

Definition set_mgr (y : TSys) (m : ManagerState) : TSys :=
  {| mgr := m; tasks := tasks y; used := used y; tlog := tlog y; finalized := finalized y; outcomes := outcomes y |}.
Definition set_task (y : TSys) (id : TransferJobId) (k : Task) (m : ManagerState) : TSys :=
  {| mgr := m; tasks := <[id := k]> (tasks y); used := used y; tlog := tlog y; finalized := finalized y;
     outcomes := outcomes y |}.

Section System.
Context (digest : list Z → Digest) (simple : TransferJobId → str).
Context (show_uuid : N → str) (to_lowercase : str → str).
Abbreviation key := (destination_key show_uuid to_lowercase).

Definition spawn (p : TransferJobId * JobSpec) : TransferJobId * Task :=
  (p.1, {| tk_spec := p.2; tk_phase := PHost |}).

(** [enqueue_batch]: a refused batch starts no task. *)
Definition enqueue (specs : list (TransferJobId * JobSpec)) (y : TSys) : TSys :=
  let '(r, m) := enqueue_batch specs (mgr y) in
  {| mgr := m;
     tasks := match r with Ok _ => list_to_map (map spawn specs) ∪ tasks y | Err _ => tasks y end;
     used := list_to_set (map fst specs) ∪ used y;
     tlog := tlog y; finalized := finalized y; outcomes := outcomes y |}.

Inductive tstep : TSys → TSys → Prop :=
| t_enqueue specs y : NoDup (map fst specs) → (∀ id, id ∈ map fst specs → id ∉ used y) → tstep y (enqueue specs y)
| t_cancel id h hs f y : tstep y (set_mgr y (cancel id h hs f (mgr y)).2)
| t_disconnect h hs y : tstep y (set_mgr y (disconnect h hs (mgr y)))
| t_shutdown y : tstep y (set_mgr y (shutdown (mgr y)))
| t_progress id n y : tstep y (set_mgr y (progress id n (mgr y)))
| t_cleanup id removed y : id ∈ cleanup_tasks (mgr y) → tstep y (set_mgr y (cleanup_answered id removed (mgr y)))
| t_stop id k y : tasks y !! id = Some k → waiting k = true → id ∈ cancelled (mgr y) →
    tstep y {| mgr := set_state id TCancelled (mgr y); tasks := delete id (tasks y); used := used y; tlog := tlog y;
               finalized := finalized y; outcomes := outcomes y |}
| t_host id spec y : tasks y !! id = Some {| tk_spec := spec; tk_phase := PHost |} → id ∉ cancelled (mgr y) →
    count_map (on_host (info_host_id (js_client spec))) (tasks y) < HOST_ACTIVE →
    tstep y (set_task y id {| tk_spec := spec; tk_phase := PGlobal |} (mgr y))
| t_global id spec y : tasks y !! id = Some {| tk_spec := spec; tk_phase := PGlobal |} → id ∉ cancelled (mgr y) →
    count_map past_global (tasks y) < GLOBAL_ACTIVE →
    tstep y (set_task y id {| tk_spec := spec; tk_phase := PDest |} (set_state id Preparing (mgr y)))
| t_lock id spec y : tasks y !! id = Some {| tk_spec := spec; tk_phase := PDest |} → id ∉ cancelled (mgr y) →
    (∀ id' k, tasks y !! id' = Some k → running k = true → key (tk_spec k) ≠ key spec) →
    tstep y (set_task y id {| tk_spec := spec; tk_phase := PRun (run_transfer digest simple id spec) |} (mgr y))
| t_call id spec c k r m y : tasks y !! id = Some {| tk_spec := spec; tk_phase := PRun (Do c k) |} →
    answers id (mgr y) c r m →
    tstep y {| mgr := m; tasks := <[id := {| tk_spec := spec; tk_phase := PRun (k r) |}]> (tasks y); used := used y;
               tlog := tlog y ++ [(id, Ev c r)];
               finalized := if finalizes (Ev c r) then {[id]} ∪ finalized y else finalized y; outcomes := outcomes y |}
| t_done id spec outcome y : tasks y !! id = Some {| tk_spec := spec; tk_phase := PRun (Ret outcome) |} →
    tstep y {| mgr := finish_job id outcome (mgr y); tasks := delete id (tasks y); used := used y; tlog := tlog y;
               finalized := finalized y; outcomes := (id, spec, outcome) :: outcomes y |}.

Definition treachable (y : TSys) : Prop := rtc tstep tsys_new y.
End System.
