(* ===== verification/TransferSystemSafe.v ===== *)
(** Guarantees of the running transfer system: permits, destination locks,
    every finished job followed its program, and cancellation. *)

From S2P Require Import Prelude Str Model RemotePath Editor Files Prog Calls FilePlans LocalFs TransferRun TransferSafe Transfer TransferSystem.

(** ** Programs that commit only after they were allowed to finalize *)

Fixpoint guarded {A} (p : prg A) : Prop :=
  match p with
  | Ret _ => True
  | Do c k => commits c = false ∧ ∀ r, finalizes (Ev c r) = false → guarded (k r)
  end.

(** ... and that leave their state alone once they were. *)
Definition keeps_state (c : call) : bool := match c with CSetState _ | CEnterFinalizing => false | _ => true end.
Fixpoint final_quiet {A} (p : prg A) : Prop :=
  match p with
  | Ret _ => True
  | Do c k => ∀ r, if finalizes (Ev c r) then only keeps_state (k r) else final_quiet (k r)
  end.

Definition ordered {A} (p : prg A) : Prop := guarded p ∧ final_quiet p.

(** Calls that neither commit nor finalize. *)
Definition early (c : call) : bool := negb (commits c) && match c with CEnterFinalizing => false | _ => true end.

Lemma early_finalizes c (r : reply c) : early c = true → commits c = false ∧ finalizes (Ev c r) = false.
Proof. unfold early. intros [H1 H2]%andb_true_iff. apply negb_true_iff in H1. split; [done|]. by destruct c. Qed.

Lemma early_ordered {A} (p : prg A) : only early p → ordered p.
Proof.
  induction p as [a|c k IH]; [done|]. cbn [only]. intros [Hc Hk]. split; [cbn [guarded]|cbn [final_quiet]].
  - split; [unfold early in Hc; by apply andb_true_iff in Hc as [?%negb_true_iff _]|]. intros r _. by apply IH.
  - intros r. destruct (early_finalizes c r Hc) as [_ ->]. by apply IH.
Qed.

Lemma early_bind_ordered {A B} (p : prg A) (f : A → prg B) :
  only early p → (∀ a, ordered (f a)) → ordered (pbind p f).
Proof.
  intros Hp Hf. induction p as [a|c k IH]; [apply Hf|]. cbn [only] in Hp. destruct Hp as [Hc Hk].
  cbn [pbind]. split; [cbn [guarded]|cbn [final_quiet]].
  { split; [unfold early in Hc; by apply andb_true_iff in Hc as [?%negb_true_iff _]|]. intros r _. by apply IH. }
  intros r. destruct (early_finalizes c r Hc) as [_ ->]. by apply IH.
Qed.

Lemma early_io_bind {A B} (m : iop A) (f : A → iop B) :
  only early (m : prg _) → (∀ a, ordered (f a : prg _)) → ordered (m ≫= f : prg _).
Proof. intros Hm Hf. apply early_bind_ordered; [done|]. intros [a|e]; [apply Hf|done]. Qed.

Lemma looks_early {A} (p : prg A) : only looks p → only early p.
Proof. induction p as [a|c k IH]; cbn; [done|]. intros [Hc Hk]. split; [by destruct c|auto]. Qed.
Lemma looks_keeps {A} (p : prg A) : only looks p → only keeps_state p.
Proof. induction p as [a|c k IH]; cbn; [done|]. intros [Hc Hk]. split; [by destruct c|auto]. Qed.

Ltac only_block :=
  repeat first
  [ done
  | apply only_io_bind; [|intros ?]
  | apply only_bind; [|intros ?]
  | split; [reflexivity|intros ?]
  | case_match ].

Lemma cleanup_only owned staging P : (∀ s, P (CRemoveOwnedStaging s) = true) → P CCleanupUnconfirmed = true →
  only P (cleanup owned staging : prg _).
Proof. intros H1 H2. unfold cleanup. destruct owned; [|done]. split; [apply H1|]. intros [x|e]; cbn; auto. Qed.

Lemma fail_clean_early {A} owned staging e : only early (fail_clean (A := A) owned staging e : prg _).
Proof. unfold fail_clean. apply only_io_bind; [by apply cleanup_only|done]. Qed.
Lemma ensure_clean_early owned staging b e : only early (ensure_clean owned staging b e : prg _).
Proof. unfold ensure_clean. destruct b; [apply fail_clean_early|done]. Qed.
Lemma or_clean_early {A} owned staging (m : iop A) : only early (m : prg _) → only early (or_clean owned staging m : prg _).
Proof. intros Hm. unfold or_clean. apply only_bind; [done|]. intros [a|e]; [done|apply fail_clean_early]. Qed.
Lemma owned_failure_early {A} owned staging c e : only early (owned_failure (A := A) owned staging c e : prg _).
Proof. unfold owned_failure. apply only_io_bind; [by apply cleanup_only|]. intros _. only_block. Qed.
Lemma fail_drop_early {A} owned staging e : only early (fail_drop (A := A) owned staging e : prg _).
Proof. unfold fail_drop, drop_guard. destruct owned; cbn; auto. Qed.

Lemma fail_clean_keeps {A} owned staging e : only keeps_state (fail_clean (A := A) owned staging e : prg _).
Proof. unfold fail_clean. apply only_io_bind; [by apply cleanup_only|done]. Qed.
Lemma finish_commit_keeps owned staging m r : only keeps_state (finish_commit owned staging m r : prg _).
Proof.
  unfold finish_commit. destruct r; [done|]. apply only_bind; [by apply cleanup_only|].
  intros [a|e']; [done|]. by case_match.
Qed.

(** The step through the gate. *)
Lemma finalize_clean_ordered {B} owned staging (f : unit → iop B) :
  (∀ u, only keeps_state (f u : prg _)) → ordered (or_clean owned staging (ask CEnterFinalizing : iop unit) ≫= f : prg _).
Proof.
  intros Hf. unfold or_clean, fail_clean, cleanup. split.
  - split; [done|]. intros [u|e] Hr; [discriminate Hr|]. destruct owned; [|done].
    split; [done|]. intros [x|e'] _; [done|]. split; [done|]. by intros [] _.
  - intros [u|e]; [apply Hf|]. destruct owned; [|done]. intros [x|e']; [done|]. by intros [].
Qed.

Lemma finalize_ordered {B} (f : unit → iop B) :
  (∀ u, only keeps_state (f u : prg _)) → ordered ((ask CEnterFinalizing : iop unit) ≫= f : prg _).
Proof.
  intros Hf. split.
  - split; [done|]. by intros [u|e] Hr.
  - intros [u|e]; [apply Hf|done].
Qed.

Ltac early_block :=
  first
  [ apply ensure_clean_early
  | apply or_clean_early; early_block
  | apply owned_failure_early | apply fail_drop_early
  | apply looks_early, validate_local_source_looks
  | apply looks_early, validate_local_directory_handle_looks
  | match goal with |- only early (match ?x with _ => _ end) => destruct x; early_block end
  | solve [only_block] ].

(** Walk through a program up to the gate. *)
Ltac to_gate :=
  repeat first
  [ apply finalize_clean_ordered; intros ?
  | apply finalize_ordered; intros ?
  | apply early_io_bind; [early_block|intros ?]
  | apply early_bind_ordered; [solve [only_block]|intros ?]
  | progress cbn zeta ].

Section Programs.
Context (digest : list Z → Digest) (simple : TransferJobId → str) (id : TransferJobId).

Lemma run_editor_save_ordered d b e o : ordered (run_editor_save digest simple id d b e o : prg _).
Proof.
  unfold run_editor_save. to_gate. apply only_bind; [only_block|]. intros c. apply finish_commit_keeps.
Qed.

Lemma run_upload_ordered s d a : ordered (run_upload simple id s d a : prg _).
Proof.
  unfold run_upload. to_gate. apply only_io_bind.
  { apply only_bind; [only_block|]. intros [x|e]; [done|apply fail_clean_keeps]. }
  intros x. apply only_io_bind; [unfold ensure_clean; case_match; [apply fail_clean_keeps|done]|].
  intros _. apply only_bind; [destruct a; only_block|]. intros c. apply finish_commit_keeps.
Qed.

Lemma run_download_ordered s d n a : ordered (run_download s d n a : prg _).
Proof.
  unfold run_download. to_gate.
  apply only_io_bind; [apply looks_keeps, validate_local_directory_handle_looks|]. intros _.
  apply only_io_bind; [apply looks_keeps, local_identity_looks|]. intros x. only_block.
Qed.

Lemma run_transfer_ordered spec : ordered (run_transfer digest simple id spec : prg _).
Proof.
  unfold run_transfer. case_match; [done|].
  repeat case_match; auto using run_editor_save_ordered, run_upload_ordered, run_download_ordered; done.
Qed.
End Programs.

(** ** Permits, locks and logs *)

Lemma log_of_snoc i j e l : log_of i (l ++ [(j, e)]) = log_of i l ++ (if bool_decide (j = i) then [e] else []).
Proof. unfold log_of. rewrite List.filter_app, map_app. cbn. by case_bool_decide. Qed.

Lemma log_of_elem i e l : e ∈ log_of i l ↔ (i, e) ∈ l.
Proof.
  unfold log_of. rewrite list_elem_of_In, in_map_iff. split.
  - intros ([j e'] & <- & [Hin Hj]%filter_In). cbn in *. apply bool_decide_eq_true in Hj as ->. by apply list_elem_of_In.
  - intros Hin%list_elem_of_In. exists (i, e). split; [done|]. apply filter_In. split; [done|]. by apply bool_decide_eq_true.
Qed.

Section Invariant.
Context (digest : list Z → Digest) (simple : TransferJobId → str).
Context (show_uuid : N → str) (to_lowercase : str → str).
Abbreviation key := (destination_key show_uuid to_lowercase).
Abbreviation program i spec := (run_transfer digest simple i spec : prg (Res unit)).
Abbreviation step := (tstep digest simple show_uuid to_lowercase).
Implicit Types (y : TSys).

Record Sound y : Prop := {
  s_host : ∀ h, count_map (on_host h) (tasks y) ≤ HOST_ACTIVE;
  s_global : count_map past_global (tasks y) ≤ GLOBAL_ACTIVE;
  s_lock : ∀ i j k k', tasks y !! i = Some k → tasks y !! j = Some k' → running k = true → running k' = true →
    key (tk_spec k) = key (tk_spec k') → i = j;
  s_used : ∀ i k, tasks y !! i = Some k → i ∈ used y;
  s_log_used : ∀ i e, (i, e) ∈ tlog y → i ∈ used y;
  s_final_used : finalized y ⊆ used y;
  s_wait : ∀ i k, tasks y !! i = Some k → waiting k = true → log_of i (tlog y) = [] ∧ i ∉ finalized y;
  s_run : ∀ i spec p, tasks y !! i = Some {| tk_spec := spec; tk_phase := PRun p |} →
    (∀ t a, runs p t a → runs (program i spec) (log_of i (tlog y) ++ t) a) ∧
    (i ∉ finalized y → ordered p) ∧ (i ∈ finalized y → only keeps_state p);
  s_commit : ∀ i e, (i, e) ∈ tlog y → commits (ev_call e) = true → i ∈ finalized y;
  s_out : ∀ i spec r, (i, spec, r) ∈ outcomes y →
    runs (program i spec) (log_of i (tlog y)) r ∧ tasks y !! i = None ∧ i ∈ used y
}.

Lemma sound_new : Sound tsys_new.
Proof.
  split; cbn; try (intros *; rewrite ?count_map_empty, ?lookup_empty; done).
  - by intros i e ?%elem_of_nil.
  - by intros i e ?%elem_of_nil.
  - by intros i spec r ?%elem_of_nil.
Qed.

(** The table is not part of [Sound]. *)
Lemma sound_mgr y m : Sound y → Sound (set_mgr y m).
Proof. intros [H1 H2 H3 H4 H5 H6 H7 H8 H9 H10]. by split. Qed.

(** A task that is not running moves between waiting phases or starts. *)
Lemma sound_set_task y id spec ph ph' m :
  Sound y → tasks y !! id = Some {| tk_spec := spec; tk_phase := ph |} →
  waiting {| tk_spec := spec; tk_phase := ph |} = true →
  (past_host {| tk_spec := spec; tk_phase := ph |} = false → past_host {| tk_spec := spec; tk_phase := ph' |} = true →
     count_map (on_host (info_host_id (js_client spec))) (tasks y) < HOST_ACTIVE) →
  (past_global {| tk_spec := spec; tk_phase := ph |} = false → past_global {| tk_spec := spec; tk_phase := ph' |} = true →
     count_map past_global (tasks y) < GLOBAL_ACTIVE) →
  (∀ p, ph' = PRun p → p = program id spec ∧
     ∀ id' k, tasks y !! id' = Some k → running k = true → key (tk_spec k) ≠ key spec) →
  Sound (set_task y id {| tk_spec := spec; tk_phase := ph' |} m).
Proof.
  intros [H1 H2 H3 H4 H5 H6 H7 H8 H9 H10] Hid Hw Hh Hg Hr. destruct (H7 _ _ Hid Hw) as [Hlog Hfin].
  split; cbn; try done.
  - intros h. rewrite (count_map_insert _ _ _ _ _ Hid). specialize (H1 h). unfold on_host in *. cbn [tk_spec] in *.
    destruct (bool_decide_reflect (info_host_id (js_client spec) = h)) as [<-|Hne]; [|rewrite !andb_false_r; lia].
    rewrite !andb_true_r. destruct (past_host {| tk_spec := spec; tk_phase := ph |}) eqn:E1,
      (past_host {| tk_spec := spec; tk_phase := ph' |}) eqn:E2; first [lia|specialize (Hh eq_refl eq_refl); lia].
  - rewrite (count_map_insert _ _ _ _ _ Hid).
    destruct (past_global {| tk_spec := spec; tk_phase := ph |}) eqn:E1,
      (past_global {| tk_spec := spec; tk_phase := ph' |}) eqn:E2; first [lia|specialize (Hg eq_refl eq_refl); lia].
  - intros i j k k'. destruct (decide (i = id)) as [->|Hi], (decide (j = id)) as [->|Hj]; [done| | |].
    + rewrite lookup_insert_eq, lookup_insert_ne by done. intros [= <-] Hj' Hr1 Hr2 Hk. unfold running in Hr1. cbn in *.
      destruct ph'; try discriminate Hr1. destruct (Hr _ eq_refl) as [_ Hr']. by destruct (Hr' j k' Hj' Hr2).
    + rewrite lookup_insert_eq, lookup_insert_ne by done. intros Hi' [= <-] Hr1 Hr2 Hk. unfold running in Hr2. cbn in *.
      destruct ph'; try discriminate Hr2. destruct (Hr _ eq_refl) as [_ Hr']. by destruct (Hr' i k Hi' Hr1).
    + rewrite !lookup_insert_ne by done. by apply H3.
  - intros i k. destruct (decide (i = id)) as [->|Hi]; [intros _; by apply (H4 _ _ Hid)|].
    rewrite lookup_insert_ne by done. apply H4.
  - intros i k. destruct (decide (i = id)) as [->|Hi]; [intros _ _; done|].
    rewrite lookup_insert_ne by done. apply H7.
  - intros i spec' p. destruct (decide (i = id)) as [->|Hi].
    + rewrite lookup_insert_eq. intros [= <- ->]. destruct (Hr p eq_refl) as [-> _]. rewrite Hlog. cbn.
      split; [done|]. split; [intros _; apply run_transfer_ordered|done].
    + rewrite lookup_insert_ne by done. apply H8.
  - intros i spec' r Hin. destruct (H10 _ _ _ Hin) as (Ha & Hb & Hc). split; [done|]. split; [|done].
    rewrite lookup_insert_ne; [done|]. intros ->. congruence.
Qed.

(** A task that ends leaves its permits and its lock. *)
Lemma sound_delete y id k m o :
  Sound y → tasks y !! id = Some k →
  (∀ spec r, (id, spec, r) ∈ o → runs (program id spec) (log_of id (tlog y)) r) →
  (∀ i spec r, (i, spec, r) ∈ o → i = id ∨ (i, spec, r) ∈ outcomes y) →
  Sound {| mgr := m; tasks := delete id (tasks y); used := used y; tlog := tlog y; finalized := finalized y; outcomes := o |}.
Proof.
  intros [H1 H2 H3 H4 H5 H6 H7 H8 H9 H10] Hid Ho Ho'. split; cbn; try done.
  - intros h. specialize (H1 h). rewrite (count_map_delete _ _ _ _ Hid) in H1. case_match; lia.
  - rewrite (count_map_delete _ _ _ _ Hid) in H2. case_match; lia.
  - intros i j k1 k2 [_ Hi]%lookup_delete_Some [_ Hj]%lookup_delete_Some. by apply H3.
  - intros i k' [_ Hi]%lookup_delete_Some. by apply (H4 _ _ Hi).
  - intros i k' [_ Hi]%lookup_delete_Some. by apply H7.
  - intros i spec p [_ Hi]%lookup_delete_Some. by apply H8.
  - intros i spec r Hin. destruct (decide (i = id)) as [->|Hne].
    + split; [auto|]. split; [apply lookup_delete_eq|by apply (H4 _ _ Hid)].
    + destruct (Ho' _ _ _ Hin) as [->|Hin']; [done|]. destruct (H10 _ _ _ Hin') as (Ha & Hb & Hc).
      rewrite lookup_delete_ne by done. auto.
Qed.

(** One call of a running job. *)
Lemma sound_call y id spec c k r m :
  Sound y → tasks y !! id = Some {| tk_spec := spec; tk_phase := PRun (Do c k) |} →
  Sound {| mgr := m; tasks := <[id := {| tk_spec := spec; tk_phase := PRun (k r) |}]> (tasks y); used := used y;
           tlog := tlog y ++ [(id, Ev c r)];
           finalized := if finalizes (Ev c r) then {[id]} ∪ finalized y else finalized y; outcomes := outcomes y |}.
Proof.
  intros [H1 H2 H3 H4 H5 H6 H7 H8 H9 H10] Hid. destruct (H8 _ _ _ Hid) as (Hruns & Hord & Hkeep).
  set (fin' := if finalizes (Ev c r) then {[id]} ∪ finalized y else finalized y).
  assert (∀ i, i ∈ fin' → i = id ∨ i ∈ finalized y) as Hfin by (subst fin'; case_match; set_solver).
  assert (finalized y ⊆ fin') as Hsub by (subst fin'; case_match; set_solver).
  split; cbn [mgr tasks used tlog finalized outcomes]; try done.
  - intros h. rewrite (count_map_insert _ _ _ _ _ Hid). specialize (H1 h). unfold on_host in *. cbn in *. lia.
  - rewrite (count_map_insert _ _ _ _ _ Hid). cbn. lia.
  - intros i j k1 k2. destruct (decide (i = id)) as [->|Hi], (decide (j = id)) as [->|Hj];
      rewrite ?lookup_insert_eq, ?lookup_insert_ne by done; [done| | |by apply H3].
    + intros [= <-] Hj' _ Hr Hk. by apply (H3 id j _ _ Hid Hj').
    + intros Hi' [= <-] Hr _ Hk. by apply (H3 i id _ _ Hi' Hid).
  - intros i k'. destruct (decide (i = id)) as [->|Hi]; rewrite ?lookup_insert_eq, ?lookup_insert_ne by done;
      [intros _; by apply (H4 _ _ Hid)|apply H4].
  - intros i e [Hin|Hin%list_elem_of_singleton]%elem_of_app; [by apply (H5 _ _ Hin)|]. simplify_eq. by apply (H4 _ _ Hid).
  - intros i Hin. destruct (Hfin i Hin) as [->|Hin']; [by apply (H4 _ _ Hid)|by apply H6].
  - intros i k'. destruct (decide (i = id)) as [->|Hi]; rewrite ?lookup_insert_eq, ?lookup_insert_ne by done; [by intros [= <-]|].
    intros Hi' Hw. destruct (H7 _ _ Hi' Hw) as [Ha Hb]. rewrite log_of_snoc, bool_decide_false by done.
    split; [by rewrite app_nil_r|]. intros [->|?]%Hfin; done.
  - intros i spec' p. destruct (decide (i = id)) as [->|Hi]; rewrite ?lookup_insert_eq, ?lookup_insert_ne by done.
    + intros [= <- <-]. rewrite log_of_snoc, bool_decide_true by done. split; [|split].
      * intros t a Hr. rewrite <-app_assoc. apply Hruns. by constructor.
      * intros Hn. assert (id ∉ finalized y) as Hn' by set_solver. destruct (Hord Hn') as [Hg Hq].
        subst fin'. destruct (finalizes (Ev c r)) eqn:E; [set_solver|]. split; [by apply Hg|].
        specialize (Hq r). by rewrite E in Hq.
      * intros Hin. destruct (decide (id ∈ finalized y)) as [Hy|Hn]; [by apply (Hkeep Hy)|].
        destruct (Hord Hn) as [_ Hq]. specialize (Hq r). subst fin'. by destruct (finalizes (Ev c r)).
    + intros Hp. destruct (H8 _ _ _ Hp) as (Ha & Hb & Hc). rewrite log_of_snoc, bool_decide_false, app_nil_r by done.
      split; [done|]. split; [intros Hn; apply Hb; set_solver|]. intros [->|?]%Hfin; auto; done.
  - intros i e [Hin|Hin%list_elem_of_singleton]%elem_of_app; [intros Hc; by apply Hsub, (H9 _ _ Hin)|]. simplify_eq. cbn.
    intros Hc. destruct (decide (id ∈ finalized y)) as [Hy|Hn]; [by apply Hsub|].
    destruct (Hord Hn) as [[Hg _] _]. congruence.
  - intros i spec' r' Hin. destruct (H10 _ _ _ Hin) as (Ha & Hb & Hc).
    assert (id ≠ i) as Hne by (intros ->; congruence).
    rewrite log_of_snoc, bool_decide_false, app_nil_r, lookup_insert_ne by done. done.
Qed.

(** ** Starting tasks *)

Lemma spawned_lookup specs (m : gmap TransferJobId Task) i k :
  (∀ id, id ∈ map fst specs → m !! id = None) →
  (list_to_map (map spawn specs) ∪ m) !! i = Some k →
  m !! i = Some k ∨ (m !! i = None ∧ i ∈ map fst specs ∧ tk_phase k = PHost).
Proof.
  intros Hf [H|[_ H]]%lookup_union_Some_raw; [|by left]. right. apply elem_of_list_to_map_2 in H.
  apply list_elem_of_In, in_map_iff in H as ([j s] & [= <- <-] & Hin).
  assert (j ∈ map fst specs) as Hj by (apply list_elem_of_In, in_map_iff; by exists (j, s)). auto.
Qed.

Lemma spawned_count f specs (m : gmap TransferJobId Task) :
  (∀ spec, f {| tk_spec := spec; tk_phase := PHost |} = false) → NoDup (map fst specs) →
  (∀ id, id ∈ map fst specs → m !! id = None) →
  count_map f (list_to_map (map spawn specs) ∪ m) = count_map f m.
Proof.
  intros Hf. induction specs as [|[i s] specs IH]; intros Hnd Hfresh; [by change (list_to_map (map spawn [])) with (∅ : gmap TransferJobId Task); rewrite map_empty_union|].
  cbn in Hnd. apply list.NoDup_cons in Hnd as [Hni Hnd]. cbn [map list_to_map foldr spawn fst snd].
  rewrite <-insert_union_l, count_map_insert_fresh.
  - rewrite Hf, IH; [lia|done|]. intros id Hid. apply Hfresh. cbn. by apply elem_of_cons; right.
  - apply lookup_union_None. split; [|apply Hfresh; cbn; by apply elem_of_cons; left].
    apply not_elem_of_list_to_map_1. by rewrite <-list_fmap_compose.
Qed.

Lemma sound_enqueue y specs : Sound y → NoDup (map fst specs) → (∀ id, id ∈ map fst specs → id ∉ used y) →
  Sound (enqueue specs y).
Proof.
  intros [H1 H2 H3 H4 H5 H6 H7 H8 H9 H10] Hnd Hu. unfold enqueue. destruct (enqueue_batch specs (mgr y)) as [[r|e] m].
  2: { split; cbn; try done; [set_solver|set_solver|set_solver|]. intros i spec r Hin. destruct (H10 _ _ _ Hin) as (?&?&?). set_solver. }
  assert (∀ id, id ∈ map fst specs → tasks y !! id = None) as Hf.
  { intros id Hid. destruct (tasks y !! id) eqn:E; [|done]. exfalso. by apply (Hu id Hid), (H4 _ _ E). }
  assert (∀ i, i ∈ map fst specs → log_of i (tlog y) = [] ∧ i ∉ finalized y) as Hnew.
  { intros i Hi. split; [|intros ?; apply (Hu i Hi); by apply H6]. destruct (log_of i (tlog y)) as [|e l] eqn:E; [done|].
    destruct (Hu i Hi). apply (H5 i e), log_of_elem. rewrite E. apply elem_of_cons. by left. }
  split; cbn [mgr tasks used tlog finalized outcomes].
  - intros h. by rewrite spawned_count.
  - by rewrite spawned_count.
  - intros i j k k' Hi Hj Hr Hr'. apply (spawned_lookup _ _ _ _ Hf) in Hi as [Hi|(_ & _ & Hi)];
      [|unfold running in Hr; by rewrite Hi in Hr].
    apply (spawned_lookup _ _ _ _ Hf) in Hj as [Hj|(_ & _ & Hj)]; [|unfold running in Hr'; by rewrite Hj in Hr'].
    by apply H3.
  - intros i k [Hi|(_ & Hi & _)]%(spawned_lookup _ _ _ _ Hf); [apply H4 in Hi|]; set_solver.
  - intros i e Hin%H5. set_solver.
  - set_solver.
  - intros i k [Hi|(_ & Hi & _)]%(spawned_lookup _ _ _ _ Hf) Hw; [by apply (H7 _ _ Hi)|by apply Hnew].
  - intros i spec p [Hi|(_ & _ & Hi)]%(spawned_lookup _ _ _ _ Hf); [by apply H8|discriminate Hi].
  - done.
  - intros i spec r' Hin. destruct (H10 _ _ _ Hin) as (Ha & Hb & Hc). split; [done|]. split; [|set_solver].
    apply lookup_union_None. split; [|done]. apply not_elem_of_list_to_map_1.
    rewrite <-list_fmap_compose. intros Hi. by apply (Hu i).
Qed.

Lemma sound_step y y' : Sound y → step y y' → Sound y'.
Proof.
  intros S Hs. destruct Hs; try (by apply sound_mgr).
  - by apply sound_enqueue.
  - eapply sound_delete; eauto. intros spec r Hin. by apply (s_out _ S).
  - eapply sound_set_task; eauto; done.
  - eapply sound_set_task; eauto; done.
  - eapply sound_set_task; eauto; try done. intros p [= <-]. auto.
  - by apply sound_call.
  - eapply sound_delete; eauto.
    + intros spec' r [[= -> ->]|Hin]%elem_of_cons; [|by apply (s_out _ S)].
      destruct (s_run _ S _ _ _ H) as [Hr _]. rewrite <-(app_nil_r (log_of _ _)). apply Hr. constructor.
    + intros i spec' r [[= -> -> ->]|Hin]%elem_of_cons; auto.
Qed.

Lemma sound_reachable y : treachable digest simple show_uuid to_lowercase y → Sound y.
Proof.
  intros H. unfold treachable in H. remember tsys_new as y0 eqn:E. assert (Sound y0) as S0 by (subst; apply sound_new).
  clear E. induction H; eauto using sound_step.
Qed.
End Invariant.
