(* ===== verification/TransferCancel.v ===== *)
(** Cancellation, disconnection and shutdown in the running system: a request
    that finds the job before its point of no return prevents the commit. *)

From S2P Require Import Prelude Str Model RemotePath Editor Files Prog Calls FilePlans LocalFs TransferRun TransferSafe Transfer TransferSystem TransferSystemSafe.

(** ** What an operation on the table does to one job *)

Definition job_state (m : ManagerState) (i : TransferJobId) : option TransferState :=
  (λ j, tj_state (jr_view j)) <$> jobs m !! i.

(** The token stays cancelled, the lock healthy, and the job's state does not
    become cancellable (again). *)
Record calm (i : TransferJobId) (m m' : ManagerState) : Prop := {
  calm_cancelled : cancelled m ⊆ cancelled m';
  calm_poisoned : poisoned m' = poisoned m;
  calm_state : ∀ s, job_state m' i = Some s → cancellable s = true → job_state m i = Some s
}.

#[export] Instance calm_preorder i : PreOrder (calm i).
Proof.
  split; [by split|]. intros m1 m2 m3 [A1 B1 C1] [A2 B2 C2]. split; [set_solver|congruence|]. eauto.
Qed.

(** A change of one job's record. *)
Lemma calm_insert i m id j :
  (id = i → cancellable (tj_state (jr_view j)) = true → job_state m i = Some (tj_state (jr_view j))) →
  calm i m (set_jobs m (<[id := j]> (jobs m)) (order m)).
Proof.
  intros H. split; [done|done|]. unfold job_state. cbn. intros s Hs Hc. destruct (decide (id = i)) as [->|Hne].
  - rewrite lookup_insert_eq in Hs. cbn in Hs. simplify_eq. by apply H.
  - by rewrite lookup_insert_ne in Hs.
Qed.

Lemma calm_trim i k m : calm i m (trim_rounds k m).
Proof.
  revert m. induction k as [|k IH]; intros m; cbn [trim_rounds]; [reflexivity|].
  case_match; [|reflexivity]. destruct (remove_first _ _) as [[id l]|]; [|reflexivity].
  etransitivity; [|apply IH]. split; [done|done|]. unfold job_state. cbn. intros s Hs _.
  apply fmap_Some in Hs as (j & [_ Hj]%lookup_delete_Some & ->). by rewrite Hj.
Qed.
Lemma calm_history i m : calm i m (trim_history_locked m).
Proof. apply calm_trim. Qed.

Lemma calm_set_state i id s m : (id = i → cancellable s = false) → calm i m (set_state id s m).
Proof.
  intros H. unfold set_state. destruct (poisoned m); [reflexivity|]. destruct (jobs m !! id) as [j|] eqn:E; [|reflexivity].
  destruct (terminal s); [etransitivity; [|apply calm_history]|]; apply calm_insert; cbn; intros ->; by rewrite H.
Qed.

Lemma calm_finish i s id e m : cancellable s = false → calm i m (finish_with s id e m).
Proof.
  intros H. unfold finish_with. destruct (poisoned m); [reflexivity|]. etransitivity; [|apply calm_history].
  destruct (jobs m !! id) as [j|] eqn:E; [|reflexivity]. apply calm_insert. cbn. by rewrite H.
Qed.

Lemma calm_finish_job i id r m : calm i m (finish_job id r m).
Proof.
  unfold finish_job, finish_unknown, finish_error. destruct r as [[]|e]; [by apply calm_set_state|].
  repeat case_match; auto using calm_set_state, calm_finish.
Qed.

Lemma calm_enter_finalizing i id m : calm i m (enter_finalizing id m).2.
Proof.
  unfold enter_finalizing. destruct (poisoned m); [reflexivity|]. destruct (jobs m !! id) as [j|] eqn:E; [|reflexivity].
  case_match; [reflexivity|]. by apply calm_insert.
Qed.

Lemma calm_progress i id n m : calm i m (progress id n m).
Proof.
  unfold progress. destruct (poisoned m); [reflexivity|]. destruct (jobs m !! id) as [j|] eqn:E; [|reflexivity].
  apply calm_insert. intros -> _. unfold job_state. by rewrite E.
Qed.

Lemma calm_unconfirmed i id m : calm i m (mark_unconfirmed id m).
Proof.
  unfold mark_unconfirmed. destruct (poisoned m); [reflexivity|]. destruct (jobs m !! id) as [j|] eqn:E; [|reflexivity].
  apply calm_insert. intros -> _. unfold job_state. by rewrite E.
Qed.

Lemma calm_spawned i id m : calm i m (cleanup_spawned id m).
Proof. unfold cleanup_spawned. destruct (poisoned m); [reflexivity|]. by split. Qed.

Lemma calm_answered i id b m : calm i m (cleanup_answered id b m).
Proof.
  unfold cleanup_answered, finish_error. set (m1 := if b then m else mark_unconfirmed id m).
  assert (calm i m m1) as H1 by (subst m1; destruct b; [reflexivity|apply calm_unconfirmed]).
  match goal with |- context [finish_with TFailed id ?e m1] => pose proof (calm_finish i TFailed id e m1 eq_refl) as H2 end.
  etransitivity; [exact H1|]. etransitivity; [exact H2|].
  destruct (poisoned (finish_with _ _ _ _)); [reflexivity|]. by split.
Qed.

Lemma calm_request i id j m : jobs m !! id = Some j → calm i m (request_cancel id j m).
Proof.
  intros E. unfold request_cancel. case_match; [|reflexivity]. etransitivity; [apply (calm_insert i m id)|].
  { by instantiate (1 := job_with j (with_state (jr_view j) CancelRequested)). }
  split; [cbn; set_solver|done|done].
Qed.

Lemma calm_cancel i id h hs f m : calm i m (cancel id h hs f m).2.
Proof.
  unfold cancel. destruct (poisoned m); [reflexivity|]. destruct (jobs m !! id) as [j|] eqn:E; [|reflexivity].
  case_match; [reflexivity|]. by apply calm_request.
Qed.

Lemma calm_cancel_where i f m : calm i m (cancel_where f m).
Proof.
  split; [cbn; set_solver|done|]. unfold job_state. cbn. intros s Hs Hc. rewrite lookup_fmap in Hs.
  destruct (jobs m !! i) as [j|]; [|done]. cbn in *. destruct (f j && _); cbn in *; by simplify_eq.
Qed.

Lemma calm_disconnect i h hs m : calm i m (disconnect h hs m).
Proof. unfold disconnect. case_match; [reflexivity|]. etransitivity; [|apply calm_cancel_where]. by split. Qed.
Lemma calm_shutdown i m : calm i m (shutdown m).
Proof. unfold shutdown. case_match; [reflexivity|]. etransitivity; [|apply calm_cancel_where]. by split. Qed.

Lemma calm_enqueue i specs m : i ∉ map fst specs → calm i m (enqueue_batch specs m).2.
Proof.
  intros Hi. unfold enqueue_batch. destruct specs as [|p specs]; [reflexivity|].
  repeat case_match; try reflexivity; cbn [snd]; [apply calm_history|]. etransitivity; [apply calm_history|].
  generalize (trim_history_locked m). clear -Hi. generalize dependent (p :: specs). clear p specs.
  induction l as [|[id s] l IH]; intros Hi m; [reflexivity|]. cbn [foldl].
  cbn in Hi. apply not_elem_of_cons in Hi as [Hi1 Hi2].
  etransitivity; [|by apply IH]. cbn. split; [done|done|]. unfold job_state. cbn. by rewrite lookup_insert_ne.
Qed.

Lemma calm_mgr_call i id m c r m' :
  answers id m c r m' → (id = i → keeps_state c = true ∨ finalizes (Ev c r) = true) → calm i m m'.
Proof.
  intros Ha Hk. unfold answers in Ha. destruct c; cbn in Ha; try (by subst; reflexivity).
  - destruct Ha as [-> ->]. apply calm_set_state. intros ->. by destruct (Hk eq_refl).
  - destruct (enter_finalizing id m) as [r0 m0] eqn:E. destruct Ha as [-> ->].
    pose proof (calm_enter_finalizing i id m) as H. by rewrite E in H.
  - destruct Ha as [_ ->]. reflexivity.
  - destruct Ha as [_ ->]. apply calm_unconfirmed.
  - destruct Ha as [_ ->]. apply calm_spawned.
Qed.

(** ** The running system *)

Section Running.
Context (digest : list Z → Digest) (simple : TransferJobId → str).
Context (show_uuid : N → str) (to_lowercase : str → str).
Abbreviation step := (tstep digest simple show_uuid to_lowercase).
Abbreviation sound := (Sound digest simple show_uuid to_lowercase).
Implicit Types (y : TSys).

(** Everybody but the job itself leaves its state alone, and so does the job
    once it was allowed to finalize. *)
Lemma step_calm i y y' : sound y → step y y' → (i ∉ used y ∧ tasks y' !! i = None) ∨ i ∈ finalized y → calm i (mgr y) (mgr y').
Proof.
  intros S Hs Hi. destruct Hs; cbn [mgr set_mgr set_task enqueue];
    try solve [apply calm_cancel | apply calm_disconnect | apply calm_shutdown | apply calm_progress
              | apply calm_answered | apply calm_finish_job | reflexivity | by apply calm_set_state].
  - unfold enqueue in *. pose proof (calm_enqueue i specs (mgr y)) as Hc.
    destruct (enqueue_batch specs (mgr y)) as [r m] eqn:E. cbn in *.
    destruct (decide (i ∈ map fst specs)) as [Hin|Hn]; [|by apply Hc].
    destruct Hi as [[Hu Ht]|Hf]; [|exfalso; by apply (H0 i Hin), (s_final_used _ _ _ _ _ S)].
    destruct r as [l|e]; cbn in Ht.
    + exfalso. apply lookup_union_None in Ht as [Ht _]. apply not_elem_of_list_to_map_2 in Ht.
      apply Ht. by rewrite <-list_fmap_compose.
    + unfold enqueue_batch in E. destruct specs as [|p specs]; [set_solver|].
      repeat case_match; simplify_eq; [reflexivity|reflexivity|apply calm_history].
  - apply calm_set_state. intros ->. destruct Hi as [[Hu _]|Hf].
    + destruct Hu. by apply (s_used _ _ _ _ _ S _ _ H).
    + by destruct (s_wait _ _ _ _ _ S _ _ H eq_refl).
  - eapply calm_mgr_call; [done|]. intros ->. left. destruct Hi as [[Hu _]|Hf].
    + destruct Hu. by apply (s_used _ _ _ _ _ S _ _ H).
    + destruct (s_run _ _ _ _ _ S _ _ _ H) as (_ & _ & Hk). by apply (Hk Hf).
Qed.

(** The token and the health of the lock concern every step. *)
Lemma step_tokens y y' : sound y → step y y' →
  cancelled (mgr y) ⊆ cancelled (mgr y') ∧ poisoned (mgr y') = poisoned (mgr y).
Proof.
  intros S Hs. assert (∃ i, (i ∉ used y) ∧ tasks y' !! i = None) as (i & Hu & Ht).
  { exists (fresh (used y ∪ dom (tasks y'))). pose proof (is_fresh (used y ∪ dom (tasks y'))) as Hf.
    split; [set_solver|]. apply not_elem_of_dom. set_solver. }
  destruct (step_calm i y y' S Hs) as [H1 H2 _]; auto.
Qed.

Record Live y : Prop := {
  l_sound : sound y;
  l_poisoned : poisoned (mgr y) = false;
  l_final : ∀ i s, i ∈ finalized y → job_state (mgr y) i = Some s → cancellable s = false
}.

Lemma live_step y y' : Live y → step y y' → Live y'.
Proof.
  intros [S Hp Hf] Hs. destruct (step_tokens _ _ S Hs) as [_ Hp'].
  split; [by eapply sound_step|congruence|]. intros i s Hi Hst. destruct (cancellable s) eqn:Hc; [|done].
  destruct (decide (i ∈ finalized y)) as [Hy|Hn].
  { rewrite <-Hc. apply (Hf i); [done|]. apply (calm_state _ _ _ (step_calm i y y' S Hs (or_intror Hy))); done. }
  destruct Hs as [specs ? ? ?| | | | | | | | | |id spec c k r m y Hid Ha|]; cbn [mgr finalized set_mgr set_task] in *; try done.
  { unfold enqueue in Hi. by destruct (enqueue_batch specs (mgr y)). }
  destruct (finalizes (Ev c r)) eqn:E; [|done]. apply elem_of_union in Hi as [->%elem_of_singleton|?]; [|done].
  destruct c; try discriminate E. unfold answers in Ha. cbn in Ha. unfold enter_finalizing in Ha.
  rewrite Hp in Ha. destruct (jobs (mgr y) !! id) as [j|] eqn:Ej; [|destruct Ha as [-> _]; discriminate E].
  destruct (_ || _) in Ha; [destruct Ha as [-> _]; discriminate E|]. destruct Ha as [_ ->].
  unfold job_state in Hst. cbn in Hst. rewrite lookup_insert_eq in Hst. cbn in Hst. by simplify_eq.
Qed.

Lemma live_reachable y : treachable digest simple show_uuid to_lowercase y → Live y.
Proof.
  unfold treachable. intros H. remember tsys_new as y0 eqn:E.
  assert (Live y0) as L0 by (subst; split; [apply sound_new|done|done]). clear E. induction H; eauto using live_step.
Qed.

(** A job stopped before the gate stays stopped. *)
Lemma stopped_step i y y' : Live y → step y y' → i ∈ cancelled (mgr y) → i ∉ finalized y →
  i ∈ cancelled (mgr y') ∧ i ∉ finalized y'.
Proof.
  intros L Hs Hc Hn. destruct (step_tokens _ _ (l_sound _ L) Hs) as [Hsub _]. split; [set_solver|].
  destruct Hs as [specs ? ? ?| | | | | | | | | |id spec c k r m y Hid Ha|]; cbn [mgr finalized set_mgr set_task] in *; try done.
  { unfold enqueue. by destruct (enqueue_batch specs (mgr y)). }
  destruct (finalizes (Ev c r)) eqn:E; [|done]. intros [->%elem_of_singleton|?]%elem_of_union; [|done].
  destruct c; try discriminate E. unfold answers in Ha. cbn in Ha. unfold enter_finalizing in Ha.
  rewrite (l_poisoned _ L), bool_decide_true in Ha by done. cbn in Ha.
  destruct (jobs (mgr y) !! id); destruct Ha as [-> _]; discriminate E.
Qed.

(** The three ways to ask a job to stop. *)
Inductive stop_request (i : TransferJobId) (j : JobRecord) (m : ManagerState) : ManagerState → Prop :=
| sr_cancel : stop_request i j m
    (cancel i (tj_host_id (jr_view j)) (tj_host_session_id (jr_view j)) (tj_sftp_session_id (jr_view j)) m).2
| sr_disconnect : stop_request i j m (disconnect (tj_host_id (jr_view j)) (tj_host_session_id (jr_view j)) m)
| sr_shutdown : stop_request i j m (shutdown m).

Lemma stop_request_cancels i j m m' : poisoned m = false → jobs m !! i = Some j →
  cancellable (tj_state (jr_view j)) = true → stop_request i j m m' → i ∈ cancelled m'.
Proof.
  intros Hp Hj Hc [| |].
  - unfold cancel. rewrite Hp, Hj. rewrite bool_decide_false by auto. cbn. unfold request_cancel. rewrite Hc. cbn. set_solver.
  - unfold disconnect. rewrite Hp. cbn. apply elem_of_union_l, elem_of_dom. exists j.
    apply map_lookup_filter_Some. cbn. split; [done|]. by rewrite bool_decide_true, Hc.
  - unfold shutdown. rewrite Hp. cbn. apply elem_of_union_l, elem_of_dom. exists j.
    apply map_lookup_filter_Some. by cbn.
Qed.

(** [C2] A cancellation, a disconnect or a shutdown that reaches a job while it
    is queued, preparing or transferring is final: whatever its task and all
    other tasks do afterwards, that job never puts anything at its
    destination. *)
Theorem stopped_job_never_commits y i j m y' e :
  treachable digest simple show_uuid to_lowercase y →
  jobs (mgr y) !! i = Some j → cancellable (tj_state (jr_view j)) = true →
  stop_request i j (mgr y) m → rtc step (set_mgr y m) y' →
  (i, e) ∈ tlog y' → commits (ev_call e) = false.
Proof.
  intros Hr Hj Hc Hq Hs He. pose proof (live_reachable y Hr) as L.
  assert (i ∉ finalized y) as Hn.
  { intros Hi. pose proof (l_final _ L i (tj_state (jr_view j)) Hi) as H. unfold job_state in H. rewrite Hj in H.
    rewrite H in Hc; done. }
  assert (step y (set_mgr y m)) as Hstep by (destruct Hq; [apply t_cancel|apply t_disconnect|apply t_shutdown]).
  pose proof (live_step _ _ L Hstep) as L'.
  assert (i ∈ cancelled (mgr (set_mgr y m)) ∧ i ∉ finalized (set_mgr y m)) as Hst.
  { split; [|done]. eapply stop_request_cancels; eauto. apply (l_poisoned _ L). }
  assert (Live y' ∧ i ∉ finalized y') as [Ly Hny].
  { clear -Hs L' Hst. induction Hs as [z|z z1 z2 Hz Hs IH]; [by destruct Hst|]. destruct Hst.
    apply IH; [by eapply live_step|by eapply stopped_step]. }
  destruct (commits (ev_call e)) eqn:E; [|done]. exfalso. by apply Hny, (s_commit _ _ _ _ _ (l_sound _ Ly) _ _ He E).
Qed.

(** However many jobs are queued, at most four transfers hold a global
    permit, at most two per host hold a host permit, and no two running
    transfers write the same destination. *)
Theorem transfers_are_bounded y :
  treachable digest simple show_uuid to_lowercase y →
  count_map past_global (tasks y) ≤ GLOBAL_ACTIVE ∧
  (∀ h, count_map (on_host h) (tasks y) ≤ HOST_ACTIVE) ∧
  (∀ i j k k', tasks y !! i = Some k → tasks y !! j = Some k' → running k = true → running k' = true → i ≠ j →
     destination_key show_uuid to_lowercase (tk_spec k) ≠ destination_key show_uuid to_lowercase (tk_spec k')).
Proof.
  intros S%live_reachable%l_sound. split; [apply S|]. split; [apply S|].
  intros i j k k' Hi Hj Hr Hr' Hne Hk. by apply Hne, (s_lock _ _ _ _ _ S i j k k').
Qed.

(** Every job that ended did exactly what its program says: the calls it
    made and the replies it got, in order, are a run of [run_transfer] for
    its specification with the outcome that was recorded.  So what is proved
    of the single transfers holds of the jobs of the running system. *)
Theorem finished_job_followed_its_program y i spec r :
  treachable digest simple show_uuid to_lowercase y → (i, spec, r) ∈ outcomes y →
  runs (run_transfer digest simple i spec : prg _) (log_of i (tlog y)) r.
Proof. intros S%live_reachable%l_sound Hin. by apply (s_out _ _ _ _ _ S). Qed.
End Running.
