(* ===== verification/TransferTable.v ===== *)
(** The manager's table in the running system: history is trimmed correctly,
    the queue stays bounded, and every unfinished job has a task. *)

From S2P Require Import Prelude Str Model RemotePath Editor Files Prog Calls FilePlans LocalFs TransferRun TransferSafe Transfer TransferSystem TransferSystemSafe TransferCancel.

(** ** Trimming *)

(** [order] lists exactly the jobs, each once. *)
Definition wf (m : ManagerState) : Prop := NoDup (order m) ∧ ∀ i, i ∈ order m ↔ is_Some (jobs m !! i).

Lemma remove_first_some {A} (f : A → bool) l x l' :
  remove_first f l = Some (x, l') → f x = true ∧ ∃ l1 l2, l = l1 ++ x :: l2 ∧ l' = l1 ++ l2.
Proof.
  revert l'. induction l as [|a l IH]; intros l'; cbn; [done|]. destruct (f a) eqn:E.
  - intros [= <- <-]. split; [done|]. by exists [], l.
  - destruct (remove_first f l) as [[b l0]|]; [|done]. intros [= <- <-]. destruct (IH _ eq_refl) as (H1 & l1 & l2 & -> & ->).
    split; [done|]. by exists (a :: l1), l2.
Qed.

Lemma remove_first_none {A} (f : A → bool) l : remove_first f l = None → ∀ x, x ∈ l → f x = false.
Proof.
  induction l as [|a l IH]; cbn; [by intros _ x ?%elem_of_nil|]. destruct (f a) eqn:E; [done|].
  destruct (remove_first f l) as [[b l0]|]; [done|]. intros _ x [->|Hx]%elem_of_cons; auto.
Qed.

(** One round of the loop. *)
Definition drop_job (id : TransferJobId) (l : list TransferJobId) (m : ManagerState) : ManagerState :=
  set_jobs m (delete id (jobs m)) l.

Lemma drop_wf m id l : wf m → remove_first (removable m) (order m) = Some (id, l) → wf (drop_job id l m).
Proof.
  intros [Hnd Hdom] H. apply remove_first_some in H as (_ & l1 & l2 & E & ->). unfold wf. cbn.
  assert (id ∉ l1 ++ l2 ∧ NoDup (l1 ++ l2)) as [Hni Hnd'].
  { apply list.NoDup_cons. rewrite E in Hnd. by rewrite (Permutation_middle l1 l2 id). }
  split; [done|]. intros i. destruct (decide (i = id)) as [->|Hne].
  - rewrite lookup_delete_eq. split; [done|by intros [? ?]].
  - rewrite lookup_delete_ne by done. rewrite <-Hdom, E. rewrite !elem_of_app, elem_of_cons. naive_solver.
Qed.

Lemma removable_drop m id l i : removable (drop_job id l m) i = true → removable m i = true.
Proof.
  unfold removable, drop_job. cbn. destruct (decide (i = id)) as [->|Hne]; [by rewrite lookup_delete_eq|].
  by rewrite lookup_delete_ne.
Qed.

Definition trim_post (m m' : ManagerState) : Prop :=
  wf m' ∧
  (count_jobs is_terminal m' ≤ HISTORY_CAP ∨ ∀ i, i ∈ order m' → removable m' i = false) ∧
  (∀ i, jobs m' !! i = jobs m !! i ∨ (jobs m' !! i = None ∧ removable m i = true)) ∧
  (count_jobs is_terminal m ≤ HISTORY_CAP → m' = m) ∧
  (HISTORY_CAP ≤ count_jobs is_terminal m → HISTORY_CAP ≤ count_jobs is_terminal m').

Lemma trim_rounds_post k m : wf m → (length (order m) ≤ k)%nat → trim_post m (trim_rounds k m).
Proof.
  revert m. induction k as [|k IH]; intros m Hwf Hk; cbn [trim_rounds].
  - split_and!; auto. right. destruct (order m); [|cbn in Hk; lia]. by intros i ?%elem_of_nil.
  - destruct (HISTORY_CAP <? count_jobs is_terminal m) eqn:Ec; [|split_bools; split_and!; auto].
    apply Z.ltb_lt in Ec. destruct (remove_first (removable m) (order m)) as [[id l]|] eqn:E.
    2: { split_and!; auto. right. by apply remove_first_none. }
    fold (drop_job id l m). pose proof (drop_wf m id l Hwf E) as Hwf'.
    pose proof E as E'. apply remove_first_some in E as (Hrm & l1 & l2 & Eo & El).
    assert (∃ j, jobs m !! id = Some j ∧ is_terminal j = true) as (j & Hj & Ht).
    { unfold removable in Hrm. destruct (jobs m !! id) as [j|]; [|done]. split_bools. eauto. }
    destruct (IH (drop_job id l m) Hwf') as (A & B & C & _ & F).
    { cbn. subst l. rewrite Eo, length_app in Hk. cbn in Hk. rewrite length_app. lia. }
    split; [done|]. split; [done|]. split; [|split; [intros; lia|intros _; apply F]].
    + intros i. destruct (decide (i = id)) as [->|Hne].
      * right. split; [|done]. destruct (C id) as [-> |[-> _]]; [apply lookup_delete_eq|done].
      * destruct (C i) as [-> |[Hn Hr]]; [left; by apply lookup_delete_ne|]. right. split; [done|]. by eapply removable_drop.
    + unfold count_jobs, drop_job in *. cbn. rewrite (count_map_delete _ _ _ _ Hj), Ht in Ec. lia.
Qed.

(** Trimming the history is bounded, safe and no more than needed: it
    ends with at most 100 finished jobs or with none left that may go, it
    only drops finished jobs whose staging is settled, it does nothing while
    the history fits and never goes below the cap, and the job list and the
    job table keep agreeing. *)
Theorem trim_history_correct m : wf m → trim_post m (trim_history_locked m).
Proof. intros H. by apply trim_rounds_post. Qed.

Definition tx_job (id : TransferJobId) : JobRecord :=
  {| jr_view := with_state (new_job id sx_spec) Completed; active_spec := None; cleanup_unconfirmed := false |}.
Definition tx_full : ManagerState :=
  let ids := map N.of_nat (seq 0 101) in
  set_jobs manager_new (list_to_map (map (λ i, (i, tx_job i)) ids)) ids.

Lemma tx_full_wf : wf tx_full.
Proof.
  split; [apply (bool_decide_unpack _); by vm_compute|]. intros i. cbn [order jobs tx_full set_jobs].
  rewrite <-elem_of_dom, dom_list_to_map. rewrite elem_of_list_to_set. by rewrite <-list_fmap_compose, list_fmap_id.
Qed.

Lemma trim_history_correct_witness : trim_post tx_full (trim_history_locked tx_full) ∧
  length (order (trim_history_locked tx_full)) = 100%nat.
Proof. split; [apply (trim_history_correct tx_full), tx_full_wf|vm_compute; reflexivity]. Defined.

(** ** Unfinished jobs *)

Definition unfinished (j : JobRecord) : bool := negb (is_terminal j).
Definition nt (m : ManagerState) (i : TransferJobId) : bool :=
  match jobs m !! i with Some j => unfinished j | None => false end.

(** The table keeps its shape and gains no unfinished job. *)
Record steady (m m' : ManagerState) : Prop := {
  st_wf : wf m → wf m';
  st_ids : ∀ i, is_Some (jobs m' !! i) → is_Some (jobs m !! i);
  st_nt : ∀ i, nt m' i = true → nt m i = true
}.

#[export] Instance steady_preorder : PreOrder steady.
Proof. split; [by split|]. intros m1 m2 m3 [A1 B1 C1] [A2 B2 C2]. split; eauto. Qed.

(** Nothing unfinished is touched, except perhaps the jobs of [D]. *)
Definition spares (D : TransferJobId → Prop) (m m' : ManagerState) : Prop := ∀ i, ¬ D i → nt m' i = nt m i.

Lemma steady_count m m' : steady m m' → count_jobs unfinished m' ≤ count_jobs unfinished m.
Proof.
  intros [_ _ H]. unfold count_jobs, count_map. rewrite <-!size_dom. apply inj_le, subseteq_size.
  intros i [j [Hj Hu]%map_lookup_filter_Some]%elem_of_dom. cbn in Hu. specialize (H i). unfold nt in H. rewrite Hj in H.
  specialize (H Hu). apply elem_of_dom. destruct (jobs m !! i) as [j'|] eqn:E; [|done].
  exists j'. by apply map_lookup_filter_Some.
Qed.

Lemma trim_steady m : wf m → steady m (trim_history_locked m) ∧ spares (λ _, False) m (trim_history_locked m).
Proof.
  intros Hwf. destruct (trim_rounds_post (length (order m)) m Hwf (le_n _)) as (A & _ & C & _).
  fold (trim_history_locked m) in *. assert (∀ i, nt (trim_history_locked m) i = nt m i) as Hnt.
  { intros i. unfold nt. destruct (C i) as [-> |[-> Hr]]; [done|]. unfold removable in Hr.
    destruct (jobs m !! i) as [j|]; [|done]. apply andb_true_iff in Hr as [[Hr _]%andb_true_iff _].
    unfold unfinished. by rewrite Hr. }
  split; [split; [done| |intros i; by rewrite Hnt]|intros i _; apply Hnt].
  intros i Hi. destruct (C i) as [E|[E _]]; rewrite E in Hi; [done|by destruct Hi].
Qed.

(** Replacing the record of an existing job. *)
Lemma insert_steady m id j j' : jobs m !! id = Some j →
  (unfinished j' = true → unfinished j = true) →
  steady m (set_jobs m (<[id := j']> (jobs m)) (order m)) ∧
  spares (λ i, i = id ∧ unfinished j' ≠ unfinished j) m (set_jobs m (<[id := j']> (jobs m)) (order m)).
Proof.
  intros Hj Hu. split; [split|].
  - intros [H1 H2]. split; [done|]. intros i. cbn. rewrite H2. rewrite lookup_insert_is_Some'. naive_solver.
  - intros i. cbn. rewrite lookup_insert_is_Some'. naive_solver.
  - intros i. unfold nt. cbn. destruct (decide (i = id)) as [->|Hne]; [|by rewrite lookup_insert_ne].
    rewrite lookup_insert_eq, Hj. auto.
  - intros i Hi. unfold nt. cbn. destruct (decide (i = id)) as [->|Hne]; [|by rewrite lookup_insert_ne].
    rewrite lookup_insert_eq, Hj. destruct (decide (unfinished j' = unfinished j)); naive_solver.
Qed.

Lemma spares_weaken (D D' : TransferJobId → Prop) m m' : (∀ i, D i → D' i) → spares D m m' → spares D' m m'.
Proof. intros H Hs i Hi. apply Hs. auto. Qed.
Lemma spares_trans D m1 m2 m3 : spares D m1 m2 → spares D m2 m3 → spares D m1 m3.
Proof. intros H1 H2 i Hi. by rewrite H2, H1. Qed.

(** What every table operation gives. *)
Definition fine (D : TransferJobId → Prop) (m m' : ManagerState) : Prop := steady m m' ∧ spares D m m'.

Lemma fine_refl D m : fine D m m.
Proof. split; [reflexivity|done]. Qed.
Lemma fine_trans D m1 m2 m3 : fine D m1 m2 → fine D m2 m3 → fine D m1 m3.
Proof. intros [A1 B1] [A2 B2]. split; [by etransitivity|by eapply spares_trans]. Qed.
Lemma fine_weaken (D D' : TransferJobId → Prop) m m' : (∀ i, D i → D' i) → fine D m m' → fine D' m m'.
Proof. intros H [A B]. split; [done|by eapply spares_weaken]. Qed.
Lemma fine_trim D m : wf m → fine D m (trim_history_locked m).
Proof. intros Hwf. destruct (trim_steady m Hwf) as [A B]. split; [done|]. eapply spares_weaken; [|done]. done. Qed.
Lemma fine_same D m m' : jobs m' = jobs m → order m' = order m → fine D m m'.
Proof. intros Ej Eo. unfold fine, spares, nt. split; [split; unfold wf, nt; rewrite ?Ej, ?Eo; auto|by rewrite Ej]. Qed.

Lemma fine_insert (D : TransferJobId → Prop) m id j j' : jobs m !! id = Some j →
  (unfinished j' = true → unfinished j = true) → (unfinished j' ≠ unfinished j → D id) →
  fine D m (set_jobs m (<[id := j']> (jobs m)) (order m)).
Proof.
  intros E H1 H2. destruct (insert_steady m id j j' E H1) as [A B]. split; [done|].
  eapply spares_weaken; [|done]. intros i [-> Hu]. auto.
Qed.

(** Change a record, then trim. *)
Lemma fine_then_trim D m m' : wf m → fine D m m' → fine D m (trim_history_locked m').
Proof. intros Hwf H. eapply fine_trans; [exact H|]. apply fine_trim. by apply (st_wf _ _ (proj1 H)). Qed.

Lemma fine_set_state id s m : wf m → (terminal s = false → nt m id = true) →
  fine (λ i, i = id ∧ terminal s = true) m (set_state id s m).
Proof.
  intros Hwf Hnt. unfold set_state. destruct (poisoned m); [apply fine_refl|].
  destruct (jobs m !! id) as [j|] eqn:E; [|apply fine_refl]. unfold nt in Hnt. rewrite E in Hnt. destruct (terminal s) eqn:Es.
  - apply fine_then_trim; [done|]. eapply fine_insert; [done| |done]. unfold unfinished, is_terminal. cbn. by rewrite Es.
  - eapply fine_insert; [done|by rewrite Hnt|]. rewrite Hnt by done. unfold unfinished, is_terminal. cbn. by rewrite Es.
Qed.

Lemma fine_finish s id e m : wf m → terminal s = true → fine (λ i, i = id) m (finish_with s id e m).
Proof.
  intros Hwf Hs. unfold finish_with. destruct (poisoned m); [apply fine_refl|]. apply fine_then_trim; [done|].
  destruct (jobs m !! id) as [j|] eqn:E; [|apply fine_refl]. eapply fine_insert; [done| |done].
  unfold unfinished, is_terminal. cbn. by rewrite Hs.
Qed.

Lemma fine_finish_job id r m : wf m → fine (λ i, i = id) m (finish_job id r m).
Proof.
  intros Hwf. unfold finish_job, finish_unknown, finish_error.
  destruct r as [[]|e]; repeat case_match; try (by apply fine_finish);
    (eapply fine_weaken; [|by apply fine_set_state]); naive_solver.
Qed.

Lemma fine_enter id m : nt m id = true → fine (λ _, False) m (enter_finalizing id m).2.
Proof.
  intros Hnt. unfold enter_finalizing. destruct (poisoned m); [apply fine_refl|].
  destruct (jobs m !! id) as [j|] eqn:E; [|apply fine_refl]. case_match; [apply fine_refl|]. cbn [snd].
  unfold nt in Hnt. rewrite E in Hnt. eapply fine_insert; [done|done|]. by rewrite Hnt.
Qed.

Lemma fine_progress id n m : fine (λ _, False) m (progress id n m).
Proof.
  unfold progress. destruct (poisoned m); [apply fine_refl|]. destruct (jobs m !! id) as [j|] eqn:E; [|apply fine_refl].
  by eapply fine_insert.
Qed.

Lemma fine_unconfirmed id m : fine (λ _, False) m (mark_unconfirmed id m).
Proof.
  unfold mark_unconfirmed. destruct (poisoned m); [apply fine_refl|]. destruct (jobs m !! id) as [j|] eqn:E; [|apply fine_refl].
  by eapply fine_insert.
Qed.

Lemma fine_spawned id m : fine (λ _, False) m (cleanup_spawned id m).
Proof. unfold cleanup_spawned. destruct (poisoned m); [apply fine_refl|]. by apply fine_same. Qed.

Lemma fine_answered id b m : wf m → fine (λ i, i = id) m (cleanup_answered id b m).
Proof.
  intros Hwf. unfold cleanup_answered, finish_error. set (m1 := if b then m else mark_unconfirmed id m).
  assert (fine (λ i, i = id) m m1) as H1.
  { subst m1. destruct b; [apply fine_refl|]. eapply fine_weaken; [|apply fine_unconfirmed]. done. }
  pose proof (st_wf _ _ (proj1 H1) Hwf) as Hwf1. eapply fine_trans; [exact H1|].
  match goal with |- context [finish_with TFailed id ?e m1] => pose proof (fine_finish TFailed id e m1 Hwf1 eq_refl) as H2 end.
  eapply fine_trans; [exact H2|]. destruct (poisoned (finish_with _ _ _ _)); [apply fine_refl|]. by apply fine_same.
Qed.

Lemma cancellable_unfinished s : cancellable s = true → terminal s = false.
Proof. by destruct s. Qed.

Lemma fine_cancel id h hs f m : fine (λ _, False) m (cancel id h hs f m).2.
Proof.
  unfold cancel. destruct (poisoned m); [apply fine_refl|]. destruct (jobs m !! id) as [j|] eqn:E; [|apply fine_refl].
  case_match; [apply fine_refl|]. cbn [snd]. unfold request_cancel. destruct (cancellable _) eqn:Ec; [|apply fine_refl].
  apply cancellable_unfinished in Ec.
  apply (fine_trans _ _ (set_jobs m (<[id := job_with j (with_state (jr_view j) CancelRequested)]> (jobs m)) (order m)));
    [|by apply fine_same].
  eapply fine_insert; [done| |]; unfold unfinished, is_terminal; cbn; by rewrite Ec.
Qed.

Lemma fine_cancel_where f m : fine (λ _, False) m (cancel_where f m).
Proof.
  assert (∀ i, is_Some (jobs (cancel_where f m) !! i) ↔ is_Some (jobs m !! i)) as Hd.
  { intros i. cbn. rewrite lookup_fmap. by rewrite fmap_is_Some. }
  assert (∀ i, nt (cancel_where f m) i = nt m i) as Hn.
  { intros i. unfold nt. cbn. rewrite lookup_fmap. destruct (jobs m !! i) as [j|]; [|done]. cbn.
    destruct (f j && cancellable (tj_state (jr_view j)))%bool eqn:E; [|done]. split_bools.
    unfold unfinished, is_terminal. cbn. by rewrite cancellable_unfinished. }
  split; [split|].
  - intros [H1 H2]. split; [done|]. intros i. rewrite Hd. apply H2.
  - intros i. by rewrite Hd.
  - intros i. by rewrite Hn.
  - intros i _. apply Hn.
Qed.

Lemma fine_disconnect h hs m : fine (λ _, False) m (disconnect h hs m).
Proof. unfold disconnect. case_match; [apply fine_refl|].
  match goal with |- fine _ m (cancel_where _ ?m1) => apply (fine_trans _ _ m1); [by apply fine_same|apply fine_cancel_where] end.
Qed.
Lemma fine_shutdown m : fine (λ _, False) m (shutdown m).
Proof. unfold shutdown. case_match; [apply fine_refl|].
  match goal with |- fine _ m (cancel_where _ ?m1) => apply (fine_trans _ _ m1); [by apply fine_same|apply fine_cancel_where] end.
Qed.

(** ** Programs that end once they hand their staging file to the cleanup task *)

Definition spawns (c : call) : bool := match c with CSpawnCleanup _ => true | _ => false end.
Definition no_spawn (c : call) : bool := negb (spawns c).

Fixpoint spawn_last {A} (p : prg (Res A)) : Prop :=
  match p with
  | Ret _ => True
  | Do c k => ∀ r, (spawns c = true → ∃ e, k r = Ret (Err e)) ∧ spawn_last (k r)
  end.

Lemma no_spawn_last {A} (p : prg (Res A)) : only no_spawn p → spawn_last p.
Proof.
  induction p as [a|c k IH]; [done|]. intros [Hc Hk] r. split; [|by apply IH].
  intros Hs. unfold no_spawn in Hc. by rewrite Hs in Hc.
Qed.

Lemma spawn_last_bind {A B} (p : prg A) (f : A → prg (Res B)) :
  only no_spawn p → (∀ a, spawn_last (f a)) → spawn_last (pbind p f).
Proof.
  intros Hp Hf. induction p as [a|c k IH]; [apply Hf|]. destruct Hp as [Hc Hk]. intros r. split; [|by apply IH].
  intros Hs. unfold no_spawn in Hc. by rewrite Hs in Hc.
Qed.

Lemma spawn_last_io_bind {A B} (m : iop A) (f : A → iop B) :
  spawn_last (m : prg _) → (∀ a, spawn_last (f a : prg _)) → spawn_last (m ≫= f : prg _).
Proof.
  intros Hm Hf. unfold mbind, io_bind. induction m as [[a|e]|c k IH]; [apply Hf|done|].
  intros r. destruct (Hm r) as [H1 H2]. split; [|by apply IH]. intros Hs. destruct (H1 Hs) as [e ->]. by exists e.
Qed.

Lemma looks_no_spawn {A} (p : prg A) : only looks p → only no_spawn p.
Proof. induction p as [a|c k IH]; cbn; [done|]. intros [Hc Hk]. split; [by destruct c|auto]. Qed.
Lemma fail_clean_no_spawn {A} owned staging e : only no_spawn (fail_clean (A := A) owned staging e : prg _).
Proof. unfold fail_clean. apply only_io_bind; [by apply cleanup_only|done]. Qed.
Lemma or_clean_no_spawn {A} owned staging (m : iop A) : only no_spawn (m : prg _) → only no_spawn (or_clean owned staging m : prg _).
Proof. intros Hm. unfold or_clean. apply only_bind; [done|]. intros [a|e]; [done|apply fail_clean_no_spawn]. Qed.
Lemma finish_commit_no_spawn owned staging m r : only no_spawn (finish_commit owned staging m r : prg _).
Proof.
  unfold finish_commit. destruct r; [done|]. apply only_bind; [by apply cleanup_only|].
  intros [a|e']; [done|]. by case_match.
Qed.
Lemma fail_drop_spawn_last {A} owned staging e : spawn_last (fail_drop (A := A) owned staging e : prg _).
Proof. unfold fail_drop, drop_guard. destruct owned; cbn; [|done]. intros r. split; [by eexists|done]. Qed.
Lemma owned_failure_no_spawn {A} owned staging c e : only no_spawn (owned_failure (A := A) owned staging c e : prg _).
Proof. unfold owned_failure. apply only_io_bind; [by apply cleanup_only|]. intros _. only_block. Qed.

Ltac spawn_block :=
  repeat first
  [ done
  | apply fail_drop_spawn_last
  | apply no_spawn_last, owned_failure_no_spawn
  | apply no_spawn_last, finish_commit_no_spawn
  | apply no_spawn_last, or_clean_no_spawn;
      first [apply looks_no_spawn, validate_local_source_looks | solve [only_block]]
  | apply no_spawn_last, looks_no_spawn, validate_local_source_looks
  | apply no_spawn_last, looks_no_spawn, validate_local_directory_handle_looks
  | apply no_spawn_last, looks_no_spawn, local_identity_looks
  | unfold ensure_clean at 1; case_match; [apply no_spawn_last, fail_clean_no_spawn|done]
  | apply spawn_last_io_bind; [|intros ?]
  | apply spawn_last_bind; [solve [only_block]|intros ?]
  | apply no_spawn_last; solve [only_block]
  | match goal with |- spawn_last (match ?x with _ => _ end) => destruct x end
  | progress cbn zeta ].

Lemma run_transfer_spawn_last digest simple id spec : spawn_last (run_transfer digest simple id spec : prg _).
Proof.
  unfold run_transfer. destruct (skips _); [done|].
  destruct (js_source spec) as [s|s|b e o], (js_destination spec) as [p a|d n a]; try done.
  - unfold run_upload. spawn_block.
  - unfold run_download. spawn_block.
  - unfold run_editor_save. spawn_block.
Qed.

(** ** The table and the tasks agree *)

(** The task has nothing left to do but report its outcome. *)
Definition at_end (k : Task) : bool := match tk_phase k with PRun (Ret _) => true | _ => false end.

Section Agree.
Implicit Types (y : TSys).

Record Agree y : Prop := {
  g_wf : wf (mgr y);
  g_cap : count_jobs unfinished (mgr y) ≤ JOB_CAP;
  g_used : ∀ i, is_Some (jobs (mgr y) !! i) → i ∈ used y;
  g_tasks_used : ∀ i, is_Some (tasks y !! i) → i ∈ used y;
  g_job_task : ∀ i, nt (mgr y) i = true → is_Some (tasks y !! i);
  g_task_job : ∀ i k, tasks y !! i = Some k → at_end k = false → nt (mgr y) i = true;
  g_cleanup : ∀ i, i ∈ cleanup_tasks (mgr y) → i ∈ used y ∧ ∀ k, tasks y !! i = Some k → at_end k = true;
  g_spawn : ∀ i spec p, tasks y !! i = Some {| tk_spec := spec; tk_phase := PRun p |} → spawn_last p
}.

Lemma agree_new : Agree tsys_new.
Proof.
  split; cbn; try (intros i; rewrite ?lookup_empty; try (by intros [? ?]); done).
  - split; [constructor|]. intros i. cbn. rewrite lookup_empty. split; [by intros ?%elem_of_nil|by intros [? ?]].
Qed.

(** Steps that change the table only, and no cleanup set. *)
Lemma agree_fine y m : Agree y → fine (λ _, False) (mgr y) m → cleanup_tasks m ⊆ cleanup_tasks (mgr y) → Agree (set_mgr y m).
Proof.
  intros [A B C D E F G H] [Hst Hsp] Hcl. split; cbn; try done.
  - by apply (st_wf _ _ Hst).
  - pose proof (steady_count _ _ Hst). lia.
  - intros i Hi. by apply C, (st_ids _ _ Hst).
  - intros i Hi. by apply E, (st_nt _ _ Hst).
  - intros i k Hk He. rewrite Hsp by (by intros []). eauto.
  - intros i Hi. apply G. set_solver.
Qed.

Lemma trim_cleanup k m : cleanup_tasks (trim_rounds k m) = cleanup_tasks m.
Proof.
  revert m. induction k as [|k IH]; intros m; cbn [trim_rounds]; [done|]. case_match; [|done].
  destruct (remove_first _ _) as [[id l]|]; [|done]. by rewrite IH.
Qed.

Lemma set_state_cleanup id s m : cleanup_tasks (set_state id s m) = cleanup_tasks m.
Proof. unfold set_state, trim_history_locked. repeat case_match; cbn; rewrite ?trim_cleanup; done. Qed.
Lemma finish_cleanup s id e m : cleanup_tasks (finish_with s id e m) = cleanup_tasks m.
Proof. unfold finish_with, trim_history_locked. repeat case_match; cbn; rewrite ?trim_cleanup; done. Qed.
Lemma finish_job_cleanup id r m : cleanup_tasks (finish_job id r m) = cleanup_tasks m.
Proof.
  unfold finish_job, finish_unknown, finish_error. repeat case_match; rewrite ?set_state_cleanup, ?finish_cleanup; done.
Qed.
Lemma unconfirmed_cleanup id m : cleanup_tasks (mark_unconfirmed id m) = cleanup_tasks m.
Proof. unfold mark_unconfirmed. by repeat case_match. Qed.
Lemma enter_cleanup id m : cleanup_tasks (enter_finalizing id m).2 = cleanup_tasks m.
Proof. unfold enter_finalizing. by repeat case_match. Qed.
Lemma answered_cleanup id b m : cleanup_tasks (cleanup_answered id b m) ⊆ cleanup_tasks m.
Proof.
  unfold cleanup_answered, finish_error. repeat case_match; cbn; rewrite ?finish_cleanup, ?unconfirmed_cleanup; set_solver.
Qed.

(** A waiting or running task moves on without ending. *)
Lemma agree_task y id k k' m :
  Agree y → tasks y !! id = Some k → at_end k = false →
  fine (λ _, False) (mgr y) m →
  (∀ i, i ∈ cleanup_tasks m → i ∈ cleanup_tasks (mgr y) ∨ (i = id ∧ at_end k' = true)) →
  (∀ p, tk_phase k' = PRun p → spawn_last p) →
  ∀ lg fin, Agree {| mgr := m; tasks := <[id := k']> (tasks y); used := used y; tlog := lg; finalized := fin; outcomes := outcomes y |}.
Proof.
  intros [A B C D E F G H] Hid Hend [Hst Hsp] Hcl Hspn lg fin. split; cbn; try done.
  - by apply (st_wf _ _ Hst).
  - pose proof (steady_count _ _ Hst). lia.
  - intros i Hi. by apply C, (st_ids _ _ Hst).
  - intros i Hi. apply D. rewrite lookup_insert_is_Some' in Hi. destruct Hi as [<-|Hi]; [by eexists|done].
  - intros i Hi. apply lookup_insert_is_Some'. right. by apply E, (st_nt _ _ Hst).
  - intros i k0 Hk He. rewrite Hsp by (by intros []). destruct (decide (i = id)) as [->|Hne]; [by eapply F|].
    rewrite lookup_insert_ne in Hk by done. eauto.
  - intros i Hi. destruct (Hcl i Hi) as [Hi'|[-> He]].
    + destruct (G i Hi') as [Hu Hk]. split; [done|]. intros k0. destruct (decide (i = id)) as [->|Hne].
      * specialize (Hk _ Hid). congruence.
      * rewrite lookup_insert_ne by done. apply Hk.
    + split; [by apply D; eexists|]. intros k0. rewrite lookup_insert_eq. by intros [= <-].
  - intros i spec p. destruct (decide (i = id)) as [->|Hne].
    + rewrite lookup_insert_eq. intros [= ->]. by apply Hspn.
    + rewrite lookup_insert_ne by done. apply H.
Qed.

(** A task ends and its job with it. *)
Lemma agree_end y id m : ∀ o, Agree y → fine (λ i, i = id) (mgr y) m → nt m id = false →
  cleanup_tasks m ⊆ cleanup_tasks (mgr y) →
  Agree {| mgr := m; tasks := delete id (tasks y); used := used y; tlog := tlog y; finalized := finalized y; outcomes := o |}.
Proof.
  intros o [A B C D E F G H] [Hst Hsp] Hnt Hcl. split; cbn; try done.
  - by apply (st_wf _ _ Hst).
  - pose proof (steady_count _ _ Hst). lia.
  - intros i Hi. by apply C, (st_ids _ _ Hst).
  - intros i [k [_ Hk]%lookup_delete_Some]. apply D. by exists k.
  - intros i Hi. destruct (decide (i = id)) as [->|Hne]; [congruence|]. rewrite lookup_delete_ne by done.
    by apply E, (st_nt _ _ Hst).
  - intros i k [Hne Hk]%lookup_delete_Some He. rewrite Hsp by auto. eauto.
  - intros i Hi. destruct (G i) as [Hu Hk]; [set_solver|]. split; [done|]. intros k [_ ?]%lookup_delete_Some. auto.
  - intros i spec p [_ Hi]%lookup_delete_Some. eauto.
Qed.

Lemma agree_cleanup y id m : Agree y → id ∈ cleanup_tasks (mgr y) → fine (λ i, i = id) (mgr y) m →
  cleanup_tasks m ⊆ cleanup_tasks (mgr y) → Agree (set_mgr y m).
Proof.
  intros [A B C D E F G H] Hid [Hst Hsp] Hcl. split; cbn; try done.
  - by apply (st_wf _ _ Hst).
  - pose proof (steady_count _ _ Hst). lia.
  - intros i Hi. by apply C, (st_ids _ _ Hst).
  - intros i Hi. by apply E, (st_nt _ _ Hst).
  - intros i k Hk He. rewrite Hsp; [eauto|]. intros ->. destruct (G _ Hid) as [_ Hg]. rewrite (Hg _ Hk) in He. done.
  - intros i Hi. apply G. set_solver.
Qed.

Lemma nt_trim m i : wf m → nt (trim_history_locked m) i = nt m i.
Proof. intros Hwf. destruct (trim_steady m Hwf) as [_ Hs]. apply Hs. by intros []. Qed.

Lemma nt_set_terminal id s m : wf m → poisoned m = false → terminal s = true → nt (set_state id s m) id = false.
Proof.
  intros Hwf Hp Hs. unfold set_state. rewrite Hp, Hs. destruct (jobs m !! id) as [j|] eqn:E; [|unfold nt; by rewrite E].
  rewrite nt_trim; [|eapply (st_wf m); [|done]; eapply insert_steady; [done|]; unfold unfinished, is_terminal; cbn; by rewrite Hs].
  unfold nt. cbn. rewrite lookup_insert_eq. unfold unfinished, is_terminal. cbn. by rewrite Hs.
Qed.

Lemma nt_finish id s e m : wf m → poisoned m = false → terminal s = true → nt (finish_with s id e m) id = false.
Proof.
  intros Hwf Hp Hs. unfold finish_with. rewrite Hp. destruct (jobs m !! id) as [j|] eqn:E.
  2: { rewrite nt_trim by done. unfold nt. by rewrite E. }
  rewrite nt_trim; [|eapply (st_wf m); [|done]; eapply insert_steady; [done|]; unfold unfinished, is_terminal; cbn; by rewrite Hs].
  unfold nt. cbn. rewrite lookup_insert_eq. unfold unfinished, is_terminal. cbn. by rewrite Hs.
Qed.

Lemma nt_finish_job id r m : wf m → poisoned m = false → nt (finish_job id r m) id = false.
Proof.
  intros Hwf Hp. unfold finish_job, finish_unknown, finish_error.
  destruct r as [[]|e]; repeat case_match; auto using nt_set_terminal, nt_finish.
Qed.

(** ** Admission *)

Lemma new_unfinished id spec :
  unfinished {| jr_view := new_job id spec; active_spec := Some spec; cleanup_unconfirmed := false |} = true.
Proof. unfold unfinished, is_terminal, new_job. by destruct (labels spec) as [[? ?] ?]. Qed.

Definition admitted (specs : list (TransferJobId * JobSpec)) (m m' : ManagerState) : Prop :=
  wf m' ∧ count_jobs unfinished m' = count_jobs unfinished m + zlen specs ∧
  (∀ i, is_Some (jobs m' !! i) ↔ i ∈ map fst specs ∨ is_Some (jobs m !! i)) ∧
  (∀ i, nt m' i = bool_decide (i ∈ map fst specs) || nt m i) ∧ cleanup_tasks m' = cleanup_tasks m.

Lemma enqueue_one_admits m p : wf m → jobs m !! p.1 = None → admitted [p] m (enqueue_one m p).
Proof.
  intros [Hnd Hdom] Hf. destruct p as [id spec]. cbn in Hf. cbn [enqueue_one]. split_and!.
  - split; cbn.
    + apply list.NoDup_app. split; [done|]. split; [|apply NoDup_singleton].
      intros i Hi ->%list_elem_of_singleton. apply Hdom in Hi as [? ?]. congruence.
    + intros i. rewrite elem_of_app, list_elem_of_singleton, lookup_insert_is_Some', Hdom. naive_solver.
  - unfold count_jobs. cbn. rewrite count_map_insert_fresh by done. by rewrite new_unfinished.
  - intros i. cbn. rewrite lookup_insert_is_Some', list_elem_of_singleton. naive_solver.
  - intros i. unfold nt. cbn [jobs set_jobs map fst]. destruct (decide (i = id)) as [->|Hne].
    + rewrite lookup_insert_eq, new_unfinished. by rewrite bool_decide_true by (by apply list_elem_of_singleton).
    + rewrite lookup_insert_ne by done. rewrite bool_decide_false; [done|]. by intros ?%list_elem_of_singleton.
  - done.
Qed.

Lemma enqueue_all_admits specs m : wf m → NoDup (map fst specs) → (∀ i, i ∈ map fst specs → jobs m !! i = None) →
  admitted specs m (foldl enqueue_one m specs).
Proof.
  revert m. induction specs as [|p specs IH]; intros m Hwf Hnd Hf; cbn [foldl].
  - split_and!; [done|cbn; lia| | |done].
    + intros i. cbn. split; [auto|]. intros [?%elem_of_nil|?]; done.
    + intros i. cbn. rewrite bool_decide_false; [done|]. by intros ?%elem_of_nil.
  - cbn [map] in *. apply list.NoDup_cons in Hnd as [Hni Hnd].
    destruct (enqueue_one_admits m p Hwf) as (A1 & A2 & A3 & A4 & A5); [apply Hf, elem_of_cons; by left|].
    destruct (IH (enqueue_one m p) A1 Hnd) as (B1 & B2 & B3 & B4 & B5).
    { intros i Hi. apply eq_None_not_Some. rewrite A3. cbn. intros [Hs%list_elem_of_singleton|[j Hj]].
      - subst. done.
      - rewrite Hf in Hj; [done|]. apply elem_of_cons. by right. }
    split_and!.
    + done.
    + rewrite B2, A2. cbn. lia.
    + intros i. rewrite B3, A3. cbn [map]. rewrite !elem_of_cons, elem_of_nil. naive_solver.
    + intros i. rewrite B4, A4. cbn [map]. rewrite orb_assoc. f_equal. apply eq_bool_prop_intro.
      rewrite orb_True, !bool_decide_spec, !elem_of_cons, elem_of_nil. naive_solver.
    + congruence.
Qed.

Lemma spawned_is_some specs (t : gmap TransferJobId Task) i :
  is_Some ((list_to_map (map spawn specs) ∪ t) !! i) ↔ i ∈ map fst specs ∨ is_Some (t !! i).
Proof.
  rewrite lookup_union_is_Some. assert (is_Some ((list_to_map (map spawn specs) : gmap TransferJobId Task) !! i) ↔ i ∈ map fst specs) as ->; [|done].
  rewrite <-elem_of_dom, dom_list_to_map, elem_of_list_to_set. by rewrite <-list_fmap_compose.
Qed.

Lemma agree_enqueue y specs : Agree y → NoDup (map fst specs) → (∀ id, id ∈ map fst specs → id ∉ used y) →
  Agree (enqueue specs y).
Proof.
  intros Ag Hnd Hu. unfold enqueue, enqueue_batch.
  assert (∀ m, fine (λ _, False) (mgr y) m → cleanup_tasks m = cleanup_tasks (mgr y) →
    Agree {| mgr := m; tasks := tasks y; used := list_to_set (map fst specs) ∪ used y; tlog := tlog y;
             finalized := finalized y; outcomes := outcomes y |}) as Hrefuse.
  { intros m Hm Hc. destruct (agree_fine y m Ag Hm) as [A B C D E F G H]; [set_solver|]. cbn in *.
    split; cbn; try done; [set_solver|set_solver|]. intros i Hi. destruct (G i Hi). split; [set_solver|done]. }
  destruct specs as [|p specs].
  { change (list_to_map (map spawn [])) with (∅ : gmap TransferJobId Task). rewrite map_empty_union.
    apply Hrefuse; [apply fine_refl|done]. }
  destruct (poisoned (mgr y)); [apply Hrefuse; [apply fine_refl|done]|].
  destruct (_ || _)%bool; [apply Hrefuse; [apply fine_refl|done]|].
  pose proof (g_wf _ Ag) as Hwf. pose proof (fine_trim (λ _, False) _ Hwf) as Hft.
  destruct (saturating_sub _ _ <? _) eqn:Ecap; [apply Hrefuse; [done|apply trim_cleanup]|].
  apply Z.ltb_ge in Ecap. set (m1 := trim_history_locked (mgr y)) in *.
  destruct (enqueue_all_admits (p :: specs) m1) as (A1 & A2 & A3 & A4 & A5); [by apply (st_wf _ _ (proj1 Hft))|done| |].
  { intros i Hi. apply eq_None_not_Some. intros Hs. apply (Hu i Hi), (g_used _ Ag). by apply (st_ids _ _ (proj1 Hft)). }
  destruct Ag as [A B C D E F G H]. destruct Hft as [Hst Hsp].
  split; cbn [mgr tasks used tlog finalized outcomes].
  - done.
  - rewrite A2. pose proof (steady_count _ _ Hst). unfold saturating_sub in Ecap.
    change (count_jobs (λ j : JobRecord, negb (is_terminal j)) m1) with (count_jobs unfinished m1) in Ecap.
    cbn [length] in *. lia.
  - intros i [Hi|Hi]%A3; [apply elem_of_union_l; by apply elem_of_list_to_set|]. apply elem_of_union_r, C. by apply (st_ids _ _ Hst).
  - intros i [Hi|Hi]%spawned_is_some; [apply elem_of_union_l; by apply elem_of_list_to_set|]. by apply elem_of_union_r, D.
  - intros i. rewrite A4, orb_true_iff, bool_decide_eq_true, spawned_is_some. intros [?|Hn]; [by left|]. right.
    by apply E, (st_nt _ _ Hst).
  - intros i k Hk He. rewrite A4, orb_true_iff, bool_decide_eq_true. apply spawned_lookup in Hk as [Hk|(_ & Hk & _)]; [|by left|].
    + right. rewrite Hsp by (by intros []). eauto.
    + intros id Hid. apply eq_None_not_Some. intros Hs. by apply (Hu id Hid), D.
  - intros i. rewrite A5. unfold m1, trim_history_locked. rewrite trim_cleanup. intros Hi. destruct (G i Hi) as [Hi1 Hi2].
    split; [by apply elem_of_union_r|]. intros k Hk. apply spawned_lookup in Hk as [Hk|(_ & Hk & _)]; [by apply Hi2| |].
    + by destruct (Hu i Hk).
    + intros id Hid. apply eq_None_not_Some. intros Hs. by apply (Hu id Hid), D.
  - intros i spec q Hk. apply spawned_lookup in Hk as [Hk|(_ & _ & Hk)]; [eauto|discriminate Hk|].
    intros id Hid. apply eq_None_not_Some. intros Hs. by apply (Hu id Hid), D.
Qed.

Lemma agree_call y id spec c k r m lg fin :
  Agree y → tasks y !! id = Some {| tk_spec := spec; tk_phase := PRun (Do c k) |} → answers id (mgr y) c r m →
  (∀ s, c = CSetState s → terminal s = false) →
  Agree {| mgr := m; tasks := <[id := {| tk_spec := spec; tk_phase := PRun (k r) |}]> (tasks y); used := used y;
           tlog := lg; finalized := fin; outcomes := outcomes y |}.
Proof.
  intros Ag Hid Ha Hns. pose proof (g_task_job _ Ag _ _ Hid eq_refl) as Hnt. pose proof (g_spawn _ Ag _ _ _ Hid r) as [Hsp1 Hsp2].
  eapply agree_task; [done|done|done| | |intros p [= <-]; done].
  - unfold answers in Ha. destruct c; cbn in Ha; try (subst; apply fine_refl).
    + destruct Ha as [_ ->]. specialize (Hns _ eq_refl).
      eapply fine_weaken; [|apply fine_set_state; [apply Ag|done]]. intros i [_ ?]. congruence.
    + destruct (enter_finalizing id (mgr y)) as [r0 m0] eqn:E. destruct Ha as [_ ->].
      pose proof (fine_enter id (mgr y) Hnt) as Hf. by rewrite E in Hf.
    + destruct Ha as [_ ->]. apply fine_refl.
    + destruct Ha as [_ ->]. apply fine_unconfirmed.
    + destruct Ha as [_ ->]. apply fine_spawned.
  - intros i. unfold answers in Ha. destruct c; cbn in Ha; try (subst m; by left).
    + destruct Ha as [_ ->]. rewrite set_state_cleanup. auto.
    + destruct (enter_finalizing id (mgr y)) as [r0 m0] eqn:E. destruct Ha as [_ ->].
      pose proof (enter_cleanup id (mgr y)) as Hc. rewrite E in Hc. cbn in Hc. rewrite Hc. auto.
    + destruct Ha as [_ ->]. auto.
    + destruct Ha as [_ ->]. rewrite unconfirmed_cleanup. auto.
    + destruct Ha as [_ ->]. unfold cleanup_spawned. destruct (poisoned (mgr y)); [auto|]. cbn.
      intros [->%elem_of_singleton|?]%elem_of_union; [|auto]. right. split; [done|].
      destruct (Hsp1 eq_refl) as [e ->]. done.
Qed.

(** A program only ever sets working states itself. *)
Definition works (c : call) : bool := match c with CSetState s => negb (terminal s) | _ => true end.

End Agree.

Lemma early_works {A} (p : prg A) (f : call → bool) : (∀ c, f c = true → works c = true) → only f p → only works p.
Proof. intros Hf. induction p as [a|c k IH]; [done|]. intros [Hc Hk]. split; auto. Qed.
Lemma looks_works {A} (p : prg A) : only looks p → only works p.
Proof. apply early_works. by intros []. Qed.

Ltac works_block :=
  repeat first
  [ done
  | apply looks_works, validate_local_source_looks
  | apply looks_works, validate_local_directory_handle_looks
  | apply looks_works, local_identity_looks
  | apply cleanup_only; [by intros|done]
  | progress unfold or_clean, ensure_clean, fail_clean, fail_drop, drop_guard, owned_failure, finish_commit
  | apply only_io_bind; [|intros ?]
  | apply only_bind; [|intros ?]
  | split; [reflexivity|intros ?]
  | match goal with |- only works (match ?x with _ => _ end) => destruct x end
  | progress cbn zeta ].

Lemma run_transfer_works digest simple id spec : only works (run_transfer digest simple id spec : prg _).
Proof.
  unfold run_transfer. destruct (skips _); [done|].
  destruct (js_source spec) as [s|s|b e o], (js_destination spec) as [p a|d n a]; try done.
  - unfold run_upload. works_block.
  - unfold run_download. works_block.
  - unfold run_editor_save. works_block.
Qed.

Section Reach.
Context (digest : list Z → Digest) (simple : TransferJobId → str).
Context (show_uuid : N → str) (to_lowercase : str → str).
Abbreviation step := (tstep digest simple show_uuid to_lowercase).
Implicit Types (y : TSys).

Record table y : Prop := {
  tb_live : Live digest simple show_uuid to_lowercase y;
  tb_agree : Agree y;
  tb_works : ∀ i spec p, tasks y !! i = Some {| tk_spec := spec; tk_phase := PRun p |} → only works p
}.
Lemma works_step y y' : table y → step y y' →
  ∀ i spec p, tasks y' !! i = Some {| tk_spec := spec; tk_phase := PRun p |} → only works p.
Proof.
  intros [L Ag W] Hs i spec p. destruct Hs; cbn [tasks set_mgr set_task]; try (by apply W);
    try (intros [_ Hi]%lookup_delete_Some; by apply (W _ _ _ Hi)).
  - unfold enqueue. destruct (enqueue_batch specs (mgr y)) as [[l|e] m]; cbn [tasks]; [|by apply W].
    intros Hk. apply spawned_lookup in Hk as [Hk|(_ & _ & Hk)]; [by apply (W _ _ _ Hk)|discriminate Hk|].
    intros id Hid. apply eq_None_not_Some. intros Hs. by apply (H0 id Hid), (g_tasks_used _ Ag).
  - destruct (decide (i = id)) as [->|Hne]; [rewrite lookup_insert_eq; discriminate|rewrite lookup_insert_ne by done; apply W].
  - destruct (decide (i = id)) as [->|Hne]; [rewrite lookup_insert_eq; discriminate|rewrite lookup_insert_ne by done; apply W].
  - destruct (decide (i = id)) as [->|Hne]; [|rewrite lookup_insert_ne by done; apply W].
    rewrite lookup_insert_eq. intros [= <- <-]. apply run_transfer_works.
  - destruct (decide (i = id)) as [->|Hne]; [|rewrite lookup_insert_ne by done; apply W].
    rewrite lookup_insert_eq. intros [= <- <-]. by apply (W _ _ _ H).
Qed.

Lemma agree_step y y' : table y → step y y' → Agree y'.
Proof.
  intros [L Ag W] Hs. pose proof (l_poisoned _ _ _ _ _ L) as Hp. pose proof (g_wf _ Ag) as Hwf. destruct Hs.
  - by apply agree_enqueue.
  - apply agree_fine; [done|apply (fine_cancel id h hs f (mgr y))|]. unfold cancel, request_cancel. by repeat case_match.
  - apply agree_fine; [done|apply fine_disconnect|]. unfold disconnect. by case_match.
  - apply agree_fine; [done|apply fine_shutdown|]. unfold shutdown. by case_match.
  - apply agree_fine; [done|apply fine_progress|]. unfold progress. by repeat case_match.
  - eapply agree_cleanup; [done|done|by apply fine_answered|apply answered_cleanup].
  - apply agree_end; [done| |by apply nt_set_terminal|by rewrite set_state_cleanup].
    eapply fine_weaken; [|by apply fine_set_state]. naive_solver.
  - eapply (agree_task y id _ _ _ Ag H); [done|apply fine_refl|by auto|done].
  - eapply (agree_task y id _ _ _ Ag H); [done| |intros i; rewrite set_state_cleanup; auto|done].
    eapply fine_weaken; [|apply fine_set_state; [done|]]; [by intros i [_ ?]|].
    intros _. by apply (g_task_job _ Ag _ _ H).
  - eapply (agree_task y id _ _ _ Ag H); [done|apply fine_refl|by auto|].
    intros p [= <-]. apply run_transfer_spawn_last.
  - eapply agree_call; [done|done|done|]. intros s ->. destruct (W _ _ _ H) as [Hw _]. by apply negb_true_iff in Hw.
  - apply agree_end; [done|by apply fine_finish_job|by apply nt_finish_job|by rewrite finish_job_cleanup].
Qed.

Lemma table_reachable y : treachable digest simple show_uuid to_lowercase y → table y.
Proof.
  unfold treachable. intros H. remember tsys_new as y0 eqn:E.
  assert (table y0) as T0.
  { subst. split; [apply live_reachable; unfold treachable; reflexivity|apply agree_new|]. intros i spec p. cbn. by rewrite lookup_empty. }
  clear E. induction H as [y|y y1 y2 Hs H IH]; [done|]. apply IH.
  split; [eapply live_step; [apply T0|done]|by eapply agree_step|by eapply works_step].
Qed.

(** The queue is bounded and no job is lost: at most 100 jobs are
    unfinished however they are queued, the job list and the job table agree,
    every unfinished job has a task that works on it, and every task that has
    something left to do has its unfinished job in the table. *)
Theorem queue_is_bounded_and_served y :
  treachable digest simple show_uuid to_lowercase y →
  count_jobs unfinished (mgr y) ≤ JOB_CAP ∧ wf (mgr y) ∧
  (∀ i, nt (mgr y) i = true → is_Some (tasks y !! i)) ∧
  (∀ i k, tasks y !! i = Some k → at_end k = false → nt (mgr y) i = true).
Proof.
  intros [_ Ag _]%table_reachable. split; [apply Ag|]. split; [apply Ag|]. split; apply Ag.
Qed.
End Reach.

From S2P Require Import Ip.

(** ** A concrete execution of the transfer system: one upload is queued, gets
    its permits and its lock and runs against a well-behaved server, once to
    the end and once cancelled half-way. *)


Definition w_digest (b : list Z) : Digest := b.
Definition w_uuid (n : N) : str := show_dec (Z.of_N n).
Definition w_lower (s : str) : str := map to_ascii_lower s.
Abbreviation wstep := (tstep w_digest sx_simple w_uuid w_lower).

(** Let the task of [id] make its next call, or report its outcome. *)
Definition drive (id : TransferJobId) (y : TSys) : TSys :=
  match tasks y !! id with
  | Some {| tk_spec := spec; tk_phase := PRun (Do c k) |} =>
      let '(r, m) := match mgr_call id (mgr y) c with Some p => p | None => (sx_answer None c, mgr y) end in
      {| mgr := m; tasks := <[id := {| tk_spec := spec; tk_phase := PRun (k r) |}]> (tasks y); used := used y;
         tlog := tlog y ++ [(id, Ev c r)];
         finalized := if finalizes (Ev c r) then {[id]} ∪ finalized y else finalized y; outcomes := outcomes y |}
  | Some {| tk_spec := spec; tk_phase := PRun (Ret outcome) |} =>
      {| mgr := finish_job id outcome (mgr y); tasks := delete id (tasks y); used := used y; tlog := tlog y;
         finalized := finalized y; outcomes := (id, spec, outcome) :: outcomes y |}
  | _ => y
  end.

Lemma drive_step id y : rtc wstep y (drive id y).
Proof.
  unfold drive. destruct (tasks y !! id) as [[spec [| | |[o|c k]]]|] eqn:E; try reflexivity; [apply rtc_once; by apply t_done|].
  destruct (match mgr_call id (mgr y) c with Some p => p | None => _ end) as [r m] eqn:Em. apply rtc_once. apply t_call; [done|].
  unfold answers. destruct (mgr_call id (mgr y) c) as [[r0 m0]|]; by simplify_eq.
Qed.

Lemma drive_steps n id y : rtc wstep y (Nat.iter n (drive id) y).
Proof. induction n as [|n IH]; [reflexivity|]. etransitivity; [exact IH|]. apply drive_step. Qed.

Definition w_queued : TSys := enqueue [(3%N, sx_spec)] tsys_new.
Definition w_started : TSys :=
  let y1 := set_task w_queued 3%N {| tk_spec := sx_spec; tk_phase := PGlobal |} (mgr w_queued) in
  let y2 := set_task y1 3%N {| tk_spec := sx_spec; tk_phase := PDest |} (set_state 3%N Preparing (mgr y1)) in
  set_task y2 3%N {| tk_spec := sx_spec; tk_phase := PRun (run_transfer w_digest sx_simple 3%N sx_spec) |} (mgr y2).

Lemma w_started_reachable : treachable w_digest sx_simple w_uuid w_lower w_started.
Proof.
  unfold treachable. eapply rtc_l.
  { apply (t_enqueue _ _ _ _ [(3%N, sx_spec)]); [apply NoDup_singleton|]. intros i _. apply not_elem_of_empty. }
  eapply rtc_l. { eapply (t_host _ _ _ _ 3%N sx_spec); [reflexivity|apply not_elem_of_empty|by vm_compute]. }
  eapply rtc_l. { eapply (t_global _ _ _ _ 3%N sx_spec); [reflexivity|apply not_elem_of_empty|by vm_compute]. }
  eapply rtc_l.
  { eapply (t_lock _ _ _ _ 3%N sx_spec); [reflexivity|apply not_elem_of_empty|].
    intros id' k Hk Hr. exfalso. cbn in Hk. destruct (decide (id' = 3%N)) as [->|Hne].
    - rewrite lookup_insert_eq in Hk. by simplify_eq.
    - rewrite !lookup_insert_ne in Hk by done. 
      assert (tasks w_queued = {[3%N := {| tk_spec := sx_spec; tk_phase := PHost |}]}) as Hq by reflexivity.
      change (tasks w_queued !! id' = Some k) in Hk. by rewrite Hq, lookup_singleton_ne in Hk. }
  reflexivity.
Qed.

Definition w_finished : TSys := Nat.iter 40 (drive 3%N) w_started.
Lemma w_finished_reachable : treachable w_digest sx_simple w_uuid w_lower w_finished.
Proof. unfold treachable. etransitivity; [apply w_started_reachable|apply drive_steps]. Qed.

Lemma finished_job_followed_its_program_witness :
  runs (run_transfer w_digest sx_simple 3%N sx_spec : prg _) (log_of 3%N (tlog w_finished)) (Ok tt).
Proof.
  apply (finished_job_followed_its_program w_digest sx_simple w_uuid w_lower w_finished 3%N sx_spec (Ok tt)).
  - apply w_finished_reachable.
  - assert (outcomes w_finished = [(3%N, sx_spec, Ok tt)]) as -> by (vm_compute; reflexivity).
    apply list_elem_of_singleton. reflexivity.
Defined.

Lemma transfers_are_bounded_witness : count_map past_global (tasks w_started) = 1 ∧ count_map past_global (tasks w_started) ≤ GLOBAL_ACTIVE.
Proof.
  split; [vm_compute; reflexivity|].
  exact (proj1 (transfers_are_bounded w_digest sx_simple w_uuid w_lower w_started w_started_reachable)).
Defined.

Lemma queue_is_bounded_and_served_witness : nt (mgr w_started) 3%N = true ∧ count_jobs unfinished (mgr w_started) ≤ JOB_CAP.
Proof.
  split; [vm_compute; reflexivity|].
  apply (queue_is_bounded_and_served w_digest sx_simple w_uuid w_lower w_started), w_started_reachable.
Defined.

(** Cancelled in the middle of the checks before streaming. *)
Definition w_half : TSys := Nat.iter 4 (drive 3%N) w_started.
Definition w_cancel : ManagerState := (cancel 3%N 1%N 1%N 1%N (mgr w_half)).2.
Definition w_after : TSys := Nat.iter 40 (drive 3%N) (set_mgr w_half w_cancel).

Lemma stopped_job_never_commits_witness :
  job_state (mgr w_after) 3%N = Some TCancelled ∧ commits (ev_call (Ev (R := reply) CIsCancelled true)) = false.
Proof.
  split; [vm_compute; reflexivity|].
  destruct (jobs (mgr w_half) !! 3%N) as [j|] eqn:E; [|vm_compute in E; discriminate].
  apply (stopped_job_never_commits w_digest sx_simple w_uuid w_lower w_half 3%N j w_cancel w_after).
  - unfold treachable. etransitivity; [apply w_started_reachable|apply drive_steps].
  - exact E.
  - vm_compute in E. injection E as <-. reflexivity.
  - assert (w_cancel = (cancel 3%N (tj_host_id (jr_view j)) (tj_host_session_id (jr_view j)) (tj_sftp_session_id (jr_view j)) (mgr w_half)).2) as ->.
    { vm_compute in E. injection E as <-. reflexivity. }
    apply sr_cancel.
  - apply drive_steps.
  - apply log_of_elem. vm_compute. repeat (first [left; reflexivity|right]).
Defined.
