(* ===== verification/SftpLayer.v ===== *)
(** Transfers on the wire: the transfer programs of [TransferRun] with every
    call on the SFTP client carried out by the programs of [SftpClient].

    A run of the combined program is a run of the transfer whose client calls
    are runs of the client's methods ([runs_layer]), so what is proved of the
    two layers separately holds of their combination. *)

From S2P Require Import Prelude Str Model Ip RemotePath Utf8 Editor Files Prog Interp Calls SftpClient SftpClientSafe SftpReads SftpMutations.
From S2P Require Import FilePlans LocalFs TransferRun TransferSafe.

(** What remains below the client: its requests, and the calls that are not
    the client's. *)
Inductive wire := WSftp (c : request) | WLocal (c : call).
Definition wire_reply (c : wire) : Type := match c with WSftp c => answer c | WLocal c => reply c end.

Definition to_wire (e : event answer) : event wire_reply := match e with Ev c r => Ev (R := wire_reply) (WSftp c) r end.
Definition to_local (e : event reply) : event wire_reply := match e with Ev c r => Ev (R := wire_reply) (WLocal c) r end.

(** A client program, below. *)
Definition embed {A} (p : prog answer A) : prog wire_reply A :=
  layer (λ c : request, Do (R := wire_reply) (WSftp c) (λ r, Ret r)) p.

Lemma runs_embed {A} (p : prog answer A) t a : runs (embed p) t a ↔ ∃ u, runs p u a ∧ t = map to_wire u.
Proof.
  unfold embed. rewrite runs_layer. split; intros (u & Hr & H); exists u; (split; [done|]).
  - clear Hr. induction H as [|c r t1 up t2 Hc H IH]; [done|]. cbn.
    apply (runs_do_inv (R := wire_reply) (WSftp c)) in Hc as (r' & t' & -> & Hc). apply runs_ret_inv in Hc as [-> ->]. by rewrite IH.
  - subst t. clear Hr. induction u as [|[c r] u IH]; [constructor|]. cbn.
    apply (impl_cons _ c r [Ev (R := wire_reply) (WSftp c) r] u); [|done]. constructor. constructor.
Qed.

Section Layer.
Context (file_type : FileAttributes → FileType) (rfc3339 : Z → option str) (permission_text : FileAttributes → str).
Context (self : RawSftpClient) (fuel : nat).

(** [impl SftpClient for RawSftpClient]; the reader of an upload is the source
    of the client's [LRead] calls. *)
Definition on_wire (c : call) : prog wire_reply (reply c) :=
  match c return prog wire_reply (reply c) with
  | CStat p => embed (stat file_type rfc3339 permission_text p)
  | CIdentity p => embed (identity_of file_type p)
  | CEditorRevision p => embed (editor_revision file_type p)
  | CReadEditorBytes p => embed (read_editor_bytes file_type self p)
  | CUploadStaged _ staging => embed (upload_staged self fuel staging)
  | CPreserveEditorMetadata staging expected => embed (preserve_editor_metadata file_type staging expected)
  | CCommitNew a b => embed (commit_new file_type self a b)
  | CCommitReplace a b => embed (commit_replace self a b)
  | CRemoveOwnedStaging p => embed (remove_owned_staging p)
  | CDownload p => embed (download file_type rfc3339 permission_text self fuel p)
  | CCreateDir p => embed (create_dir file_type p)
  | CRenameNoclobber a b => embed (rename_noclobber file_type self a b)
  | CRemoveFile p => embed (remove_file file_type rfc3339 permission_text p)
  | CRemoveDir p => embed (remove_dir file_type rfc3339 permission_text p)
  | c => Do (R := wire_reply) (WLocal c) (λ r, Ret r)
  end.

(** One call of the transfer inside a run on the wire. *)
Lemma implements_at up1 c r up2 t : implements on_wire (up1 ++ Ev c r :: up2) t →
  ∃ t1 tc t2, t = t1 ++ tc ++ t2 ∧ implements on_wire up1 t1 ∧ runs (on_wire c) tc r ∧ implements on_wire up2 t2.
Proof.
  intros (t1 & t' & H1 & H2 & ->)%implements_app. apply (implements_app _ [Ev c r]) in H2 as (tc & t2 & Hc & H2 & ->).
  exists t1, tc, t2. split_and!; [done|done| |done].
  remember [Ev c r] as l eqn:El. destruct Hc as [|c' r' t3 up t4 Hr Hi]; [done|]. apply (inj2 cons) in El as [Ee ->].
  remember [] as l eqn:El in Hi. destruct Hi; [|done]. rewrite app_nil_r.
  revert Hr. change (runs (on_wire (ev_call (Ev c' r'))) t3 (ev_reply (Ev c' r')) → runs (on_wire (ev_call (Ev c r))) t3 (ev_reply (Ev c r))).
  by rewrite Ee.
Qed.

(** A string in the data of an extended request. *)
Definition wire_string (v : str) : list Z := to_be_bytes (len v) ++ as_bytes v.

Lemma replace_request staging destination cs : runs (commit_replace self staging destination : rprg _) cs (Ok tt) →
  cs = [Ev (RExtended posix_rename_name (wire_string staging ++ wire_string destination)) (Ok (PStatus SOk))].
Proof.
  intros H. refine (wp_runs _ [] cs (Ok tt) (λ t r, r = Ok tt → t = _) _ H eq_refl). clear H cs.
  unfold commit_replace. rewrite wp_io_bind. apply wp_ensure_client; [by intros _|]. intros _.
  apply wp_lift_path; [by intros e _|]. intros d1 Hd1. apply wp_lift_path; [by intros e _|]. intros data Hd2.
  rewrite wp_bind. apply (wp_req (RExtended _ _)). intros a.
  destruct a as [[s|]|er]; [|done..]. destruct (decide (s = SOk)) as [->|Hs]; [|by rewrite bool_decide_eq_false_2]. intros _.
  assert (data = wire_string staging ++ wire_string destination) as ->; [|done].
  unfold encode_string in Hd1, Hd2. repeat case_match; simplify_eq. unfold wire_string. by rewrite <-!app_assoc.
Qed.

(** What the server did when a commit succeeded; [current] is what it reported
    at the destination right before. *)
Definition commit_on_wire (action : DestinationAction EntryIdentity) (staging destination : str) (current : option EntryIdentity)
    (cs : rtrace) : Prop :=
  match action with
  | ACreateNew => current = None ∧ link_run staging destination cs (Ok tt)
  | AReplaceExisting expected => current = Some expected ∧
      cs = [Ev (RExtended posix_rename_name (wire_string staging ++ wire_string destination)) (Ok (PStatus SOk))]
  | ASkip => False
  end.

(** [C6] An upload that reports success has put the approved file in place,
    down to the requests on the wire: among them, in this order, the server
    confirmed the exclusive creation of the staging file and every one of
    exactly the approved number of bytes, which are the bytes the local reader
    delivered, in order and without gaps; then it reported what is at the
    destination; and directly after that it confirmed the commit.  A new file
    was committed only when the destination was reported free, by a link that
    cannot overwrite followed by the removal of the staging name; a
    replacement only when exactly the approved entry was reported there, by
    one rename of the staging file onto the destination (which replaces
    whatever has that name when the server gets to it). *)
Theorem upload_end_to_end simple id source destination action t :
  action ≠ ASkip →
  runs (layer on_wire (run_upload simple id source destination action : prg _)) t (Ok tt) →
  ∃ staging t1 us t2 ls current cs t3,
    staging_path simple id destination (lit ".part") = Ok staging ∧
    t = t1 ++ map to_wire us ++ t2 ++ map to_wire ls ++ map to_wire cs ++ t3 ∧
    (∃ owned, staged_spec staging us (owned, Ok (lit_size source))) ∧
    zlen (written us) = lit_size source ∧ written us = local_data us ∧
    runs (identity_of file_type destination : rprg _) ls (Ok current) ∧
    commit_on_wire action staging destination current cs.
Proof.
  intros Hact (up & Hr & Hi)%runs_layer.
  pose proof (wp_runs _ [] up (Ok tt) _ (wp_upload simple id source destination action) Hr) as (H1 & H2 & _).
  change ([] ++ up) with up in *.
  destruct (H2 eq_refl) as [?|Hc]; [done|]. destruct (H1 Hc) as (v1 & v2 & file & staging & owned & current & c & e & tail & Hs & He & -> & _ & _ & Hm & Hok).
  destruct Hok as [Hok _]. specialize (Hok eq_refl). subst c.
  unfold upload_prefix in Hi. rewrite <-!app_assoc in Hi.
  apply implements_app in Hi as (tv & ti & _ & Hi & ->).
  apply (implements_at [Ev (CTryClone (lit_handle source)) (Some file); Ev (CSeekStart file) true; Ev (CSetState Transferring) tt]
           (CUploadStaged (FromHandle file) staging) (owned, Ok (lit_size source))) in Hi as (ta & tu & tb & -> & _ & Hu & Hi).
  apply runs_embed in Hu as (us & Hu & ->).
  pose proof (wp_runs _ [] us _ _ (upload_staged_spec self fuel staging) Hu) as Hst. rewrite app_nil_l in Hst.
  assert (zlen (written us) = lit_size source ∧ written us = local_data us) as [Hz Hw].
  { destruct Hst as (_ & h & body & cl & _ & _ & _ & Hn). by destruct (Hn _ eq_refl) as (_ & -> & ? & _). }
  apply implements_app in Hi as (tv2 & ti2 & _ & Hi & ->).
  apply (implements_at [Ev CIsCancelled false; Ev CEnterFinalizing (Ok tt)] (CIdentity destination) (Ok current))
    in Hi as (td & tl & tb2 & -> & _ & Hl & Hi).
  apply runs_embed in Hl as (ls & Hl & ->).
  assert (∃ cs te, tb2 = map to_wire cs ++ te ∧ commit_on_wire action staging destination current cs) as (cs & te & -> & Hcm).
  { destruct action as [| |expected]; [done|injection He as <-|injection He as <-]; cbn in Hm; apply bool_decide_eq_true in Hm as ->.
    - apply (implements_at [] (CCommitNew staging destination) (Ok tt)) in Hi as (t0 & tc & te & -> & H0 & Hcm & _).
      apply runs_embed in Hcm as (cs & Hcm & ->). remember [] as l eqn:El in H0. destruct H0; [|done].
      exists cs, te. split; [done|]. split; [done|].
      apply (wp_runs _ [] cs (Ok tt) _ (wp_commit_new file_type self staging destination) Hcm).
    - apply (implements_at [] (CCommitReplace staging destination) (Ok tt)) in Hi as (t0 & tc & te & -> & H0 & Hcm & _).
      apply runs_embed in Hcm as (cs & Hcm & ->). remember [] as l eqn:El in H0. destruct H0; [|done].
      exists cs, te. split; [done|]. split; [done|]. by apply replace_request. }
  exists staging, (tv ++ ta), us, (tv2 ++ td), ls, current, cs, te.
  split_and!; [done|by rewrite <-!app_assoc|by exists owned|done|done|done|done].
Qed.
End Layer.

From S2P Require Import SftpListing.

(** ** Concrete runs of the SFTP client against a small server: one directory
    with room for one new file, reached through a session that announces the
    extensions the client uses. *)


Definition ws_type (a : FileAttributes) : FileType := FtFile.
Definition ws_date (n : Z) : option str := None.
Definition ws_perm (a : FileAttributes) : str := lit "-rw-------".
Definition ws_exts : gmap str str := {[hardlink_name := lit "1"; posix_rename_name := lit "1"]}.
Definition ws_client : RawSftpClient :=
  {| rc_info := sample_info 1%N 1%N 1%N []; extension_map := ws_exts; read_chunk := 65536; write_chunk := 65536 |}.

(** Nothing exists yet; the local file has four bytes; a listing has one batch
    with one name.  The state tells whether they were delivered. *)
Definition ws_server (s : bool) (c : request) : option (answer c * bool) :=
  match c return option (answer c * bool) with
  | RInit => Some (Ok (3, ws_exts), s)
  | RRealpath _ => Some (Ok [lit "/home/u"], s)
  | RLstat _ => Some (Err (EStatus SNoSuchFile), s)
  | ROpen _ _ _ | ROpendir _ => Some (Ok (lit "h"), s)
  | RClose _ | RWrite _ _ _ | RHardlink _ _ | RRemove _ | RMkdir _ _ => Some (Ok SOk, s)
  | RExtended _ _ => Some (Ok (PStatus SOk), s)
  | Race (LRead _) => Some (Some (Some (if s then [] else [1; 2; 3; 4])), true)
  | Race (RReaddir _) =>
      Some (if s then Some (Err (EStatus SEof))
            else Some (Ok [{| sf_filename := lit "."; sf_attrs := attrs_default |};
                           {| sf_filename := lit "f"; sf_attrs := attrs_default |}]), true)
  | LProgress _ | LMarkOwned => Some (tt, s)
  | _ => None
  end.

Definition ws_run {A} (p : prog answer A) : option (rtrace * A) :=
  (λ x, (x.1.1, x.2)) <$> simulate ws_server false p.

Lemma ws_runs {A} (p : prog answer A) t a : ws_run p = Some (t, a) → runs p t a.
Proof.
  unfold ws_run. destruct (simulate ws_server false p) as [[[t' s] b]|] eqn:E; [|done]. intros [= <- <-].
  by eapply simulate_runs.
Qed.

(** The run ends well; only this bit is computed. *)
Definition ends_ok {S A B} (x : option (S * Res A * B)) : bool := match x with Some (_, Ok _, _) => true | _ => false end.



Lemma links_never_clobber_witness : ∃ t, link_run (lit "/up/.s") (lit "/up/f") t (Ok tt).
Proof.
  eexists. apply (links_never_clobber ws_type ws_client). left. apply ws_runs. reflexivity.
Defined.

Lemma replace_names_both_paths_witness : ∃ t, t ≠ [] ∧ replace_spec ws_client (lit "/a") (lit "/b") t (Ok tt).
Proof.
  eexists. split; [|apply (replace_names_both_paths ws_client (lit "/a") (lit "/b")); [by repeat constructor..|apply ws_runs; reflexivity]].
  done.
Defined.

Lemma connect_is_consistent_witness : ∃ c, protocol_version (rc_info c) = 3 ∧
  supports (rc_info c) hardlink_name (lit "1") = rc_supports c hardlink_name (lit "1").
Proof.
  assert (ends_ok ((λ x, (x, tt)) <$> ws_run (connect 1%N 1%N 1%N : rprg _)) = true) as Hok by (vm_compute; reflexivity).
  destruct (ws_run (connect 1%N 1%N 1%N : rprg _)) as [[t [c|e]]|] eqn:E; [|discriminate Hok..].
  apply ws_runs in E. exists c.
  destruct (connect_is_consistent 1%N 1%N 1%N t c E) as (_ & Hv & _ & _ & _ & _ & Hs). split; [exact Hv|apply Hs].
Defined.

Lemma listing_is_safe_witness : ∃ t l, map re_name (dl_entries l) = [lit "f"] ∧ list_spec ws_client (lit "/up") t (Ok l).
Proof.
  eexists _, _. split; [|apply (listing_is_safe ws_type ws_date ws_perm ws_client 3 (lit "/up")); apply ws_runs; vm_compute; reflexivity].
  vm_compute. reflexivity.
Defined.

Definition ws_wire (s : bool) (c : wire) : option (wire_reply c * bool) :=
  match c return option (wire_reply c * bool) with
  | WSftp c => ws_server s c
  | WLocal c => Some (sx_answer None c, s)
  end.

Definition ws_upload : prog wire_reply (Res unit) :=
  layer (on_wire ws_type ws_date ws_perm ws_client 8) (run_upload sx_simple 3%N sx_source (lit "/up/f.txt") ACreateNew : prg _).

Lemma upload_end_to_end_witness : ∃ staging us, lit_size sx_source = 4 ∧ written us = local_data us ∧
  zlen (written us) = lit_size sx_source ∧ staging_path sx_simple 3%N (lit "/up/f.txt") (lit ".part") = Ok staging.
Proof.
  destruct (upload_end_to_end ws_type ws_date ws_perm ws_client 8 sx_simple 3%N sx_source (lit "/up/f.txt") ACreateNew
    (default [] ((λ x, x.1.1) <$> simulate ws_wire false ws_upload)))
    as (staging & _ & us & _ & _ & _ & _ & _ & Hs & _ & _ & Hz & Hw & _).
  - done.
  - assert (ends_ok ((λ x, (x.1, x.2, tt)) <$> simulate ws_wire false ws_upload) = true) as Hok by (vm_compute; reflexivity).
    destruct (simulate ws_wire false ws_upload) as [[[t s] [[]|e]]|] eqn:E; [|discriminate Hok..].
    by eapply simulate_runs.
  - by exists staging, us.
Defined.

(** The entry [stat] returns names its path relative to nothing when the entry
    sits in the root directory, and repeats the last component when the path
    ends in a slash. *)
Definition ws_found (s : unit) (c : request) : option (answer c * unit) :=
  match c return option (answer c * unit) with RLstat _ => Some (Ok attrs_default, s) | _ => None end.
Definition ws_stat_path (p : str) : option str :=
  match simulate ws_found tt (stat ws_type ws_date ws_perm p : rprg _) with
  | Some (_, _, Ok e) => Some (re_path e)
  | _ => None
  end.

Example stat_of_root_entry : ws_stat_path (lit "/x") = Some (lit "x").
Proof. reflexivity. Qed.
Example stat_of_trailing_slash : ws_stat_path (lit "/a/b/") = Some (lit "/a/b/b").
Proof. reflexivity. Qed.
