(* ===== verification/SshChannel.v ===== *)
(** SSH channels: dispatching a systemd operation
    ([nexus-ssh/src/systemd_*.rs]) and running a read-only command
    ([SshSession::execute], [collect_output] of [nexus-ssh/src/session.rs]).

    The SSH library is not part of the repository: what a channel delivers is
    the reply of a call.  Every await inside a [select!] with the caller's
    token, the session's lifetime and a timeout is a race; any of them may win
    at any await, so the durations do not matter. *)

From S2P Require Import Prelude Str Model Ip Utf8 Prog Interp SystemdUnit Authority Foundation Engine.

(** [russh::ChannelMsg], as far as the code tells its messages apart. *)
Inductive ChannelMsg :=
| MSuccess | MFailure | MExitStatus (exit_status : Z) | MExitSignal
| MData (data : list Z) | MExtendedData (data : list Z)
| MEof | MWindowAdjusted | MClose | MOther.

(** ** Errors of the library ([error.rs])

    [russh::Error] and [io::ErrorKind], as far as the code tells them apart. *)

Inductive IoErrorKind := ConnectionRefused | TimedOut | ConnectionAborted | OtherKind.
Inductive RusshError :=
| IO (kind : IoErrorKind)
| ConnectionTimeout | KeepaliveTimeout | InactivityTimeout
| NotAuthenticated | UnsupportedAuthMethod | NoAuthMethod
| NoCommonAlgo
| OtherError.

Definition io_error (kind : IoErrorKind) : AppError :=
  match kind with
  | ConnectionRefused =>
      app_error Refused "The server refused the SSH connection. Check its address, port and SSH service."
  | TimedOut => app_error Timeout "The SSH network connection timed out."
  | ConnectionAborted | OtherKind => app_error Connection "The SSH network connection failed or closed."
  end.

Definition transport_error (e : RusshError) : AppError :=
  match e with
  | IO kind => io_error kind
  | ConnectionTimeout | KeepaliveTimeout | InactivityTimeout =>
      app_error Timeout "The SSH server stopped responding."
  | NotAuthenticated | UnsupportedAuthMethod | NoAuthMethod =>
      app_error Authentication "The server did not accept this SSH authentication method."
  | NoCommonAlgo => app_error Connection "The server has no compatible secure SSH algorithm."
  | OtherError => app_error Connection "The SSH connection failed or was closed by the server."
  end.

(** [HandlerError]: what our own host key check reports, or the library. *)
Inductive HandlerError := Application (e : AppError) | Transport (e : RusshError).

Definition into_app (e : HandlerError) : AppError :=
  match e with Application e => e | Transport e => transport_error e end.

(** How an await raced against the caller's token, the session's lifetime and
    a timeout ends; [outer] tells the enclosing timeout from the inner one,
    where the code has two. *)
Inductive race (A : Type) := Won (a : A) | WCancelled | WLifetime | WTimeout (outer : bool).
Arguments Won {A} a.
Arguments WCancelled {A}.
Arguments WLifetime {A}.
Arguments WTimeout {A} outer.

Inductive ssh_call :=
| HIsClosed                      (** [is_closed()] *)
| HIsCancelled                   (** [cancellation.is_cancelled()] *)
| HLifetimeCancelled             (** [lifetime.is_cancelled()] *)
| HOpen                          (** [channel_open_session], raced *)
| HOpenPlain                     (** [channel_open_session], awaited alone *)
| HExec (command : str)          (** [channel.exec(true, ..)] *)
| HSubsystem (name : str)        (** [request_subsystem(true, ..)] *)
| HPty (term : str) (size : TerminalSize)
| HShell
| HWait                          (** [channel.wait()], raced *)
| HRead                          (** [channel.wait()] against the lifetime (and, at the start of SFTP, a timeout) alone *)
| HClose                         (** [timeout(.., channel.close())] *)
| HGuardClose                    (** [guard.close()], still inside the outer race *)
| HWrite (data : list Z)
| HResize (size : TerminalSize)
| HEof
| HCloseWriter
| HSetClosed                     (** [closed.store(true)] *)
| HDisconnect                    (** [timeout(.., handle.disconnect(..))] *)
| HCancelLifetime                (** [lifetime.cancel()] *)
| HSpin.

Definition ssh_reply (c : ssh_call) : Type :=
  match c with
  | HIsClosed | HIsCancelled | HLifetimeCancelled => bool
  | HOpen | HExec _ => race (result RusshError unit)
  | HPty _ _ | HShell => race bool
  | HOpenPlain | HSubsystem _ | HWrite _ | HResize _ | HCloseWriter => bool
  | HWait => race (option ChannelMsg)
  | HRead => option (option ChannelMsg)
  | HGuardClose => race unit
  | HDisconnect => option (result RusshError unit)
  | HClose | HEof | HSetClosed | HCancelLifetime => unit
  | HSpin => Empty_set
  end.

Abbreviation sprg A := (prog ssh_reply A) (only parsing).
Abbreviation strace := (list (event ssh_reply)) (only parsing).
Definition hask (c : ssh_call) : prog ssh_reply (ssh_reply c) := Do c (λ r, Ret r).
Definition hspin (A : Type) : prog ssh_reply A := Do HSpin (λ e : ssh_reply HSpin, match e : Empty_set with end).

(** ** Dispatching an operation *)

Definition MUTATION_OUTPUT_LIMIT : Z := 8 * 1024.

Definition COMMAND_PREFIX (o : NativeOp) : str :=
  lit "LC_ALL=C SYSTEMD_COLORS=0 SYSTEMD_URLIFY=0 systemctl --system --no-pager --no-ask-password " ++
  match o with
  | SystemdResetFailed => lit "reset-failed -- "
  | SystemdTryRestart => lit "try-restart -- "
  | SystemdReload => lit "reload -- "
  | SystemdStart => lit "start -- "
  end.

Definition mutation_command (o : NativeOp) (target : SystemdServiceUnitName) : str := COMMAND_PREFIX o ++ as_str target.

Record Progress := { accepted : bool; execution_evidence : bool; output_bytes : Z }.
Definition progress_start : Progress := {| accepted := false; execution_evidence := false; output_bytes := 0 |}.

Inductive MessageHandling := Continue | Complete (o : MutationTransportOutcome).

Definition handle_data (data : list Z) (p : Progress) : MessageHandling * Progress :=
  let total := saturating_add (output_bytes p) (zlen data) in
  (if MUTATION_OUTPUT_LIMIT <? total then Complete (CompletionUnknown CuOutputLimit) else Continue,
   {| accepted := accepted p; execution_evidence := true; output_bytes := total |}).

Definition handle_message (m : ChannelMsg) (p : Progress) : MessageHandling * Progress :=
  match m with
  | MSuccess =>
      if accepted p then (Complete (CompletionUnknown CuConnectionLost), p)
      else (Continue, {| accepted := true; execution_evidence := execution_evidence p; output_bytes := output_bytes p |})
  | MFailure =>
      (Complete (if negb (accepted p) && negb (execution_evidence p) then NotDispatched NdRejected
                 else CompletionUnknown CuConnectionLost), p)
  | MExitStatus n => (Complete (CompletionConfirmed (n =? 0)), p)
  | MExitSignal => (Complete (CompletionConfirmed false), p)
  | MData data | MExtendedData data => handle_data data p
  | MEof | MWindowAdjusted => (Continue, p)
  | MClose => (Complete (CompletionUnknown CuConnectionLost), p)
  | MOther => (if accepted p then Continue else Complete (CompletionUnknown CuConnectionLost), p)
  end.

Definition wait_round (p : Progress) : sprg (Progress + MutationTransportOutcome) :=
  pbind (hask HWait) (λ r, Ret
    match r with
    | Won (Some m) => match handle_message m p with
                      | (Continue, p') => inl p'
                      | (Complete o, _) => inr o
                      end
    | Won None => inr (CompletionUnknown CuConnectionLost)
    | WCancelled => inr (CompletionUnknown CuCancelled)
    | WLifetime => inr (CompletionUnknown CuConnectionLost)
    | WTimeout _ => inr (CompletionUnknown CuTimeout)
    end).

Definition request_completion (fuel : nat) (command : str) : sprg MutationTransportOutcome :=
  pbind (hask (HExec command)) (λ r,
    match r with
    | Won (Ok _) => loop hspin fuel wait_round progress_start
    | Won (Err _) => Ret (CompletionUnknown CuConnectionLost)
    | WCancelled => Ret (CompletionUnknown CuCancelled)
    | WLifetime => Ret (CompletionUnknown CuConnectionLost)
    | WTimeout _ => Ret (CompletionUnknown CuTimeout)
    end).

Definition dispatch (o : NativeOp) (fuel : nat) (target : SystemdServiceUnitName) : sprg MutationTransportOutcome :=
  pbind (hask HIsClosed) (λ closed, if closed : bool then Ret (NotDispatched NdConnection) else
  pbind (hask HIsCancelled) (λ cancelled, if cancelled : bool then Ret (NotDispatched NdCancelled) else
  pbind (hask HOpen) (λ r,
    match r with
    | WCancelled => Ret (NotDispatched NdCancelled)
    | WLifetime => Ret (NotDispatched NdConnection)
    | WTimeout _ => Ret (NotDispatched NdTimeout)
    | Won (Err _) => Ret (NotDispatched NdConnection)
    | Won (Ok _) =>
        pbind (request_completion fuel (mutation_command o target)) (λ outcome,
        pbind (hask HClose) (λ _, Ret outcome))
    end))).

Definition dispatch_reset_failed := dispatch SystemdResetFailed.
Definition dispatch_try_restart := dispatch SystemdTryRestart.
Definition dispatch_reload := dispatch SystemdReload.
Definition dispatch_start := dispatch SystemdStart.

(** ** Running a read-only command *)

Definition SESSION_OUTPUT_LIMIT : Z := 64 * 1024.

Definition discovery_error (m : string) : AppError := app_error Discovery m.

Definition count_output (total length : Z) : Res Z :=
  let total := saturating_add total length in
  if SESSION_OUTPUT_LIMIT <? total
  then Err (discovery_error "A discovery command exceeded the 64 KiB output limit.") else Ok total.

Record Collected := { co_output : list Z; co_total : Z; co_exit_status : option Z }.
Definition collected_start : Collected := {| co_output := []; co_total := 0; co_exit_status := None |}.

(** One message of [collect_output]; [inr (Ok c)] leaves the loop. *)
Definition collect_message (m : option ChannelMsg) (c : Collected) : Collected + Res Collected :=
  match m with
  | None | Some MClose => inr (Ok c)
  | Some (MData data) =>
      match count_output (co_total c) (zlen data) with
      | Ok total => inl {| co_output := co_output c ++ data; co_total := total; co_exit_status := co_exit_status c |}
      | Err e => inr (Err e)
      end
  | Some (MExtendedData data) =>
      match count_output (co_total c) (zlen data) with
      | Ok total => inl {| co_output := co_output c; co_total := total; co_exit_status := co_exit_status c |}
      | Err e => inr (Err e)
      end
  | Some (MExitStatus status) =>
      inl {| co_output := co_output c; co_total := co_total c; co_exit_status := Some status |}
  | Some MFailure => inr (Err (discovery_error "The server rejected a read-only discovery command."))
  | Some MExitSignal => inr (Err (discovery_error "A read-only discovery command was interrupted on the server."))
  | Some _ => inl c
  end.

(** [bounded_io.rs]: the errors of [bounded]. *)
Definition cancelled_ssh : AppError := app_error Cancelled "The SSH operation was cancelled.".
Definition timed_out_ssh (outer : bool) : AppError :=
  app_error Timeout (if outer then "SSH channel timed out." else "SSH command timed out.").

Definition lost {A B} (r : race A) (k : A → Res B) : Res B :=
  match r with
  | Won a => k a
  | WCancelled | WLifetime => Err cancelled_ssh
  | WTimeout outer => Err (timed_out_ssh outer)
  end.

Definition collect_round (c : Collected) : sprg (Collected + Res Collected) :=
  pbind (hask HWait) (λ r, Ret
    match r with
    | Won m => collect_message m c
    | WCancelled | WLifetime => inr (Err cancelled_ssh)
    | WTimeout outer => inr (Err (timed_out_ssh outer))
    end).

Definition finish_output (c : Collected) : Res str :=
  if bool_decide (co_exit_status c ≠ Some 0)
  then Err (discovery_error "A read-only discovery command did not complete successfully.")
  else ok_or (from_utf8 (co_output c)) (discovery_error "The server returned invalid text for a discovery command.").

(** [SshSession::execute].  The guard closes the channel: at its end, or,
    when the enclosing race is lost, by its [drop]; either way the close is
    requested. *)
Definition session_execute (fuel : nat) (command : ReadOnlyCommand) : sprg (Res str) :=
  pbind (hask HIsClosed) (λ closed,
    if closed : bool then Ret (Err (app_error Connection "This SSH session is disconnected.")) else
  pbind (hask HOpen) (λ r,
    match r with
    | WCancelled | WLifetime => Ret (Err cancelled_ssh)
    | WTimeout _ => Ret (Err (timed_out_ssh true))
    | Won (Err e) => Ret (Err (transport_error e))
    | Won (Ok _) =>
        pbind (pbind (hask (HExec (Engine.command command))) (λ x,
          match x with
          | Won (Ok _) => pbind (loop hspin fuel collect_round collected_start) (λ c, Ret (c ≫= finish_output))
          | Won (Err e) => Ret (Err (transport_error e))
          | WCancelled | WLifetime => Ret (Err cancelled_ssh)
          | WTimeout outer => Ret (Err (timed_out_ssh outer))
          end)) (λ result, pbind (hask HGuardClose) (λ r, Ret (lost r (λ _, result))))
    end)).

(** [SshSession::disconnect] *)
Definition session_disconnect : sprg (Res unit) :=
  pbind (hask HIsClosed) (λ closed,
    if closed : bool then pbind (hask HCancelLifetime) (λ _, Ret (Ok tt)) else
  pbind (hask HSetClosed) (λ _,
  pbind (hask HDisconnect) (λ r,
  pbind (hask HCancelLifetime) (λ _, Ret
    match r with
    | Some (Ok _) => Ok tt
    | Some (Err e) => Err (transport_error e)
    | None => Err (app_error Timeout "SSH disconnect timed out; the local session was closed.")
    end)))).

(** ** Starting SFTP *)

Inductive SubsystemReply := Accepted | Denied | Unavailable.

Definition subsystem_round (_ : unit) : sprg (unit + SubsystemReply) :=
  pbind (hask HRead) (λ m, Ret
    match m with
    | Some (Some MSuccess) => inr Accepted
    | Some (Some MFailure) => inr Denied
    | Some (Some MClose) | Some None | None => inr Unavailable
    | Some (Some _) => inl tt
    end).

Definition sftp_unavailable (m : string) : AppError := app_error SftpUnavailable m.

(** [SshSession::open_sftp], up to the packets of [RawSftpClient::connect]. *)
Definition open_sftp (fuel : nat) : sprg (Res unit) :=
  pbind (hask HIsClosed) (λ closed,
    if closed : bool then Ret (Err (sftp_unavailable "SFTP is unavailable because the SSH connection is closed.")) else
  pbind (hask HOpenPlain) (λ opened,
    if negb opened then Ret (Err (sftp_unavailable "The SFTP channel could not be opened.")) else
  pbind (hask (HSubsystem (lit "sftp"))) (λ sent,
    if negb sent then Ret (Err (sftp_unavailable "The SFTP subsystem request failed.")) else
  pbind (loop hspin fuel subsystem_round tt) (λ reply,
    match reply with
    | Accepted => Ret (Ok tt)
    | Denied => pbind (hask HClose) (λ _,
        Ret (Err (app_error SftpDenied "The SSH server denied the SFTP subsystem request.")))
    | Unavailable => pbind (hask HClose) (λ _,
        Ret (Err (sftp_unavailable "The SSH server did not make an SFTP subsystem available.")))
    end)))).

(** ** Terminal channels *)

Definition STARTUP_OUTPUT_LIMIT : Z := 64 * 1024.

Definition terminal_unavailable : AppError :=
  app_error TerminalUnavailable "The SSH session is unavailable. Reconnect and open a new terminal.".
Definition pty_rejected : AppError := app_error TerminalPty "The server rejected the terminal PTY allocation.".
Definition shell_rejected : AppError := app_error TerminalShell "The server rejected the interactive shell request.".

Record Startup := { pending : list (list Z); pending_bytes : Z }.

Definition reply_message (refused : AppError) (m : option ChannelMsg) (s : Startup) : Startup + Res Startup :=
  match m with
  | Some MSuccess => inr (Ok s)
  | Some MFailure | Some MClose | None => inr (Err refused)
  | Some (MData data) | Some (MExtendedData data) =>
      let total := saturating_add (pending_bytes s) (zlen data) in
      if STARTUP_OUTPUT_LIMIT <? total
      then inr (Err (app_error TerminalStartup "Terminal startup output exceeded the 64 KiB limit."))
      else inl {| pending := pending s ++ [data]; pending_bytes := total |}
  | Some _ => inl s
  end.

Definition reply_round (refused : AppError) (s : Startup) : sprg (Startup + Res Startup) :=
  pbind (hask HWait) (λ r, Ret
    match r with
    | Won m => reply_message refused m s
    | WCancelled => inr (Err cancelled_ssh)
    | WLifetime => inr (Err terminal_unavailable)
    | WTimeout _ => inr (Err (app_error TerminalStartup "The server did not confirm terminal startup in time."))
    end).

Definition wait_for_request_reply (fuel : nat) (refused : AppError) (s : Startup) : sprg (Res Startup) :=
  loop hspin fuel (reply_round refused) s.

Definition request_sent (refused : AppError) (r : race bool) : Res unit :=
  match r with
  | Won true => Ok tt
  | Won false => Err refused
  | WCancelled => Err cancelled_ssh
  | WLifetime => Err terminal_unavailable
  | WTimeout _ => Err refused
  end.

Definition start_terminal (fuel : nat) (size : TerminalSize) : io ssh_reply AppError Startup :=
  (r ← (pbind (hask (HPty (lit "xterm-256color") size)) (λ r, Ret (Ok r)) : io ssh_reply AppError _);
   _ ← io_lift (request_sent pty_rejected r);
   s ← wait_for_request_reply fuel pty_rejected {| pending := []; pending_bytes := 0 |};
   r ← (pbind (hask HShell) (λ r, Ret (Ok r)) : io ssh_reply AppError _);
   _ ← io_lift (request_sent shell_rejected r);
   wait_for_request_reply fuel shell_rejected s).

(** [RusshTerminalChannel]: the chunks that arrived during start-up and the
    closed flag. *)
Record TermChannel := { tc_pending : list (list Z); tc_closed : bool }.

Definition open_terminal (fuel : nat) (size : TerminalSize) : sprg (Res TermChannel) :=
  match validate_size size with
  | Err e => Ret (Err e)
  | Ok _ =>
      pbind (hask HIsClosed) (λ closed, if closed : bool then Ret (Err terminal_unavailable) else
      pbind (hask HOpenPlain) (λ opened,
        if negb opened then Ret (Err (app_error TerminalChannel "The SSH terminal channel could not be opened.")) else
      pbind (start_terminal fuel size) (λ startup,
        match startup with
        | Err e => pbind (hask HClose) (λ _, Ret (Err e))
        | Ok s => Ret (Ok {| tc_pending := pending s; tc_closed := false |})
        end)))
  end.

(** [TerminalRead] of [nexus-terminal] *)
Inductive TerminalRead := TData (data : list Z) | TExit (status : Z) | TReadClosed.

Definition read_round (_ : unit) : sprg (unit + Res TerminalRead) :=
  pbind (hask HRead) (λ m, Ret
    match m with
    | None => inr (Err terminal_unavailable)
    | Some (Some (MData data)) | Some (Some (MExtendedData data)) => inr (Ok (TData data))
    | Some (Some (MExitStatus n)) => inr (Ok (TExit n))
    | Some (Some MExitSignal) | Some (Some MEof) | Some (Some MClose) | Some None => inr (Ok TReadClosed)
    | Some (Some MFailure) => inr (Err (app_error TerminalChannel "The remote terminal channel failed."))
    | Some (Some _) => inl tt
    end).

Definition terminal_read (fuel : nat) (c : TermChannel) : sprg (Res TerminalRead * TermChannel) :=
  if tc_closed c then Ret (Ok TReadClosed, c) else
  match tc_pending c with
  | data :: rest => Ret (Ok (TData data), {| tc_pending := rest; tc_closed := tc_closed c |})
  | [] => pbind (loop hspin fuel read_round tt) (λ r, Ret (r, c))
  end.

(** [self.closed || lifetime.is_cancelled()], in this order. *)
Definition terminal_gone (c : TermChannel) : sprg bool :=
  if tc_closed c then Ret true else hask HLifetimeCancelled.

Definition terminal_write (c : TermChannel) (data : list Z) : sprg (Res unit) :=
  pbind (terminal_gone c) (λ gone, if gone : bool then Ret (Err terminal_unavailable) else
  pbind (hask (HWrite data)) (λ sent,
    Ret (if sent : bool then Ok tt else Err (app_error TerminalStream "Terminal input could not be delivered.")))).

Definition terminal_resize (c : TermChannel) (size : TerminalSize) : sprg (Res unit) :=
  match validate_size size with
  | Err e => Ret (Err e)
  | Ok _ =>
      pbind (terminal_gone c) (λ gone, if gone : bool then Ret (Err terminal_unavailable) else
      pbind (hask (HResize size)) (λ sent,
        Ret (if sent : bool then Ok tt else Err (app_error TerminalResize "The remote terminal could not be resized."))))
  end.

Definition terminal_close (c : TermChannel) : sprg (Res unit * TermChannel) :=
  if tc_closed c then Ret (Ok tt, c) else
  let c := {| tc_pending := tc_pending c; tc_closed := true |} in
  pbind (hask HEof) (λ _, pbind (hask HCloseWriter) (λ sent, Ret
    (if sent : bool then Ok tt
     else Err (app_error TerminalChannel "The remote terminal channel could not be closed cleanly."), c))).
