(* ===== verification/SshChannelSafe.v ===== *)
(** What the SSH channel programs guarantee.

    [dispatch_is_honest]: a dispatched operation sends one fixed, shell-safe
    command and its outcome says no more than the messages received.
    [execute_returns_exact_output]: a read-only command's text is the whole
    standard output of a command that exited with zero, within the limit.
    [terminal_stream_is_lossless]: nothing the server sends while a terminal
    starts is lost or reordered for the reader. *)

From S2P Require Import Prelude Str Model Ip Utf8 Prog Interp SystemdUnit Authority Foundation Engine SshChannel.

(** ** Readings of a trace *)

Definition execs (t : list (event ssh_reply)) : list str :=
  omap (λ e, match ev_call e with HExec c => Some c | _ => None end) t.

Definition wait_reply (e : event ssh_reply) : option (race (option ChannelMsg)) :=
  match e with Ev HWait r => Some r | _ => None end.

(** The replies to [channel.wait()], in order. *)
Definition waits (t : list (event ssh_reply)) : list (race (option ChannelMsg)) := omap wait_reply t.

Definition got (m : ChannelMsg) : race (option ChannelMsg) := Won (Some m).

Definition is_success (m : ChannelMsg) : bool := match m with MSuccess => true | _ => false end.
Definition payload (m : ChannelMsg) : option (list Z) :=
  match m with MData d | MExtendedData d => Some d | _ => None end.
Definition stdout_of (m : ChannelMsg) : list Z := match m with MData d => d | _ => [] end.
(** The last exit status reported. *)
Definition exit_status_of (ms : list ChannelMsg) : option Z :=
  list.last (omap (λ m, match m with MExitStatus n => Some n | _ => None end) ms).
Definition output_total (ms : list ChannelMsg) : Z := zlen (concat (omap payload ms)).

Definition closes (t : list (event ssh_reply)) : Prop := Exists (λ e, ev_call e = HClose ∨ ev_call e = HGuardClose) t.

Lemma execs_app t1 t2 : execs (t1 ++ t2) = execs t1 ++ execs t2.
Proof. apply omap_app. Qed.
Lemma waits_app t1 t2 : waits (t1 ++ t2) = waits t1 ++ waits t2.
Proof. apply omap_app. Qed.
Lemma output_total_snoc ms m :
  output_total (ms ++ [m]) = output_total ms + match payload m with Some d => zlen d | None => 0 end.
Proof.
  unfold output_total. rewrite omap_app, concat_app, length_app. cbn. destruct (payload m); cbn;
  rewrite ?app_nil_r; cbn [length]; lia.
Qed.
Lemma map_got_snoc ms m : map got (ms ++ [m]) = map got ms ++ [got m].
Proof. apply map_app. Qed.

#[export] Hint Rewrite execs_app waits_app map_got_snoc output_total_snoc : nexus.

(** ** Dispatch *)

(** What the messages received so far say about a dispatched operation. *)
Record progress_of (cmd : str) (t : list (event ssh_reply)) (p : Progress) (ms : list ChannelMsg) : Prop := {
  po_execs : execs t = [cmd];
  po_waits : waits t = map got ms;
  po_accepted : accepted p = existsb is_success ms;
  po_evidence : execution_evidence p = existsb (λ m, bool_decide (is_Some (payload m))) ms;
  po_bytes : output_bytes p = output_total ms;
  po_limit : output_total ms ≤ MUTATION_OUTPUT_LIMIT
}.

(** A wait that ends the operation without an exit, output or a timeout. *)
Definition inconclusive (r : race (option ChannelMsg)) : bool :=
  match r with
  | Won (Some (MExitStatus _ | MExitSignal | MData _ | MExtendedData _ | MEof | MWindowAdjusted)) => false
  | Won _ | WLifetime => true
  | WCancelled | WTimeout _ => false
  end.

(** The verdict on a completed dispatch, read off the messages: what was
    received before the last wait, and how that wait ended. *)
Inductive verdict (ms : list ChannelMsg) : race (option ChannelMsg) → MutationTransportOutcome → Prop :=
| v_rejected : existsb is_success ms = false → omap payload ms = [] →
    verdict ms (got MFailure) (NotDispatched NdRejected)
| v_exit n : verdict ms (got (MExitStatus n)) (CompletionConfirmed (n =? 0))
| v_signal : verdict ms (got MExitSignal) (CompletionConfirmed false)
| v_output m d : payload m = Some d → MUTATION_OUTPUT_LIMIT < output_total ms + zlen d →
    verdict ms (got m) (CompletionUnknown CuOutputLimit)
| v_lost r : inconclusive r = true →
    verdict ms r (CompletionUnknown CuConnectionLost)
| v_cancelled : verdict ms WCancelled (CompletionUnknown CuCancelled)
| v_timeout o : verdict ms (WTimeout o) (CompletionUnknown CuTimeout).

Lemma no_payload ms :
  existsb (λ m, bool_decide (is_Some (payload m))) ms = false → omap payload ms = [].
Proof.
  induction ms as [|m ms IH]; cbn; [done|]. intros H. split_bools.
  destruct (payload m); [|auto]. by exfalso; eauto.
Qed.

(** Recording a message that does not complete the operation. *)
Lemma progress_step cmd t p ms m p' :
  progress_of cmd t p ms →
  accepted p' = accepted p || is_success m →
  execution_evidence p' = execution_evidence p || bool_decide (is_Some (payload m)) →
  output_bytes p' = output_total (ms ++ [m]) → output_total (ms ++ [m]) ≤ MUTATION_OUTPUT_LIMIT →
  progress_of cmd (t ++ [Ev HWait (got m)]) p' (ms ++ [m]).
Proof.
  intros [He Hw Ha Hv Hb Hl] H1 H2 H3 H4. split; [..|done|done].
  - rewrite execs_app, He. done.
  - by rewrite waits_app, Hw, map_got_snoc.
  - by rewrite existsb_app, <-Ha; cbn; rewrite orb_false_r.
  - by rewrite existsb_app, <-Hv; cbn; rewrite orb_false_r.
Qed.

Lemma handle_data_spec cmd t p ms m d :
  progress_of cmd t p ms → payload m = Some d → is_success m = false →
  match handle_data d p with
  | (Continue, p') => progress_of cmd (t ++ [Ev HWait (got m)]) p' (ms ++ [m])
  | (Complete o, _) => verdict ms (got m) o
  end.
Proof.
  intros Hp Hm Hs. unfold handle_data. rewrite (po_bytes _ _ _ _ Hp). pose proof (po_limit _ _ _ _ Hp).
  assert (0 ≤ output_total ms) by (unfold output_total; lia).
  assert (output_total (ms ++ [m]) = output_total ms + zlen d) by (by rewrite output_total_snoc, Hm).
  unfold MUTATION_OUTPUT_LIMIT, saturating_add, u64_max in *.
  destruct (8 * 1024 <? _) eqn:E; split_bools.
  - eapply v_output; [done|]. unfold MUTATION_OUTPUT_LIMIT. lia.
  - eapply progress_step; [done|..]; cbn [accepted execution_evidence output_bytes].
    + by rewrite Hs, orb_false_r.
    + by rewrite Hm, orb_true_r.
    + lia.
    + unfold MUTATION_OUTPUT_LIMIT. lia.
Qed.

(** One message either continues with the progress it records, or completes
    with the verdict. *)
Lemma handle_message_spec cmd t p ms m :
  progress_of cmd t p ms →
  match handle_message m p with
  | (Continue, p') => progress_of cmd (t ++ [Ev HWait (got m)]) p' (ms ++ [m])
  | (Complete o, _) => verdict ms (got m) o
  end.
Proof.
  intros Hp. pose proof Hp as [He Hw Ha Hv Hb Hl].
  assert (payload m = None → output_total (ms ++ [m]) = output_total ms) as Hz.
  { intros Hn. rewrite output_total_snoc, Hn. lia. }
  destruct m; cbn [handle_message]; try (by apply handle_data_spec); try (by constructor);
    try (eapply progress_step; [done|..]; rewrite ?Hz by done; cbn; by rewrite ?orb_false_r).
  - destruct (accepted p) eqn:E; [by constructor|].
    eapply progress_step; [done|..]; rewrite ?Hz by done; cbn; by rewrite ?orb_false_r, ?orb_true_r.
  - destruct (accepted p) eqn:E1, (execution_evidence p) eqn:E2; cbn; try by constructor.
    apply v_rejected; [done|]. by apply no_payload.
  - destruct (accepted p) eqn:E; [|by constructor].
    eapply progress_step; [done|..]; rewrite ?Hz by done; cbn; by rewrite ?orb_false_r.
Qed.

(** A request that was sent: one command, messages, and the verdict on how
    the last wait ended (none when the request itself could not be sent). *)
Definition requested (cmd : str) (t : list (event ssh_reply)) (o : MutationTransportOutcome) : Prop :=
  execs t = [cmd] ∧
  ((waits t = [] ∧ ∃ why, o = CompletionUnknown why) ∨
   ∃ ms r, waits t = map got ms ++ [r] ∧ output_total ms ≤ MUTATION_OUTPUT_LIMIT ∧ verdict ms r o).

Lemma request_completion_wp fuel cmd t :
  execs t = [] → waits t = [] → wp (request_completion fuel cmd) t (requested cmd).
Proof.
  intros He Hw. unfold request_completion. cbn [hask pbind wp]. intros [[[]|e]| | |o]; cbn [wp];
    try (by split; [rewrite execs_app, He|left; rewrite waits_app, Hw; eauto]).
  apply (wp_loop hspin (λ t p, ∃ ms, progress_of cmd t p ms)); [by intros t1 []| |].
  - intros t1 p [ms Hp]. cbn [wait_round hask pbind wp]. intros r.
    assert (∀ o, verdict ms r o → requested cmd (t1 ++ [Ev HWait r]) o) as Hv.
    { intros o Ho. destruct Hp as [H1 H2 _ _ _ Hl]. split; [by rewrite execs_app, H1|]. right. exists ms, r.
      rewrite waits_app, H2. done. }
    destruct r as [[m|]| | |o]; try (by apply Hv; constructor).
    pose proof (handle_message_spec cmd t1 p ms m Hp) as Hm.
    destruct (handle_message m p) as [[|o] p']; [by eauto|by apply Hv].
  - exists []. split; [by rewrite execs_app, He|by rewrite waits_app, Hw|done..].
Qed.

(** The whole dispatch: either nothing was requested, or the request was made
    on a channel that is closed again. *)
Lemma dispatch_wp o fuel target :
  wp (dispatch o fuel target) [] (λ t out,
    (execs t = [] ∧ ∃ why, out = NotDispatched why ∧ why ≠ NdRejected) ∨
    (requested (mutation_command o target) t out ∧ closes t)).
Proof.
  unfold dispatch. cbn [hask pbind wp]. intros [|]; cbn [wp]; [by left; eauto|].
  intros [|]; cbn [wp]; [by left; eauto|].
  intros [[[]|e]| | |b]; cbn [wp]; try (by left; eauto).
  rewrite wp_bind. eapply wp_mono; [|by apply request_completion_wp].
  intros t out [He Hw]. cbn. intros []. right. split.
  - split; [by rewrite execs_app, He|]. rewrite waits_app. cbn. by rewrite app_nil_r.
  - apply Exists_app. right. constructor. by left.
Qed.

(** [C19] Dispatching a reviewed systemd operation on a parsed unit name sends
    at most one command, the fixed prefix of that operation followed by a name
    without shell metacharacters, and reports no more than it knows.  "Not
    dispatched" means that nothing was requested, or that the server refused
    the request before accepting it and before any output; a confirmed
    completion carries the exit the server reported; any other end after the
    request (a lost connection, a cancellation, a timeout, too much output)
    is an unknown completion; and the channel is closed. *)
Theorem dispatch_is_honest (o : NativeOp) (fuel : nat) (value : str) (target : SystemdServiceUnitName) t out :
  unit_parse value = Ok target → runs (dispatch o fuel target) t out →
  (execs t = [] ∧ ∃ why, out = NotDispatched why ∧ why ≠ NdRejected) ∨
  (execs t = [COMMAND_PREFIX o ++ value] ∧ Forall (λ c, unit_char c = true) value ∧ closes t ∧
   ((waits t = [] ∧ ∃ why, out = CompletionUnknown why) ∨
    ∃ ms r, waits t = map got ms ++ [r] ∧ output_total ms ≤ MUTATION_OUTPUT_LIMIT ∧ verdict ms r out)).
Proof.
  intros Hu Hr. pose proof (wp_runs _ [] t out _ (dispatch_wp o fuel target) Hr) as H.
  change ([] ++ t) with t in H. destruct H as [H|[[He Hw] Hc]]; [by left|right].
  pose proof (unit_parse_inv _ _ Hu) as (-> & _). split; [done|]. split; [|done].
  apply list.Forall_forall. intros c Hin. by apply (unit_parse_chars _ _ c Hu).
Qed.

(** ** Read-only commands *)

(** What a collected output is, in terms of the messages received. *)
Record collected_of (cmd : str) (t : list (event ssh_reply)) (c : Collected) (ms : list ChannelMsg) : Prop := {
  cl_execs : execs t = [cmd];
  cl_waits : waits t = map got ms;
  cl_output : co_output c = concat (map stdout_of ms);
  cl_total : co_total c = output_total ms;
  cl_limit : output_total ms ≤ SESSION_OUTPUT_LIMIT;
  cl_exit : co_exit_status c = exit_status_of ms;
  cl_clean : MFailure ∉ ms ∧ MExitSignal ∉ ms ∧ MClose ∉ ms
}.

Lemma collected_step cmd t c ms m c' :
  collected_of cmd t c ms → m ≠ MFailure → m ≠ MExitSignal → m ≠ MClose →
  co_output c' = co_output c ++ stdout_of m → co_total c' = output_total (ms ++ [m]) →
  output_total (ms ++ [m]) ≤ SESSION_OUTPUT_LIMIT →
  co_exit_status c' = match m with MExitStatus n => Some n | _ => co_exit_status c end →
  collected_of cmd (t ++ [Ev HWait (got m)]) c' (ms ++ [m]).
Proof.
  intros [He Hw Ho Ht Hl Hx (? & ? & ?)] ? ? ? Y1 Y2 Y3 Y4. split; try done.
  - by rewrite execs_app, He.
  - by rewrite waits_app, Hw, map_got_snoc.
  - rewrite Y1, Ho, map_app, concat_app. cbn. by rewrite app_nil_r.
  - unfold exit_status_of in *. rewrite Y4, omap_app, Hx. destruct m; cbn; rewrite ?app_nil_r, ?last_snoc; done.
  - set_solver.
Qed.

Lemma collect_message_spec cmd t c ms m c' :
  collected_of cmd t c ms → collect_message (Some m) c = inl c' →
  collected_of cmd (t ++ [Ev HWait (got m)]) c' (ms ++ [m]).
Proof.
  intros Hc. pose proof (cl_total _ _ _ _ Hc) as Ht. pose proof (cl_limit _ _ _ _ Hc) as Hl.
  assert (0 ≤ output_total ms) by (unfold output_total; lia).
  assert (∀ d, payload m = Some d → ∀ total, count_output (co_total c) (zlen d) = Ok total →
    total = output_total (ms ++ [m]) ∧ output_total (ms ++ [m]) ≤ SESSION_OUTPUT_LIMIT) as Hd.
  { intros d Hp total. rewrite output_total_snoc, Hp, Ht.
    unfold count_output, saturating_add, SESSION_OUTPUT_LIMIT, u64_max in *.
    destruct (_ <? _) eqn:E; split_bools; [done|]. intros [= <-]. lia. }
  assert (payload m = None → output_total (ms ++ [m]) = output_total ms) as Hz.
  { intros Hn. rewrite output_total_snoc, Hn. lia. }
  destruct m; cbn [collect_message]; try done;
    try (intros [= <-]; eapply collected_step; [done..|]; rewrite ?Hz by done; cbn; by rewrite ?app_nil_r);
    try (intros [= <-]; eapply collected_step; try done; rewrite ?Hz by done; cbn; by rewrite ?app_nil_r);
    destruct (count_output _ _) as [total|e] eqn:E; try done; intros [= <-];
    (destruct (Hd data eq_refl total E) as [-> ?]); eapply collected_step; try done; cbn; by rewrite ?app_nil_r.
Qed.

(** The output is complete: the messages end with the close or the end of the
    stream. *)
Definition ended (r : race (option ChannelMsg)) : Prop := r = Won None ∨ r = got MClose.

Definition complete_output (cmd : str) (t : list (event ssh_reply)) (x : Res str) : Prop :=
  match x with
  | Err _ => True
  | Ok s => ∃ ms r c, execs t = [cmd] ∧ waits t = map got ms ++ [r] ∧ ended r ∧ finish_output c = Ok s ∧
      ∃ t0, collected_of cmd t0 c ms
  end.

Lemma collect_loop_wp fuel cmd t :
  execs t = [cmd] → waits t = [] →
  wp (pbind (loop hspin fuel collect_round collected_start) (λ c, Ret (c ≫= finish_output))) t (complete_output cmd).
Proof.
  intros He Hw. rewrite wp_bind.
  apply (wp_loop hspin (λ t c, ∃ ms, collected_of cmd t c ms)); [by intros t1 []| |].
  - intros t1 c [ms Hc]. cbn [collect_round hask pbind wp]. intros r.
    assert (∀ r, ended r → complete_output cmd (t1 ++ [Ev HWait r]) (finish_output c)) as Hend.
    { intros r' Hr'. unfold complete_output. destruct (finish_output c) as [s|e] eqn:Ef; [|done]. exists ms, r', c.
      rewrite execs_app, waits_app, (cl_execs _ _ _ _ Hc), (cl_waits _ _ _ _ Hc). eauto 10. }
    destruct r as [[m|]| | |o]; cbn [wp]; try done.
    + destruct (collect_message (Some m) c) as [c'|[c'|e]] eqn:E; [|destruct m; cbn in E; try done|done].
      * exists (ms ++ [m]). by eapply collect_message_spec.
      * by repeat case_match.
      * by repeat case_match.
      * injection E as <-. apply Hend. by right.
    + apply Hend. by left.
  - exists []. split; try done. set_solver.
Qed.

Lemma session_execute_wp fuel command :
  wp (session_execute fuel command) [] (λ t x,
    complete_output (Engine.command command) t x ∧ (execs t ≠ [] → closes t)).
Proof.
  unfold session_execute. cbn [hask pbind wp]. intros [|]; cbn [wp]; [done|].
  intros [[[]|e]| | |b]; cbn [wp]; try done.
  assert (∀ t x, complete_output (Engine.command command) t x → ∀ r,
    complete_output (Engine.command command) (t ++ [Ev HGuardClose r]) (lost r (λ _, x)) ∧
    (execs (t ++ [Ev HGuardClose r]) ≠ [] → closes (t ++ [Ev HGuardClose r]))) as Hclose.
  { intros t x Hx r. split; [|intros _; apply Exists_app; right; constructor; by right].
    unfold complete_output. destruct r as [[]| | |o]; cbn; try done.
    destruct x as [s|e]; [|done]. rewrite execs_app, waits_app. cbn. by rewrite !app_nil_r. }
  intros [[[]|e]| | |b]; cbn [pbind wp]; try (by apply Hclose).
  rewrite wp_bind. eapply wp_mono; [|by apply (collect_loop_wp fuel (Engine.command command))].
  cbn. intros t x Hx r. by apply Hclose.
Qed.

(** The text a read-only command returns is exactly the UTF-8 decoding
    of all standard output the server sent, from a command that was the fixed
    text of the allowlist and exited with status zero, was not refused or
    killed by a signal, and sent at most 64 KiB of output and error output
    together; and whatever the result, a channel on which a command was sent
    is closed. *)
Theorem execute_returns_exact_output (fuel : nat) (command : ReadOnlyCommand) t x :
  runs (session_execute fuel command) t x →
  (execs t ≠ [] → closes t) ∧
  (∀ s, x = Ok s → ∃ ms r,
    execs t = [Engine.command command] ∧ waits t = map got ms ++ [r] ∧ ended r ∧
    from_utf8 (concat (map stdout_of ms)) = Some s ∧
    output_total ms ≤ SESSION_OUTPUT_LIMIT ∧
    exit_status_of ms = Some 0 ∧
    MFailure ∉ ms ∧ MExitSignal ∉ ms).
Proof.
  intros Hr. pose proof (wp_runs _ [] t x _ (session_execute_wp fuel command) Hr) as [Hx Hc].
  change ([] ++ t) with t in Hx, Hc. split; [done|]. intros s ->.
  destruct Hx as (ms & r & c & He & Hw & Hend & Hf & t0 & [_ _ Ho _ Hl Hx (? & ? & _)]).
  unfold finish_output in Hf. destruct (bool_decide _) eqn:Eb; [done|]. split_bools.
  apply dec_stable in Eb. apply ok_or_ok in Hf. exists ms, r. rewrite <-Ho, <-Hx. done.
Qed.

(** ** Terminal channels *)

Definition received_chunk (e : event ssh_reply) : option (list Z) :=
  match e with
  | Ev HWait (Won (Some m)) | Ev HRead (Some (Some m)) => payload m
  | _ => None
  end.

(** Every chunk of terminal output the server delivered, in order. *)
Definition received (t : list (event ssh_reply)) : list (list Z) := omap received_chunk t.

(** The requests made on the channel, in order. *)
Definition requests (t : list (event ssh_reply)) : list ssh_call :=
  omap (λ e, match ev_call e with
             | HPty _ _ | HShell | HExec _ | HSubsystem _ | HWrite _ => Some (ev_call e)
             | _ => None
             end) t.

Lemma received_chunks_app t1 t2 : received (t1 ++ t2) = received t1 ++ received t2.
Proof. apply omap_app. Qed.
Lemma requests_app t1 t2 : requests (t1 ++ t2) = requests t1 ++ requests t2.
Proof. apply omap_app. Qed.

Definition startup_of (reqs : list ssh_call) (t : list (event ssh_reply)) (s : Startup) : Prop :=
  received t = pending s ∧ pending_bytes s = zlen (concat (pending s)) ∧
  pending_bytes s ≤ STARTUP_OUTPUT_LIMIT ∧ requests t = reqs.

(** The startup state after one more event that carries no output. *)
Lemma startup_quiet reqs reqs' t s e :
  startup_of reqs t s → received [e] = [] → requests [e] = reqs' → startup_of (reqs ++ reqs') (t ++ [e]) s.
Proof.
  intros (H1 & H2 & H3 & H4) He Hr. split_and!; [|done..|].
  - by rewrite received_chunks_app, He, app_nil_r.
  - by rewrite requests_app, H4, Hr.
Qed.

Lemma reply_message_spec reqs t s refused m :
  startup_of reqs t s →
  match reply_message refused m s with
  | inl s' | inr (Ok s') => startup_of reqs (t ++ [Ev HWait (Won m)]) s'
  | inr (Err _) => True
  end.
Proof.
  intros Hs. rewrite <-(app_nil_r reqs).
  assert (received [Ev HWait (Won m)] = [] → startup_of (reqs ++ []) (t ++ [Ev HWait (Won m)]) s) as Hq.
  { intros He. by apply startup_quiet. }
  destruct Hs as (H1 & H2 & H3 & H4).
  assert (∀ d, received [Ev HWait (Won m)] = [d] → (STARTUP_OUTPUT_LIMIT <? saturating_add (pending_bytes s) (zlen d)) = false →
    startup_of (reqs ++ []) (t ++ [Ev HWait (Won m)])
      {| pending := pending s ++ [d]; pending_bytes := saturating_add (pending_bytes s) (zlen d) |}) as Hd.
  { intros d He E. split_bools. unfold saturating_add, STARTUP_OUTPUT_LIMIT, u64_max in *. unfold startup_of.
    cbn [pending pending_bytes]. split_and!.
    - by rewrite received_chunks_app, H1, He.
    - rewrite concat_app, length_app. cbn. rewrite app_nil_r. lia.
    - unfold STARTUP_OUTPUT_LIMIT. lia.
    - rewrite requests_app, H4. done. }
  destruct m as [[]|]; cbn [reply_message]; try done; try (by apply Hq);
    destruct (_ <? _) eqn:E; try done; by apply Hd.
Qed.

Lemma wait_for_reply_wp fuel refused reqs t s :
  startup_of reqs t s →
  wp (wait_for_request_reply fuel refused s) t (λ t' x, match x with Ok s' => startup_of reqs t' s' | Err _ => True end).
Proof.
  apply (wp_loop hspin (startup_of reqs)); [by intros t1 []|]. clear t s. intros t s Hs.
  cbn [reply_round hask pbind wp]. intros [m| | |o]; cbn [wp]; try done.
  by apply reply_message_spec.
Qed.

Lemma start_terminal_wp fuel size t :
  received t = [] → requests t = [] →
  wp (start_terminal fuel size : prog ssh_reply _) t (λ t' x,
    match x with Ok s => startup_of [HPty (lit "xterm-256color") size; HShell] t' s | Err _ => True end).
Proof.
  intros Hr Hq. unfold start_terminal. rewrite wp_io_bind. cbn [hask pbind wp]. intros r1.
  destruct r1 as [[|]| | |]; cbn [io_lift request_sent mbind io_bind pbind wp]; try done.
  rewrite wp_io_bind. eapply wp_mono; [|apply (wait_for_reply_wp fuel pty_rejected [HPty (lit "xterm-256color") size])].
  - intros t1 [s|e] Hs; cbn; [|done]. intros r2.
    destruct r2 as [[|]| | |]; cbn [request_sent mbind io_bind pbind wp]; try done.
    apply wait_for_reply_wp. by apply (startup_quiet [HPty (lit "xterm-256color") size] [HShell]).
  - split_and!; [|done..|]; [by rewrite received_chunks_app, Hr|by rewrite requests_app, Hq].
Qed.

(** Opening a terminal and reading [n] chunks of its output, or until the
    stream ends. *)
Fixpoint read_chunks (fuel n : nat) (c : TermChannel) : prog ssh_reply (list (list Z) * TermChannel) :=
  match n with
  | O => Ret ([], c)
  | S k =>
      pbind (terminal_read fuel c) (λ rc,
        match rc with
        | (Ok (TData d), c') => pbind (read_chunks fuel k c') (λ x, Ret (d :: x.1, x.2))
        | (_, c') => Ret ([], c')
        end)
  end.

Definition open_and_read (fuel n : nat) (size : TerminalSize) : prog ssh_reply (Res (list (list Z) * TermChannel)) :=
  pbind (open_terminal fuel size) (λ x,
    match x with
    | Err e => Ret (Err e)
    | Ok c => pbind (read_chunks fuel n c) (λ y, Ret (Ok y))
    end).

(** A read from the channel itself adds what it returns to what was received. *)
Lemma terminal_read_wp fuel c t rcv reqs :
  received t = rcv ++ tc_pending c → requests t = reqs →
  wp (terminal_read fuel c) t (λ t' rc, requests t' = reqs ∧
    received t' = rcv ++ (match rc.1 with Ok (TData d) => [d] | _ => [] end) ++ tc_pending rc.2).
Proof.
  intros Hr Hq. unfold terminal_read. destruct (tc_closed c); [done|].
  destruct (tc_pending c) as [|d rest] eqn:Ep; [|cbn; by split].
  rewrite app_nil_r in Hr. rewrite wp_bind. apply (wp_loop hspin (λ t _, requests t = reqs ∧ received t = rcv)); [by intros t1 []| |done].
  intros t1 [] [H1 H2]. cbn [read_round hask pbind wp]. intros [[[]|]|];
    cbn [wp fst snd]; rewrite requests_app, received_chunks_app, H1, H2, ?Ep; cbn; by rewrite ?app_nil_r.
Qed.

Lemma read_chunks_wp fuel n c t rcv reqs :
  received t = rcv ++ tc_pending c → requests t = reqs →
  wp (read_chunks fuel n c) t (λ t' x, requests t' = reqs ∧ received t' = rcv ++ x.1 ++ tc_pending x.2).
Proof.
  revert c t rcv. induction n as [|k IH]; intros c t rcv Hr Hq; cbn [read_chunks]; [done|].
  rewrite wp_bind. eapply wp_mono; [|by apply (terminal_read_wp fuel c t rcv reqs)].
  intros t1 [[[d| |]|e] c'] [H1 H2]; cbn [fst snd] in H2; try done.
  rewrite wp_bind. eapply wp_mono; [|apply (IH c' t1 (rcv ++ [d])); [by rewrite H2, <-app_assoc|done]].
  cbn. intros t2 x [H3 H4]. split; [done|]. by rewrite H4, <-app_assoc.
Qed.

(** Opening a terminal requests the PTY with the validated size and then
    the shell, and nothing the server sent, before or after its replies, is
    lost or reordered: the chunks the reader is given, followed by those still
    held, are exactly the chunks received. *)
Theorem terminal_stream_is_lossless (fuel n : nat) (size : TerminalSize) t chunks c :
  runs (open_and_read fuel n size) t (Ok (chunks, c)) →
  validate_size size = Ok size ∧
  requests t = [HPty (lit "xterm-256color") size; HShell] ∧
  received t = chunks ++ tc_pending c.
Proof.
  intros Hr. eapply (wp_runs _ [] t _ (λ t x, match x with
    | Ok (chunks, c) => validate_size size = Ok size ∧ requests t = [HPty (lit "xterm-256color") size; HShell] ∧
        received t = chunks ++ tc_pending c
    | Err _ => True end)) in Hr; [exact Hr|]. clear t chunks c Hr.
  unfold open_and_read, open_terminal. destruct (validate_size size) as [s0|e] eqn:Ev; [|done].
  assert (s0 = size) as -> by (unfold validate_size in Ev; destruct (_ || _); congruence). rewrite !wp_bind.
  cbn [hask pbind wp]. intros [|]; cbn [pbind wp]; [done|]. intros [|]; cbn [negb pbind wp]; [|done].
  rewrite wp_bind. eapply wp_mono; [|by apply start_terminal_wp].
  intros t [s|e] Hs; cbn [pbind wp]; [|done]. destruct Hs as (H1 & _ & _ & H4). rewrite wp_bind.
  eapply wp_mono; [|by by apply (read_chunks_wp fuel n _ t [] [HPty (lit "xterm-256color") size; HShell])]. intros t' [chunks c] [? ?]. by split_and!.
Qed.

(** ** Concrete runs

    A server that answers every wait and read with the next message of a
    script and accepts every request. *)

Definition scripted (s : list ChannelMsg) (c : ssh_call) : option (ssh_reply c * list ChannelMsg) :=
  match c with
  | HIsClosed | HIsCancelled | HLifetimeCancelled => Some (false, s)
  | HOpen | HExec _ => Some (Won (Ok tt), s)
  | HPty _ _ | HShell => Some (Won true, s)
  | HOpenPlain | HSubsystem _ | HWrite _ | HResize _ | HCloseWriter => Some (true, s)
  | HWait => match s with m :: s => Some (Won (Some m), s) | [] => Some (Won None, []) end
  | HRead => match s with m :: s => Some (Some (Some m), s) | [] => Some (Some None, []) end
  | HGuardClose => Some (Won tt, s)
  | HDisconnect => Some (Some (Ok tt), s)
  | HClose | HEof | HSetClosed | HCancelLifetime => Some (tt, s)
  | HSpin => None
  end.

Lemma scripted_run {A} (p : prog ssh_reply A) s t s' a :
  simulate scripted s p = Some (t, s', a) → runs p t a.
Proof. apply simulate_runs. Qed.

Definition failed_exit : list ChannelMsg := [MSuccess; MWindowAdjusted; MExtendedData [70; 97; 105; 108]; MExitStatus 1].

Lemma dispatch_is_honest_witness :
  ∃ t ms r, waits t = map got ms ++ [r] ∧ verdict ms r (CompletionConfirmed false) ∧
    execs t = [COMMAND_PREFIX SystemdReload ++ lit "nginx.service"].
Proof.
  destruct (simulate scripted failed_exit (dispatch SystemdReload 10 (Unit (lit "nginx.service")))) as [[[t s'] out]|] eqn:E;
    [|by vm_compute in E].
  assert (out = CompletionConfirmed false) as ->.
  { assert (snd <$> simulate scripted failed_exit (dispatch SystemdReload 10 (Unit (lit "nginx.service"))) = Some out) as H
      by (by rewrite E). vm_compute in H. congruence. }
  destruct (dispatch_is_honest SystemdReload 10 (lit "nginx.service") (Unit (lit "nginx.service")) t
    (CompletionConfirmed false) eq_refl (scripted_run _ _ _ _ _ E)) as [(_ & why & H & _)|(He & _ & _ & [(_ & why & H)|(ms & r & Hw & _ & Hv)])];
    [done|done|]. by exists t, ms, r.
Defined.

Lemma execute_returns_exact_output_witness :
  ∃ t ms r, waits t = map got ms ++ [r] ∧ from_utf8 (concat (map stdout_of ms)) = Some (lit "5.15") ∧
    exit_status_of ms = Some 0 ∧ closes t.
Proof.
  destruct (simulate scripted [MSuccess; MData (lit "5."); MExtendedData (lit "w"); MData (lit "15"); MExitStatus 0; MEof; MClose]
    (session_execute 10 Kernel)) as [[[t s'] x]|] eqn:E; [|by vm_compute in E].
  assert (x = Ok (lit "5.15")) as ->.
  { apply (f_equal (option_map snd)) in E. vm_compute in E. injection E as <-. reflexivity. }
  destruct (execute_returns_exact_output 10 Kernel t (Ok (lit "5.15")) (scripted_run _ _ _ _ _ E)) as [Hc Hx].
  destruct (Hx _ eq_refl) as (ms & r & He & Hw & _ & Hs & _ & He0 & _).
  exists t, ms, r. split_and!; try done. apply Hc. by rewrite He.
Defined.

Lemma terminal_stream_is_lossless_witness :
  ∃ t, received t = [lit "mot"; lit "d"] ++ [lit "$ "].
Proof.
  destruct (simulate scripted [MData (lit "mot"); MSuccess; MExtendedData (lit "d"); MData (lit "$ "); MSuccess]
    (open_and_read 10 2 {| columns := 80; rows := 24; pixel_width := 0; pixel_height := 0 |})) as [[[t s'] x]|] eqn:E;
    [|by vm_compute in E].
  assert (x = Ok ([lit "mot"; lit "d"], {| tc_pending := [lit "$ "]; tc_closed := false |})) as ->.
  { apply (f_equal (option_map snd)) in E. vm_compute in E. injection E as <-. reflexivity. }
  exists t. apply (terminal_stream_is_lossless 10 2 {| columns := 80; rows := 24; pixel_width := 0; pixel_height := 0 |}
    t _ _ (scripted_run _ _ _ _ _ E)).
Defined.
