(* ===== verification/Terminal.v ===== *)
(** The terminal manager ([nexus-terminal/src/manager.rs]).

    Entries are shared ([Arc<Entry>]): callers, the output pump and the
    closing code hold them after the manager's map has dropped them.  The
    entries live in [heap]; [sessions] is the key set of the map.  Every
    [async fn] is cut at its awaits: a task records where it is, and a step
    is what it does without waiting.  The remote channel is an identifier;
    what it reads is an input.

    The lock of a channel slot is held across [channel.close().await], by the
    pump or by a closing task, and then there is a guard in [guards]; who wants
    the lock waits until there is none.  The server may answer a close at any
    time, or never: [tokio::time::timeout] ends the wait when [clock] has reached
    the deadline.  The manager's lock and the lock of the output buffer are never
    held across an await, so taking them is part of a step. *)

From S2P Require Import Prelude Str Model Ip SshChannel.

Definition MAX_OPEN_TERMINALS_PER_HOST : Z := 8.
Definition MAX_INPUT_BYTES : Z := 16 * 1024.
Definition OUTPUT_CHUNK_BYTES : nat := 16 * 1024.
Definition OUTPUT_QUEUE_CAPACITY : Z := 64.
Definition OUTPUT_BATCH_BYTES : Z := 64 * 1024.
Definition TOMBSTONE_LIMIT : Z := 64.
(** Two seconds; the clock counts milliseconds. *)
Definition CLOSE_TIMEOUT : Z := 2 * 1000.

Abbreviation chunk := (list Z) (only parsing).
Abbreviation ChannelId := N (only parsing).

(** ** Entries *)

Record OutputBuffer := { receiver : list chunk; carryover : option chunk }.

Record Entry := {
  view : TerminalSession;
  channel : option ChannelId;
  output : OutputBuffer;
  sender : bool;                   (** the sending half still exists *)
  cancel : bool                    (** the token is cancelled *)
}.

Record Ownership := { own_host : HostId; own_session : HostSessionId; own_terminal : TerminalSessionId }.

#[export] Instance Ownership_eq_dec : EqDecision Ownership.
Proof. solve_decision. Defined.

Definition with_view (e : Entry) (v : TerminalSession) : Entry :=
  {| view := v; channel := channel e; output := output e; sender := sender e; cancel := cancel e |}.
Definition with_channel (e : Entry) (c : option ChannelId) : Entry :=
  {| view := view e; channel := c; output := output e; sender := sender e; cancel := cancel e |}.
Definition with_output (e : Entry) (o : OutputBuffer) : Entry :=
  {| view := view e; channel := channel e; output := o; sender := sender e; cancel := cancel e |}.
Definition drop_sender (e : Entry) : Entry :=
  {| view := view e; channel := channel e; output := output e; sender := false; cancel := cancel e |}.
Definition cancel_entry (e : Entry) : Entry :=
  {| view := view e; channel := channel e; output := output e; sender := sender e; cancel := true |}.

Definition view_state (v : TerminalSession) (s : TerminalState) (err : option AppError) : TerminalSession :=
  {| ts_id := ts_id v; ts_host_id := ts_host_id v; ts_host_session_id := ts_host_session_id v;
     ts_label := ts_label v; ts_state := s; ts_size := ts_size v; ts_error := err |}.
(** [view.state = s], the error unchanged. *)
Definition with_state (e : Entry) (s : TerminalState) : Entry :=
  with_view e (view_state (view e) s (ts_error (view e))).
(** [fail_entry] *)
Definition fail_entry (e : Entry) (error : AppError) (s : TerminalState) : Entry :=
  with_view e (view_state (view e) s (Some error)).
Definition with_size (e : Entry) (size : TerminalSize) : Entry :=
  let v := view e in
  with_view e {| ts_id := ts_id v; ts_host_id := ts_host_id v; ts_host_session_id := ts_host_session_id v;
                 ts_label := ts_label v; ts_state := ts_state v; ts_size := size; ts_error := ts_error v |}.
Definition with_label (e : Entry) (l : str) : Entry :=
  let v := view e in
  with_view e {| ts_id := ts_id v; ts_host_id := ts_host_id v; ts_host_session_id := ts_host_session_id v;
                 ts_label := l; ts_state := ts_state v; ts_size := ts_size v; ts_error := ts_error v |}.

Definition state (e : Entry) : TerminalState := ts_state (view e).
Definition host (e : Entry) : HostId := ts_host_id (view e).

(** ** Errors *)

Definition invalid_input : AppError :=
  app_error Validation "Terminal input must be non-empty base64 data no larger than 16 KiB.".
Definition unavailable : AppError :=
  app_error TerminalUnavailable "This terminal is no longer open. Open a new terminal to continue.".
Definition terminal_not_found : AppError := app_error NotFound "The terminal session was not found.".
Definition creation_cancelled : AppError := app_error Cancelled "Terminal creation was cancelled.".
Definition too_many_terminals : AppError :=
  app_error Conflict "This host already has the maximum of eight terminal sessions.".
Definition foreign_terminal : AppError :=
  app_error Policy "This terminal does not belong to the supplied host connection.".

(** ** Tasks *)

(** Where an [open_with_timeout] waits. *)
Inductive OpenPhase :=
| Starting                       (** the connector *)
| Accepting (c : ChannelId)      (** the lock of the channel slot *)
| Late (c : ChannelId)           (** closing a channel that came after the cancellation *)
| Rejecting (c : ChannelId)      (** closing a channel that was not accepted *)
| Removing.                      (** the manager's lock, to forget a failed entry *)

(** Where a [pump_output] waits. *)
Inductive PumpPhase :=
| Reading
| Sending (rest : list chunk)    (** room in the queue, for these chunks *)
| Ending                         (** the lock of the channel slot *)
| PumpClosing (c : ChannelId).   (** the channel's close *)

(** What follows the [close_entry] calls of a task. *)
Inductive Finish :=
| FClose (key : Ownership) | FDisconnect | FRemoveHost (h : HostId) | FShutdown.

(** Where a [close_entry] waits. *)
Inductive ClosePhase :=
| CBegin | CTake | CChannel (c : ChannelId) | CDrain.

Record CloseTask := {
  ct_todo : list TerminalSessionId;  (** entries left, the current one first *)
  ct_phase : ClosePhase;
  ct_final : TerminalState;
  ct_finish : Finish
}.

(** The lock of a channel slot while a channel is being closed: held by the
    pump of the entry ([None]) or by a closing task, with its deadline. *)
Record Guard := { held_by : option N; until : Z }.

(** ** The manager *)

Record TermSys := {
  heap : gmap TerminalSessionId Entry;
  sessions : gset TerminalSessionId;
  next_label : gmap HostId Z;
  closed : list Ownership;
  opens : gmap TerminalSessionId OpenPhase;
  pumps : gmap TerminalSessionId PumpPhase;
  closers : gmap N CloseTask;
  clock : Z;                         (** milliseconds *)
  guards : gmap TerminalSessionId Guard;
  (* history: the bytes the pump has read from the channel and the bytes the
     callers have polled, per terminal, and the terminals that were closed *)
  read_log : gmap TerminalSessionId (list Z);
  polled_log : gmap TerminalSessionId (list Z);
  emptied : gset TerminalSessionId
}.

Definition term_new : TermSys :=
  {| heap := ∅; sessions := ∅; next_label := ∅; closed := []; opens := ∅; pumps := ∅; closers := ∅; clock := 0; guards := ∅;
     read_log := ∅; polled_log := ∅; emptied := ∅ |}.

Definition set_entry (y : TermSys) (id : TerminalSessionId) (e : Entry) : TermSys :=
  {| heap := <[id := e]> (heap y); sessions := sessions y; next_label := next_label y; closed := closed y;
     opens := opens y; pumps := pumps y; closers := closers y; read_log := read_log y; polled_log := polled_log y;
     emptied := emptied y; clock := clock y; guards := guards y |}.
Definition set_open (y : TermSys) (id : TerminalSessionId) (p : option OpenPhase) : TermSys :=
  {| heap := heap y; sessions := sessions y; next_label := next_label y; closed := closed y;
     opens := partial_alter (λ _, p) id (opens y); pumps := pumps y; closers := closers y; read_log := read_log y;
     polled_log := polled_log y; emptied := emptied y; clock := clock y; guards := guards y |}.
Definition set_pump (y : TermSys) (id : TerminalSessionId) (p : option PumpPhase) : TermSys :=
  {| heap := heap y; sessions := sessions y; next_label := next_label y; closed := closed y;
     opens := opens y; pumps := partial_alter (λ _, p) id (pumps y); closers := closers y; read_log := read_log y;
     polled_log := polled_log y; emptied := emptied y; clock := clock y; guards := guards y |}.
Definition set_closer (y : TermSys) (t : N) (k : option CloseTask) : TermSys :=
  {| heap := heap y; sessions := sessions y; next_label := next_label y; closed := closed y;
     opens := opens y; pumps := pumps y; closers := partial_alter (λ _, k) t (closers y); read_log := read_log y;
     polled_log := polled_log y; emptied := emptied y; clock := clock y; guards := guards y |}.
Definition set_sessions (y : TermSys) (s : gset TerminalSessionId) (l : gmap HostId Z) (c : list Ownership) : TermSys :=
  {| heap := heap y; sessions := s; next_label := l; closed := c;
     opens := opens y; pumps := pumps y; closers := closers y; read_log := read_log y; polled_log := polled_log y;
     emptied := emptied y; clock := clock y; guards := guards y |}.
Definition log_read (y : TermSys) (id : TerminalSessionId) (d : list Z) : TermSys :=
  {| heap := heap y; sessions := sessions y; next_label := next_label y; closed := closed y; opens := opens y;
     pumps := pumps y; closers := closers y; read_log := <[id := default [] (read_log y !! id) ++ d]> (read_log y);
     polled_log := polled_log y; emptied := emptied y; clock := clock y; guards := guards y |}.
Definition log_polled (y : TermSys) (id : TerminalSessionId) (d : list Z) : TermSys :=
  {| heap := heap y; sessions := sessions y; next_label := next_label y; closed := closed y; opens := opens y;
     pumps := pumps y; closers := closers y; read_log := read_log y;
     polled_log := <[id := default [] (polled_log y !! id) ++ d]> (polled_log y); emptied := emptied y; clock := clock y; guards := guards y |}.
Definition log_emptied (y : TermSys) (id : TerminalSessionId) : TermSys :=
  {| heap := heap y; sessions := sessions y; next_label := next_label y; closed := closed y; opens := opens y;
     pumps := pumps y; closers := closers y; read_log := read_log y; polled_log := polled_log y;
     emptied := {[id]} ∪ emptied y; clock := clock y; guards := guards y |}.

(** The lock of the slot of [id] is taken, until [CLOSE_TIMEOUT] from now at the
    latest, and given back. *)
Definition set_guard (y : TermSys) (id : TerminalSessionId) (g : option Guard) : TermSys :=
  {| heap := heap y; sessions := sessions y; next_label := next_label y; closed := closed y; opens := opens y;
     pumps := pumps y; closers := closers y; read_log := read_log y; polled_log := polled_log y;
     emptied := emptied y; clock := clock y; guards := partial_alter (λ _, g) id (guards y) |}.
Definition lock_slot (y : TermSys) (id : TerminalSessionId) (who : option N) : TermSys :=
  set_guard y id (Some {| held_by := who; until := clock y + CLOSE_TIMEOUT |}).
Definition unlock_slot (y : TermSys) (id : TerminalSessionId) : TermSys := set_guard y id None.
Definition slot_free (y : TermSys) (id : TerminalSessionId) : bool := bool_decide (guards y !! id = None).

(** [timeout(CLOSE_TIMEOUT, channel.close())] is over: the server [answered], or
    the deadline has come. *)
Definition close_over (y : TermSys) (id : TerminalSessionId) (answered : bool) : bool :=
  answered || match guards y !! id with Some g => until g <=? clock y | None => true end.

Definition tick (y : TermSys) : TermSys :=
  {| heap := heap y; sessions := sessions y; next_label := next_label y; closed := closed y; opens := opens y;
     pumps := pumps y; closers := closers y; read_log := read_log y; polled_log := polled_log y;
     emptied := emptied y; clock := clock y + 1; guards := guards y |}.

(** ** Opening *)

(** Counted against the limit of a host. *)
Definition counted (h : HostId) (e : Entry) : bool :=
  bool_decide (host e = h) && match state e with TClosed | TFailed | TDisconnected => false | _ => true end.

(** The entries of the manager's map. *)
Definition live (y : TermSys) : gmap TerminalSessionId Entry := filter (λ kv, kv.1 ∈ sessions y) (heap y).

Definition open_count (h : HostId) (y : TermSys) : Z := count_map (counted h) (live y).

Definition new_entry (id : TerminalSessionId) (h : HostId) (hs : HostSessionId) (number : Z) (size : TerminalSize) : Entry :=
  {| view := {| ts_id := id; ts_host_id := h; ts_host_session_id := hs;
                ts_label := lit "Terminal " ++ show_dec number; ts_state := TCreating; ts_size := size; ts_error := None |};
     channel := None; output := {| receiver := []; carryover := None |}; sender := true; cancel := false |}.

(** [open_with_timeout] up to its first await inside the connector. *)
Definition open_begin (id : TerminalSessionId) (h : HostId) (hs : HostSessionId) (size : TerminalSize) (y : TermSys)
    : Res unit * TermSys :=
  match validate_size size with
  | Err e => (Err e, y)
  | Ok size =>
      if MAX_OPEN_TERMINALS_PER_HOST <=? open_count h y then (Err too_many_terminals, y) else
      let number := Z.min u32_max (default 0 (next_label y !! h) + 1) in
      (Ok tt,
       set_open (set_entry (set_sessions y ({[id]} ∪ sessions y) (<[h := number]> (next_label y)) (closed y))
                           id (new_entry id h hs number size)) id (Some Starting))
  end.

(** The connector answered, or the token or the timeout won the race. *)
Definition open_result (id : TerminalSessionId) (r : Res ChannelId) (y : TermSys) : option TermSys :=
  match opens y !! id, heap y !! id with
  | Some Starting, Some e =>
      match r with
      | Ok c => Some (set_open y id (Some (if cancel e then Late c else Accepting c)))
      | Err error =>
          let externally_finalized := bool_decide (state e ≠ TCreating) in
          let e := cancel_entry e in
          if externally_finalized then Some (set_open (set_entry y id (drop_sender e)) id None) else
          let s := if bool_decide (code error = Cancelled) then TDisconnected else TFailed in
          Some (set_open (set_entry y id (fail_entry e error s)) id (Some Removing))
      end
  | _, _ => None
  end.

Definition forget (id : TerminalSessionId) (y : TermSys) : TermSys :=
  set_sessions y (sessions y ∖ {[id]}) (next_label y) (closed y).

(** The rest of [open_with_timeout], one await at a time.  Accepting waits for the
    lock of the slot; the close of a channel that is not accepted needs no lock,
    and its end, by an answer or by the time-out, may come at any time. *)
Definition open_continue (id : TerminalSessionId) (y : TermSys) : option TermSys :=
  match opens y !! id, heap y !! id with
  | Some (Accepting c), Some e =>
      if negb (slot_free y id) then None else
      if cancel e || bool_decide (state e ≠ TCreating) then Some (set_open y id (Some (Rejecting c)))
      else Some (set_pump (set_open (set_entry y id (with_state (with_channel e (Some c)) TOpen)) id None) id (Some Reading))
  | Some (Late c), Some e =>
      Some (set_open (set_entry y id (drop_sender (fail_entry e creation_cancelled TDisconnected))) id None)
  | Some (Rejecting c), Some e => Some (set_open (set_entry y id (drop_sender e)) id None)
  | Some Removing, Some e => Some (forget id (set_open (set_entry y id (drop_sender e)) id None))
  | _, _ => None
  end.

(** The caller drops the future: [StartupGuard::drop]; [locked] tells whether
    [try_lock] got the manager. *)
Definition open_dropped (id : TerminalSessionId) (locked : bool) (y : TermSys) : option TermSys :=
  match opens y !! id, heap y !! id with
  | Some _, Some e =>
      let e := drop_sender (cancel_entry e) in
      let e := if bool_decide (state e = TCreating) then fail_entry e creation_cancelled TDisconnected else e in
      let y := set_open (set_entry y id e) id None in
      Some (if locked then forget id y else y)
  | _, _ => None
  end.

(** ** The output pump *)

(** [data.chunks(n)] *)
Fixpoint chunks_fuel (fuel n : nat) (data : list Z) : list chunk :=
  match fuel, data with
  | S k, _ :: _ => take n data :: chunks_fuel k n (drop n data)
  | _, _ => []
  end.
Definition chunks (n : nat) (data : list Z) : list chunk := chunks_fuel (length data) n data.

(** [channel.read()] answered, or ([None]) the token was cancelled. *)
Definition pump_read (id : TerminalSessionId) (r : option (Res TerminalRead)) (y : TermSys) : option TermSys :=
  match pumps y !! id, heap y !! id with
  | Some Reading, Some e =>
      match r with
      | None => if cancel e then Some (set_pump y id (Some Ending)) else None
      | Some (Ok (TData data)) =>
          Some (set_pump (log_read y id data) id
                  (Some (match chunks OUTPUT_CHUNK_BYTES data with [] => Reading | cs => Sending cs end)))
      | Some (Ok (TExit _)) | Some (Ok TReadClosed) =>
          let e := if bool_decide (state e = TOpen) then with_state e TClosed else e in
          Some (set_pump (set_entry y id e) id (Some Ending))
      | Some (Err error) =>
          let s := if bool_decide (code error = Connection) then TDisconnected else TFailed in
          let e := if bool_decide (state e = TOpen) then fail_entry e error s else e in
          Some (set_pump (set_entry y id e) id (Some Ending))
      end
  | _, _ => None
  end.

(** [output.send(chunk)] got room, or ([stop]) the token was cancelled, in
    which case the pump returns at once. *)
Definition pump_send (id : TerminalSessionId) (stop : bool) (y : TermSys) : option TermSys :=
  match pumps y !! id, heap y !! id with
  | Some (Sending (c :: rest)), Some e =>
      if stop then if cancel e then Some (set_pump (set_entry y id (drop_sender e)) id None) else None else
      if OUTPUT_QUEUE_CAPACITY <=? zlen (receiver (output e)) then None else
      let o := {| receiver := receiver (output e) ++ [c]; carryover := carryover (output e) |} in
      Some (set_pump (set_entry y id (with_output e o)) id (Some (match rest with [] => Reading | _ => Sending rest end)))
  | _, _ => None
  end.

(** After the loop: the channel is taken, which needs the lock of its slot, and
    closed, under that lock; then the lock and the sender are dropped. *)
Definition pump_end (id : TerminalSessionId) (answered : bool) (y : TermSys) : option TermSys :=
  match pumps y !! id, heap y !! id with
  | Some Ending, Some e =>
      if negb (slot_free y id) then None else
      match channel e with
      | Some c => Some (lock_slot (set_pump (set_entry y id (with_channel e None)) id (Some (PumpClosing c))) id None)
      | None => Some (set_pump (set_entry y id (drop_sender e)) id None)
      end
  | Some (PumpClosing c), Some e =>
      if close_over y id answered then Some (unlock_slot (set_pump (set_entry y id (drop_sender e)) id None) id) else None
  | _, _ => None
  end.

(** ** Polling *)

(** [append_output_chunk], with the chunks still unencoded. *)
Definition append_output_chunk (c : chunk) (acc : list chunk) (total : Z) (carry : option chunk)
    : list chunk * Z * option chunk :=
  let remaining := Z.to_nat (OUTPUT_BATCH_BYTES - total) in
  let '(c, carry) := if (remaining <? length c)%nat then (take remaining c, Some (drop remaining c)) else (c, carry) in
  ((if is_empty c then acc else acc ++ [c]), total + zlen c, carry).

(** [while total < OUTPUT_BATCH_BYTES { try_recv }] *)
Fixpoint poll_loop (q : list chunk) (acc : list chunk) (total : Z) (carry : option chunk)
    : list chunk * OutputBuffer :=
  if OUTPUT_BATCH_BYTES <=? total then (acc, {| receiver := q; carryover := carry |}) else
  match q with
  | [] => (acc, {| receiver := []; carryover := carry |})
  | c :: q => let '(acc, total, carry) := append_output_chunk c acc total carry in poll_loop q acc total carry
  end.

Definition poll_buffer (o : OutputBuffer) : list chunk * OutputBuffer :=
  match carryover o with
  | Some c => let '(acc, total, carry) := append_output_chunk c [] 0 None in poll_loop (receiver o) acc total carry
  | None => poll_loop (receiver o) [] 0 None
  end.

Definition key_of (o : HostId * HostSessionId * TerminalSessionId) : Ownership :=
  {| own_host := o.1.1; own_session := o.1.2; own_terminal := o.2 |}.

Definition verify_ownership (v : TerminalSession) (key : Ownership) : Res unit :=
  ensure (bool_decide (ts_host_id v ≠ own_host key) || bool_decide (ts_host_session_id v ≠ own_session key)) foreign_terminal.

(** [TerminalManager::entry] *)
Definition find_entry (key : Ownership) (y : TermSys) : Res Entry :=
  e ← ok_or (live y !! own_terminal key) terminal_not_found;
  _ ← verify_ownership (view e) key;
  Ok e.

Record TerminalOutputBatch (T : Type) := { tb_session : TerminalSession; tb_chunks : list T; tb_output_drained : bool }.
Arguments tb_session {T} _.
Arguments tb_chunks {T} _.
Arguments tb_output_drained {T} _.

Definition drained (e : Entry) : bool :=
  bool_decide (carryover (output e) = None) && negb (sender e) && bool_decide (receiver (output e) = []).

Section Base64.
Context (encode : list Z → str) (decode : str → option (list Z)).

(** [TerminalManager::poll] *)
Definition poll (key : Ownership) (y : TermSys) : Res (TerminalOutputBatch str) * TermSys :=
  match find_entry key y with
  | Err e => (Err e, y)
  | Ok e =>
      let '(cs, o) := poll_buffer (output e) in
      let e := with_output e o in
      (Ok {| tb_session := view e; tb_chunks := map encode cs; tb_output_drained := drained e |},
       log_polled (set_entry y (own_terminal key) e) (own_terminal key) (concat cs))
  end.

(** [require_open] *)
Definition require_open (e : Entry) : Res unit :=
  ensure (bool_decide (state e ≠ TOpen) || cancel e) unavailable.

(** [TerminalManager::write] up to the channel's write: the channel and the
    bytes it is given, when it has the lock of the slot. *)
Definition write (key : Ownership) (data_base64 : str) (y : TermSys) : Res (ChannelId * list Z) :=
  _ ← ensure (MAX_INPUT_BYTES * 4 / 3 + 8 <? len data_base64) invalid_input;
  data ← ok_or (decode data_base64) invalid_input;
  _ ← ensure (bool_decide (data = []) || (MAX_INPUT_BYTES <? zlen data)) invalid_input;
  e ← find_entry key y;
  _ ← require_open e;
  c ← ok_or (channel e) unavailable;
  Ok (c, data).
End Base64.

(** [TerminalManager::resize] up to the channel's resize. *)
Definition resize (key : Ownership) (size : TerminalSize) (y : TermSys) : Res (ChannelId * TerminalSize) :=
  size ← validate_size size;
  e ← find_entry key y;
  _ ← require_open e;
  c ← ok_or (channel e) unavailable;
  Ok (c, size).

(** What [resize] does once the channel has accepted the size. *)
Definition resized (id : TerminalSessionId) (size : TerminalSize) (y : TermSys) : option TermSys :=
  match validate_size size, heap y !! id with
  | Ok size, Some e => Some (set_entry y id (with_size e size))
  | _, _ => None
  end.

(** [TerminalManager::rename] *)
Definition rename (key : Ownership) (label : str) (y : TermSys) : Res TerminalSession * TermSys :=
  let label := trim label in
  if is_empty label || (64 <? zlen label) || existsb is_control label
  then (Err (app_error Validation "Terminal names must contain 1 to 64 printable characters."), y) else
  match find_entry key y with
  | Err e => (Err e, y)
  | Ok e => let e := with_label e label in (Ok (view e), set_entry y (own_terminal key) e)
  end.

(** [TerminalManager::list]; the sort is stable and by label, and the order
    of the map's values is unspecified. *)
Fixpoint str_le (a b : str) : bool :=
  match a, b with
  | [], _ => true
  | _, [] => false
  | x :: a, z :: b => (x <? z) || ((x =? z) && str_le a b)
  end.
Fixpoint insert_by_label (v : TerminalSession) (l : list TerminalSession) : list TerminalSession :=
  match l with
  | [] => [v]
  | w :: l => if str_le (ts_label w) (ts_label v) then w :: insert_by_label v l else v :: w :: l
  end.
Definition sort_by_label (l : list TerminalSession) : list TerminalSession := foldl (λ acc v, insert_by_label v acc) [] l.
Definition list_terminals (h : HostId) (y : TermSys) : list TerminalSession :=
  sort_by_label (List.filter (λ v, bool_decide (ts_host_id v = h)) (map (λ kv, view kv.2) (map_to_list (live y)))).

(** ** Closing *)

Inductive CloseCall :=
| CallClose (key : Ownership) | CallDisconnect (h : HostId) (hs : HostSessionId) | CallRemoveHost (h : HostId) | CallShutdown.

Definition close_task (todo : list TerminalSessionId) (final : TerminalState) (f : Finish) : CloseTask :=
  {| ct_todo := todo; ct_phase := CBegin; ct_final := final; ct_finish := f |}.

(** The entries of the map that satisfy [f], in an order [todo] the map
    chooses. *)
Definition selects (f : Entry → bool) (y : TermSys) (todo : list TerminalSessionId) : bool :=
  bool_decide (NoDup todo) &&
  bool_decide (list_to_set todo = dom (filter (λ kv, f kv.2 = true) (live y))).

Definition of_connection (h : HostId) (hs : HostSessionId) (e : Entry) : bool :=
  bool_decide (host e = h) && bool_decide (ts_host_session_id (view e) = hs).

(** The start of [close], [disconnect_connection], [remove_host] and
    [shutdown], as a new task [t]; an immediate answer starts none. *)
Definition close_start (t : N) (call : CloseCall) (todo : list TerminalSessionId) (y : TermSys) : option (Res unit * TermSys) :=
  match call with
  | CallClose key =>
      if bool_decide (key ∈ closed y) then Some (Ok tt, y) else
      match live y !! own_terminal key with
      | None => Some (Err terminal_not_found, y)
      | Some e =>
          match verify_ownership (view e) key with
          | Err err => Some (Err err, y)
          | Ok _ => Some (Ok tt, set_closer y t (Some (close_task [own_terminal key] TClosed (FClose key))))
          end
      end
  | CallDisconnect h hs =>
      if selects (of_connection h hs) y todo
      then Some (Ok tt, set_closer y t (Some (close_task todo TDisconnected FDisconnect))) else None
  | CallRemoveHost h =>
      if selects (λ e, bool_decide (host e = h)) y todo
      then Some (Ok tt, set_closer y t (Some (close_task todo TClosed (FRemoveHost h)))) else None
  | CallShutdown =>
      if selects (λ _, true) y todo
      then Some (Ok tt, set_closer y t (Some (close_task todo TClosed FShutdown))) else None
  end.

(** What a task does when its entries are closed. *)
Definition close_finish (f : Finish) (y : TermSys) : TermSys :=
  match f with
  | FClose key =>
      let c := closed y ++ [key] in
      set_sessions y (sessions y ∖ {[own_terminal key]}) (next_label y)
        (if TOMBSTONE_LIMIT <? zlen c then drop 1 c else c)
  | FDisconnect => y
  | FRemoveHost h =>
      set_sessions y (filter (λ id, (host <$> heap y !! id) ≠ Some h) (sessions y)) (delete h (next_label y))
        (filter (λ k, own_host k ≠ h) (closed y))
  | FShutdown => set_sessions y ∅ (next_label y) []
  end.

Definition at_phase (k : CloseTask) (p : ClosePhase) : CloseTask :=
  {| ct_todo := ct_todo k; ct_phase := p; ct_final := ct_final k; ct_finish := ct_finish k |}.
Definition next_entry (k : CloseTask) (rest : list TerminalSessionId) : CloseTask :=
  {| ct_todo := rest; ct_phase := CBegin; ct_final := ct_final k; ct_finish := ct_finish k |}.

(** One step of a closing task: of [close_entry] on its current entry, or the
    end of the loop.  It waits ([None]) for the lock of the channel slot, and
    for the channel's close, which it awaits under that lock. *)
Definition close_step (t : N) (answered : bool) (y : TermSys) : option TermSys :=
  match closers y !! t with
  | None => None
  | Some k =>
      match ct_todo k with
      | [] => Some (close_finish (ct_finish k) (set_closer y t None))
      | id :: rest =>
          match heap y !! id with
          | None => None
          | Some e =>
              match ct_phase k with
              | CBegin =>
                  if bool_decide (state e = TDisconnected) && bool_decide (ct_final k ≠ TClosed)
                  then Some (set_closer y t (Some (next_entry k rest)))
                  else Some (set_closer (set_entry y id (cancel_entry (with_state e TClosing))) t (Some (at_phase k CTake)))
              | CTake =>
                  if negb (slot_free y id) then None else
                  match channel e with
                  | Some c =>
                      Some (lock_slot (set_closer (set_entry y id (with_channel e None)) t (Some (at_phase k (CChannel c)))) id (Some t))
                  | None => Some (set_closer y t (Some (at_phase k CDrain)))
                  end
              | CChannel _ =>
                  if close_over y id answered then Some (unlock_slot (set_closer y t (Some (at_phase k CDrain))) id) else None
              | CDrain =>
                  Some (log_emptied (set_closer
                    (set_entry y id (with_state (with_output e {| receiver := []; carryover := None |}) (ct_final k)))
                    t (Some (next_entry k rest))) id)
              end
          end
      end
  end.

(** ** All tasks together *)

Inductive term_step (encode : list Z → str) : TermSys → TermSys → Prop :=
| s_open id h hs size y : id ∉ dom (heap y) → term_step encode y (open_begin id h hs size y).2
| s_open_result id r y y' : open_result id r y = Some y' → term_step encode y y'
| s_open_continue id y y' : open_continue id y = Some y' → term_step encode y y'
| s_open_dropped id locked y y' : open_dropped id locked y = Some y' → term_step encode y y'
| s_pump_read id r y y' : pump_read id r y = Some y' → term_step encode y y'
| s_pump_send id stop y y' : pump_send id stop y = Some y' → term_step encode y y'
| s_pump_end id answered y y' : pump_end id answered y = Some y' → term_step encode y y'
| s_poll key y : term_step encode y (poll encode key y).2
| s_resized id size y y' : resized id size y = Some y' → term_step encode y y'
| s_rename key label y : term_step encode y (rename key label y).2
| s_close_start t call todo r y y' : closers y !! t = None → close_start t call todo y = Some (r, y') → term_step encode y y'
| s_close_step t answered y y' : close_step t answered y = Some y' → term_step encode y y'
| s_tick y : term_step encode y (tick y).

Definition term_reachable (encode : list Z → str) : TermSys → Prop := rtc (term_step encode) term_new.
