(* ===== verification/TerminalSafe.v ===== *)
(** The terminal manager's invariants.

    [terminals_bounded]: at most eight terminals of a host are starting or
    open, and the buffers and tombstones are bounded.
    [terminal_output_complete]: no byte of output is lost, repeated or
    reordered between the channel and the caller of [poll].
    [channels_have_owners]: a channel in a slot always has a task that will
    close it, and an open terminal always has its channel.
    [closing_terminates]: closing ends, two seconds per terminal at the latest,
    although its tasks wait for each other's locks and for the server. *)

From S2P Require Import Prelude Str Model Ip SshChannel Terminal.

(** ** Chunking and polling *)

Lemma chunks_fuel_spec fuel n data : (0 < n)%nat → (length data ≤ fuel)%nat →
  concat (chunks_fuel fuel n data) = data ∧ Forall (λ c, (length c ≤ n)%nat ∧ c ≠ []) (chunks_fuel fuel n data).
Proof.
  intros Hn. revert data. induction fuel as [|k IH]; intros [|x data] Hl; cbn [length] in Hl; try (split; [done|constructor]); [lia|].
  cbn [chunks_fuel]. destruct (IH (drop n (x :: data))) as [H1 H2].
  { rewrite length_drop. cbn [length]. lia. }
  split.
  - cbn [concat]. rewrite H1. apply take_drop.
  - constructor; [|done]. split; [rewrite length_take; lia|]. destruct n; [lia|done].
Qed.

Lemma chunks_spec n data : (0 < n)%nat →
  concat (chunks n data) = data ∧ Forall (λ c, (length c ≤ n)%nat ∧ c ≠ []) (chunks n data).
Proof. intros. by apply chunks_fuel_spec. Qed.

(** Everything buffered, in order. *)
Definition buffered (o : OutputBuffer) : list Z := default [] (carryover o) ++ concat (receiver o).

Definition small (c : chunk) : Prop := (length c ≤ OUTPUT_CHUNK_BYTES)%nat.
Definition buffer_small (o : OutputBuffer) : Prop := Forall small (receiver o) ∧ ∀ c, carryover o = Some c → small c.

#[local] Arguments OUTPUT_CHUNK_BYTES : simpl never.
#[local] Opaque OUTPUT_CHUNK_BYTES.

(** One appended chunk: nothing is lost, and a remainder is kept only when
    the batch is full. *)
Lemma append_spec c acc total acc' total' carry' :
  append_output_chunk c acc total None = (acc', total', carry') → total = zlen (concat acc) → total ≤ OUTPUT_BATCH_BYTES →
  concat acc' ++ default [] carry' = concat acc ++ c ∧ total' = zlen (concat acc') ∧ total' ≤ OUTPUT_BATCH_BYTES ∧
  (carry' = None ∨ total' = OUTPUT_BATCH_BYTES) ∧ (small c → ∀ d, carry' = Some d → small d).
Proof.
  unfold append_output_chunk, small. intros H Ht Hle.
  assert (∀ c : chunk, concat (if is_empty c then acc else acc ++ [c]) = concat acc ++ c) as Hc.
  { intros [|x d]; cbn [is_empty]; [by rewrite app_nil_r|]. rewrite concat_app. cbn. by rewrite app_nil_r. }
  destruct (_ <? _)%nat eqn:E; injection H as <- <- <-; rewrite Hc, length_app, ?app_nil_r.
  - apply Nat.ltb_lt in E. cbn [default from_option id]. rewrite <-app_assoc, take_drop, length_take. split_and!; [done|lia|lia|right; lia|].
    intros Hs d [= <-]. rewrite length_drop. lia.
  - apply Nat.ltb_ge in E. cbn [default from_option id]. rewrite ?app_nil_r. split_and!; [done|lia|lia|by left|done].
Qed.

Lemma poll_loop_spec q acc total carry cs o :
  poll_loop q acc total carry = (cs, o) → total = zlen (concat acc) → total ≤ OUTPUT_BATCH_BYTES →
  (carry = None ∨ total = OUTPUT_BATCH_BYTES) → Forall small q → (∀ d, carry = Some d → small d) →
  concat cs ++ buffered o = concat acc ++ default [] carry ++ concat q ∧
  zlen (concat cs) ≤ OUTPUT_BATCH_BYTES ∧ buffer_small o ∧ (length (receiver o) ≤ length q)%nat.
Proof.
  revert acc total carry. induction q as [|c q IH]; intros acc total carry H Ht Hle Hf Hq Hc; cbn [poll_loop] in H.
  - destruct (_ <=? _) eqn:E; injection H as <- <-; (split_and!; [done|lia|by split|done]).
  - destruct (_ <=? _) eqn:E; [injection H as <- <-; (split_and!; [done|lia|by split|done])|]. split_bools.
    destruct Hf as [->|]; [|lia]. apply list.Forall_cons in Hq as [Hs Hq].
    destruct (append_output_chunk c acc total None) as [[acc' total'] carry'] eqn:Ea.
    destruct (append_spec _ _ _ _ _ _ Ea Ht Hle) as (H1 & H2 & H3 & H4 & H5).
    destruct (IH _ _ _ H H2 H3 H4 Hq (H5 Hs)) as (I1 & I2 & I3 & I4).
    split_and!; [|done|done|cbn [length]; lia]. rewrite I1, app_assoc, H1, <-app_assoc. done.
Qed.

Lemma poll_buffer_spec o cs o' :
  poll_buffer o = (cs, o') → buffer_small o →
  concat cs ++ buffered o' = buffered o ∧ zlen (concat cs) ≤ OUTPUT_BATCH_BYTES ∧ buffer_small o' ∧
  (length (receiver o') ≤ length (receiver o))%nat.
Proof.
  unfold poll_buffer. intros H [Hq Hc]. destruct (carryover o) as [c|] eqn:E.
  - destruct (append_output_chunk c [] 0 None) as [[acc total] carry] eqn:Ea.
    destruct (append_spec _ _ _ _ _ _ Ea eq_refl ltac:(done)) as (H1 & H2 & H3 & H4 & H5).
    destruct (poll_loop_spec _ _ _ _ _ _ H H2 H3 H4 Hq (H5 (Hc c eq_refl))) as (I1 & I2 & I3 & I4).
    split_and!; [|done..]. rewrite I1, app_assoc, H1. unfold buffered. by rewrite E.
  - destruct (poll_loop_spec _ _ _ _ _ _ H eq_refl ltac:(done) (or_introl eq_refl) Hq ltac:(done)) as (I1 & I2 & I3 & I4).
    split_and!; [|done..]. rewrite I1. unfold buffered. by rewrite E.
Qed.

(** ** The invariant of one entry

    In terms of the tasks that concern it: the phase of its [open], the phase
    of its pump, whether some closing task is about to take its channel, what
    was read and polled, and whether its buffer was thrown away. *)

Definition holds_channel (p : option PumpPhase) : bool :=
  match p with Some (Reading | Sending _ | Ending) => true | _ => false end.
Definition pump_live (p : option PumpPhase) : bool :=
  match p with Some (Reading | Sending _) => true | _ => false end.
Definition unsent (p : option PumpPhase) : list chunk := match p with Some (Sending cs) => cs | _ => [] end.

Record entry_inv (e : Entry) (op : option OpenPhase) (pu : option PumpPhase) (taken : Prop)
    (rd pl : list Z) (em : bool) : Prop := {
  ei_open : state e = TOpen → cancel e = false ∧ is_Some (channel e) ∧ pump_live pu = true ∧ op = None;
  ei_opening : is_Some op → channel e = None ∧ pu = None ∧ rd = [] ∧ pl = [] ∧ buffered (output e) = [];
  ei_sender : sender e = false → op = None ∧ pu = None;
  ei_channel : is_Some (channel e) → if cancel e then taken else holds_channel pu = true;
  ei_left : is_Some pu → holds_channel pu = false → channel e = None;
  ei_queue : zlen (receiver (output e)) ≤ OUTPUT_QUEUE_CAPACITY;
  ei_small : buffer_small (output e) ∧ Forall small (unsent pu);
  ei_stream : em = false → ∃ lost, rd = pl ++ buffered (output e) ++ concat (unsent pu) ++ lost ∧
    (lost = [] ∨ cancel e = true ∧ pu = None)
}.

(** A closing task whose next step takes the channel of [id]. *)
Definition taker (y : TermSys) (id : TerminalSessionId) : Prop :=
  ∃ t k rest, closers y !! t = Some k ∧ ct_todo k = id :: rest ∧ ct_phase k = CTake.

Definition task_ok (y : TermSys) (k : CloseTask) : Prop :=
  (ct_final k = TClosed ∨ ct_final k = TDisconnected) ∧ Forall (λ id, id ∈ dom (heap y)) (ct_todo k) ∧
  ∀ id rest e, ct_todo k = id :: rest → ct_phase k ≠ CBegin → heap y !! id = Some e → cancel e = true.

Definition active (h : HostId) (e : Entry) : bool :=
  bool_decide (host e = h) && match state e with TCreating | TOpen => true | _ => false end.

Lemma active_counted h e : active h e = true → counted h e = true.
Proof. unfold active, counted. destruct (bool_decide _), (state e); done. Qed.

Record term_inv (y : TermSys) : Prop := {
  ti_entries : ∀ id e, heap y !! id = Some e →
    entry_inv e (opens y !! id) (pumps y !! id) (taker y id)
      (default [] (read_log y !! id)) (default [] (polled_log y !! id)) (bool_decide (id ∈ emptied y));
  ti_fresh : ∀ id, heap y !! id = None →
    opens y !! id = None ∧ pumps y !! id = None ∧ read_log y !! id = None ∧ polled_log y !! id = None ∧ id ∉ emptied y;
  ti_tasks : ∀ t k, closers y !! t = Some k → task_ok y k;
  ti_active : ∀ h, count_map (active h) (live y) ≤ MAX_OPEN_TERMINALS_PER_HOST;
  ti_closed : zlen (closed y) ≤ TOMBSTONE_LIMIT
}.

(** ** Steps that change one entry and its tasks *)

(** What most steps do: [id]'s entry becomes [e'], its open and pump phases
    [op'] and [pu'], and the rest of the state is unchanged. *)
Record touches (id : TerminalSessionId) (e e' : Entry) (op' : option OpenPhase) (pu' : option PumpPhase)
    (y y' : TermSys) : Prop := {
  to_heap : heap y !! id = Some e;
  to_heap' : heap y' = <[id := e']> (heap y);
  to_opens : opens y' = partial_alter (λ _, op') id (opens y);
  to_pumps : pumps y' = partial_alter (λ _, pu') id (pumps y);
  to_host : host e' = host e;
  to_active : active (host e) e' = true → active (host e) e = true;
  to_cancel : cancel e = true → cancel e' = true;
  to_sessions : sessions y' ⊆ sessions y;
  to_closed : zlen (closed y') ≤ TOMBSTONE_LIMIT;
  to_read : ∀ i, i ≠ id → read_log y' !! i = read_log y !! i;
  to_polled : ∀ i, i ≠ id → polled_log y' !! i = polled_log y !! i;
  to_emptied : ∀ i, i ≠ id → i ∈ emptied y' ↔ i ∈ emptied y;
  to_takers : ∀ i, i ≠ id → taker y i → taker y' i;
  to_tasks : ∀ t k, closers y' !! t = Some k → task_ok y' k
}.

Lemma live_lookup y id e : live y !! id = Some e ↔ heap y !! id = Some e ∧ id ∈ sessions y.
Proof. unfold live. by rewrite map_lookup_filter_Some. Qed.

(** Counting is monotone in the entries that count. *)
Lemma count_map_mono {V} (f f' : V → bool) (m m' : gmap N V) :
  (∀ k x', m' !! k = Some x' → f' x' = true → ∃ x, m !! k = Some x ∧ f x = true) → count_map f' m' ≤ count_map f m.
Proof.
  intros H. unfold count_map. rewrite <-!size_dom. apply inj_le, subseteq_size. intros k.
  rewrite !elem_of_dom. intros [x' [H1 H2]%map_lookup_filter_Some].
  destruct (H k x' H1 H2) as (x & ? & ?). exists x. by apply map_lookup_filter_Some.
Qed.

Lemma touches_active id e e' op pu y y' h :
  touches id e e' op pu y y' → count_map (active h) (live y') ≤ count_map (active h) (live y).
Proof.
  intros T. apply count_map_mono. intros i x [Hx Hi]%live_lookup Ha. rewrite (to_heap' _ _ _ _ _ _ _ T) in Hx.
  assert (i ∈ sessions y) as Hs by (by apply (to_sessions _ _ _ _ _ _ _ T)).
  destruct (decide (i = id)) as [->|Hne].
  - rewrite lookup_insert_eq in Hx. injection Hx as <-. exists e. split; [apply live_lookup; split; [apply T|done]|].
    assert (h = host e) as ->; [|by apply (to_active _ _ _ _ _ _ _ T)].
    unfold active in Ha. split_bools. rewrite <-(to_host _ _ _ _ _ _ _ T). done.
  - rewrite lookup_insert_ne in Hx by done. exists x. split; [by apply live_lookup|done].
Qed.

(** Such a step keeps the invariant when the touched entry keeps its own. *)
Lemma touches_inv id e e' op' pu' y y' :
  touches id e e' op' pu' y y' → term_inv y →
  (entry_inv e (opens y !! id) (pumps y !! id) (taker y id) (default [] (read_log y !! id))
     (default [] (polled_log y !! id)) (bool_decide (id ∈ emptied y)) →
   entry_inv e' op' pu' (taker y' id) (default [] (read_log y' !! id))
     (default [] (polled_log y' !! id)) (bool_decide (id ∈ emptied y'))) →
  term_inv y'.
Proof.
  intros T [Hent Hfresh Htasks Hact Hcl] Hid. pose proof T as [].
  split; [| |done| |done].
  - intros i x Hx. rewrite to_heap'0, to_opens0, to_pumps0 in *. destruct (decide (i = id)) as [->|Hne].
    + rewrite lookup_insert_eq in Hx. injection Hx as <-. rewrite !lookup_partial_alter_eq. by apply Hid, Hent.
    + rewrite lookup_insert_ne in Hx by done. rewrite !lookup_partial_alter_ne by done.
      rewrite to_read0, to_polled0, (bool_decide_ext _ _ (to_emptied0 i Hne)) by done.
      destruct (Hent i x Hx). split; try done.
      intros Hc. specialize (ei_channel0 Hc). destruct (cancel x); auto.
  - intros i Hi. rewrite to_heap'0, to_opens0, to_pumps0 in *. destruct (decide (i = id)) as [->|Hne].
    + by rewrite lookup_insert_eq in Hi.
    + rewrite lookup_insert_ne in Hi by done. rewrite !lookup_partial_alter_ne by done.
      rewrite to_read0, to_polled0, to_emptied0 by done. by apply Hfresh.
  - intros h. etrans; [by eapply touches_active|done].
Qed.

(** Closing tasks are not disturbed by a step that leaves them in place. *)
Lemma task_ok_heap y y' k id e e' :
  heap y !! id = Some e → heap y' = <[id := e']> (heap y) → (cancel e = true → cancel e' = true) →
  task_ok y k → task_ok y' k.
Proof.
  intros He Hh Hc (H1 & H2 & H3). split; [done|]. split.
  - eapply list.Forall_impl; [done|]. intros i Hi. rewrite Hh, dom_insert. set_solver.
  - intros i rest x Hk Hp Hx. rewrite Hh in Hx. destruct (decide (i = id)) as [->|Hne].
    + rewrite lookup_insert_eq in Hx. injection Hx as <-. eauto.
    + rewrite lookup_insert_ne in Hx by done. eauto.
Qed.

Lemma touch_plain id e e' op' pu' y y' :
  term_inv y → heap y !! id = Some e → heap y' = <[id := e']> (heap y) →
  opens y' = partial_alter (λ _, op') id (opens y) → pumps y' = partial_alter (λ _, pu') id (pumps y) →
  host e' = host e → (active (host e) e' = true → active (host e) e = true) → (cancel e = true → cancel e' = true) →
  sessions y' ⊆ sessions y → closed y' = closed y → closers y' = closers y →
  (∀ i, i ≠ id → read_log y' !! i = read_log y !! i) → (∀ i, i ≠ id → polled_log y' !! i = polled_log y !! i) →
  emptied y' = emptied y → touches id e e' op' pu' y y'.
Proof.
  intros Hi He Hh Ho Hp Hho Ha Hc Hs Hcl Hk Hr Hpo Hem. split; try done.
  - rewrite Hcl. apply Hi.
  - intros i _. by rewrite Hem.
  - intros i _ (t & k & rest & H). exists t, k, rest. by rewrite Hk.
  - intros t k. rewrite Hk. intros Hk'. eapply task_ok_heap; [done|done|done|]. by eapply ti_tasks.
Qed.

(** An entry that was not starting or open does not become so. *)
Lemma active_state h e e' : host e' = host e → state e' ≠ TCreating → state e' ≠ TOpen → active h e' = true → active h e = true.
Proof.
  intros _ H1 H2. unfold active. intros H. split_bools. by destruct (state e').
Qed.

Lemma active_same h e e' : host e' = host e → state e' = state e → active h e' = true → active h e = true.
Proof. unfold active. by intros -> ->. Qed.

Lemma alter_self {V} (m : gmap N V) i x : m !! i = x → m = partial_alter (λ _, x) i m.
Proof. intros <-. symmetry. by apply partial_alter_self. Qed.

(** Discharge the frame of a step: what it leaves alone. *)
Ltac frame :=
  try done; try (by apply alter_self); try (by apply active_same); try (by apply active_state);
  try (by intros; cbn; rewrite lookup_insert_ne); try (by rewrite insert_id);
  try match goal with |- sessions _ ⊆ _ => cbn; set_solver end.

(** The invariant after a step that turns [id]'s entry [e] into [e'], with the
    phases [op'] and [pu']. *)
Ltac touch Hi id e e' op' pu' :=
  eapply (touches_inv id e e' op' pu'); [apply (touch_plain id e e' op' pu'); frame|exact Hi|intros Hei].

(** *** Opening *)

(** While [open] runs, the entry has no channel, no pump and no output. *)
Lemma opening_inv e e' p op' pu tk tk' rd pl em :
  entry_inv e (Some p) pu tk rd pl em → channel e' = channel e → output e' = output e →
  (state e' = TOpen → state e = TOpen) → (is_Some op' → sender e' = sender e) →
  entry_inv e' op' pu tk' rd pl em.
Proof.
  intros [H1 H2 H3 H4 HL H5 H6 H7] Hc Ho Hs Hse. destruct (H2 (mk_is_Some _ _ eq_refl)) as (Hn & -> & -> & -> & Hb). split.
  - intros H. by destruct (H1 (Hs H)) as (_ & _ & _ & ?).
  - intros _. by rewrite Hc, Ho.
  - intros H. split; [|done]. destruct op'; [|done]. rewrite Hse in H by done. by destruct (H3 H).
  - rewrite Hc, Hn. by intros [? ?].
  - by intros [? ?].
  - by rewrite Ho.
  - by rewrite Ho.
  - intros _. exists []. rewrite Ho, Hb. auto.
Qed.

Lemma open_result_inv id r y y' : open_result id r y = Some y' → term_inv y → term_inv y'.
Proof.
  unfold open_result. intros H Hi. destruct (opens y !! id) as [[]|] eqn:Eo; try done.
  destruct (heap y !! id) as [e|] eqn:Ee; [|done]. destruct r as [c|error].
  - injection H as <-. touch Hi id e e (Some (if cancel e then Late c else Accepting c)) (pumps y !! id).
    rewrite Eo in Hei. by eapply opening_inv.
  - destruct (bool_decide (state e ≠ TCreating)) eqn:Es; injection H as <-.
    + touch Hi id e (drop_sender (cancel_entry e)) (@None OpenPhase) (pumps y !! id).
      rewrite Eo in Hei. by eapply opening_inv.
    + set (s := if bool_decide (code error = Cancelled) then TDisconnected else TFailed).
      assert (s ≠ TOpen ∧ s ≠ TCreating) as [??] by (unfold s; by case_match).
      touch Hi id e (fail_entry (cancel_entry e) error s) (Some Removing) (pumps y !! id).
      rewrite Eo in Hei. by eapply opening_inv.
Qed.

Lemma open_dropped_inv id locked y y' : open_dropped id locked y = Some y' → term_inv y → term_inv y'.
Proof.
  unfold open_dropped. intros H Hi. destruct (opens y !! id) as [p|] eqn:Eo; [|done].
  destruct (heap y !! id) as [e|] eqn:Ee; [|done].
  set (e' := if bool_decide (state (drop_sender (cancel_entry e)) = TCreating)
             then fail_entry (drop_sender (cancel_entry e)) creation_cancelled TDisconnected
             else drop_sender (cancel_entry e)) in *.
  assert (host e' = host e ∧ channel e' = channel e ∧ output e' = output e ∧ cancel e' = true ∧
          (state e' = TDisconnected ∨ state e' = state e)) as (Hh & Hc & Ho & Hx & Hs)
    by (unfold e'; destruct (bool_decide _); split_and!; auto).
  assert (active (host e) e' = true → active (host e) e = true) as Ha.
  { destruct Hs; [apply active_state; congruence|by apply active_same]. }
  assert (state e' = TOpen → state e = TOpen) as Hst by (destruct Hs; congruence).
  destruct locked; injection H as <-; touch Hi id e e' (@None OpenPhase) (pumps y !! id);
    rewrite Eo in Hei; by eapply opening_inv.
Qed.

(** The accepted channel: from here on the pump owns it. *)
Lemma accept_inv e p c tk tk' rd pl em :
  entry_inv e (Some p) None tk rd pl em → cancel e = false → sender e = true →
  entry_inv (with_state (with_channel e (Some c)) TOpen) None (Some Reading) tk' rd pl em.
Proof.
  intros [H1 H2 H3 H4 HL H5 H6 H7] Hc Hse. destruct (H2 (mk_is_Some _ _ eq_refl)) as (Hn & _ & -> & -> & Hb).
  split; cbn; try done.
  - by rewrite Hse.
  - by rewrite Hc.
  - intros _. exists []. rewrite Hb. auto.
Qed.

Lemma open_continue_inv id y y' : open_continue id y = Some y' → term_inv y → term_inv y'.
Proof.
  unfold open_continue. intros H Hi. destruct (opens y !! id) as [p|] eqn:Eo; [|done].
  destruct (heap y !! id) as [e|] eqn:Ee; [|by destruct p].
  pose proof (ti_entries _ Hi id e Ee) as [_ Hop Hse _ _ _ _ _]. rewrite Eo in Hop, Hse.
  destruct (Hop (mk_is_Some _ _ eq_refl)) as (_ & Hpu & _).
  assert (sender e = true) as Hs by (destruct (sender e); [done|]; by destruct (Hse eq_refl)).
  destruct p as [|c|c|c|]; try done.
  - destruct (slot_free y id); cbn in H; [|done]. destruct (cancel e || bool_decide (state e ≠ TCreating)) eqn:Ea; injection H as <-.
    + touch Hi id e e (Some (Rejecting c)) (pumps y !! id). rewrite Eo in Hei. by eapply opening_inv.
    + split_bools. apply dec_stable in H0.
      touch Hi id e (with_state (with_channel e (Some c)) TOpen) (@None OpenPhase) (Some Reading).
      * unfold active. intros _. by rewrite H0, bool_decide_eq_true_2.
      * rewrite Eo, Hpu in Hei. by eapply accept_inv.
  - injection H as <-.
    touch Hi id e (drop_sender (fail_entry e creation_cancelled TDisconnected)) (@None OpenPhase) (pumps y !! id).
    rewrite Eo in Hei. by eapply opening_inv.
  - injection H as <-. touch Hi id e (drop_sender e) (@None OpenPhase) (pumps y !! id).
    rewrite Eo in Hei. by eapply opening_inv.
  - injection H as <-. touch Hi id e (drop_sender e) (@None OpenPhase) (pumps y !! id).
    rewrite Eo in Hei. by eapply opening_inv.
Qed.

(** *** Pumping *)

(** The pump stops reading: the channel stays its own until it takes it. *)
Lemma pump_stop_inv e e' op tk tk' rd pl em :
  entry_inv e op (Some Reading) tk rd pl em → channel e' = channel e → output e' = output e → sender e' = sender e →
  cancel e' = cancel e → state e' ≠ TOpen → (tk → tk') →
  entry_inv e' op (Some Ending) tk' rd pl em.
Proof.
  intros [H1 H2 H3 H4 HL H5 H6 H7] Hc Ho Hs Hca Hst Htk. split; rewrite ?Hc, ?Ho, ?Hs, ?Hca; try done.
  - intros Hop. by destruct (H2 Hop) as (_ & ? & _).
  - intros Hx. by destruct (H3 Hx).
  - intros Hx. specialize (H4 Hx). destruct (cancel e); auto.
  - intros Hem. destruct (H7 Hem) as (lost & Hl & [->|[_ ?]]); [|done]. exists []. auto.
Qed.

Lemma pump_data_inv e op tk rd pl em data :
  entry_inv e op (Some Reading) tk rd pl em →
  entry_inv e op (Some (match chunks OUTPUT_CHUNK_BYTES data with [] => Reading | cs => Sending cs end)) tk (rd ++ data) pl em.
Proof.
  intros [H1 H2 H3 H4 HL H5 H6 H7]. destruct (chunks_spec OUTPUT_CHUNK_BYTES data) as [Hcc Hsm]; [by apply Nat.ltb_lt|].
  set (p := Some (match chunks OUTPUT_CHUNK_BYTES data with [] => Reading | cs => Sending cs end)).
  assert (unsent p = chunks OUTPUT_CHUNK_BYTES data) as Hu by (unfold p; by destruct (chunks _ _)).
  assert (pump_live p = true ∧ holds_channel p = true) as [Hl Hh] by (unfold p; by destruct (chunks _ _)).
  split; try done.
  - intros Hs. destruct (H1 Hs) as (? & ? & _ & ?). done.
  - intros Hop. by destruct (H2 Hop) as (_ & ? & _).
  - intros Hx. by destruct (H3 Hx).
  - intros Hx. specialize (H4 Hx). by destruct (cancel e).
  - by rewrite Hh.
  - rewrite Hu. split; [apply H6|]. eapply list.Forall_impl; [done|]. by intros c [? _].
  - intros Hem. destruct (H7 Hem) as (lost & -> & [->|[_ ?]]); [|done]. exists []. rewrite Hu, Hcc. cbn.
    rewrite !app_nil_r, <-app_assoc. auto.
Qed.

Lemma pump_read_inv id r y y' : pump_read id r y = Some y' → term_inv y → term_inv y'.
Proof.
  unfold pump_read. intros H Hi. destruct (pumps y !! id) as [[]|] eqn:Ep; try done.
  destruct (heap y !! id) as [e|] eqn:Ee; [|done].
  assert (∀ e', channel e' = channel e → output e' = output e → sender e' = sender e → host e' = host e →
    cancel e' = cancel e → state e' ≠ TOpen → (active (host e) e' = true → active (host e) e = true) →
    term_inv (set_pump (set_entry y id e') id (Some Ending))) as Hstop.
  { intros e' Hc Ho Hs Hh Hca Hst Ha. touch Hi id e e' (opens y !! id) (Some Ending); [by rewrite Hca|].
    rewrite Ep in Hei. by eapply pump_stop_inv. }
  assert (∀ s err, s ≠ TOpen → s ≠ TCreating →
    term_inv (set_pump (set_entry y id (if bool_decide (state e = TOpen)
      then with_view e (view_state (view e) s err) else e)) id (Some Ending))) as Hend.
  { intros s err ? ?. case_bool_decide; apply Hstop; try done; by apply active_state. }
  destruct r as [[[data|n|]|error]|].
  - injection H as <-. touch Hi id e e (opens y !! id)
      (Some (match chunks OUTPUT_CHUNK_BYTES data with [] => Reading | cs => Sending cs end)).
    rewrite Ep in Hei. cbn [log_read set_pump read_log polled_log emptied]. rewrite lookup_insert_eq. by apply pump_data_inv.
  - injection H as <-. by apply (Hend TClosed (ts_error (view e))).
  - injection H as <-. by apply (Hend TClosed (ts_error (view e))).
  - injection H as <-.
    apply (Hend (if bool_decide (code error = Connection) then TDisconnected else TFailed) (Some error)); by destruct (bool_decide (code error = Connection)).
  - destruct (cancel e) eqn:Ec; [|done]. injection H as <-.
    touch Hi id e e (opens y !! id) (Some Ending). rewrite Ep in Hei. eapply pump_stop_inv; [done..| |done].
    intros Hs. destruct (ei_open _ _ _ _ _ _ _ Hei Hs) as [? _]. congruence.
Qed.

(** The pump returns while sending: it is cancelled, and what it had not sent
    is lost. *)
Lemma pump_abort_inv e op p tk rd pl em :
  entry_inv e op (Some p) tk rd pl em → cancel e = true → entry_inv (drop_sender e) op None tk rd pl em.
Proof.
  intros [H1 H2 H3 H4 HL H5 H6 H7] Hc. split; cbn; try done.
  - intros Hs. destruct (H1 Hs). congruence.
  - intros Hop. by destruct (H2 Hop) as (_ & ? & _).
  - intros _. split; [|done]. destruct op; [|done]. by destruct (H2 (mk_is_Some _ _ eq_refl)) as (_ & ? & _).
  - intros Hx. specialize (H4 Hx). by rewrite Hc in *.
  - by destruct H6.
  - intros Hem. destruct (H7 Hem) as (lost & -> & _). eauto.
Qed.

Lemma pump_push_inv e op c rest tk rd pl em :
  entry_inv e op (Some (Sending (c :: rest))) tk rd pl em →
  zlen (receiver (output e)) < OUTPUT_QUEUE_CAPACITY →
  entry_inv (with_output e {| receiver := receiver (output e) ++ [c]; carryover := carryover (output e) |}) op
    (Some (match rest with [] => Reading | _ => Sending rest end)) tk rd pl em.
Proof.
  intros [H1 H2 H3 H4 HL H5 [[H6 H6'] H6''] H7] Hq. set (p := Some (match rest with [] => Reading | _ => Sending rest end)).
  assert (unsent p = rest ∧ pump_live p = true ∧ holds_channel p = true) as (Hu & Hl & Hh) by (unfold p; by destruct rest).
  cbn [unsent] in H6''. apply list.Forall_cons in H6'' as [Hc Hr]. split; cbn [with_output state view cancel channel sender output]; try done.
  - intros Hs. by destruct (H1 Hs) as (? & ? & _ & ?).
  - intros Hop. by destruct (H2 Hop) as (_ & ? & _).
  - intros Hx. by destruct (H3 Hx).
  - intros Hx. specialize (H4 Hx). by destruct (cancel e).
  - by rewrite Hh.
  - cbn [receiver]. rewrite length_app. cbn [length]. lia.
  - rewrite Hu. split; [|done]. split; [|done]. apply Forall_app. by repeat constructor.
  - intros Hem. destruct (H7 Hem) as (lost & -> & [->|[_ ?]]); [|done]. exists []. rewrite Hu.
    unfold buffered. cbn [receiver carryover unsent concat]. rewrite concat_app. cbn. rewrite !app_nil_r, <-!app_assoc. auto.
Qed.

Lemma pump_send_inv id stop y y' : pump_send id stop y = Some y' → term_inv y → term_inv y'.
Proof.
  unfold pump_send. intros H Hi. destruct (pumps y !! id) as [[|[|c rest]| |]|] eqn:Ep; try done.
  destruct (heap y !! id) as [e|] eqn:Ee; [|done]. destruct stop.
  - destruct (cancel e) eqn:Ec; [|done]. injection H as <-.
    touch Hi id e (drop_sender e) (opens y !! id) (@None PumpPhase). rewrite Ep in Hei. by eapply pump_abort_inv.
  - destruct (_ <=? _) eqn:Eq; [done|]. injection H as <-. split_bools.
    touch Hi id e (with_output e {| receiver := receiver (output e) ++ [c]; carryover := carryover (output e) |})
      (opens y !! id) (Some (match rest with [] => Reading | _ => Sending rest end)).
    rewrite Ep in Hei. by apply pump_push_inv.
Qed.

(** The end of the pump: the slot is emptied before the pump is gone. *)
Lemma pump_leave_inv e e' op p pu' tk rd pl em :
  entry_inv e op (Some p) tk rd pl em → p = Ending ∨ (∃ c, p = PumpClosing c) → channel e' = None →
  output e' = output e → state e' = state e → cancel e' = cancel e → (sender e' = false → pu' = None) →
  unsent pu' = [] →
  entry_inv e' op pu' tk rd pl em.
Proof.
  intros [H1 H2 H3 H4 HL H5 H6 H7] Hp Hc Ho Hs Hca Hse Hu. split; rewrite ?Hc, ?Ho, ?Hs, ?Hca; try done.
  - intros Hst. destruct (H1 Hst) as (_ & _ & ? & _). by destruct Hp as [->|[c ->]].
  - intros Hop. by destruct (H2 Hop) as (_ & ? & _).
  - intros Hx. split; [|auto]. destruct op; [|done]. by destruct (H2 (mk_is_Some _ _ eq_refl)) as (_ & ? & _).
  - rewrite Hu. split; [apply H6|constructor].
  - intros Hem. destruct (H7 Hem) as (lost & -> & [->|[_ ?]]); [|done]. exists []. rewrite Hu.
    assert (unsent (Some p) = []) as -> by (by destruct Hp as [->|[c ->]]). auto.
Qed.

Lemma pump_end_inv id answered y y' : pump_end id answered y = Some y' → term_inv y → term_inv y'.
Proof.
  unfold pump_end. intros H Hi. destruct (pumps y !! id) as [[| | |c]|] eqn:Ep; try done;
    destruct (heap y !! id) as [e|] eqn:Ee; try done.
  - destruct (slot_free y id); cbn in H; [|done]. destruct (channel e) as [c|] eqn:Ec; injection H as <-.
    + touch Hi id e (with_channel e None) (opens y !! id) (Some (PumpClosing c)). rewrite Ep in Hei.
      eapply pump_leave_inv; try done; [by left|]. intros Hs. by destruct (ei_sender _ _ _ _ _ _ _ Hei Hs).
    + touch Hi id e (drop_sender e) (opens y !! id) (@None PumpPhase). rewrite Ep in Hei.
      eapply pump_leave_inv; try done. by left.
  - destruct (close_over y id answered); [|done].
    injection H as <-. touch Hi id e (drop_sender e) (opens y !! id) (@None PumpPhase). rewrite Ep in Hei.
    assert (channel e = None) as Hn.
    { by apply (ei_left _ _ _ _ _ _ _ Hei). }
    eapply pump_leave_inv; try done. by right; eauto.
Qed.

(** *** Polling, resizing, renaming *)

Lemma find_entry_ok key y e : find_entry key y = Ok e →
  heap y !! own_terminal key = Some e ∧ own_terminal key ∈ sessions y ∧
  host e = own_host key ∧ ts_host_session_id (view e) = own_session key.
Proof.
  unfold find_entry. rewrite bind_ok. intros (x & [H1 H2]%ok_or_ok%live_lookup & H).
  apply bind_ok in H as ([] & Hv & [= <-]). unfold verify_ownership in Hv. apply ensure_ok in Hv. split_bools.
  split_and!; try done; by apply dec_stable.
Qed.

(** A change of the view's label or size. *)
Lemma cosmetic_inv e e' op pu tk tk' rd pl em :
  entry_inv e op pu tk rd pl em → state e' = state e → channel e' = channel e → output e' = output e →
  sender e' = sender e → cancel e' = cancel e → (tk → tk') → entry_inv e' op pu tk' rd pl em.
Proof.
  intros [H1 H2 H3 H4 HL H5 H6 H7] Hs Hc Ho Hse Hca Htk. split; rewrite ?Hs, ?Hc, ?Ho, ?Hse, ?Hca; try done.
  intros Hx. specialize (H4 Hx). destruct (cancel e); auto.
Qed.

Lemma resized_inv id size y y' : resized id size y = Some y' → term_inv y → term_inv y'.
Proof.
  unfold resized. intros H Hi. destruct (validate_size size) as [s|]; [|done].
  destruct (heap y !! id) as [e|] eqn:Ee; [|done]. injection H as <-.
  touch Hi id e (with_size e s) (opens y !! id) (pumps y !! id). by eapply cosmetic_inv.
Qed.

Lemma rename_inv key label y : term_inv y → term_inv (rename key label y).2.
Proof.
  intros Hi. unfold rename. destruct (_ || _); [done|].
  destruct (find_entry key y) as [e|] eqn:Ef; [|done]. apply find_entry_ok in Ef as (Ee & _). cbn [snd].
  touch Hi (own_terminal key) e (with_label e (trim label)) (opens y !! own_terminal key) (pumps y !! own_terminal key).
  by eapply cosmetic_inv.
Qed.

Lemma polled_inv e op pu tk rd pl em cs o :
  entry_inv e op pu tk rd pl em → poll_buffer (output e) = (cs, o) →
  entry_inv (with_output e o) op pu tk rd (pl ++ concat cs) em.
Proof.
  intros [H1 H2 H3 H4 HL H5 H6 H7] Hp. destruct H6 as [H6 H6'].
  destruct (poll_buffer_spec _ _ _ Hp H6) as (P1 & P2 & P3 & P4).
  split; cbn [with_output state view cancel channel sender output]; try done.
  - intros Hop. destruct (H2 Hop) as (Hn & -> & -> & -> & Hb). rewrite Hb in P1. apply app_nil in P1 as [-> ->]. done.
  - lia.
  - intros Hem. destruct (H7 Hem) as (lost & -> & Hl). exists lost. rewrite <-P1, <-!app_assoc. done.
Qed.

Lemma poll_inv encode key y : term_inv y → term_inv (poll encode key y).2.
Proof.
  intros Hi. unfold poll. destruct (find_entry key y) as [e|] eqn:Ef; [|done]. apply find_entry_ok in Ef as (Ee & _).
  destruct (poll_buffer (output e)) as [cs o] eqn:Ep. cbn [snd].
  touch Hi (own_terminal key) e (with_output e o) (opens y !! own_terminal key) (pumps y !! own_terminal key).
  cbn [log_polled polled_log read_log emptied set_entry]. rewrite lookup_insert_eq. by apply polled_inv.
Qed.

(** *** Opening a new terminal *)

Lemma new_entry_inv id h hs n size tk : entry_inv (new_entry id h hs n size) (Some Starting) None tk [] [] false.
Proof.
  split; cbn; try done; try (by intros [? ?]).
  - exists []. auto.
Qed.

Lemma open_begin_inv id h hs size y : id ∉ dom (heap y) → term_inv y → term_inv (open_begin id h hs size y).2.
Proof.
  intros Hn Hi. apply not_elem_of_dom in Hn. unfold open_begin. destruct (validate_size size) as [s|]; [|done].
  destruct (_ <=? _) eqn:Ec; [done|]. split_bools. cbn [snd]. pose proof Hi as [Hent Hfresh Htasks Hact Hcl].
  set (n := Z.min _ _). destruct (Hfresh id Hn) as (Ho & Hp & Hr & Hpo & Hem). split.
  - intros i e. cbn. intros He. destruct (decide (i = id)) as [->|Hne].
    + rewrite lookup_insert_eq in He. injection He as <-. rewrite lookup_partial_alter_eq, Hp, Hr, Hpo.
      rewrite bool_decide_eq_false_2 by done. apply new_entry_inv.
    + rewrite lookup_insert_ne in He by done. rewrite lookup_partial_alter_ne by done. by apply Hent.
  - intros i. cbn. intros He. destruct (decide (i = id)) as [->|Hne]; [by rewrite lookup_insert_eq in He|].
    rewrite lookup_insert_ne in He by done. rewrite lookup_partial_alter_ne by done. by apply Hfresh.
  - intros t k Hk. destruct (Htasks t k Hk) as (H1 & H2 & H3). split; [done|]. split.
    + eapply list.Forall_impl; [done|]. intros i. cbn. rewrite dom_insert. set_solver.
    + intros i rest e Ht Hph. cbn. intros He. destruct (decide (i = id)) as [->|Hne].
      * rewrite Ht in H2. apply list.Forall_cons in H2 as [H2 _]. by apply elem_of_dom in H2 as [? ?]; congruence.
      * rewrite lookup_insert_ne in He by done. eauto.
  - intros h'. set (y' := set_open _ _ _).
    assert (live y' = <[id := new_entry id h hs n s]> (live y)) as ->.
    { apply map_eq. intros i. apply option_eq. intros e. rewrite live_lookup. cbn. destruct (decide (i = id)) as [->|Hne].
      - rewrite !lookup_insert_eq. set_solver.
      - rewrite !lookup_insert_ne, live_lookup by done. set_solver. }
    rewrite count_map_insert_fresh.
    + destruct (active h' _) eqn:Ea; [|specialize (Hact h'); lia].
      assert (h' = h) as -> by (unfold active in Ea; split_bools; done).
      assert (count_map (active h) (live y) ≤ open_count h y); [|lia].
      apply count_map_mono. intros k x Hx Ha. exists x. split; [done|]. by apply active_counted.
    + apply eq_None_not_Some. intros [e [He _]%live_lookup]. congruence.
  - done.
Qed.

(** *** Closing *)

(** A step that touches no entry. *)
Lemma untouched_inv y y' :
  term_inv y → heap y' = heap y → opens y' = opens y → pumps y' = pumps y → read_log y' = read_log y →
  polled_log y' = polled_log y → emptied y' = emptied y → sessions y' ⊆ sessions y → zlen (closed y') ≤ TOMBSTONE_LIMIT →
  (∀ id e, heap y !! id = Some e → is_Some (channel e) → taker y id → taker y' id) →
  (∀ t k, closers y' !! t = Some k → task_ok y' k) → term_inv y'.
Proof.
  intros [Hent Hfresh Htasks Hact Hcl] Hh Ho Hp Hr Hpo Hem Hs Hc Hta Hk. split; [| |done| |done].
  - intros id e. rewrite Hh, Ho, Hp, Hr, Hpo, Hem. intros He. destruct (Hent id e He) as [H1 H2 H3 H4 HL H5 H6 H7].
    split; try done. intros Hx. specialize (H4 Hx). destruct (cancel e); eauto.
  - intros id. rewrite Hh, Ho, Hp, Hr, Hpo, Hem. apply Hfresh.
  - intros h. etrans; [|apply (Hact h)]. apply count_map_mono. intros id x [Hx Hi]%live_lookup Ha.
    rewrite Hh in Hx. exists x. split; [|done]. apply live_lookup. set_solver.
Qed.

Lemma task_ok_same y y' k : heap y' = heap y → task_ok y k → task_ok y' k.
Proof. unfold task_ok. by intros ->. Qed.

(** Replacing task [t] keeps the other takers. *)
Lemma taker_set y t k' id :
  taker y id → (∀ k rest, closers y !! t = Some k → ct_todo k = id :: rest → ct_phase k ≠ CTake) → taker (set_closer y t k') id.
Proof.
  intros (t' & k & rest & H1 & H2 & H3) Hn. exists t', k, rest. split; [|done]. cbn.
  rewrite lookup_partial_alter_ne; [done|]. intros ->. by apply (Hn k rest).
Qed.

(** The tasks after task [t] was replaced by a good one. *)
Lemma tasks_set y t k' : term_inv y → (∀ k, k' = Some k → task_ok y k) →
  ∀ t' k, closers (set_closer y t k') !! t' = Some k → task_ok y k.
Proof.
  intros Hi Hk t' k. cbn. destruct (decide (t' = t)) as [->|Hne].
  - rewrite lookup_partial_alter_eq. auto.
  - rewrite lookup_partial_alter_ne by done. apply Hi.
Qed.

Lemma close_start_inv t call todo r y y' :
  closers y !! t = None → close_start t call todo y = Some (r, y') → term_inv y → term_inv y'.
Proof.
  intros Ht H Hi.
  assert (∀ ids s f, (s = TClosed ∨ s = TDisconnected) → Forall (λ id, id ∈ dom (heap y)) ids →
    term_inv (set_closer y t (Some (close_task ids s f)))) as Hgo.
  { intros ids s f Hs Hids. eapply untouched_inv; try done; [apply Hi| |].
    - intros id e _ _ Hta. apply taker_set; [done|]. congruence.
    - intros t' k Hk. apply (task_ok_same y); [done|]. eapply tasks_set; [done| |done].
      intros k0 [= <-]. split; [done|]. by split. }
  assert (∀ f, selects f y todo = true → Forall (λ id, id ∈ dom (heap y)) todo) as Hsel.
  { intros f Hf. unfold selects in Hf. split_bools. apply list.Forall_forall. intros id Hid.
    assert (id ∈ (list_to_set todo : gset N)) as Hd by (by apply elem_of_list_to_set).
    rewrite H1 in Hd. apply elem_of_dom in Hd as [e [[He _]%live_lookup _]%map_lookup_filter_Some].
    by apply elem_of_dom_2 in He. }
  destruct call as [key|h hs|h|]; cbn [close_start] in H.
  - destruct (bool_decide _); [by simplify_eq|]. destruct (live y !! own_terminal key) as [e|] eqn:Ee; [|by simplify_eq].
    destruct (verify_ownership _ _); simplify_eq; [|done]. apply Hgo; [by left|]. repeat constructor.
    apply live_lookup in Ee as [Ee _]. by apply elem_of_dom_2 in Ee.
  - destruct (selects _ _ _) eqn:Es; [|done]. simplify_eq. apply Hgo; [by right|]. by eapply Hsel.
  - destruct (selects _ _ _) eqn:Es; [|done]. simplify_eq. apply Hgo; [by left|]. by eapply Hsel.
  - destruct (selects _ _ _) eqn:Es; [|done]. simplify_eq. apply Hgo; [by left|]. by eapply Hsel.
Qed.

Lemma close_finish_inv f t y : term_inv y → (∀ k, closers y !! t = Some k → ct_todo k = []) →
  term_inv (close_finish f (set_closer y t None)).
Proof.
  intros Hi Ht.
  assert (∀ s l c, s ⊆ sessions y → zlen c ≤ TOMBSTONE_LIMIT → term_inv (set_sessions (set_closer y t None) s l c)) as Hgo.
  { intros s l c Hs Hc. eapply untouched_inv; try done.
    - intros id e _ _ Hta. change (taker (set_closer y t None) id). apply taker_set; [done|].
      intros k rest Hk Hk'. specialize (Ht k Hk). congruence.
    - intros t' k Hk. apply (task_ok_same y); [done|]. by eapply (tasks_set y t None). }
  pose proof (ti_closed _ Hi). destruct f as [key| |h|]; cbn [close_finish].
  - apply Hgo; [cbn; set_solver|]. cbn [set_closer closed]. destruct (_ <? _) eqn:E; split_bools; [|done].
    rewrite length_drop, length_app. cbn [length]. lia.
  - by apply (Hgo (sessions y) (next_label y) (closed y)).
  - apply Hgo; [cbn; set_solver|]. cbn [set_closer closed]. etrans; [|done]. apply inj_le, length_filter.
  - apply Hgo; [set_solver|done].
Qed.

(** What a closing step does to the current entry. *)
Lemma closing_inv e op pu tk (tk' : Prop) rd pl em :
  entry_inv e op pu tk rd pl em → (is_Some (channel e) → tk') →
  entry_inv (cancel_entry (with_state e TClosing)) op pu tk' rd pl em.
Proof.
  intros [H1 H2 H3 H4 HL H5 H6 H7] Htk. split; try done.
  intros Hem. destruct (H7 Hem) as (lost & -> & Hl). exists lost. split; [done|]. destruct Hl as [?|[??]]; auto.
Qed.

Lemma take_inv e op pu tk tk' rd pl em :
  entry_inv e op pu tk rd pl em → cancel e = true → entry_inv (with_channel e None) op pu tk' rd pl em.
Proof.
  intros [H1 H2 H3 H4 HL H5 H6 H7] Hc. split; try done.
  - intros Hs. destruct (H1 Hs). congruence.
  - intros Hop. destruct (H2 Hop) as (? & ? & ? & ? & ?). done.
  - by intros [? ?].
Qed.

Lemma drain_inv e op pu tk (tk' : Prop) rd pl em s :
  entry_inv e op pu tk rd pl em → (s = TClosed ∨ s = TDisconnected) → (tk → tk') →
  entry_inv (with_state (with_output e {| receiver := []; carryover := None |}) s) op pu tk' rd pl true.
Proof.
  intros [H1 H2 H3 H4 HL H5 H6 H7] Hs Htk. split; try done.
  - cbn. by destruct Hs as [->| ->].
  - intros Hop. destruct (H2 Hop) as (? & ? & ? & ? & ?). done.
  - cbn. intros Hx. specialize (H4 Hx). destruct (cancel e); auto.
  - cbn. destruct H6 as [_ H6]. split; [|done]. split; [constructor|done].
Qed.

(** Closing steps that change the current entry: the frame. *)
Lemma touch_close id e e' t k k' y y' :
  term_inv y → heap y !! id = Some e → closers y !! t = Some k → (∃ rest, ct_todo k = id :: rest) →
  heap y' = <[id := e']> (heap y) → opens y' = opens y → pumps y' = pumps y → host e' = host e →
  (active (host e) e' = true → active (host e) e = true) → (cancel e = true → cancel e' = true) →
  sessions y' = sessions y → closed y' = closed y → read_log y' = read_log y → polled_log y' = polled_log y →
  emptied y' ∖ {[id]} = emptied y ∖ {[id]} → closers y' = <[t := k']> (closers y) → task_ok y' k' →
  touches id e e' (opens y !! id) (pumps y !! id) y y'.
Proof.
  intros Hi He Hk [rest Hr] Hh Ho Hp Hho Ha Hc Hs Hcl Hrd Hpo Hem Hks Hk'. split; try done.
  - rewrite Ho. by apply alter_self.
  - rewrite Hp. by apply alter_self.
  - by rewrite Hs.
  - rewrite Hcl. apply Hi.
  - intros i _. by rewrite Hrd.
  - intros i _. by rewrite Hpo.
  - intros i Hne. set_solver.
  - intros i Hne (t' & k0 & rest0 & H1 & H2 & H3). exists t', k0, rest0. split; [|done].
    rewrite Hks, lookup_insert_ne; [done|]. intros <-. rewrite Hk in H1. simplify_eq. congruence.
  - intros t' k0. rewrite Hks. destruct (decide (t' = t)) as [->|Hne].
    + rewrite lookup_insert_eq. by intros [= <-].
    + rewrite lookup_insert_ne by done. intros H. eapply task_ok_heap; [done..|]. by eapply ti_tasks.
Qed.

(** Moving a task on without touching its current entry. *)
Lemma close_move_inv id e t k k' rest y :
  term_inv y → heap y !! id = Some e → closers y !! t = Some k → ct_todo k = id :: rest →
  ct_phase k ≠ CTake ∨ channel e = None → task_ok y k' → term_inv (set_closer y t (Some k')).
Proof.
  intros Hi Ee Ek Er Hn Hk'. eapply untouched_inv; try done; [apply Hi| |].
  - intros i x Hx Hc Hta. apply taker_set; [done|]. intros k0 r0 H1 H2 H3. rewrite Ek in H1. injection H1 as <-.
    rewrite Er in H2. injection H2 as -> ->. rewrite Ee in Hx. injection Hx as <-.
    destruct Hn as [?|Hn]; [done|]. rewrite Hn in Hc. by destruct Hc.
  - intros t' k0 Hk0. apply (task_ok_same y); [done|]. eapply tasks_set; [done| |done]. by intros k1 [= <-].
Qed.

(** The task on its next entry, and the task in a later phase of this one. *)
Lemma task_next y y' k id rest : task_ok y k → ct_todo k = id :: rest → dom (heap y) ⊆ dom (heap y') → task_ok y' (next_entry k rest).
Proof.
  intros (Hf & Hd & _) Er Hs. split; [done|]. split; [|by intros ???? Hp].
  rewrite Er in Hd. apply list.Forall_cons in Hd as [_ Hd]. eapply list.Forall_impl; [done|]. cbn. set_solver.
Qed.

Lemma task_at y y' k p id rest e :
  task_ok y k → ct_todo k = id :: rest → dom (heap y) ⊆ dom (heap y') → heap y' !! id = Some e → cancel e = true →
  task_ok y' (at_phase k p).
Proof.
  intros (Hf & Hd & _) Er Hs He Hc. split; [done|]. split.
  - eapply list.Forall_impl; [done|]. cbn. set_solver.
  - cbn. rewrite Er. intros i r x [= <- <-] _. rewrite He. by intros [= <-].
Qed.

(** Neither the clock nor the guards matter to the entries. *)
Lemma unlock_inv id y : term_inv y → term_inv (unlock_slot y id).
Proof. intros Hi. eapply untouched_inv; try done; [apply Hi|]. intros t k Hk. apply (task_ok_same y); [done|]. by eapply ti_tasks. Qed.
Lemma tick_inv y : term_inv y → term_inv (tick y).
Proof. intros Hi. eapply untouched_inv; try done; [apply Hi|]. intros t k Hk. apply (task_ok_same y); [done|]. by eapply ti_tasks. Qed.

Lemma close_step_inv t answered y y' : close_step t answered y = Some y' → term_inv y → term_inv y'.
Proof.
  unfold close_step. intros H Hi. destruct (closers y !! t) as [k|] eqn:Ek; [|done].
  destruct (ct_todo k) as [|id rest] eqn:Er.
  { injection H as <-. apply close_finish_inv; [done|]. rewrite Ek. by intros k0 [= <-]. }
  destruct (heap y !! id) as [e|] eqn:Ee; [|done]. pose proof (ti_tasks _ Hi t k Ek) as Hok.
  pose proof Hok as (Hf & _ & Hcan). assert (ct_phase k ≠ CBegin → cancel e = true) as Hce by (intros; by eapply Hcan).
  assert (∀ e', dom (heap y) ⊆ dom (<[id := e']> (heap y))) as Hdom by (intros; rewrite dom_insert; set_solver).
  destruct (ct_phase k) eqn:Ep.
  - destruct (_ && _); injection H as <-.
    + eapply (close_move_inv id e); [done..|left; congruence|]. by eapply task_next.
    + set (e' := cancel_entry (with_state e TClosing)).
      eapply (touches_inv id e e'); [eapply (touch_close id e e' t k); try done; [by eauto|by apply active_state|]|done|].
      * eapply task_at; [done..|apply Hdom|cbn; by rewrite lookup_insert_eq|done].
      * intros Hei. eapply closing_inv; [exact Hei|]. intros _. exists t, (at_phase k CTake), rest. cbn.
        by rewrite lookup_partial_alter_eq.
  - destruct (slot_free y id); cbn in H; [|done]. destruct (channel e) as [c|] eqn:Ec; injection H as <-.
    + eapply (touches_inv id e (with_channel e None)); [eapply (touch_close id e _ t k); try done; [by eauto|]|done|].
      * eapply task_at; [done..|apply Hdom|cbn; by rewrite lookup_insert_eq|by apply Hce].
      * intros Hei. eapply take_inv; [exact Hei|by apply Hce].
    + eapply (close_move_inv id e); [done..|by right|]. eapply task_at; [done..|by apply Hce].
  - destruct (close_over y id answered); [|done]. injection H as <-. apply (unlock_inv id).
    eapply (close_move_inv id e); [done..|left; congruence|]. eapply task_at; [done..|by apply Hce].
  - injection H as <-. set (e' := with_state (with_output e {| receiver := []; carryover := None |}) (ct_final k)).
    assert (state e' ≠ TCreating ∧ state e' ≠ TOpen) as [??] by (unfold e'; cbn; by destruct Hf as [->| ->]).
    eapply (touches_inv id e e'); [eapply (touch_close id e e' t k); try done; [by eauto|by apply active_state|cbn; set_solver|]|done|].
    + eapply task_next; [done..|]. apply Hdom.
    + intros Hei. cbn [log_emptied emptied read_log polled_log set_closer set_entry].
      rewrite bool_decide_eq_true_2 by set_solver. eapply drain_inv; [exact Hei|done|].
      intros Hta. change (taker (set_closer y t (Some (next_entry k rest))) id). apply taker_set; [done|].
      intros k0 r0 H1 H2 H3. rewrite Ek in H1. injection H1 as <-. congruence.
Qed.

Lemma term_reachable_inv encode y : term_reachable encode y → term_inv y.
Proof.
  revert y. apply (rtc_ind_r (λ y, term_inv y) term_new).
  - split; cbn; try done.
  - intros y y' _ Hs Hi. destruct Hs.
    + by apply open_begin_inv.
    + by eapply open_result_inv.
    + by eapply open_continue_inv.
    + by eapply open_dropped_inv.
    + by eapply pump_read_inv.
    + by eapply pump_send_inv.
    + by eapply pump_end_inv.
    + by apply poll_inv.
    + by eapply resized_inv.
    + by apply rename_inv.
    + by eapply close_start_inv.
    + by eapply close_step_inv.
    + by apply tick_inv.
Qed.

(** ** Properties *)

Lemma concat_small l : Forall small l → (length (concat l) ≤ length l * OUTPUT_CHUNK_BYTES)%nat.
Proof. unfold small. induction 1 as [|c l Hc _ IH]; cbn [concat length]; [lia|]. rewrite length_app. lia. Qed.

(** However the callers, the pumps and the closing tasks interleave, at
    most eight terminals of a host are starting or open, at most 64 closed
    ones are remembered, and a terminal buffers at most 64 chunks, that is
    1040 KiB of output. *)
Theorem terminals_bounded encode y h :
  term_reachable encode y →
  count_map (active h) (live y) ≤ 8 ∧ zlen (closed y) ≤ 64 ∧
  ∀ id e, heap y !! id = Some e → zlen (receiver (output e)) ≤ 64 ∧ zlen (buffered (output e)) ≤ 1040 * 1024.
Proof.
  intros Hi%term_reachable_inv. split; [apply Hi|]. split; [apply Hi|]. intros id e He.
  destruct (ti_entries _ Hi id e He) as [_ _ _ _ _ Hq [[Hs Hc] _] _]. split; [done|].
  pose proof (concat_small _ Hs) as Hl. unfold buffered. rewrite length_app.
  assert ((length (default [] (carryover (output e))) ≤ OUTPUT_CHUNK_BYTES)%nat) as Hcl.
  { destruct (carryover (output e)) as [c|] eqn:E; cbn; [by apply Hc|lia]. }
  assert (Z.of_nat OUTPUT_CHUNK_BYTES = 16384) as Hn by reflexivity.
  unfold OUTPUT_QUEUE_CAPACITY in Hq. nia.
Qed.

(** Output is complete and in order: after a successful poll the bytes
    handed out so far are a prefix of the bytes read from the channel, unless
    the terminal was closed and its buffer thrown away; a poll hands out at
    most 64 KiB; and once it reports the output drained, on a terminal nobody
    cancelled, every byte read has been handed out. *)
Theorem terminal_output_complete encode y key batch y' :
  term_reachable encode y → poll encode key y = (Ok batch, y') →
  let id := own_terminal key in
  let polled y := default [] (polled_log y !! id) in
  let read y := default [] (read_log y !! id) in
  (∃ cs, tb_chunks batch = map encode cs ∧ polled y' = polled y ++ concat cs ∧ zlen (concat cs) ≤ 64 * 1024) ∧
  (id ∉ emptied y → polled y' `prefix_of` read y') ∧
  (id ∉ emptied y → tb_output_drained batch = true → ∀ e, heap y' !! id = Some e → cancel e = false → polled y' = read y').
Proof.
  intros Hi%term_reachable_inv Hp. pose proof (poll_inv encode key y Hi) as Hi'. rewrite Hp in Hi'. cbn in Hi'.
  unfold poll in Hp. destruct (find_entry key y) as [e|] eqn:Ef; [|done]. apply find_entry_ok in Ef as (Ee & _).
  destruct (poll_buffer (output e)) as [cs o] eqn:Eb. injection Hp as <- <-. cbn zeta.
  set (id := own_terminal key) in *. set (e' := with_output e o) in *.
  set (y' := log_polled (set_entry y id e') id (concat cs)) in *.
  assert (heap y' !! id = Some e') as He' by apply lookup_insert_eq.
  destruct (ti_entries _ Hi' id e' He') as [_ _ Hse _ _ _ _ Hst].
  assert (id ∉ emptied y → bool_decide (id ∈ emptied y') = false) as Hem by (intros; by apply bool_decide_eq_false_2).
  split; [|split].
  - exists cs. split; [done|]. split; [cbn; by rewrite lookup_insert_eq|].
    destruct (ti_entries _ Hi id e Ee) as [_ _ _ _ _ _ [Hs _] _]. by destruct (poll_buffer_spec _ _ _ Eb Hs) as (_ & ? & _).
  - intros Hn. destruct (Hst (Hem Hn)) as (lost & -> & _). by apply prefix_app_r.
  - intros Hn Hd x Hx Hc. rewrite He' in Hx. injection Hx as <-. cbn [tb_output_drained] in Hd. unfold drained in Hd. split_bools.
    destruct (Hse ltac:(done)) as [_ Hpu]. destruct (Hst (Hem Hn)) as (lost & -> & [->|[? _]]); [|congruence].
    rewrite Hpu. unfold buffered. replace (carryover (output e')) with (@None (list Z)) by done.
    replace (receiver (output e')) with (@nil (list Z)) by done. cbn. by rewrite !app_nil_r.
Qed.

(** No channel leaks and no open terminal is dead: a channel held by an
    entry is owned by its output pump or is about to be taken by a closing
    task, and a terminal shown as open has its channel, is not cancelled and
    its pump is reading or delivering output. *)
Theorem channels_have_owners encode y id e :
  term_reachable encode y → heap y !! id = Some e →
  (∀ c, channel e = Some c → holds_channel (pumps y !! id) = true ∨ taker y id) ∧
  (state e = TOpen → is_Some (channel e) ∧ cancel e = false ∧ pump_live (pumps y !! id) = true).
Proof.
  intros Hi%term_reachable_inv He. destruct (ti_entries _ Hi id e He) as [H1 _ _ H4 _ _ _ _]. split.
  - intros c Hc. specialize (H4 (mk_is_Some _ _ Hc)). destruct (cancel e); auto.
  - intros Hs. destruct (H1 Hs) as (? & ? & ? & _). done.
Qed.

(** ** The locks of the channel slots *)

Definition pump_closing (y : TermSys) (id : TerminalSessionId) : Prop := ∃ c, pumps y !! id = Some (PumpClosing c).
Definition task_closing (y : TermSys) (t : N) (id : TerminalSessionId) : Prop :=
  ∃ k rest c, closers y !! t = Some k ∧ ct_todo k = id :: rest ∧ ct_phase k = CChannel c.
Definition slot_empty (y : TermSys) (id : TerminalSessionId) : Prop := ∃ e, heap y !! id = Some e ∧ channel e = None.

(** A lock is held exactly by the one task that is closing the channel it took
    from the slot, for two seconds at most. *)
Record lock_inv (y : TermSys) : Prop := {
  li_guard : ∀ id g, guards y !! id = Some g → slot_empty y id ∧ until g ≤ clock y + CLOSE_TIMEOUT ∧
    match held_by g with None => pump_closing y id | Some t => task_closing y t id end;
  li_pump : ∀ id, pump_closing y id → ∃ u, guards y !! id = Some {| held_by := None; until := u |};
  li_task : ∀ t id, task_closing y t id → ∃ u, guards y !! id = Some {| held_by := Some t; until := u |}
}.

(** A step that takes and gives back no lock. *)
Lemma lock_frame y y' : lock_inv y → guards y' = guards y → clock y ≤ clock y' →
  (∀ id, pump_closing y' id ↔ pump_closing y id) → (∀ t id, task_closing y' t id ↔ task_closing y t id) →
  (∀ id, guards y !! id ≠ None → slot_empty y id → slot_empty y' id) → lock_inv y'.
Proof.
  intros [H1 H2 H3] Hg Hc Hp Ht Hs. split; rewrite Hg.
  - intros id g E. destruct (H1 id g E) as (S1 & S2 & S3). split; [apply Hs; [by rewrite E|done]|]. split; [lia|].
    destruct (held_by g); [by apply Ht|by apply Hp].
  - intros id. rewrite Hp. apply H2.
  - intros t id. rewrite Ht. apply H3.
Qed.

(** Whether the pump of [i] is closing does not change with another phase of
    the pump of [id] that is no closing either. *)
Lemma pump_closing_alter y y' id p : pumps y' = partial_alter (λ _, p) id (pumps y) →
  (∀ c, pumps y !! id ≠ Some (PumpClosing c)) → (∀ c, p ≠ Some (PumpClosing c)) → ∀ i, pump_closing y' i ↔ pump_closing y i.
Proof.
  intros E H1 H2 i. unfold pump_closing. rewrite E. destruct (decide (i = id)) as [->|Hne].
  - rewrite lookup_partial_alter_eq. naive_solver.
  - by rewrite lookup_partial_alter_ne.
Qed.

Definition in_channel (k : CloseTask) : Prop := ∃ c, ct_todo k ≠ [] ∧ ct_phase k = CChannel c.

Lemma task_closing_alter y y' t k' : closers y' = partial_alter (λ _, k') t (closers y) →
  (∀ k, closers y !! t = Some k → ¬ in_channel k) → (∀ k, k' = Some k → ¬ in_channel k) →
  ∀ t' i, task_closing y' t' i ↔ task_closing y t' i.
Proof.
  intros E H1 H2 t' i. unfold task_closing, in_channel in *. rewrite E. destruct (decide (t' = t)) as [->|Hne].
  - rewrite lookup_partial_alter_eq. split; intros (k & rest & c & Hk & Hr & Hp); exfalso.
    + apply (H2 k Hk). exists c. by rewrite Hr.
    + apply (H1 k Hk). exists c. by rewrite Hr.
  - by rewrite lookup_partial_alter_ne.
Qed.

Lemma slot_empty_insert y y' id e e' : heap y !! id = Some e → heap y' = <[id := e']> (heap y) → (channel e = None → channel e' = None) →
  ∀ i, slot_empty y i → slot_empty y' i.
Proof.
  intros He Hh Hc i (x & Hx & Hn). unfold slot_empty. rewrite Hh. destruct (decide (i = id)) as [->|Hne].
  - exists e'. rewrite lookup_insert_eq. split; [done|]. apply Hc. congruence.
  - exists x. by rewrite lookup_insert_ne.
Qed.

(** The frame of a step that only works on the entry of [id] and its pump. *)
Lemma lock_touch id e e' p y y' : lock_inv y → heap y !! id = Some e → heap y' = <[id := e']> (heap y) →
  (guards y !! id = None ∨ (channel e = None → channel e' = None)) → guards y' = guards y → clock y' = clock y → closers y' = closers y →
  pumps y' = partial_alter (λ _, p) id (pumps y) → (∀ c, pumps y !! id ≠ Some (PumpClosing c)) → (∀ c, p ≠ Some (PumpClosing c)) → lock_inv y'.
Proof.
  intros Hi He Hh Hc Hg Hcl Hk Hp H1 H2. eapply lock_frame; [done|done|lia|by eapply pump_closing_alter| |].
  - intros t i. unfold task_closing. by rewrite Hk.
  - intros i Hn. destruct Hc as [Hc|Hc]; [|by eapply slot_empty_insert]. intros (x & Hx & Hx'). exists x. split; [|done].
    rewrite Hh, lookup_insert_ne; [done|]. by intros <-.
Qed.

(** A step that leaves pumps, closing tasks and locks alone. *)
Lemma lock_calm id e e' y y' : lock_inv y → heap y !! id = Some e → heap y' = <[id := e']> (heap y) → channel e' = channel e →
  guards y' = guards y → clock y' = clock y → closers y' = closers y → pumps y' = pumps y → lock_inv y'.
Proof.
  intros Hi He Hh Hc Hg Hcl Hk Hp. eapply lock_frame; [done|done|lia| | |].
  - intros i. unfold pump_closing. by rewrite Hp.
  - intros t i. unfold task_closing. by rewrite Hk.
  - intros i _. eapply slot_empty_insert; [done..|]. by rewrite Hc.
Qed.

Lemma lock_still y y' : lock_inv y → heap y' = heap y → guards y' = guards y → clock y ≤ clock y' → closers y' = closers y → pumps y' = pumps y → lock_inv y'.
Proof.
  intros Hi Hh Hg Hcl Hk Hp. eapply lock_frame; [done|done|done| | |]; unfold pump_closing, task_closing, slot_empty; by rewrite ?Hp, ?Hk, ?Hh.
Qed.

Ltac calm := first [done|by eapply lock_still|by eapply lock_calm].

Lemma lock_opening encode y y' : lock_inv y → term_inv y →
  (∃ id h hs size, id ∉ dom (heap y) ∧ y' = (open_begin id h hs size y).2) ∨ (∃ id r, open_result id r y = Some y') ∨
  (∃ id, open_continue id y = Some y') ∨ (∃ id locked, open_dropped id locked y = Some y') ∨
  (∃ key, y' = (poll encode key y).2) ∨ (∃ id size, resized id size y = Some y') ∨ (∃ key label, y' = (rename key label y).2) → lock_inv y'.
Proof.
  intros Hl Hi [(id & h & hs & size & Hn & ->)|[(id & r & H)|[(id & H)|[(id & locked & H)|[(key & ->)|[(id & size & H)|(key & label & ->)]]]]]].
  - unfold open_begin. repeat case_match; try done. cbn. eapply lock_frame; [done|done|done|done|done|].
    intros i _ (x & Hx & Hc). exists x. split; [|done]. cbn. rewrite lookup_insert_ne; [done|]. intros <-. apply Hn. by eapply elem_of_dom_2.
  - unfold open_result in H. repeat case_match; simplify_eq; calm.
  - unfold open_continue in H. destruct (opens y !! id) as [p|] eqn:Eo; [|done]. destruct (heap y !! id) as [e|] eqn:Ee; [|by destruct p].
    destruct (ti_entries _ Hi id e Ee) as [_ Hop _ _ _ _ _ _]. rewrite Eo in Hop. destruct (Hop (mk_is_Some _ _ eq_refl)) as (_ & Hpu & _).
    destruct p; try (by simplify_eq; calm). unfold slot_free in H. case_bool_decide as Hg; [|done]. cbn in H.
    destruct (cancel e || _); injection H as <-; [calm|].
    eapply (lock_touch id e _ (Some Reading)); try done; [by left|by rewrite Hpu].
  - unfold open_dropped in H. repeat case_match; simplify_eq; calm.
  - unfold poll. destruct (find_entry key y) as [e|] eqn:E; [|done]. apply find_entry_ok in E as (E & _). destruct (poll_buffer _). by eapply lock_calm.
  - unfold resized in H. repeat case_match; simplify_eq; calm.
  - unfold rename. repeat case_match; try done. apply find_entry_ok in H0 as (E & _). by eapply lock_calm.
Qed.
Lemma lock_pumping y y' id : lock_inv y → (∃ r, pump_read id r y = Some y') ∨ (∃ stop, pump_send id stop y = Some y') → lock_inv y'.
Proof.
  intros Hl [(r & H)|(stop & H)].
  - unfold pump_read in H. destruct (pumps y !! id) as [[| | |]|] eqn:Ep; try done. destruct (heap y !! id) as [e|] eqn:Ee; [|done].
    destruct r as [[[data| |]|error]|]; [|..|destruct (cancel e); [|done]]; injection H as <-;
      try (eapply (lock_touch id e _ (Some Ending)); try done; [right; by case_bool_decide|by rewrite Ep]).
    + eapply (lock_touch id e e); try done; [by rewrite insert_id|by right|by rewrite Ep|]. by destruct (chunks _ _).
    + eapply (lock_touch id e e); try done; [by rewrite insert_id|by right|by rewrite Ep].
  - unfold pump_send in H. destruct (pumps y !! id) as [[|[|c rest]| |]|] eqn:Ep; try done. destruct (heap y !! id) as [e|] eqn:Ee; [|done].
    destruct stop; [destruct (cancel e); [|done]|destruct (_ <=? _); [done|]]; injection H as <-.
    + eapply (lock_touch id e _ None); try done; [by right|by rewrite Ep].
    + eapply (lock_touch id e); try done; [by right|by rewrite Ep|]. by destruct rest.
Qed.

(** The lock is taken with the channel, and the deadline set. *)
Lemma lock_taken y y' id e who : lock_inv y → heap y !! id = Some e → guards y !! id = None → heap y' = <[id := with_channel e None]> (heap y) →
  clock y' = clock y → guards y' = <[id := {| held_by := who; until := clock y + CLOSE_TIMEOUT |}]> (guards y) →
  (∀ i, pump_closing y' i ↔ pump_closing y i ∨ who = None ∧ i = id) →
  (∀ t i, task_closing y' t i ↔ task_closing y t i ∨ who = Some t ∧ i = id) → lock_inv y'.
Proof.
  intros [H1 H2 H3] He Hn Hh Hc Hg Hp Ht. split; rewrite Hg, ?Hc.
  - intros i g. destruct (decide (i = id)) as [->|Hne].
    + rewrite lookup_insert_eq. intros [= <-]. cbn. split; [exists (with_channel e None); by rewrite Hh, lookup_insert_eq|]. split; [lia|].
      destruct who; [apply Ht|apply Hp]; by right.
    + rewrite lookup_insert_ne by done. intros E. destruct (H1 i g E) as (S1 & S2 & S3).
      split; [by eapply slot_empty_insert|]. split; [done|]. destruct (held_by g); [apply Ht|apply Hp]; by left.
  - intros i [Hi|[-> ->]]%Hp; [|by rewrite lookup_insert_eq; eauto]. destruct (H2 i Hi) as [u Hu]. exists u.
    rewrite lookup_insert_ne; [done|]. intros <-. by rewrite Hn in Hu.
  - intros t i [Hi|[-> ->]]%Ht; [|by rewrite lookup_insert_eq; eauto]. destruct (H3 t i Hi) as [u Hu]. exists u.
    rewrite lookup_insert_ne; [done|]. intros <-. by rewrite Hn in Hu.
Qed.

(** The lock is given back by the task that held it. *)
Lemma lock_released y y' id who u : lock_inv y → guards y !! id = Some {| held_by := who; until := u |} →
  (∀ i, slot_empty y i → slot_empty y' i) → clock y' = clock y → guards y' = delete id (guards y) →
  (∀ i, pump_closing y' i ↔ pump_closing y i ∧ (who = None → i ≠ id)) →
  (∀ t i, task_closing y' t i ↔ task_closing y t i ∧ (who = Some t → i ≠ id)) → lock_inv y'.
Proof.
  intros [H1 H2 H3] Hn Hs Hc Hg Hp Ht. split; rewrite Hg, ?Hc.
  - intros i g [Hne E]%lookup_delete_Some. destruct (H1 i g E) as (S1 & S2 & S3). split; [by apply Hs|]. split; [done|].
    destruct (held_by g); [apply Ht|apply Hp]; by split.
  - intros i [Hi Hne]%Hp. destruct (H2 i Hi) as [v Hv]. exists v. rewrite lookup_delete_ne; [done|]. intros <-. rewrite Hn in Hv. simplify_eq. by apply Hne.
  - intros t i [Hi Hne]%Ht. destruct (H3 t i Hi) as [v Hv]. exists v. rewrite lookup_delete_ne; [done|]. intros <-. rewrite Hn in Hv. simplify_eq. by apply Hne.
Qed.

Lemma slot_free_true y id : slot_free y id = true → guards y !! id = None.
Proof. apply bool_decide_eq_true. Qed.

Lemma lock_pump_end y y' id answered : lock_inv y → pump_end id answered y = Some y' → lock_inv y'.
Proof.
  intros Hl H. unfold pump_end in H. destruct (pumps y !! id) as [[| | |c]|] eqn:Ep; try done; destruct (heap y !! id) as [e|] eqn:Ee; try done.
  - destruct (slot_free y id) eqn:Eg; [|done]. apply slot_free_true in Eg. cbn in H. destruct (channel e) as [c|] eqn:Ec; injection H as <-.
    + eapply (lock_taken y _ id e None); try done.
      * intros i. unfold pump_closing. cbn. destruct (decide (i = id)) as [->|Hne]; [rewrite lookup_partial_alter_eq; naive_solver|].
        rewrite lookup_partial_alter_ne by done. naive_solver.
      * intros t i. change (task_closing y t i ↔ task_closing y t i ∨ None = Some t ∧ i = id). naive_solver.
    + eapply (lock_touch id e _ None); try done; [by right|by rewrite Ep].
  - destruct (close_over y id answered); [|done]. injection H as <-.
    destruct (li_pump _ Hl id) as [u Hu]; [by exists c|]. eapply (lock_released y _ id None u); try done.
    + by eapply slot_empty_insert.
    + intros i. unfold pump_closing. cbn. destruct (decide (i = id)) as [->|Hne]; [rewrite lookup_partial_alter_eq; naive_solver|].
      rewrite lookup_partial_alter_ne by done. naive_solver.
    + intros t i. change (task_closing y t i ↔ task_closing y t i ∧ (None = Some t → i ≠ id)). naive_solver.
Qed.

Lemma lock_close_start t call todo r y y' : lock_inv y → closers y !! t = None → close_start t call todo y = Some (r, y') → lock_inv y'.
Proof.
  intros Hl Hn H. assert (∀ ids s f, lock_inv (set_closer y t (Some (close_task ids s f)))) as Hgo.
  { intros ids s f. eapply lock_frame; [done|done|done|done| |done]. eapply task_closing_alter; [done|by rewrite Hn|]. by intros k [= <-] (c & _ & Hp). }
  unfold close_start in H. repeat case_match; simplify_eq; done.
Qed.

(** The closing tasks when the task [t] is replaced. *)
Lemma task_closing_set y y' t k k' : closers y' = partial_alter (λ _, Some k') t (closers y) → closers y !! t = Some k → ∀ t' i,
  task_closing y' t' i ↔ if bool_decide (t' = t) then ∃ rest c, ct_todo k' = i :: rest ∧ ct_phase k' = CChannel c else task_closing y t' i.
Proof.
  intros E Hk t' i. unfold task_closing. rewrite E. case_bool_decide as Hb; [subst t'|by rewrite lookup_partial_alter_ne].
  rewrite lookup_partial_alter_eq. naive_solver.
Qed.

Lemma lock_close_step t answered y y' : lock_inv y → close_step t answered y = Some y' → lock_inv y'.
Proof.
  intros Hl H. unfold close_step in H. destruct (closers y !! t) as [k|] eqn:Ek; [|done]. destruct (ct_todo k) as [|id rest] eqn:Er.
  { assert (lock_inv (set_closer y t None)) as Hn.
    { eapply lock_frame; [done|done|done|done| |done]. eapply task_closing_alter; [done| |done]. rewrite Ek. intros ? [= <-] (c & Hc & _). by rewrite Er in Hc. }
    injection H as <-. destruct (ct_finish k); cbn; by eapply lock_still. }
  destruct (heap y !! id) as [e|] eqn:Ee; [|done].
  assert (∀ e' k', channel e' = channel e → ct_phase k' = CBegin ∨ ct_phase k' = CTake ∨ ct_phase k' = CDrain → (∀ c, ct_phase k ≠ CChannel c) →
    lock_inv (set_closer (set_entry y id e') t (Some k'))) as Hmove.
  { intros e' k' Hc Hk' Hk. eapply lock_frame; [done|done|done|done| |].
    - eapply task_closing_alter; [done|rewrite Ek; by intros ? [= <-] (c & _ & Hp); apply (Hk c)|]. intros ? [= <-] (c & _ & Hp). rewrite Hp in Hk'. naive_solver.
    - intros i _. eapply slot_empty_insert; [done..|]. by rewrite Hc. }
  assert (∀ k', ct_phase k' = CBegin ∨ ct_phase k' = CTake ∨ ct_phase k' = CDrain → (∀ c, ct_phase k ≠ CChannel c) →
    lock_inv (set_closer y t (Some k'))) as Hmove'.
  { intros k' Hk' Hk. eapply lock_still; [by apply (Hmove e k')|cbn; by rewrite insert_id|done..]. }
  destruct (ct_phase k) as [| |c|] eqn:Ep.
  - destruct (_ && _); injection H as <-; [apply Hmove'|apply Hmove]; auto.
  - destruct (slot_free y id) eqn:Eg; [|done]. apply slot_free_true in Eg. cbn in H. destruct (channel e) as [c|] eqn:Ec; injection H as <-; [|apply Hmove'; auto].
    eapply (lock_taken y _ id e (Some t)); try done; [intros i; split; [by left|by intros [?|[? _]]]|].
    intros t' i. rewrite (task_closing_set y _ t k (at_phase k (CChannel c))) by done. cbn. rewrite Er. case_bool_decide as Hb; [|naive_solver].
    subst t'. split; [naive_solver|]. intros [(k0 & r0 & c0 & E1 & E2 & E3)|[_ ->]]; [congruence|eauto].
  - destruct (close_over y id answered); [|done]. injection H as <-.
    destruct (li_task _ Hl t id) as [u Hu]; [by exists k, rest, c|]. eapply (lock_released y _ id (Some t) u); try done; [intros i; split; [by split|by intros [? _]]|].
    intros t' i. rewrite (task_closing_set y _ t k (at_phase k CDrain)) by done. cbn. case_bool_decide as Hb; [|naive_solver].
    subst t'. split; [naive_solver|]. intros [(k0 & r0 & c0 & E1 & E2 & E3) Hne]. exfalso. apply Hne; congruence.
  - injection H as <-. set (e' := with_state _ _). apply (lock_still (set_closer (set_entry y id e') t (Some (next_entry k rest)))); [|done..].
    apply Hmove; auto.
Qed.

Lemma term_reachable_locks encode y : term_reachable encode y → lock_inv y.
Proof.
  intros H. cut (term_inv y ∧ lock_inv y); [by intros []|]. revert y H. apply (rtc_ind_r (λ y, term_inv y ∧ lock_inv y) term_new).
  - split; [by apply (term_reachable_inv encode); constructor|]. split; cbn; [done|by intros id [c Hc]|by intros t id (? & ? & ? & Hc & _)].
  - intros y y' Hr Hs [Hi Hl]. split; [apply (term_reachable_inv encode); by eapply rtc_r|].
    destruct Hs; try (eapply (lock_opening encode); [done|done|naive_solver]); try (eapply lock_pumping; naive_solver).
    + by eapply lock_pump_end.
    + by eapply lock_close_start.
    + by eapply lock_close_step.
    + eapply lock_still; try done. cbn. lia.
Qed.

(** ** Closing terminates *)

(** The steps a closing task has left. *)
Definition steps_left (k : CloseTask) : nat :=
  match ct_todo k with
  | [] => 1
  | _ => 4 * length (ct_todo k) + 1 - match ct_phase k with CBegin => 0 | CTake => 1 | CChannel _ => 2 | CDrain => 3 end
  end.

(** The lock a task waits for, or holds while it waits for the server: the
    entry, and the guard. *)
Definition waiting (y : TermSys) (t : N) : option (TerminalSessionId * Guard) :=
  k ← closers y !! t;
  match ct_todo k, ct_phase k with
  | id :: _, CTake | id :: _, CChannel _ => g ← guards y !! id; Some (id, g)
  | _, _ => None
  end.

(** The step of the task that holds a lock, without an answer of the server. *)
Definition holder_step (id : TerminalSessionId) (g : Guard) (y : TermSys) : option TermSys :=
  match held_by g with None => pump_end id false y | Some t => close_step t false y end.

(** The task, or who holds the lock it waits for, can go on without the server. *)
Definition runnable (y : TermSys) (t : N) : bool := match waiting y t with None => true | Some (_, g) => until g <=? clock y end.

(** A step while the task [t] is there, in which time passes only when neither
    it nor the holder of the lock it waits for can go on. *)
Definition prompt (encode : list Z → str) (t : N) (y y' : TermSys) : Prop :=
  term_step encode y y' ∧ (clock y' ≠ clock y → runnable y t = false) ∧ is_Some (closers y' !! t).

(** The time until the slot of [id] is empty and its lock free, once a task is
    about to take the lock, and the time a task may still need. *)
Definition slot_time (y : TermSys) (id : TerminalSessionId) : Z :=
  match guards y !! id with
  | Some g => Z.max 0 (until g - clock y)
  | None => match heap y !! id ≫= channel with Some _ => CLOSE_TIMEOUT | None => 0 end
  end.
Definition time_left (y : TermSys) (k : CloseTask) : Z :=
  match ct_todo k with
  | [] => 0
  | id :: rest =>
      CLOSE_TIMEOUT * zlen rest +
      match ct_phase k with CBegin => CLOSE_TIMEOUT | CTake | CChannel _ => slot_time y id | CDrain => 0 end
  end.

(** No step of another task, and not the clock, changes a closing task. *)
Lemma task_moves encode y y' t k : term_step encode y y' → closers y !! t = Some k →
  closers y' !! t = Some k ∨ ∃ answered, close_step t answered y = Some y'.
Proof.
  intros Hs Hk.
  destruct Hs as [? ? ? ? ?|? ? ? ? H|? ? ? H|? ? ? ? H|? ? ? ? H|? ? ? ? H|? ? ? ? H|? ?|? ? ? ? H|? ? ?|t' call todo r ? ? Hn H|t' answered ? ? H|?].
  - left. unfold open_begin. by repeat case_match.
  - left. unfold open_result in H. repeat case_match; by simplify_eq.
  - left. unfold open_continue in H. repeat case_match; by simplify_eq.
  - left. unfold open_dropped in H. repeat case_match; by simplify_eq.
  - left. unfold pump_read in H. repeat case_match; by simplify_eq.
  - left. unfold pump_send in H. repeat case_match; by simplify_eq.
  - left. unfold pump_end in H. repeat case_match; by simplify_eq.
  - left. unfold poll. by repeat case_match.
  - left. unfold resized in H. repeat case_match; by simplify_eq.
  - left. unfold rename. by repeat case_match.
  - left. assert (t ≠ t') by congruence. unfold close_start in H. repeat case_match; simplify_eq; try done;
      cbn; by rewrite lookup_partial_alter_ne.
  - destruct (decide (t = t')) as [->|Hne]; [by right; exists answered|left]. unfold close_step, close_finish in H.
    repeat case_match; simplify_eq; cbn; by rewrite lookup_partial_alter_ne.
  - by left.
Qed.

(** Every step of a closing task brings it closer to its end. *)
Lemma close_step_shrinks t k answered y y' : closers y !! t = Some k → close_step t answered y = Some y' →
  closers y' !! t = None ∨ ∃ k', closers y' !! t = Some k' ∧ (steps_left k' < steps_left k)%nat.
Proof.
  intros Hk H. unfold close_step in H. unfold steps_left. rewrite Hk in H. destruct (ct_todo k) as [|id rest] eqn:Er.
  { injection H as <-. left. destruct (ct_finish k); cbn; by rewrite lookup_partial_alter_eq. }
  destruct (heap y !! id) as [e|]; [|done].
  destruct (ct_phase k) eqn:Ep; [destruct (_ && _)|destruct (negb _); [done|]; destruct (channel e)|destruct (close_over _ _ _); [|done]|];
    injection H as <-; right; eexists; cbn; rewrite lookup_partial_alter_eq; (split; [done|]); cbn; rewrite ?Er;
    destruct rest; cbn [length]; lia.
Qed.

(** A task that waits for no lock can take its next step; and when the deadline
    of the lock it waits for has come, the holder can, which ends the wait. *)
Lemma closing_progress y t k : term_inv y → lock_inv y → closers y !! t = Some k →
  match waiting y t with
  | None => is_Some (close_step t false y)
  | Some (id, g) => until g ≤ clock y → ∃ y', holder_step id g y = Some y' ∧ waiting y' t = None
  end.
Proof.
  intros Hi Hl Hk. destruct (ti_tasks _ Hi t k Hk) as (_ & Hd & _). destruct (waiting y t) as [[id g]|] eqn:Ew.
  - intros Hu. unfold waiting in Ew. rewrite Hk in Ew. cbn in Ew. destruct (ct_todo k) as [|i rest] eqn:Er; [done|].
    assert (guards y !! i = Some g ∧ i = id) as [Hg ->] by (destruct (ct_phase k); try done; destruct (guards y !! i); cbn in Ew; by simplify_eq).
    destruct (li_guard _ Hl id g Hg) as (_ & _ & Hh). apply list.Forall_cons in Hd as [[e He]%elem_of_dom _].
    assert (close_over y id false = true) as Hover by (unfold close_over; rewrite Hg; by apply Z.leb_le).
    unfold holder_step. destruct (held_by g) as [t'|].
    + destruct Hh as (k1 & r1 & c & E1 & E2 & E3). unfold close_step. rewrite E1, E2, He, E3, Hover. eexists. split; [done|]. unfold waiting. cbn.
      destruct (decide (t = t')) as [->|Hne]; [by rewrite lookup_partial_alter_eq; cbn; rewrite E2|]. rewrite lookup_partial_alter_ne, Hk by done. cbn.
      rewrite Er. destruct (ct_phase k); by rewrite ?lookup_partial_alter_eq.
    + destruct Hh as (c & Hc). unfold pump_end. rewrite Hc, He, Hover. eexists. split; [done|]. unfold waiting. cbn. rewrite Hk. cbn.
      rewrite Er. destruct (ct_phase k); by rewrite ?lookup_partial_alter_eq.
  - unfold waiting in Ew. unfold close_step. rewrite Hk in *. cbn in Ew. destruct (ct_todo k) as [|id rest] eqn:Er; [by eexists|].
    apply list.Forall_cons in Hd as [[e He]%elem_of_dom _]. rewrite He. destruct (ct_phase k) as [| |c|] eqn:Ep; [destruct (_ && _); by eexists| | |by eexists].
    + unfold slot_free. destruct (guards y !! id); [done|]. cbn. destruct (channel e); by eexists.
    + destruct (li_task _ Hl t id) as [u Hu]; [by exists k, rest, c|]. by rewrite Hu in Ew.
Qed.

(** *** The time it takes *)

(** How a step changes the lock of a slot: not at all, it is taken with a
    channel, or it is given back. *)
Definition guard_change (y y' : TermSys) (id : TerminalSessionId) : Prop :=
  guards y' !! id = guards y !! id ∨
  (guards y !! id = None ∧ heap y !! id ≫= channel ≠ None ∧ ∃ who, guards y' !! id = Some {| held_by := who; until := clock y + CLOSE_TIMEOUT |}) ∨
  (guards y !! id ≠ None ∧ guards y' !! id = None).

Lemma guard_alter y y' i id g : guards y' = partial_alter (λ _, g) i (guards y) → (i = id → guard_change y y' id) → guard_change y y' id.
Proof. intros E H. destruct (decide (i = id)) as [?|Hne]; [by apply H|]. left. by rewrite E, lookup_partial_alter_ne. Qed.

Lemma step_guards encode y y' id : lock_inv y → term_step encode y y' → guard_change y y' id.
Proof.
  intros Hl Hs.
  destruct Hs as [? ? ? ? ?|? ? ? ? H|? ? ? H|? ? ? ? H|? ? ? ? H|? ? ? ? H|i answered ? ? H|? ?|? ? ? ? H|? ? ?|t call todo r ? ? Hn H|t answered ? ? H|?].
  - left. unfold open_begin. by repeat case_match.
  - left. unfold open_result in H. repeat case_match; by simplify_eq.
  - left. unfold open_continue in H. repeat case_match; by simplify_eq.
  - left. unfold open_dropped in H. repeat case_match; by simplify_eq.
  - left. unfold pump_read in H. repeat case_match; by simplify_eq.
  - left. unfold pump_send in H. repeat case_match; by simplify_eq.
  - unfold pump_end in H. destruct (pumps y !! i) as [[| | |c]|] eqn:Ep; try done; destruct (heap y !! i) as [e|] eqn:Ee; try done.
    + destruct (slot_free y i) eqn:Eg; [|done]. apply slot_free_true in Eg. cbn in H. destruct (channel e) as [c|] eqn:Ec; injection H as <-; [|by left].
      eapply guard_alter; [done|]. intros <-. right; left. cbn. rewrite lookup_partial_alter_eq, Ee. cbn. rewrite Ec. eauto.
    + destruct (close_over _ _ _); [|done]. injection H as <-. eapply guard_alter; [done|]. intros <-. right; right. cbn. rewrite lookup_partial_alter_eq.
      split; [|done]. destruct (li_pump _ Hl i) as [u Hu]; [by exists c|]. by rewrite Hu.
  - left. unfold poll. by repeat case_match.
  - left. unfold resized in H. repeat case_match; by simplify_eq.
  - left. unfold rename. by repeat case_match.
  - left. unfold close_start in H. repeat case_match; by simplify_eq.
  - unfold close_step in H. destruct (closers y !! t) as [k|] eqn:Ek; [|done]. destruct (ct_todo k) as [|i rest] eqn:Er.
    { injection H as <-. left. by destruct (ct_finish k). }
    destruct (heap y !! i) as [e|] eqn:Ee; [|done]. destruct (ct_phase k) as [| |c|] eqn:Ep.
    + left. destruct (_ && _); by simplify_eq.
    + destruct (slot_free y i) eqn:Eg; [|done]. apply slot_free_true in Eg. cbn in H. destruct (channel e) as [c|] eqn:Ec; injection H as <-; [|by left].
      eapply guard_alter; [done|]. intros <-. right; left. cbn. rewrite lookup_partial_alter_eq, Ee. cbn. rewrite Ec. eauto.
    + destruct (close_over _ _ _); [|done]. injection H as <-. eapply guard_alter; [done|]. intros <-. right; right. cbn. rewrite lookup_partial_alter_eq.
      split; [|done]. destruct (li_task _ Hl t i) as [u Hu]; [by exists k, rest, c|]. by rewrite Hu.
    + left. by simplify_eq.
  - by left.
Qed.

(** The slot of a cancelled entry is not filled again. *)
Definition filled (y : TermSys) (id : TerminalSessionId) : Prop := heap y !! id ≫= channel ≠ None.

Lemma filled_insert y y' i e e' id : heap y' = <[i := e']> (heap y) → heap y !! i = Some e → (channel e' ≠ None → channel e ≠ None) → filled y' id → filled y id.
Proof.
  intros Hh He Hc. unfold filled. rewrite Hh. destruct (decide (i = id)) as [->|Hne]; [rewrite lookup_insert_eq, He; apply Hc|by rewrite lookup_insert_ne].
Qed.

Lemma step_filled encode y y' id e : term_step encode y y' → heap y !! id = Some e → cancel e = true → filled y' id → filled y id.
Proof.
  intros Hs He Hc.
  destruct Hs as [i ? ? ? ? Hn|? ? ? ? H|i ? ? H|? ? ? ? H|? ? ? ? H|? ? ? ? H|i answered ? ? H|? ?|? ? ? ? H|? ? ?|t call todo r ? ? Hn H|t answered ? ? H|?].
  - unfold open_begin. repeat case_match; try done. unfold filled. cbn. rewrite lookup_insert_ne; [done|]. intros ->. apply Hn. by eapply elem_of_dom_2.
  - unfold open_result in H. repeat case_match; simplify_eq; first [done|by eapply filled_insert].
  - unfold open_continue in H. destruct (opens y !! i) as [p|]; [|done]. destruct (heap y !! i) as [x|] eqn:Ex; [|by destruct p].
    destruct p; try (by simplify_eq; first [done|eapply filled_insert]). destruct (negb _); [done|].
    destruct (cancel x || _) eqn:Ea; injection H as <-; [done|]. unfold filled. cbn. rewrite lookup_insert_ne; [done|]. intros ->.
    rewrite He in Ex. injection Ex as <-. by rewrite Hc in Ea.
  - unfold open_dropped in H. repeat case_match; simplify_eq; first [done|by eapply filled_insert].
  - unfold pump_read in H. repeat case_match; simplify_eq; first [done|by eapply filled_insert].
  - unfold pump_send in H. repeat case_match; simplify_eq; first [done|by eapply filled_insert].
  - unfold pump_end in H. repeat case_match; simplify_eq; first [done|by eapply filled_insert].
  - unfold poll. destruct (find_entry _ y) as [x|] eqn:E; [|done]. apply find_entry_ok in E as (E & _). destruct (poll_buffer _). by eapply filled_insert.
  - unfold resized in H. repeat case_match; simplify_eq; first [done|by eapply filled_insert].
  - unfold rename. repeat case_match; try done. apply find_entry_ok in H0 as (E & _). by eapply filled_insert.
  - unfold close_start in H. repeat case_match; by simplify_eq.
  - unfold close_step, close_finish in H. repeat case_match; simplify_eq; first [done|by eapply filled_insert].
  - done.
Qed.

Lemma slot_time_bounds y id : lock_inv y → 0 ≤ slot_time y id ≤ CLOSE_TIMEOUT.
Proof.
  intros Hl. unfold slot_time. destruct (guards y !! id) as [g|] eqn:E; [|destruct (_ ≫= _); unfold CLOSE_TIMEOUT; lia].
  destruct (li_guard _ Hl id g E) as (_ & ? & _). unfold CLOSE_TIMEOUT in *. lia.
Qed.

Lemma time_left_bounds y k : lock_inv y → 0 ≤ time_left y k ≤ CLOSE_TIMEOUT * zlen (ct_todo k).
Proof.
  intros Hl. unfold time_left. destruct (ct_todo k) as [|id rest]; [done|]. pose proof (slot_time_bounds y id Hl). cbn [length].
  unfold CLOSE_TIMEOUT in *. destruct (ct_phase k); lia.
Qed.

Lemma time_left_begin y k : ct_phase k = CBegin → time_left y k = CLOSE_TIMEOUT * zlen (ct_todo k).
Proof. unfold time_left. intros ->. destruct (ct_todo k); cbn [length]; lia. Qed.

Lemma step_clock encode y y' : term_step encode y y' → clock y' = clock y ∨ y' = tick y.
Proof.
  intros Hs.
  destruct Hs as [? ? ? ? ?|? ? ? ? H|? ? ? H|? ? ? ? H|? ? ? ? H|? ? ? ? H|? ? ? ? H|? ?|? ? ? ? H|? ? ?|t call todo r ? ? Hn H|t answered ? ? H|?];
    [left..|by right];
    try (unfold open_begin, poll, rename; by repeat case_match);
    unfold open_result, open_continue, open_dropped, pump_read, pump_send, pump_end, resized, close_start, close_step, close_finish in H;
    repeat case_match; by simplify_eq.
Qed.

(** In a cancelled entry the slot is never further from being free. *)
Lemma slot_time_step encode y y' id e : lock_inv y → term_step encode y y' → clock y' = clock y →
  heap y !! id = Some e → cancel e = true → slot_time y' id ≤ slot_time y id.
Proof.
  intros Hl Hs Hc He Hca. pose proof (step_filled encode y y' id e Hs He Hca) as Hf. unfold filled in Hf. unfold slot_time.
  destruct (step_guards encode y y' id Hl Hs) as [->|[(-> & Hfull & who & ->)|(Hg & ->)]]; rewrite ?Hc.
  - destruct (guards y !! id); [done|]. destruct (heap y' !! id ≫= channel); [|by destruct (_ ≫= _)].
    destruct (heap y !! id ≫= channel); [done|]. by destruct Hf.
  - destruct (heap y !! id ≫= channel); [|done]. cbn [until]. unfold CLOSE_TIMEOUT. lia.
  - destruct (guards y !! id) as [g|] eqn:E; [|done]. destruct (li_guard _ Hl id g E) as ((x & Hx & Hn) & _ & _).
    rewrite Hx in Hf. cbn in Hf. destruct (heap y' !! id ≫= channel); [|lia]. by destruct Hf.
Qed.

(** A step of the task itself. *)
Lemma own_step_time (encode : list Z → str) y y' t k k' answered : term_inv y → lock_inv y → lock_inv y' → clock y' = clock y →
  closers y !! t = Some k → close_step t answered y = Some y' → closers y' !! t = Some k' → time_left y' k' ≤ time_left y k.
Proof.
  intros Hi Hl Hl' Hc Hk H Hk'. assert (term_step encode y y') as Hs by (by eapply s_close_step). destruct (ti_tasks _ Hi t k Hk) as (_ & _ & Hcan).
  pose proof (time_left_bounds y k Hl) as Hb. unfold close_step in H. rewrite Hk in H. destruct (ct_todo k) as [|id rest] eqn:Er.
  { injection H as <-. by destruct (ct_finish k); cbn in Hk'; rewrite lookup_partial_alter_eq in Hk'. }
  destruct (heap y !! id) as [e|] eqn:Ee; [|done]. pose proof (Hcan id rest e eq_refl) as Hce. pose proof (slot_time_bounds y id Hl) as Hst.
  pose proof (slot_time_bounds y' id Hl') as Hst'.
  assert (ct_phase k ≠ CBegin → slot_time y' id ≤ slot_time y id) as Hmono.
  { intros Hp. eapply slot_time_step; [done|done|done|done|by apply Hce]. }
  assert (k' = next_entry k rest ∨ ∃ p, k' = at_phase k p ∧ match p with CTake => ct_phase k = CBegin | CChannel _ => ct_phase k = CTake | CDrain => True | CBegin => False end) as [->|(p & -> & Hp)].
  { destruct (ct_phase k) eqn:Ep; [destruct (_ && _)|destruct (negb _); [done|]; destruct (channel e)|destruct (close_over _ _ _); [|done]|];
      injection H as <-; cbn in Hk'; rewrite lookup_partial_alter_eq in Hk'; injection Hk' as <-; first [by left|right; by eexists]. }
  - rewrite time_left_begin by done. unfold time_left. rewrite Er. cbn [next_entry ct_todo]. destruct (ct_phase k); unfold CLOSE_TIMEOUT in *; lia.
  - unfold time_left. cbn [at_phase ct_todo ct_phase]. rewrite Er. destruct p; [done|rewrite Hp; lia|rewrite Hp; specialize (Hmono ltac:(congruence)); lia|].
    destruct (ct_phase k); unfold CLOSE_TIMEOUT in *; lia.
Qed.

(** As time passes, or other tasks run, the time a task may need shrinks with it. *)
Lemma prompt_time encode y y' t k k' : term_inv y → lock_inv y → lock_inv y' → prompt encode t y y' →
  closers y !! t = Some k → closers y' !! t = Some k' → clock y' + time_left y' k' ≤ clock y + time_left y k.
Proof.
  intros Hi Hl Hl' (Hs & Hrun & _) Hk Hk'. destruct (step_clock _ _ _ Hs) as [Hc| ->].
  - rewrite Hc. apply Z.add_le_mono_l. destruct (task_moves _ _ _ _ _ Hs Hk) as [Hsame|[answered Hown]]; [|by eapply own_step_time].
    rewrite Hsame in Hk'. injection Hk' as <-. unfold time_left. destruct (ct_todo k) as [|id rest] eqn:Er; [done|].
    destruct (ti_tasks _ Hi t k Hk) as (_ & Hd & Hcan). rewrite Er in Hd. apply list.Forall_cons in Hd as [[e He]%elem_of_dom _].
    specialize (Hcan id rest e Er). destruct (ct_phase k); try done;
      (apply Z.add_le_mono_l; eapply slot_time_step; [done|done|done|done|by apply Hcan]).
  - change (closers (tick y) !! t) with (closers y !! t) in Hk'. rewrite Hk in Hk'. injection Hk' as <-.
    assert (runnable y t = false) as Hn by (apply Hrun; cbn; lia). unfold runnable, waiting in Hn. rewrite Hk in Hn. cbn in Hn.
    unfold time_left. destruct (ct_todo k) as [|id rest]; [done|]. unfold slot_time. cbn [tick guards clock heap].
    destruct (ct_phase k); try done; (destruct (guards y !! id) as [g|]; cbn in Hn; [|done]; apply Z.leb_gt in Hn; lia).
Qed.

(** [C38] Closing terminates, although the tasks that close a terminal and its
    pump hold the lock of the channel while the server is asked to close it, and
    the server may never answer.  In every reachable state a closing task that
    waits for no lock can take its next step without the server; if it waits for
    the lock of a channel, its own or another's, the holder can go on at the
    deadline at the latest, which ends the wait.  Each step of the task brings it
    closer to its end (at most four per terminal), and no step of any other task
    changes it.  So long as no time passes in which it or the holder of the lock
    it waits for could go on, it is over after two seconds per terminal, also
    when other tasks are closing the same terminals. *)
Theorem closing_terminates encode y t k :
  term_reachable encode y → closers y !! t = Some k →
  match waiting y t with
  | None => is_Some (close_step t false y)
  | Some (id, g) => until g ≤ clock y → ∃ y', holder_step id g y = Some y' ∧ waiting y' t = None
  end ∧
  (∀ y', term_step encode y y' → closers y' !! t = Some k ∨ ∃ answered, close_step t answered y = Some y' ∧
    (closers y' !! t = None ∨ ∃ k', closers y' !! t = Some k' ∧ (steps_left k' < steps_left k)%nat)) ∧
  (∀ y', rtc (prompt encode t) y y' → clock y' ≤ clock y + 2000 * zlen (ct_todo k)).
Proof.
  intros Hr Hk. pose proof (term_reachable_inv _ _ Hr) as Hi. pose proof (term_reachable_locks _ _ Hr) as Hl.
  split; [by eapply closing_progress|]. split.
  - intros y' Hs. destruct (task_moves _ _ _ _ _ Hs Hk) as [?|[answered H]]; [by left|right]. exists answered. split; [done|]. by eapply close_step_shrinks.
  - intros y' Hp. cut (term_reachable encode y' ∧ ∃ k', closers y' !! t = Some k' ∧ clock y' + time_left y' k' ≤ clock y + time_left y k).
    { intros (Hr' & k' & _ & H). pose proof (time_left_bounds _ k Hl). pose proof (time_left_bounds _ k' (term_reachable_locks _ _ Hr')).
      unfold CLOSE_TIMEOUT in *. lia. }
    revert y' Hp.
    apply (rtc_ind_r (λ y', term_reachable encode y' ∧ ∃ k', closers y' !! t = Some k' ∧ clock y' + time_left y' k' ≤ clock y + time_left y k) y);
      [by split; [|exists k]|]. intros y1 y2 Hp1 Hp2 (Hr1 & k1 & Hk1 & IH).
    assert (term_reachable encode y2) as Hr2 by (eapply rtc_r; [done|apply Hp2]). split; [done|]. destruct Hp2 as (Hs & Hrun & [k2 Hk2]). exists k2. split; [done|].
    pose proof (prompt_time encode y1 y2 t k1 k2 (term_reachable_inv _ _ Hr1) (term_reachable_locks _ _ Hr1) (term_reachable_locks _ _ Hr2)
      (conj Hs (conj Hrun (mk_is_Some _ _ Hk2))) Hk1 Hk2). lia.
Qed.

(** ** A concrete run

    A terminal is opened, its channel delivers four bytes, the caller polls
    them, the shell exits and the terminal is closed. *)

Module Sample.
Definition size : TerminalSize := {| columns := 80; rows := 24; pixel_width := 0; pixel_height := 0 |}.
Definition key : Ownership := {| own_host := 5%N; own_session := 6%N; own_terminal := 1%N |}.
Definition enc (d : list Z) : str := d.

Definition y1 : TermSys := Eval vm_compute in (open_begin 1%N 5%N 6%N size term_new).2.
Definition y2 : TermSys := Eval vm_compute in default y1 (open_result 1%N (Ok 7%N) y1).
Definition y3 : TermSys := Eval vm_compute in default y2 (open_continue 1%N y2).
Definition y4 : TermSys := Eval vm_compute in default y3 (pump_read 1%N (Some (Ok (TData [36; 32; 108; 115]))) y3).
Definition y5 : TermSys := Eval vm_compute in default y4 (pump_send 1%N false y4).
Definition y6 : TermSys := Eval vm_compute in default y5 (pump_read 1%N (Some (Ok (TExit 0))) y5).
Definition y7 : TermSys := Eval vm_compute in default y6 (pump_end 1%N false y6).
Definition y8 : TermSys := Eval vm_compute in default y7 (pump_end 1%N true y7).

Lemma open_reachable : term_reachable enc y3.
Proof.
  apply rtc_l with y1; [by apply (s_open enc 1%N 5%N 6%N size term_new)|].
  apply rtc_l with y2; [by apply (s_open_result enc 1%N (Ok 7%N))|].
  apply rtc_l with y3; [by apply (s_open_continue enc 1%N)|]. constructor.
Qed.

Lemma ended_reachable : term_reachable enc y8.
Proof.
  unfold term_reachable. etrans; [apply open_reachable|].
  apply rtc_l with y4; [by apply (s_pump_read enc 1%N (Some (Ok (TData [36; 32; 108; 115]))))|].
  apply rtc_l with y5; [by apply (s_pump_send enc 1%N false)|].
  apply rtc_l with y6; [by apply (s_pump_read enc 1%N (Some (Ok (TExit 0))))|].
  apply rtc_l with y7; [by apply (s_pump_end enc 1%N false)|].
  apply rtc_l with y8; [by apply (s_pump_end enc 1%N true)|]. constructor.
Qed.

Definition closing : TermSys := Eval vm_compute in
  match close_start 9%N (CallClose key) [] y3 with Some (_, y) => y | None => y3 end.
Definition closing_task : CloseTask := close_task [1%N] TClosed (FClose key).

Lemma closing_reachable : term_reachable enc closing.
Proof.
  eapply rtc_r; [apply open_reachable|]. by apply (s_close_start enc 9%N (CallClose key) [] (Ok tt)).
Qed.

(** A second task begins to close the same terminal while the first one holds
    the lock of its channel; the server does not answer. *)
Definition locked : TermSys := Eval vm_compute in default closing (y ← close_step 9%N false closing; close_step 9%N false y).
Definition both : TermSys := Eval vm_compute in
  match close_start 8%N CallShutdown [1%N] locked with Some (_, y) => default y (close_step 8%N false y) | None => locked end.
Definition second_task : CloseTask := at_phase (close_task [1%N] TClosed FShutdown) CTake.
Definition timed_out : TermSys := Nat.iter 2000 tick both.

Lemma both_reachable : term_reachable enc both.
Proof.
  destruct (close_step 9%N false closing) as [a|] eqn:Ea; [|by vm_compute in Ea].
  destruct (close_start 8%N CallShutdown [1%N] locked) as [[r b]|] eqn:Eb; [|by vm_compute in Eb].
  unfold term_reachable. etrans; [apply closing_reachable|].
  apply rtc_l with a; [by eapply (s_close_step enc 9%N false)|].
  apply rtc_l with locked; [eapply (s_close_step enc 9%N false); vm_compute in Ea; by simplify_eq|].
  apply rtc_l with b; [by eapply (s_close_start enc 8%N); [|exact Eb]|].
  apply rtc_once. eapply (s_close_step enc 8%N false). vm_compute in Eb. by simplify_eq.
Qed.

Lemma iter_fields n y : closers (Nat.iter n tick y) = closers y ∧ guards (Nat.iter n tick y) = guards y ∧ clock (Nat.iter n tick y) = clock y + Z.of_nat n.
Proof.
  induction n as [|n (H1 & H2 & H3)]; [split_and!; [done..|cbn; lia]|]. split_and!; [done..|].
  change (clock (Nat.iter (S n) tick y)) with (clock (Nat.iter n tick y) + 1). lia.
Qed.

Lemma timed_out_reachable : term_reachable enc timed_out.
Proof.
  unfold timed_out. assert (∀ n, term_reachable enc (Nat.iter n tick both)) as H; [|by apply H].
  induction n as [|n IH]; [apply both_reachable|]. eapply rtc_r; [exact IH|]. constructor.
Qed.

Lemma wait_prompt : rtc (prompt enc 8%N) both timed_out.
Proof.
  unfold timed_out. assert (∀ n, (n ≤ 2000)%nat → rtc (prompt enc 8%N) both (Nat.iter n tick both)) as H; [|by apply H].
  induction n as [|n IH]; intros Hn; [constructor|]. eapply rtc_r; [apply IH; lia|]. destruct (iter_fields n both) as (H1 & H2 & H3).
  split; [constructor|]. split; [|by rewrite (proj1 (iter_fields (S n) both))]. intros _. unfold runnable, waiting. rewrite H1, H2, H3.
  change (closers both !! 8%N) with (Some second_task). cbn. apply Z.leb_gt. cbn. lia.
Qed.
End Sample.

Lemma terminals_bounded_witness : count_map (active 5%N) (live Sample.y3) ≤ 8 ∧ count_map (active 5%N) (live Sample.y3) = 1.
Proof.
  split; [|reflexivity]. apply (terminals_bounded Sample.enc Sample.y3 5%N Sample.open_reachable).
Defined.

Lemma terminal_output_complete_witness :
  ∃ batch y', poll Sample.enc Sample.key Sample.y8 = (Ok batch, y') ∧ tb_output_drained batch = true ∧
    default [] (polled_log y' !! 1%N) = [36; 32; 108; 115].
Proof.
  destruct (poll Sample.enc Sample.key Sample.y8) as [[batch|err] y'] eqn:E; [|by vm_compute in E].
  exists batch, y'. split; [done|]. pose proof E as E'. vm_compute in E'. injection E' as <- <-. split; [done|].
  destruct (terminal_output_complete Sample.enc Sample.y8 Sample.key _ _ Sample.ended_reachable E) as (_ & _ & H).
  refine (eq_trans (H _ _ _ eq_refl _) _); [by apply (bool_decide_unpack (1%N ∉ emptied Sample.y8))|reflexivity..].
Defined.

Lemma channels_have_owners_witness :
  ∃ e, heap Sample.y3 !! 1%N = Some e ∧ state e = TOpen ∧ holds_channel (pumps Sample.y3 !! 1%N) = true.
Proof.
  destruct (heap Sample.y3 !! 1%N) as [e|] eqn:E; [|by vm_compute in E]. exists e. split; [done|].
  pose proof E as E'. vm_compute in E'. injection E' as <-. split; [reflexivity|].
  destruct (channels_have_owners Sample.enc Sample.y3 1%N _ Sample.open_reachable E) as [H _].
  by destruct (H 7%N eq_refl) as [?|(t & k & rest & Hk & _)].
Defined.

(** The second task waits for the first one, which waits for the server, from
    the time 0 to the time 2000, and goes on after the first one's timeout. *)
Lemma closing_terminates_witness :
  (∃ y', holder_step 1%N {| held_by := Some 9%N; until := 2000 |} Sample.timed_out = Some y' ∧ waiting y' 8%N = None) ∧
  clock Sample.timed_out ≤ clock Sample.both + 2000 * zlen [1%N].
Proof.
  destruct (closing_terminates Sample.enc Sample.both 8%N Sample.second_task Sample.both_reachable eq_refl) as (_ & _ & H).
  split; [|apply H, Sample.wait_prompt].
  apply (closing_terminates Sample.enc Sample.timed_out 8%N Sample.second_task Sample.timed_out_reachable eq_refl). reflexivity.
Defined.
