(* ===== verification/IpText.v ===== *)
(** Address text round trip: [a.to_string().parse::<IpAddr>()] is [a], for
    IPv4, for IPv6 with its compressed run of zeros, and for IPv4-mapped
    addresses. *)

From S2P Require Import Prelude Str Ip.

(** ** One group *)

Lemma read_digits_app r s rest acc k :
  (∀ c t, rest = c :: t → to_digit r c = None) → forallb (λ c, bool_decide (is_Some (to_digit r c))) s = true →
  read_digits r acc k (s ++ rest) = (let '(v, n, _) := read_digits r acc k s in (v, n, rest)).
Proof.
  intros Hrest. revert acc k. induction s as [|c s IH]; cbn; intros acc k Hs.
  - destruct rest as [|c t]; cbn; [done|]. by rewrite (Hrest c t eq_refl).
  - split_bools. destruct (to_digit r c) as [d|] eqn:E; [by apply IH|].
    match goal with H : is_Some None |- _ => by destruct H end.
Qed.

Lemma read_number_app r m z mx s v rest :
  (∀ c t, rest = c :: t → to_digit r c = None) → forallb (λ c, bool_decide (is_Some (to_digit r c))) s = true →
  s ≠ [] → read_number r m z mx s = Some (v, []) → read_number r m z mx (s ++ rest) = Some (v, rest).
Proof.
  intros Hrest Hs Hne. unfold read_number. rewrite read_digits_app by done.
  destruct (read_digits r 0 0 s) as [[w n] u]. destruct s as [|c0 s0]; [done|]. cbn [app].
  repeat (case_match; try done). all: intros; simplify_eq; done.
Qed.

(** *** Digits *)

Lemma digit_roundtrip r d : 0 ≤ d < r → r ≤ 16 → to_digit r (digit_char d) = Some d.
Proof.
  intros Hd Hr. unfold to_digit, digit_char, is_ascii_digit, between.
  destruct (d <? 10) eqn:E; split_bools.
  - assert ((0x30 <=? 0x30 + d) && (0x30 + d <=? 0x39) = true) as ->
      by (apply andb_true_iff; split; apply Z.leb_le; lia).
    replace (0x30 + d - 0x30) with d by lia. by destruct (Z.ltb_spec d r); [|lia].
  - assert ((0x30 <=? 0x61 + (d - 10)) && (0x61 + (d - 10) <=? 0x39) = false) as ->
      by (apply andb_false_iff; right; apply Z.leb_gt; lia).
    assert ((0x61 <=? 0x61 + (d - 10)) && (0x61 + (d - 10) <=? 0x66) = true) as ->
      by (apply andb_true_iff; split; apply Z.leb_le; lia).
    replace (0x61 + (d - 10) - 0x61 + 10) with d by lia. by destruct (Z.ltb_spec d r); [|lia].
Qed.

(** The digits [show_radix] writes: how many, and what reading them gives. *)
Lemma show_radix_digits fuel r n acc (m : nat) :
  2 ≤ r ≤ 16 → 0 ≤ n < r ^ Z.of_nat m → (0 < m ≤ fuel)%nat →
  ∃ ds, show_radix fuel r n acc = ds ++ acc ∧ (0 < length ds ≤ m)%nat ∧
    forallb (λ c, bool_decide (is_Some (to_digit r c))) ds = true ∧
    ∀ a k rest, read_digits r a k (ds ++ rest) = read_digits r (a * r ^ zlen ds + n) (k + length ds) rest.
Proof.
  intros Hr. revert n acc m. induction fuel as [|f IH]; intros n acc m Hn Hm; [lia|]. cbn [show_radix].
  assert (0 ≤ n mod r < r) as Hd by (apply Z.mod_pos_bound; lia).
  pose proof (Z.div_mod n r ltac:(lia)) as Hdm. pose proof (digit_roundtrip r (n mod r) Hd ltac:(lia)) as Hdig.
  assert (bool_decide (is_Some (to_digit r (digit_char (n mod r)))) = true) as Hb by (apply bool_decide_eq_true; rewrite Hdig; eauto).
  destruct (n / r =? 0) eqn:E; split_bools.
  - exists [digit_char (n mod r)]. split; [done|]. split; [cbn [length]; lia|]. split; [cbn [forallb]; by rewrite (bool_decide_eq_true_2 _ Hb)|].
    intros a k rest. cbn [app read_digits length]. rewrite Hdig. f_equal; [|lia]. change (zlen [_]) with 1. lia.
  - assert (0 ≤ n / r) by (apply Z.div_pos; lia).
    destruct m as [|m]; [lia|]. rewrite Nat2Z.inj_succ, Z.pow_succ_r in Hn by lia.
    assert (n / r < r ^ Z.of_nat m) by (apply Z.div_lt_upper_bound; lia).
    assert (0 < m)%nat by (destruct m; [cbn in *; lia|lia]).
    destruct (IH (n / r) (digit_char (n mod r) :: acc) m ltac:(lia) ltac:(lia)) as (ds & -> & Hl & Hf & Hread).
    exists (ds ++ [digit_char (n mod r)]). rewrite <-app_assoc, forallb_app, Hf, length_app. cbn [length].
    split; [done|]. split; [lia|]. split; [cbn [forallb]; by rewrite (bool_decide_eq_true_2 _ Hb)|].
    intros a k rest. rewrite <-app_assoc, Hread. cbn [app read_digits]. rewrite Hdig. f_equal; [|lia].
    rewrite Nat2Z.inj_add, Z.pow_add_r by lia. cbn [Z.of_nat Pos.of_succ_nat]. lia.
Qed.

Lemma show_hex_spec g : 0 ≤ g ≤ 65535 →
  forallb (λ c, bool_decide (is_Some (to_digit 16 c))) (show_hex g) = true ∧
  read_group (show_hex g) = Some (g, []) ∧ show_hex g ≠ [].
Proof.
  intros Hg. destruct (show_radix_digits 16 16 g [] 4 ltac:(lia) ltac:(cbn; lia) ltac:(lia)) as (ds & Hs & Hl & Hf & Hread).
  unfold show_hex. rewrite Hs, app_nil_r. specialize (Hread 0 0%nat []). rewrite app_nil_r in Hread. cbn [read_digits] in Hread.
  split_and!; [done| |by destruct ds; cbn in Hl; [lia|]]. unfold read_group, read_number. rewrite Hread.
  rewrite (proj2 (Nat.ltb_ge 4 (0 + length ds))) by lia. rewrite (proj2 (Nat.eqb_neq (0 + length ds) 0)) by lia.
  cbn [negb andb]. rewrite (proj2 (Z.leb_le (0 * 16 ^ zlen ds + g) 65535)) by lia. by rewrite Z.add_0_l.
Qed.

Lemma read_show_group g rest : 0 ≤ g ≤ 65535 → (∀ c t, rest = c :: t → to_digit 16 c = None) →
  read_group (show_hex g ++ rest) = Some (g, rest).
Proof. intros Hg Hrest. destruct (show_hex_spec g Hg) as (H1 & H2 & H3). by apply read_number_app. Qed.

(** ** Text without a dot holds no IPv4 address *)

Lemma read_separated_dot {A} (p : str → option (A * str)) s x :
  read_separated (ch ".") false p s = Some x → ch "." ∈ s.
Proof.
  unfold read_separated. destruct s as [|c s]; [done|]. cbn. destruct (c =? ch ".") eqn:E; [|done].
  apply Z.eqb_eq in E as ->. intros _. left.
Qed.

Lemma read_ipv4_dot s x : read_ipv4 s = Some x → ch "." ∈ s.
Proof.
  unfold read_ipv4. destruct (read_octet s) as [[a s1]|] eqn:E; [|done]. cbn [mbind option_bind].
  destruct (read_separated (ch ".") false read_octet s1) as [[b s2]|] eqn:E2; [|done]. intros _.
  apply read_separated_dot in E2. apply read_number_consumes in E as (p & -> & _). set_solver.
Qed.

Lemma read_ipv4_none s : ch "." ∉ s → read_ipv4 s = None.
Proof. intros H. destruct (read_ipv4 s) eqn:E; [|done]. by apply read_ipv4_dot in E. Qed.

Lemma sep_ipv4_none first s : ch "." ∉ s → read_separated (ch ":") first read_ipv4 s = None.
Proof.
  intros H. unfold read_separated. destruct first; [by apply read_ipv4_none|].
  destruct s as [|c s]; [done|]. cbn. destruct (c =? ch ":"); [|done]. cbn. apply read_ipv4_none. set_solver.
Qed.

(** ** Groups *)

(** The text of groups after a first one: each with its separator. *)
Definition groups_tail (gs : list Z) : str := concat (map (λ g, ch ":" :: show_hex g) gs).

Lemma show_groups_cons g gs : show_groups (g :: gs) = show_hex g ++ groups_tail gs.
Proof.
  unfold show_groups. revert g. induction gs as [|h gs IH]; intros g; [cbn; by rewrite app_nil_r|].
  change (join (ch ":") (map show_hex (g :: h :: gs))) with (show_hex g ++ ch ":" :: join (ch ":") (map show_hex (h :: gs))).
  by rewrite IH.
Qed.

Lemma hex_no_dot g c : 0 ≤ g ≤ 65535 → c ∈ show_hex g → c ≠ ch "." ∧ c ≠ ch ":".
Proof.
  intros Hg Hc. destruct (show_hex_spec g Hg) as (H & _). rewrite forallb_true in H. specialize (H c Hc). split_bools.
  split; intros ->; by destruct H.
Qed.

Lemma groups_tail_no_dot gs : Forall (λ g, 0 ≤ g ≤ 65535) gs → ch "." ∉ groups_tail gs.
Proof.
  induction 1 as [|g gs Hg _ IH]; [by apply not_elem_of_nil|]. unfold groups_tail in *. cbn [map concat].
  rewrite elem_of_app, elem_of_cons. intros [[?|Hc]|?]; [done| |done]. by apply (hex_no_dot g) in Hc as [].
Qed.

Lemma show_groups_no_dot gs : Forall (λ g, 0 ≤ g ≤ 65535) gs → ch "." ∉ show_groups gs.
Proof.
  destruct 1 as [|g gs Hg Hgs]; [by apply not_elem_of_nil|]. rewrite show_groups_cons, elem_of_app. intros [Hc|Hc].
  - by apply (hex_no_dot g) in Hc as [].
  - by apply groups_tail_no_dot in Hc.
Qed.

(** Where a sequence of groups ends. *)
Definition stops (rest : str) : Prop := rest = [] ∨ ∃ r, rest = ch ":" :: ch ":" :: r.

Lemma stops_read rest : stops rest → read_separated (ch ":") false read_group rest = None.
Proof. intros [->|[r ->]]; [done|]. reflexivity. Qed.

Lemma tail_stops gs rest : stops rest → ∀ c t, groups_tail gs ++ rest = c :: t → to_digit 16 c = None.
Proof. destruct gs as [|g gs]; cbn; [intros [->|[r ->]]|intros _]; intros c t [= <- _]; done. Qed.

Lemma read_groups_tail gs k rest :
  Forall (λ g, 0 ≤ g ≤ 65535) gs → (length gs ≤ k)%nat → stops rest → ch "." ∉ rest →
  read_groups k false (groups_tail gs ++ rest) = (gs, false, rest).
Proof.
  revert k. induction gs as [|g gs IH]; intros k Hgs Hk Hst Hdot.
  - destruct k as [|k]; [done|]. cbn [groups_tail map concat app read_groups]. rewrite sep_ipv4_none by done.
    rewrite stops_read by done. by destruct k.
  - destruct k as [|k]; cbn [length] in Hk; [lia|]. apply list.Forall_cons in Hgs as [Hg Hgs].
    assert (ch "." ∉ groups_tail (g :: gs) ++ rest) as Hd.
    { rewrite elem_of_app. intros [H|H]; [|done]. by apply groups_tail_no_dot in H; [|constructor]. }
    cbn [read_groups]. rewrite sep_ipv4_none by done.
    change (groups_tail (g :: gs) ++ rest) with (ch ":" :: (show_hex g ++ groups_tail gs) ++ rest). rewrite <-app_assoc.
    unfold read_separated. cbn [read_char]. rewrite Z.eqb_refl. cbn [mbind option_bind].
    rewrite read_show_group by (done || by apply tail_stops). rewrite IH by (done || lia). by destruct k.
Qed.

Lemma read_groups_show gs k rest :
  Forall (λ g, 0 ≤ g ≤ 65535) gs → (length gs ≤ k)%nat → stops rest → ch "." ∉ rest →
  read_groups k true (show_groups gs ++ rest) = (gs, false, rest).
Proof.
  intros Hgs Hk Hst Hdot. destruct gs as [|g gs].
  - cbn [show_groups map join app]. destruct k as [|k]; [done|]. cbn [read_groups]. rewrite sep_ipv4_none by done.
    assert (read_separated (ch ":") true read_group rest = None) as -> by (by destruct Hst as [->|[r ->]]). by destruct k.
  - destruct k as [|k]; cbn [length] in Hk; [lia|]. apply list.Forall_cons in Hgs as [Hg Hgs].
    assert (ch "." ∉ show_groups (g :: gs) ++ rest) as Hd.
    { rewrite elem_of_app. intros [H|H]; [|done]. by apply show_groups_no_dot in H; [|constructor]. }
    cbn [read_groups]. rewrite sep_ipv4_none by done. rewrite show_groups_cons, <-app_assoc. unfold read_separated.
    rewrite read_show_group by (done || by apply tail_stops). rewrite read_groups_tail by (done || lia). by destruct k.
Qed.

(** ** The compressed run of zeros *)

Definition zeros_at (l : list Z) (start n : nat) : Prop := ∀ j, (start ≤ j < start + n)%nat → l !! j = Some 0.

Lemma longest_zeros_spec l pre cs cl bs bl start n :
  longest_zeros (length pre) cs cl bs bl l = (start, n) →
  zeros_at (pre ++ l) bs bl → (cl = 0%nat ∨ (cs + cl)%nat = length pre) → zeros_at (pre ++ l) cs cl →
  zeros_at (pre ++ l) start n.
Proof.
  revert pre cs cl bs bl. induction l as [|g l IH]; intros pre cs cl bs bl H Hb Hc Hz; cbn [longest_zeros] in H.
  { by injection H as <- <-. }
  assert (pre ++ g :: l = (pre ++ [g]) ++ l) as Heq by (by rewrite <-app_assoc).
  assert (length (pre ++ [g]) = S (length pre)) as Hlen by (rewrite length_app; cbn [length]; lia).
  rewrite Heq in *. rewrite <-Hlen in H. destruct (g =? 0) eqn:E; [|apply (IH _ _ _ _ _ H); try done; [by left|by intros j ?; lia]].
  apply Z.eqb_eq in E as ->. set (cs' := if (cl =? 0)%nat then length pre else cs) in *.
  assert ((cs' + S cl)%nat = length (pre ++ [0]) ∧ zeros_at ((pre ++ [0]) ++ l) cs' (S cl)) as [H1 H2].
  { unfold cs'. destruct (Nat.eqb_spec cl 0) as [->|Hne].
    - split; [lia|]. intros j Hj. assert (j = length pre) as -> by lia. rewrite <-Heq. by rewrite list_lookup_middle.
    - destruct Hc as [?|Hc]; [lia|]. split; [lia|]. intros j Hj. destruct (decide (j = length pre)) as [->|].
      + rewrite <-Heq. by rewrite list_lookup_middle.
      + apply Hz. lia. }
  destruct (bl <? S cl)%nat; (apply (IH _ _ _ _ _ H); [done|by right|done]).
Qed.

(** A list with such a run is its parts around it. *)
Lemma zeros_split l start n : zeros_at l start n → (0 < n)%nat →
  l = take start l ++ replicate n 0 ++ drop (start + n) l ∧ (start + n ≤ length l)%nat.
Proof.
  intros Hz Hn. assert (start + n ≤ length l)%nat as Hle.
  { assert (l !! (start + n - 1)%nat = Some 0) as H by (apply Hz; lia). apply lookup_lt_Some in H. lia. }
  split; [|done]. rewrite <-(take_drop start l) at 1. f_equal. rewrite <-drop_drop.
  rewrite <-(take_drop n (drop start l)) at 1. f_equal. apply list_eq_same_length with n;
    [by rewrite length_replicate|by rewrite length_take, length_drop, Nat.min_l by lia|].
  intros i x y Hi. rewrite lookup_take_lt, lookup_drop, lookup_replicate by done. rewrite Hz by lia. by intros [= <-] [<- _].
Qed.

(** ** Whole addresses *)

Lemma parse_ip_v6 s segs : read_ipv4 s = None → read_ipv6 s = Some (segs, []) → parse_ip s = Some (V6 segs).
Proof. unfold parse_ip. by intros -> ->. Qed.

Lemma read_colon s : read_char (ch ":") (ch ":" :: s) = Some s.
Proof. cbn [read_char]. by rewrite Z.eqb_refl. Qed.

Lemma read_full gs : length gs = 8%nat → Forall (λ g, 0 ≤ g ≤ 65535) gs → read_ipv6 (show_groups gs) = Some (gs, []).
Proof.
  intros Hl Hg. unfold read_ipv6. rewrite <-(app_nil_r (show_groups gs)).
  rewrite read_groups_show; [|done|lia|by left|by apply not_elem_of_nil]. by rewrite Hl.
Qed.

Lemma read_compressed a b n :
  Forall (λ g, 0 ≤ g ≤ 65535) a → Forall (λ g, 0 ≤ g ≤ 65535) b → (1 < n)%nat → (length a + n + length b = 8)%nat →
  read_ipv6 (show_groups a ++ lit "::" ++ show_groups b) = Some (a ++ replicate n 0 ++ b, []).
Proof.
  intros Ha Hb Hn Hl. unfold read_ipv6.
  rewrite read_groups_show; [|done|lia|right; by eexists|].
  - destruct (Nat.eqb_spec (length a) 8) as [?|_]; [lia|]. change (lit "::" ++ show_groups b) with (ch ":" :: ch ":" :: show_groups b).
    rewrite read_colon. cbn [mbind option_bind]. rewrite read_colon. cbn [mbind option_bind].
    rewrite <-(app_nil_r (show_groups b)).
    rewrite read_groups_show; [|done|lia|by left|by apply not_elem_of_nil].
    by replace (8 - length a - length b)%nat with n by lia.
  - rewrite elem_of_app. intros [H|H]; [|by apply show_groups_no_dot in H].
    apply elem_of_cons in H as [?|H]; [done|]. apply elem_of_cons in H as [?|H]; [done|]. by apply elem_of_nil in H.
Qed.

(** The dotted text of four octets, read inside a longer address. *)
Lemma read_show_v4 a b c d : Forall (λ x, 0 ≤ x ≤ 255) [a; b; c; d] → read_ipv4 (show_v4 a b c d) = Some ((a, b, c, d), []).
Proof.
  intros H. pose proof (ipv4_text_roundtrip a b c d H) as Hp. cbn [show_ip] in Hp. unfold parse_ip in Hp.
  destruct (read_ipv4 (show_v4 a b c d)) as [[[[[a' b'] c'] d'] rest]|].
  - destruct rest; [|done]. cbn in Hp. by injection Hp as -> -> -> ->.
  - by repeat case_match.
Qed.

Lemma read_mapped g h : 0 ≤ g ≤ 65535 → 0 ≤ h ≤ 65535 →
  read_ipv6 (lit "::ffff:" ++ show_v4 (g / 256) (g mod 256) (h / 256) (h mod 256)) = Some ([0; 0; 0; 0; 0; 0xffff; g; h], []).
Proof.
  intros Hg Hh. set (v := show_v4 _ _ _ _).
  assert (0 ≤ g / 256 ≤ 255 ∧ 0 ≤ g mod 256 ≤ 255 ∧ g / 256 * 256 + g mod 256 = g ∧
          0 ≤ h / 256 ≤ 255 ∧ 0 ≤ h mod 256 ≤ 255 ∧ h / 256 * 256 + h mod 256 = h) as (G1 & G2 & G3 & H1 & H2 & H3)
    by (Z.to_euclidean_division_equations; lia).
  assert (read_ipv4 v = Some ((g / 256, g mod 256, h / 256, h mod 256), [])) as Hv by (apply read_show_v4; rewrite !list.Forall_cons; split_and!; by try lia).
  assert (read_groups 7 true (lit "ffff:" ++ v) = ([0xffff; g; h], true, [])) as Hr.
  { change (lit "ffff:" ++ v) with (show_hex 0xffff ++ ch ":" :: v). cbn [read_groups read_separated].
    assert (read_ipv4 (show_hex 0xffff ++ ch ":" :: v) = None) as -> by reflexivity.
    rewrite read_show_group by (lia || by intros c t [= <- _]). cbn [read_char]. rewrite Z.eqb_refl. cbn [mbind option_bind].
    rewrite Hv. cbn [fst snd]. by rewrite G3, H3. }
  unfold read_ipv6. change (lit "::ffff:" ++ v) with (ch ":" :: ch ":" :: lit "ffff:" ++ v).
  assert (read_groups 8 true (ch ":" :: ch ":" :: lit "ffff:" ++ v) = ([], false, ch ":" :: ch ":" :: lit "ffff:" ++ v)) as -> by reflexivity.
  cbn [length Nat.eqb].   rewrite read_colon. cbn [mbind option_bind]. rewrite read_colon. cbn [mbind option_bind].
  change (8 - (0 + 1))%nat with 7%nat. by rewrite Hr.
Qed.

Definition mapped (segs : list Z) : bool :=
  match segs with [0; 0; 0; 0; 0; 65535; _; _] => true | _ => false end.

Lemma show_v6_plain segs : mapped segs = false →
  show_v6 segs = (let '(start, n) := longest_zeros 0 0 0 0 0 segs in
    if (1 <? n)%nat then show_groups (take start segs) ++ lit "::" ++ show_groups (drop (start + n) segs) else show_groups segs).
Proof. intros H. unfold show_v6. unfold mapped in H. repeat (case_match; try done). Qed.

Lemma show_v6_mapped segs : mapped segs = true →
  ∃ g h, segs = [0; 0; 0; 0; 0; 65535; g; h] ∧ show_v6 segs = lit "::ffff:" ++ show_v4 (g / 256) (g mod 256) (h / 256) (h mod 256).
Proof. unfold mapped. intros H. repeat (case_match; try done). subst. eauto. Qed.

(** Parsing the text of an address gives the address. *)
Lemma ip_text_roundtrip a : ip_ok a → parse_ip (show_ip a) = Some a.
Proof.
  destruct a as [a b c d|segs]; [apply ipv4_text_roundtrip|]. intros [Hl Hs]. cbn [show_ip].
  destruct (mapped segs) eqn:Em.
  - destruct (show_v6_mapped segs Em) as (g & h & -> & ->). decompose_Forall. apply parse_ip_v6; [reflexivity|].
    by apply read_mapped.
  - rewrite show_v6_plain by done. destruct (longest_zeros 0 0 0 0 0 segs) as [start n] eqn:Ez.
    destruct (Nat.ltb_spec 1 n).
    + assert (zeros_at segs start n) as Hz.
      { apply (longest_zeros_spec segs [] 0 0 0 0 start n Ez); [by intros j ?; lia|by left|by intros j ?; lia]. }
      destruct (zeros_split segs start n Hz ltac:(lia)) as [Heq Hle].
      assert (Forall (λ g, 0 ≤ g ≤ 65535) (take start segs) ∧ Forall (λ g, 0 ≤ g ≤ 65535) (drop (start + n) segs)) as [Ha Hb].
      { split; [by apply Forall_take|by apply Forall_drop]. }
      apply parse_ip_v6.
      * apply read_ipv4_none. rewrite !elem_of_app. intros [H0|[H0|H0]]; try (by apply show_groups_no_dot in H0).
        by apply (bool_decide_eq_true (ch "." ∈ lit "::")) in H0.
      * rewrite Heq at 3. apply read_compressed; [done..|]. rewrite length_take, length_drop. lia.
    + apply parse_ip_v6; [by apply read_ipv4_none, show_groups_no_dot|by apply read_full].
Qed.

(** ** Addresses as numbers, and the size of their texts.

    [u32::from(Ipv4Addr)] and [u128::from(Ipv6Addr)] as integers, with the
    facts on the canonical text of an address that the discovery parsers share:
    its length, its characters and the text of a small decimal number. *)


(** The octets or segments in network order, [w] bits each. *)
Definition from_parts (w : Z) (parts : list Z) : Z := fold_left (λ acc p, acc * 2 ^ w + p) parts 0.
Definition ip_bits (a : IpAddr) : Z :=
  match a with V4 a b c d => from_parts 8 [a; b; c; d] | V6 segs => from_parts 16 segs end.
Definition ip_width (a : IpAddr) : Z := match a with V4 _ _ _ _ => 32 | V6 _ => 128 end.

Lemma from_parts_acc w l acc : 0 ≤ w → 0 ≤ acc → Forall (λ x, 0 ≤ x < 2 ^ w) l →
  0 ≤ fold_left (λ acc p, acc * 2 ^ w + p) l acc < (acc + 1) * 2 ^ (w * zlen l).
Proof.
  intros Hw. revert acc. induction l as [|x l IH]; intros acc Hacc Hl; [cbn [fold_left length]; rewrite Z.mul_0_r; lia|].
  apply Forall_cons_iff in Hl as [Hx Hl]. cbn [fold_left]. destruct (IH (acc * 2 ^ w + x) ltac:(nia) Hl) as [H1 H2].
  split; [done|]. eapply Z.lt_le_trans; [exact H2|]. cbn [length]. replace (w * Z.of_nat (S (length l))) with (w + w * zlen l) by lia.
  rewrite Z.pow_add_r by lia. rewrite Z.mul_assoc. apply Z.mul_le_mono_nonneg_r; [lia|nia].
Qed.

Lemma ip_bits_bounds a : ip_ok a → 0 ≤ ip_bits a < 2 ^ ip_width a.
Proof.
  destruct a as [a b c d|segs]; cbn [ip_ok ip_bits ip_width]; [intros H|intros [Hl H]].
  - apply (from_parts_acc 8 [a; b; c; d] 0); [lia|lia|]. eapply Forall_impl; [|exact H]. cbn. lia.
  - pose proof (from_parts_acc 16 segs 0 ltac:(lia) ltac:(lia)) as Hb. rewrite Hl in Hb. apply Hb.
    eapply Forall_impl; [|exact H]. cbn. lia.
Qed.

(** Digits alone have no sign to skip. *)
Lemma parse_unsigned_digits max s : forallb is_ascii_digit s = true →
  parse_unsigned max s = v ← parse_digits s; if v <=? max then Some v else None.
Proof.
  intros H. unfold parse_unsigned. replace (match s with 43 :: r => r | _ => s end) with s; [done|].
  destruct s as [|c s]; [done|]. cbn in H. apply andb_prop in H as [H _]. repeat (case_match; try done). 
Qed.

(** The decimal text of a number of at most 20 digits. *)
Lemma show_dec_spec n (m : nat) : 0 ≤ n < 10 ^ Z.of_nat m → (0 < m ≤ 20)%nat →
  forallb is_ascii_digit (show_dec n) = true ∧ (0 < length (show_dec n) ≤ m)%nat ∧ parse_digits (show_dec n) = Some n.
Proof.
  assert (∀ fuel n acc (m : nat), 0 ≤ n < 10 ^ Z.of_nat m → (0 < m ≤ fuel)%nat →
    ∃ ds, show_radix fuel 10 n acc = ds ++ acc ∧ (0 < length ds ≤ m)%nat ∧ forallb is_ascii_digit ds = true ∧
      ∀ a rest, digits_value a (ds ++ rest) = digits_value (a * 10 ^ zlen ds + n) rest) as H.
  { clear. induction fuel as [|f IH]; intros n acc m Hn Hm; [lia|]. cbn [show_radix].
    pose proof (Z.mod_pos_bound n 10 ltac:(lia)) as Hd. pose proof (Z.div_mod n 10 ltac:(lia)) as Hdm.
    assert (digit_char (n mod 10) = 48 + n mod 10) as Ed by (unfold digit_char; destruct (Z.ltb_spec (n mod 10) 10); lia).
    assert (is_ascii_digit (48 + n mod 10) = true) as Hdig by (unfold is_ascii_digit, between; lia). rewrite Ed.
    destruct (n / 10 =? 0) eqn:E; split_bools.
    - exists [48 + n mod 10]. split; [done|]. split; [cbn [length]; lia|]. cbn [forallb]. rewrite Hdig. split; [done|].
      intros a rest. cbn [app digits_value length]. rewrite Hdig. f_equal. change (zlen [_]) with 1. lia.
    - assert (0 ≤ n / 10) by (apply Z.div_pos; lia). destruct m as [|m]; [lia|]. rewrite Nat2Z.inj_succ, Z.pow_succ_r in Hn by lia.
      assert (n / 10 < 10 ^ Z.of_nat m) by (apply Z.div_lt_upper_bound; lia). assert (0 < m)%nat by (destruct m; [cbn in *; lia|lia]).
      destruct (IH (n / 10) ((48 + n mod 10) :: acc) m ltac:(lia) ltac:(lia)) as (ds & -> & Hl & Hf & Hv).
      exists (ds ++ [48 + n mod 10]). rewrite <-app_assoc, forallb_app, Hf, length_app. cbn [length]. split; [done|]. split; [lia|].
      cbn [forallb]. rewrite Hdig. split; [done|]. intros a rest. rewrite <-app_assoc, Hv. cbn [app digits_value]. rewrite Hdig. f_equal.
      rewrite Nat2Z.inj_add, Z.pow_add_r by lia. cbn [Z.of_nat Pos.of_succ_nat]. lia. }
  intros Hn Hm. destruct (H 20%nat n [] m Hn Hm) as (ds & Hs & Hl & Hd & Hv). unfold show_dec. rewrite Hs, app_nil_r.
  split; [done|]. split; [done|]. specialize (Hv 0 []). rewrite app_nil_r in Hv. unfold parse_digits. destruct ds; [cbn in Hl; lia|].
  rewrite Hv. done.
Qed.

(** The decimal text of a byte. *)
Lemma show_dec_byte n : 0 ≤ n ≤ 255 →
  forallb is_ascii_digit (show_dec n) = true ∧ zlen (show_dec n) ≤ 3 ∧ show_dec n ≠ [] ∧ parse_digits (show_dec n) = Some n.
Proof.
  intros Hn. destruct (show_dec_spec n 3 ltac:(cbn; lia) ltac:(lia)) as (H1 & H2 & H3).
  split; [done|]. split; [lia|]. split; [|done]. by destruct (show_dec n); [cbn in H2; lia|].
Qed.

Lemma show_hex_len g : 0 ≤ g ≤ 65535 → zlen (show_hex g) ≤ 4.
Proof.
  intros Hg. destruct (show_radix_digits 16 16 g [] 4 ltac:(lia) ltac:(cbn; lia) ltac:(lia)) as (ds & Hs & Hl & _).
  unfold show_hex. rewrite Hs, app_nil_r. lia.
Qed.

Lemma show_groups_len gs : Forall (λ x, 0 ≤ x ≤ 65535) gs → zlen (show_groups gs) ≤ 5 * zlen gs.
Proof.
  induction 1 as [|g gs Hg _ IH]; [done|]. pose proof (show_hex_len g Hg). rewrite show_groups_cons, length_app.
  destruct gs as [|h gs]; [unfold groups_tail; cbn [map concat length]; lia|]. rewrite show_groups_cons in IH. unfold groups_tail in *.
  cbn [map concat length] in *. rewrite ?length_app in *. cbn [length] in *. lia.
Qed.

Lemma show_v4_len a b c d : Forall (λ x, 0 ≤ x ≤ 255) [a; b; c; d] → zlen (show_v4 a b c d) ≤ 15.
Proof.
  intros H. decompose_Forall. unfold show_v4. rewrite !length_app. cbn [length]. rewrite !length_app. cbn [length]. rewrite !length_app. cbn [length].
  repeat match goal with H : 0 ≤ ?x ≤ 255 |- _ => destruct (show_dec_byte x H) as (_ & ? & _); clear H end. lia.
Qed.

(** The text of an address is short and has only its characters. *)
Lemma show_ip_chars a : ip_ok a → forallb ip_char (show_ip a) = true.
Proof. intros H. eapply parse_ip_chars, ip_text_roundtrip, H. Qed.

Lemma ip_char_ascii c : ip_char c = true → is_ascii c = true.
Proof. unfold ip_char, is_ascii_hexdigit, is_ascii_digit, is_ascii, between. change (ch ":") with 58. change (ch ".") with 46. lia. Qed.

Lemma show_ip_len a : ip_ok a → len (show_ip a) ≤ 42.
Proof.
  intros H. pose proof (show_ip_chars a H) as Hc. rewrite len_ascii.
  2: { rewrite forallb_true in *. eauto using ip_char_ascii. }
  destruct a as [a b c d|segs]; cbn [show_ip ip_ok] in *; [pose proof (show_v4_len a b c d H); lia|]. destruct H as [Hl H].
  destruct (mapped segs) eqn:Em.
  - destruct (show_v6_mapped segs Em) as (g & h & -> & ->). rewrite length_app. decompose_Forall.
    assert (Forall (λ x, 0 ≤ x ≤ 255) [g / 256; g mod 256; h / 256; h mod 256]) as Hv%show_v4_len.
    { repeat constructor; try (apply Z.div_pos; lia); try (apply Z.mod_pos_bound; lia); try (apply Z.lt_succ_r, Z.div_lt_upper_bound; lia);
        apply Z.lt_succ_r; match goal with |- ?x mod _ < _ => pose proof (Z.mod_pos_bound x 256); lia end. }
    change (length (lit "::ffff:")) with 7%nat. lia.
  - rewrite show_v6_plain by done. destruct (longest_zeros 0 0 0 0 0 segs) as [start n]. destruct (1 <? n)%nat eqn:En.
    + rewrite !length_app. pose proof (show_groups_len _ (Forall_take _ start _ H)). pose proof (show_groups_len _ (Forall_drop _ (start + n) _ H)).
      rewrite length_take, length_drop in *. change (length (lit "::")) with 2%nat. lia.
    + pose proof (show_groups_len segs H). lia.
Qed.
