(* ===== verification/KnownHosts.v ===== *)
(** Trusted host keys ([nexus-ssh/src/known_hosts.rs], [handler.rs]) and the
    start of a connection ([provider.rs]).

    The SQLite table is the map [pins] keyed by its primary key.  A
    statement, the start or the commit of a transaction may fail: [fault]
    says which stage does, and a failed transaction changes nothing. *)

From S2P Require Import Prelude Str Model Ip IpText Hosts Prog Interp SshChannel.

Record KnownHosts := { pins : gmap (str * Z) HostFingerprint; kh_poisoned : bool }.

Inductive Stage := SBegin | SRead | SWrite | SCommit.

Definition database_error : AppError :=
  app_error Persistence "The trusted SSH host keys could not be read or saved.".
Definition poisoned_database : AppError :=
  app_error Persistence "The trusted SSH host key store is unavailable.".
Definition invalid_store : AppError := app_error Persistence "The trusted SSH host key store is invalid.".
Definition rotation_conflict : AppError :=
  app_error Conflict "The trusted SSH host key changed. Review a new rotation plan.".

(** [canonical_endpoint]; its check of a DNS name is, condition by condition,
    the one of the host form, [is_dns]. *)
Definition canonical_endpoint (hostname : str) (port : Z) : Res str :=
  let hostname := trim_end_matches (Z.eqb (ch ".")) (trim hostname) in
  let address := parse_ip hostname in
  let valid_dns := is_dns hostname in
  if (port =? 0) || (bool_decide (address = None) && negb valid_dns)
  then Err (app_error Validation "A valid hostname and SSH port are required.")
  else Ok (match address with Some ip => show_ip ip | None => map to_ascii_lower hostname end).

Definition digest_char (c : char) : bool := is_ascii_alphanumeric c || (c =? ch "+") || (c =? ch "/").
Definition algorithm_char (c : char) : bool :=
  is_ascii_alphanumeric c || (c =? ch "-") || (c =? ch "@") || (c =? ch ".") || (c =? ch "_").

Definition validate_fingerprint (algorithm fingerprint : str) : Res unit :=
  let digest := if starts_with (lit "SHA256:") fingerprint then drop 7 fingerprint else [] in
  ensure (is_empty algorithm || (128 <? len algorithm) || negb (forallb algorithm_char algorithm)
          || negb (len digest =? 43) || negb (forallb digest_char digest))
         (app_error Validation "Invalid SSH host fingerprint.").

Definition valid_pin (f : HostFingerprint) : Res unit := validate_fingerprint (hf_algorithm f) (hf_sha256 f).

Definition changed_message : string := "The SSH host key has changed. Connection blocked; verify the server identity independently.".
Definition unknown_message : string := "This SSH host is unknown. Verify its fingerprint and explicitly trust it before connecting.".

Definition compare_pin (hostname : str) (port : Z) (f : HostFingerprint) (stored : option HostFingerprint) : Res unit :=
  if bool_decide (stored = Some f) then Ok tt else
  let changed := bool_decide (is_Some stored) in
  Err {| code := if changed then ChangedHostKey else UnknownHostKey;
         message := if changed then changed_message else unknown_message;
         host_key := Some {| hk_hostname := hostname; hk_port := port; hk_algorithm := hf_algorithm f;
                             hk_fingerprint := hf_sha256 f; hk_previous_fingerprint := hf_sha256 <$> stored |} |}.

Section Store.
Context (fault : Stage → bool).

Definition sql (s : Stage) : Res unit := ensure (fault s) database_error.

Definition read_pin (k : KnownHosts) (hostname : str) (port : Z) : Res (option HostFingerprint) :=
  _ ← sql SRead; Ok (pins k !! (hostname, port)).

(** [KnownHosts::verify] *)
Definition verify (k : KnownHosts) (hostname : str) (port : Z) (f : HostFingerprint) : Res unit :=
  hostname ← canonical_endpoint hostname port;
  _ ← valid_pin f;
  _ ← ensure (kh_poisoned k) poisoned_database;
  stored ← read_pin k hostname port;
  compare_pin hostname port f stored.

(** [KnownHosts::fingerprint] *)
Definition stored_fingerprint (k : KnownHosts) (hostname : str) (port : Z) : Res (option HostFingerprint) :=
  hostname ← canonical_endpoint hostname port;
  _ ← ensure (kh_poisoned k) poisoned_database;
  pin ← read_pin k hostname port;
  match pin with
  | Some p => match valid_pin p with Ok _ => Ok pin | Err _ => Err invalid_store end
  | None => Ok pin
  end.

Definition set_pin (k : KnownHosts) (hostname : str) (port : Z) (f : HostFingerprint) : KnownHosts :=
  {| pins := <[(hostname, port) := f]> (pins k); kh_poisoned := kh_poisoned k |}.

(** [KnownHosts::trust]: the store it commits. *)
Definition trust (k : KnownHosts) (c : HostKeyChallenge) : Res KnownHosts :=
  hostname ← canonical_endpoint (hk_hostname c) (hk_port c);
  _ ← validate_fingerprint (hk_algorithm c) (hk_fingerprint c);
  _ ← ensure (bool_decide (is_Some (hk_previous_fingerprint c)))
             (app_error ChangedHostKey "A changed SSH host key cannot be trusted through this action.");
  _ ← ensure (kh_poisoned k) poisoned_database;
  _ ← sql SBegin;
  stored ← read_pin k hostname (hk_port c);
  let f := {| hf_algorithm := hk_algorithm c; hf_sha256 := hk_fingerprint c |} in
  k' ← match stored with
       | Some _ => _ ← compare_pin hostname (hk_port c) f stored; Ok k
       | None => _ ← sql SWrite; Ok (set_pin k hostname (hk_port c) f)
       end;
  _ ← sql SCommit;
  Ok k'.

(** [KnownHosts::rotate]; the [UPDATE] changes the row only while it still
    holds [expected]. *)
Definition rotate (k : KnownHosts) (hostname : str) (port : Z) (expected replacement : HostFingerprint) : Res KnownHosts :=
  hostname ← canonical_endpoint hostname port;
  _ ← valid_pin expected;
  _ ← valid_pin replacement;
  _ ← ensure (bool_decide (expected = replacement)) rotation_conflict;
  _ ← ensure (kh_poisoned k) poisoned_database;
  _ ← sql SBegin;
  stored ← read_pin k hostname port;
  _ ← match stored with
      | Some p => match valid_pin p with Ok _ => Ok tt | Err _ => Err invalid_store end
      | None => Ok tt
      end;
  _ ← ensure (bool_decide (stored ≠ Some expected)) rotation_conflict;
  _ ← sql SWrite;
  let updated := if bool_decide (pins k !! (hostname, port) = Some expected) then 1 else 0 in
  _ ← ensure (negb (updated =? 1)) rotation_conflict;
  _ ← sql SCommit;
  Ok (set_pin k hostname port replacement).
End Store.

(** [KnownHosts::open]: [fails] is the failure of the connection, of its
    time-out or of the schema; a new file has an empty table. *)
Definition known_hosts_open (fails : bool) (table : option (gmap (str * Z) HostFingerprint)) : Res KnownHosts :=
  _ ← ensure fails database_error;
  Ok {| pins := default ∅ table; kh_poisoned := false |}.

Definition canonical_hostname (hostname : str) (port : Z) : Res str := canonical_endpoint hostname port.

(** ** The socket of a session ([bounded_io.rs])

    What the socket does is a parameter: each poll gives its answer and the
    socket after it. *)

Inductive Poll (A : Type) := Pending | Ready (a : A).
Arguments Pending {A}.
Arguments Ready {A} _.

Section CancellableStream.
Context {Socket : Type} (sock_read : Socket → Poll (result IoErrorKind str) * Socket) (sock_write : str → Socket → Poll (result IoErrorKind Z) * Socket)
  (sock_flush sock_shutdown : Socket → Poll (result IoErrorKind unit) * Socket).

(** The token is polled as a future: [true] from the moment it is cancelled. *)
Record CancellableStream := { cst_stream : Socket; cst_cancelled : bool }.

Definition check_cancelled (st : CancellableStream) : result IoErrorKind unit := ensure (cst_cancelled st) ConnectionAborted.

(** [self.check_cancelled(cx)?; Pin::new(&mut self.stream).poll_...] *)
Definition unless_cancelled {A} (f : Socket → Poll (result IoErrorKind A) * Socket) (st : CancellableStream) : Poll (result IoErrorKind A) * CancellableStream :=
  match check_cancelled st with
  | Err e => (Ready (Err e), st)
  | Ok _ => let '(r, s) := f (cst_stream st) in (r, {| cst_stream := s; cst_cancelled := cst_cancelled st |})
  end.
Definition poll_read : CancellableStream → Poll (result IoErrorKind str) * CancellableStream := unless_cancelled sock_read.
Definition poll_write (buffer : str) : CancellableStream → Poll (result IoErrorKind Z) * CancellableStream := unless_cancelled (sock_write buffer).
Definition poll_flush : CancellableStream → Poll (result IoErrorKind unit) * CancellableStream := unless_cancelled sock_flush.
Definition poll_shutdown (st : CancellableStream) : Poll (result IoErrorKind unit) * CancellableStream :=
  let '(r, s) := sock_shutdown (cst_stream st) in (r, {| cst_stream := s; cst_cancelled := cst_cancelled st |}).
End CancellableStream.
Arguments CancellableStream : clear implicits.

(** ** The server key check of the handshake ([handler.rs]) *)

Record ServerKey := { sk_certificate : bool; sk_fingerprint : HostFingerprint }.

Definition check_server_key (fault : Stage → bool) (k : KnownHosts) (hostname : str) (port : Z) (key : ServerKey)
    : result HandlerError bool :=
  if sk_certificate key
  then Err (Application (app_error Policy "SSH host certificates are not supported. Configure a raw host key."))
  else match verify fault k hostname port (sk_fingerprint key) with
       | Ok _ => Ok true
       | Err e => Err (Application e)
       end.

(** [disconnected] of the handler: the answer, and the flag of the session. *)
Definition disconnected (reason : option HandlerError) (closed : bool) : result HandlerError unit * bool :=
  (match reason with Some e => Err e | None => Ok tt end, true).

(** ** Credentials ([nexus-secrets/src/lib.rs]) *)

Record Credential := { password : option str; private_key : option str; passphrase : option str }.

Definition nonempty (v : option str) : bool := match v with Some s => negb (is_empty s) | None => false end.
Definition oversized (v : option str) : bool := match v with Some s => 65536 <? len s | None => false end.

(** [Credential::validate]; [CredentialInput::into_credential] is this check
    on the same fields. *)
Definition credential_validate (c : Credential) (m : AuthenticationMethod) : Res unit :=
  let valid := match m with
    | Password => nonempty (password c) && bool_decide (private_key c = None) && bool_decide (passphrase c = None)
    | PrivateKey => nonempty (private_key c) && bool_decide (password c = None)
    end in
  _ ← ensure (negb valid) (app_error Validation "Provide credentials matching the selected authentication method.");
  ensure (oversized (password c) || oversized (private_key c) || oversized (passphrase c))
         (app_error Validation "Credential exceeds the 64 KiB size limit.").

Definition into_credential (c : Credential) (m : AuthenticationMethod) : Res Credential :=
  _ ← credential_validate c m; Ok c.

(** ** Connecting ([SshProvider::connect])

    The handshake is the library's; it hands the server's key to
    [check_server_key] and goes on only when that accepts it.  Each of the
    two blocks runs inside [bounded]: any of its awaits may lose to the
    cancellation or to the block's timeout. *)

Inductive conn_call :=
| NLookup (endpoint : str) (port : Z)
| NTcp
| NNodelay
| NServerKey                     (** the handshake up to the server's key *)
| NStore                         (** the store, when the key is checked *)
| NHandshakeEnd                  (** the rest of the handshake *)
| NPassword (user secret : str)
| NDecodeKey (key : str) (passphrase : option str)
| NRsaHash
| NPublicKey (user : str).

Definition conn_reply (c : conn_call) : Type :=
  match c with
  | NLookup _ _ => race (option Z)              (** how many addresses *)
  | NTcp | NNodelay => race (result IoErrorKind unit)
  | NServerKey => race (result RusshError ServerKey)
  | NStore => KnownHosts * (Stage → bool)
  | NHandshakeEnd | NRsaHash => race (result RusshError unit)
  | NPassword _ _ | NPublicKey _ => race (result RusshError bool)
  | NDecodeKey _ _ => race (option bool)        (** the task's result, and whether the key was decoded *)
  end.

Definition nask (c : conn_call) : prog conn_reply (conn_reply c) := Do c (λ r, Ret r).

Definition timed_out (connecting : bool) : AppError :=
  app_error Timeout (if connecting then "SSH connect timed out." else "SSH authentication timed out.").

(** An await inside [bounded]: the token and the timeout end the block. *)
Definition bounded {A B} (connecting : bool) (r : race A) (k : A → io conn_reply AppError B) : io conn_reply AppError B :=
  match r with
  | Won a => k a
  | WCancelled | WLifetime => io_fail cancelled_ssh
  | WTimeout _ => io_fail (timed_out connecting)
  end.

Definition connect_block (endpoint : str) (port : Z) : io conn_reply AppError unit :=
  pbind (nask (NLookup endpoint port)) (λ r, bounded true r (λ addresses,
  match addresses with
  | None => io_fail (app_error Dns "The server hostname could not be resolved.")
  | Some n =>
      if n =? 0 then io_fail (app_error Dns "The server hostname did not resolve to an address.") else
      pbind (nask NTcp) (λ r, bounded true r (λ x, match x with Err k => io_fail (io_error k) | Ok _ =>
      pbind (nask NNodelay) (λ r, bounded true r (λ x, match x with Err k => io_fail (io_error k) | Ok _ =>
      pbind (nask NServerKey) (λ r, bounded true r (λ x, match x with Err e => io_fail (into_app (Transport e)) | Ok key =>
      pbind (nask NStore) (λ store,
      match check_server_key store.2 store.1 endpoint port key with
      | Err e => io_fail (into_app e)
      | Ok _ =>
          pbind (nask NHandshakeEnd) (λ r, bounded true r (λ x,
            match x with Err e => io_fail (into_app (Transport e)) | Ok _ => Ret (Ok tt) end))
      end) end)) end)) end))
  end)).

Definition rejected : AppError :=
  app_error Authentication "SSH authentication was rejected. Check the username and credentials.".

Definition authenticated (r : result RusshError bool) : Res unit :=
  match r with
  | Err e => Err (transport_error e)
  | Ok false => Err rejected
  | Ok true => Ok tt
  end.

Definition auth_block (c : HostConnectionConfig) (cred : Credential) : io conn_reply AppError unit :=
  match authentication c with
  | Password =>
      match password cred with
      | None => io_fail (app_error Authentication "No password is available for this host.")
      | Some secret => pbind (nask (NPassword (username c) secret)) (λ r, bounded false r (λ x, Ret (authenticated x)))
      end
  | PrivateKey =>
      match private_key cred with
      | None => io_fail (app_error Authentication "No private key is available for this host.")
      | Some key =>
          pbind (nask (NDecodeKey key (passphrase cred))) (λ r, bounded false r (λ x,
          match x with
          | None => io_fail (app_error Authentication "The private key could not be loaded.")
          | Some false =>
              io_fail (app_error Authentication "The private key could not be unlocked. Check its format and passphrase.")
          | Some true =>
              pbind (nask NRsaHash) (λ r, bounded false r (λ x, match x with Err e => io_fail (transport_error e) | Ok _ =>
              pbind (nask (NPublicKey (username c))) (λ r, bounded false r (λ x, Ret (authenticated x))) end))
          end))
      end
  end.

(** [SshProvider::connect] *)
Definition provider_connect (c : HostConnectionConfig) (cred : Credential) : io conn_reply AppError unit :=
  _ ← io_lift (credential_validate cred (authentication c));
  endpoint ← io_lift (canonical_endpoint (hostname c) (port c));
  _ ← connect_block endpoint (port c);
  auth_block c cred.
