(* ===== verification/KnownHostsSafe.v ===== *)
(** What the trusted host key store guarantees.

    [trusted_challenge_verifies]: accepting the challenge a connection was
    blocked with lets exactly that key in, for every spelling of the endpoint.
    [pins_change_only_by_rotation]: trusting never replaces a pin, rotation is
    a compare-and-swap.  [no_credential_before_verification]: credentials are
    sent only after the server's key matched its pin. *)

From S2P Require Import Prelude Str Model Ip IpText Hosts Prog Interp SshChannel KnownHosts.

(** ** Canonical endpoints are canonical *)

(** *** Parsing ignores the case of its digits *)

Lemma to_digit_lower r c : to_digit r (to_ascii_lower c) = to_digit r c.
Proof.
  unfold to_digit, to_ascii_lower, is_ascii_upper, is_ascii_digit, between.
  destruct ((0x41 <=? c) && (c <=? 0x5A)) eqn:E; [|done]. split_bools.
  repeat match goal with |- context [?a <=? ?b] => destruct (Z.leb_spec a b); try lia end; cbn [andb];
    repeat match goal with |- context [if ?b <? r then _ else _] => destruct (Z.ltb_spec b r) end; try done; try lia;
    f_equal; lia.
Qed.

Lemma read_digits_lower r acc k s :
  read_digits r acc k (map to_ascii_lower s) = (let '(v, n, rest) := read_digits r acc k s in (v, n, map to_ascii_lower rest)).
Proof.
  revert acc k. induction s as [|c s IH]; intros acc k; cbn; [done|]. rewrite to_digit_lower.
  by destruct (to_digit r c).
Qed.

(** A reader that does not see the case of letters. *)
Definition caseless {A} (p : str → option (A * str)) : Prop :=
  ∀ s, p (map to_ascii_lower s) = (λ x : A * str, (x.1, map to_ascii_lower x.2)) <$> p s.

Lemma lower_zero c : (to_ascii_lower c =? 48) = (c =? 48).
Proof.
  unfold to_ascii_lower, is_ascii_upper, between. destruct ((0x41 <=? c) && _) eqn:E; [|done]. split_bools.
  rewrite (proj2 (Z.eqb_neq _ _)), (proj2 (Z.eqb_neq _ _)); [done|lia|lia].
Qed.

Lemma leading_zero s : match s with 48 :: _ => true | _ => false end = match s with c :: _ => c =? 48 | [] => false end.
Proof. destruct s as [|c s]; [done|]. destruct (Z.eqb_spec c 48) as [->|Hne]; [done|]. by repeat case_match. Qed.

Lemma read_number_caseless r m z mx : caseless (read_number r m z mx).
Proof.
  intros s. unfold read_number. rewrite !leading_zero, read_digits_lower. destruct (read_digits r 0 0 s) as [[v n] rest].
  destruct s as [|c s]; cbn [map]; rewrite ?lower_zero; (destruct (m <? n)%nat; [done|]); (destruct (n =? 0)%nat; [done|]);
    (destruct (_ && _ && _); [done|]); by destruct (v <=? mx).
Qed.

Lemma read_char_lower c s : to_ascii_lower c = c → is_ascii_lower c = false →
  read_char c (map to_ascii_lower s) = map to_ascii_lower <$> read_char c s.
Proof.
  intros Hc Hl. destruct s as [|x s]; [done|]. cbn [map read_char].
  assert ((to_ascii_lower x =? c) = (x =? c)) as ->; [|by destruct (x =? c)].
  destruct (Z.eqb_spec x c) as [->|Hne]; [by rewrite Hc, Z.eqb_refl|]. apply Z.eqb_neq.
  unfold to_ascii_lower, is_ascii_lower, is_ascii_upper, between in *. destruct ((0x41 <=? x) && _) eqn:E; [|done]. split_bools.
  intros <-. apply andb_false_iff in Hl as [Hl|Hl]; split_bools; lia.
Qed.

Lemma read_separated_caseless {A} c first (p : str → option (A * str)) :
  to_ascii_lower c = c → is_ascii_lower c = false → caseless p → caseless (read_separated c first p).
Proof.
  intros Hc Hl Hp s. unfold read_separated. destruct first; [apply Hp|]. rewrite read_char_lower by done.
  destruct (read_char c s); cbn; [apply Hp|done].
Qed.

Lemma read_ipv4_caseless : caseless read_ipv4.
Proof.
  pose proof (read_number_caseless 10 3 false 255) as Hn. fold read_octet in Hn.
  pose proof (read_separated_caseless (ch ".") false read_octet eq_refl eq_refl Hn) as Hs.
  intros s. unfold read_ipv4. rewrite Hn. destruct (read_octet s) as [[a s1]|]; [|done]. cbn [fmap option_fmap option_map mbind option_bind fst snd].
  do 3 (rewrite Hs; destruct (read_separated (ch ".") false read_octet _) as [[? ?]|]; [|done];
        cbn [fmap option_fmap option_map mbind option_bind fst snd]).
  done.
Qed.

Lemma read_groups_lower k first s :
  read_groups k first (map to_ascii_lower s) = (let '(gs, v, rest) := read_groups k first s in (gs, v, map to_ascii_lower rest)).
Proof.
  revert first s. induction k as [|k IH]; intros first s; [done|]. cbn [read_groups].
  assert (match k with O => None | S _ => read_separated (ch ":") first read_ipv4 (map to_ascii_lower s) end =
    (λ x : (Z * Z * Z * Z) * str, (x.1, map to_ascii_lower x.2)) <$>
      match k with O => None | S _ => read_separated (ch ":") first read_ipv4 s end) as ->.
  { destruct k; [done|]. by apply read_separated_caseless, read_ipv4_caseless. }
  destruct (match k with O => None | S _ => _ end) as [[[[[a b] c] d] s']|]; [done|]. cbn [fmap option_fmap option_map].
  rewrite (read_separated_caseless (ch ":") first read_group eq_refl eq_refl (read_number_caseless 16 4 true 65535) s).
  destruct (read_separated (ch ":") first read_group s) as [[g s']|]; [|done]. cbn. rewrite IH.
  by destruct (read_groups k false s') as [[? ?] ?].
Qed.

Lemma parse_ip_lower s : parse_ip (map to_ascii_lower s) = parse_ip s.
Proof.
  assert (∀ l : str, is_empty (map to_ascii_lower l) = is_empty l) as He by (by intros []).
  unfold parse_ip. rewrite read_ipv4_caseless. destruct (read_ipv4 s) as [[[[[a b] c] d] rest]|]; cbn; [by rewrite He|].
  unfold read_ipv6. rewrite read_groups_lower. destruct (read_groups 8 true s) as [[hd v] s1].
  destruct (length hd =? 8)%nat; [by rewrite He|]. destruct v; [done|].
  rewrite read_char_lower by done. destruct (read_char (ch ":") s1) as [s2|]; [|done]. cbn [fmap option_fmap option_map mbind option_bind].
  rewrite read_char_lower by done. destruct (read_char (ch ":") s2) as [s3|]; [|done]. cbn [fmap option_fmap option_map mbind option_bind].
  rewrite read_groups_lower. destruct (read_groups _ true s3) as [[tl v'] s4]. cbn. by rewrite He.
Qed.

(** *** Lower-casing keeps a DNS name a DNS name *)

Lemma lower_dash x : (to_ascii_lower x =? ch "-") = (x =? ch "-").
Proof.
  change (ch "-") with 45. unfold to_ascii_lower, is_ascii_upper, between. case_match; split_bools; [|done].
  rewrite (proj2 (Z.eqb_neq _ _)), (proj2 (Z.eqb_neq _ _)); [done|lia|lia].
Qed.

Lemma lower_alnum x : is_ascii_alphanumeric (to_ascii_lower x) = is_ascii_alphanumeric x.
Proof.
  unfold is_ascii_alphanumeric, to_ascii_lower, is_ascii_upper, is_ascii_lower, is_ascii_digit, between.
  destruct ((0x41 <=? x) && (x <=? 0x5A)) eqn:E; [|by rewrite E]. split_bools.
  assert ((0x61 <=? x + 32) && (x + 32 <=? 0x7A) = true) as -> by (apply andb_true_iff; split; apply Z.leb_le; lia).
  by rewrite !orb_true_r.
Qed.

Lemma lower_len s : len (map to_ascii_lower s) = len s.
Proof.
  induction s as [|c s IH]; [done|]. cbn [map len]. rewrite IH. f_equal. unfold utf8_width, to_ascii_lower, is_ascii_upper, between.
  destruct ((0x41 <=? c) && _) eqn:E; [|done]. split_bools. rewrite (proj2 (Z.ltb_lt c 0x80)), (proj2 (Z.ltb_lt (c + 32) 0x80)); [done|lia|lia].
Qed.

Lemma split_dot_lower s : split (ch ".") (map to_ascii_lower s) = map (map to_ascii_lower) (split (ch ".") s).
Proof.
  unfold split. induction s as [|c s IH]; [done|]. cbn [map split_on]. rewrite lower_dot, IH.
  destruct (Z.eqb (ch ".") c); [done|]. by destruct (split_on (Z.eqb (ch ".")) s).
Qed.

Lemma starts_dash s : starts_with (lit "-") s = match s with c :: _ => c =? ch "-" | [] => false end.
Proof. destruct s; [done|]. change (lit "-") with [ch "-"]. cbn. rewrite andb_true_r. apply Z.eqb_sym. Qed.

Lemma dns_label_lower l : dns_label (map to_ascii_lower l) = dns_label l.
Proof.
  assert (∀ s, starts_with (lit "-") (map to_ascii_lower s) = starts_with (lit "-") s) as Hs.
  { intros [|c s]; rewrite !starts_dash; cbn; [done|apply lower_dash]. }
  unfold dns_label, ends_with. rewrite <-map_rev, lower_len, Hs.
  assert (starts_with (rev (lit "-")) (map to_ascii_lower (rev l)) = starts_with (rev (lit "-")) (rev l)) as -> by apply Hs.
  f_equal; [by destruct l|]. induction l as [|c l IH]; [done|]. cbn [map forallb]. by rewrite lower_alnum, lower_dash, IH.
Qed.

Lemma is_dns_lower h : is_dns (map to_ascii_lower h) = is_dns h.
Proof.
  unfold is_dns. rewrite lower_len, split_dot_lower. f_equal; [by destruct h|].
  induction (split (ch ".") h) as [|l ls IH]; [done|]. cbn [map forallb]. by rewrite dns_label_lower, IH.
Qed.

(** *** Texts that trimming leaves alone *)

Lemma trim_end_id f s : (∀ t x, s = t ++ [x] → f x = false) → trim_end_matches f s = s.
Proof.
  intros H. unfold trim_end_matches. destruct s as [|x t _] using rev_ind; [done|]. rewrite rev_app_distr. cbn.
  rewrite (H t x eq_refl). cbn. by rewrite rev_involutive.
Qed.

Lemma show_dec_octet d : 0 ≤ d ≤ 255 → show_dec d ≠ [] ∧ Forall (λ c, Z.eqb (ch ".") c = false) (show_dec d).
Proof.
  intros Hd. destruct (show_radix_digits 20 10 d [] 3 ltac:(lia) ltac:(cbn; lia) ltac:(lia)) as (ds & Hs & Hl & Hf & _).
  unfold show_dec. rewrite Hs, app_nil_r. split; [destruct ds; cbn in Hl; [lia|done]|].
  apply list.Forall_forall. intros c Hc. rewrite forallb_true in Hf. specialize (Hf c Hc). split_bools.
  apply Z.eqb_neq. intros <-. by destruct Hf.
Qed.

Lemma ends_octet u d t x : 0 ≤ d ≤ 255 → u ++ show_dec d = t ++ [x] → Z.eqb (ch ".") x = false.
Proof.
  intros Hd He. destruct (show_dec_octet d Hd) as [Hne Hf]. destruct (show_dec d) as [|y ds _] using rev_ind; [done|].
  rewrite app_assoc in He. apply app_inj_tail in He as [_ <-]. apply Forall_app in Hf as [_ Hf]. by inversion Hf.
Qed.

Lemma show_ip_last a t x : ip_ok a → show_ip a = t ++ [x] → Z.eqb (ch ".") x = false.
Proof.
  intros Ha He. destruct a as [a b c d|segs]; cbn [show_ip] in He.
  - unfold ip_ok in Ha. rewrite !list.Forall_cons in Ha. destruct Ha as (_ & _ & _ & Hd & _). unfold show_v4 in He.
    apply (ends_octet (show_dec a ++ ch "." :: show_dec b ++ ch "." :: show_dec c ++ [ch "."]) d t x); [done|].
    rewrite <-He. by repeat (rewrite <-app_assoc; cbn [app]).
  - destruct Ha as [Hl Hs]. destruct (mapped segs) eqn:Em.
    + destruct (show_v6_mapped segs Em) as (g & h & -> & Hsh). rewrite Hsh in He. rewrite !list.Forall_cons in Hs.
      destruct Hs as (_ & _ & _ & _ & _ & _ & _ & Hh & _). unfold show_v4 in He.
      apply (ends_octet (lit "::ffff:" ++ show_dec (g / 256) ++ ch "." :: show_dec (g mod 256) ++ ch "." :: show_dec (h / 256) ++ [ch "."])
        (h mod 256) t x); [Z.to_euclidean_division_equations; lia|].
      rewrite <-He. by repeat (rewrite <-app_assoc; cbn [app]).
    + assert (ch "." ∉ show_v6 segs) as Hd.
      { rewrite show_v6_plain by done. destruct (longest_zeros 0 0 0 0 0 segs) as [start n]. destruct (1 <? n)%nat; [|by apply show_groups_no_dot].
        rewrite !elem_of_app. intros [H0|[H0|H0]].
        - by apply show_groups_no_dot in H0; [|apply Forall_take].
        - by apply (bool_decide_eq_true (ch "." ∈ lit "::")) in H0.
        - by apply show_groups_no_dot in H0; [|apply Forall_drop]. }
      apply Z.eqb_neq. intros <-. apply Hd. rewrite He. set_solver.
Qed.

Lemma ip_char_not_space c : ip_char c = true → is_whitespace c = false.
Proof.
  destruct (is_whitespace c) eqn:E; [|done]. unfold ip_char, is_ascii_hexdigit, is_ascii_digit, is_whitespace, between in *.
  rewrite !orb_true_iff, !andb_true_iff, !Z.leb_le, !Z.eqb_eq in *. change (ch ":") with 58. change (ch ".") with 46. lia.
Qed.

Lemma lower_dns_char y : is_ascii_alphanumeric y || (y =? ch "-") || (y =? ch ".") = true → hostname_char (to_ascii_lower y) = true.
Proof.
  rewrite <-(lower_alnum y), <-(lower_dash y), (Z.eqb_sym y), <-(lower_dot y), (Z.eqb_sym (ch ".")).
  pose proof (to_ascii_lower_not_upper y) as Hu. unfold hostname_char, is_ascii_alphanumeric. rewrite Hu, orb_false_r.
  rewrite !orb_true_iff. tauto.
Qed.

(** The canonical spelling of an endpoint is its own canonical spelling. *)
Lemma canonical_idempotent h p c : canonical_endpoint h p = Ok c → canonical_endpoint c p = Ok c.
Proof.
  unfold canonical_endpoint. cbn zeta. set (h' := trim_end_matches _ (trim h)).
  destruct (p =? 0); [done|]. cbn [orb]. destruct (parse_ip h') as [a|] eqn:Ea.
  - rewrite bool_decide_eq_false_2 by done. cbn. intros [= <-]. apply parse_ip_ok in Ea.
    pose proof (ip_text_roundtrip a Ea) as Hr. rewrite trim_not_space.
    + rewrite (trim_end_id _ (show_ip a)) by (intros t x; by apply show_ip_last). rewrite Hr. by rewrite bool_decide_eq_false_2.
    + intros x Hx. apply ip_char_not_space. apply parse_ip_chars in Hr. rewrite forallb_true in Hr. auto.
  - rewrite bool_decide_eq_true_2 by done. destruct (is_dns h') eqn:Ed; [|done]. cbn. intros [= <-].
    assert (∀ x, x ∈ map to_ascii_lower h' → hostname_char x = true) as Hch.
    { intros x Hx. apply list_elem_of_fmap in Hx as (y & -> & Hy). pose proof (is_dns_chars h' y Ed Hy) as Hc.
      by apply lower_dns_char. }
    rewrite trim_not_space by (intros x Hx; by apply hostname_not_space, Hch).
    assert (trim_end_matches (Z.eqb (ch ".")) (map to_ascii_lower h') = map to_ascii_lower h') as -> by apply trim_dots_lower.
    rewrite parse_ip_lower, Ea, is_dns_lower, Ed, bool_decide_eq_true_2 by done. cbn. by rewrite map_lower_id.
Qed.

(** ** The store *)

Definition no_fault (_ : Stage) : bool := false.

Lemma trust_ok fault k c k' : trust fault k c = Ok k' →
  ∃ host, canonical_endpoint (hk_hostname c) (hk_port c) = Ok host ∧
    let f := {| hf_algorithm := hk_algorithm c; hf_sha256 := hk_fingerprint c |} in
    valid_pin f = Ok tt ∧ k' = (if bool_decide (pins k !! (host, hk_port c) = Some f) then k else set_pin k host (hk_port c) f) ∧
    (pins k !! (host, hk_port c) = None ∨ pins k !! (host, hk_port c) = Some f).
Proof.
  unfold trust. intros H. apply bind_ok in H as (host & Hh & H). apply bind_ok in H as ([] & Hv & H).
  apply bind_ok in H as (_ & _ & H). apply bind_ok in H as (_ & _ & H). apply bind_ok in H as (_ & _ & H).
  apply bind_ok in H as (stored & Hs & H). apply bind_ok in Hs as (_ & _ & [= <-]).
  apply bind_ok in H as (k1 & H1 & H). apply bind_ok in H as (_ & _ & [= <-]). exists host. split; [done|]. cbn zeta. split; [done|].
  destruct (pins k !! (host, hk_port c)) as [p|].
  - apply bind_ok in H1 as ([] & Hc & [= <-]). unfold compare_pin in Hc. destruct (bool_decide _) eqn:E; [|done]. split_bools.
    auto.
  - apply bind_ok in H1 as (_ & _ & [= <-]). rewrite bool_decide_eq_false_2 by done. auto.
Qed.

Lemma rotate_ok fault k h p e r k' : rotate fault k h p e r = Ok k' →
  ∃ host, canonical_endpoint h p = Ok host ∧ valid_pin e = Ok tt ∧ valid_pin r = Ok tt ∧ e ≠ r ∧
    pins k !! (host, p) = Some e ∧ k' = set_pin k host p r.
Proof.
  unfold rotate. intros H. apply bind_ok in H as (host & Hh & H). apply bind_ok in H as ([] & He & H).
  apply bind_ok in H as ([] & Hr & H). apply bind_ok in H as (_ & Hne%ensure_ok & H). apply bind_ok in H as (_ & _ & H).
  apply bind_ok in H as (_ & _ & H). apply bind_ok in H as (stored & Hs & H). apply bind_ok in Hs as (_ & _ & [= <-]).
  apply bind_ok in H as (_ & _ & H). apply bind_ok in H as (_ & Hst%ensure_ok & H). apply bind_ok in H as (_ & _ & H).
  apply bind_ok in H as (_ & _ & H). apply bind_ok in H as (_ & _ & [= <-]). split_bools. apply dec_stable in Hst.
  exists host. done.
Qed.

(** The store from its creation on: trusted challenges and rotations. *)
Inductive kh_reachable : KnownHosts → Prop :=
| kh_empty : kh_reachable {| pins := ∅; kh_poisoned := false |}
| kh_trust fault k c k' : kh_reachable k → trust fault k c = Ok k' → kh_reachable k'
| kh_rotate fault k h p e r k' : kh_reachable k → rotate fault k h p e r = Ok k' → kh_reachable k'.

Lemma kh_reachable_wf k key f : kh_reachable k → pins k !! key = Some f →
  canonical_endpoint key.1 key.2 = Ok key.1 ∧ valid_pin f = Ok tt.
Proof.
  intros Hr. revert key f. induction Hr as [|fault k c k' _ IH Ht|fault k h p e r k' _ IH Ht]; intros key f Hf.
  - cbn in Hf. by rewrite lookup_empty in Hf.
  - apply trust_ok in Ht as (host & Hh & Hv & -> & _). destruct (bool_decide _); [by apply IH|].
    cbn in Hf. destruct (decide (key = (host, hk_port c))) as [->|Hne].
    + rewrite lookup_insert_eq in Hf. injection Hf as <-. split; [|done]. by apply canonical_idempotent in Hh.
    + rewrite lookup_insert_ne in Hf by done. by apply IH.
  - apply rotate_ok in Ht as (host & Hh & _ & Hv & _ & _ & ->). cbn in Hf. destruct (decide (key = (host, p))) as [->|Hne].
    + rewrite lookup_insert_eq in Hf. injection Hf as <-. split; [|done]. by apply canonical_idempotent in Hh.
    + rewrite lookup_insert_ne in Hf by done. by apply IH.
Qed.

(** A pin is set only where there was none and replaced only by a
    rotation that names it: in a store built by the program every pin has a
    canonical endpoint and a well-formed fingerprint; trusting a key changes
    no existing pin and adds at most the trusted one; a rotation succeeds only
    while the stored pin is the reviewed one and replaces that pin alone. *)
Theorem pins_change_only_by_rotation k :
  kh_reachable k →
  (∀ key f, pins k !! key = Some f → canonical_endpoint key.1 key.2 = Ok key.1 ∧ valid_pin f = Ok tt) ∧
  (∀ fault c k', trust fault k c = Ok k' → pins k ⊆ pins k' ∧ ∃ host,
     canonical_endpoint (hk_hostname c) (hk_port c) = Ok host ∧
     pins k' = <[(host, hk_port c) := {| hf_algorithm := hk_algorithm c; hf_sha256 := hk_fingerprint c |}]> (pins k)) ∧
  (∀ fault h p e r k', rotate fault k h p e r = Ok k' → e ≠ r ∧ ∃ host,
     canonical_endpoint h p = Ok host ∧ pins k !! (host, p) = Some e ∧ pins k' = <[(host, p) := r]> (pins k)).
Proof.
  intros Hk. split; [intros key f; by apply kh_reachable_wf|]. split.
  - intros fault c k' Ht. apply trust_ok in Ht as (host & Hh & _ & -> & Hp). destruct (bool_decide _) eqn:E; split_bools.
    + split; [done|]. exists host. split; [done|]. symmetry. by apply insert_id.
    + destruct Hp as [Hp|?]; [|done]. split; [by apply insert_subseteq|by eauto].
  - intros fault h p e r k' Ht. apply rotate_ok in Ht as (host & Hh & _ & _ & Hne & Hp & ->). eauto.
Qed.

(** Accepting the challenge a connection was blocked with admits exactly
    that key: when verification reports an unknown key, trusting its challenge
    succeeds as long as the database does, and then every spelling of that
    endpoint verifies with this key and with no other, while every other
    endpoint is as before. *)
Theorem trusted_challenge_verifies fault k h p f e c :
  verify fault k h p f = Err e → host_key e = Some c → hk_previous_fingerprint c = None →
  ∃ k', trust no_fault k c = Ok k' ∧
    (∀ h' f', canonical_endpoint h' p = canonical_endpoint h p →
       (verify no_fault k' h' p f' = Ok tt ↔ f' = f)) ∧
    (∀ key, Ok key.1 ≠ canonical_endpoint h p ∨ key.2 ≠ p → pins k' !! key = pins k !! key).
Proof.
  unfold verify. intros H Hc Hprev.
  apply bind_err in H as [H|(host & Hh & H)].
  { unfold canonical_endpoint in H. destruct (_ || _); [|done]. by injection H as <-. }
  apply bind_err in H as [H|([] & Hv & H)].
  { unfold valid_pin, validate_fingerprint in H. apply ensure_err in H as [_ <-]. done. }
  apply bind_err in H as [[_ <-]%ensure_err|([] & Hpo%ensure_ok & H)]; [done|].
  apply bind_err in H as [H|(stored & Hs & H)].
  { unfold read_pin, sql in H. destruct (fault SRead); [by injection H as <-|done]. }
  apply bind_ok in Hs as (_ & _ & [= <-]). unfold compare_pin in H. destruct (bool_decide (_ = Some f)) eqn:Ef; [done|].
  injection H as <-. injection Hc as <-. cbn in Hprev.
  destruct (pins k !! (host, p)) as [pin|] eqn:Ep; [done|].
  assert (valid_pin {| hf_algorithm := hf_algorithm f; hf_sha256 := hf_sha256 f |} = Ok tt) as Hv' by (by destruct f).
  exists (set_pin k host p {| hf_algorithm := hf_algorithm f; hf_sha256 := hf_sha256 f |}). split; [|split].
  - unfold trust. cbn [hk_hostname hk_port hk_algorithm hk_fingerprint hk_previous_fingerprint].
    rewrite (canonical_idempotent h p host Hh). cbn [mbind result_bind]. unfold valid_pin in Hv. rewrite Hv, Hpo. cbn. by rewrite Ep.
  - intros h' f' ->. rewrite Hh. cbn [mbind result_bind]. unfold read_pin. cbn. rewrite Hpo, lookup_insert_eq. cbn. unfold compare_pin. split.
    + destruct (valid_pin f'); [|done]. cbn. destruct (bool_decide (Some _ = Some f')) eqn:Eb; [|done]. split_bools. intros _. injection Eb as <-. by destruct f.
    + intros ->. rewrite Hv. cbn. rewrite bool_decide_eq_true_2; [done|]. by destruct f.
  - intros key Hne. cbn. rewrite lookup_insert_ne; [done|]. intros <-. rewrite Hh in Hne. naive_solver.
Qed.

(** ** Connecting *)

Definition is_auth (c : conn_call) : bool :=
  match c with NPassword _ _ | NDecodeKey _ _ | NRsaHash | NPublicKey _ => true | _ => false end.

(** The handshake ended after the server's key was checked against its pin. *)
Definition verified (endpoint : str) (port : Z) (t : list (event conn_reply)) : Prop :=
  ∃ key k fault, Ev NServerKey (Won (Ok key)) ∈ t ∧ Ev NStore (k, fault) ∈ t ∧ Ev NHandshakeEnd (Won (Ok tt)) ∈ t ∧
    sk_certificate key = false ∧ pins k !! (endpoint, port) = Some (sk_fingerprint key).

Lemma bounded_only {A B} P b (r : race A) (k : A → io conn_reply AppError B) :
  (∀ a, only P (k a : prog conn_reply _)) → only P (bounded b r k : prog conn_reply _).
Proof. intros H. destruct r; cbn; auto. Qed.

Lemma connect_block_only endpoint port : only (λ c, negb (is_auth c)) (connect_block endpoint port : prog conn_reply _).
Proof.
  unfold connect_block. cbn [nask pbind only]. split; [done|]. intros r. apply bounded_only. intros [n|]; [|done].
  destruct (n =? 0); [done|].
  do 3 (cbn [nask pbind only]; split; [done|]; intros ?; apply bounded_only; intros [?|?]; [|done]).
  cbn [nask pbind only]. split; [done|]. intros store. destruct (check_server_key _ _ _ _ _); [|done].
  cbn [nask pbind only]. split; [done|]. intros ?. apply bounded_only. by intros [?|?].
Qed.

Lemma bounded_wp {A B} b (r : race A) (k : A → io conn_reply AppError B) t (Q : list (event conn_reply) → B → Prop) :
  (∀ a, r = Won a → wp (k a : prog conn_reply _) t (λ t x, match x with Ok y => Q t y | Err _ => True end)) →
  wp (bounded b r k : prog conn_reply _) t (λ t x, match x with Ok y => Q t y | Err _ => True end).
Proof. intros H. destruct r; cbn; auto. Qed.

Lemma check_ok fault k endpoint port key b : canonical_endpoint endpoint port = Ok endpoint →
  check_server_key fault k endpoint port key = Ok b →
  sk_certificate key = false ∧ pins k !! (endpoint, port) = Some (sk_fingerprint key).
Proof.
  intros Hc. unfold check_server_key, verify. rewrite Hc. destruct (sk_certificate key); [done|]. cbn [mbind result_bind].
  destruct (valid_pin _); [|done]. cbn. destruct (kh_poisoned k); [done|]. cbn. unfold read_pin, sql, ensure.
  destruct (fault SRead); [done|]. cbn. unfold compare_pin. case_bool_decide; [|done]. done.
Qed.

Lemma connect_block_wp endpoint port : canonical_endpoint endpoint port = Ok endpoint →
  wp (connect_block endpoint port : prog conn_reply _) [] (λ t x, match x with Ok _ => verified endpoint port t | Err _ => True end).
Proof.
  intros Hc. unfold connect_block. cbn [nask pbind wp]. intros r0. apply (bounded_wp _ _ _ _ (λ t _, verified endpoint port t)).
  intros [n|] ->; [|done]. destruct (n =? 0); [done|]. cbn [nask pbind wp]. intros r1.
  apply (bounded_wp _ _ _ _ (λ t _, verified endpoint port t)). intros [[]|?] ->; [|done]. cbn [nask pbind wp]. intros r2.
  apply (bounded_wp _ _ _ _ (λ t _, verified endpoint port t)). intros [[]|?] ->; [|done]. cbn [nask pbind wp]. intros r3.
  apply (bounded_wp _ _ _ _ (λ t _, verified endpoint port t)). intros [key|?] ->; [|done]. cbn [nask pbind wp]. intros [k fault].
  cbn [fst snd]. destruct (check_server_key fault k endpoint port key) as [b|?] eqn:Ek; [|done].
  cbn [nask pbind wp]. intros r5.
  apply (bounded_wp _ _ _ _ (λ t _, verified endpoint port t)). intros [[]|?] ->; [|done]. cbn [wp].
  exists key, k, fault. destruct (check_ok _ _ _ _ _ _ Hc Ek). split_and!; try done; rewrite !elem_of_app; set_solver.
Qed.

(** [C17] Credentials go only to a verified server: in every run of a
    connection attempt, the calls before authentication use no credential, and
    any authentication call comes after a completed handshake in which the
    server's raw key equalled the pin stored for the canonical endpoint; a
    rejected credential, a bad endpoint or a mismatch ends the attempt before
    any of them. *)
Theorem no_credential_before_verification (c : HostConnectionConfig) (cred : Credential) t r :
  runs (provider_connect c cred : prog conn_reply _) t r →
  ∃ t1 t2, t = t1 ++ t2 ∧ Forall (λ e, is_auth (ev_call e) = false) t1 ∧
    (t2 ≠ [] ∨ r = Ok tt → credential_validate cred (authentication c) = Ok tt ∧
       ∃ endpoint, canonical_endpoint (hostname c) (port c) = Ok endpoint ∧ verified endpoint (port c) t1).
Proof.
  intros Hr. unfold provider_connect in Hr. cbn [io_lift mbind io_bind pbind] in Hr.
  destruct (credential_validate cred (authentication c)) as [[]|e]; cbn [io_lift mbind io_bind pbind] in Hr.
  2: { apply runs_ret_inv in Hr as [-> ->]. exists [], []. split; [done|]. split; [constructor|]. by intros []. }
  destruct (canonical_endpoint (hostname c) (port c)) as [endpoint|e] eqn:Ec; cbn [io_lift mbind io_bind pbind] in Hr.
  2: { apply runs_ret_inv in Hr as [-> ->]. exists [], []. split; [done|]. split; [constructor|]. by intros []. }
  apply runs_bind in Hr as (x & t1 & t2 & H1 & H2 & ->). exists t1, t2. split; [done|]. split.
  - eapply list.Forall_impl; [eapply only_runs; [apply connect_block_only|exact H1]|]. cbn. intros e He. by apply negb_true_iff.
  - pose proof (wp_runs _ [] t1 x _ (connect_block_wp endpoint (port c) (canonical_idempotent _ _ _ Ec)) H1) as Hv.
    destruct x as [[]|e]; [intros _; split; [done|]; by exists endpoint|].
    apply runs_ret_inv in H2 as [-> ->]. by intros [].
Qed.

(** ** The socket of a session *)

Section Stream.
Context {Socket : Type} (sock_read : Socket → Poll (result IoErrorKind str) * Socket) (sock_write : str → Socket → Poll (result IoErrorKind Z) * Socket)
  (sock_flush sock_shutdown : Socket → Poll (result IoErrorKind unit) * Socket).

(** What the SSH library may ask of the socket, and the cancellation. *)
Inductive stream_step : CancellableStream Socket → CancellableStream Socket → Prop :=
| st_read st : stream_step st (poll_read sock_read st).2
| st_write b st : stream_step st (poll_write sock_write b st).2
| st_flush st : stream_step st (poll_flush sock_flush st).2
| st_cancel st : stream_step st {| cst_stream := cst_stream st; cst_cancelled := true |}.

(** A cancelled stream is silent: after the cancellation no read, write or
    flush reaches the socket, each fails at once so that the task that waits for
    it ends, and closing the socket stays possible. *)
Theorem cancelled_stream_is_silent st st' : cst_cancelled st = true → rtc stream_step st st' →
  cst_stream st' = cst_stream st ∧ cst_cancelled st' = true ∧
  (poll_read sock_read st').1 = Ready (Err ConnectionAborted) ∧ (∀ b, (poll_write sock_write b st').1 = Ready (Err ConnectionAborted)) ∧
  (poll_flush sock_flush st').1 = Ready (Err ConnectionAborted) ∧ (poll_shutdown sock_shutdown st').1 = (sock_shutdown (cst_stream st)).1.
Proof.
  intros Hc Hr. assert (cst_stream st' = cst_stream st ∧ cst_cancelled st' = true) as [Hs Hc'].
  { revert Hc. induction Hr as [st|st st1 st2 Hs _ IH]; [done|]. intros Hc. assert (cst_stream st1 = cst_stream st ∧ cst_cancelled st1 = true) as [<- Hc1].
    { destruct Hs as [st|b st|st|st]; unfold poll_read, poll_write, poll_flush, unless_cancelled, check_cancelled; rewrite ?Hc; done. }
    auto. }
  split; [done|]. split; [done|]. unfold poll_read, poll_write, poll_flush, poll_shutdown, unless_cancelled, check_cancelled. rewrite Hc', Hs.
  by destruct (sock_shutdown _).
Qed.
End Stream.

(** ** Concrete runs *)

Module KhSample.
Definition empty : KnownHosts := {| pins := ∅; kh_poisoned := false |}.
Definition fp : HostFingerprint :=
  {| hf_algorithm := lit "ssh-ed25519"; hf_sha256 := lit "SHA256:AAAAAAAAAAAAAAAAAAAAAAAAAAAAAAAAAAAAAAAAAAA" |}.
Definition fp2 : HostFingerprint :=
  {| hf_algorithm := lit "ssh-ed25519"; hf_sha256 := lit "SHA256:BAAAAAAAAAAAAAAAAAAAAAAAAAAAAAAAAAAAAAAAAAA" |}.
Definition challenge : HostKeyChallenge :=
  {| hk_hostname := lit "example.org"; hk_port := 22; hk_algorithm := hf_algorithm fp; hk_fingerprint := hf_sha256 fp;
     hk_previous_fingerprint := None |}.
Definition trusted : KnownHosts := set_pin empty (lit "example.org") 22 fp.

Lemma trusted_reachable : kh_reachable trusted.
Proof. apply (kh_trust no_fault empty challenge); [constructor|]. vm_compute. reflexivity. Qed.

Definition config : HostConnectionConfig :=
  {| hostname := lit "Example.org."; port := 22; username := lit "root"; authentication := Password |}.
Definition cred : Credential := {| password := Some (lit "x"); private_key := None; passphrase := None |}.

(** A server that offers the pinned key and accepts the password. *)
Definition answer (c : conn_call) : conn_reply c :=
  match c with
  | NLookup _ _ => Won (Some 1)
  | NTcp | NNodelay => Won (Ok tt)
  | NServerKey => Won (Ok {| sk_certificate := false; sk_fingerprint := fp |})
  | NStore => (trusted, no_fault)
  | NHandshakeEnd | NRsaHash => Won (Ok tt)
  | NPassword _ _ | NPublicKey _ => Won (Ok true)
  | NDecodeKey _ _ => Won (Some true)
  end.
End KhSample.

Lemma pins_change_only_by_rotation_witness :
  ∃ k', rotate no_fault KhSample.trusted (lit "EXAMPLE.org") 22 KhSample.fp KhSample.fp2 = Ok k' ∧ KhSample.fp ≠ KhSample.fp2.
Proof.
  destruct (rotate no_fault KhSample.trusted (lit "EXAMPLE.org") 22 KhSample.fp KhSample.fp2) as [k'|] eqn:E; [|by vm_compute in E].
  exists k'. split; [done|]. apply (pins_change_only_by_rotation _ KhSample.trusted_reachable) in E as [H _]. exact H.
Defined.

Lemma trusted_challenge_verifies_witness :
  ∃ k', trust no_fault KhSample.empty KhSample.challenge = Ok k' ∧ verify no_fault k' (lit "EXAMPLE.ORG") 22 KhSample.fp = Ok tt.
Proof.
  destruct (verify no_fault KhSample.empty (lit "Example.org") 22 KhSample.fp) as [|e] eqn:E; [by vm_compute in E|].
  assert (host_key e = Some KhSample.challenge) as Hk by (vm_compute in E; by injection E as <-).
  destruct (trusted_challenge_verifies no_fault KhSample.empty (lit "Example.org") 22 KhSample.fp e KhSample.challenge E Hk eq_refl)
    as (k' & Ht & Hv & _). exists k'. split; [exact Ht|]. by apply (Hv (lit "EXAMPLE.ORG") KhSample.fp eq_refl).
Defined.

Lemma no_credential_before_verification_witness :
  ∃ t t1 t2, runs (provider_connect KhSample.config KhSample.cred : prog conn_reply _) t (Ok tt) ∧ t = t1 ++ t2 ∧
    verified (lit "example.org") 22 t1.
Proof.
  set (t := (interp KhSample.answer (provider_connect KhSample.config KhSample.cred : prog conn_reply _)).1).
  assert (runs (provider_connect KhSample.config KhSample.cred : prog conn_reply _) t (Ok tt)) as Hr
    by (apply interp_runs_eq; vm_compute; reflexivity).
  destruct (no_credential_before_verification KhSample.config KhSample.cred t (Ok tt) Hr) as (t1 & t2 & Ht & _ & Hv).
  exists t, t1, t2. split; [exact Hr|]. split; [exact Ht|]. destruct Hv as (_ & endpoint & He & Hv); [by right|].
  vm_compute in He. injection He as <-. exact Hv.
Defined.
