(* ===== verification/Sessions.v ===== *)
(** Host sessions: connecting, disconnecting, refreshing, trusting and
    rotating host keys ([nexus-core/src/sessions.rs],
    [application/connection.rs], [lifecycle.rs], [hosts.rs], [identity.rs],
    [rotation.rs] and [Application::shutdown]).

    A [SessionSlot] is shared: a connection attempt keeps its slot over its
    network work, even when the host is deleted meanwhile.  The slots live in
    [slots]; [by_host] is the map of the application.  Each method is cut at
    its awaits and the pieces between them are functions of the shared state.
    What the other components answer at those points (the repository, the
    stores that are revoked, SFTP and terminal shut-down, the audit log, the
    remote host) is an argument.  The per-host lifecycle guard is [guards];
    the application's [mutation] lock is held across awaits only by
    [save_host]. *)

From S2P Require Import Prelude Str Model Ip IpText Hosts Prog Interp SshChannel KnownHosts.

(** ** Session data *)

(** An [f64] is its bit pattern: only its presence matters here. *)
Abbreviation f64 := Z (only parsing).
Abbreviation TokenId := N (only parsing).
Abbreviation TransportId := N (only parsing).
Abbreviation SlotId := N (only parsing).

Record DiscoverySnapshot := {
  ds_hostname : option str; ds_os : option str; ds_os_version : option str; ds_kernel : option str;
  ds_architecture : option str; ds_uptime_seconds : option f64; ds_load_one : option f64;
  ds_memory_total_bytes : option Z; ds_memory_used_bytes : option Z;
  ds_root_total_bytes : option Z; ds_root_used_bytes : option Z;
  ds_observed_at : str; ds_warnings : list AppError
}.

(** [nexus_discovery::capabilities] *)
Definition capabilities (s : DiscoverySnapshot) : list HostCapability :=
  if bool_decide (is_Some (ds_uptime_seconds s)) || bool_decide (is_Some (ds_memory_total_bytes s))
     || bool_decide (is_Some (ds_load_one s))
  then [{| hc_id := lit "linux"; hc_available := true |}; {| hc_id := lit "procfs"; hc_available := true |}]
  else [].

Record HostSession := {
  hs_host_id : HostId;
  hs_session_id : option HostSessionId;
  hs_state : ConnectionState;
  hs_error : option AppError;
  hs_identity : option HostIdentity;
  hs_capabilities : list HostCapability;
  hs_discovery : option DiscoverySnapshot
}.

(** [HostSession::disconnected] *)
Definition disconnected (h : HostId) : HostSession :=
  {| hs_host_id := h; hs_session_id := None; hs_state := Disconnected; hs_error := None; hs_identity := None;
     hs_capabilities := []; hs_discovery := None |}.

Definition with_state (v : HostSession) (s : ConnectionState) (e : option AppError) : HostSession :=
  {| hs_host_id := hs_host_id v; hs_session_id := hs_session_id v; hs_state := s; hs_error := e;
     hs_identity := hs_identity v; hs_capabilities := hs_capabilities v; hs_discovery := hs_discovery v |}.

Record SessionData := {
  view : HostSession;
  generation : Z;
  cancel : TokenId;
  transport : option TransportId;
  connection_id : option HostSessionId;
  refreshing : bool
}.

(** [data.generation += 1] on a [u64], which wraps around in a release build. *)
Definition next_generation (g : Z) : Z := (g + 1) mod 2 ^ 64.

(** [SessionSlot::new] *)
Definition slot_new (h : HostId) (token : TokenId) : SessionData :=
  {| view := disconnected h; generation := 0; cancel := token; transport := None; connection_id := None; refreshing := false |}.

Definition state (d : SessionData) : ConnectionState := hs_state (view d).

(** [view.state = s], keeping the rest. *)
Definition set_view (d : SessionData) (v : HostSession) : SessionData :=
  {| view := v; generation := generation d; cancel := cancel d; transport := transport d;
     connection_id := connection_id d; refreshing := refreshing d |}.

(** ** Rotation plans *)

Record HostKeyRotationPlan := {
  rp_id : N; rp_host_id : HostId; rp_hostname : str; rp_port : Z;
  rp_current : HostFingerprint; rp_presented : HostFingerprint; rp_expires_at_unix_ms : Z
}.
Record RotationAuthority := { ra_plan : HostKeyRotationPlan; ra_generation : Z; ra_expires_at : Instant }.
Definition ROTATION_TTL : Duration := from_secs (5 * 60).

(** ** The application's state *)

(** A [connect_host] or [refresh_host] between its two pieces. *)
Record Attempt := { at_host : HostId; at_slot : SlotId; at_generation : Z; at_token : TokenId }.
(** A [DisconnectWork] in flight, of [disconnect_host] or [delete_host]. *)
Record DisconnectWork := { dw_host : HostId; dw_slot : SlotId; dw_connection_id : option HostSessionId; dw_delete : bool }.

Record App := {
  slots : gmap SlotId SessionData;
  by_host : gmap HostId SlotId;
  cancelled_tokens : gset TokenId;
  used : gset N;                           (** identifiers drawn so far *)
  connects : gmap N Attempt;
  refreshes : gmap N Attempt;
  disconnects : gmap N DisconnectWork;
  saves : gmap N (HostId * SlotId);        (** [save_host] between its check and its commit *)
  guards : gset HostId;
  mutation : bool;
  marked : gset SlotId;                    (** slots the shutdown has begun with *)
  rotation_plans : gmap HostId RotationAuthority;
  known_hosts : KnownHosts
}.

Definition app_new (k : KnownHosts) : App :=
  {| slots := ∅; by_host := ∅; cancelled_tokens := ∅; used := ∅; connects := ∅; refreshes := ∅; disconnects := ∅;
     saves := ∅; guards := ∅; mutation := false; marked := ∅; rotation_plans := ∅; known_hosts := k |}.

(** Setters, one per group of fields a piece changes. *)
Definition put (y : App) (s : SlotId) (d : SessionData) : App :=
  {| slots := <[s := d]> (slots y); by_host := by_host y; cancelled_tokens := cancelled_tokens y; used := used y;
     connects := connects y; refreshes := refreshes y; disconnects := disconnects y; saves := saves y; guards := guards y;
     mutation := mutation y; marked := marked y; rotation_plans := rotation_plans y; known_hosts := known_hosts y |}.
Definition cancel_token (y : App) (t : TokenId) : App :=
  {| slots := slots y; by_host := by_host y; cancelled_tokens := {[t]} ∪ cancelled_tokens y; used := used y;
     connects := connects y; refreshes := refreshes y; disconnects := disconnects y; saves := saves y; guards := guards y;
     mutation := mutation y; marked := marked y; rotation_plans := rotation_plans y; known_hosts := known_hosts y |}.
Definition draw (y : App) (ids : gset N) : App :=
  {| slots := slots y; by_host := by_host y; cancelled_tokens := cancelled_tokens y; used := ids ∪ used y;
     connects := connects y; refreshes := refreshes y; disconnects := disconnects y; saves := saves y; guards := guards y;
     mutation := mutation y; marked := marked y; rotation_plans := rotation_plans y; known_hosts := known_hosts y |}.
Definition set_connects (y : App) (c : gmap N Attempt) : App :=
  {| slots := slots y; by_host := by_host y; cancelled_tokens := cancelled_tokens y; used := used y;
     connects := c; refreshes := refreshes y; disconnects := disconnects y; saves := saves y; guards := guards y;
     mutation := mutation y; marked := marked y; rotation_plans := rotation_plans y; known_hosts := known_hosts y |}.
Definition set_refreshes (y : App) (r : gmap N Attempt) : App :=
  {| slots := slots y; by_host := by_host y; cancelled_tokens := cancelled_tokens y; used := used y;
     connects := connects y; refreshes := r; disconnects := disconnects y; saves := saves y; guards := guards y;
     mutation := mutation y; marked := marked y; rotation_plans := rotation_plans y; known_hosts := known_hosts y |}.
Definition set_disconnects (y : App) (w : gmap N DisconnectWork) (g : gset HostId) : App :=
  {| slots := slots y; by_host := by_host y; cancelled_tokens := cancelled_tokens y; used := used y;
     connects := connects y; refreshes := refreshes y; disconnects := w; saves := saves y; guards := g;
     mutation := mutation y; marked := marked y; rotation_plans := rotation_plans y; known_hosts := known_hosts y |}.
Definition set_saves (y : App) (v : gmap N (HostId * SlotId)) (g : gset HostId) (m : bool) : App :=
  {| slots := slots y; by_host := by_host y; cancelled_tokens := cancelled_tokens y; used := used y;
     connects := connects y; refreshes := refreshes y; disconnects := disconnects y; saves := v; guards := g;
     mutation := m; marked := marked y; rotation_plans := rotation_plans y; known_hosts := known_hosts y |}.
Definition set_by_host (y : App) (b : gmap HostId SlotId) : App :=
  {| slots := slots y; by_host := b; cancelled_tokens := cancelled_tokens y; used := used y;
     connects := connects y; refreshes := refreshes y; disconnects := disconnects y; saves := saves y; guards := guards y;
     mutation := mutation y; marked := marked y; rotation_plans := rotation_plans y; known_hosts := known_hosts y |}.
Definition set_marked (y : App) (m : gset SlotId) : App :=
  {| slots := slots y; by_host := by_host y; cancelled_tokens := cancelled_tokens y; used := used y;
     connects := connects y; refreshes := refreshes y; disconnects := disconnects y; saves := saves y; guards := guards y;
     mutation := mutation y; marked := m; rotation_plans := rotation_plans y; known_hosts := known_hosts y |}.
Definition set_identity (y : App) (r : gmap HostId RotationAuthority) (k : KnownHosts) : App :=
  {| slots := slots y; by_host := by_host y; cancelled_tokens := cancelled_tokens y; used := used y;
     connects := connects y; refreshes := refreshes y; disconnects := disconnects y; saves := saves y; guards := guards y;
     mutation := mutation y; marked := marked y; rotation_plans := r; known_hosts := k |}.
Definition drop_rotation (y : App) (h : HostId) : App := set_identity y (delete h (rotation_plans y)) (known_hosts y).

(** [self.slot(id)]: the slot of the host, created when missing; [fresh] and
    [token] are the identities a new slot and its token would get. *)
Definition slot (h : HostId) (fresh : SlotId) (token : TokenId) (y : App) : SlotId * App :=
  match by_host y !! h with
  | Some s => (s, y)
  | None => (fresh, set_by_host (put y fresh (slot_new h token)) (<[h := fresh]> (by_host y)))
  end.

Definition busy_state (s : ConnectionState) : bool :=
  match s with Connecting | Connected | Disconnecting => true | _ => false end.

Definition connection_cancelled : AppError := app_error Cancelled "Connection was cancelled.".

(** [slot.data], which exists for every slot handed out. *)
Definition data (y : App) (s : SlotId) : SessionData := default (slot_new 0%N 0%N) (slots y !! s).

(** ** Connecting *)

(** The identities a piece may draw. *)
Record Fresh := { fr_task : N; fr_slot : SlotId; fr_slot_token : TokenId; fr_token : TokenId; fr_session : HostSessionId }.
Definition fresh_ids (f : Fresh) : gset N := {[fr_task f; fr_slot f; fr_slot_token f; fr_token f; fr_session f]}.

(** [connect_host] up to its network work; [pre] is the answer of the stores
    it revokes and of the repository. *)
Definition connect_begin (h : HostId) (f : Fresh) (pre : Res unit) (y : App) : Res unit * App :=
  match pre with
  | Err e => (Err e, y)
  | Ok _ =>
      let y := drop_rotation y h in
      let '(s, y) := slot h (fr_slot f) (fr_slot_token f) y in
      let d := data y s in
      if busy_state (state d)
      then (Err (app_error Conflict "This host is already connecting or connected."), y) else
      match transition (state d) Connecting with
      | Err e => (Err e, y)
      | Ok st =>
          let y := cancel_token y (cancel d) in
          let g := next_generation (generation d) in
          let d := {| view := with_state (disconnected h) st None; generation := g; cancel := fr_token f; transport := None;
                      connection_id := None; refreshing := false |} in
          (Ok tt, set_connects (put y s d)
             (<[fr_task f := {| at_host := h; at_slot := s; at_generation := g; at_token := fr_token f |}]> (connects y)))
      end
  end.

(** What [establish] returns. *)
Definition Established : Type := TransportId * DiscoverySnapshot * option HostIdentity.

(** The rest of [connect_host]; [audit] is the answer of the audit log. *)
Definition connect_finish (t : N) (fresh : HostSessionId) (outcome : Res Established) (audit : Res unit) (y : App)
    : option (Res unit * App) :=
  match connects y !! t with
  | None => None
  | Some a =>
      let s := at_slot a in
      let d := data y s in
      let y := set_connects y (delete t (connects y)) in
      Some
        (if bool_decide (generation d ≠ at_generation a) || bool_decide (at_token a ∈ cancelled_tokens y)
         then (_ ← audit; Err connection_cancelled, y)
         else match outcome with
              | Ok (tr, snapshot, ident) =>
                  match transition (state d) Connected with
                  | Err e => (Err e, y)
                  | Ok st =>
                      let v := {| hs_host_id := hs_host_id (view d); hs_session_id := Some fresh; hs_state := st;
                                  hs_error := hs_error (view d); hs_identity := ident;
                                  hs_capabilities := capabilities snapshot; hs_discovery := Some snapshot |} in
                      (audit, put y s {| view := v; generation := generation d; cancel := cancel d; transport := Some tr;
                                         connection_id := Some fresh; refreshing := refreshing d |})
                  end
              | Err error =>
                  match transition (state d) (if bool_decide (code error = UnknownHostKey) then AwaitingTrust else Failed) with
                  | Err e => (Err e, y)
                  | Ok st =>
                      (_ ← audit; Err error,
                       put y s {| view := with_state (view d) st (Some error); generation := generation d; cancel := cancel d;
                                  transport := None; connection_id := connection_id d; refreshing := refreshing d |})
                  end
              end)
  end.

(** ** Disconnecting *)

(** [prepare_disconnect], with the lifecycle guard that [disconnect_host] and
    [delete_host] keep until [finish_disconnect] is over. *)
Definition prepare_disconnect (h : HostId) (del : bool) (f : Fresh) (pre : Res unit) (y : App) : Res unit * App :=
  match pre with
  | Err e => (Err e, y)
  | Ok _ =>
      let y := drop_rotation y h in
      let '(s, y) := slot h (fr_slot f) (fr_slot_token f) y in
      let d := data y s in
      let y := if bool_decide (state d = Connecting) then cancel_token y (cancel d) else y in
      let bumped (v : HostSession) :=
        {| view := v; generation := next_generation (generation d); cancel := cancel d; transport := transport d;
           connection_id := connection_id d; refreshing := false |} in
      let next := match state d with
                  | Connecting | Connected => transition (state d) Disconnecting
                  | s => Ok s
                  end in
      match next with
      | Err e => (Err e, put y s (bumped (view d)))
      | Ok st =>
          (Ok tt, set_disconnects (put y s (bumped (with_state (view d) st (hs_error (view d)))))
             (<[fr_task f := {| dw_host := h; dw_slot := s; dw_connection_id := connection_id d; dw_delete := del |}]> (disconnects y))
             ({[h]} ∪ guards y))
      end
  end.

(** [finish_disconnect]: [sftp] is the answer of [close_sftp], [bye] that of
    the transport's [disconnect]; then, for [delete_host], the repository
    ([removed]) and the map. *)
Definition finish_disconnect (t : N) (sftp bye audit removed : Res unit) (y : App) : option (Res unit * App) :=
  match disconnects y !! t with
  | None => None
  | Some w =>
      let s := dw_slot w in
      let d := data y s in
      let y := set_disconnects y (delete t (disconnects y)) (guards y ∖ {[dw_host w]}) in
      let closed := match dw_connection_id w with Some _ => sftp | None => Ok tt end in
      Some
        match closed with
        | Err e => (Err e, put y s (set_view d (with_state (view d) (state d) (Some e))))
        | Ok _ =>
            let y := cancel_token y (cancel d) in
            let y := put y s {| view := disconnected (dw_host w); generation := generation d; cancel := cancel d;
                                transport := None; connection_id := None; refreshing := refreshing d |} in
            let closed := (match transport d with Some _ => bye | None => Ok tt end : Res unit) in
            match (_ ← closed; audit) with
            | Err e => (Err e, y)
            | Ok _ =>
                if dw_delete w then
                  match removed with
                  | Err e => (Err e, y)
                  | Ok _ => (Ok tt, set_by_host (drop_rotation y (dw_host w)) (delete (dw_host w) (by_host y)))
                  end
                else (Ok tt, y)
            end
        end
  end.

(** [get_session] when the transport is seen closed: the host closed the
    connection. *)
Definition remote_closed (h : HostId) (f : Fresh) (transport_closed : bool) (y : App) : Res HostSession * App :=
  let '(s, y) := slot h (fr_slot f) (fr_slot_token f) y in
  let d := data y s in
  if bool_decide (is_Some (transport d)) && transport_closed && bool_decide (state d = Connected) then
    let y := cancel_token y (cancel d) in
    let v := {| hs_host_id := hs_host_id (view d); hs_session_id := None; hs_state := Connected; hs_error := hs_error (view d);
                hs_identity := hs_identity (view d); hs_capabilities := hs_capabilities (view d); hs_discovery := hs_discovery (view d) |} in
    let d := {| view := v; generation := next_generation (generation d); cancel := cancel d; transport := None; connection_id := None;
                refreshing := false |} in
    match transition (state d) Failed with
    | Err e => (Err e, put y s d)
    | Ok st =>
        let v := {| hs_host_id := hs_host_id (view d); hs_session_id := None; hs_state := st;
                    hs_error := Some (app_error Connection "The remote host closed the SSH connection. Reconnect to continue.");
                    hs_identity := hs_identity (view d); hs_capabilities := []; hs_discovery := None |} in
        (Ok v, put y s (set_view d v))
    end
  else (Ok (view d), y).

(** ** Refreshing *)

(** [refresh_host] up to the discovery; [repo] is the answer of the repository. *)
Definition refresh_begin (h : HostId) (f : Fresh) (repo : Res unit) (y : App) : Res TransportId * App :=
  match repo with
  | Err e => (Err e, y)
  | Ok _ =>
  let '(s, y) := slot h (fr_slot f) (fr_slot_token f) y in
  let d := data y s in
  if bool_decide (state d ≠ Connected) || refreshing d
  then (Err (app_error Conflict "Connect this host and wait for the current discovery to finish."), y) else
  match transport d with
  | None => (Err (app_error Connection "SSH session is unavailable."), y)
  | Some tr =>
      (Ok tr, set_refreshes (put y s {| view := view d; generation := generation d; cancel := cancel d; transport := transport d;
                                         connection_id := connection_id d; refreshing := true |})
         (<[fr_task f := {| at_host := h; at_slot := s; at_generation := generation d; at_token := cancel d |}]> (refreshes y)))
  end
  end.

(** The rest of [refresh_host], from the answer of the discovery. *)

Definition refresh_finish (t : N) (result : Res DiscoverySnapshot) (audit : Res unit) (y : App) : option (Res unit * App) :=
  match refreshes y !! t with
  | None => None
  | Some a =>
      let s := at_slot a in
      let d := data y s in
      let y := set_refreshes y (delete t (refreshes y)) in
      Some
        (if bool_decide (generation d ≠ at_generation a) || bool_decide (at_token a ∈ cancelled_tokens y)
         then (_ ← audit; Err connection_cancelled, y)
         else
           let d := {| view := view d; generation := generation d; cancel := cancel d; transport := transport d;
                       connection_id := connection_id d; refreshing := false |} in
           match result with
           | Ok snapshot =>
               let v := {| hs_host_id := hs_host_id (view d); hs_session_id := hs_session_id (view d); hs_state := state d;
                           hs_error := hs_error (view d); hs_identity := hs_identity (view d);
                           hs_capabilities := capabilities snapshot; hs_discovery := Some snapshot |} in
               (audit, put y s (set_view d v))
           | Err e => (_ ← audit; Err e, put y s d)
           end)
  end.

(** ** Saving a host *)

(** [save_host] up to its check of the session, with the mutation lock and the
    lifecycle guard held until the end (the identity of a new host is drawn
    here, so that nobody else asks for its guard); [pre] is the answer of the
    repository and of [into_host]. *)
Definition save_begin (h : HostId) (f : Fresh) (pre : Res unit) (y : App) : Res unit * App :=
  match pre with
  | Err e => (Err e, y)
  | Ok _ =>
  let '(s, y) := slot h (fr_slot f) (fr_slot_token f) y in
  if busy_state (state (data y s))
  then (Err (app_error Conflict "Disconnect this host before editing its configuration."), y)
  else (Ok tt, set_saves y (<[fr_task f := (h, s)]> (saves y)) ({[h]} ∪ guards y) true)
  end.

(** The rest: [commit] is the answer of everything up to the metadata commit
    and the revocation of the host's authorities; after it, pending trust and
    connections of the old configuration are invalidated.  [rest] is the answer
    of the clean-up of the old secret and of the audit log. *)
Definition save_commit (t : N) (commit rest : Res unit) (y : App) : option (Res unit * App) :=
  match saves y !! t with
  | None => None
  | Some (h, s) =>
      let y := set_saves y (delete t (saves y)) (guards y ∖ {[h]}) false in
      Some
        match commit with
        | Err e => (Err e, y)
        | Ok _ =>
            let y := drop_rotation y h in
            let d := data y s in
            (rest, put (cancel_token y (cancel d)) s
               {| view := disconnected h; generation := next_generation (generation d); cancel := cancel d; transport := transport d;
                  connection_id := None; refreshing := refreshing d |})
        end
  end.

(** ** Shutting down *)

(** The first loop of [shutdown] on one slot, and the last. *)
Definition shutdown_mark (s : SlotId) (y : App) : App :=
  let y := set_identity (set_marked y ({[s]} ∪ marked y)) ∅ (known_hosts y) in
  match slots y !! s with
  | None => y
  | Some d =>
      let y := if bool_decide (state d = Connecting) then cancel_token y (cancel d) else y in
      let st := match state d with Connected => Disconnecting | x => x end in
      put y s {| view := with_state (view d) st (hs_error (view d)); generation := next_generation (generation d); cancel := cancel d;
                 transport := transport d; connection_id := connection_id d; refreshing := false |}
  end.

Definition shutdown_clear (s : SlotId) (y : App) : App :=
  match slots y !! s with
  | None => y
  | Some d =>
      put (cancel_token y (cancel d)) s
        {| view := disconnected (hs_host_id (view d)); generation := generation d; cancel := cancel d; transport := None;
           connection_id := None; refreshing := false |}
  end.

(** ** Trusting an unknown key ([trust_host_key]) *)

Definition stale_trust : AppError :=
  app_error Conflict "This trust request is stale. Connect again to inspect the current server key.".

Definition trust_host_key (h : HostId) (c : HostKeyChallenge) (f : Fresh) (repo : Res Host) (fault : Stage → bool) (audit : Res unit)
    (y : App) : Res unit * App :=
  match repo with
  | Err e => (Err e, y)
  | Ok _ =>
      let '(s, y) := slot h (fr_slot f) (fr_slot_token f) y in
      let d := data y s in
      if bool_decide (state d ≠ AwaitingTrust) || bool_decide (is_Some (hk_previous_fingerprint c))
         || bool_decide ((hs_error (view d) ≫= host_key) ≠ Some c)
      then (Err stale_trust, y) else
      match trust fault (known_hosts y) c with
      | Err e => (Err e, y)
      | Ok k =>
          let y := set_identity y (delete h (rotation_plans y)) k in
          match transition (state d) Disconnected with
          | Err e => (Err e, y)
          | Ok st => (audit, put y s (set_view d (with_state (view d) st None)))
          end
      end
  end.

(** ** Rotating a changed key ([rotation.rs]) *)

Definition stale_rotation : AppError :=
  app_error Conflict "This SSH key change is stale. Connect again and review a new rotation plan.".

(** [stored_host], from the answer of the repository. *)
Definition stored_host (repo : Res Host) : Res Host :=
  match repo with
  | Err e => Err (if bool_decide (code e = NotFound) then stale_rotation else e)
  | Ok host => match host_validate (connection host) with
               | Ok _ => Ok host
               | Err _ => Err (app_error Persistence "The stored SSH endpoint configuration is invalid.")
               end
  end.

Definition changed_challenge (host : Host) (d : SessionData) : Res HostKeyChallenge :=
  _ ← ensure (bool_decide (hs_host_id (view d) ≠ host_id host) || bool_decide (state d ≠ Failed)
              || bool_decide (is_Some (hs_session_id (view d))) || bool_decide (is_Some (connection_id d))
              || bool_decide (is_Some (transport d))) stale_rotation;
  error ← ok_or (hs_error (view d)) stale_rotation;
  _ ← ensure (bool_decide (code error ≠ ChangedHostKey)) stale_rotation;
  c ← ok_or (host_key error) stale_rotation;
  canonical ← ok_or (res_ok (canonical_endpoint (hostname (connection host)) (port (connection host)))) stale_rotation;
  _ ← ensure (bool_decide (hk_hostname c ≠ canonical) || bool_decide (hk_port c ≠ port (connection host))
              || bool_decide (hk_previous_fingerprint c = None)) stale_rotation;
  Ok c.

(** [plan_host_key_rotation]; [clock] is the wall clock's deadline in
    milliseconds, [now] the monotonic one. *)
Definition plan_rotation (h : HostId) (plan_id : N) (f : Fresh) (repo : Res Host) (fault : Stage → bool) (clock : Res Z) (now : Instant)
    (y : App) : Res HostKeyRotationPlan * App :=
  let y := drop_rotation y h in
  match stored_host repo with
  | Err e => (Err e, y)
  | Ok host =>
      let '(s, y) := slot h (fr_slot f) (fr_slot_token f) y in
      let d := data y s in
      let c := connection host in
      let planned : Res HostKeyRotationPlan :=
        challenge ← changed_challenge host d;
        pin ← stored_fingerprint fault (known_hosts y) (hostname c) (port c);
        current ← ok_or pin stale_rotation;
        _ ← ensure (bool_decide (hk_previous_fingerprint challenge ≠ Some (hf_sha256 current))) stale_rotation;
        let presented := {| hf_algorithm := hk_algorithm challenge; hf_sha256 := hk_fingerprint challenge |} in
        _ ← match verify fault (known_hosts y) (hostname c) (port c) presented with
            | Err e => if bool_decide (code e = ChangedHostKey) then Ok tt
                       else if bool_decide (code e = Persistence) then Err e else Err stale_rotation
            | Ok _ => Err stale_rotation
            end;
        deadline ← clock;
        name ← canonical_endpoint (hostname c) (port c);
        Ok {| rp_id := plan_id; rp_host_id := h; rp_hostname := name; rp_port := port c; rp_current := current;
              rp_presented := presented; rp_expires_at_unix_ms := deadline |} in
      match planned with
      | Err e => (Err e, y)
      | Ok plan =>
          (Ok plan, set_identity y (<[h := {| ra_plan := plan; ra_generation := generation d; ra_expires_at := now + ROTATION_TTL |}]>
                                       (rotation_plans y)) (known_hosts y))
      end
  end.

(** The body of [execute_host_key_rotation] after the authority was taken out:
    the new store and session data, or an error that leaves both. *)
Definition rotation_body (h : HostId) (a : RotationAuthority) (repo : Res Host) (fault : Stage → bool) (now : Instant)
    (k : KnownHosts) (d : SessionData) : Res KnownHosts :=
  let plan := ra_plan a in
  _ ← ensure (ra_expires_at a <=? now) stale_rotation;
  host ← stored_host repo;
  let c := connection host in
  canonical ← ok_or (res_ok (canonical_endpoint (hostname c) (port c))) stale_rotation;
  _ ← ensure (bool_decide (rp_host_id plan ≠ h) || bool_decide (rp_hostname plan ≠ canonical)
              || bool_decide (rp_port plan ≠ port c)) stale_rotation;
  _ ← ensure (bool_decide (generation d ≠ ra_generation a)) stale_rotation;
  challenge ← changed_challenge host d;
  _ ← ensure (bool_decide (hk_hostname challenge ≠ rp_hostname plan) || bool_decide (hk_port challenge ≠ rp_port plan)
              || bool_decide (hk_algorithm challenge ≠ hf_algorithm (rp_presented plan))
              || bool_decide (hk_fingerprint challenge ≠ hf_sha256 (rp_presented plan))
              || bool_decide (hk_previous_fingerprint challenge ≠ Some (hf_sha256 (rp_current plan)))) stale_rotation;
  stored ← stored_fingerprint fault k (hostname c) (port c);
  _ ← ensure (bool_decide (stored ≠ Some (rp_current plan))) stale_rotation;
  rotate fault k (rp_hostname plan) (rp_port plan) (rp_current plan) (rp_presented plan).

(** [execute_host_key_rotation]; a host with a plan has a slot, so [slot]
    only finds it. *)
Definition execute_rotation (h : HostId) (plan_id : N) (f : Fresh) (repo : Res Host) (fault : Stage → bool) (now : Instant)
    (audit : Res unit) (y : App) : Res unit * App :=
  match rotation_plans y !! h with
  | None => (Err stale_rotation, y)
  | Some a =>
      if bool_decide (rp_id (ra_plan a) ≠ plan_id) then (Err stale_rotation, y) else
      let y := drop_rotation y h in
      let '(s, y') := slot h (fr_slot f) (fr_slot_token f) y in
      let d := data y' s in
      match rotation_body h a repo fault now (known_hosts y') d with
      | Err e => (_ ← audit; Err e, y')
      | Ok k =>
          let y := set_identity y' (rotation_plans y') k in
          (audit, put (cancel_token y (cancel d)) s
             {| view := disconnected h; generation := next_generation (generation d); cancel := cancel d; transport := None;
                connection_id := None; refreshing := false |})
      end
  end.

(** ** All requests together *)

(** The lifecycle guard of [h] and the mutation lock can be taken. *)
Definition free (h : HostId) (y : App) : Prop := h ∉ guards y ∧ mutation y = false.
(** Identities are drawn only once. *)
Definition is_fresh (f : Fresh) (y : App) : Prop :=
  fresh_ids f ## used y ∧ NoDup [fr_task f; fr_slot f; fr_slot_token f; fr_token f; fr_session f].

Inductive app_step : App → App → Prop :=
| a_connect h f pre y : free h y → is_fresh f y → marked y = ∅ →
    app_step y (connect_begin h f pre (draw y (fresh_ids f))).2
| a_connected t f outcome audit r y y' : is_fresh f y →
    connect_finish t (fr_session f) outcome audit (draw y (fresh_ids f)) = Some (r, y') → app_step y y'
| a_prepare h del f pre y : free h y → is_fresh f y → app_step y (prepare_disconnect h del f pre (draw y (fresh_ids f))).2
| a_finish t sftp bye audit removed r y y' : finish_disconnect t sftp bye audit removed y = Some (r, y') → app_step y y'
| a_remote_closed h f b y : h ∉ guards y → is_fresh f y → app_step y (remote_closed h f b (draw y (fresh_ids f))).2
| a_refresh h f repo y : is_fresh f y → app_step y (refresh_begin h f repo (draw y (fresh_ids f))).2
| a_refreshed t result audit r y y' : refresh_finish t result audit y = Some (r, y') → app_step y y'
| a_save h f pre y : free h y → is_fresh f y → app_step y (save_begin h f pre (draw y (fresh_ids f))).2
| a_saved t commit rest r y y' : save_commit t commit rest y = Some (r, y') → app_step y y'
| a_mark s y : app_step y (shutdown_mark s y)
| a_clear s y : s ∈ marked y → app_step y (shutdown_clear s y)
| a_trust h c f repo fault audit y : free h y → is_fresh f y →
    app_step y (trust_host_key h c f repo fault audit (draw y (fresh_ids f))).2
| a_plan h id f repo fault clock now y : free h y → is_fresh f y →
    app_step y (plan_rotation h id f repo fault clock now (draw y (fresh_ids f))).2
| a_rotate h id f repo fault now audit y : free h y → is_fresh f y →
    app_step y (execute_rotation h id f repo fault now audit (draw y (fresh_ids f))).2.

Definition app_reachable (k : KnownHosts) : App → Prop := rtc app_step (app_new k).

(** What the first [n] requests can lead to. *)
Definition app_reachable_in (k : KnownHosts) (n : nat) : App → Prop := nsteps app_step n (app_new k).
