(* ===== verification/SessionsInv.v ===== *)
(** The invariant of the session state machine and that every piece of the
    application's methods keeps it. *)

From S2P Require Import Prelude Str Model Ip IpText Hosts Prog Interp SshChannel KnownHosts Sessions.

(** ** Generations *)

(** No generation is at its greatest value, so that the next one is greater. *)
Definition below (y : App) : Prop := ∀ s, 0 ≤ generation (data y s) < u64_max.

Lemma next_generation_small g : 0 ≤ g < u64_max → next_generation g = g + 1.
Proof. unfold next_generation, u64_max. intros H. apply Z.mod_small. lia. Qed.

Lemma next_generation_bound g : 0 ≤ g → 0 ≤ next_generation g ≤ g + 1.
Proof.
  unfold next_generation. intros H. split; [by apply Z.mod_pos_bound|]. apply Z.mod_le; lia.
Qed.

Lemma below_lookup y s d : below y → slots y !! s = Some d → next_generation (generation d) = generation d + 1.
Proof. intros Hb Hd. apply next_generation_small. specialize (Hb s). unfold data in Hb. by rewrite Hd in Hb. Qed.

Lemma below_slot h fr tk y s y0 : slot h fr tk y = (s, y0) → below y → below y0.
Proof.
  unfold slot. intros Es Hb. destruct (by_host y !! h); injection Es as <- <-; [done|]. intros x. unfold data. cbn.
  destruct (decide (x = fr)) as [->|Hne]; [rewrite lookup_insert_eq; cbn; unfold u64_max; lia|]. rewrite lookup_insert_ne by done. apply Hb.
Qed.

(** ** The invariant *)

Definition linked (s : ConnectionState) : Prop := s = Connected ∨ s = Disconnecting.

(** Neither connected nor on the way to it. *)
Definition calm (s : ConnectionState) : Prop := s ≠ Connecting ∧ s ≠ Connected.

Record data_ok (d : SessionData) : Prop := {
  do_same : hs_session_id (view d) = connection_id d;
  do_connected : state d = Connected → is_Some (transport d) ∧ is_Some (connection_id d);
  do_session : is_Some (connection_id d) → linked (state d);
  do_transport : is_Some (transport d) → linked (state d);
  do_refreshing : refreshing d = true → state d = Connected
}.

(** A pending attempt is of this generation only while the slot is
    connecting. *)
Definition attempt_ok (a : Attempt) (d : SessionData) : Prop :=
  at_generation a ≤ generation d ∧ (at_generation a = generation d → state d = Connecting).

(** A new generation overtakes every attempt. *)
Lemma attempt_bumped a d d' : next_generation (generation d) = generation d + 1 → generation d' = next_generation (generation d) →
  attempt_ok a d → attempt_ok a d'.
Proof. unfold attempt_ok. intros E -> [? _]. rewrite E. split; lia. Qed.

Record app_inv (y : App) : Prop := {
  ai_data : ∀ s d, slots y !! s = Some d → data_ok d;
  ai_used : ∀ s d, slots y !! s = Some d → s ∈ used y;
  ai_host : ∀ h s, by_host y !! h = Some s → ∃ d, slots y !! s = Some d ∧ hs_host_id (view d) = h;
  ai_attempts : ∀ t a, connects y !! t = Some a → ∃ d, slots y !! at_slot a = Some d ∧ attempt_ok a d;
  ai_refreshes : ∀ t a, refreshes y !! t = Some a → is_Some (slots y !! at_slot a);
  ai_works : ∀ t w, disconnects y !! t = Some w → dw_host w ∈ guards y ∧
    ∃ d, slots y !! dw_slot w = Some d ∧ hs_host_id (view d) = dw_host w ∧ calm (state d);
  ai_works_apart : ∀ t t' w w', disconnects y !! t = Some w → disconnects y !! t' = Some w' → dw_host w = dw_host w' → t = t';
  ai_saves : ∀ t h s, saves y !! t = Some (h, s) →
    mutation y = true ∧ dom (saves y) = {[t]} ∧ h ∈ guards y ∧ (∀ t' w, disconnects y !! t' = Some w → dw_host w ≠ h) ∧
    ∃ d, slots y !! s = Some d ∧ hs_host_id (view d) = h ∧ busy_state (state d) = false
}.

(** A step that changes the data of slot [s] from [d] to [d']: what it must
    respect. *)
Record changes (s : SlotId) (d d' : SessionData) (y y' : App) : Prop := {
  ch_old : slots y !! s = Some d;
  ch_new : slots y' = <[s := d']> (slots y);
  ch_used : used y ⊆ used y';
  ch_ok : data_ok d';
  ch_host : hs_host_id (view d') = hs_host_id (view d);
  ch_by_host : ∀ h x, by_host y' !! h = Some x → by_host y !! h = Some x;
  ch_attempts : ∀ t a, connects y' !! t = Some a →
    (connects y !! t = Some a ∧ (at_slot a = s → attempt_ok a d → attempt_ok a d')) ∨ (at_slot a = s ∧ attempt_ok a d');
  ch_refreshes : ∀ t a, refreshes y' !! t = Some a → refreshes y !! t = Some a ∨ at_slot a = s;
  ch_guards : guards y ⊆ guards y';
  ch_calm : calm (state d) → calm (state d') ∨ hs_host_id (view d) ∉ guards y;
  ch_works : ∀ t w, disconnects y' !! t = Some w → disconnects y !! t = Some w ∨
    (disconnects y' = <[t := w]> (disconnects y) ∧ dw_slot w = s ∧ dw_host w = hs_host_id (view d) ∧ dw_host w ∉ guards y ∧
     dw_host w ∈ guards y' ∧ calm (state d'));
  ch_saves : saves y' ⊆ saves y;
  ch_lock : saves y' ≠ ∅ → mutation y' = mutation y ∧ (busy_state (state d) = false → busy_state (state d') = false)
}.

Lemma changes_inv s d d' y y' : changes s d d' y y' → app_inv y → app_inv y'.
Proof.
  intros [Ho Hn Hu Hok Hh Hb Ha Hr Hg Hc Hw Hs Hl] [I1 I2 I3 I4 I5 I6 I6' I7].
  assert (∀ x e, slots y !! x = Some e → ∃ e', slots y' !! x = Some e' ∧ hs_host_id (view e') = hs_host_id (view e) ∧ (x ≠ s → e' = e) ∧ (x = s → e' = d')) as Hsl.
  { intros x e He. rewrite Hn. destruct (decide (x = s)) as [->|Hne].
    - rewrite Ho in He. injection He as <-. exists d'. by rewrite lookup_insert_eq.
    - exists e. by rewrite lookup_insert_ne. }
  split.
  - intros x e. rewrite Hn. destruct (decide (x = s)) as [->|Hne]; [rewrite lookup_insert_eq; by intros [= <-]|].
    rewrite lookup_insert_ne by done. apply I1.
  - intros x e. rewrite Hn. destruct (decide (x = s)) as [->|Hne]; [intros _; by eapply Hu, I2|].
    rewrite lookup_insert_ne by done. intros He. by eapply Hu, I2.
  - intros h x Hx. destruct (I3 h x (Hb h x Hx)) as (e & He & Hhe). destruct (Hsl x e He) as (e' & ? & ? & _). exists e'. split; [done|congruence].
  - intros t a Hta. destruct (Ha t a Hta) as [[Hold Hk]|[Hs' Hk]].
    + destruct (I4 t a Hold) as (e & He & Hok'). destruct (Hsl _ e He) as (e' & He' & _ & Hne & Heq). exists e'. split; [done|].
      destruct (decide (at_slot a = s)) as [E|E]; [|by rewrite (Hne E)]. rewrite (Heq E). apply Hk; [done|].
      rewrite E, Ho in He. by injection He as <-.
    + rewrite Hs'. exists d'. split; [rewrite Hn; apply lookup_insert_eq|done].
  - intros t a Hta. destruct (Hr t a Hta) as [Hold|Hs'].
    + destruct (I5 t a Hold) as [e He]. destruct (Hsl _ e He) as (e' & ? & _). by exists e'.
    + rewrite Hs', Hn, lookup_insert_eq. done.
  - intros t w Hw'. destruct (Hw t w Hw') as [Hold|(_ & Hs' & Hhw & _ & Hg' & Hst)].
    + destruct (I6 t w Hold) as (Hgw & e & He & Hhe & Hne). split; [by apply Hg|]. destruct (Hsl _ e He) as (e' & ? & ? & Hx & Hy).
      exists e'. split; [done|]. split; [congruence|]. destruct (decide (dw_slot w = s)) as [E|E]; [|by rewrite (Hx E)].
      rewrite (Hy E). rewrite E, Ho in He. injection He as <-. destruct (Hc Hne) as [?|Hn']; [done|]. destruct Hn'. congruence.
    + split; [done|]. rewrite Hs'. exists d'. split; [rewrite Hn; apply lookup_insert_eq|]. split; [congruence|done].
  - intros t t' w w' H1 H2 Heq. destruct (Hw t w H1) as [O1|(E1 & _ & _ & N1 & _)], (Hw t' w' H2) as [O2|(E2 & _ & _ & N2 & _)].
    + by eapply I6'.
    + destruct (I6 t w O1) as [Hgw _]. congruence.
    + destruct (I6 t' w' O2) as [Hgw _]. congruence.
    + rewrite E1 in H2. destruct (decide (t = t')) as [|Hne]; [done|]. rewrite lookup_insert_ne in H2 by done.
      destruct (I6 t' w' H2) as [Hgw _]. congruence.
  - intros t h x Hx. assert (saves y !! t = Some (h, x)) as Hold by (by eapply lookup_weaken).
    destruct (I7 t h x Hold) as (Hm & Hd & Hgh & Hwh & e & He & Hhe & Hbe). destruct (Hl ltac:(by intros E; rewrite E in Hx)) as [Hm' Hb'].
    split; [by rewrite Hm'|]. split.
    + apply set_eq. intros i. split; [|by intros ->%elem_of_singleton; apply elem_of_dom_2 in Hx].
      intros Hi. rewrite <-Hd. apply (subseteq_dom _ _ Hs) in Hi. done.
    + split; [by apply Hg|]. split; [intros t' w Hw'; destruct (Hw t' w Hw') as [?|(_ & _ & _ & ? & _)]; [by eapply Hwh|congruence]|].
      destruct (Hsl x e He) as (e' & He' & Hhe' & Hne & Heq). exists e'. split; [done|]. split; [congruence|].
      destruct (decide (x = s)) as [E|E]; [|by rewrite (Hne E)]. rewrite (Heq E). rewrite E, Ho in He. injection He as <-. auto.
Qed.

(** The invariant does not look at tokens, guards, plans and pins. *)
Lemma inv_ext y y' :
  slots y' = slots y → used y ⊆ used y' → by_host y' = by_host y → connects y' = connects y → refreshes y' = refreshes y →
  disconnects y' = disconnects y → saves y' = saves y → mutation y' = mutation y → guards y' = guards y → app_inv y → app_inv y'.
Proof.
  intros H1 H2 H3 H4 H5 H6 H7 H8 H9 [I1 I2 I3 I4 I5 I6 I6' I7]. split; rewrite ?H1, ?H3, ?H4, ?H5, ?H6, ?H7, ?H8, ?H9; try done.
  intros s d Hs. by eapply H2, I2.
Qed.

(** What [slot] leaves alone. *)
Definition same_tasks (y y' : App) : Prop :=
  connects y' = connects y ∧ refreshes y' = refreshes y ∧ disconnects y' = disconnects y ∧ saves y' = saves y ∧
  mutation y' = mutation y ∧ used y' = used y ∧ guards y' = guards y ∧ marked y' = marked y ∧
  cancelled_tokens y' = cancelled_tokens y ∧ rotation_plans y' = rotation_plans y ∧ known_hosts y' = known_hosts y.

Lemma slot_new_ok h t : data_ok (slot_new h t).
Proof. split; try done; by intros [? ?]. Qed.

Lemma slot_inv h fr tk y s y' :
  slot h fr tk y = (s, y') → app_inv y → slots y !! fr = None → fr ∈ used y →
  app_inv y' ∧ same_tasks y y' ∧ slots y ⊆ slots y' ∧ by_host y ⊆ by_host y' ∧
  ∃ d, slots y' !! s = Some d ∧ data y' s = d ∧ hs_host_id (view d) = h ∧
    (slots y !! s = Some d ∨ slots y !! s = None ∧ d = slot_new h tk) ∧ by_host y' !! h = Some s ∧
    (by_host y !! h = Some s ∨ by_host y !! h = None ∧ s = fr).
Proof.
  unfold slot. intros H Hi Hf Hu. destruct (by_host y !! h) as [x|] eqn:Eb; injection H as <- <-.
  - destruct (ai_host _ Hi h x Eb) as (d & Hd & Hh). split; [done|]. split; [done|]. split; [done|]. split; [done|].
    exists d. unfold data. rewrite Hd. auto 10.
  - assert (slots y ⊆ <[fr := slot_new h tk]> (slots y)) as Hsub by (by apply insert_subseteq).
    assert (∀ x e, slots y !! x = Some e → <[fr := slot_new h tk]> (slots y) !! x = Some e) as Hw by (intros x e He; by eapply lookup_weaken).
    split; [|split; [done|]; split; [done|]; split; [by apply insert_subseteq|]].
    + destruct Hi as [I1 I2 I3 I4 I5 I6 I6' I7]. split; cbn; [| | | | | |done|].
      * intros x e. destruct (decide (x = fr)) as [->|Hne]; [rewrite lookup_insert_eq; intros [= <-]; apply slot_new_ok|].
        rewrite lookup_insert_ne by done. apply I1.
      * intros x e. destruct (decide (x = fr)) as [->|Hne]; [done|]. rewrite lookup_insert_ne by done. apply I2.
      * intros h' x. destruct (decide (h' = h)) as [->|Hne].
        -- rewrite lookup_insert_eq. intros [= <-]. exists (slot_new h tk). by rewrite lookup_insert_eq.
        -- rewrite lookup_insert_ne by done. intros Hx. destruct (I3 h' x Hx) as (e & ? & ?). eauto.
      * intros t a Ha. destruct (I4 t a Ha) as (e & ? & ?). eauto.
      * intros t a Ha. destruct (I5 t a Ha) as [e ?]. eauto.
      * intros t w Hw'. destruct (I6 t w Hw') as (? & e & ? & ? & ?). eauto 10.
      * intros t h' x Hx. destruct (I7 t h' x Hx) as (? & ? & ? & ? & e & ? & ?). eauto 10.
    + exists (slot_new h tk). unfold data. cbn. rewrite !lookup_insert_eq. auto 10.
Qed.

Lemma drop_rotation_inv y h : app_inv y → app_inv (drop_rotation y h).
Proof. by apply inv_ext. Qed.

(** Without the mutation lock no save is between its two pieces. *)
Lemma saves_free y : app_inv y → mutation y = false → saves y = ∅.
Proof.
  intros Hi Hm. apply map_empty. intros t. destruct (saves y !! t) as [[h s]|] eqn:E; [|done].
  destruct (ai_saves _ Hi t h s E) as [? _]. congruence.
Qed.

Lemma fresh_slot f : fr_slot f ∈ fresh_ids f.
Proof. unfold fresh_ids. rewrite !elem_of_union, !elem_of_singleton. auto. Qed.

(** The drawn identities are new to the slots. *)
Lemma draw_inv f y : app_inv y → is_fresh f y →
  app_inv (draw y (fresh_ids f)) ∧ slots (draw y (fresh_ids f)) !! fr_slot f = None ∧ fr_slot f ∈ used (draw y (fresh_ids f)).
Proof.
  intros Hi [Hf _]. split; [|split].
  - apply (inv_ext y); try done. apply union_subseteq_r.
  - cbn. destruct (slots y !! fr_slot f) eqn:E; [|done]. apply (ai_used _ Hi) in E. by destruct (Hf (fr_slot f) (fresh_slot f) E).
  - apply elem_of_union_l, fresh_slot.
Qed.

Lemma connect_begin_inv h f pre y : below y → app_inv y → slots y !! fr_slot f = None → fr_slot f ∈ used y →
  free h y → app_inv (connect_begin h f pre y).2.
Proof.
  intros Hbl Hi Hf Hu [Hgu Hm]. unfold connect_begin. destruct pre as [[]|e]; [|done].
  destruct (slot h (fr_slot f) (fr_slot_token f) (drop_rotation y h)) as [s y0] eqn:Es.
  destruct (slot_inv _ _ _ _ _ _ Es) as (Hi0 & Hst & _ & _ & d & Hd & Hdd & Hh & _ & _ & _); [by apply drop_rotation_inv|done|done|].
  rewrite Hdd. destruct (busy_state (state d)) eqn:Eb; [done|]. unfold transition. destruct (transition_allowed _ _); [|done]. cbn [snd].
  eapply (changes_inv s d); [|exact Hi0]. split; try done; cbn.
  - split; try done; by intros [? ?].
  - intros t a. destruct (decide (t = fr_task f)) as [->|Hne].
    + rewrite lookup_insert_eq. intros [= <-]. right. done.
    + rewrite lookup_insert_ne by done. intros Ha. left. split; [done|]. intros _. apply attempt_bumped; [|done].
      by eapply below_lookup, Hd; eapply below_slot.
  - intros t a Ha. by left.
  - intros _. right. rewrite Hh. destruct Hst as (_ & _ & _ & _ & _ & _ & -> & _). done.
  - intros t w Hw. by left.
  - destruct Hst as (_ & _ & _ & _ & Hmu & _). by rewrite (saves_free _ Hi0) by (by rewrite Hmu).
Qed.

(** A slot that is not connecting has no attempt of its generation. *)
Lemma attempt_idle a d d' : generation d' = generation d → state d ≠ Connecting → attempt_ok a d → attempt_ok a d'.
Proof. unfold attempt_ok. intros -> Hn [? H]. split; [done|]. intros E. by destruct (Hn (H E)). Qed.

(** Dropping a finished task. *)
Lemma drop_connect_inv y t : app_inv y → app_inv (set_connects y (delete t (connects y))).
Proof.
  intros [I1 I2 I3 I4 I5 I6 I6' I7]. split; try done. cbn. intros t' a [_ Ha]%lookup_delete_Some. eauto.
Qed.

(** [attempt_ok] when neither the generation nor the state changes. *)
Lemma attempt_same a d d' : generation d' = generation d → state d' = state d → attempt_ok a d → attempt_ok a d'.
Proof. unfold attempt_ok. by intros -> ->. Qed.

(** No two attempts on a slot are of the same generation. *)
Definition distinct (y : App) : Prop := ∀ t t' a a', connects y !! t = Some a → connects y !! t' = Some a' →
  at_slot a = at_slot a' → at_generation a = at_generation a' → t = t'.

Lemma distinct_sub y y' : connects y' ⊆ connects y → distinct y → distinct y'.
Proof. intros Hs Hd t t' a a' H1 H2. apply Hd; by eapply lookup_weaken. Qed.

Lemma connect_finish_inv t fresh outcome audit r y y' :
  connect_finish t fresh outcome audit y = Some (r, y') → app_inv y → distinct y → app_inv y'.
Proof.
  unfold connect_finish. intros H Hi Huniq. destruct (connects y !! t) as [a|] eqn:Ea; [|done].
  destruct (ai_attempts _ Hi t a Ea) as (d & Hd & Hle & Hcur). unfold data in H. rewrite Hd in H. cbn [default from_option id] in H.
  pose proof (drop_connect_inv y t Hi) as Hi1. injection H as H.
  destruct (bool_decide (generation d ≠ at_generation a)) eqn:Eg; [by injection H as _ <-|]. split_bools. apply dec_stable in Eg.
  cbn [orb] in H. destruct (bool_decide (at_token a ∈ _)); [by injection H as _ <-|].
  assert (∀ t' a', connects (set_connects y (delete t (connects y))) !! t' = Some a' → at_slot a' = at_slot a →
    at_generation a' ≠ generation d) as Hother.
  { cbn. intros t' a' [Hne Ha']%lookup_delete_Some Hs. rewrite Eg. intros Heq. apply Hne. by eapply Huniq. }
  assert (∀ d', data_ok d' → hs_host_id (view d') = hs_host_id (view d) → generation d' = generation d → state d = Connecting →
    app_inv (put (set_connects y (delete t (connects y))) (at_slot a) d')) as Hput.
  { intros d' Hok Hh Hg Hbusy. eapply (changes_inv (at_slot a) d); [|exact Hi1]. split; try done.
    - intros t' a' Ha'. left. split; [done|]. intros Hs [H1 _]. split; [by rewrite Hg|]. rewrite Hg. intros Heq. by destruct (Hother t' a' Ha' Hs).
    - by left.
    - by intros [? _].
    - by left.
    - intros _. split; [done|]. by rewrite Hbusy. }
  specialize (Hcur (eq_sym Eg)). destruct (ai_data _ Hi _ _ Hd) as [D1 D2 D3 D4 D5].
  assert (connection_id d = None) as Hcn.
  { destruct (connection_id d) eqn:E; [|done]. destruct (D3 (mk_is_Some _ _ eq_refl)); congruence. }
  assert (refreshing d = false) as Hrf by (destruct (refreshing d); [specialize (D5 eq_refl); congruence|done]).
  rewrite Hcur in H. destruct outcome as [[[tr snapshot] ident]|error].
  - cbn in H. injection H as _ <-. apply Hput; try done. split; cbn; try done.
    + intros _. by left.
    + intros _. by left.
  - set (st := if bool_decide (code error = UnknownHostKey) then AwaitingTrust else Failed) in *.
    assert (transition Connecting st = Ok st) as Et by (unfold st; by destruct (bool_decide (code error = UnknownHostKey))).
    rewrite Et in H. injection H as _ <-. apply Hput; try done.
    split; cbn; rewrite ?Hcn, ?Hrf; try done; try (by intros [? ?]).
    + by rewrite D1.
    + unfold st. by destruct (bool_decide (code error = UnknownHostKey)).
Qed.

Lemma prepare_disconnect_inv h del f pre y : below y → app_inv y → slots y !! fr_slot f = None → fr_slot f ∈ used y →
  free h y → app_inv (prepare_disconnect h del f pre y).2.
Proof.
  intros Hbl Hi Hf Hu [Hgu Hm]. unfold prepare_disconnect. destruct pre as [[]|e]; [|done].
  destruct (slot h (fr_slot f) (fr_slot_token f) (drop_rotation y h)) as [s y0] eqn:Es.
  destruct (slot_inv _ _ _ _ _ _ Es) as (Hi0 & Hst & _ & _ & d & Hd & Hdd & Hh & _ & _ & _); [by apply drop_rotation_inv|done|done|].
  rewrite Hdd. set (y1 := if bool_decide (state d = Connecting) then cancel_token y0 (cancel d) else y0).
  assert (slots y1 = slots y0 ∧ used y1 = used y0 ∧ by_host y1 = by_host y0 ∧ connects y1 = connects y0 ∧ refreshes y1 = refreshes y0 ∧
    disconnects y1 = disconnects y0 ∧ saves y1 = saves y0 ∧ mutation y1 = mutation y0) as (E1 & E2 & E3 & E4 & E5 & E6 & E7 & E8)
    by (unfold y1; by destruct (bool_decide _)).
  assert (saves y0 = ∅) as Hsv by (destruct Hst as (_ & _ & _ & _ & Hmu & _); apply (saves_free _ Hi0); by rewrite Hmu).
  destruct (ai_data _ Hi0 _ _ Hd) as [D1 D2 D3 D4 D5].
  assert (∀ st, (match state d with Connecting | Connected => Ok Disconnecting | x => Ok x end : Res ConnectionState) = Ok st →
    (is_Some (connection_id d) → linked st) ∧ (is_Some (transport d) → linked st) ∧ (st ≠ Connected)) as Hst'.
  { intros st. destruct (state d) eqn:E; intros [= <-]; split_and!; try done; try (intros Hx; specialize (D3 Hx) || specialize (D4 Hx)); try done;
      try (by right); try (by destruct D3); try (by destruct D4). }
  assert (match state d with Connecting | Connected => transition (state d) Disconnecting | s0 => Ok s0 end =
          (match state d with Connecting | Connected => Ok Disconnecting | x => Ok x end : Res ConnectionState)) as -> by (by destruct (state d)).
  destruct (match state d with Connecting | Connected => _ | _ => _ end) as [st|e] eqn:En; [|by destruct (state d)].
  destruct (Hst' st eq_refl) as (S1 & S2 & S3). cbn [snd].
  assert (guards y1 = guards y0) as E9 by (unfold y1; by destruct (bool_decide _)).
  assert (h ∉ guards y0) as Hgu0 by (destruct Hst as (_ & _ & _ & _ & _ & _ & -> & _); done).
  assert (calm st) as Hnc by (destruct (state d); injection En as <-; by split).
  eapply (changes_inv s d); [|exact Hi0]. split; cbn; rewrite ?E1, ?E2, ?E3, ?E4, ?E5, ?E6, ?E7, ?E8, ?E9; try done.
  - intros t a Ha. left. split; [done|]. intros _. apply attempt_bumped; [|done]. by eapply below_lookup, Hd; eapply below_slot.
  - by left.
  - apply union_subseteq_r.
  - by left.
  - intros t w. destruct (decide (t = fr_task f)) as [->|Hne].
    + rewrite lookup_insert_eq. intros [= <-]. right. cbn. rewrite Hh. split_and!; try done. apply elem_of_union_l, elem_of_singleton. done.
    + rewrite lookup_insert_ne by done. by left.
Qed.

(** Data without a session, in a state that holds none. *)
Lemma unlinked_ok v g c : hs_session_id v = None → hs_state v ≠ Connected →
  data_ok {| view := v; generation := g; cancel := c; transport := None; connection_id := None; refreshing := false |}.
Proof. intros H1 H2. split; cbn; try done; by intros [? ?]. Qed.

(** Ending a disconnect gives its guard back. *)
Lemma drop_work_inv y t w : app_inv y → disconnects y !! t = Some w →
  app_inv (set_disconnects y (delete t (disconnects y)) (guards y ∖ {[dw_host w]})).
Proof.
  intros [I1 I2 I3 I4 I5 I6 I6' I7] Hw. split; try done; cbn.
  - intros t' w' [Hne Hw']%lookup_delete_Some. destruct (I6 t' w' Hw') as [Hg Hd]. split; [|done].
    apply elem_of_difference. split; [done|]. intros E%elem_of_singleton. apply Hne. by eapply I6'.
  - intros t1 t2 w1 w2 [_ W1]%lookup_delete_Some [_ W2]%lookup_delete_Some. by eapply I6'.
  - intros t' h s Hs. destruct (I7 t' h s Hs) as (Hm & Hdm & Hg & Hn & Hx). split; [done|]. split; [done|]. split; [|split; [|done]].
    + apply elem_of_difference. split; [done|]. intros E%elem_of_singleton. by apply (Hn t w Hw).
    + intros t1 w1 [_ W1]%lookup_delete_Some. by eapply Hn.
Qed.

(** A change of one slot that touches no task: the generation stays, or every
    attempt is overtaken. *)
Lemma change_slot_inv s d d' y y' :
  app_inv y → slots y !! s = Some d → slots y' = <[s := d']> (slots y) → data_ok d' →
  hs_host_id (view d') = hs_host_id (view d) →
  (∀ t a, connects y !! t = Some a → at_slot a = s → attempt_ok a d → attempt_ok a d') →
  (calm (state d) → calm (state d')) → (busy_state (state d) = false → busy_state (state d') = false) →
  used y' = used y → (∀ h x, by_host y' !! h = Some x → by_host y !! h = Some x) → connects y' = connects y → refreshes y' ⊆ refreshes y →
  disconnects y' = disconnects y → saves y' = saves y → mutation y' = mutation y → guards y' = guards y → app_inv y'.
Proof.
  intros Hi Hd Hn Hok Hh Hg Hc Hb E2 E3 E4 E5 E6 E7 E8 E9. eapply (changes_inv s d); [|exact Hi].
  split; rewrite ?E2, ?E4, ?E6, ?E7, ?E8, ?E9; try done.
  - intros t a Ha. left. split; [done|]. by eapply Hg.
  - intros t a Ha. left. by eapply lookup_weaken.
  - auto.
  - intros t w Hw. by left.
Qed.

Lemma finish_disconnect_inv t sftp bye audit removed r y y' :
  finish_disconnect t sftp bye audit removed y = Some (r, y') → app_inv y → app_inv y'.
Proof.
  unfold finish_disconnect. intros H Hi. destruct (disconnects y !! t) as [w|] eqn:Ew; [|done].
  destruct (ai_works _ Hi t w Ew) as (_ & d & Hd & Hh & Hnc). unfold data in H. rewrite Hd in H. cbn [default from_option id] in H.
  pose proof (drop_work_inv y t w Hi Ew) as Hi0. pose proof (ai_data _ Hi _ _ Hd) as Hok.
  set (y0 := set_disconnects y (delete t (disconnects y)) (guards y ∖ {[dw_host w]})) in *. injection H as H.
  destruct (match dw_connection_id w with Some _ => sftp | None => Ok tt end) as [[]|e].
  - set (d' := {| view := disconnected (dw_host w); generation := generation d; cancel := cancel d; transport := None; connection_id := None;
                  refreshing := refreshing d |}) in *.
    assert (refreshing d = false) as Hr.
    { destruct (refreshing d) eqn:E; [|done]. destruct Hnc as [_ []]. by apply (do_refreshing _ Hok). }
    assert (app_inv (put (cancel_token y0 (cancel d)) (dw_slot w) d')) as Hi1.
    { eapply (change_slot_inv (dw_slot w) d d' y0); try done.
      - unfold d'. rewrite Hr. by apply unlinked_ok.
      - intros t' a _ _. apply attempt_idle; [done|apply Hnc]. }
    assert (∀ x, app_inv (set_by_host (drop_rotation (put (cancel_token y0 (cancel d)) (dw_slot w) d') x)
      (delete x (by_host (put (cancel_token y0 (cancel d)) (dw_slot w) d'))))) as Hi2.
    { intros x. destruct Hi1 as [I1 I2 I3 I4 I5 I6 I6' I7]. split; try done. cbn. intros h z [_ Hz]%lookup_delete_Some. by apply I3. }
    destruct (mbind _ _) as [[]|e]; [|by injection H as _ <-].
    destruct (dw_delete w); [|by injection H as _ <-]. destruct removed; injection H as _ <-; [apply Hi2|done].
  - injection H as _ <-. eapply (change_slot_inv (dw_slot w) d _ y0); try done.
    destruct Hok as [D1 D2 D3 D4 D5]. by split.
Qed.

(** A piece that starts by finding its slot: the facts it works with. *)
Lemma slot_facts h f y s y0 : slot h (fr_slot f) (fr_slot_token f) y = (s, y0) → app_inv y → slots y !! fr_slot f = None →
  fr_slot f ∈ used y → app_inv y0 ∧ same_tasks y y0 ∧ ∃ d, slots y0 !! s = Some d ∧ data y0 s = d ∧ hs_host_id (view d) = h.
Proof.
  intros Es Hi Hf Hu. destruct (slot_inv _ _ _ _ _ _ Es Hi Hf Hu) as (Hi0 & Hst & _ & _ & d & Hd & Hdd & Hh & _). eauto 10.
Qed.

Lemma remote_closed_inv h f b y : below y → app_inv y → slots y !! fr_slot f = None → fr_slot f ∈ used y → app_inv (remote_closed h f b y).2.
Proof.
  intros Hbl Hi Hf Hu. unfold remote_closed. destruct (slot h (fr_slot f) (fr_slot_token f) y) as [s y0] eqn:Es.
  destruct (slot_facts _ _ _ _ _ Es Hi Hf Hu) as (Hi0 & _ & d & Hd & Hdd & Hh). rewrite Hdd. clear Hdd.
  destruct (_ && _ && bool_decide (state d = Connected)) eqn:Ec; [|done]. split_bools. cbn [snd].
  eapply (change_slot_inv s d _ y0); try done.
  - by apply unlinked_ok.
  - intros t a _ _. apply attempt_bumped; [|done]. by eapply below_lookup, Hd; eapply below_slot.
Qed.

Lemma refresh_begin_inv h f repo y : app_inv y → slots y !! fr_slot f = None → fr_slot f ∈ used y → app_inv (refresh_begin h f repo y).2.
Proof.
  intros Hi Hf Hu. unfold refresh_begin. destruct repo as [[]|e]; [|done]. destruct (slot h (fr_slot f) (fr_slot_token f) y) as [s y0] eqn:Es.
  destruct (slot_facts _ _ _ _ _ Es Hi Hf Hu) as (Hi0 & _ & d & Hd & Hdd & Hh). rewrite Hdd. clear Hdd.
  destruct (bool_decide (state d ≠ Connected) || refreshing d) eqn:Ec; [done|]. split_bools. apply dec_stable in H.
  destruct (transport d) as [tr|] eqn:Et; [|done]. cbn [snd]. eapply (changes_inv s d); [|exact Hi0].
  destruct (ai_data _ Hi0 _ _ Hd) as [D1 D2 D3 D4 D5]. split; cbn; try done.
  - rewrite <-Et. by split.
  - intros t a Ha. left. split; [done|]. intros _. by apply attempt_same.
  - intros t a. destruct (decide (t = fr_task f)) as [->|Hne]; [|rewrite lookup_insert_ne by done; by left].
    rewrite lookup_insert_eq. intros [= <-]. by right.
  - by left.
  - by left.
Qed.

Lemma refresh_finish_inv t result audit r y y' : refresh_finish t result audit y = Some (r, y') → app_inv y → app_inv y'.
Proof.
  unfold refresh_finish. intros H Hi. destruct (refreshes y !! t) as [a|] eqn:Ea; [|done]. injection H as H.
  destruct (ai_refreshes _ Hi t a Ea) as [d Hd]. unfold data in H. rewrite Hd in H. cbn [default from_option id] in H.
  assert (app_inv (set_refreshes y (delete t (refreshes y)))) as Hi0.
  { destruct Hi as [I1 I2 I3 I4 I5 I6 I6' I7]. split; try done. cbn. intros t' a' [_ Ha']%lookup_delete_Some. by eapply I5. }
  destruct (ai_data _ Hi _ _ Hd) as [D1 D2 D3 D4 D5].
  destruct (_ || _); [by injection H as _ <-|].
  destruct result as [snapshot|e]; injection H as _ <-; eapply (change_slot_inv (at_slot a) d _ _); try done; try (by split);
    intros t' a' _ _; by apply attempt_same.
Qed.

Lemma save_begin_inv h f pre y : app_inv y → slots y !! fr_slot f = None → fr_slot f ∈ used y → free h y → app_inv (save_begin h f pre y).2.
Proof.
  intros Hi Hf Hu [Hg Hm]. unfold save_begin. destruct pre as [[]|e]; [|done]. destruct (slot h (fr_slot f) (fr_slot_token f) y) as [s y0] eqn:Es.
  destruct (slot_facts _ _ _ _ _ Es Hi Hf Hu) as (Hi0 & Hst & d & Hd & Hdd & Hh). rewrite Hdd. clear Hdd.
  destruct (busy_state (state d)) eqn:Eb; [done|]. cbn [snd].
  destruct Hst as (_ & _ & _ & _ & Hmu & _ & Hgu & _).
  assert (saves y0 = ∅) as Hs by (apply (saves_free _ Hi0); by rewrite Hmu). destruct Hi0 as [I1 I2 I3 I4 I5 I6 I6' I7]. split; try done; cbn.
  - intros t w Hw. destruct (I6 t w Hw) as [Hgw Hx]. split; [by apply elem_of_union_r|done].
  - intros t h' x. rewrite Hs. destruct (decide (t = fr_task f)) as [->|Hne]; [|by rewrite lookup_insert_ne, lookup_empty].
    rewrite lookup_insert_eq. intros [= <- <-]. split; [done|]. split; [rewrite dom_insert_L, dom_empty_L; apply union_empty_r_L|].
    split; [by apply elem_of_union_l, elem_of_singleton|]. split; [|by eauto].
    intros t' w Hw E. destruct (I6 t' w Hw) as [Hgw _]. by rewrite E, Hgu in Hgw.
Qed.

Lemma save_commit_inv t commit rest r y y' : save_commit t commit rest y = Some (r, y') → below y → app_inv y → app_inv y'.
Proof.
  unfold save_commit. intros H Hbl Hi. destruct (saves y !! t) as [[h s]|] eqn:Ea; [|done]. injection H as H.
  destruct (ai_saves _ Hi t h s Ea) as (Hm & Hdom & Hg & Hn & d & Hd & Hh & Hb).
  set (y0 := set_saves y (delete t (saves y)) (guards y ∖ {[h]}) false) in *.
  assert (saves y0 = ∅) as Hs.
  { cbn. apply dom_empty_inv_L. rewrite dom_delete_L, Hdom. apply difference_diag_L. }
  assert (app_inv y0) as Hi0.
  { destruct Hi as [I1 I2 I3 I4 I5 I6 I6' I7]. split; try done; cbn.
    - intros t' w Hw. destruct (I6 t' w Hw) as [Hgw Hx]. split; [|done]. apply elem_of_difference. split; [done|].
      intros E%elem_of_singleton. by apply (Hn t' w).
    - intros t' h' x Hx. change (saves y0 !! t' = Some (h', x)) in Hx. by rewrite Hs in Hx. }
  destruct commit as [[]|e]; injection H as _ <-; [|done].
  assert (data (drop_rotation y0 h) s = d) as -> by (unfold data; cbn; by rewrite Hd).
  destruct (ai_data _ Hi _ _ Hd) as [D1 D2 D3 D4 D5].
  assert (transport d = None ∧ refreshing d = false) as [Ht Hr].
  { split; [destruct (transport d); [destruct (D4 (mk_is_Some _ _ eq_refl)) as [E|E]; by rewrite E in Hb|done]|].
    destruct (refreshing d); [rewrite D5 in Hb|]; done. }
  eapply (change_slot_inv s d _ y0); try done; cbn.
  - rewrite Ht, Hr. by apply unlinked_ok.
  - intros t' a _ _. apply attempt_bumped; [by eapply below_lookup|done].
Qed.

Lemma shutdown_mark_inv s y : below y → app_inv y → app_inv (shutdown_mark s y).
Proof.
  intros Hbl Hi. unfold shutdown_mark. set (y0 := set_identity _ _ _).
  assert (app_inv y0) as Hi0 by (by apply (inv_ext y)). destruct (slots y0 !! s) as [d|] eqn:Ed; [|done].
  destruct (ai_data _ Hi0 _ _ Ed) as [D1 D2 D3 D4 D5].
  match goal with |- app_inv (put _ _ ?e) => eapply (change_slot_inv s d e y0); try done; try (by destruct (bool_decide _)); cbn end.
  - split; cbn; try done.
    + destruct (state d); done.
    + intros Hx. destruct (D3 Hx) as [-> | ->]; by right.
    + intros Hx. destruct (D4 Hx) as [-> | ->]; by right.
  - intros t' a _ _. apply attempt_bumped; [by eapply below_lookup|done].
  - intros [H1 H2]. split; by destruct (state d).
  - by destruct (state d).
Qed.

(** The slots a shutdown has begun with have only overtaken attempts. *)
Definition marked_stale (y : App) : Prop := ∀ t a d, connects y !! t = Some a → at_slot a ∈ marked y →
  slots y !! at_slot a = Some d → at_generation a < generation d.

Lemma shutdown_clear_inv s y : app_inv y → marked_stale y → s ∈ marked y → app_inv (shutdown_clear s y).
Proof.
  intros Hi Hms Hs. unfold shutdown_clear. destruct (slots y !! s) as [d|] eqn:Ed; [|done].
  eapply (change_slot_inv s d _ y); try done.
  - by apply unlinked_ok.
  - intros t a Ha <- [H1 _]. split; [done|]. cbn. pose proof (Hms t a d Ha Hs Ed). lia.
Qed.

Lemma set_identity_inv y r k : app_inv y → app_inv (set_identity y r k).
Proof. by apply inv_ext. Qed.

Lemma trust_host_key_inv h c f repo fault audit y : app_inv y → slots y !! fr_slot f = None → fr_slot f ∈ used y →
  app_inv (trust_host_key h c f repo fault audit y).2.
Proof.
  intros Hi Hf Hu. unfold trust_host_key. destruct repo as [host|e]; [|done].
  destruct (slot h (fr_slot f) (fr_slot_token f) y) as [s y0] eqn:Es.
  destruct (slot_facts _ _ _ _ _ Es Hi Hf Hu) as (Hi0 & _ & d & Hd & Hdd & Hh). rewrite Hdd. clear Hdd.
  destruct (bool_decide (state d ≠ AwaitingTrust) || _ || _) eqn:Ec; [done|]. split_bools.
  match goal with H : ¬ state d ≠ AwaitingTrust |- _ => apply dec_stable in H as Est end.
  destruct (trust fault (known_hosts y0) c) as [k|e]; [|done]. rewrite Est. cbn [transition transition_allowed snd].
  destruct (ai_data _ Hi0 _ _ Hd) as [D1 D2 D3 D4 D5]. rewrite Est in D3, D4, D5.
  eapply (change_slot_inv s d _ (set_identity y0 (delete h (rotation_plans y0)) k)); try done.
  - by apply set_identity_inv.
  - split; cbn; try done.
    + intros Hx. by destruct (D3 Hx).
    + intros Hx. by destruct (D4 Hx).
    + intros Hx. by specialize (D5 Hx).
  - intros t a _ _. apply attempt_idle; [done|]. by rewrite Est.
Qed.

Lemma plan_rotation_inv h id f repo fault clock now y : app_inv y → slots y !! fr_slot f = None → fr_slot f ∈ used y →
  app_inv (plan_rotation h id f repo fault clock now y).2.
Proof.
  intros Hi Hf Hu. unfold plan_rotation. destruct (stored_host repo) as [host|e]; [|by apply drop_rotation_inv].
  destruct (slot h (fr_slot f) (fr_slot_token f) (drop_rotation y h)) as [s y0] eqn:Es.
  destruct (slot_facts _ _ _ _ _ Es) as (Hi0 & _ & _); [by apply drop_rotation_inv|done|done|].
  destruct (mbind _ _) as [plan|e]; [|done]. by apply set_identity_inv.
Qed.

(** A rotation acts only on the failed session it was planned for. *)
Lemma rotation_body_state h a repo fault now k d k' : rotation_body h a repo fault now k d = Ok k' →
  state d = Failed ∧ generation d = ra_generation a ∧ now < ra_expires_at a ∧ rp_host_id (ra_plan a) = h ∧
  rotate fault k (rp_hostname (ra_plan a)) (rp_port (ra_plan a)) (rp_current (ra_plan a)) (rp_presented (ra_plan a)) = Ok k'.
Proof.
  unfold rotation_body. intros H. apply bind_ok in H as (_ & He%ensure_ok & H). apply bind_ok in H as (host & _ & H).
  apply bind_ok in H as (canonical & _ & H). apply bind_ok in H as (_ & Hp%ensure_ok & H). apply bind_ok in H as (_ & Hg%ensure_ok & H).
  apply bind_ok in H as (c & Hc & H). apply bind_ok in H as (_ & _ & H). apply bind_ok in H as (stored & _ & H).
  apply bind_ok in H as (_ & _ & H). unfold changed_challenge in Hc. apply bind_ok in Hc as (_ & Hs%ensure_ok & _). split_bools.
  repeat match goal with H : ¬ _ ≠ _ |- _ => apply dec_stable in H end. done.
Qed.

Lemma execute_rotation_inv h id f repo fault now audit y : below y → app_inv y → slots y !! fr_slot f = None → fr_slot f ∈ used y →
  app_inv (execute_rotation h id f repo fault now audit y).2.
Proof.
  intros Hbl Hi Hf Hu. unfold execute_rotation. destruct (rotation_plans y !! h) as [a|]; [|done].
  destruct (bool_decide _); [done|]. destruct (slot h (fr_slot f) (fr_slot_token f) (drop_rotation y h)) as [s y0] eqn:Es.
  destruct (slot_facts _ _ _ _ _ Es) as (Hi0 & _ & d & Hd & Hdd & Hh); [by apply drop_rotation_inv|done|done|]. rewrite Hdd. clear Hdd.
  destruct (rotation_body h a repo fault now (known_hosts y0) d) as [k|e] eqn:Eb; [|done].
  apply rotation_body_state in Eb as [Est _]. cbn [snd].
  eapply (change_slot_inv s d _ (set_identity y0 (rotation_plans y0) k)); try done.
  - by apply set_identity_inv.
  - by apply unlinked_ok.
  - intros t a' _ _. apply attempt_bumped; [|done]. by eapply below_lookup, Hd; eapply below_slot.
Qed.
