(* ===== verification/SessionsSafe.v ===== *)
(** The session state machine of the application: a disconnect overtakes every
    earlier connection attempt, the current attempt always decides, and host
    keys change only as the user reviewed. *)

From S2P Require Import Prelude Str Model Ip IpText Hosts Prog Interp SshChannel KnownHosts KnownHostsSafe Sessions SessionsInv.

(** ** How a slot moves *)

(** A generation never goes back, and a slot that is neither connecting nor
    connected stays so unless an attempt of a newer generation is begun. *)
Definition moves (s : SlotId) (y y' : App) : Prop := ∀ d, slots y !! s = Some d → ∃ d', slots y' !! s = Some d' ∧
  generation d ≤ generation d' ∧
  (calm (state d) → calm (state d') ∨ ∃ t a, connects y' !! t = Some a ∧ at_slot a = s ∧ generation d < at_generation a).

(** What every piece but the start of a connection and of a shutdown respects. *)
Record frame (y y' : App) : Prop := {
  fr_moves : ∀ s, moves s y y';
  fr_connects : connects y' ⊆ connects y;
  fr_marked : marked y' = marked y
}.

Lemma frame_refl y : frame y y.
Proof. split; [|done|done]. intros s d Hd. exists d. auto with lia. Qed.

(** A change that leaves the slots alone. *)
Lemma frame_same y y' : slots y' = slots y → connects y' ⊆ connects y → marked y' = marked y → frame y y'.
Proof. intros H1 H2 H3. split; [|done|done]. intros s d Hd. exists d. rewrite H1. auto with lia. Qed.

Lemma moves_put s d d' y y' : slots y !! s = Some d → slots y' = <[s := d']> (slots y) → generation d ≤ generation d' →
  (calm (state d) → calm (state d')) → ∀ x, moves x y y'.
Proof.
  intros Hd Hn Hg Hc x e He. rewrite Hn. destruct (decide (x = s)) as [->|Hne].
  - rewrite Hd in He. injection He as <-. exists d'. rewrite lookup_insert_eq. auto.
  - exists e. rewrite lookup_insert_ne by done. auto with lia.
Qed.

Lemma frame_put s d d' y y' : slots y !! s = Some d → slots y' = <[s := d']> (slots y) → generation d ≤ generation d' →
  (calm (state d) → calm (state d')) → connects y' ⊆ connects y → marked y' = marked y → frame y y'.
Proof. intros ? ? ? ? ? ?. split; [|done|done]. by eapply moves_put. Qed.

(** Finding or creating a slot first. *)
Lemma frame_slot h fr tk y s y0 y' : slot h fr tk y = (s, y0) → slots y !! fr = None → frame y0 y' → frame y y'.
Proof.
  intros Es Hf [F1 F2 F3]. assert (slots y ⊆ slots y0 ∧ connects y0 = connects y ∧ marked y0 = marked y) as (H1 & H2 & H3).
  { unfold slot in Es. destruct (by_host y !! h); injection Es as <- <-; [done|]. split; [by apply insert_subseteq|done]. }
  split; [|by rewrite <-H2|by rewrite <-H3]. intros x d Hd. apply F1. by eapply lookup_weaken.
Qed.

Lemma frame_drop y y' h : frame (drop_rotation y h) y' → frame y y'.
Proof. by intros [F1 F2 F3]. Qed.

(** From the data a slot lookup yields. *)
Lemma data_some y s d : slots y !! s = Some d → data y s = d.
Proof. unfold data. by intros ->. Qed.

Lemma connect_finish_frame t fresh outcome audit r y y' :
  connect_finish t fresh outcome audit y = Some (r, y') → app_inv y → frame y y'.
Proof.
  unfold connect_finish. intros H Hi. destruct (connects y !! t) as [a|] eqn:Ea; [|done].
  destruct (ai_attempts _ Hi t a Ea) as (d & Hd & _ & Hcur). rewrite (data_some _ _ _ Hd) in H. injection H as H.
  assert (frame y (set_connects y (delete t (connects y)))) as F0 by (apply frame_same; [done|apply delete_subseteq|done]).
  destruct (bool_decide (generation d ≠ at_generation a)) eqn:Eg; [by injection H as _ <-|]. split_bools. apply dec_stable in Eg.
  specialize (Hcur (eq_sym Eg)). cbn [orb] in H. destruct (bool_decide (at_token a ∈ _)); [by injection H as _ <-|].
  destruct outcome as [[[tr snap] ident]|e]; destruct (transition _ _); injection H as _ <-; try done;
    (eapply (frame_put (at_slot a) d); [done|done|done|by intros [[] _]|apply delete_subseteq|done]).
Qed.

Lemma prepare_disconnect_frame h del f pre y : below y → app_inv y → slots y !! fr_slot f = None → fr_slot f ∈ used y →
  frame y (prepare_disconnect h del f pre y).2.
Proof.
  intros Hbl Hi Hf Hu. unfold prepare_disconnect. destruct pre as [[]|e]; [|apply frame_refl].
  destruct (slot h (fr_slot f) (fr_slot_token f) (drop_rotation y h)) as [s y0] eqn:Es.
  destruct (slot_facts _ _ _ _ _ Es) as (Hi0 & _ & d & Hd & Hdd & _); [by apply drop_rotation_inv|done|done|]. rewrite Hdd.
  apply (frame_drop _ _ h), (frame_slot _ _ _ _ s y0 _ Es); [done|].
  pose proof (below_lookup _ _ _ (below_slot _ _ _ _ _ _ Es Hbl) Hd) as Eg.
  destruct (bool_decide (state d = Connecting)); (destruct (match state d with Connecting | Connected => _ | s => Ok s end) as [st|e] eqn:En; cbn [snd];
    [eapply (frame_put s d); [done|done|cbn; lia| |done|done]|eapply (frame_put s d); [done|done|cbn; lia|done|done|done]]);
    cbn; intros [H1 H2]; unfold state in *; cbn; destruct (hs_state (view d)); try done; by injection En as <-.
Qed.

Lemma finish_disconnect_frame t sftp bye audit removed r y y' :
  finish_disconnect t sftp bye audit removed y = Some (r, y') → app_inv y → frame y y'.
Proof.
  unfold finish_disconnect. intros H Hi. destruct (disconnects y !! t) as [w|] eqn:Ew; [|done].
  destruct (ai_works _ Hi t w Ew) as (_ & d & Hd & _ & _). rewrite (data_some _ _ _ Hd) in H. injection H as H.
  destruct (match dw_connection_id w with Some _ => sftp | None => Ok tt end) as [[]|e].
  - destruct (mbind _ _) as [[]|e]; [destruct (dw_delete w); [destruct removed|]|]; injection H as _ <-;
      (eapply (frame_put (dw_slot w) d); [done|done|done|done|done|done]).
  - injection H as _ <-. by eapply (frame_put (dw_slot w) d).
Qed.

Lemma remote_closed_frame h f b y : below y → app_inv y → slots y !! fr_slot f = None → fr_slot f ∈ used y → frame y (remote_closed h f b y).2.
Proof.
  intros Hbl Hi Hf Hu. unfold remote_closed. destruct (slot h (fr_slot f) (fr_slot_token f) y) as [s y0] eqn:Es.
  destruct (slot_facts _ _ _ _ _ Es Hi Hf Hu) as (_ & _ & d & Hd & Hdd & _). rewrite Hdd. apply (frame_slot _ _ _ _ _ _ _ Es Hf).
  pose proof (below_lookup _ _ _ (below_slot _ _ _ _ _ _ Es Hbl) Hd) as Eg.
  destruct (_ && _ && _); [|apply frame_refl]. cbn [snd]. by eapply (frame_put s d); [done|done|cbn; lia| | |].
Qed.

Lemma refresh_begin_frame h f repo y : app_inv y → slots y !! fr_slot f = None → fr_slot f ∈ used y → frame y (refresh_begin h f repo y).2.
Proof.
  intros Hi Hf Hu. unfold refresh_begin. destruct repo as [[]|e]; [|apply frame_refl]. destruct (slot h (fr_slot f) (fr_slot_token f) y) as [s y0] eqn:Es.
  destruct (slot_facts _ _ _ _ _ Es Hi Hf Hu) as (_ & _ & d & Hd & Hdd & _). rewrite Hdd. apply (frame_slot _ _ _ _ _ _ _ Es Hf).
  destruct (_ || _); [apply frame_refl|]. destruct (transport d); [|apply frame_refl]. by eapply (frame_put s d).
Qed.

Lemma refresh_finish_frame t result audit r y y' : refresh_finish t result audit y = Some (r, y') → app_inv y → frame y y'.
Proof.
  unfold refresh_finish. intros H Hi. destruct (refreshes y !! t) as [a|] eqn:Ea; [|done]. injection H as H.
  destruct (ai_refreshes _ Hi t a Ea) as [d Hd]. rewrite (data_some _ _ _ Hd) in H.
  destruct (_ || _); [injection H as _ <-; by apply frame_same|].
  destruct result; injection H as _ <-; by eapply (frame_put (at_slot a) d).
Qed.

Lemma save_begin_frame h f pre y : slots y !! fr_slot f = None → frame y (save_begin h f pre y).2.
Proof.
  intros Hf. unfold save_begin. destruct pre as [[]|e]; [|apply frame_refl]. destruct (slot h (fr_slot f) (fr_slot_token f) y) as [s y0] eqn:Es.
  apply (frame_slot _ _ _ _ _ _ _ Es Hf). destruct (busy_state _); [apply frame_refl|by apply frame_same].
Qed.

Lemma save_commit_frame t commit rest r y y' : save_commit t commit rest y = Some (r, y') → below y → app_inv y → frame y y'.
Proof.
  unfold save_commit. intros H Hbl Hi. destruct (saves y !! t) as [[h s]|] eqn:Ea; [|done]. injection H as H.
  destruct (ai_saves _ Hi t h s Ea) as (_ & _ & _ & _ & d & Hd & _).
  destruct commit as [[]|e]; injection H as _ <-; [|by apply frame_same]. eapply (frame_put s d); [done|done| |done|done|done].
  pose proof (below_lookup _ _ _ Hbl Hd). unfold data. cbn. rewrite Hd. cbn. lia.
Qed.

Lemma shutdown_clear_frame s y : frame y (shutdown_clear s y).
Proof.
  unfold shutdown_clear. destruct (slots y !! s) as [d|] eqn:Ed; [|apply frame_refl]. by eapply (frame_put s d).
Qed.

Lemma trust_host_key_frame h c f repo fault audit y : app_inv y → slots y !! fr_slot f = None → fr_slot f ∈ used y →
  frame y (trust_host_key h c f repo fault audit y).2.
Proof.
  intros Hi Hf Hu. unfold trust_host_key. destruct repo as [host|e]; [|apply frame_refl].
  destruct (slot h (fr_slot f) (fr_slot_token f) y) as [s y0] eqn:Es.
  destruct (slot_facts _ _ _ _ _ Es Hi Hf Hu) as (_ & _ & d & Hd & Hdd & _). rewrite Hdd. apply (frame_slot _ _ _ _ _ _ _ Es Hf).
  destruct (_ || _ || _); [apply frame_refl|]. destruct (trust _ _ _) as [k|e]; [|apply frame_refl].
  destruct (transition _ _) as [st|e] eqn:Et; [|by apply frame_same]. unfold transition in Et.
  destruct (transition_allowed _ _); [|done]. injection Et as <-. by eapply (frame_put s d).
Qed.

Lemma plan_rotation_frame h id f repo fault clock now y : slots y !! fr_slot f = None →
  frame y (plan_rotation h id f repo fault clock now y).2.
Proof.
  intros Hf. unfold plan_rotation. destruct (stored_host repo) as [host|e]; [|by apply frame_same].
  destruct (slot h (fr_slot f) (fr_slot_token f) (drop_rotation y h)) as [s y0] eqn:Es.
  apply (frame_drop _ _ h), (frame_slot _ _ _ _ s y0 _ Es); [done|]. destruct (mbind _ _); [by apply frame_same|apply frame_refl].
Qed.

Lemma execute_rotation_frame h id f repo fault now audit y : below y → app_inv y → slots y !! fr_slot f = None → fr_slot f ∈ used y →
  frame y (execute_rotation h id f repo fault now audit y).2.
Proof.
  intros Hbl Hi Hf Hu. unfold execute_rotation. destruct (rotation_plans y !! h) as [a|]; [|apply frame_refl].
  destruct (bool_decide _); [apply frame_refl|]. destruct (slot h (fr_slot f) (fr_slot_token f) (drop_rotation y h)) as [s y0] eqn:Es.
  destruct (slot_facts _ _ _ _ _ Es) as (_ & _ & d & Hd & Hdd & _); [by apply drop_rotation_inv|done|done|]. rewrite Hdd.
  apply (frame_drop _ _ h), (frame_slot _ _ _ _ s y0 _ Es); [done|].
  pose proof (below_lookup _ _ _ (below_slot _ _ _ _ _ _ Es Hbl) Hd) as Eg.
  destruct (rotation_body _ _ _ _ _ _ _); [|apply frame_refl]. eapply (frame_put s d); [done|done|cbn; lia|done|done|done].
Qed.

(** ** The start of a connection and of a shutdown *)

Lemma connect_begin_cases h f pre y : below y → app_inv y → slots y !! fr_slot f = None → fr_slot f ∈ used y →
  frame y (connect_begin h f pre y).2 ∨
  ∃ y0 s d d', slots y ⊆ slots y0 ∧ connects y0 = connects y ∧ marked y0 = marked y ∧ slots y0 !! s = Some d ∧ app_inv y0 ∧
    slots (connect_begin h f pre y).2 = <[s := d']> (slots y0) ∧ generation d' = generation d + 1 ∧ state d' = Connecting ∧
    marked (connect_begin h f pre y).2 = marked y ∧
    connects (connect_begin h f pre y).2 =
      <[fr_task f := {| at_host := h; at_slot := s; at_generation := generation d + 1; at_token := fr_token f |}]> (connects y).
Proof.
  intros Hbl Hi Hf Hu. unfold connect_begin. destruct pre as [[]|e]; [|left; apply frame_refl].
  destruct (slot h (fr_slot f) (fr_slot_token f) (drop_rotation y h)) as [s y0] eqn:Es.
  destruct (slot_inv _ _ _ _ _ _ Es) as (Hi0 & Hst & Hsub & _ & d & Hd & Hdd & _); [by apply drop_rotation_inv|done|done|]. rewrite Hdd.
  assert (frame y y0) as F0 by (eapply frame_drop, frame_slot; [exact Es|done|apply frame_refl]).
  destruct (busy_state (state d)); [by left|]. unfold transition. destruct (transition_allowed _ _); [|by left]. right.
  destruct Hst as (Hc & _ & _ & _ & _ & _ & _ & Hm & _).
  exists y0, s, d. rewrite <-(below_lookup _ _ _ (below_slot _ _ _ _ _ _ Es Hbl) Hd). eexists. split; [done|]. split; [done|]. split; [done|]. split; [done|]. split; [done|]. split; [done|].
  split; [done|]. split; [done|]. split; [done|]. cbn. by rewrite Hc.
Qed.

(** [moves] over the start of a connection. *)
Lemma connect_begin_moves h f pre y s : below y → app_inv y → slots y !! fr_slot f = None → fr_slot f ∈ used y → moves s y (connect_begin h f pre y).2.
Proof.
  intros Hbl Hi Hf Hu. destruct (connect_begin_cases h f pre y Hbl Hi Hf Hu) as [F|(y0 & s0 & d0 & d' & Hsub & _ & _ & Hd0 & _ & Hn & Hg & _ & _ & Hc)];
    [apply F|]. intros d Hd. rewrite Hn. destruct (decide (s = s0)) as [->|Hne].
  - pose proof (lookup_weaken _ _ _ _ Hd Hsub) as Hd'. rewrite Hd0 in Hd'. injection Hd' as ->.
    exists d'. rewrite lookup_insert_eq. split; [done|]. split; [lia|]. intros _. right.
    exists (fr_task f). eexists. rewrite Hc, lookup_insert_eq. split; [done|]. cbn. split; [done|lia].
  - exists d. rewrite lookup_insert_ne by done. split; [by eapply lookup_weaken|]. auto with lia.
Qed.

Lemma shutdown_mark_moves s0 y s : below y → moves s y (shutdown_mark s0 y).
Proof.
  intros Hbl. unfold shutdown_mark. cbn. destruct (slots y !! s0) as [d|] eqn:Ed; [|intros e He; exists e; auto with lia].
  pose proof (below_lookup _ _ _ Hbl Ed). eapply (moves_put s0 d); [done|by destruct (bool_decide _)|cbn; lia|].
  intros [H1 H2]. split; unfold state in *; cbn; by destruct (hs_state (view d)).
Qed.

(** ** The reachable states *)

Record good (y : App) : Prop := { g_inv : app_inv y; g_distinct : distinct y; g_stale : marked_stale y }.

Lemma good_frame y y' : frame y y' → good y → app_inv y' → good y'.
Proof.
  intros [F1 F2 F3] [Hi Hd Hm] Hi'. split; [done|by eapply distinct_sub|].
  intros t a d Ha Hs Hd'. rewrite F3 in Hs. pose proof (lookup_weaken _ _ _ _ Ha F2) as Ha0.
  destruct (ai_attempts _ Hi t a Ha0) as (d0 & Hd0 & _). destruct (F1 _ d0 Hd0) as (d1 & Hd1 & Hg & _).
  rewrite Hd1 in Hd'. injection Hd' as <-. pose proof (Hm t a d0 Ha0 Hs Hd0). lia.
Qed.

Lemma good_connect h f pre y : below y → good y → slots y !! fr_slot f = None → fr_slot f ∈ used y → free h y → marked y = ∅ →
  good (connect_begin h f pre y).2.
Proof.
  intros Hbl [Hi Hd Hm] Hf Hu Hfr Hmk. pose proof (connect_begin_inv h f pre y Hbl Hi Hf Hu Hfr) as Hi'.
  destruct (connect_begin_cases h f pre y Hbl Hi Hf Hu) as [F|(y0 & s & d & d' & _ & Hc0 & _ & Hds & Hi0 & Hn & Hg & _ & Hmk' & Hc)];
    [by apply (good_frame y)|]. split; [done| |intros t a e _ Hs; by rewrite Hmk', Hmk in Hs].
  assert (∀ t a, connects y !! t = Some a → at_slot a = s → at_generation a ≠ generation d + 1) as Hold.
  { intros t a Ha Es. rewrite <-Hc0 in Ha. destruct (ai_attempts _ Hi0 t a Ha) as (e & He & [Hle _]). rewrite Es, Hds in He.
    injection He as <-. lia. }
  unfold distinct. rewrite Hc. intros t t' a a'.
  destruct (decide (t = fr_task f)) as [->|N1], (decide (t' = fr_task f)) as [->|N2]; rewrite ?lookup_insert_eq, ?lookup_insert_ne by done.
  - done.
  - intros [= <-] Ha' Hs Hge. cbn in *. by destruct (Hold t' a' Ha').
  - intros Ha [= <-] Hs Hge. cbn in *. by destruct (Hold t a Ha).
  - by apply Hd.
Qed.

Lemma good_mark s y : below y → good y → good (shutdown_mark s y).
Proof.
  intros Hbl [Hi Hd Hm]. pose proof (shutdown_mark_inv s y Hbl Hi) as Hi'.
  assert (connects (shutdown_mark s y) = connects y ∧ marked (shutdown_mark s y) = {[s]} ∪ marked y) as [Ec Em].
  { unfold shutdown_mark. cbn. destruct (slots y !! s) as [d|]; [|done]. by destruct (bool_decide _). }
  split; [done|by intros t t' a a'; rewrite Ec; apply Hd|]. intros t a d'. rewrite Ec, Em. intros Ha Hs Hd'.
  destruct (ai_attempts _ Hi t a Ha) as (d & Hds & Hle & _). destruct (decide (at_slot a = s)) as [E|Hne].
  - unfold shutdown_mark in Hd'. cbn in Hd'. rewrite <-E, Hds in Hd'. assert (slots (if bool_decide (state d = Connecting)
      then cancel_token (set_identity (set_marked y ({[at_slot a]} ∪ marked y)) ∅ (known_hosts y)) (cancel d)
      else set_identity (set_marked y ({[at_slot a]} ∪ marked y)) ∅ (known_hosts y)) = slots y) as Es by (by destruct (bool_decide _)).
    cbn in Hd'. rewrite Es, lookup_insert_eq in Hd'. injection Hd' as <-. cbn. pose proof (below_lookup _ _ _ Hbl Hds). lia.
  - apply elem_of_union in Hs as [E%elem_of_singleton|Hs]; [done|].
    destruct (shutdown_mark_moves s y _ Hbl d Hds) as (d1 & Hd1 & Hg & _). rewrite Hd1 in Hd'. injection Hd' as <-.
    pose proof (Hm t a d Ha Hs Hds). lia.
Qed.

Lemma good_draw f y : good y → is_fresh f y → good (draw y (fresh_ids f)) ∧ slots (draw y (fresh_ids f)) !! fr_slot f = None ∧
  fr_slot f ∈ used (draw y (fresh_ids f)).
Proof. intros [Hi Hd Hm] Hf. destruct (draw_inv f y Hi Hf) as (H1 & H2 & H3). split; [|done]. by split. Qed.

Lemma frame_step y0 y y' : slots y = slots y0 → frame y y' → app_inv y' → good y → good y' ∧ ∀ s, moves s y0 y'.
Proof.
  intros E F Hi Hg. split; [by apply (good_frame y)|]. intros s d. rewrite <-E. apply F.
Qed.

Lemma step_good y y' : app_step y y' → below y → good y → good y' ∧ ∀ s, moves s y y'.
Proof.
  destruct 1; intros Hbl Hg;
    try (match goal with H : is_fresh _ _ |- _ => destruct (good_draw _ _ Hg H) as (Hg0 & Hf & Hu); pose proof (g_inv _ Hg0) as Hi0 end).
  - split; [by apply good_connect|]. intros s. by apply (connect_begin_moves h f pre (draw y (fresh_ids f))).
  - eapply (frame_step y (draw y (fresh_ids f))); [done|by eapply connect_finish_frame|by eapply connect_finish_inv, Hg0|done].
  - apply (frame_step y (draw y (fresh_ids f))); [done|by apply prepare_disconnect_frame|by apply prepare_disconnect_inv|done].
  - apply (frame_step y y); [done|by eapply finish_disconnect_frame, Hg|by eapply finish_disconnect_inv, Hg|done].
  - apply (frame_step y (draw y (fresh_ids f))); [done|by apply remote_closed_frame|by apply remote_closed_inv|done].
  - apply (frame_step y (draw y (fresh_ids f))); [done|by apply refresh_begin_frame|by apply refresh_begin_inv|done].
  - apply (frame_step y y); [done|by eapply refresh_finish_frame, Hg|by eapply refresh_finish_inv, Hg|done].
  - apply (frame_step y (draw y (fresh_ids f))); [done|by apply save_begin_frame|by apply save_begin_inv|done].
  - apply (frame_step y y); [done|by eapply save_commit_frame, Hg|by eapply save_commit_inv, Hg|done].
  - split; [by apply good_mark|intros s'; by apply shutdown_mark_moves].
  - apply (frame_step y y); [done|apply shutdown_clear_frame|apply shutdown_clear_inv; [apply Hg|apply Hg|done]|done].
  - apply (frame_step y (draw y (fresh_ids f))); [done|by apply trust_host_key_frame|by apply trust_host_key_inv|done].
  - apply (frame_step y (draw y (fresh_ids f))); [done|by apply plan_rotation_frame|by apply plan_rotation_inv|done].
  - apply (frame_step y (draw y (fresh_ids f))); [done|by apply execute_rotation_frame|by apply execute_rotation_inv|done].
Qed.

(** *** How far the generations can be *)

(** No slot gets more than one generation further. *)
Definition grows (y y' : App) : Prop := ∀ s, 0 ≤ generation (data y s) → 0 ≤ generation (data y' s) ≤ generation (data y s) + 1.

(** The slots that were there, with at most one generation more in one. *)
Lemma grows_same y y' y0 : (∀ x, 0 ≤ generation (data y x) → 0 ≤ generation (data y0 x) ≤ generation (data y x)) →
  slots y' = slots y0 → grows y y'.
Proof. intros H0 E s Hs. pose proof (H0 s Hs). unfold data in *. rewrite E. lia. Qed.

Lemma grows_put y y' y0 s d : (∀ x, 0 ≤ generation (data y x) → 0 ≤ generation (data y0 x) ≤ generation (data y x)) →
  slots y' = <[s := d]> (slots y0) → generation d = generation (data y0 s) ∨ generation d = next_generation (generation (data y0 s)) →
  grows y y'.
Proof.
  intros H0 Hn Hg x Hx. pose proof (H0 x Hx). unfold data at 1 2. rewrite Hn. destruct (decide (x = s)) as [->|Hne].
  - rewrite lookup_insert_eq. cbn. destruct Hg as [->| ->]; [lia|]. pose proof (next_generation_bound (generation (data y0 s))). lia.
  - rewrite lookup_insert_ne by done. unfold data in *. lia.
Qed.

Lemma slot_shrinks h fr tk y s y0 : slot h fr tk y = (s, y0) →
  ∀ x, 0 ≤ generation (data y x) → 0 ≤ generation (data y0 x) ≤ generation (data y x).
Proof.
  unfold slot. intros Es x. destruct (by_host y !! h); injection Es as <- <-; [lia|]. unfold data. cbn.
  destruct (decide (x = fr)) as [->|Hne]; [rewrite lookup_insert_eq; cbn; lia|]. rewrite lookup_insert_ne by done. lia.
Qed.

(** Case analysis on a piece, its slot first; what is left changes no slot or
    one. *)
Ltac grow_leaf y :=
  try match goal with H : (_, _) = (_, _) |- _ => injection H as _ <- end;
  first [ apply (grows_same y _ y); [by intros; lia|reflexivity]
        | eapply (grows_same y); [eassumption|reflexivity]
        | eapply (grows_put y); [eassumption|reflexivity|auto]
        | eapply (grows_put y _ y); [by intros; lia|reflexivity|auto] ].
Ltac grow_cases y :=
  cbn -[slot transition capabilities next_generation data];
  repeat match goal with
  | |- context [slot ?h ?fr ?tk ?y0] => let Es := fresh "Es" in let Hs := fresh "Hs" in
      destruct (slot h fr tk y0) eqn:Es; pose proof (slot_shrinks _ _ _ _ _ _ Es : ∀ x, 0 ≤ generation (data y x) → _) as Hs
  | |- context [if ?b then _ else _] => destruct b
  | |- context [match ?x with _ => _ end] => destruct x
  end; cbn -[slot transition capabilities next_generation data]; try (grow_leaf y).

Lemma connect_begin_grows h f pre y : grows y (connect_begin h f pre y).2.
Proof. unfold connect_begin. grow_cases y.
Qed.
Lemma connect_finish_grows t fresh outcome audit r y y' : connect_finish t fresh outcome audit y = Some (r, y') → grows y y'.
Proof. unfold connect_finish. destruct (connects y !! t) as [a|]; [|done]. intros [= H]. revert H. grow_cases y; intros H; grow_leaf y. Qed.
Lemma prepare_disconnect_grows h del f pre y : grows y (prepare_disconnect h del f pre y).2.
Proof. unfold prepare_disconnect. grow_cases y. Qed.
Lemma finish_disconnect_grows t sftp bye audit removed r y y' :
  finish_disconnect t sftp bye audit removed y = Some (r, y') → grows y y'.
Proof. unfold finish_disconnect. destruct (disconnects y !! t) as [w|]; [|done]. intros [= H]. revert H. grow_cases y; intros H; grow_leaf y. Qed.
Lemma remote_closed_grows h f b y : grows y (remote_closed h f b y).2.
Proof. unfold remote_closed. grow_cases y. Qed.
Lemma refresh_begin_grows h f repo y : grows y (refresh_begin h f repo y).2.
Proof. unfold refresh_begin. grow_cases y. Qed.
Lemma refresh_finish_grows t result audit r y y' : refresh_finish t result audit y = Some (r, y') → grows y y'.
Proof. unfold refresh_finish. destruct (refreshes y !! t) as [a|]; [|done]. intros [= H]. revert H. grow_cases y; intros H; grow_leaf y. Qed.
Lemma save_begin_grows h f pre y : grows y (save_begin h f pre y).2.
Proof. unfold save_begin. grow_cases y. Qed.
Lemma save_commit_grows t commit rest r y y' : save_commit t commit rest y = Some (r, y') → grows y y'.
Proof. unfold save_commit. destruct (saves y !! t) as [[h s]|]; [|done]. intros [= H]. revert H. grow_cases y; intros H; grow_leaf y. Qed.
Lemma shutdown_mark_grows s y : grows y (shutdown_mark s y).
Proof. unfold shutdown_mark. cbn. destruct (slots y !! s) as [d|] eqn:E; [rewrite <-(data_some _ _ _ E)|]; grow_cases y. Qed.
Lemma shutdown_clear_grows s y : grows y (shutdown_clear s y).
Proof. unfold shutdown_clear. destruct (slots y !! s) as [d|] eqn:E; [rewrite <-(data_some _ _ _ E)|]; grow_cases y. Qed.
Lemma trust_host_key_grows h c f repo fault audit y : grows y (trust_host_key h c f repo fault audit y).2.
Proof. unfold trust_host_key. grow_cases y. Qed.
Lemma plan_rotation_grows h id f repo fault clock now y : grows y (plan_rotation h id f repo fault clock now y).2.
Proof. unfold plan_rotation. grow_cases y. Qed.
Lemma execute_rotation_grows h id f repo fault now audit y : grows y (execute_rotation h id f repo fault now audit y).2.
Proof. unfold execute_rotation. grow_cases y. Qed.

Lemma step_grows y y' : app_step y y' → grows y y'.
Proof.
  destruct 1; try (change (grows y ?z) with (grows (draw y (fresh_ids f)) z));
    eauto using connect_begin_grows, connect_finish_grows, prepare_disconnect_grows, finish_disconnect_grows, remote_closed_grows,
      refresh_begin_grows, refresh_finish_grows, save_begin_grows, save_commit_grows, shutdown_mark_grows, shutdown_clear_grows,
      trust_host_key_grows, plan_rotation_grows, execute_rotation_grows.
Qed.

(** After [n] requests no generation is greater than [n]. *)
Definition within (n : nat) (y : App) : Prop := ∀ s, 0 ≤ generation (data y s) ≤ Z.of_nat n.

Lemma within_below n y : within n y → Z.of_nat n < u64_max → below y.
Proof. intros Hw Hn s. specialize (Hw s). lia. Qed.

Lemma step_within n y y' : app_step y y' → within n y → within (S n) y'.
Proof. intros Hs Hw s. pose proof (step_grows y y' Hs s). specialize (Hw s). lia. Qed.

(** Up to [u64_max] requests, the counter of a slot does not wrap around. *)
Lemma reachable_good k n y : app_reachable_in k n y → Z.of_nat n ≤ u64_max → good y ∧ within n y.
Proof.
  unfold app_reachable_in. revert y. induction n as [|n IH]; intros y Hy Hn.
  - inversion_clear Hy. split; [|intros s; unfold data; cbn; rewrite lookup_empty; cbn; lia].
    split; [split|intros t t' a a'|intros t a d]; cbn; intros *; rewrite ?lookup_empty; done.
  - apply nsteps_inv_r in Hy as (z & Hz & Hs). destruct (IH z Hz ltac:(lia)) as [Hg Hw]. split; [|by eapply step_within].
    apply (step_good z y Hs); [|done]. eapply within_below; [done|lia].
Qed.

(** ** Who changes the pins *)

Lemma slot_pins h fr tk y : known_hosts (slot h fr tk y).2 = known_hosts y ∧ rotation_plans (slot h fr tk y).2 = rotation_plans y.
Proof. unfold slot. by destruct (by_host y !! h). Qed.

(** Case analysis on a piece, its slot first. *)
Ltac pins_cases :=
  cbn -[slot transition capabilities];
  repeat match goal with
  | |- context [slot ?h ?fr ?tk ?y] => let E := fresh "Ep" in
      pose proof (slot_pins h fr tk y) as [E _]; destruct (slot h fr tk y); cbn -[slot transition capabilities] in E |- *
  | |- context [if ?b then _ else _] => destruct b; cbn -[slot transition capabilities]
  | |- context [match ?x with _ => _ end] => destruct x; cbn -[slot transition capabilities]
  end; try done.

Lemma connect_begin_pins h f pre y : known_hosts (connect_begin h f pre y).2 = known_hosts y.
Proof. unfold connect_begin. pins_cases. Qed.
Lemma connect_finish_pins t fresh outcome audit r y y' :
  connect_finish t fresh outcome audit y = Some (r, y') → known_hosts y' = known_hosts y.
Proof.
  unfold connect_finish. destruct (connects y !! t) as [a|]; [|done]. intros [= H]. revert H.
  pins_cases; by intros [= _ <-].
Qed.
Lemma prepare_disconnect_pins h del f pre y : known_hosts (prepare_disconnect h del f pre y).2 = known_hosts y.
Proof. unfold prepare_disconnect. pins_cases. Qed.
Lemma finish_disconnect_pins t sftp bye audit removed r y y' :
  finish_disconnect t sftp bye audit removed y = Some (r, y') → known_hosts y' = known_hosts y.
Proof.
  unfold finish_disconnect. destruct (disconnects y !! t) as [w|]; [|done]. intros [= H]. revert H.
  pins_cases; by intros [= _ <-].
Qed.
Lemma remote_closed_pins h f b y : known_hosts (remote_closed h f b y).2 = known_hosts y.
Proof. unfold remote_closed. pins_cases. Qed.
Lemma refresh_begin_pins h f repo y : known_hosts (refresh_begin h f repo y).2 = known_hosts y.
Proof. unfold refresh_begin. pins_cases. Qed.
Lemma refresh_finish_pins t result audit r y y' : refresh_finish t result audit y = Some (r, y') → known_hosts y' = known_hosts y.
Proof.
  unfold refresh_finish. destruct (refreshes y !! t) as [a|]; [|done]. intros [= H]. revert H.
  pins_cases; by intros [= _ <-].
Qed.
Lemma save_begin_pins h f pre y : known_hosts (save_begin h f pre y).2 = known_hosts y.
Proof. unfold save_begin. pins_cases. Qed.
Lemma save_commit_pins t commit rest r y y' : save_commit t commit rest y = Some (r, y') → known_hosts y' = known_hosts y.
Proof.
  unfold save_commit. destruct (saves y !! t) as [[h s]|]; [|done]. intros [= H]. revert H. pins_cases; by intros [= _ <-].
Qed.
Lemma shutdown_mark_pins s y : known_hosts (shutdown_mark s y) = known_hosts y.
Proof. unfold shutdown_mark. pins_cases. Qed.
Lemma shutdown_clear_pins s y : known_hosts (shutdown_clear s y) = known_hosts y.
Proof. unfold shutdown_clear. pins_cases. Qed.
Lemma plan_rotation_pins h id f repo fault clock now y : known_hosts (plan_rotation h id f repo fault clock now y).2 = known_hosts y.
Proof. unfold plan_rotation. pins_cases. Qed.

(** The session a piece found is the host's, unless it was just created. *)
Lemma slot_existing h fr tk y s y0 d : slot h fr tk y = (s, y0) → data y0 s = d → state d ≠ Disconnected →
  by_host y !! h = Some s ∧ slots y !! s = Some d.
Proof.
  unfold slot. intros Es Hd Hs. destruct (by_host y !! h) as [x|]; injection Es as <- <-; revert Hd; unfold data; cbn.
  - split; [done|]. destruct (slots y !! x); cbn in Hd; [by rewrite Hd|by subst d].
  - rewrite lookup_insert_eq. cbn. intros <-. by destruct Hs.
Qed.

(** The user's confirmation of the key that was shown, for a host waiting for
    it. *)
Definition confirmed (y y' : App) : Prop := ∃ h c s d fault,
  by_host y !! h = Some s ∧ slots y !! s = Some d ∧ state d = AwaitingTrust ∧ (hs_error (view d) ≫= host_key) = Some c ∧
  hk_previous_fingerprint c = None ∧ trust fault (known_hosts y) c = Ok (known_hosts y').

(** The execution of a plan, which is consumed, on the failed session it was
    planned for. *)
Definition rotated (y y' : App) : Prop := ∃ h a s d fault now,
  rotation_plans y !! h = Some a ∧ rotation_plans y' !! h = None ∧ now < ra_expires_at a ∧ rp_host_id (ra_plan a) = h ∧
  by_host y !! h = Some s ∧ slots y !! s = Some d ∧ state d = Failed ∧ generation d = ra_generation a ∧
  rotate fault (known_hosts y) (rp_hostname (ra_plan a)) (rp_port (ra_plan a)) (rp_current (ra_plan a)) (rp_presented (ra_plan a))
    = Ok (known_hosts y').

Lemma trust_host_key_pins h c f repo fault audit y :
  known_hosts (trust_host_key h c f repo fault audit y).2 = known_hosts y ∨ confirmed y (trust_host_key h c f repo fault audit y).2.
Proof.
  unfold trust_host_key. destruct repo as [host|e]; [|by left].
  pose proof (slot_pins h (fr_slot f) (fr_slot_token f) y) as [Hk _].
  destruct (slot h (fr_slot f) (fr_slot_token f) y) as [s y0] eqn:Es. cbn [snd] in Hk.
  remember (data y0 s) as d eqn:Hdd.
  destruct (bool_decide (state d ≠ AwaitingTrust) || _ || _) eqn:Ec; [by left|]. split_bools.
  repeat match goal with H : ¬ _ ≠ _ |- _ => apply dec_stable in H end.
  destruct (trust fault (known_hosts y0) c) as [k|e] eqn:Et; [|by left]. right.
  match goal with H : state d = AwaitingTrust |- _ => rename H into Hst; rewrite Hst end. cbn [transition transition_allowed snd].
  destruct (slot_existing _ _ _ _ _ _ d Es (eq_sym Hdd)) as [Hb Hs]; [by rewrite Hst|].
  exists h, c, s, d, fault. repeat split; try done; [|cbn; by rewrite <-Hk].
  destruct (hk_previous_fingerprint c); [|done]. match goal with H : ¬ is_Some _ |- _ => by destruct H end.
Qed.

Lemma execute_rotation_pins h id f repo fault now audit y :
  known_hosts (execute_rotation h id f repo fault now audit y).2 = known_hosts y ∨
  rotated y (execute_rotation h id f repo fault now audit y).2.
Proof.
  unfold execute_rotation. destruct (rotation_plans y !! h) as [a|] eqn:Ea; [|by left].
  destruct (bool_decide _); [by left|]. pose proof (slot_pins h (fr_slot f) (fr_slot_token f) (drop_rotation y h)) as [Hk Hp].
  destruct (slot h (fr_slot f) (fr_slot_token f) (drop_rotation y h)) as [s y0] eqn:Es. cbn [snd] in Hk, Hp.
  remember (data y0 s) as d eqn:Hdd.
  destruct (rotation_body h a repo fault now (known_hosts y0) d) as [k|e] eqn:Eb; [|left; exact Hk].
  apply rotation_body_state in Eb as (Hst & Hg & Hn & Hh & Hr). right.
  destruct (slot_existing _ _ _ _ _ _ d Es (eq_sym Hdd)) as [Hb Hs]; [by rewrite Hst|].
  exists h, a, s, d, fault, now. repeat split; try done; cbn.
  - rewrite Hp. cbn. apply lookup_delete_eq.
  - rewrite Hk in Hr. exact Hr.
Qed.

(** [C14] The host keys the application trusts change in only two ways: the
    user confirmed exactly the key that was presented for a host that waits
    for it and has no pin, or the user executed an unexpired rotation plan,
    which is used up, while the session is still the failed one (of the same
    generation) that the plan was made for.  No other request, and no
    interleaving of requests, touches the known-hosts store. *)
Theorem pins_change_only_as_reviewed k y y' : app_reachable k y → app_step y y' →
  known_hosts y' = known_hosts y ∨ confirmed y y' ∨ rotated y y'.
Proof.
  intros _ Hs. destruct Hs.
  - left. exact (connect_begin_pins h f pre (draw y (fresh_ids f))).
  - left. exact (connect_finish_pins _ _ _ _ _ _ _ H0).
  - left. exact (prepare_disconnect_pins h del f pre (draw y (fresh_ids f))).
  - left. by eapply finish_disconnect_pins.
  - left. exact (remote_closed_pins h f b (draw y (fresh_ids f))).
  - left. exact (refresh_begin_pins h f repo (draw y (fresh_ids f))).
  - left. by eapply refresh_finish_pins.
  - left. exact (save_begin_pins h f pre (draw y (fresh_ids f))).
  - left. by eapply save_commit_pins.
  - left. apply shutdown_mark_pins.
  - left. apply shutdown_clear_pins.
  - destruct (trust_host_key_pins h c f repo fault audit (draw y (fresh_ids f))) as [E|E]; [left; exact E|right; left; exact E].
  - left. exact (plan_rotation_pins h id f repo fault clock now (draw y (fresh_ids f))).
  - destruct (execute_rotation_pins h id f repo fault now audit (draw y (fresh_ids f))) as [E|E]; [left; exact E|right; right; exact E].
Qed.

(** [C36] In every state that the first 2^64 - 1 steps of the requests can lead
    to (the counter of the generations is a [u64] that wraps around after that),
    each session is consistent:
    the shown session identity is the connection's; a connected session has a
    transport and an identity; a transport or an identity is only kept while
    connected or disconnecting; a refresh is only in progress while
    connected.  A host's slot shows that host, so hosts never share one; and
    of the pending attempts on a slot at most one is current, and only while
    the slot is connecting. *)
Theorem session_data_consistent k n y : app_reachable_in k n y → Z.of_nat n ≤ u64_max →
  (∀ s d, slots y !! s = Some d → data_ok d) ∧
  (∀ h h' s, by_host y !! h = Some s → by_host y !! h' = Some s → h = h') ∧
  (∀ t t' a a' d, connects y !! t = Some a → connects y !! t' = Some a' → at_slot a = at_slot a' → slots y !! at_slot a = Some d →
     at_generation a = generation d → at_generation a' = generation d → state d = Connecting ∧ t = t').
Proof.
  intros Hr Hn. destruct (reachable_good k n y Hr Hn) as [[Hi Hd _] _]. split; [apply Hi|split].
  - intros h h' s H1 H2. destruct (ai_host _ Hi h s H1) as (d & Hs & <-), (ai_host _ Hi h' s H2) as (d' & Hs' & <-). congruence.
  - intros t t' a a' d H1 H2 Es Hs G1 G2. destruct (ai_attempts _ Hi t a H1) as (e & He & _ & Hc). rewrite Hs in He. injection He as <-.
    split; [auto|]. apply (Hd t t' a a'); congruence.
Qed.

(** The end of a connection attempt, on every branch.  An attempt that was
    overtaken (its slot has a newer generation) or cancelled leaves every
    session as it is and is reported as cancelled.  The current attempt always
    takes effect: success makes the session connected with the new transport
    and identity; an unknown host key makes it wait for trust, any other error
    makes it failed, both without a transport and with the error kept for the
    user. *)
Theorem connect_finish_decides k n y t a fresh outcome audit : app_reachable_in k n y → Z.of_nat n ≤ u64_max → connects y !! t = Some a →
  ∃ d r y', slots y !! at_slot a = Some d ∧ connect_finish t fresh outcome audit y = Some (r, y') ∧
    connects y' = delete t (connects y) ∧
    if bool_decide (generation d ≠ at_generation a ∨ at_token a ∈ cancelled_tokens y)
    then slots y' = slots y ∧ is_ok r = false
    else ∃ d', slots y' = <[at_slot a := d']> (slots y) ∧
      match outcome with
      | Ok (tr, snapshot, ident) => r = audit ∧ state d' = Connected ∧ transport d' = Some tr ∧ connection_id d' = Some fresh ∧
          hs_session_id (view d') = Some fresh ∧ hs_discovery (view d') = Some snapshot ∧ hs_identity (view d') = ident
      | Err e => is_ok r = false ∧ transport d' = None ∧ connection_id d' = None ∧ hs_error (view d') = Some e ∧
          state d' = (if bool_decide (code e = UnknownHostKey) then AwaitingTrust else Failed)
      end.
Proof.
  intros Hr Hn Ha. destruct (reachable_good k n y Hr Hn) as [[Hi _ _] _]. destruct (ai_attempts _ Hi t a Ha) as (d & Hd & _ & Hc). exists d.
  unfold connect_finish. rewrite Ha, (data_some _ _ _ Hd). cbn [cancelled_tokens set_connects].
  destruct (decide (generation d ≠ at_generation a ∨ at_token a ∈ cancelled_tokens y)) as [Hs|Hs];
    [rewrite (bool_decide_eq_true_2 (_ ∨ _) Hs)|rewrite (bool_decide_eq_false_2 (_ ∨ _) Hs)].
  - assert (bool_decide (generation d ≠ at_generation a) || bool_decide (at_token a ∈ cancelled_tokens y) = true) as ->
      by (apply orb_true_iff; rewrite !bool_decide_eq_true; done).
    do 2 eexists. split; [done|]. split; [done|]. split; [done|]. split; [done|]. by destruct audit as [[]|].
  - assert (bool_decide (generation d ≠ at_generation a) || bool_decide (at_token a ∈ cancelled_tokens y) = false) as ->
      by (apply orb_false_iff; rewrite !bool_decide_eq_false; tauto).
    assert (state d = Connecting) as Est by (apply Hc, eq_sym, dec_stable; tauto).
    assert (connection_id d = None) as Hid.
    { destruct (connection_id d) eqn:E; [|done]. destruct (do_session _ (ai_data _ Hi _ _ Hd) (mk_is_Some _ _ E)) as [F|F]; by rewrite Est in F. }
    rewrite Est. destruct outcome as [[[tr snap] ident]|e].
    + cbn [transition transition_allowed]. do 2 eexists. split; [done|]. split; [done|]. split; [done|]. eexists. by split.
    + case_bool_decide; cbn [transition transition_allowed]; do 2 eexists; (split; [done|]; split; [done|]; split; [done|]);
        eexists; (split; [done|]); by destruct audit as [[]|].
Qed.

(** A request that begins no connection attempt on the slot. *)
Definition quiet (s : SlotId) (y y' : App) : Prop :=
  app_step y y' ∧ ∀ t a, connects y' !! t = Some a → at_slot a = s → connects y !! t = Some a.

Lemma quiet_calm s y y' d : below y → good y → quiet s y y' → slots y !! s = Some d → calm (state d) →
  good y' ∧ ∃ d', slots y' !! s = Some d' ∧ calm (state d').
Proof.
  intros Hbl Hg [Hs Hq] Hd Hc. destruct (step_good y y' Hs Hbl Hg) as [Hg' Hm]. split; [done|].
  destruct (Hm s d Hd) as (d' & Hd' & _ & Hm'). exists d'. split; [done|]. destruct (Hm' Hc) as [|(t & a & Ha & Es & Hlt)]; [done|].
  pose proof (Hq t a Ha Es) as Ho. destruct (ai_attempts _ (g_inv _ Hg) t a Ho) as (e & He & Hle & _). rewrite Es, Hd in He.
  injection He as <-. lia.
Qed.

Lemma prepare_disconnect_calm h del f pre y y1 : prepare_disconnect h del f pre y = (Ok tt, y1) →
  ∃ s d, by_host y1 !! h = Some s ∧ slots y1 !! s = Some d ∧ calm (state d).
Proof.
  unfold prepare_disconnect. destruct pre as [[]|e]; [|done].
  destruct (slot h (fr_slot f) (fr_slot_token f) (drop_rotation y h)) as [s y0] eqn:Es.
  assert (by_host y0 !! h = Some s) as Hb.
  { unfold slot in Es. destruct (by_host (drop_rotation y h) !! h) eqn:E; injection Es as <- <-; [done|apply lookup_insert_eq]. }
  remember (data y0 s) as d eqn:Hdd.
  destruct (match state d with Connecting | Connected => _ | s => Ok s end) as [st|e] eqn:En; [|done]. intros [= <-].
  exists s. eexists. split; [cbn; by destruct (bool_decide _)|]. split; [apply lookup_insert_eq|]. cbn. unfold calm, state. cbn.
  destruct (state d); by injection En as <-.
Qed.

(** Quiet steps from a calm slot, before any generation can wrap around. *)
Lemma quiet_run s m : ∀ n x z d, nsteps (quiet s) m x z → good x → within n x → Z.of_nat (n + m) ≤ u64_max →
  slots x !! s = Some d → calm (state d) → good z ∧ ∃ d', slots z !! s = Some d' ∧ calm (state d').
Proof.
  induction m as [|m IH]; intros n x z d Hr Hg Hw Hn Hd Hc; inversion Hr as [|? ? x' ? Hq Hr']; subst; [eauto|].
  destruct (quiet_calm s x x' d) as (Hg' & d' & Hd' & Hc'); [eapply within_below; [done|lia]|done..|].
  apply (IH (S n) x' z d'); try done; [|lia]. destruct Hq as [Hs _]. by eapply step_within.
Qed.

(** [C13] A disconnect overtakes the connection attempts before it: from the
    moment it is accepted, whatever requests follow and in whatever order the
    pending work ends, the host's session is neither connecting nor connected
    until a new connection is begun; and every attempt still pending then
    ends as cancelled and changes nothing.  This holds for the first 2^64 - 1
    steps of the application: the generations are [u64] counters that wrap
    around, one step of a request for each. *)
Theorem disconnect_is_final k n y h del f pre y1 : app_reachable_in k n y → free h y → is_fresh f y →
  prepare_disconnect h del f pre (draw y (fresh_ids f)) = (Ok tt, y1) →
  ∃ s, by_host y1 !! h = Some s ∧ ∀ m y2, nsteps (quiet s) m y1 y2 → Z.of_nat (S n + m) ≤ u64_max →
    (∃ d, slots y2 !! s = Some d ∧ state d ≠ Connecting ∧ state d ≠ Connected) ∧
    ∀ t a fresh outcome audit, connects y2 !! t = Some a → at_slot a = s →
      connect_finish t fresh outcome audit y2 = Some (_ ← audit; Err connection_cancelled, set_connects y2 (delete t (connects y2))).
Proof.
  intros Hr Hfr Hf Hp. assert (app_step y y1) as Hs1 by (pose proof (a_prepare h del f pre y Hfr Hf) as Hs; by rewrite Hp in Hs).
  destruct (prepare_disconnect_calm _ _ _ _ _ _ Hp) as (s & d & Hb & Hd & Hc). exists s. split; [done|].
  intros m y2 Hq Hn. destruct (reachable_good k (S n) y1) as [Hg1 Hw1]; [by eapply nsteps_r|lia|].
  destruct (quiet_run s m (S n) y1 y2 d Hq Hg1 Hw1 Hn Hd Hc) as (Hg2 & e & He & Hce).
  split; [by exists e|]. intros t a fresh outcome audit Ha Es. unfold connect_finish. rewrite Ha, Es, (data_some _ _ _ He).
  destruct (ai_attempts _ (g_inv _ Hg2) t a Ha) as (e' & He' & _ & Hcur). rewrite Es, He in He'. injection He' as <-.
  rewrite bool_decide_eq_true_2; [done|]. intros E. destruct Hce as [[] _]. by apply Hcur.
Qed.

(** ** Sample: a host is connected, asks for trust, is trusted; another is
    disconnected while it connects. *)
Module SessionSample.
Definition ids (n : N) : Fresh :=
  {| fr_task := n; fr_slot := n + 1; fr_slot_token := n + 2; fr_token := n + 3; fr_session := n + 4 |}.
Definition y0 : App := app_new KhSample.empty.
Definition y1 : App := (connect_begin 7%N (ids 10) (Ok tt) (draw y0 (fresh_ids (ids 10)))).2.
Definition unknown : AppError := {| code := UnknownHostKey; message := ""; host_key := Some KhSample.challenge |}.
Definition finish : option (Res unit * App) := connect_finish 10 (fr_session (ids 20)) (Err unknown) (Ok tt) (draw y1 (fresh_ids (ids 20))).
Definition y2 : App := default y1 (snd <$> finish).
Definition host : Host := {| host_id := 7%N; display_name := lit "h"; Hosts.connection := KhSample.config |}.
Definition y3 : App :=
  (trust_host_key 7%N KhSample.challenge (ids 30) (Ok host) no_fault (Ok tt) (draw y2 (fresh_ids (ids 30)))).2.
Definition gone : Res unit * App := prepare_disconnect 7%N false (ids 20) (Ok tt) (draw y1 (fresh_ids (ids 20))).

Ltac ground := apply (bool_decide_unpack _); vm_compute; exact I.

Lemma free1 : free 7%N y1 ∧ is_fresh (ids 20) y1.
Proof. split; split; ground. Qed.
Lemma reach1 : app_reachable_in KhSample.empty 1 y1.
Proof. apply nsteps_once, (a_connect 7%N (ids 10) (Ok tt) y0); [split; ground|split; ground|done]. Qed.
Lemma reach2 : app_reachable_in KhSample.empty 2 y2.
Proof.
  eapply nsteps_r; [apply reach1|]. destruct finish as [[r z]|] eqn:E; [|by vm_compute in E].
  apply (a_connected 10 (ids 20) (Err unknown) (Ok tt) r); [apply free1|]. unfold y2. by rewrite E.
Qed.
Lemma step3 : app_step y2 y3.
Proof. apply a_trust; split; ground. Qed.
End SessionSample.

Lemma session_data_consistent_witness : ∃ s d, slots SessionSample.y2 !! s = Some d ∧ state d = AwaitingTrust ∧ data_ok d.
Proof.
  exists 11%N. destruct (slots SessionSample.y2 !! 11%N) as [d|] eqn:E; [|by vm_compute in E]. exists d.
  split; [done|]. split; [vm_compute in E; by injection E as <-|].
  exact (proj1 (session_data_consistent _ 2 _ SessionSample.reach2 ltac:(by unfold u64_max)) 11%N d E).
Defined.

Lemma connect_finish_decides_witness : ∃ a, connects SessionSample.y1 !! 10%N = Some a ∧
  ∃ d r y' , slots SessionSample.y1 !! at_slot a = Some d ∧
    connect_finish 10 24%N (Err SessionSample.unknown) (Ok tt) SessionSample.y1 = Some (r, y') ∧
    is_ok r = false ∧ option_map state (slots y' !! at_slot a) = Some AwaitingTrust.
Proof.
  destruct (connects SessionSample.y1 !! 10%N) as [a|] eqn:Ea; [|by vm_compute in Ea]. exists a. split; [done|].
  destruct (connect_finish_decides _ 1 _ 10%N a 24%N (Err SessionSample.unknown) (Ok tt) SessionSample.reach1 ltac:(by unfold u64_max) Ea) as (d & r & y' & Hd & Hf & _ & Hb).
  exists d, r, y'. split; [done|]. split; [done|].
  vm_compute in Ea. injection Ea as <-. vm_compute in Hd. injection Hd as <-.
  rewrite bool_decide_eq_false_2 in Hb by (apply (bool_decide_unpack _); vm_compute; exact I).
  destruct Hb as (d' & -> & Hr & _ & _ & _ & Hst). split; [done|]. rewrite lookup_insert_eq. cbn. by rewrite Hst.
Defined.

Lemma disconnect_is_final_witness : ∃ y1 s, prepare_disconnect 7%N false (SessionSample.ids 20) (Ok tt)
    (draw SessionSample.y1 (fresh_ids (SessionSample.ids 20))) = (Ok tt, y1) ∧ by_host y1 !! 7%N = Some s ∧
  ∃ a, connects y1 !! 10%N = Some a ∧ connect_finish 10 99%N (Err SessionSample.unknown) (Ok tt) y1
    = Some (Err connection_cancelled, set_connects y1 (delete 10%N (connects y1))).
Proof.
  destruct SessionSample.gone as [r z] eqn:E. assert (r = Ok tt) as -> by (apply (f_equal fst) in E; vm_compute in E; congruence).
  unfold SessionSample.gone in E. destruct SessionSample.free1 as [Hf Hn].
  destruct (disconnect_is_final _ 1 _ 7%N false (SessionSample.ids 20) (Ok tt) z SessionSample.reach1 Hf Hn E) as (s & Hb & Hq).
  exists z, s. split; [done|]. split; [done|]. apply (f_equal snd) in E. cbn [snd] in E.
  destruct (connects z !! 10%N) as [a|] eqn:Ea; [|rewrite <-E in Ea; by vm_compute in Ea]. exists a. split; [done|].
  apply (proj2 (Hq 0%nat z (nsteps_O _ _) ltac:(by unfold u64_max)) 10%N a 99%N (Err SessionSample.unknown) (Ok tt) Ea).
  rewrite <-E in Ea, Hb. vm_compute in Ea. vm_compute in Hb. by injection Ea as <-; injection Hb as <-.
Defined.

Lemma pins_change_only_as_reviewed_witness : confirmed SessionSample.y2 SessionSample.y3 ∨ rotated SessionSample.y2 SessionSample.y3.
Proof.
  destruct (pins_change_only_as_reviewed _ _ _ (rtc_nsteps_2 _ _ _ SessionSample.reach2) SessionSample.step3) as [E|H]; [|exact H].
  apply (f_equal (λ k, size (pins k))) in E. vm_compute in E. discriminate E.
Defined.
