(* ===== verification/Services.v ===== *)
(** The application's service requests ([nexus-core/src/application/services.rs])
    and its other session-bound requests ([network.rs], [logs.rs],
    [containers.rs]).

    A request is a program over [svc_call]: each access to shared state (a
    session, a gate, a semaphore, a store, the audit log) and each await is one
    call, so that a theorem over all replies covers every interleaving with the
    other requests.  A guard of the source is a pair of calls, taken and given
    back on every path by [holding].  The four systemd operations are written
    out four times in the source and differ in names, texts, kind and risk
    only; here they are one definition over [NativeOp] and its four
    instances. *)

From S2P Require Import Prelude Str Model SystemdUnit Authority Foundation Observations Ip IpText Hosts Prog Interp SshChannel KnownHosts Sessions.

(** ** What the requests talk to *)

Abbreviation GateId := N (only parsing).

Inductive Area := AreaServices | AreaNetwork | AreaLogs | AreaContainers.
#[export] Instance Area_eq_dec : EqDecision Area.
Proof. solve_decision. Defined.

(** The read-only inventories besides services. *)
Inductive Inventory := INetwork | IRoutes | IListeningPorts | IDnsConfiguration | ISystemJournal | IDockerContainers.
Definition area_of (i : Inventory) : Area :=
  match i with
  | INetwork | IRoutes | IListeningPorts | IDnsConfiguration => AreaNetwork
  | ISystemJournal => AreaLogs
  | IDockerContainers => AreaContainers
  end.

(** [AuditOutcome] *)
Inductive AuditOutcome := AuditSuccess | AuditFailed | AuditCancelled | AuditOutcomeUnknown.

(** What can be held. *)
Inductive Resource :=
| RMutation                        (** [self.mutation] *)
| RGate (g : GateId)               (** the gate of a host in an area *)
| RLimit (a : Area)                (** a permit of the area's semaphore *)
| RLifecycle (h : HostId)          (** [remote_operations.try_lifecycle_guard] *)
| RData (s : SlotId).              (** [slot.data.lock()] *)
#[export] Instance Resource_eq_dec : EqDecision Resource.
Proof. solve_decision. Defined.

Inductive svc_call :=
| VRepository (h : HostId)                             (** [repository.get(host_id)] *)
| VSlot (h : HostId)                                   (** [self.slot(host_id)] *)
| VTry (r : Resource)                                  (** a non-waiting acquisition *)
| VDrop (r : Resource)                                 (** the end of a guard's scope *)
| VLock (s : SlotId)                                   (** [slot.data.lock().await], giving the data *)
| VCancelled (t : TokenId)                             (** [cancellation.is_cancelled()] *)
| VClosed (tr : TransportId)                           (** [transport.is_closed()] *)
| VGate (a : Area) (h : HostId)                        (** [gates.entry(h).or_insert_with(..).clone()] *)
| VGateGet (a : Area) (h : HostId)                     (** [gates.get(&h).cloned()] *)
| VBegin (h : HostId)                                  (** [service_observations.begin_request] *)
| VResolve (o : NativeOp) (id : ServiceObservationId) (b : AuthorityBinding)
| VPublish (b : AuthorityBinding) (sequence : Z) (s : ServiceSnapshot)
| VObserve (tr : TransportId) (t : TokenId) (h : HostId) (hs : HostSessionId)   (** [observe_services] *)
| VInventory (i : Inventory) (tr : TransportId) (t : TokenId) (h : HostId) (hs : HostSessionId)
| VPlan (o : NativeOp) (d : PlanDraft o) (b : AuthorityBinding)                 (** [remote_operations.plan] *)
| VDiscard (o : NativeOp) (id : RemoteOperationPlanId) (b : AuthorityBinding)
| VExecute (o : NativeOp) (id : RemoteOperationPlanId) (b : AuthorityBinding) (tr : TransportId) (t : TokenId)
| VAudit (h : HostId) (kind : string) (risk : OperationRisk) (outcome : AuditOutcome).

Section Requests.
(** The snapshots of the inventories whose parsers are other components. *)
Context (Snap : Inventory → Type).

Definition svc_reply (c : svc_call) : Type :=
  match c with
  | VRepository _ => Res unit
  | VSlot _ => SlotId
  | VTry _ => bool
  | VDrop _ => unit
  | VLock _ => SessionData
  | VCancelled _ | VClosed _ => bool
  | VGate _ _ => GateId
  | VGateGet _ _ => option GateId
  | VBegin _ => Res Z
  | VResolve o _ _ => Res (Target o * Preconditions o)
  | VPublish _ _ _ => Res ServiceSnapshot
  | VObserve _ _ _ _ => Res ServiceSnapshot
  | VInventory i _ _ _ _ => Res (Snap i)
  | VPlan _ _ _ => Res PlanReceipt
  | VDiscard _ _ _ => Res bool
  | VExecute _ _ _ _ _ => Res ExecutionResult
  | VAudit _ _ _ _ => Res unit
  end.

Abbreviation vio A := (io svc_reply AppError A) (only parsing).
Definition vask (c : svc_call) : prog svc_reply (svc_reply c) := Do c (λ r, Ret r).
(** A call whose reply is a [Result]. *)
Definition vtry {A} (c : svc_call) (f : svc_reply c → Res A) : vio A := Do c (λ r, Ret (f r)).

(** A guard in scope: [let _g = ...try_...().map_err(|_| busy)?; body]. *)
Definition holding {A} (r : Resource) (busy : AppError) (body : vio A) : vio A :=
  let! got := vask (VTry r) in
  if got : bool then
    let! x := (body : prog svc_reply _) in
    let! _ := vask (VDrop r) in
    Ret x
  else io_fail busy.

(** [let data = slot.data.lock().await; body], the lock given back after it. *)
Definition locked {A} (s : SlotId) (body : SessionData → vio A) : vio A :=
  let! d := vask (VLock s) in
  let! x := (body d : prog svc_reply _) in
  let! _ := vask (VDrop (RData s)) in
  Ret x.

(** ** The active session *)

Definition not_current (hs : HostSessionId) (d : SessionData) : bool :=
  bool_decide (Sessions.state d ≠ Connected) || bool_decide (connection_id d ≠ Some hs)
  || bool_decide (hs_session_id (view d) ≠ Some hs).

Record Active := { ac_slot : SlotId; ac_transport : TransportId; ac_token : TokenId; ac_generation : Z }.

(** The block at the start of every session-bound request. *)
Definition active_session (stale : AppError) (h : HostId) (hs : HostSessionId) : vio Active :=
  let! s := vask (VSlot h) in
  locked s (λ d,
    _ ← io_ensure (not_current hs d) stale;
    tr ← io_lift (ok_or (transport d) stale);
    mret {| ac_slot := s; ac_transport := tr; ac_token := cancel d; ac_generation := generation d |}).

(** [cancellation.is_cancelled()], then [transport.is_closed()], stopping at
    the first that holds. *)
Definition stopped (a : Active) : prog svc_reply bool :=
  pbind (vask (VCancelled (ac_token a))) (λ c, if c : bool then Ret true else vask (VClosed (ac_transport a))).

(** The data is no longer that of the session the request started with. *)
Definition moved (hs : HostSessionId) (a : Active) (d : SessionData) : bool :=
  bool_decide (generation d ≠ ac_generation a) || not_current hs d.

(** The check before something is published, planned or dispatched, with the
    same transport object. *)
Definition ensure_active (stale : AppError) (hs : HostSessionId) (a : Active) (d : SessionData) : vio unit :=
  let! over := stopped a in
  io_ensure (over || moved hs a d || bool_decide (transport d ≠ Some (ac_transport a))) stale.

(** ** Admission *)

(** [gate.try_lock_owned()] and [limit.try_acquire()]. *)
Definition take_permits (ar : Area) (g : GateId) (busy : AppError) : vio unit :=
  let! got := vask (VTry (RGate g)) in
  if got : bool then
    let! more := vask (VTry (RLimit ar)) in
    if more : bool then mret tt
    else let! _ := vask (VDrop (RGate g)) in io_fail busy
  else io_fail busy.

(** Both permits go out of scope. *)
Definition drop_permits (ar : Area) (g : GateId) : prog svc_reply unit :=
  pbind (vask (VDrop (RLimit ar))) (λ _, vask (VDrop (RGate g))).

(** ** Services *)

Definition service_stale_session : AppError :=
  app_error Conflict "The service request does not belong to the active host session.".
Definition stale_observation : AppError :=
  app_error Conflict "The service observation is stale; refresh services and try again.".
Definition service_busy : AppError :=
  app_error Conflict "A service request is already in progress or the service limit is reached.".

(** [preconditions.matches(..)] of each operation. *)
Definition row_matches (o : NativeOp) (e : ServiceEntry) : bool :=
  match o with
  | SystemdResetFailed => reset_failed_matches (load_state e) (active_state e) (sub_state e)
  | SystemdTryRestart => try_restart_matches (load_state e) (active_state e) (sub_state e)
  | SystemdReload => reload_matches (load_state e) (active_state e) (sub_state e) (can_reload e)
  | SystemdStart => start_matches (load_state e) (active_state e) (sub_state e) (can_start e)
  end.

(** [exact_failed_service] and its three siblings. *)
Definition exact_service (o : NativeOp) (s : ServiceSnapshot) (u : SystemdServiceUnitName) : Res ServiceEntry :=
  match find (λ e, str_eqb (unit_ e) (as_str u)) (snap_entries s) with
  | Some e => if row_matches o e then Ok e else Err stale_observation
  | None => Err stale_observation
  end.
Definition exact_failed_service := exact_service SystemdResetFailed.
Definition exact_running_service := exact_service SystemdTryRestart.
Definition exact_reloadable_service := exact_service SystemdReload.
Definition exact_startable_service := exact_service SystemdStart.

Definition binding_of (h : HostId) (hs : HostSessionId) (a : Active) : AuthorityBinding :=
  {| ab_host_id := h; ab_host_session_id := hs; ab_generation := ac_generation a |}.

Definition list_host_services (h : HostId) (hs : HostSessionId) : vio ServiceSnapshot :=
  admitted ← holding RMutation service_busy (
    _ ← vtry (VRepository h) id;
    a ← active_session service_stale_session h hs;
    sequence ← vtry (VBegin h) id;
    let! g := vask (VGate AreaServices h) in
    _ ← take_permits AreaServices g service_busy;
    mret (a, sequence, g));
  let '(a, sequence, g) := admitted in
  let! observed := vask (VObserve (ac_transport a) (ac_token a) h hs) in
  let! _ := drop_permits AreaServices g in
  snapshot ← io_lift (observed : Res ServiceSnapshot);
  holding (RLifecycle h) service_busy (
    locked (ac_slot a) (λ d,
      _ ← ensure_active connection_cancelled hs a d;
      vtry (VPublish (binding_of h hs a) sequence snapshot) id)).

(** *** Planning *)

Definition EFFECT (o : NativeOp) : string :=
  match o with
  | SystemdResetFailed => "Clears the selected service's failed state and rate-limit/restart counters. It does not intentionally start or stop the service, but it can affect later service behavior."
  | SystemdTryRestart => "Restarts the selected running service, which may be temporarily unavailable. Systemd may affect dependency-related jobs according to the unit configuration. Successful command completion does not guarantee application-level health. If the service becomes inactive before command execution, try-restart may perform no restart. There is no rollback."
  | SystemdReload => "Requests the selected running service to reload using its systemd-defined reload mechanism. The service may apply configuration immediately and dependent traffic or behavior may change. CanReload only indicates that systemd exposes reload support; it does not guarantee application-level safety or health. Successful command completion does not prove the application is healthy. There is no rollback."
  | SystemdStart => "Requests systemd to start the selected inactive service. Starting the service executes its configured start behavior and may activate dependencies, bind network listeners, process work, or otherwise change host behavior. CanStart only indicates that systemd exposes start support; it does not guarantee permission, configuration validity, application health, or that the service will remain running. There is no automatic rollback."
  end.

(** [ServiceResetFailedPlan] and its siblings; [sp_can_reload] and
    [sp_can_start] are fields of two of them. *)
Record ServicePlan := {
  sp_plan_id : RemoteOperationPlanId; sp_host_id : HostId; sp_host_session_id : HostSessionId; sp_unit : str;
  sp_load_state : str; sp_active_state : str; sp_sub_state : str; sp_can_reload : option bool; sp_can_start : option bool;
  sp_risk : OperationRisk; sp_expires_in_seconds : Z; sp_effect : string
}.

Definition shown_states (o : NativeOp) : str * str * str :=
  match o with
  | SystemdResetFailed => (lit "loaded", lit "failed", lit "failed")
  | SystemdTryRestart | SystemdReload => (lit "loaded", lit "active", lit "running")
  | SystemdStart => (lit "loaded", lit "inactive", lit "dead")
  end.

(** The expiry is [PLAN_TTL.as_secs()]. *)
Definition service_plan (o : NativeOp) (h : HostId) (hs : HostSessionId) (u : SystemdServiceUnitName) (r : PlanReceipt) : ServicePlan :=
  {| sp_plan_id := pr_id r; sp_host_id := h; sp_host_session_id := hs; sp_unit := as_str u;
     sp_load_state := (shown_states o).1.1; sp_active_state := (shown_states o).1.2; sp_sub_state := (shown_states o).2;
     sp_can_reload := match o with SystemdReload => Some true | _ => None end;
     sp_can_start := match o with SystemdStart => Some true | _ => None end;
     sp_risk := pr_risk r; sp_expires_in_seconds := PLAN_TTL / from_secs 1; sp_effect := EFFECT o |}.

Definition plan_service (o : NativeOp) (h : HostId) (hs : HostSessionId) (id_ : ServiceObservationId) : vio ServicePlan :=
  _ ← vtry (VRepository h) id;
  a ← active_session service_stale_session h hs;
  let b := binding_of h hs a in
  observed ← vtry (VResolve o id_ b) id;
  let! g := vask (VGate AreaServices h) in
  _ ← take_permits AreaServices g service_busy;
  let! listing := vask (VObserve (ac_transport a) (ac_token a) h hs) in
  let! _ := drop_permits AreaServices g in
  snapshot ← io_lift (listing : Res ServiceSnapshot);
  _ ← io_lift (exact_service o snapshot observed.1);
  holding (RLifecycle h) service_busy (
    _ ← locked (ac_slot a) (ensure_active service_stale_session hs a);
    observed ← vtry (VResolve o id_ b) id;
    receipt ← vtry (VPlan o {| dr_binding := b; dr_target := observed.1; dr_preconditions := observed.2; dr_payload := tt |} b) id;
    mret (service_plan o h hs observed.1 receipt)).
Definition plan_service_reset_failed := plan_service SystemdResetFailed.
Definition plan_service_try_restart := plan_service SystemdTryRestart.
Definition plan_service_reload := plan_service SystemdReload.
Definition plan_service_start := plan_service SystemdStart.

(** *** Discarding *)

Definition discard_service (o : NativeOp) (h : HostId) (hs : HostSessionId) (plan_id : RemoteOperationPlanId) : vio bool :=
  holding (RLifecycle h) service_busy (
    let! s := vask (VSlot h) in
    g ← locked s (λ d, _ ← io_ensure (not_current hs d) service_stale_session; mret (generation d));
    vtry (VDiscard o plan_id {| ab_host_id := h; ab_host_session_id := hs; ab_generation := g |}) id).
Definition discard_service_reset_failed := discard_service SystemdResetFailed.
Definition discard_service_try_restart := discard_service SystemdTryRestart.
Definition discard_service_reload := discard_service SystemdReload.
Definition discard_service_start := discard_service SystemdStart.

(** *** Executing *)

Inductive AuditStatus := Persisted | NotPersisted.
Inductive PostObservationStatus := Refreshed | Unavailable.
Record ServiceResult := {
  sr_outcome : RemoteOperationOutcome; sr_audit_status : AuditStatus;
  sr_post_observation_status : PostObservationStatus; sr_snapshot : option ServiceSnapshot
}.

Definition audit_kind (o : NativeOp) : string :=
  match o with
  | SystemdResetFailed => "service.reset_failed"
  | SystemdTryRestart => "service.try_restart"
  | SystemdReload => "service.reload"
  | SystemdStart => "service.start"
  end.
Definition audit_risk (o : NativeOp) : OperationRisk :=
  match o with SystemdResetFailed => Moderate | _ => High end.
Definition audit_outcome (o : RemoteOperationOutcome) : AuditOutcome :=
  match o with
  | OSuccess => AuditSuccess | OCancelled => AuditCancelled | OFailed => AuditFailed | OOutcomeUnknown => AuditOutcomeUnknown
  end.

Definition execute_service (o : NativeOp) (h : HostId) (hs : HostSessionId) (plan_id : RemoteOperationPlanId) : vio ServiceResult :=
  a ← active_session service_stale_session h hs;
  execution ← vtry (VExecute o plan_id (binding_of h hs a) (ac_transport a) (ac_token a)) id;
  let! audit := vask (VAudit h (audit_kind o) (audit_risk o) (audit_outcome (er_outcome execution))) in
  let! listing := (list_host_services h hs : prog svc_reply _) in
  mret {| sr_outcome := er_outcome execution;
          sr_audit_status := (if is_ok (audit : Res unit) then Persisted else NotPersisted);
          sr_post_observation_status := (if is_ok listing then Refreshed else Unavailable);
          sr_snapshot := res_ok listing |}.
Definition execute_service_reset_failed := execute_service SystemdResetFailed.
Definition execute_service_try_restart := execute_service SystemdTryRestart.
Definition execute_service_reload := execute_service SystemdReload.
Definition execute_service_start := execute_service SystemdStart.

(** [revalidate] of the four revalidators, which [execute] calls between
    consuming the authority and dispatching it; the gate stays held as the
    dispatch guard. *)
Definition revalidate (o : NativeOp) (b : AuthorityBinding) (a : Active) (authority : ConsumedAuthority o) : vio GateId :=
  let! cancelled := (if bool_decide (ca_binding authority ≠ b) || bool_decide (ca_risk authority ≠ audit_risk o)
                     then Ret true else vask (VCancelled (ac_token a))) in
  _ ← io_ensure cancelled stale_observation;
  let! found := vask (VGateGet AreaServices (ab_host_id b)) in
  g ← io_lift (ok_or found service_busy);
  _ ← take_permits AreaServices g service_busy;
  let! listing := vask (VObserve (ac_transport a) (ac_token a) (ab_host_id b) (ab_host_session_id b)) in
  let! checked :=
    (snapshot ← io_lift (listing : Res ServiceSnapshot);
     _ ← io_lift (exact_service o snapshot (ca_target authority));
     locked (ac_slot a) (ensure_active service_stale_session (ab_host_session_id b) a) : prog svc_reply _) in
  let! _ := vask (VDrop (RLimit AreaServices)) in
  match checked with
  | Ok _ => mret g
  | Err e => let! _ := vask (VDrop (RGate g)) in io_fail e
  end.

Definition revalidate_reset_failed := revalidate SystemdResetFailed.
Definition revalidate_try_restart := revalidate SystemdTryRestart.
Definition revalidate_reload := revalidate SystemdReload.
Definition revalidate_start := revalidate SystemdStart.

(** ** Network, logs and containers *)

Definition inventory_stale (ar : Area) : AppError :=
  match ar with
  | AreaServices => service_stale_session
  | AreaNetwork => app_error Conflict "The network request does not belong to the active host session."
  | AreaLogs => app_error Conflict "The log request does not belong to the active host session."
  | AreaContainers => app_error Conflict "The container request does not belong to the active host session."
  end.
Definition inventory_busy (ar : Area) : AppError :=
  match ar with
  | AreaServices => service_busy
  | AreaNetwork => app_error Conflict "A network inventory request is already in progress or the network limit is reached."
  | AreaLogs => app_error Conflict "A log inventory request is already in progress or the log limit is reached."
  | AreaContainers => app_error Conflict "A container inventory request is already in progress or the container limit is reached."
  end.

(** The end of the request: network looks at the token only, the others at
    the transport first. *)
Definition inventory_over (ar : Area) (a : Active) : prog svc_reply bool :=
  match ar with
  | AreaNetwork => vask (VCancelled (ac_token a))
  | _ => pbind (vask (VClosed (ac_transport a))) (λ c, if c : bool then Ret true else vask (VCancelled (ac_token a)))
  end.

(** [with_network_admission], [list_host_logs] and [list_host_containers]. *)
Definition list_inventory (i : Inventory) (h : HostId) (hs : HostSessionId) : vio (Snap i) :=
  let ar := area_of i in
  admitted ← holding RMutation (inventory_busy ar) (
    _ ← vtry (VRepository h) id;
    a ← active_session (inventory_stale ar) h hs;
    let! g := vask (VGate ar h) in
    _ ← take_permits ar g (inventory_busy ar);
    mret (a, g));
  let '(a, g) := admitted in
  let! result := vask (VInventory i (ac_transport a) (ac_token a) h hs) in
  let! answer := (locked (ac_slot a) (λ d,
    let! over := inventory_over ar a in
    _ ← io_ensure (over || moved hs a d) connection_cancelled;
    io_lift (result : Res (Snap i))) : prog svc_reply _) in
  let! _ := drop_permits ar g in
  Ret answer.
Definition list_host_network := list_inventory INetwork.
Definition list_host_routes := list_inventory IRoutes.
Definition list_host_listening_ports := list_inventory IListeningPorts.
Definition list_host_dns_configuration := list_inventory IDnsConfiguration.
Definition list_host_logs := list_inventory ISystemJournal.
Definition list_host_containers := list_inventory IDockerContainers.
End Requests.
