(* ===== verification/ServicesSafe.v ===== *)
(** The application's session-bound requests: what they hold while they work,
    what a service plan rests on, what an execution leaves behind. *)

From S2P Require Import Prelude Str Model SystemdUnit Authority Foundation Observations ObservationsSafe Ip IpText Hosts Prog Interp SshChannel SshChannelSafe KnownHosts Sessions Services.

Section Safe.
Context (Snap : Inventory → Type).
Abbreviation vprog A := (prog (svc_reply Snap) A) (only parsing).
Abbreviation vevent := (event (svc_reply Snap)) (only parsing).

(** ** Guards

    [Held]: how often each resource is held.  [policed p n Q]: whatever the
    replies, every call of [p] started with [n] is allowed where it is made,
    and [p] ends with [Q]. *)
Abbreviation Held := (Resource → Z) (only parsing).

Definition change (c : svc_call) (x : svc_reply Snap c) (n : Held) : Held :=
  match c return svc_reply Snap c → Held with
  | VTry r => λ got : bool, λ r', n r' + if got && bool_decide (r' = r) then 1 else 0
  | VLock s => λ _, λ r', n r' + if bool_decide (r' = RData s) then 1 else 0
  | VDrop r => λ _, λ r', n r' - if bool_decide (r' = r) then 1 else 0
  | _ => λ _, n
  end x.

Definition admitted (a : Area) (n : Held) : Prop := n (RLimit a) = 1 ∧ ∃ g, n (RGate g) = 1.
Definition free_handed (n : Held) : Prop := ∀ r, n r = 0.

Definition allowed (c : svc_call) (n : Held) : Prop :=
  match c with
  | VDrop r => 0 < n r
  | VLock s => n (RData s) = 0
  | VBegin _ => n RMutation = 1
  | VObserve _ _ _ _ => admitted AreaServices n ∧ n RMutation = 0
  | VInventory i _ _ _ _ => admitted (area_of i) n ∧ n RMutation = 0
  | VPublish b _ _ => n (RLifecycle (ab_host_id b)) = 1 ∧ ∃ s, n (RData s) = 1
  | VPlan _ _ b | VDiscard _ _ b => n (RLifecycle (ab_host_id b)) = 1
  | VExecute _ _ _ _ _ | VAudit _ _ _ _ => free_handed n
  | _ => True
  end.

Fixpoint policed {A} (p : vprog A) (n : Held) (Q : A → Held → Prop) : Prop :=
  match p with
  | Ret a => Q a n
  | Do c k => allowed c n ∧ ∀ x, policed (k x) (change c x n) Q
  end.

Lemma policed_mono {A} (p : vprog A) n (Q Q' : A → Held → Prop) : (∀ a n, Q a n → Q' a n) → policed p n Q → policed p n Q'.
Proof. intros H. revert n. induction p as [a|c k IH]; intros n; cbn; [auto|]. intros [? Hk]. eauto. Qed.

Lemma policed_bind {A B} (p : vprog A) (f : A → vprog B) n Q :
  policed p n (λ a n', policed (f a) n' Q) → policed (pbind p f) n Q.
Proof. revert n. induction p as [a|c k IH]; intros n; cbn; [done|]. intros [? Hk]. eauto. Qed.

Lemma policed_io_bind {E A B} (p : io (svc_reply Snap) E A) (f : A → io (svc_reply Snap) E B) n Q :
  policed (p : vprog _) n (λ x n', match x with Ok a => policed (f a : vprog _) n' Q | Err e => Q (Err e) n' end) →
  policed (p ≫= f : vprog _) n Q.
Proof. intros H. apply policed_bind. eapply policed_mono; [|exact H]. by intros [a|e]. Qed.

(** The resources held after a run. *)
Definition held_after (n : Held) (t : list vevent) : Held := foldl (λ n e, change (ev_call e) (ev_reply e) n) n t.

Lemma policed_runs {A} (p : vprog A) n Q t a : policed p n Q → runs p t a →
  Q a (held_after n t) ∧ ∀ t1 c x t2, t = t1 ++ Ev c x :: t2 → allowed c (held_after n t1).
Proof.
  intros Hp Hr. revert n Hp. induction Hr as [a|c k x t a Hr IH]; intros n Hp; cbn in Hp.
  - split; [done|]. intros [] ? ? ?; done.
  - destruct Hp as [Ha Hk]. destruct (IH _ (Hk x)) as [HQ Hall]. split; [exact HQ|]. intros [|e t1] c' x' t2; cbn.
    + intros [= E _ _]. by rewrite <-E.
    + intros [= <- ->]. cbn. by eapply Hall.
Qed.

Definition plus (n : Held) (r : Resource) : Held := λ r', n r' + if bool_decide (r' = r) then 1 else 0.

(** Decide what is held. *)
Ltac held := unfold plus, admitted, free_handed in *; cbn in *; intros; repeat case_bool_decide; simplify_eq; try done; try lia.

Lemma change_ext c x n m : (∀ r, n r = m r) → ∀ r, change c x n r = change c x m r.
Proof. intros H r. destruct c; cbn in *; by rewrite ?H. Qed.

Lemma allowed_ext c n m : (∀ r, n r = m r) → allowed c n → allowed c m.
Proof.
  intros H. destruct c; cbn; unfold admitted, free_handed; rewrite ?H; try done.
  - intros [? [z Hz]]. split; [done|]. exists z. by rewrite <-H.
  - intros [[? [z Hz]] ?]. split; [|done]. split; [done|]. exists z. by rewrite <-H.
  - intros [[? [z Hz]] ?]. split; [|done]. split; [done|]. exists z. by rewrite <-H.
  - intros Hf r. by rewrite <-H.
  - intros Hf r. by rewrite <-H.
Qed.

(** The resources [p] ends with, by its result. *)
Definition leaves {A} (p : vprog A) (n : Held) (F : A → Held) : Prop := policed p n (λ a n', ∀ r, n' r = F a r).

Lemma leaves_ext {A} (p : vprog A) n m F : (∀ r, n r = m r) → leaves p n F → leaves p m F.
Proof.
  unfold leaves. revert n m. induction p as [a|c k IH]; intros n m H; cbn.
  - intros HF r. by rewrite <-H.
  - intros [Ha Hk]. split; [by apply (allowed_ext c n)|]. intros x. eapply IH; [|apply Hk]. by apply change_ext.
Qed.

Lemma leaves_bind {A B} (p : vprog A) (f : A → vprog B) n F G :
  leaves p n F → (∀ a, leaves (f a) (F a) G) → leaves (pbind p f) n G.
Proof.
  intros Hp Hf. apply policed_bind. eapply policed_mono; [|exact Hp]. intros a n' Hn. eapply leaves_ext; [|apply Hf]. done.
Qed.

Lemma leaves_io_bind {E A B} (p : io (svc_reply Snap) E A) (f : A → io (svc_reply Snap) E B) n F G :
  leaves (p : vprog _) n F → (∀ a, leaves (f a : vprog _) (F (Ok a)) G) → (∀ e r, F (Err e) r = G (Err e) r) →
  leaves (p ≫= f : vprog _) n G.
Proof. intros Hp Hf He. eapply leaves_bind; [exact Hp|]. intros [a|e]; [apply Hf|]. by intros r. Qed.

Lemma leaves_ret {A} (a : A) n F : (∀ r, n r = F a r) → leaves (Ret a : vprog _) n F.
Proof. done. Qed.

(** A call that moves no resource. *)
Lemma leaves_call c n : allowed c n → (∀ x r, change c x n r = n r) → leaves (vask Snap c) n (λ _, n).
Proof. intros Ha Hc. split; [done|]. intros x r. apply Hc. Qed.

Lemma leaves_vtry {A} c (f : svc_reply Snap c → Res A) n : allowed c n → (∀ x r, change c x n r = n r) →
  leaves (vtry Snap c f : vprog _) n (λ _, n).
Proof. intros Ha Hc. split; [done|]. intros x r. apply Hc. Qed.

Lemma leaves_drop c n : leaves (vask Snap (VDrop c)) (plus n c) (λ _, n) ↔ 0 ≤ n c.
Proof.
  unfold leaves. cbn. split.
  - intros [H _]. held.
  - intros H. split; held.
Qed.

(** A guard leaves what its body leaves beside it. *)
Lemma leaves_holding {A} r busy (body : io (svc_reply Snap) AppError A) n F :
  leaves (body : vprog _) (plus n r) (λ x, plus (F x) r) → (∀ x, 0 ≤ F x r) → (∀ r', F (Err busy) r' = n r') →
  leaves (holding Snap r busy body : vprog _) n F.
Proof.
  intros Hb Hp He. apply (leaves_bind (vask Snap (VTry r)) _ n (λ got : bool, if got then plus n r else n)).
  - split; [done|]. intros [|] r'; held.
  - intros [|].
    + eapply leaves_bind; [exact Hb|]. intros x. eapply leaves_bind; [by apply leaves_drop|]. intros ?. by apply leaves_ret.
    + apply leaves_ret. intros r'. by rewrite He.
Qed.

Lemma leaves_locked {A} s (body : SessionData → io (svc_reply Snap) AppError A) n F :
  n (RData s) = 0 → (∀ d, leaves (body d : vprog _) (plus n (RData s)) (λ x, plus (F x) (RData s))) → (∀ x, 0 ≤ F x (RData s)) →
  leaves (locked Snap s body : vprog _) n F.
Proof.
  intros Hn Hb Hp. apply (leaves_bind (vask Snap (VLock s)) _ n (λ _, plus n (RData s))).
  - split; [done|]. intros d r. held.
  - intros d. eapply leaves_bind; [apply Hb|]. intros x. eapply leaves_bind; [by apply leaves_drop|]. intros ?. by apply leaves_ret.
Qed.

Lemma leaves_active stale h hs n : (∀ s, n (RData s) = 0) → leaves (active_session Snap stale h hs : vprog _) n (λ _, n).
Proof.
  intros Hn. eapply leaves_bind; [by apply leaves_call|]. intros s. apply leaves_locked; [apply Hn| |intros _; by rewrite Hn].
  intros d. eapply leaves_io_bind; [by apply leaves_ret with (F := λ _, plus n (RData s))| |done].
  intros []. eapply leaves_io_bind; [by apply leaves_ret with (F := λ _, plus n (RData s))|intros tr; by apply leaves_ret|done].
Qed.

Lemma leaves_ensure_active stale hs a d n : leaves (ensure_active Snap stale hs a d : vprog _) n (λ _, n).
Proof.
  eapply leaves_bind with (F := λ _, n).
  - eapply leaves_bind; [by apply leaves_call|]. intros [|]; [by apply leaves_ret|by apply leaves_call].
  - intros over. by apply leaves_ret.
Qed.

Definition with_permits (ar : Area) (g : GateId) (n : Held) : Held := plus (plus n (RGate g)) (RLimit ar).

Lemma leaves_permits ar g busy n : 0 ≤ n (RGate g) →
  leaves (take_permits Snap ar g busy : vprog _) n (λ x, if is_ok x then with_permits ar g n else n).
Proof.
  intros Hg. unfold with_permits, take_permits, leaves. cbn. split; [done|]. intros [|]; [|held].
  cbn. split; [done|]. intros [|]; [held|]. cbn. split; held.
Qed.

Lemma leaves_drop_permits ar g n : 0 ≤ n (RGate g) → 0 ≤ n (RLimit ar) →
  leaves (drop_permits Snap ar g) (with_permits ar g n) (λ _, n).
Proof.
  intros Hg Hl. eapply leaves_bind; [apply leaves_drop; held|]. intros ?. by apply leaves_drop.
Qed.

(** A call in the middle of a program that moves no resource. *)
Lemma leaves_ask {A} c (f : svc_reply Snap c → vprog A) n G :
  allowed c n → (∀ x r, change c x n r = n r) → (∀ x, leaves (f x) n G) → leaves (pbind (vask Snap c) f) n G.
Proof. intros Ha Hc Hf. eapply leaves_bind; [by apply leaves_call|]. apply Hf. Qed.

(** The result of a call, an error of which ends the program. *)
Lemma leaves_try {A B} c (g : svc_reply Snap c → Res A) (f : A → io (svc_reply Snap) AppError B) n G :
  allowed c n → (∀ x r, change c x n r = n r) → (∀ a, leaves (f a : vprog _) n G) → (∀ e r, n r = G (Err e) r) →
  leaves ((vtry Snap c g ≫= f) : vprog _) n G.
Proof. intros Ha Hc Hf He. eapply leaves_io_bind; [by apply leaves_vtry|done|done]. Qed.

(** A pure check. *)
Lemma leaves_check {A B} (x : Res A) (f : A → io (svc_reply Snap) AppError B) n G :
  (∀ a, leaves (f a : vprog _) n G) → (∀ e r, n r = G (Err e) r) → leaves ((io_lift x ≫= f) : vprog _) n G.
Proof. intros Hf He. eapply leaves_io_bind; [by apply leaves_ret with (F := λ _, n)|done|done]. Qed.

Lemma leaves_session {B} stale h hs (f : Active → io (svc_reply Snap) AppError B) n G :
  (∀ s, n (RData s) = 0) → (∀ a, leaves (f a : vprog _) n G) → (∀ e r, n r = G (Err e) r) →
  leaves ((active_session Snap stale h hs ≫= f) : vprog _) n G.
Proof. intros Hn Hf He. eapply leaves_io_bind; [by apply leaves_active|done|done]. Qed.

Definition nothing : Held := λ _, 0.

(** What the admission part of a listing ends with. *)
Definition with_gate {X} (ar : Area) (gate : X → GateId) (n : Held) (x : Res X) : Held :=
  match x with Ok y => with_permits ar (gate y) n | Err _ => n end.

Lemma leaves_list_services h hs : leaves (list_host_services Snap h hs : vprog _) nothing (λ _, nothing).
Proof.
  unfold list_host_services. eapply leaves_io_bind with (F := with_gate AreaServices (λ x, x.2) nothing); [|intros [[a seq] g]|done].
  - apply leaves_holding; [|intros [x|e]; held|done]. apply leaves_try; [done|done| |done]. intros [].
    apply leaves_session; [held| |done]. intros a. apply leaves_try; [held|done| |done]. intros seq.
    apply leaves_ask; [done|done|]. intros g. eapply leaves_io_bind; [apply leaves_permits; held| |done].
    intros []. apply leaves_ret. intros r. cbn. unfold with_permits. held.
  - cbn [with_gate snd]. apply leaves_ask; [unfold with_permits; cbn; split; [split|]; [|exists g|]; held|done|]. intros observed.
    eapply leaves_bind; [apply leaves_drop_permits; done|]. intros ?. apply leaves_check; [|done]. intros snapshot.
    apply leaves_holding; [|done|done]. apply leaves_locked; [done| |done]. intros d.
    eapply leaves_io_bind; [apply leaves_ensure_active| |done]. intros []. apply leaves_vtry; [|done].
    cbn. split; [held|]. exists (ac_slot a). held.
Qed.

Lemma leaves_inventory i h hs : leaves (list_inventory Snap i h hs : vprog _) nothing (λ _, nothing).
Proof.
  unfold list_inventory. eapply leaves_io_bind with (F := with_gate (area_of i) snd nothing); [|intros [a g]|done].
  - apply leaves_holding; [|intros [x|e]; held|done]. apply leaves_try; [done|done| |done]. intros [].
    apply leaves_session; [held| |done]. intros a. apply leaves_ask; [done|done|]. intros g.
    eapply leaves_io_bind; [apply leaves_permits; held| |done]. intros []. apply leaves_ret. intros r. cbn. unfold with_permits. held.
  - cbn [with_gate snd]. apply leaves_ask; [unfold with_permits; cbn; split; [split|]; [|exists g|]; held|done|]. intros result.
    eapply leaves_bind with (F := λ _, with_permits (area_of i) g nothing).
    + apply leaves_locked; [unfold with_permits; held| |intros _; unfold with_permits; held]. intros d.
      eapply leaves_bind with (F := λ _, plus (with_permits (area_of i) g nothing) (RData (ac_slot a))).
      * unfold inventory_over. destruct (area_of i); try by apply leaves_call.
        all: apply leaves_ask; [done|done|]; intros [|]; [by apply leaves_ret|by apply leaves_call].
      * intros over. apply leaves_check; [|done]. intros []. by apply leaves_ret.
    + intros answer. eapply leaves_bind; [by apply leaves_drop_permits|]. intros ?. by apply leaves_ret.
Qed.

Lemma leaves_plan o h hs id : leaves (plan_service Snap o h hs id : vprog _) nothing (λ _, nothing).
Proof.
  unfold plan_service. apply leaves_try; [done|done| |done]. intros []. apply leaves_session; [done| |done]. intros a.
  apply leaves_try; [done|done| |done]. intros observed. apply leaves_ask; [done|done|]. intros g.
  eapply leaves_io_bind; [by apply leaves_permits| |done]. intros []. cbn [is_ok].
  apply leaves_ask; [unfold with_permits; cbn; split; [split|]; [|exists g|]; held|done|]. intros listing.
  eapply leaves_bind; [by apply leaves_drop_permits|]. intros ?. apply leaves_check; [|done]. intros snapshot.
  apply leaves_check; [|done]. intros row. apply leaves_holding; [|done|done].
  eapply leaves_io_bind with (F := λ _, plus nothing (RLifecycle h)); [| |done].
  - apply leaves_locked; [held| |held]. intros d. apply leaves_ensure_active.
  - intros []. apply leaves_try; [done|done| |done]. intros again. apply leaves_try; [held|done| |done]. intros receipt.
    by apply leaves_ret.
Qed.

Lemma leaves_discard o h hs id : leaves (discard_service Snap o h hs id : vprog _) nothing (λ _, nothing).
Proof.
  unfold discard_service. apply leaves_holding; [|done|done]. apply leaves_ask; [done|done|]. intros s.
  eapply leaves_io_bind with (F := λ _, plus nothing (RLifecycle h)); [| |done].
  - apply leaves_locked; [held| |held]. intros d. apply leaves_check; [|done]. intros []. by apply leaves_ret.
  - intros g. apply leaves_vtry; [held|done].
Qed.

Lemma leaves_execute o h hs id : leaves (execute_service Snap o h hs id : vprog _) nothing (λ _, nothing).
Proof.
  unfold execute_service. apply leaves_session; [done| |done]. intros a. apply leaves_try; [done|done| |done]. intros execution.
  apply leaves_ask; [done|done|]. intros audit. eapply leaves_bind; [apply leaves_list_services|]. intros listing. by apply leaves_ret.
Qed.

Lemma leaves_revalidate o b a authority :
  leaves (revalidate Snap o b a authority : vprog _) nothing (λ x, match x with Ok g => plus nothing (RGate g) | Err _ => nothing end).
Proof.
  unfold revalidate. eapply leaves_bind with (F := λ _, nothing).
  { destruct (_ || _); [by apply leaves_ret|by apply leaves_call]. }
  intros c. apply leaves_check; [|done]. intros []. apply leaves_ask; [done|done|]. intros found. apply leaves_check; [|done]. intros g.
  eapply leaves_io_bind; [by apply leaves_permits| |done]. intros []. cbn [is_ok].
  apply leaves_ask; [unfold with_permits; cbn; split; [split|]; [|exists g|]; held|done|]. intros listing.
  eapply leaves_bind with (F := λ _, with_permits AreaServices g nothing).
  - apply leaves_check; [|done]. intros snapshot. apply leaves_check; [|done]. intros row.
    apply leaves_locked; [unfold with_permits; held| |unfold with_permits; held]. intros d. apply leaves_ensure_active.
  - intros checked. eapply leaves_bind; [apply leaves_drop; held|]. intros ?. destruct checked as [?|e]; [by apply leaves_ret|].
    eapply leaves_bind; [by apply leaves_drop|]. intros ?. by apply leaves_ret.
Qed.

(** In every run of [p] each call is allowed by what is held at that point, and
    the run ends with [F]. *)
Definition respects {A} (p : vprog A) (F : A → Held) : Prop := ∀ t x, runs p t x →
  (∀ r, held_after nothing t r = F x r) ∧ ∀ t1 c y t2, t = t1 ++ Ev c y :: t2 → allowed c (held_after nothing t1).

Lemma leaves_respects {A} (p : vprog A) F : leaves p nothing F → respects p F.
Proof. intros Hp t x Hr. by apply (policed_runs p nothing (λ a n', ∀ r, n' r = F a r)). Qed.

(** [C22] However the requests of the application interleave and whatever they
    are told, a request gives back every lock, gate and permit it took, on
    every path, and never one it does not hold or a lock it already holds; a
    host is read only under one of its gates and a permit of the area's
    semaphore, without the metadata lock; a listing is published under the
    host's lifecycle guard and the session's lock, and a plan is made or
    discarded under the guard; operations are executed and audited with
    nothing held.  Only the gate of a successful revalidation is kept, until
    the dispatch is over. *)
Theorem requests_respect_guards :
  (∀ h hs, respects (list_host_services Snap h hs : vprog _) (λ _, nothing)) ∧
  (∀ i h hs, respects (list_inventory Snap i h hs : vprog _) (λ _, nothing)) ∧
  (∀ o h hs id, respects (plan_service Snap o h hs id : vprog _) (λ _, nothing)) ∧
  (∀ o h hs id, respects (discard_service Snap o h hs id : vprog _) (λ _, nothing)) ∧
  (∀ o h hs id, respects (execute_service Snap o h hs id : vprog _) (λ _, nothing)) ∧
  (∀ o b a authority, respects (revalidate Snap o b a authority : vprog _)
     (λ x, match x with Ok g => plus nothing (RGate g) | Err _ => nothing end)).
Proof.
  repeat apply conj; intros; apply leaves_respects;
    auto using leaves_list_services, leaves_inventory, leaves_plan, leaves_discard, leaves_execute, leaves_revalidate.
Qed.

(** ** Successful runs *)

Lemma runs_svc_ask {A} c (f : svc_reply Snap c → vprog A) t x :
  runs (pbind (vask Snap c) f) t x → ∃ y t', t = Ev c y :: t' ∧ runs (f y) t' x.
Proof. intros H. apply runs_do_inv in H as (y & t' & -> & H). eauto. Qed.

Lemma runs_try {A} c (f : svc_reply Snap c → Res A) t a : runs (vtry Snap c f : vprog _) t (Ok a) → ∃ y, t = [Ev c y] ∧ f y = Ok a.
Proof. intros H. apply runs_do_inv in H as (y & t' & -> & [-> E]%runs_ret_inv). by exists y. Qed.

Lemma runs_locked {A} s (body : SessionData → io (svc_reply Snap) AppError A) t x :
  runs (locked Snap s body : vprog _) t x → ∃ d tb, t = Ev (VLock s) d :: tb ++ [Ev (VDrop (RData s)) tt] ∧ runs (body d : vprog _) tb x.
Proof.
  intros H. apply runs_svc_ask in H as (d & t' & -> & H). apply runs_bind in H as (y & tb & t2 & Hb & H & ->).
  apply runs_svc_ask in H as ([] & t3 & -> & [-> ->]%runs_ret_inv). eauto.
Qed.

Lemma runs_holding {A} r busy (body : io (svc_reply Snap) AppError A) t a :
  runs (holding Snap r busy body : vprog _) t (Ok a) →
  ∃ tb, t = Ev (VTry r) true :: tb ++ [Ev (VDrop r) tt] ∧ runs (body : vprog _) tb (Ok a).
Proof.
  intros H. apply runs_svc_ask in H as ([] & t' & -> & H); [|by apply runs_ret_inv in H as [_ ?]].
  apply runs_bind in H as (y & tb & t2 & Hb & H & ->). apply runs_svc_ask in H as ([] & t3 & -> & [-> <-]%runs_ret_inv). eauto.
Qed.

(** The session is the one asked for, connected, with its transport. *)
Record current (hs : HostSessionId) (d : SessionData) : Prop := {
  cu_state : Sessions.state d = Connected;
  cu_connection : connection_id d = Some hs;
  cu_view : hs_session_id (view d) = Some hs
}.

Lemma not_current_false hs d : not_current hs d = false → current hs d.
Proof. unfold not_current. intros H. split_bools. split; by apply dec_stable. Qed.

Lemma runs_active stale h hs t a : runs (active_session Snap stale h hs : vprog _) t (Ok a) →
  ∃ d, t = [Ev (VSlot h) (ac_slot a); Ev (VLock (ac_slot a)) d; Ev (VDrop (RData (ac_slot a))) tt] ∧ current hs d ∧
    transport d = Some (ac_transport a) ∧ cancel d = ac_token a ∧ generation d = ac_generation a.
Proof.
  intros H. apply runs_svc_ask in H as (s & t' & -> & H). apply runs_locked in H as (d & tb & -> & H).
  run_ok H u Hc. apply runs_ensure in Hc as [-> Hc]. run_ok H tr Ht. apply runs_lift in Ht as [-> Ht].
  apply runs_mret in H as [-> ->]. cbn. exists d. split; [done|]. split; [by apply not_current_false|].
  by apply ok_or_ok in Ht.
Qed.

(** Still the same session, as the same transport object. *)
Definition unchanged (hs : HostSessionId) (a : Active) (d : SessionData) : Prop :=
  current hs d ∧ transport d = Some (ac_transport a) ∧ generation d = ac_generation a.

Lemma runs_ensure_active stale hs a d t u : runs (ensure_active Snap stale hs a d : vprog _) t (Ok u) →
  t = [Ev (VCancelled (ac_token a)) false; Ev (VClosed (ac_transport a)) false] ∧ unchanged hs a d.
Proof.
  intros H. apply runs_bind in H as (over & t1 & t2 & Hs & H & ->). apply runs_ensure in H as [-> Hc]. split_bools.
  match goal with H : moved _ _ _ = false |- _ => rename H into Hm end. unfold moved in Hm. split_bools.
  repeat match goal with H : ¬ _ ≠ _ |- _ => apply dec_stable in H end.
  apply runs_svc_ask in Hs as (c & t3 & -> & Hs). destruct c; [apply runs_ret_inv in Hs as [_ Hs]; congruence|].
  apply runs_do_inv in Hs as (y & t4 & -> & [-> E]%runs_ret_inv). split; [cbn; congruence|].
  split; [by apply not_current_false|done].
Qed.

Lemma runs_permits ar g busy t u : runs (take_permits Snap ar g busy : vprog _) t (Ok u) →
  t = [Ev (VTry (RGate g)) true; Ev (VTry (RLimit ar)) true].
Proof.
  intros H. apply runs_svc_ask in H as ([] & t' & -> & H); [|by apply runs_ret_inv in H as [_ ?]].
  apply runs_svc_ask in H as ([] & t2 & -> & H); [by apply runs_ret_inv in H as [-> _]|].
  apply runs_svc_ask in H as (? & t3 & -> & H). by apply runs_ret_inv in H as [_ ?].
Qed.

Lemma runs_drop_permits ar g t u : runs (drop_permits Snap ar g) t u → t = [Ev (VDrop (RLimit ar)) tt; Ev (VDrop (RGate g)) tt].
Proof.
  intros H. apply runs_svc_ask in H as ([] & t' & -> & H). apply runs_do_inv in H as ([] & t2 & -> & [-> _]%runs_ret_inv). done.
Qed.

(** ** What a plan rests on *)

Lemma exact_service_ok o s u e : exact_service o s u = Ok e → e ∈ snap_entries s ∧ unit_ e = as_str u ∧ row_matches o e = true.
Proof.
  unfold exact_service. destruct (find _ _) as [e'|] eqn:Ef; [|done]. destruct (row_matches o e') eqn:Em; [|done]. intros [= <-].
  apply find_some in Ef as [Hin Hu]. split; [by apply list_elem_of_In|]. split; [by apply str_eqb_eq|done].
Qed.

(** The states a plan shows are the ones the operation asks for. *)
Lemma row_matches_shown o e : row_matches o e = true →
  (load_state e, active_state e, sub_state e) = shown_states o ∧ (o = SystemdReload → can_reload e = true) ∧ (o = SystemdStart → can_start e = true).
Proof.
  destruct o; cbn; unfold reset_failed_matches, try_restart_matches, reload_matches, start_matches; intros H; split_bools;
    repeat match goal with H : str_eqb _ _ = true |- _ => apply str_eqb_eq in H as -> end; done.
Qed.

(** The observation store of the application: [resolve_reset_failed] and its
    siblings. *)
Definition resolve_for (o : NativeOp) (now : Instant) (id : ServiceObservationId) (b : AuthorityBinding)
    : st ServiceObservationStore AppError (Target o * Preconditions o) :=
  match o return st ServiceObservationStore AppError (Target o * Preconditions o) with
  | SystemdResetFailed => x ← resolve_reset_failed now id b; mret (rf_unit x, rf_preconditions x)
  | SystemdTryRestart => x ← resolve_try_restart now id b; mret (tr_unit x, tr_preconditions x)
  | SystemdReload => x ← resolve_reload now id b; mret (rl_unit x, rl_preconditions x)
  | SystemdStart => x ← resolve_start now id b; mret (sr_unit x, sr_preconditions x)
  end.

(** The store changes without handing out [id] again: identities are drawn
    once. *)
Inductive fresh_step (id : ServiceObservationId) : ServiceObservationStore → ServiceObservationStore → Prop :=
| fs_publish gen now b seq snap self : (∀ n, gen n ≠ id) → fresh_step id self (publish gen now b seq snap self).2
| fs_remove self self' : obs_step self self' → sets (obs_state self') ⊆ sets (obs_state self) → fresh_step id self self'.

(** The replies to [VResolve] in a run are those of one store that other
    requests use in between. *)
Inductive answered (id : ServiceObservationId) : ServiceObservationStore → list vevent → Prop :=
| an_nil self : answered id self []
| an_step self self' t : fresh_step id self self' → answered id self' t → answered id self t
| an_resolve o now id' b x self self' t :
    resolve_for o now id' b self = (x, self') → answered id self' t → answered id self (Ev (VResolve o id' b) x :: t)
| an_other e self t : (∀ o id' b, ev_call e ≠ VResolve o id' b) → answered id self t → answered id self (e :: t).

Definition unit_of (x : ActionableServiceObservation) : SystemdServiceUnitName :=
  match x with ResetFailed y => rf_unit y | TryRestart y => tr_unit y | Reload y => rl_unit y | Start y => sr_unit y end.

(** The observation [id] of host [h] is one of unit [u], if it is still there. *)
Definition pinned (id : ServiceObservationId) (h : HostId) (u : SystemdServiceUnitName) (self : ServiceObservationStore) : Prop :=
  ∀ set x, sets (obs_state self) !! h = Some set → os_entries set !! id = Some x → unit_of x = u.

Lemma pinned_sub id h u self self' : sets (obs_state self') ⊆ sets (obs_state self) → pinned id h u self → pinned id h u self'.
Proof. intros Hs Hp set x Hh. apply Hp. by eapply lookup_weaken. Qed.

Lemma resolve_sub now id b self : sets (obs_state (resolve now id b self).2) ⊆ sets (obs_state self).
Proof. unfold resolve, obs_lock, obs_set. unfold_bind. obs_sub. Qed.

Lemma resolve_some now id b self x self' : resolve now id b self = (Ok x, self') →
  ∃ set, sets (obs_state self) !! ab_host_id b = Some set ∧ os_entries set !! id = Some x.
Proof.
  unfold resolve, obs_lock, obs_set. unfold_bind. intros H. repeat case_match; simplify_eq/=.
  match goal with H : filter _ _ !! _ = Some ?set |- _ => apply map_lookup_filter_Some in H as [Hl _]; by exists set end.
Qed.

Lemma resolve_for_cases o now id b self x self' : resolve_for o now id b self = (x, self') →
  sets (obs_state self') ⊆ sets (obs_state self) ∧
  ∀ y, x = Ok y → ∃ set z, sets (obs_state self) !! ab_host_id b = Some set ∧ os_entries set !! id = Some z ∧ unit_of z = y.1.
Proof.
  intros H. pose proof (resolve_sub now id b self) as Hsub. pose proof (resolve_some now id b self) as Hsome.
  unfold resolve_for, resolve_reset_failed, resolve_try_restart, resolve_reload, resolve_start in H.
  destruct (resolve now id b self) as [[z|e] s1] eqn:E; cbn in Hsub.
  - destruct (Hsome z s1 eq_refl) as (set & Hs & Hz).
    destruct o, z; cbv [mbind mret st_bind st_ret st_fail] in H; rewrite E in H; cbn in H; simplify_eq/=; (split; [done|]); intros y Hy; simplify_eq/=; eauto 10.
  - destruct o; cbv [mbind mret st_bind st_ret st_fail] in H; rewrite E in H; cbn in H; simplify_eq/=; split; [done|done|done|done|done|done|done|done].
Qed.

Lemma publish_entry_keys gen acc e acc' e' id : publish_entry gen acc e = (acc', e') → (∀ n, gen n ≠ id) →
  acc.2 !! id = None → acc'.2 !! id = None.
Proof.
  intros H Hg Ha. destruct acc as [n m]. cbn in Ha. unfold publish_entry, offer in H.
  repeat case_match; simplify_eq/=; rewrite ?lookup_insert_ne by done; done.
Qed.

Lemma publish_entries_keys gen l acc acc' l' id : publish_entries gen acc l = (acc', l') → (∀ n, gen n ≠ id) →
  acc.2 !! id = None → acc'.2 !! id = None.
Proof.
  intros H Hg. revert acc acc' l' H. induction l as [|e l IH]; intros acc acc' l' H Ha; cbn in H; [by simplify_eq|].
  destruct (publish_entry gen acc e) as [acc1 e1] eqn:E1, (publish_entries gen acc1 l) as [acc2 l2] eqn:E2. simplify_eq.
  eapply IH; [exact E2|]. by eapply publish_entry_keys.
Qed.

Lemma pinned_step id h u self self' : fresh_step id self self' → pinned id h u self → pinned id h u self'.
Proof.
  intros Hs Hp. destruct Hs as [gen now b seq snap self Hg|self self' _ Hsub]; [|by eapply pinned_sub].
  destruct (publish gen now b seq snap self) as [[snap'|e] self'] eqn:E; cbn;
    [|by rewrite (publish_err_state _ _ _ _ _ _ _ _ E)].
  apply publish_ok in E as (acc & He & _ & _ & _ & _ & _ & Hst). intros set x. rewrite Hst. cbn [sets obs_state].
  destruct (decide (h = ab_host_id b)) as [->|Hne].
  - rewrite lookup_insert_eq. intros [= <-]. cbn.
    rewrite (publish_entries_keys _ _ _ _ _ id He Hg (lookup_empty id)). done.
  - rewrite lookup_insert_ne by done. intros Hl. apply Hp.
    eapply lookup_weaken in Hl; [|apply evict_subseteq]. apply lookup_delete_Some in Hl as [_ Hl].
    by apply map_lookup_filter_Some in Hl as [? _].
Qed.

(** The units the store named for [id] in a run. *)
Definition named (id : ServiceObservationId) (h : HostId) (e : vevent) : option SystemdServiceUnitName :=
  match e with
  | Ev (VResolve o id' b) x =>
      if bool_decide (id' = id) && bool_decide (ab_host_id b = h) then fst <$> res_ok (x : Res (Target o * Preconditions o)) else None
  | _ => None
  end.

Lemma answered_pinned id h u self t : answered id self t → pinned id h u self → ∀ e u', e ∈ t → named id h e = Some u' → u' = u.
Proof.
  induction 1 as [self|self self' t Hs _ IH|o now id' b x self self' t Hx _ IH|e self t He _ IH]; intros Hp e' u' Hin Hn.
  - by apply elem_of_nil in Hin.
  - eapply IH; [by eapply pinned_step|done|done].
  - apply resolve_for_cases in Hx as [Hsub Hx]. apply elem_of_cons in Hin as [->|Hin]; [|by eapply IH; [by eapply pinned_sub| |]].
    cbn in Hn. repeat case_bool_decide; simplify_eq/=. destruct x as [y|]; [|done]. cbn in Hn. injection Hn as <-.
    destruct (Hx y eq_refl) as (set & z & Hl & Hz & <-). by eapply Hp.
  - apply elem_of_cons in Hin as [->|Hin]; [|by eapply IH]. exfalso. destruct e as [c y]. cbn in He. destruct c; try done.
    by eapply He.
Qed.

Lemma answered_same id h self t1 e t2 e' u u' : answered id self (t1 ++ e :: t2) → e' ∈ t2 → named id h e = Some u → named id h e' = Some u' →
  u' = u.
Proof.
  intros Ha Hin Hu Hu'. remember (t1 ++ e :: t2) as t eqn:Et. revert t1 Et.
  induction Ha as [self|self self' t Hs _ IH|o now id' b x self self' t Hx Ht IH|e0 self t He _ IH]; intros t1 Et.
  - by destruct t1.
  - by eapply IH.
  - destruct t1 as [|e1 t1]; cbn in Et; [|injection Et as _ ->; by eapply IH]. injection Et as <- ->.
    cbn in Hu. repeat case_bool_decide; simplify_eq/=. destruct x as [y|]; [|done]. cbn in Hu. injection Hu as <-.
    apply resolve_for_cases in Hx as [Hsub Hx]. destruct (Hx y eq_refl) as (set & z & Hl & Hz & Hun).
    eapply (answered_pinned id (ab_host_id b) y.1 self'); [done| |done|done]. eapply pinned_sub; [exact Hsub|].
    intros set' z' Hl' Hz'. rewrite Hl in Hl'. injection Hl' as <-. rewrite Hz in Hz'. by injection Hz' as <-.
  - destruct t1 as [|e1 t1]; cbn in Et; [|injection Et as _ ->; by eapply IH]. injection Et as <- ->.
    exfalso. destruct e0 as [c y]. cbn in He. destruct c; try done. by eapply He.
Qed.

(** The plans a run asked for. *)
Definition plan_made (e : vevent) : option (NativeOp * AuthorityBinding * SystemdServiceUnitName * Res PlanReceipt) :=
  match e with Ev (VPlan o d b) x => Some (o, b, dr_target d, x) | _ => None end.

(** A request read the session [a] in this part of the run. *)
Definition seen_active (hs : HostSessionId) (a : Active) (t : list vevent) : Prop :=
  ∃ d, Ev (VLock (ac_slot a)) d ∈ t ∧ unchanged hs a d.

(** Everything between two [VResolve] of a successful planning. *)
Lemma runs_plan o h hs id t p : runs (plan_service Snap o h hs id : vprog _) t (Ok p) →
  ∃ a snapshot e receipt x y t1 t2,
    t = (t1 ++ [Ev (VResolve o id (binding_of h hs a)) (Ok x)]) ++
        (t2 ++ [Ev (VResolve o id (binding_of h hs a)) (Ok y);
               Ev (VPlan o {| dr_binding := binding_of h hs a; dr_target := y.1; dr_preconditions := y.2; dr_payload := tt |}
                    (binding_of h hs a)) (Ok receipt); Ev (VDrop (RLifecycle h)) tt]) ∧
    omap plan_made t1 = [] ∧ omap plan_made t2 = [] ∧ seen_active hs a t1 ∧
    (∃ t3 t4, t2 = t3 ++ Ev (VObserve (ac_transport a) (ac_token a) h hs) (Ok snapshot) :: t4 ∧ seen_active hs a t4) ∧
    exact_service o snapshot x.1 = Ok e ∧ p = service_plan o h hs y.1 receipt.
Proof.
  intros H. unfold plan_service in H. run_ok H u1 H1. apply runs_try in H1 as (r1 & -> & _). run_ok H a H2.
  apply runs_active in H2 as (d & -> & Hcur & Htr & Htok & Hgen). run_ok H x H3. apply runs_try in H3 as (rx & -> & Ex). cbn in Ex. subst rx.
  apply runs_svc_ask in H as (g & t' & -> & H). run_ok H u2 H4. apply runs_permits in H4 as ->.
  apply runs_svc_ask in H as (listing & t2 & -> & H). apply runs_bind in H as (u3 & t3 & t4 & H5 & H & ->).
  apply runs_drop_permits in H5 as ->. run_ok H snapshot H6. apply runs_lift in H6 as [-> ->].
  run_ok H e H7. apply runs_lift in H7 as [-> He]. apply runs_holding in H as (tb & -> & H).
  run_ok H u4 H8. apply runs_locked in H8 as (d' & tb' & -> & H8). apply runs_ensure_active in H8 as [-> Hun].
  run_ok H y H9. apply runs_try in H9 as (ry & -> & Ey). cbn in Ey. subst ry.
  run_ok H receipt H10. apply runs_try in H10 as (rr & -> & Er). cbn in Er. subst rr. apply runs_mret in H as [-> ->].
  exists a, snapshot, e, receipt, x, y.
  exists [Ev (VRepository h) r1; Ev (VSlot h) (ac_slot a); Ev (VLock (ac_slot a)) d; Ev (VDrop (RData (ac_slot a))) tt].
  exists ([Ev (VGate AreaServices h) g; Ev (VTry (RGate g)) true; Ev (VTry (RLimit AreaServices)) true] ++
     Ev (VObserve (ac_transport a) (ac_token a) h hs) (Ok snapshot) ::
     [Ev (VDrop (RLimit AreaServices)) tt; Ev (VDrop (RGate g)) tt; Ev (VTry (RLifecycle h)) true; Ev (VLock (ac_slot a)) d';
      Ev (VCancelled (ac_token a)) false; Ev (VClosed (ac_transport a)) false; Ev (VDrop (RData (ac_slot a))) tt]).
  split; [done|]. split; [done|]. split; [done|]. split.
  { exists d. split; [by apply list_elem_of_further, list_elem_of_further, list_elem_of_here|done]. }
  split; [|done]. do 2 eexists. split; [done|]. exists d'. split; [|done].
  by apply list_elem_of_further, list_elem_of_further, list_elem_of_further, list_elem_of_here.
Qed.

(** A service plan rests on a fresh reading of the host.  Planning
    succeeds only if the session asked for was active before and after, with
    the same transport and generation; in between the host listed its
    services, with a row of exactly the planned unit whose state the
    operation requires and which is the state the plan shows; exactly one plan
    was made, bound to that session, for the unit of the observation the user
    chose.  The observation store may change in between in every way it does,
    short of handing out the same identity twice. *)
Theorem planned_as_observed o h hs id self t p :
  runs (plan_service Snap o h hs id : vprog _) t (Ok p) → answered id self t →
  ∃ a snapshot e u receipt t1 t2,
    t = t1 ++ Ev (VObserve (ac_transport a) (ac_token a) h hs) (Ok snapshot) :: t2 ∧
    seen_active hs a t1 ∧ seen_active hs a t2 ∧
    e ∈ snap_entries snapshot ∧ unit_ e = as_str u ∧ row_matches o e = true ∧
    omap plan_made t = [(o, binding_of h hs a, u, Ok receipt)] ∧ p = service_plan o h hs u receipt ∧
    (load_state e, active_state e, sub_state e) = (sp_load_state p, sp_active_state p, sp_sub_state p).
Proof.
  intros H Ha. apply runs_plan in H as (a & snapshot & e & receipt & x & y & t1 & t2 & Et & P1 & P2 & S1 & (t3 & t4 & E2 & S2) & He & ->).
  apply exact_service_ok in He as (Hin & Hu & Hm). destruct (row_matches_shown _ _ Hm) as [Hst _].
  assert (y.1 = x.1) as Exy.
  { rewrite Et, <-app_assoc in Ha.
    eapply (answered_same id h _ _ _ _ (Ev (VResolve o id (binding_of h hs a)) (Ok y)) _ _ Ha); cbn;
      [|by rewrite !bool_decide_eq_true_2|by rewrite !bool_decide_eq_true_2].
    apply elem_of_app. right. apply list_elem_of_here. }
  exists a, snapshot, e, y.1, receipt.
  match type of Et with t = (_ ++ ?R) ++ (_ ++ ?L) => exists ((t1 ++ R) ++ t3), (t4 ++ L) end. rewrite Et, E2 in *. clear t Et E2 Ha.
  split; [by rewrite <-!app_assoc|].
  split; [|split; [|split; [done|split; [by rewrite Exy|split; [done|split; [|split; [done|]]]]]]].
  - destruct S1 as (d & Hd & Hun). exists d. split; [|done]. apply elem_of_app. left. apply elem_of_app. by left.
  - destruct S2 as (d & Hd & Hun). exists d. split; [|done]. apply elem_of_app. by left.
  - rewrite !omap_app in P2. cbn in P2. rewrite !omap_app. cbn. rewrite P1. apply app_eq_nil in P2 as [-> ->]. done.
  - rewrite Hst. cbn. by destruct (shown_states o) as [[? ?] ?].
Qed.

(** ** Executing and auditing *)

Definition executed (e : vevent) : option (NativeOp * RemoteOperationPlanId * AuthorityBinding * Res ExecutionResult) :=
  match e with Ev (VExecute o id b _ _) x => Some (o, id, b, x) | _ => None end.
Definition audited (e : vevent) : option (HostId * string * OperationRisk * AuditOutcome * Res unit) :=
  match e with Ev (VAudit h kind risk out) x => Some (h, kind, risk, out, x) | _ => None end.

(** Calls that neither execute nor audit. *)
Definition harmless (c : svc_call) : bool := match c with VExecute _ _ _ _ _ | VAudit _ _ _ _ => false | _ => true end.

Lemma harmless_trace t : Forall (λ e : vevent, harmless (ev_call e) = true) t → omap executed t = [] ∧ omap audited t = [].
Proof.
  induction 1 as [|[c x] t Hc _ [IH1 IH2]]; [done|]. cbn in *. rewrite IH1, IH2. by destruct c.
Qed.

Lemma active_harmless stale h hs : only harmless (active_session Snap stale h hs : vprog _).
Proof.
  split; [done|]. intros s. cbn. split; [done|]. intros d. apply only_bind; [|by intros].
  destruct (ensure _ _); [|done]. by destruct (ok_or _ _).
Qed.

Lemma only_holding {A} r busy (body : io (svc_reply Snap) AppError A) :
  only harmless (body : vprog _) → only harmless (holding Snap r busy body : vprog _).
Proof. intros Hb. split; [done|]. intros [|]; cbn; [|done]. apply only_bind; [done|by intros]. Qed.

Ltac only_calls :=
  repeat (cbn -[ensure]; first [exact I | split; [reflexivity|] | progress intros ? |
    match goal with |- context [match ?x with _ => _ end] => destruct x end]).

Lemma list_harmless h hs : only harmless (list_host_services Snap h hs : vprog _).
Proof.
  apply only_io_bind.
  - apply only_holding. apply only_io_bind; [by split|]. intros []. apply only_io_bind; [apply active_harmless|]. intros a.
    apply only_io_bind; [by split|]. intros seq. only_calls.
  - intros [[a seq] g]. only_calls.
Qed.

(** What an execution did on the wire: it ended before its dispatch, or with the
    outcome of a dispatch that made the calls [w]. *)
Inductive execution_of (o : NativeOp) : list (event ssh_reply) → ExecutionResult → Prop :=
| eo_revalidation : execution_of o [] revalidation_failed
| eo_cancelled : execution_of o [] cancelled_before_dispatch
| eo_dispatch fuel target w out : runs (dispatch o fuel target) w out → execution_of o w (transport_result out).

(** The server reported how the command ended. *)
Definition reports_exit (r : race (option ChannelMsg)) : bool :=
  match r with Won (Some (MExitStatus _ | MExitSignal)) => true | _ => false end.

(** What an audited outcome says of the messages of the channel. *)
Definition audit_meaning (w : list (event ssh_reply)) (a : AuditOutcome) : Prop :=
  match a with
  | AuditSuccess => length (execs w) = 1%nat ∧ list.last (waits w) = Some (got (MExitStatus 0))
  | AuditCancelled => execs w = []
  | AuditFailed => execs w = [] ∨ (length (execs w) = 1%nat ∧
      ∃ m, list.last (waits w) = Some (got m) ∧ (m = MFailure ∨ m = MExitSignal ∨ ∃ n, m = MExitStatus n ∧ n ≠ 0))
  | AuditOutcomeUnknown => length (execs w) = 1%nat ∧ ∀ r, list.last (waits w) = Some r → reports_exit r = false
  end.

Lemma verdict_audited cmd w ms r out :
  execs w = [cmd] → waits w = map got ms ++ [r] → verdict ms r out → audit_meaning w (audit_outcome (operation_outcome out)).
Proof.
  intros He Hw Hv. assert (list.last (waits w) = Some r) as Hl by (by rewrite Hw, last_snoc).
  assert (length (execs w) = 1%nat) as Hn by (by rewrite He).
  destruct Hv as [_ _|n| |m d Hp _|r Hi| |b]; cbn; try (split; [done|]; rewrite Hl; intros ? [= <-]; done); [right; eauto|..].
  - destruct (Z.eqb_spec n 0) as [->|Hz]; cbn; [done|right; eauto 8].
  - right; eauto 8.
  - split; [done|]. rewrite Hl. intros ? [= <-]. by destruct m.
  - split; [done|]. rewrite Hl. intros ? [= <-]. by destruct r as [[[]|]| | |].
Qed.

Lemma execution_audited o w result : execution_of o w result → audit_meaning w (audit_outcome (er_outcome result)).
Proof.
  intros [| |fuel target w' out Hr]; cbn; [by left|done|].
  destruct (wp_runs _ [] w' out _ (dispatch_wp o fuel target) Hr) as [(He & why & -> & _)|[[He [[Hw (why & ->)]|(ms & r & Hw & _ & Hv)]] _]];
    cbn [app] in *.
  - by destruct why; cbn; auto.
  - cbn. rewrite He, Hw. done.
  - by eapply verdict_audited.
Qed.

(** [C21] An execution is audited exactly once, and reported as it was.  Whatever
    happens around it, a request executes at most one plan, the one asked
    for, bound to the session it saw active; the audit log then gets exactly
    one entry, with the kind and the risk of that operation and the outcome of
    that execution, and none if nothing was executed; and neither a failing
    audit log nor a failing refresh changes the outcome that is reported, only
    their own status.  The entry is true of the wire: whatever the execution did
    there, success is audited only if exactly one command was sent and the last
    message is its exit with status zero, a cancellation only if nothing was
    sent, a failure only if nothing was sent or the server refused the command
    or reported its failure, and an unknown outcome only if a command was sent
    and no exit was the last thing heard. *)
Theorem execution_is_audited o h hs plan_id t r :
  runs (execute_service Snap o h hs plan_id : vprog _) t r →
  match omap executed t with
  | [] => omap audited t = [] ∧ is_ok r = false
  | [(o', id, b, x)] => o' = o ∧ id = plan_id ∧ ab_host_id b = h ∧ ab_host_session_id b = hs ∧
      match x with
      | Err e => omap audited t = [] ∧ r = Err e
      | Ok result => ∃ saved answer, omap audited t = [(h, audit_kind o, RISK o, audit_outcome (er_outcome result), saved)] ∧
          r = Ok answer ∧ sr_outcome answer = er_outcome result ∧
          sr_audit_status answer = (if is_ok saved then Persisted else NotPersisted) ∧
          (sr_post_observation_status answer = Refreshed ↔ is_Some (sr_snapshot answer)) ∧
          (∀ w, execution_of o w result → audit_meaning w (audit_outcome (er_outcome result)))
      end
  | _ => False
  end.
Proof.
  intros H. apply runs_bind in H as (x & t1 & t2 & H1 & H & ->).
  destruct (harmless_trace t1) as [E1 A1]; [by eapply only_runs, H1; apply active_harmless|]. rewrite !omap_app, E1, A1. cbn [app].
  destruct x as [a|e]; [|by apply runs_ret_inv in H as [-> ->]]. apply runs_bind in H as (x & t3 & t4 & H2 & H & ->).
  apply runs_do_inv in H2 as (y & t5 & -> & [-> ->]%runs_ret_inv). cbn [id] in H. rewrite !omap_app. cbn [omap list_omap executed audited app].
  destruct y as [result|e]; [|apply runs_ret_inv in H as [-> ->]; done].
  apply runs_svc_ask in H as (saved & t6 & -> & H). apply runs_bind in H as (listing & t7 & t8 & H3 & H & ->).
  destruct (harmless_trace t7) as [E2 A2]; [by eapply only_runs, H3; apply list_harmless|].
  apply runs_ret_inv in H as [-> ->]. rewrite app_nil_r. cbn. rewrite E2, A2. split; [done|]. split; [done|]. split; [done|]. split; [done|].
  exists saved. eexists. split; [by destruct o|]. split; [done|]. split; [done|]. split; [done|]. split.
  - by destruct listing; cbn; split; try intros [? ?].
  - intros w. apply execution_audited.
Qed.

(** ** Revalidation *)

(** [C20] Right before an operation is dispatched it is checked again: the
    revalidator lets it pass only if the consumed authority has the binding
    and the risk of the request, the host, read under its gate, still lists
    exactly the authorized unit in the state the operation requires, and after
    that reading the session is still the bound one, not cancelled, its
    transport open and the same; and the gate stays held. *)
Theorem revalidation_is_fresh o b a authority t g :
  ac_generation a = ab_generation b →
  runs (revalidate Snap o b a authority : vprog _) t (Ok g) →
  ca_binding authority = b ∧ ca_risk authority = RISK o ∧
  ∃ snapshot e d t1 t2,
    t = t1 ++ [Ev (VTry (RGate g)) true; Ev (VTry (RLimit AreaServices)) true;
      Ev (VObserve (ac_transport a) (ac_token a) (ab_host_id b) (ab_host_session_id b)) (Ok snapshot);
      Ev (VLock (ac_slot a)) d; Ev (VCancelled (ac_token a)) false; Ev (VClosed (ac_transport a)) false] ++ t2 ∧
    e ∈ snap_entries snapshot ∧ unit_ e = as_str (ca_target authority) ∧ row_matches o e = true ∧
    current (ab_host_session_id b) d ∧ transport d = Some (ac_transport a) ∧ generation d = ab_generation b ∧
    held_after nothing t (RGate g) = 1.
Proof.
  intros Hg H. assert (held_after nothing t (RGate g) = 1) as Hheld.
  { destruct (leaves_respects _ _ (leaves_revalidate o b a authority) _ _ H) as [Hh _]. rewrite Hh. held. }
  apply runs_bind in H as (c & t1 & t2 & H1 & H & ->). run_ok H u1 H2. apply runs_ensure in H2 as [-> ->].
  destruct (bool_decide (ca_binding authority ≠ b)) eqn:Eb; [by apply runs_ret_inv in H1 as [_ ?]|].
  destruct (bool_decide (ca_risk authority ≠ audit_risk o)) eqn:Er; [by apply runs_ret_inv in H1 as [_ ?]|]. cbn [orb] in H1.
  split_bools. apply dec_stable in Eb, Er. split; [done|]. split; [rewrite Er; by destruct o|].
  apply runs_svc_ask in H as (found & t3 & -> & H). run_ok H g' H3. apply runs_lift in H3 as [-> _].
  run_ok H u2 H4. apply runs_permits in H4 as ->. apply runs_svc_ask in H as (listing & t4 & -> & H).
  apply runs_bind in H as (checked & t5 & t6 & H5 & H & ->). apply runs_svc_ask in H as (dropped & t7 & -> & H).
  destruct checked as [u3|e]; [|apply runs_svc_ask in H as (? & ? & -> & H); by apply runs_ret_inv in H as [_ ?]].
  apply runs_mret in H as [-> ->]. run_ok H5 snapshot H6. apply runs_lift in H6 as [-> ->].
  run_ok H5 e H7. apply runs_lift in H7 as [-> He]. apply runs_locked in H5 as (d & tb & -> & H5).
  apply runs_ensure_active in H5 as [-> (Hcur & Htr & Hgen)]. apply exact_service_ok in He as (Hin & Hu & Hm).
  exists snapshot, e, d, (t1 ++ [Ev (VGateGet AreaServices (ab_host_id b)) found]),
    [Ev (VDrop (RData (ac_slot a))) tt; Ev (VDrop (RLimit AreaServices)) dropped]. split; [rewrite <-(app_assoc t1); reflexivity|].
  repeat (split; [done|]). split; [congruence|done].
Qed.
End Safe.

(** ** A sample host *)
Module ServiceSample.
Definition Nothing (i : Inventory) : Type := unit.
Definition session : SessionData :=
  {| view := {| hs_host_id := 1%N; hs_session_id := Some 7%N; hs_state := Connected; hs_error := None; hs_identity := None;
                hs_capabilities := []; hs_discovery := None |};
     generation := 3; cancel := 20%N; transport := Some 30%N; connection_id := Some 7%N; refreshing := false |}.
Definition receipt : PlanReceipt :=
  {| pr_id := 40%N; pr_binding := ex_obs_binding; pr_risk := High; pr_issued_at := 0; pr_expires_at := 1; pr_superseded := None |}.
Definition result : ExecutionResult := transport_result (CompletionConfirmed true).

(** The host lists the running service and everything is granted. *)
Definition answer (c : svc_call) : svc_reply Nothing c :=
  match c return svc_reply Nothing c with
  | VRepository _ => Ok tt
  | VSlot _ => 10%N
  | VTry _ => true
  | VDrop _ => tt
  | VLock _ => session
  | VCancelled _ | VClosed _ => false
  | VGate _ _ => 50%N
  | VGateGet _ _ => Some 50%N
  | VBegin _ => Ok 1
  | VResolve o id b => (resolve_for o 0 id b ex_obs_published.2).1
  | VPublish _ _ s => Ok s
  | VObserve _ _ _ _ => Ok ex_snapshot
  | VInventory _ _ _ _ _ => Ok tt
  | VPlan _ _ _ => Ok receipt
  | VDiscard _ _ _ => Ok true
  | VExecute _ _ _ _ _ => Ok result
  | VAudit _ _ _ _ => Err connection_cancelled
  end.

Definition planning := interp answer (plan_service Nothing SystemdTryRestart 1 7 0 : prog (svc_reply Nothing) _).
Definition executing := interp answer (execute_service Nothing SystemdTryRestart 1 7 40 : prog (svc_reply Nothing) _).

Definition active : Active := {| ac_slot := 10%N; ac_transport := 30%N; ac_token := 20%N; ac_generation := 3 |}.
Definition authority : ConsumedAuthority SystemdTryRestart :=
  Build_ConsumedAuthority SystemdTryRestart 40%N ex_obs_binding High 0 1 (Unit (lit "nginx.service")) TryRestartPre tt.

Lemma answered_planning : answered Nothing 0 ex_obs_published.2 planning.1.
Proof.
  let t := eval vm_compute in planning.1 in change planning.1 with t.
  repeat first [apply an_nil | apply an_other; [done|] |
    match goal with |- answered _ _ ?self (Ev (VResolve ?o ?i ?b) _ :: _) =>
      apply (an_resolve Nothing 0 o 0 i b _ self (resolve_for o 0 i b self).2); [vm_compute; reflexivity|] end].
Qed.

(** A server that accepts the command and reports its exit. *)
Lemma dispatched : ∃ w, execution_of SystemdTryRestart w result.
Proof.
  assert (∀ t s' out, simulate scripted [MSuccess; MExitStatus 0] (dispatch SystemdTryRestart 10 (Unit (lit "nginx.service"))) = Some (t, s', out) →
    execution_of SystemdTryRestart t (transport_result out)) as H
    by (intros t s' out E; by eapply eo_dispatch, scripted_run).
  eexists. eapply (H _ _ (CompletionConfirmed true)). vm_compute. reflexivity.
Qed.
End ServiceSample.

Lemma planned_as_observed_witness : ∃ p, ServiceSample.planning.2 = Ok p ∧ sp_unit p = lit "nginx.service" ∧
  ∃ receipt, omap (plan_made ServiceSample.Nothing) ServiceSample.planning.1 =
    [(SystemdTryRestart, ex_obs_binding, Unit (lit "nginx.service"), Ok receipt)].
Proof.
  destruct ServiceSample.planning.2 as [p|e] eqn:E; [|by vm_compute in E]. exists p. split; [done|].
  split; [vm_compute in E; by injection E as <-|].
  destruct (planned_as_observed ServiceSample.Nothing SystemdTryRestart 1 7 0 ex_obs_published.2 ServiceSample.planning.1 p)
    as (a & snapshot & e & u & receipt & _ & _ & _ & _ & _ & _ & _ & _ & Hp & _).
  - apply interp_runs_eq. exact E.
  - apply ServiceSample.answered_planning.
  - exists receipt. rewrite Hp. clear E. vm_compute in Hp. injection Hp as Hg Hu _. change (3 = ac_generation a) in Hg. unfold binding_of. by rewrite <-Hg, <-Hu.
Defined.

Lemma execution_is_audited_witness : ∃ answer, ServiceSample.executing.2 = Ok answer ∧ sr_audit_status answer = NotPersisted ∧
  omap (audited ServiceSample.Nothing) ServiceSample.executing.1
    = [(1%N, "service.try_restart"%string, High, AuditSuccess, Err connection_cancelled)] ∧
  ∃ w, execution_of SystemdTryRestart w ServiceSample.result ∧ audit_meaning w AuditSuccess.
Proof.
  destruct ServiceSample.dispatched as [w Hw].
  pose proof (execution_is_audited ServiceSample.Nothing SystemdTryRestart 1 7 40 ServiceSample.executing.1 ServiceSample.executing.2
    (interp_runs _ _)) as H.
  destruct (omap (executed ServiceSample.Nothing) ServiceSample.executing.1) as [|[[[o id] b] x] [|]] eqn:Ex; [by vm_compute in Ex| |done].
  destruct H as (_ & _ & _ & _ & H). vm_compute in Ex. injection Ex as <- <- <- <-.
  destruct H as (saved & answer & Ha & -> & _ & Hs & _ & Hm). exists answer. split; [done|]. rewrite Ha, Hs.
  vm_compute in Ha. injection Ha as <-. split; [done|]. split; [done|]. exists w. split; [done|]. by apply (Hm w).
Defined.

Lemma revalidation_is_fresh_witness : ∃ t, runs (revalidate ServiceSample.Nothing SystemdTryRestart ex_obs_binding ServiceSample.active
    ServiceSample.authority : prog (svc_reply ServiceSample.Nothing) _) t (Ok 50%N) ∧
  held_after ServiceSample.Nothing nothing t (RGate 50) = 1.
Proof.
  eexists. assert (runs (revalidate ServiceSample.Nothing SystemdTryRestart ex_obs_binding ServiceSample.active
    ServiceSample.authority : prog (svc_reply ServiceSample.Nothing) _)
    (interp ServiceSample.answer (revalidate ServiceSample.Nothing SystemdTryRestart ex_obs_binding ServiceSample.active
      ServiceSample.authority : prog (svc_reply ServiceSample.Nothing) _)).1 (Ok 50%N)) as Hr
    by (apply interp_runs_eq; vm_compute; reflexivity).
  split; [exact Hr|].
  destruct (revalidation_is_fresh ServiceSample.Nothing SystemdTryRestart ex_obs_binding ServiceSample.active ServiceSample.authority
    _ 50%N eq_refl Hr) as (_ & _ & snapshot & e & d & t1 & t2 & _ & _ & _ & _ & _ & _ & _ & Hh). exact Hh.
Defined.
