(* ===== verification/Lifecycle.v ===== *)
(** The desktop application's lifecycle
    ([apps/desktop/src-tauri/src/lifecycle.rs]): admission of commands, draining
    them before exit or installation, and the exit attempts.

    Commands, drains and exit attempts run concurrently: [life_step] and
    [exit_step] interleave their steps between two locks or awaits.  A drain
    waits on a [Notify]: it registers, looks at the state, and sleeps until
    [notify_waiters] is called or its deadline passes. *)

From S2P Require Import Prelude Str Model Prog.

(** ** Admission *)

Inductive LifecyclePhase := Running | Sealed | Exclusive | Quiesced.
#[export] Instance LifecyclePhase_eq_dec : EqDecision LifecyclePhase.
Proof. solve_decision. Defined.

Record LifecycleState := { phase : LifecyclePhase; active : Z }.

Definition lifecycle_default : LifecycleState := {| phase := Running; active := 0 |}.

Definition closing_error : AppError := app_error Conflict "NexusOps is closing. Restart the application to continue.".
Definition drain_timeout : AppError :=
  app_error Timeout "NexusOps is still closing. Wait for active operations and try closing again.".

(** [admit]: the answer, the new state and whether the waiters are notified. *)
Definition admit_command (s : LifecycleState) : Res unit * LifecycleState * bool :=
  if bool_decide (phase s ≠ Running) then (Err closing_error, s, false) else
  match checked_add (active s) 1 with
  | None => (Err closing_error, {| phase := Sealed; active := active s |}, true)
  | Some n => (Ok tt, {| phase := phase s; active := n |}, false)
  end.

(** [drop] of a [CommandPermit], which always notifies. *)
Definition drop_permit (s : LifecycleState) : LifecycleState :=
  match checked_sub (active s) 1 with
  | None => {| phase := Sealed; active := active s |}
  | Some n => {| phase := phase s; active := n |}
  end.

Definition seal (s : LifecycleState) : LifecycleState :=
  {| phase := (if bool_decide (phase s = Running) then Sealed else phase s); active := active s |}.

(** The start of [seal_and_drain_others_for], which notifies. *)
Definition claim_exclusive (s : LifecycleState) : Res LifecycleState :=
  if bool_decide (phase s ≠ Running) then Err closing_error else Ok {| phase := Exclusive; active := active s |}.

(** ** Draining *)

(** [seal_and_drain], or [seal_and_drain_others] of a permit. *)
Inductive DrainKind := DrainAll | DrainOthers (permit : N).
#[export] Instance DrainKind_eq_dec : EqDecision DrainKind.
Proof. solve_decision. Defined.

(** A drain in its loop: before [notified.enable()], before it looks at the
    state, and asleep.  The flag tells that it was notified since. *)
Inductive DrainPhase := DPoll | DRegistered (notified : bool) | DWaiting (notified : bool).

(** [state.active] the drain waits for. *)
Definition goal (k : DrainKind) : Z := match k with DrainAll => 0 | DrainOthers _ => 1 end.

Record LifeSys := {
  life : LifecycleState;
  poisoned : bool;
  permits : gset N;                                  (** the commands admitted *)
  drains : gmap N (DrainKind * DrainPhase);          (** the drains in their loop *)
  ended : gmap N (DrainKind * Res unit)              (** the drains that returned *)
}.

Definition life_new : LifeSys :=
  {| life := lifecycle_default; poisoned := false; permits := ∅; drains := ∅; ended := ∅ |}.

(** [notify_waiters] reaches those that are registered. *)
Definition notified (d : DrainKind * DrainPhase) : DrainKind * DrainPhase :=
  match d with
  | (k, DRegistered _) => (k, DRegistered true)
  | (k, DWaiting _) => (k, DWaiting true)
  | d => d
  end.
Definition notify_waiters (y : gmap N (DrainKind * DrainPhase)) : gmap N (DrainKind * DrainPhase) := notified <$> y.

(** A drain is over: [r] is what it returns, [s] the state it leaves. *)
Definition finish_drain (t : N) (k : DrainKind) (r : Res unit) (s : LifecycleState) (y : LifeSys) : LifeSys :=
  {| life := s; poisoned := poisoned y; permits := permits y; drains := delete t (drains y); ended := <[t := (k, r)]> (ended y) |}.

Definition with_drain (t : N) (k : DrainKind) (p : DrainPhase) (y : LifeSys) : LifeSys :=
  {| life := life y; poisoned := poisoned y; permits := permits y; drains := <[t := (k, p)]> (drains y); ended := ended y |}.

(** [admit] as permit [p]. *)
Definition sys_admit (p : N) (y : LifeSys) : Res unit * LifeSys :=
  if poisoned y then (Err closing_error, y) else
  let '(r, s, woken) := admit_command (life y) in
  (r, {| life := s; poisoned := false; permits := (if is_ok r then {[p]} ∪ permits y else permits y);
         drains := (if woken then notify_waiters (drains y) else drains y); ended := ended y |}).

(** A permit goes out of scope. *)
Definition sys_drop (p : N) (y : LifeSys) : LifeSys :=
  let ps := permits y ∖ {[p]} in
  if poisoned y then {| life := life y; poisoned := true; permits := ps; drains := drains y; ended := ended y |}
  else {| life := drop_permit (life y); poisoned := false; permits := ps; drains := notify_waiters (drains y); ended := ended y |}.

(** The part of a drain before its loop. *)
Definition drain_begin (t : N) (k : DrainKind) (y : LifeSys) : LifeSys :=
  if poisoned y then finish_drain t k (Err closing_error) (life y) y else
  match k with
  | DrainAll =>
      with_drain t k DPoll {| life := seal (life y); poisoned := false; permits := permits y; drains := drains y; ended := ended y |}
  | DrainOthers _ =>
      match claim_exclusive (life y) with
      | Err e => finish_drain t k (Err e) (life y) y
      | Ok s =>
          with_drain t k DPoll
            {| life := s; poisoned := false; permits := permits y; drains := notify_waiters (drains y); ended := ended y |}
      end
  end.

(** One step of its loop. *)
Definition drain_step (t : N) (y : LifeSys) : option LifeSys :=
  match drains y !! t with
  | Some (k, DPoll) => Some (with_drain t k (DRegistered false) y)
  | Some (k, DRegistered n) =>
      if poisoned y then Some (finish_drain t k (Err closing_error) (life y) y) else
      if active (life y) =? goal k
      then Some (finish_drain t k (Ok tt)
                   (match k with DrainAll => {| phase := Quiesced; active := active (life y) |} | DrainOthers _ => life y end) y)
      else Some (with_drain t k (DWaiting n) y)
  | Some (k, DWaiting true) => Some (with_drain t k DPoll y)
  | Some (_, DWaiting false) | None => None
  end.

(** The deadline passes while it sleeps. *)
Definition drain_timeout_step (t : N) (y : LifeSys) : option LifeSys :=
  match drains y !! t with
  | Some (k, DWaiting _) => Some (finish_drain t k (Err drain_timeout) (life y) y)
  | _ => None
  end.

(** The permit a drain borrows. *)
Definition borrows (k : DrainKind) (p : N) : bool := match k with DrainOthers q => bool_decide (q = p) | DrainAll => false end.

Inductive life_step : LifeSys → LifeSys → Prop :=
| ls_admit p y : p ∉ permits y → life_step y (sys_admit p y).2
| ls_drop p y : p ∈ permits y → (∀ t k ph, drains y !! t = Some (k, ph) → borrows k p = false) → life_step y (sys_drop p y)
| ls_drain t k y : drains y !! t = None → ended y !! t = None → (∀ p, borrows k p = true → p ∈ permits y) → life_step y (drain_begin t k y)
| ls_step t y y' : drain_step t y = Some y' → life_step y y'
| ls_timeout t y y' : drain_timeout_step t y = Some y' → life_step y y'
| ls_poison y : life_step y {| life := life y; poisoned := true; permits := permits y; drains := drains y; ended := ended y |}.

Definition life_reachable : LifeSys → Prop := rtc life_step life_new.

(** ** Exit *)

Inductive ExitRequest := StartCleanup | PreventExit | AllowExit.
Record ExitState := { attempt_running : bool; cleanup_complete : bool }.
Definition exit_default : ExitState := {| attempt_running := false; cleanup_complete := false |}.

(** [request]; a poisoned lock prevents the exit. *)
Definition request (lock_ok : bool) (s : ExitState) : ExitRequest * ExitState :=
  if negb lock_ok then (PreventExit, s) else
  if cleanup_complete s then (AllowExit, s) else
  if attempt_running s then (PreventExit, s)
  else (StartCleanup, {| attempt_running := true; cleanup_complete := cleanup_complete s |}).
Definition complete (lock_ok : bool) (s : ExitState) : ExitState :=
  if lock_ok then {| attempt_running := false; cleanup_complete := true |} else s.
Definition failed (lock_ok : bool) (s : ExitState) : ExitState :=
  if lock_ok then {| attempt_running := false; cleanup_complete := cleanup_complete s |} else s.

(** [ExitCleanupSteps] *)
Inductive cleanup_call := ESealAndDrain | EShutdownUpdates | EShutdownApplication | ERevokeLocalGrants | EFinalizeLogging.
Definition cleanup_reply (c : cleanup_call) : Type := Res unit.
Record ExitCleanupFailure := { stage : string; error : AppError }.

Definition cleanup_stage (c : cleanup_call) : string :=
  match c with
  | ESealAndDrain => "command_drain"
  | EShutdownUpdates => "update_shutdown"
  | EShutdownApplication => "application_shutdown"
  | ERevokeLocalGrants => "local_grant_revocation"
  | EFinalizeLogging => "logging_finalize"
  end.

Definition cleanup_step (c : cleanup_call) : io cleanup_reply ExitCleanupFailure unit :=
  Do c (λ r, Ret match (r : Res unit) with Ok _ => Ok tt | Err e => Err {| stage := cleanup_stage c; error := e |} end).

Definition run_exit_cleanup : io cleanup_reply ExitCleanupFailure unit :=
  _ ← cleanup_step ESealAndDrain;
  _ ← cleanup_step EShutdownUpdates;
  _ ← cleanup_step EShutdownApplication;
  _ ← cleanup_step ERevokeLocalGrants;
  _ ← cleanup_step EFinalizeLogging;
  mret tt.

(** The end of [run_exit_attempt], with whether the final exit is requested. *)
Definition end_attempt (lock_ok : bool) (r : result ExitCleanupFailure unit) (s : ExitState) : bool * ExitState :=
  match r with
  | Ok _ => (true, complete lock_ok s)
  | Err _ => (false, failed lock_ok s)
  end.

(** [GuardSlot::finalize]: the guard is dropped, if it still is there. *)
Definition finalize {T} (lock_ok : bool) (slot : option T) : Res unit * option T :=
  if lock_ok then (Ok tt, None) else (Err (app_error Persistence "NexusOps could not finish closing its local log."), slot).

(** Exit requests and attempts interleaved; an attempt is what is left of its
    program, and [traces] what the ended ones did. *)
Record ExitSys := {
  exit_state : ExitState;
  attempts : gmap N (list (event cleanup_reply) * prog cleanup_reply (result ExitCleanupFailure unit));
  traces : list (list (event cleanup_reply) * result ExitCleanupFailure unit);
  answers : list ExitRequest
}.
Definition exit_new : ExitSys := {| exit_state := exit_default; attempts := ∅; traces := []; answers := [] |}.

(** An exit is requested; [t] names the attempt it may start. *)
Definition exit_requested (t : N) (lock_ok : bool) (y : ExitSys) : ExitSys :=
  let '(a, s) := request lock_ok (exit_state y) in
  {| exit_state := s;
     attempts := (match a with StartCleanup => <[t := ([], run_exit_cleanup)]> (attempts y) | _ => attempts y end);
     traces := traces y; answers := a :: answers y |}.

(** One cleanup step answers. *)
Definition attempt_step (t : N) (r : Res unit) (y : ExitSys) : option ExitSys :=
  match attempts y !! t with
  | Some (l, Do c k) =>
      Some {| exit_state := exit_state y; attempts := <[t := (l ++ [Ev c r], k r)]> (attempts y); traces := traces y; answers := answers y |}
  | _ => None
  end.

(** Its program has returned. *)
Definition attempt_end (t : N) (lock_ok : bool) (y : ExitSys) : option ExitSys :=
  match attempts y !! t with
  | Some (l, Ret r) =>
      Some {| exit_state := (end_attempt lock_ok r (exit_state y)).2; attempts := delete t (attempts y);
              traces := (l, r) :: traces y; answers := answers y |}
  | _ => None
  end.

Inductive exit_step : ExitSys → ExitSys → Prop :=
| es_request t ok y : attempts y !! t = None → exit_step y (exit_requested t ok y)
| es_cleanup t r y y' : attempt_step t r y = Some y' → exit_step y y'
| es_end t ok y y' : attempt_end t ok y = Some y' → exit_step y y'.

Definition exit_reachable : ExitSys → Prop := rtc exit_step exit_new.
