(* ===== verification/LifecycleSafe.v ===== *)
(** Draining and exiting: a drained application admits nothing, a drain never
    sleeps in vain, and the process exits only after a complete cleanup. *)

From S2P Require Import Prelude Str Model Prog Lifecycle.

(** ** The invariant of the coordinator *)

Record life_inv (y : LifeSys) : Prop := {
  li_active : poisoned y = false → active (life y) = Z.of_nat (size (permits y));
  li_range : 0 ≤ active (life y) ≤ u64_max;
  li_sealed : ∀ t k ph, drains y !! t = Some (k, ph) → phase (life y) ≠ Running;
  li_borrow : ∀ t p ph, drains y !! t = Some (DrainOthers p, ph) → p ∈ permits y;
  li_asleep : ∀ t k, drains y !! t = Some (k, DWaiting false) → poisoned y = false → active (life y) ≠ goal k;
  li_quiesced : phase (life y) = Quiesced → permits y = ∅ ∧ active (life y) = 0;
  li_apart : ∀ t, is_Some (drains y !! t) → ended y !! t = None;
  li_all : ∀ t, ended y !! t = Some (DrainAll, Ok tt) → phase (life y) = Quiesced;
  li_others : ∀ t p, ended y !! t = Some (DrainOthers p, Ok tt) → phase (life y) ≠ Running ∧ permits y ⊆ {[p]}
}.

Lemma notified_kind t k ph m : notify_waiters m !! t = Some (k, ph) → ∃ ph', m !! t = Some (k, ph') ∧ ph ≠ DWaiting false.
Proof.
  unfold notify_waiters. rewrite lookup_fmap. destruct (m !! t) as [[k' ph']|] eqn:E; cbn; [|done]. intros H. exists ph'.
  destruct ph'; injection H as -> <-; done.
Qed.

Lemma notified_some t m : is_Some (notify_waiters m !! t) ↔ is_Some (m !! t).
Proof. unfold notify_waiters. by rewrite lookup_fmap, fmap_is_Some. Qed.

Lemma life_inv_new : life_inv life_new.
Proof. split; cbn; try done; intros *; rewrite ?lookup_empty; try done. Qed.

Lemma size_add (p : N) (s : gset N) : p ∉ s → Z.of_nat (size ({[p]} ∪ s)) = Z.of_nat (size s) + 1.
Proof. intros H. rewrite size_union, size_singleton by set_solver. lia. Qed.

Lemma size_del (p : N) (s : gset N) : p ∈ s → Z.of_nat (size (s ∖ {[p]})) = Z.of_nat (size s) - 1.
Proof. intros H. rewrite (union_difference_singleton_L p s H) at 2. rewrite size_add; [lia|set_solver]. Qed.

Lemma admit_inv p y : life_inv y → p ∉ permits y → life_inv (sys_admit p y).2.
Proof.
  intros Hi Hp. pose proof Hi as [I1 I2 I3 I4 I5 I6 I7 I8 I9]. unfold sys_admit. destruct (poisoned y) eqn:Ep; [exact Hi|]. unfold admit_command.
  destruct (bool_decide (phase (life y) ≠ Running)) eqn:Er; [by split; cbn; auto|]. split_bools. apply dec_stable in Er.
  assert (drains y = ∅) as Hd.
  { apply map_empty. intros t. destruct (drains y !! t) as [[k ph]|] eqn:E; [|done]. by destruct (I3 t k ph E). }
  destruct (checked_add (active (life y)) 1) as [n|] eqn:En.
  - apply checked_add_spec in En as [-> Hle]. split; cbn; rewrite ?Hd in *; try done.
    + intros _. rewrite I1 by done. by rewrite size_add.
    + lia.
    + by rewrite Er.
    + intros t q Hq. by destruct (I9 t q Hq).
  - split; cbn; rewrite ?Hd in *; try done; intros *; unfold notify_waiters; rewrite ?fmap_empty, ?lookup_empty; try done.
    + intros Ht. pose proof (I8 _ Ht) as E. congruence.
    + intros Ht. by destruct (I9 _ _ Ht).
Qed.

Lemma drop_inv p y : life_inv y → p ∈ permits y → (∀ t k ph, drains y !! t = Some (k, ph) → borrows k p = false) → life_inv (sys_drop p y).
Proof.
  intros [I1 I2 I3 I4 I5 I6 I7 I8 I9] Hp Hb. unfold sys_drop. destruct (poisoned y) eqn:Ep.
  - split; cbn; try done.
    + intros t q ph Hq. apply elem_of_difference. split; [by eapply I4|]. intros ->%elem_of_singleton.
      specialize (Hb t _ ph Hq). cbn in Hb. by rewrite bool_decide_eq_true_2 in Hb.
    + intros Hq. destruct (I6 Hq) as [-> ?]. split; [set_solver|done].
    + intros t q Hq. destruct (I9 t q Hq). split; [done|]. set_solver.
  - assert (1 ≤ active (life y)) as H1.
    { rewrite I1 by done. assert (size (permits y) ≠ 0%nat); [|lia]. rewrite size_non_empty_iff. set_solver. }
    unfold drop_permit. rewrite (proj2 (checked_sub_spec _ _ (active (life y) - 1))) by (split; [done|lia]).
    split; cbn; try done.
    + intros _. rewrite I1 by done. by rewrite size_del.
    + lia.
    + intros t k ph (ph' & Hk & _)%notified_kind. by eapply I3.
    + intros t q ph (ph' & Hk & _)%notified_kind. apply elem_of_difference. split; [by eapply I4|]. intros ->%elem_of_singleton.
      specialize (Hb t _ ph' Hk). cbn in Hb. by rewrite bool_decide_eq_true_2 in Hb.
    + intros t k (ph' & _ & Hn)%notified_kind. done.
    + intros Hq. destruct (I6 Hq) as [-> ?]. set_solver.
    + intros t Ht. apply I7. by rewrite <-notified_some.
    + intros t q Hq. destruct (I9 t q Hq). split; [done|]. set_solver.
Qed.

(** Ending a drain with an error. *)
Lemma finish_err_inv t k e y : life_inv y → ended y !! t = None → life_inv (finish_drain t k (Err e) (life y) y).
Proof.
  intros [I1 I2 I3 I4 I5 I6 I7 I8 I9] Hn. split; cbn; try done.
  - intros t' k' ph [_ H]%lookup_delete_Some. by eapply I3.
  - intros t' p ph [_ H]%lookup_delete_Some. by eapply I4.
  - intros t' k' [_ H]%lookup_delete_Some. by eapply I5.
  - intros t' [x [Hne Hx]%lookup_delete_Some]. rewrite lookup_insert_ne by done. by apply I7.
  - intros t' [[_ ?]|[_ H]]%lookup_insert_Some; [done|by eapply I8].
  - intros t' p [[_ ?]|[_ H]]%lookup_insert_Some; [done|by eapply I9].
Qed.

(** Moving a drain on, the state being the same or sealed just now. *)
Lemma move_inv t k ph s d y : life_inv y → poisoned y = false → active s = active (life y) → phase s ≠ Running →
  (phase (life y) ≠ Running → phase s = phase (life y)) → (phase (life y) = Running → phase s ≠ Quiesced) →
  (d = drains y ∨ d = notify_waiters (drains y)) → ended y !! t = None →
  (∀ p, k = DrainOthers p → p ∈ permits y) → (ph = DWaiting false → active (life y) ≠ goal k) →
  life_inv {| life := s; poisoned := false; permits := permits y; drains := <[t := (k, ph)]> d; ended := ended y |}.
Proof.
  intros [I1 I2 I3 I4 I5 I6 I7 I8 I9] Hp Ha Hr Hsame Hnq Hd Hn Hb Hw.
  assert (∀ t' k' ph', d !! t' = Some (k', ph') → ∃ ph0, drains y !! t' = Some (k', ph0) ∧ (ph' = DWaiting false → ph0 = DWaiting false)) as Hold.
  { intros t' k' ph' H. destruct Hd as [->| ->]; [eauto|]. apply notified_kind in H as (ph0 & H & Hne). by exists ph0. }
  assert (phase (life y) = Running ∨ phase s = phase (life y)) as Hph by (destruct (decide (phase (life y) = Running)); auto).
  split; cbn; rewrite ?Ha; auto.
  - intros t' p ph' [[<- [= -> _]]|[_ H]]%lookup_insert_Some; [by apply Hb|]. destruct (Hold _ _ _ H) as (ph0 & H0 & _). by eapply I4.
  - intros t' k' [[<- [= -> ->]]|[_ H]]%lookup_insert_Some; [auto|]. destruct (Hold _ _ _ H) as (ph0 & H0 & Hw0). intros _.
    rewrite Hw0 in H0 by done. by eapply I5.
  - intros Hq. destruct Hph as [E|E]; [by destruct (Hnq E)|]. apply I6. congruence.
  - intros t' [x [[<- _]|[_ H]]%lookup_insert_Some]; [done|]. destruct x as [k' ph']. destruct (Hold _ _ _ H) as (ph0 & H0 & _). apply I7. eauto.
  - intros t' H. pose proof (I8 t' H) as E. rewrite <-E. apply Hsame. by rewrite E.
  - intros t' p H. destruct (I9 t' p H). auto.
Qed.

Lemma drain_begin_inv t k y : life_inv y → drains y !! t = None → ended y !! t = None →
  (∀ p, borrows k p = true → p ∈ permits y) → life_inv (drain_begin t k y).
Proof.
  intros Hi Hd He Hb. unfold drain_begin. destruct (poisoned y) eqn:Ep; [by apply finish_err_inv|].
  assert (∀ p, k = DrainOthers p → p ∈ permits y) as Hb'.
  { intros p ->. apply Hb. cbn. by apply bool_decide_eq_true_2. }
  destruct k as [|q].
  - apply (move_inv t DrainAll DPoll (seal (life y)) (drains y) y); cbn; auto; try done.
    + case_bool_decide; [done|auto].
    + intros Hr. by rewrite bool_decide_eq_false_2.
    + intros ->. done.
  - unfold claim_exclusive. destruct (bool_decide (phase (life y) ≠ Running)) eqn:Er; [by apply finish_err_inv|].
    split_bools. apply dec_stable in Er. apply (move_inv t (DrainOthers q) DPoll {| phase := Exclusive; active := active (life y) |} (notify_waiters (drains y)) y);
      cbn; auto; done.
Qed.

(** A drain goes on without falling asleep. *)
Lemma repoll_inv t k ph ph' y : life_inv y → drains y !! t = Some (k, ph) → ph' ≠ DWaiting false → life_inv (with_drain t k ph' y).
Proof.
  intros Hi Ed Hph. pose proof (li_apart _ Hi t (mk_is_Some _ _ Ed)) as He. destruct (poisoned y) eqn:Ep.
  - destruct Hi as [I1 I2 I3 I4 I5 I6 I7 I8 I9]. split; cbn; try done.
    + intros t' k' ph0 [[<- [= -> _]]|[_ H]]%lookup_insert_Some; by eapply I3.
    + intros t' p ph0 [[<- [= -> _]]|[_ H]]%lookup_insert_Some; by eapply I4.
    + intros t' k' _. by rewrite Ep.
    + intros t' [x [[<- _]|[_ H]]%lookup_insert_Some]; [done|]. by apply I7.
  - unfold with_drain. rewrite Ep. apply move_inv; auto; try done.
    + by eapply li_sealed.
    + intros E. by destruct (li_sealed _ Hi _ _ _ Ed).
    + intros p ->. by eapply li_borrow.
Qed.

Lemma drain_step_inv t y y' : life_inv y → drain_step t y = Some y' → life_inv y'.
Proof.
  intros Hi. unfold drain_step. destruct (drains y !! t) as [[k [|n|[]]]|] eqn:Ed; try done.
  - intros [= <-]. by eapply repoll_inv.
  - destruct (poisoned y) eqn:Ep; [intros [= <-]; apply finish_err_inv; [done|by apply (li_apart _ Hi)]|].
    pose proof (li_apart _ Hi t (mk_is_Some _ _ Ed)) as He. pose proof (li_sealed _ Hi _ _ _ Ed) as Hs.
    destruct (active (life y) =? goal k) eqn:Eg; intros [= <-].
    + apply Z.eqb_eq in Eg. destruct Hi as [I1 I2 I3 I4 I5 I6 I7 I8 I9]. specialize (I1 Ep). destruct k as [|p]; cbn in Eg.
      * assert (permits y = ∅) as Hem by (apply leibniz_equiv, size_empty_inv; lia). split; cbn; try done; rewrite ?Hem in *; try done.
        -- intros t' p ph [_ H]%lookup_delete_Some. by eapply I4.
        -- intros t' k' [_ H]%lookup_delete_Some. by eapply I5.
        -- intros t' [x [Hne Hx]%lookup_delete_Some]. rewrite lookup_insert_ne by done. by apply I7.
      * assert (permits y ⊆ {[p]}) as Hsub.
        { pose proof (I4 _ _ _ Ed) as Hp. assert (size (permits y) = 1%nat) as H1 by lia. apply size_1_elem_of in H1 as [q Hq].
          apply leibniz_equiv in Hq. rewrite Hq in Hp |- *. apply elem_of_singleton in Hp as ->. done. }
        split; cbn; try done.
        -- intros t' q ph [_ H]%lookup_delete_Some. by eapply I4.
        -- intros t' k' [_ H]%lookup_delete_Some. by eapply I5.
        -- intros t' [x [Hne Hx]%lookup_delete_Some]. rewrite lookup_insert_ne by done. by apply I7.
        -- intros t' [[_ ?]|[_ H]]%lookup_insert_Some; [done|by eapply I8].
        -- intros t' q [[_ [= <-]]|[_ H]]%lookup_insert_Some; [done|by eapply I9].
    + apply Z.eqb_neq in Eg. unfold with_drain. rewrite Ep. apply move_inv; auto; try done.
      intros p ->. by eapply li_borrow.
  - intros [= <-]. by eapply repoll_inv.
Qed.

Lemma life_step_inv y y' : life_step y y' → life_inv y → life_inv y'.
Proof.
  intros Hs Hi. destruct Hs as [p y Hp|p y Hp Hb|t k y Hd He Hb|t y y' H|t y y' H|y].
  - by apply admit_inv.
  - by apply drop_inv.
  - by apply drain_begin_inv.
  - by eapply drain_step_inv.
  - unfold drain_timeout_step in H. destruct (drains y !! t) as [[k []]|] eqn:Ed; try done. injection H as <-.
    apply finish_err_inv; [done|]. by apply (li_apart _ Hi).
  - destruct Hi as [I1 I2 I3 I4 I5 I6 I7 I8 I9]. by split.
Qed.

Lemma life_reachable_inv y : life_reachable y → life_inv y.
Proof.
  unfold life_reachable. revert y. apply (rtc_ind_r (λ y, life_inv y) life_new); [apply life_inv_new|].
  intros y z _ Hs Hi. by apply (life_step_inv y).
Qed.

(** A drain that ended stays ended as it did. *)
Lemma ended_stays y y' t x : life_inv y → life_step y y' → ended y !! t = Some x → ended y' !! t = Some x.
Proof.
  intros Hi Hs Ht. assert (∀ t', is_Some (drains y !! t') → t' ≠ t) as Hne.
  { intros t' H ->. rewrite (li_apart _ Hi _ H) in Ht. done. }
  destruct Hs as [p y Hp|p y Hp Hb|t' k y Hd He Hb|t' y y' H|t' y y' H|y].
  - unfold sys_admit. destruct (poisoned y); [done|]. by destruct (admit_command (life y)) as [[? ?] ?].
  - unfold sys_drop. by destruct (poisoned y).
  - assert (t' ≠ t) by (intros ->; congruence). unfold drain_begin, finish_drain.
    destruct (poisoned y); [cbn; by rewrite lookup_insert_ne|]. destruct k; [done|].
    destruct (claim_exclusive _); [done|]. cbn. by rewrite lookup_insert_ne.
  - unfold drain_step, finish_drain in H. destruct (drains y !! t') as [[k ph]|] eqn:Ed; [|done]. specialize (Hne t' (mk_is_Some _ _ Ed)).
    destruct ph as [|n|[]]; [by injection H as <-| |by injection H as <-|done].
    destruct (poisoned y); [|destruct (_ =? _)]; injection H as <-; cbn; by rewrite ?lookup_insert_ne.
  - unfold drain_timeout_step, finish_drain in H. destruct (drains y !! t') as [[k ph]|] eqn:Ed; [|done].
    specialize (Hne t' (mk_is_Some _ _ Ed)). destruct ph; try done. injection H as <-. cbn. by rewrite lookup_insert_ne.
  - done.
Qed.

(** Draining is final.  When draining all commands has succeeded, no
    command runs and none is ever admitted again; when a command has drained
    all others for an installation, no other command runs or is ever
    admitted.  The count of admitted commands is exact, so that a permit's end
    never underflows it. *)
Theorem drained_stays_drained y y' t k : life_reachable y → ended y !! t = Some (k, Ok tt) → rtc life_step y y' →
  (∀ p, (sys_admit p y').1 = Err closing_error) ∧
  match k with DrainAll => permits y' = ∅ | DrainOthers p => permits y' ⊆ {[p]} end ∧
  (poisoned y' = false → active (life y') = Z.of_nat (size (permits y'))).
Proof.
  intros Hi%life_reachable_inv Ht Hr. assert (life_inv y' ∧ ended y' !! t = Some (k, Ok tt)) as [Hi' Ht'].
  { induction Hr as [|y z y' Hs _ IH]; [done|]. apply IH; [by apply (life_step_inv y)|by eapply ended_stays]. }
  assert (phase (life y') ≠ Running ∧ match k with DrainAll => permits y' = ∅ | DrainOthers p => permits y' ⊆ {[p]} end) as [Hp Hk].
  { destruct k as [|p]; [|by eapply li_others]. pose proof (li_all _ Hi' _ Ht') as Hq. split; [by rewrite Hq|]. by apply (li_quiesced _ Hi'). }
  split; [|split; [done|apply Hi']]. intros p. unfold sys_admit. destruct (poisoned y'); [done|]. unfold admit_command.
  by rewrite bool_decide_eq_true_2.
Qed.

(** How far a drain is from looking at the state. *)
Definition rank (ph : DrainPhase) : nat := match ph with DWaiting _ => 3 | DPoll => 2 | DRegistered _ => 1 end.

(** No wake-up is lost.  Once the commands a drain waits for are gone, the
    drain is not asleep without having been notified: it can take its next
    step, at most three of its steps end it successfully, and no step of
    another command or drain can delay it or bring a command back. *)
Theorem drain_completes y t k ph : life_reachable y → poisoned y = false → drains y !! t = Some (k, ph) →
  active (life y) = goal k →
  (∃ y', drain_step t y = Some y' ∧
     (ended y' !! t = Some (k, Ok tt) ∨ ∃ ph', drains y' !! t = Some (k, ph') ∧ (rank ph' < rank ph)%nat)) ∧
  (∀ y', life_step y y' → poisoned y' = true ∨ is_Some (ended y' !! t) ∨
     (active (life y') = goal k ∧ ∃ ph', drains y' !! t = Some (k, ph') ∧ (rank ph' ≤ rank ph)%nat)).
Proof.
  intros Hi%life_reachable_inv Hp Hd Hg. split.
  - unfold drain_step. rewrite Hd, Hp. destruct ph as [|n|[]].
    + eexists. split; [done|]. right. exists (DRegistered false). cbn. rewrite lookup_insert_eq. auto with lia.
    + rewrite (proj2 (Z.eqb_eq _ _) Hg). eexists. split; [done|]. left. cbn. apply lookup_insert_eq.
    + eexists. split; [done|]. right. exists DPoll. cbn. rewrite lookup_insert_eq. auto with lia.
    + by destruct (li_asleep _ Hi _ _ Hd Hp).
  - intros y' Hs. pose proof (li_sealed _ Hi _ _ _ Hd) as Hr.
    destruct Hs as [p y Hnp|p y Hin Hb|t' k' y Hd' He' Hb|t' y y' H|t' y y' H|y].
    + unfold sys_admit, admit_command. rewrite Hp, bool_decide_eq_true_2 by done. cbn. right. right.
      split; [done|]. exists ph. split; [done|lia].
    + exfalso. pose proof (li_active _ Hi Hp) as Ha. rewrite Hg in Ha. destruct k as [|q]; cbn in Ha.
      * assert (permits y = ∅) as E by (apply leibniz_equiv, size_empty_inv; lia). rewrite E in Hin. by apply elem_of_empty in Hin.
      * pose proof (li_borrow _ Hi _ _ _ Hd) as Hq. assert (size (permits y) = 1%nat) as H1 by lia.
        apply size_1_elem_of in H1 as [r Er]. apply leibniz_equiv in Er. rewrite Er in Hq, Hin.
        apply elem_of_singleton in Hq as ->, Hin as ->. specialize (Hb _ _ _ Hd). cbn in Hb. by rewrite bool_decide_eq_true_2 in Hb.
    + right. right. assert (t' ≠ t) as Hne by (intros ->; congruence). unfold drain_begin, claim_exclusive, with_drain, finish_drain. rewrite Hp.
      destruct k' as [|q]; [|rewrite bool_decide_eq_true_2 by done]; cbn; (split; [done|]).
      * exists ph. rewrite lookup_insert_ne by done. split; [done|lia].
      * exists ph. rewrite lookup_delete_ne by done. split; [done|lia].
    + right. unfold drain_step, with_drain, finish_drain in H. destruct (decide (t' = t)) as [->|Hne].
      * rewrite Hd, Hp in H. destruct ph as [|n|[]]; [| | |done].
        -- injection H as <-. cbn. right. split; [done|]. eexists. rewrite lookup_insert_eq. auto with lia.
        -- rewrite (proj2 (Z.eqb_eq _ _) Hg) in H. injection H as <-. left. cbn. by rewrite lookup_insert_eq.
        -- injection H as <-. cbn. right. split; [done|]. eexists. rewrite lookup_insert_eq. auto with lia.
      * right. destruct (drains y !! t') as [[k' ph0]|] eqn:Ed'; [|done].
        destruct ph0 as [|n|[]]; [| | |done]; rewrite ?Hp in H;
          [|destruct (active (life y) =? goal k')|]; injection H as <-; cbn; rewrite ?lookup_insert_ne, ?lookup_delete_ne by done;
          (split; [by destruct k'|exists ph; split; [done|lia]]).
    + right. unfold drain_timeout_step, finish_drain in H. destruct (decide (t' = t)) as [->|Hne].
      * rewrite Hd in H. destruct ph; try done. injection H as <-. left. cbn. by rewrite lookup_insert_eq.
      * right. destruct (drains y !! t') as [[k' []]|]; try done. injection H as <-. cbn. rewrite lookup_delete_ne by done.
        split; [done|]. exists ph. split; [done|lia].
    + by left.
Qed.

(** ** Exit attempts *)

Definition cleanup_order : list cleanup_call :=
  [ESealAndDrain; EShutdownUpdates; EShutdownApplication; ERevokeLocalGrants; EFinalizeLogging].

(** The steps [cs] all succeeded. *)
Definition all_done (cs : list cleanup_call) : list (event cleanup_reply) := map (λ c, Ev c (Ok tt) : event cleanup_reply) cs.

(** What a cleanup did: everything, or everything before the step that
    failed. *)
Definition cleanup_spec (l : list (event cleanup_reply)) (r : result ExitCleanupFailure unit) : Prop :=
  match r with
  | Ok _ => l = all_done cleanup_order
  | Err f => ∃ cs c rest, cleanup_order = cs ++ c :: rest ∧ l = all_done cs ++ [Ev c (Err (error f))] ∧ stage f = cleanup_stage c
  end.

Lemma cleanup_runs l r : runs (run_exit_cleanup : prog cleanup_reply _) l r → cleanup_spec l r.
Proof.
  intros H. apply (wp_runs (run_exit_cleanup : prog cleanup_reply _) [] l r cleanup_spec); [|done]. cbn.
  intros [[]|e]; cbn; [|by exists [], ESealAndDrain, (drop 1 cleanup_order)].
  intros [[]|e]; cbn; [|by exists (take 1 cleanup_order), EShutdownUpdates, (drop 2 cleanup_order)].
  intros [[]|e]; cbn; [|by exists (take 2 cleanup_order), EShutdownApplication, (drop 3 cleanup_order)].
  intros [[]|e]; cbn; [|by exists (take 3 cleanup_order), ERevokeLocalGrants, (drop 4 cleanup_order)].
  intros [[]|e]; cbn; [done|]. by exists (take 4 cleanup_order), EFinalizeLogging, [].
Qed.

Record exit_inv (y : ExitSys) : Prop := {
  ei_attempt : ∀ t l p, attempts y !! t = Some (l, p) → ∀ l' r, runs p l' r → runs (run_exit_cleanup : prog cleanup_reply _) (l ++ l') r;
  ei_running : attempts y ≠ ∅ → attempt_running (exit_state y) = true;
  ei_one : (size (attempts y) ≤ 1)%nat;
  ei_traces : ∀ l r, (l, r) ∈ traces y → cleanup_spec l r;
  ei_complete : cleanup_complete (exit_state y) = true → ∃ l, (l, Ok tt) ∈ traces y;
  ei_allowed : AllowExit ∈ answers y → cleanup_complete (exit_state y) = true
}.

Lemma exit_requested_inv t ok y : exit_inv y → attempts y !! t = None → exit_inv (exit_requested t ok y).
Proof.
  intros [I1 I2 I3 I4 I5 I6] Ht. unfold exit_requested, request.
  destruct (negb ok); [split; cbn; try done; by intros [?|?]%elem_of_cons; auto|].
  destruct (cleanup_complete (exit_state y)) eqn:Ec; [split; cbn; rewrite ?Ec; auto|].
  destruct (attempt_running (exit_state y)) eqn:Er; [split; cbn; rewrite ?Ec; auto; by intros [?|?]%elem_of_cons; auto|].
  assert (attempts y = ∅) as Ha.
  { destruct (decide (attempts y = ∅)) as [|Hne]; [done|]. by specialize (I2 Hne). }
  rewrite Ha. split; cbn; try done.
  - intros t' l p [[<- [= <- <-]]|[_ H]]%lookup_insert_Some; [done|]. by rewrite lookup_empty in H.
  - rewrite map_size_insert, lookup_empty, map_size_empty. lia.
  - intros [?|H]%elem_of_cons; [done|]. by apply I6 in H.
Qed.

Lemma attempt_step_inv t r y y' : exit_inv y → attempt_step t r y = Some y' → exit_inv y'.
Proof.
  intros [I1 I2 I3 I4 I5 I6]. unfold attempt_step. destruct (attempts y !! t) as [[l [x|c k]]|] eqn:Et; try done. intros [= <-].
  split; cbn; try done.
  - intros t' l0 p [[<- [= <- <-]]|[_ H]]%lookup_insert_Some; [|by eapply I1].
    intros l' x Hx. rewrite <-app_assoc. apply (I1 t l (Do c k) Et). by constructor.
  - intros _. apply I2. intros E. by rewrite E, lookup_empty in Et.
  - rewrite map_size_insert_Some; [exact I3|]. exact (ex_intro _ _ Et).
Qed.

Lemma attempt_end_inv t ok y y' : exit_inv y → attempt_end t ok y = Some y' → exit_inv y'.
Proof.
  intros [I1 I2 I3 I4 I5 I6]. unfold attempt_end. destruct (attempts y !! t) as [[l [x|c k]]|] eqn:Et; try done. intros [= <-].
  assert (cleanup_spec l x) as Hx.
  { apply cleanup_runs. specialize (I1 t l (Ret x) Et [] x (runs_ret x)). by rewrite app_nil_r in I1. }
  assert (delete t (attempts y) = ∅) as Hd.
  { apply map_size_empty_inv. rewrite map_size_delete, Et. lia. }
  split; cbn; rewrite ?Hd; try done.
  - rewrite map_size_empty. lia.
  - intros l0 r [[= -> ->]|H]%elem_of_cons; [done|by apply I4].
  - destruct x as [[]|f]; cbn.
    + intros _. exists l. by apply list_elem_of_here.
    + intros H. destruct I5 as [l0 Hl0]; [destruct ok; done|]. exists l0. by apply list_elem_of_further.
  - intros H%I6. destruct x as [[]|f], ok; cbn; done.
Qed.

Lemma exit_reachable_inv y : exit_reachable y → exit_inv y.
Proof.
  unfold exit_reachable. revert y. apply (rtc_ind_r (λ y, exit_inv y) exit_new).
  - split; cbn; try done; intros *; rewrite ?lookup_empty; try done; try by intros ?%elem_of_nil. rewrite map_size_empty. lia.
  - intros y z _ Hs Hi. destruct Hs; [by apply exit_requested_inv|by eapply attempt_step_inv|by eapply attempt_end_inv].
Qed.

(** [C16] The process exits only after a complete cleanup.  However exit
    requests and cleanup attempts interleave, at most one attempt runs at a
    time; an exit is allowed only if an attempt ended in which draining the
    commands, stopping the updates, shutting the application down, revoking the
    local grants and closing the log all succeeded, in this order; and every
    attempt that failed stopped at the step it reports. *)
Theorem exit_only_after_cleanup y : exit_reachable y →
  (size (attempts y) ≤ 1)%nat ∧ (∀ l r, (l, r) ∈ traces y → cleanup_spec l r) ∧
  (AllowExit ∈ answers y → (all_done cleanup_order, Ok tt) ∈ traces y).
Proof.
  intros [_ _ I3 I4 I5 I6]%exit_reachable_inv. split; [done|]. split; [done|]. intros H.
  destruct (I5 (I6 H)) as [l Hl]. pose proof (I4 _ _ Hl) as E. cbn in E. by subst l.
Qed.

(** ** Samples *)
Module LifeSample.
(** A command is admitted, a drain begins and falls asleep, the command ends. *)
Definition y1 : LifeSys := (sys_admit 1 life_new).2.
Definition y2 : LifeSys := drain_begin 5 DrainAll y1.
Definition y3 : LifeSys := default y2 (drain_step 5 y2).
Definition y4 : LifeSys := default y3 (drain_step 5 y3).
Definition y5 : LifeSys := sys_drop 1 y4.
Definition y6 : LifeSys := default y5 (drain_step 5 y5).
Definition y7 : LifeSys := default y6 (drain_step 5 y6).
Definition y8 : LifeSys := default y7 (drain_step 5 y7).

Lemma reach5 : life_reachable y5.
Proof.
  eapply rtc_l; [apply (ls_admit 1); by apply not_elem_of_empty|].
  eapply rtc_l; [apply (ls_drain 5 DrainAll y1); done|]. eapply rtc_l; [apply (ls_step 5 y2 y3); reflexivity|].
  eapply rtc_l; [apply (ls_step 5 y3 y4); reflexivity|]. apply rtc_once. apply ls_drop.
  - apply (bool_decide_unpack _). vm_compute. exact I.
  - intros t k ph. change (drains y4) with ({[5%N := (DrainAll, DWaiting false)]} : gmap N (DrainKind * DrainPhase)).
    by intros [_ [= <- _]]%lookup_singleton_Some.
Qed.
Lemma reach8 : life_reachable y8.
Proof.
  unfold life_reachable. eapply rtc_r; [eapply rtc_r; [eapply rtc_r; [apply reach5|]|]|];
    [apply (ls_step 5 y5 y6)|apply (ls_step 5 y6 y7)|apply (ls_step 5 y7 y8)]; reflexivity.
Qed.

(** An exit is requested, cleaned up for and allowed. *)
Definition e1 : ExitSys := exit_requested 1 true exit_new.
Definition next (y : ExitSys) : ExitSys := default y (attempt_step 1 (Ok tt) y).
Definition e6 : ExitSys := next (next (next (next (next e1)))).
Definition e7 : ExitSys := default e6 (attempt_end 1 true e6).
Definition e8 : ExitSys := exit_requested 2 true e7.

Lemma exit8 : exit_reachable e8.
Proof.
  eapply rtc_l; [by apply (es_request 1 true exit_new)|].
  do 5 (eapply rtc_l; [eapply (es_cleanup 1 (Ok tt)); reflexivity|]).
  eapply rtc_l; [eapply (es_end 1 true); reflexivity|]. apply rtc_once. by apply (es_request 2 true e7).
Qed.
End LifeSample.

Lemma drained_stays_drained_witness : ended LifeSample.y8 !! 5%N = Some (DrainAll, Ok tt) ∧
  (sys_admit 9 LifeSample.y8).1 = Err closing_error ∧ permits LifeSample.y8 = ∅.
Proof.
  split; [reflexivity|].
  destruct (drained_stays_drained LifeSample.y8 LifeSample.y8 5 DrainAll LifeSample.reach8 eq_refl (rtc_refl _ _)) as (Ha & Hp & _).
  split; [apply Ha|exact Hp].
Defined.

Lemma drain_completes_witness : drains LifeSample.y5 !! 5%N = Some (DrainAll, DWaiting true) ∧
  ∃ y', drain_step 5 LifeSample.y5 = Some y'.
Proof.
  split; [reflexivity|].
  destruct (drain_completes LifeSample.y5 5 DrainAll (DWaiting true) LifeSample.reach5 eq_refl eq_refl eq_refl) as [(y' & H & _) _].
  by exists y'.
Defined.

Lemma exit_only_after_cleanup_witness : AllowExit ∈ answers LifeSample.e8 ∧ (all_done cleanup_order, Ok tt) ∈ traces LifeSample.e8.
Proof.
  assert (AllowExit ∈ answers LifeSample.e8) as H by (by apply list_elem_of_here). split; [exact H|].
  by apply (exit_only_after_cleanup _ LifeSample.exit8).
Defined.
