(* ===== verification/UpdateDownload.v ===== *)
(** Downloading and verifying an update
    ([apps/desktop/src-tauri/src/update_download.rs]).

    The URL, base64, minisign and semver crates are a class of operations; the
    HTTP client is a sequence of requests, each answered by a redirect, a
    response with its body, or a failure.  Redirects are followed the way
    [reqwest] does: every redirect is shown to the policy with the URLs
    requested so far. *)

From S2P Require Import Prelude Str Utf8 Model Prog.

(** What the crates offer. *)
Class UpdateLib := {
  Url : Type;
  scheme : Url → str;
  username : Url → str;
  password : Url → option str;
  fragment : Url → option str;
  port_or_known_default : Url → option Z;
  host_str : Url → option str;
  url_path : Url → str;
  path_segments : Url → option (list str);
  base64_decode : str → option (list Z);
  PublicKey : Type;
  public_key_decode : str → option PublicKey;
  Signature : Type;
  signature_decode : str → option Signature;
  trusted_comment : Signature → str;
  StreamVerifier : Type;
  verify_stream : PublicKey → Signature → option StreamVerifier;
  verifier_update : StreamVerifier → list Z → StreamVerifier;
  verifier_finalize : StreamVerifier → bool;
  Version : Type;
  version_parse : str → option Version;
  version_eqb : Version → Version → bool
}.

Inductive DownloadFailure := FDownload | FVerification | FResourceLimit | FTimeout | FCancelled.
#[export] Instance DownloadFailure_eq_dec : EqDecision DownloadFailure.
Proof. solve_decision. Defined.

Definition MAX_ARTIFACT_BYTES : Z := 134217728.
Definition MAX_REDIRECTS : Z := 3.
Definition MAX_SIGNATURE_TEXT_BYTES : Z := 4096.
Definition MAX_VERSION_BYTES : Z := 128.
Definition INITIAL_HOST : str := lit "github.com".
Definition INITIAL_PATH_PREFIX : str := lit "/unrealbg/NexusOps/releases/download/".
Definition REDIRECT_HOSTS : list str :=
  [lit "github.com"; lit "release-assets.githubusercontent.com"; lit "objects.githubusercontent.com"].
Definition PRODUCTION_PUBLIC_KEY : str :=
  lit "dW50cnVzdGVkIGNvbW1lbnQ6IG1pbmlzaWduIHB1YmxpYyBrZXk6IDZCNTdGQjUzMjA5QTI0RUMKUldUc0pKb2dVL3RYYTdoYXY0UDhIWCsyTVI1TVJDRWFUSHlvQllFZEJmQU1xa1Qrc1RycEU5M2MK".

Section Download.
Context {L : UpdateLib}.

(** ** URLs *)

Definition validate_common_url (u : Url) : result DownloadFailure str :=
  if negb (str_eqb (scheme u) (lit "https")) || negb (is_empty (username u)) || bool_decide (is_Some (password u))
     || bool_decide (is_Some (fragment u)) || bool_decide (port_or_known_default u ≠ Some 443)
  then Err FDownload
  else ok_or (host_str u) FDownload.

Definition validate_initial_url (u : Url) : result DownloadFailure unit :=
  host ← validate_common_url u;
  if negb (str_eqb host INITIAL_HOST) || negb (starts_with INITIAL_PATH_PREFIX (url_path u))
     || (len (url_path u) <=? len INITIAL_PATH_PREFIX)
  then Err FDownload else Ok tt.

Definition validate_redirect_url (u : Url) : result DownloadFailure unit :=
  host ← validate_common_url u;
  if str_in host REDIRECT_HOSTS then Ok tt else Err FDownload.

Definition validate_redirect_attempt (previous : Z) (u : Url) : result DownloadFailure unit :=
  if MAX_REDIRECTS <? previous then Err FDownload else validate_redirect_url u.

(** ** The announcement *)

Definition validate_version (version : str) : result DownloadFailure unit :=
  if is_empty version || (MAX_VERSION_BYTES <? len version) || existsb is_control version
  then Err FVerification else Ok tt.

Definition decode_public_key (encoded : str) : result DownloadFailure PublicKey :=
  if is_empty encoded || (MAX_SIGNATURE_TEXT_BYTES <? len encoded) then Err FVerification else
  decoded ← ok_or (base64_decode encoded) FVerification;
  text ← ok_or (from_utf8 decoded) FVerification;
  ok_or (public_key_decode text) FVerification.

Definition decode_signature (encoded : str) : result DownloadFailure Signature :=
  if is_empty encoded || (MAX_SIGNATURE_TEXT_BYTES <? len encoded) then Err FVerification else
  decoded ← ok_or (base64_decode encoded) FVerification;
  if MAX_SIGNATURE_TEXT_BYTES <? zlen decoded then Err FVerification else
  text ← ok_or (from_utf8 decoded) FVerification;
  ok_or (signature_decode text) FVerification.

Record PendingAnnouncement := { pa_version : str; pa_url : Url; pa_signature : str }.

Definition announcement_new (version : str) (url : Url) (signature : str) : result DownloadFailure PendingAnnouncement :=
  _ ← validate_version version;
  _ ← validate_initial_url url;
  _ ← decode_signature signature;
  Ok {| pa_version := version; pa_url := url; pa_signature := signature |}.

(** ** The signed version *)

(** [str::strip_prefix] *)
Definition strip_prefix (p s : str) : option str := if starts_with p s then Some (drop (length p) s) else None.

(** The loop over the fields: [found] is [signed_version]. *)
Fixpoint signed_version (fields : list str) (found : option str) : result DownloadFailure (option str) :=
  match fields with
  | [] => Ok found
  | field :: rest =>
      match strip_prefix (lit "version:") field with
      | Some value =>
          if is_empty value || bool_decide (is_Some found) then Err FVerification else signed_version rest (Some value)
      | None => signed_version rest found
      end
  end.

Definition without_v (s : str) : str := default s (strip_prefix (lit "v") s).

Definition same_version (signed announced : str) : bool :=
  match version_parse (without_v signed), version_parse (without_v announced) with
  | Some a, Some b => version_eqb a b
  | _, _ => str_eqb signed announced
  end.

Definition verify_signed_version (comment announced : str) : result DownloadFailure unit :=
  found ← signed_version (split 9 comment) None;
  signed ← ok_or found FVerification;
  if same_version signed announced then Ok tt else Err FVerification.

(** ** The collector *)

(** [usize] has 64 bits. *)
Definition checked_next_size (current chunk limit : Z) : result DownloadFailure Z :=
  next ← ok_or (checked_add current chunk) FResourceLimit;
  if limit <? next then Err FResourceLimit else Ok next.

Record BoundedCollector := { bc_verifier : StreamVerifier; bc_bytes : list Z; bc_limit : Z }.

(** [reserve_ok] tells whether the memory can be reserved. *)
Definition collector_new (v : StreamVerifier) (content_length : option Z) (limit : Z) (reserve_ok : bool)
    : result DownloadFailure BoundedCollector :=
  _ ← match content_length with
      | Some length => if limit <? length then Err FResourceLimit else Ok length
      | None => Ok 0
      end;
  if negb reserve_ok then Err FResourceLimit else
  Ok {| bc_verifier := v; bc_bytes := []; bc_limit := limit |}.

Definition accept (c : BoundedCollector) (chunk : list Z) (reserve_ok : bool) : result DownloadFailure BoundedCollector :=
  _ ← checked_next_size (zlen (bc_bytes c)) (zlen chunk) (bc_limit c);
  if negb reserve_ok then Err FResourceLimit else
  Ok {| bc_verifier := verifier_update (bc_verifier c) chunk; bc_bytes := bc_bytes c ++ chunk; bc_limit := bc_limit c |}.

Definition collector_finish (c : BoundedCollector) (signature : Signature) : result DownloadFailure (list Z * str) :=
  if verifier_finalize (bc_verifier c) then Ok (bc_bytes c, trusted_comment signature) else Err FVerification.

(** ** The download *)

(** How a body ends: completely, with an error of the client (a timeout of its
    own or not), or at the deadline of [with_total_timeout]. *)
Inductive BodyEnd := BodyDone | BodyFailed (timeout : bool) | BodyDeadline.
#[export] Instance BodyEnd_eq_dec : EqDecision BodyEnd.
Proof. solve_decision. Defined.

(** A response: its status and length, whether that much can be reserved, the
    chunks of its body, each with whether it can be stored, and its end. *)
Record Response := {
  status : Z;
  content_length : option Z;
  length_reserved : bool;
  body : list (list Z * bool);
  ending : BodyEnd
}.

Inductive HttpAnswer := HRedirect (next : Url) | HResponse (r : Response) | HFailed (timeout : bool) | HDeadline.

Inductive http_call := ClientBuild | HttpGet (u : Url).
Definition http_reply (c : http_call) : Type :=
  match c with ClientBuild => result bool unit | HttpGet _ => HttpAnswer end.

Definition map_reqwest (timeout : bool) : DownloadFailure := if timeout then FTimeout else FDownload.

Definition validate_status (s : Z) : result DownloadFailure unit :=
  if (200 <=? s) && (s <=? 299) then Ok tt else Err FDownload.

(** [send] under [redirect_policy]; a refused redirect is an error that is no
    timeout.  The policy ends the chain, [send_fuel]. *)
Fixpoint send (fuel : nat) (previous : list Url) (u : Url) : io http_reply DownloadFailure Response :=
  Do (HttpGet u) (λ a,
    match (a : HttpAnswer) with
    | HResponse r => Ret (Ok r)
    | HFailed timeout => io_fail (map_reqwest timeout)
    | HDeadline => io_fail FTimeout
    | HRedirect next =>
        let previous := previous ++ [u] in
        match validate_redirect_attempt (zlen previous) next, fuel with
        | Ok _, S k => send k previous next
        | _, _ => io_fail (map_reqwest false)
        end
    end).

Definition build_client : io http_reply DownloadFailure unit :=
  Do ClientBuild (λ r, Ret match (r : result bool unit) with Ok _ => Ok tt | Err t => Err (map_reqwest t) end).

(** The loop over [response.chunk()]. *)
Fixpoint collect (c : BoundedCollector) (chunks : list (list Z * bool)) (e : BodyEnd) : result DownloadFailure BoundedCollector :=
  match chunks with
  | [] =>
      match e with
      | BodyDone => Ok c
      | BodyFailed timeout => Err (map_reqwest timeout)
      | BodyDeadline => Err FTimeout
      end
  | (chunk, reserve_ok) :: rest => c ← accept c chunk reserve_ok; collect c rest e
  end.

Definition download_and_verify (a : PendingAnnouncement) (encoded_public_key : str) : io http_reply DownloadFailure (list Z) :=
  _ ← io_lift (validate_initial_url (pa_url a));
  public_key ← io_lift (decode_public_key encoded_public_key);
  signature ← io_lift (decode_signature (pa_signature a));
  verifier ← io_lift (ok_or (verify_stream public_key signature) FVerification);
  _ ← build_client;
  response ← send 4 [] (pa_url a);
  _ ← io_lift (validate_status (status response));
  collector ← io_lift (collector_new verifier (content_length response) MAX_ARTIFACT_BYTES (length_reserved response));
  collector ← io_lift (collect collector (body response) (ending response));
  '(bytes, comment) ← io_lift (collector_finish collector signature);
  _ ← io_lift (verify_signed_version comment (pa_version a));
  mret bytes.

(** [BoundedArtifactDownloader::download] *)
Definition artifact_download (a : PendingAnnouncement) : io http_reply DownloadFailure (list Z) :=
  download_and_verify a PRODUCTION_PUBLIC_KEY.

(** ** What is requested *)

Definition requested (t : list (event http_reply)) : list Url :=
  omap (λ e, match ev_call e with HttpGet u => Some u | ClientBuild => None end) t.

(** A plain HTTPS address of one of the release hosts. *)
Definition trusted_url (u : Url) : Prop :=
  scheme u = lit "https" ∧ username u = [] ∧ password u = None ∧ fragment u = None ∧
  port_or_known_default u = Some 443 ∧ ∃ h, host_str u = Some h ∧ h ∈ REDIRECT_HOSTS.

Lemma common_url_ok u h : validate_common_url u = Ok h →
  scheme u = lit "https" ∧ username u = [] ∧ password u = None ∧ fragment u = None ∧
  port_or_known_default u = Some 443 ∧ host_str u = Some h.
Proof.
  unfold validate_common_url, is_empty, str_eqb. case_match eqn:E; [done|]. intros ->%ok_or_ok. split_bools.
  destruct (username u), (password u), (fragment u); try done.
  all: try by (exfalso; naive_solver).
  repeat split; try done. by apply dec_stable.
Qed.

Lemma str_in_elem a l : str_in a l = true → a ∈ l.
Proof. unfold str_in, str_eqb. intros (b & Hb & E)%existsb_exists. split_bools. subst. by apply list_elem_of_In. Qed.

Lemma redirect_trusted u : validate_redirect_url u = Ok tt → trusted_url u.
Proof.
  unfold validate_redirect_url. intros (h & (? & ? & ? & ? & ? & ?)%common_url_ok & E)%bind_ok. case_match; [|done].
  repeat split; try done. exists h. split; [done|]. by apply str_in_elem.
Qed.

Lemma initial_trusted u : validate_initial_url u = Ok tt →
  trusted_url u ∧ host_str u = Some INITIAL_HOST ∧ starts_with INITIAL_PATH_PREFIX (url_path u) = true ∧
  len INITIAL_PATH_PREFIX < len (url_path u).
Proof.
  unfold validate_initial_url, str_eqb. intros (h & (? & ? & ? & ? & ? & Hh)%common_url_ok & E)%bind_ok. case_match; [done|].
  split_bools. subst h. repeat split; try done; try lia. exists INITIAL_HOST. split; [done|]. by apply list_elem_of_here.
Qed.

(** The requests of one chain of redirects. *)
Lemma send_wp fuel prev u t0 : trusted_url u → zlen prev ≤ MAX_REDIRECTS →
  wp (send fuel prev u : prog http_reply _) t0 (λ t r, ∃ us, requested t = requested t0 ++ u :: us ∧ Forall trusted_url us ∧
    zlen prev + 1 + zlen us ≤ MAX_REDIRECTS + 1 ∧
    ∀ resp, r = Ok resp → ∃ v t1, t = t1 ++ [Ev (HttpGet v) (HResponse resp) : event http_reply]).
Proof.
  unfold MAX_REDIRECTS. revert prev u t0. induction fuel as [|fuel IH]; intros prev u t0 Hu Hp; cbn; intros a.
  all: assert (requested (t0 ++ [Ev (HttpGet u) a]) = requested t0 ++ [u]) as Hr by (unfold requested; by rewrite omap_app).
  all: assert (zlen prev + 1 + zlen (@nil Url) ≤ 3 + 1) as H0 by (cbn; lia).
  all: assert (∀ r : result DownloadFailure Response, (∀ resp, r = Ok resp → a = HResponse resp) → ∃ us,
    requested (t0 ++ [Ev (HttpGet u) a]) = requested t0 ++ u :: us ∧ Forall trusted_url us ∧ zlen prev + 1 + zlen us ≤ 3 + 1 ∧
    ∀ resp, r = Ok resp → ∃ v t1, t0 ++ [Ev (HttpGet u) a : event http_reply] = t1 ++ [Ev (HttpGet v) (HResponse resp)]) as Hstop
    by (intros r Ha; exists []; split; [done|]; split; [constructor|]; split; [exact H0|];
        intros resp ->; rewrite (Ha resp eq_refl); eauto).
  - destruct a as [next|resp|to|]; cbn; try (apply Hstop; naive_solver).
    case_match; cbn; apply Hstop; naive_solver.
  - destruct a as [next|resp|to|]; cbn; try (apply Hstop; naive_solver).
    unfold validate_redirect_attempt, MAX_REDIRECTS. rewrite length_app. cbn.
    destruct (Z.ltb_spec 3 (Z.of_nat (length prev + 1))); cbn; [apply Hstop; naive_solver|].
    destruct (validate_redirect_url next) as [[]|] eqn:En; cbn; [|apply Hstop; naive_solver].
    eapply wp_mono; [|apply (IH (prev ++ [u]) next)]; [|by apply redirect_trusted|rewrite length_app; cbn; lia].
    intros t r (us & Ht & Hus & Hn & Hlast). exists (next :: us). rewrite Ht, Hr, <-app_assoc. cbn.
    rewrite length_app in Hn. cbn in Hn. split; [done|]. split; [constructor; [by apply redirect_trusted|done]|]. split; [lia|done].
Qed.

(** Fuel beyond what the policy lets through changes nothing. *)
Lemma send_fuel n m prev u t r : 3 ≤ Z.of_nat n + zlen prev → 3 ≤ Z.of_nat m + zlen prev →
  runs (send n prev u : prog http_reply _) t r → runs (send m prev u : prog http_reply _) t r.
Proof.
  revert m prev u t. induction n as [|n IH]; intros m prev u t Hn Hm H; apply runs_do_inv in H as (a & t' & -> & H);
    destruct m as [|m]; cbn; constructor; destruct a as [next|resp|to|]; try done.
  all: revert H; unfold validate_redirect_attempt, MAX_REDIRECTS; rewrite length_app; cbn.
  all: destruct (Z.ltb_spec 3 (Z.of_nat (length prev + 1))) as [|Hl]; [done|]; try lia.
  destruct (validate_redirect_url next); [|done]. apply IH; rewrite length_app; cbn; lia.
Qed.

(** ** What is accepted *)

Lemma signed_version_some fields found w : signed_version fields found = Ok (Some w) ↔
  (found = Some w ∧ omap (strip_prefix (lit "version:")) fields = []) ∨
  (found = None ∧ omap (strip_prefix (lit "version:")) fields = [w] ∧ w ≠ []).
Proof.
  revert found. induction fields as [|f fields IH]; intros found; cbn; [naive_solver|].
  destruct (strip_prefix (lit "version:") f) as [value|]; [|apply IH].
  destruct value as [|c value]; cbn; [naive_solver|].
  destruct found as [x|]; cbn; [naive_solver|]. rewrite IH. split.
  - intros [[[= <-] ->]|[? _]]; [by right|done].
  - intros [[? _]|(_ & [= <- E] & _)]; [done|by left].
Qed.

(** What the check of the signed version accepts: the trusted comment has
    exactly one field that starts with [version:], its value is not empty, and
    it is the announced version, as semantic versions when both are, and
    literally otherwise. *)
Theorem signed_version_exact comment announced :
  verify_signed_version comment announced = Ok tt ↔
  ∃ signed, omap (strip_prefix (lit "version:")) (split 9 comment) = [signed] ∧ signed ≠ [] ∧ same_version signed announced = true.
Proof.
  unfold verify_signed_version. rewrite bind_ok. split.
  - intros (found & Hf & H). apply bind_ok in H as (signed & ->%ok_or_ok & H).
    apply signed_version_some in Hf as [[? _]|(_ & Hf & Hn)]; [done|]. exists signed. split; [done|]. split; [done|]. by case_match.
  - intros (signed & Hf & Hn & H). exists (Some signed). split; [apply signed_version_some; naive_solver|].
    apply bind_ok. exists signed. by rewrite H.
Qed.

Lemma accept_ok c chunk ok c' : accept c chunk ok = Ok c' →
  bc_verifier c' = verifier_update (bc_verifier c) chunk ∧ bc_bytes c' = bc_bytes c ++ chunk ∧ bc_limit c' = bc_limit c ∧
  zlen (bc_bytes c') ≤ bc_limit c.
Proof.
  unfold accept, checked_next_size. intros (n & (next & [-> _]%ok_or_ok%checked_add_spec & Hn)%bind_ok & H)%bind_ok.
  destruct ok; [|done]. injection H as <-. cbn. rewrite length_app. case_match; [done|]. split_bools. repeat split; lia.
Qed.

Lemma collect_chunks_ok c chunks e c' : collect c chunks e = Ok c' → zlen (bc_bytes c) ≤ bc_limit c →
  e = BodyDone ∧ bc_verifier c' = foldl verifier_update (bc_verifier c) (map fst chunks) ∧
  bc_bytes c' = bc_bytes c ++ concat (map fst chunks) ∧ zlen (bc_bytes c') ≤ bc_limit c.
Proof.
  revert c. induction chunks as [|[chunk ok] chunks IH]; intros c; cbn.
  - destruct e; try done. intros [= <-] ?. by rewrite app_nil_r.
  - intros (c1 & (E1 & E2 & E3 & E4)%accept_ok & H)%bind_ok _. rewrite <-E3 in E4. apply IH in H as (? & Hv & Hb & Hl); [|done].
    rewrite Hv, Hb, E1, E2, <-app_assoc. rewrite Hb, E2, <-app_assoc, E3 in Hl. done.
Qed.

(** The bytes of an announcement [a] that were accepted from the answers [t]. *)
Definition verified_download (a : PendingAnnouncement) (key : str) (t : list (event http_reply)) (bytes : list Z) : Prop :=
  zlen bytes ≤ MAX_ARTIFACT_BYTES ∧
  ∃ pk sig v u r t1, decode_public_key key = Ok pk ∧ decode_signature (pa_signature a) = Ok sig ∧ verify_stream pk sig = Some v ∧
    t = t1 ++ [Ev (HttpGet u) (HResponse r) : event http_reply] ∧ 200 ≤ status r ≤ 299 ∧ ending r = BodyDone ∧
    bytes = concat (map fst (body r)) ∧ verifier_finalize (foldl verifier_update v (map fst (body r))) = true ∧
    verify_signed_version (trusted_comment sig) (pa_version a) = Ok tt.

Definition download_spec (a : PendingAnnouncement) (key : str) (t : list (event http_reply)) (r : result DownloadFailure (list Z)) : Prop :=
  zlen (requested t) ≤ MAX_REDIRECTS + 1 ∧ Forall trusted_url (requested t) ∧
  (∀ u us, requested t = u :: us → u = pa_url a ∧ validate_initial_url u = Ok tt) ∧
  ∀ bytes, r = Ok bytes → verified_download a key t bytes.

(** After the response only pure checks follow. *)
Lemma checks_ok v sig a r bytes :
  (_ ← validate_status (status r);
   c ← collector_new v (content_length r) MAX_ARTIFACT_BYTES (length_reserved r);
   c ← collect c (body r) (ending r);
   '(bytes, comment) ← collector_finish c sig;
   _ ← verify_signed_version comment (pa_version a);
   Ok bytes) = Ok bytes →
  200 ≤ status r ≤ 299 ∧ ending r = BodyDone ∧ zlen bytes ≤ MAX_ARTIFACT_BYTES ∧ bytes = concat (map fst (body r)) ∧
  verifier_finalize (foldl verifier_update v (map fst (body r))) = true ∧
  verify_signed_version (trusted_comment sig) (pa_version a) = Ok tt.
Proof.
  intros ([] & Hs & (c0 & H0 & (c1 & H1 & ([b cm] & H2 & ([] & H3 & [= ->])%bind_ok)%bind_ok)%bind_ok)%bind_ok)%bind_ok.
  unfold validate_status in Hs. unfold collector_finish in H2.
  assert (c0 = {| bc_verifier := v; bc_bytes := []; bc_limit := MAX_ARTIFACT_BYTES |}) as ->.
  { unfold collector_new in H0. apply bind_ok in H0 as (n & _ & H0). destruct (length_reserved r); cbn in H0; by simplify_eq. }
  apply collect_chunks_ok in H1 as (He & Hv & Hb & Hl); [|done]. cbn in Hv, Hb, Hl. rewrite <-Hv, <-Hb.
  destruct (verifier_finalize (bc_verifier c1)); [|done]. injection H2 as <- <-. case_match; [|done]. split_bools. split; [lia|].
  split; [done|]. split; [done|]. by rewrite Hb.
Qed.

Lemma wp_lifted {A B} (x : result DownloadFailure A) (f : A → io http_reply DownloadFailure B) t Q :
  match x with Ok a => wp (f a : prog http_reply _) t Q | Err e => Q t (Err e) end → wp (io_lift x ≫= f : prog http_reply _) t Q.
Proof. by destruct x. Qed.

Lemma download_runs a key t r :
  runs (download_and_verify a key : prog http_reply _) t r → download_spec a key t r.
Proof.
  intros H. apply (wp_runs (download_and_verify a key : prog http_reply _) [] t r (download_spec a key)); [|done].
  assert (∀ e, download_spec a key [] (Err e)) as H0 by (intros e; split; [done|]; split; [constructor|done]).
  unfold download_and_verify.
  apply wp_lifted. destruct (validate_initial_url (pa_url a)) as [[]|] eqn:Eu; [|done].
  apply wp_lifted. destruct (decode_public_key key) as [pk|] eqn:Ek; [|done].
  apply wp_lifted. destruct (decode_signature (pa_signature a)) as [sig|] eqn:Es; [|done].
  apply wp_lifted. destruct (verify_stream pk sig) as [v|] eqn:Ev; [|apply H0]. cbn [ok_or].
  apply wp_io_bind. intros [[]|b]; [|split; [done|]; split; [constructor|done]].
  apply wp_io_bind. eapply wp_mono; [|apply send_wp; [by apply initial_trusted|done]]. cbn.
  intros t' r' (us & Ht & Hus & Hn & Hlast).
  assert (∀ x, (∀ bytes, x = Ok bytes → verified_download a key t' bytes) → download_spec a key t' x) as Hx.
  { intros x Hv. unfold download_spec. rewrite Ht. cbn. split; [cbn in Hn; lia|]. split; [constructor; [by apply initial_trusted|done]|].
    split; [by intros u us' [= <- _]|done]. }
  destruct r' as [resp|e]; [|by apply Hx]. destruct (Hlast resp eq_refl) as (u & t1 & ->).
  apply wp_lifted. destruct (validate_status (status resp)) as [[]|] eqn:E1; [|by apply Hx].
  apply wp_lifted. destruct (collector_new _ _ _ _) as [c|] eqn:E2; [|by apply Hx].
  apply wp_lifted. destruct (collect _ _ _) as [c'|] eqn:E3; [|by apply Hx].
  apply wp_lifted. destruct (collector_finish _ _) as [[bytes comment]|] eqn:E4; [|by apply Hx].
  apply wp_lifted. destruct (verify_signed_version _ _) as [[]|] eqn:E5; [|by apply Hx].
  apply Hx. intros ? [= <-]. destruct (checks_ok v sig a resp bytes) as (? & ? & ? & ? & ? & ?).
  { rewrite E1. unfold mbind, result_bind. by rewrite E2, E3, E4, E5. }
  split; [done|]. by exists pk, sig, v, u, resp, t1.
Qed.

(** [C23] An update is downloaded from the release hosts only, within bounds,
    and accepted only when verified.  In every run, whatever the servers
    answer: at most four requests are made, the first to the announced address,
    all to plain HTTPS addresses of the release hosts on port 443; and bytes
    are returned only if they are the complete body of a successful response,
    at most 128 MiB, the signature of the announcement verifies exactly these
    bytes under the given key, and its trusted comment names the announced
    version. *)
Theorem download_is_verified a key t r :
  runs (download_and_verify a key : prog http_reply _) t r → download_spec a key t r.
Proof. apply download_runs. Qed.

End Download.

(** ** Samples *)
Module UpdateSample.
Record sample_url := { su_host : str; su_path : str }.

(** Texts for keys, signatures and decoded data; a file verifies when it is not
    empty. *)
#[export] Instance sample_lib : UpdateLib := {|
  Url := sample_url; scheme := (λ _, lit "https"); username := (λ _, []); password := (λ _, None); fragment := (λ _, None);
  port_or_known_default := (λ _, Some 443); host_str := (λ u, Some (su_host u)); url_path := su_path;
  path_segments := (λ u, Some (tail (split (ch "/") (su_path u))));
  base64_decode := Some; PublicKey := list Z; public_key_decode := Some; Signature := list Z; signature_decode := Some;
  trusted_comment := (λ s, s); StreamVerifier := list Z; verify_stream := (λ _ _, Some []); verifier_update := (λ v c, v ++ c);
  verifier_finalize := (λ v, negb (is_empty v)); Version := list Z; version_parse := Some; version_eqb := str_eqb |}.

Definition release : Url :=
  {| su_host := INITIAL_HOST; su_path := INITIAL_PATH_PREFIX ++ lit "v2/NexusOps_2_x64-setup.exe" |}.
Definition asset : Url := {| su_host := lit "objects.githubusercontent.com"; su_path := lit "/x" |}.
Definition announcement : PendingAnnouncement :=
  {| pa_version := lit "2"; pa_url := release; pa_signature := lit "version:v2" |}.
Definition installer : list Z := [0x4D; 0x5A].
Definition response : Response :=
  {| status := 200; content_length := Some 2; length_reserved := true; body := [([0x4D], true); ([0x5A], true)]; ending := BodyDone |}.

(** The release host redirects to the asset. *)
Definition answer (c : http_call) : http_reply c :=
  match c with
  | ClientBuild => Ok tt
  | HttpGet u => if str_eqb (su_host u) INITIAL_HOST then HRedirect asset else HResponse response
  end.
Definition trace : list (event http_reply) := (interp answer (artifact_download announcement)).1.

Lemma downloads : runs (artifact_download announcement : prog http_reply _) trace (Ok installer).
Proof. apply interp_runs_eq. vm_compute. reflexivity. Qed.
End UpdateSample.

Lemma download_is_verified_witness : requested UpdateSample.trace = [UpdateSample.release; UpdateSample.asset] ∧
  verified_download UpdateSample.announcement PRODUCTION_PUBLIC_KEY UpdateSample.trace UpdateSample.installer.
Proof.
  split; [vm_compute; reflexivity|].
  by apply (download_is_verified _ _ _ (Ok UpdateSample.installer) UpdateSample.downloads).
Defined.
