(* ===== verification/Updates.v ===== *)
(** The update service and installation
    ([apps/desktop/src-tauri/src/updates.rs], [update_install.rs] and
    [install_verified_update] of [commands.rs]).

    [UpdateService] is one locked state; checks, downloads, shutdowns and
    installations run concurrently and take the lock in the pieces below.
    [upd_step] interleaves the pieces, the spawned download tasks and what the
    network does. *)

From S2P Require Import Prelude Str Utf8 Model Prog UpdateDownload.

Abbreviation UpdateAnnouncementId := N (only parsing).
Abbreviation VerifiedArtifactId := N (only parsing).

Inductive UpdatePhase := UPIdle | UPChecking | UPUpToDate | UPAnnounced | UPDownloading | UPVerifying | UPVerified | UPInstalling.

Record UpdateOperationSnapshot := {
  us_current_version : str;
  us_phase : UpdatePhase;
  us_available_version : option str;
  us_announcement_id : option UpdateAnnouncementId;
  us_verified_artifact_id : option VerifiedArtifactId;
  us_installation_supported : bool
}.

(** ** Errors *)

Definition check_unavailable : AppError := app_error UpdateCheck "The update service could not be checked right now.".
Definition update_conflict : AppError := app_error UpdateConflict "The update state changed. Check for updates again.".
Definition install_conflict : AppError :=
  app_error UpdateConflict "The verified update authority changed. Close and restart NexusOps before continuing.".
Definition update_cancelled : AppError := app_error Cancelled "The update operation was cancelled.".
Definition update_timeout : AppError := app_error UpdateTimeout "The update operation timed out.".
Definition install_unavailable : AppError :=
  app_error UpdateInstall "In-app update installation is not available on this platform.".
Definition INSTALL_FAILED : string :=
  "The verified installer could not be launched. Close and restart NexusOps before continuing.".

Definition download_error (e : DownloadFailure) : AppError :=
  match e with
  | FDownload => app_error UpdateDownload "The update could not be downloaded."
  | FVerification => app_error UpdateVerification "The downloaded update could not be verified and was discarded."
  | FResourceLimit => app_error UpdateResourceLimit "The announced update exceeds the supported download size."
  | FTimeout => update_timeout
  | FCancelled => update_cancelled
  end.

(** ** Installer identity *)

(** The platform the program is compiled for. *)
Inductive Platform := WindowsX64 | WindowsArm64 | OtherPlatform.
#[export] Instance Platform_eq_dec : EqDecision Platform.
Proof. solve_decision. Defined.

Record InstallerIdentity := { id_version : str; id_target : str; artifact_basename : option str }.

Section Service.
Context {L : UpdateLib}.
Variable platform : Platform.

(** The fields of [tauri_plugin_updater::Update] that are read. *)
Record Update := { upd_version : str; upd_target : str; download_url : Url; upd_signature : str }.

(** [RetainedTauriUpdate::identity] *)
Definition identity (u : Update) : InstallerIdentity :=
  {| id_version := upd_version u; id_target := upd_target u;
     artifact_basename :=
       (segments ← path_segments (download_url u);
        segment ← list.last segments;
        if is_empty segment then None else Some segment) |}.

Definition installation_supported : bool := bool_decide (platform ≠ OtherPlatform).

Definition architecture : str :=
  match platform with WindowsX64 => lit "x64" | WindowsArm64 => lit "arm64" | OtherPlatform => lit "unsupported" end.

Definition validate_installer_identity (i : InstallerIdentity) : Res unit :=
  if negb installation_supported then Err install_unavailable else
  if negb (str_eqb (id_target i) (lit "windows")) then Err (app_error UpdateVerification INSTALL_FAILED) else
  let expected := lit "NexusOps_" ++ id_version i ++ lit "_" ++ architecture ++ lit "-setup.exe" in
  if bool_decide (artifact_basename i ≠ Some expected) then Err (app_error UpdateVerification INSTALL_FAILED) else
  Ok tt.

(** ** The service *)

(** The [phase], [abort] and [completion] of a download are those of its
    task. *)
Inductive UpdateState :=
| SIdle
| SChecking (generation : Z)
| SAnnounced (generation : Z) (id : UpdateAnnouncementId) (announcement : PendingAnnouncement) (installer_context : Update)
| SDownloading (generation : Z) (id : UpdateAnnouncementId) (version : str) (task : N) (installer_context : Update)
| SVerified (generation : Z) (verified_artifact_id : option VerifiedArtifactId) (version : str) (installer_context : Update) (bytes : list Z)
| SInstalling (generation : Z) (version : str).

Record Inner := { generation : Z; shutting_down : bool; state : UpdateState }.
Definition inner_new : Inner := {| generation := 0; shutting_down := false; state := SIdle |}.
Definition with_state (st : UpdateState) (s : Inner) : Inner :=
  {| generation := generation s; shutting_down := shutting_down s; state := st |}.

Record CheckedAnnouncement := { ca_announcement : PendingAnnouncement; ca_context : Update }.
Record InstallAuthority := { ia_context : Update; ia_bytes : list Z }.

(** [lock]; a poisoned lock is a conflict. *)
Definition with_lock {A} (lock_ok : bool) (f : Inner → Res A * Inner) (s : Inner) : Res A * Inner :=
  if lock_ok then f s else (Err update_conflict, s).

Definition snapshot_for (verifying : N → bool) (st : UpdateState) (current_version : str) : UpdateOperationSnapshot :=
  let '(phase, available, announcement, artifact) :=
    match st with
    | SIdle => (UPIdle, None, None, None)
    | SChecking _ => (UPChecking, None, None, None)
    | SAnnounced _ id a _ => (UPAnnounced, Some (pa_version a), Some id, None)
    | SDownloading _ _ version t _ => ((if verifying t then UPVerifying else UPDownloading), Some version, None, None)
    | SVerified _ vid version _ _ => (UPVerified, Some version, None, vid)
    | SInstalling _ version => (UPInstalling, Some version, None, None)
    end in
  {| us_current_version := current_version; us_phase := phase; us_available_version := available;
     us_announcement_id := announcement; us_verified_artifact_id := artifact;
     us_installation_supported := installation_supported && bool_decide (is_Some artifact) |}.

Definition begin_check (s : Inner) : Res Z * Inner :=
  if shutting_down s then (Err update_cancelled, s) else
  match state s with
  | SChecking _ | SDownloading _ _ _ _ _ | SInstalling _ _ => (Err update_conflict, s)
  | _ =>
      match checked_add (generation s) 1 with
      | None => (Err update_conflict, s)
      | Some g => (Ok g, {| generation := g; shutting_down := shutting_down s; state := SChecking g |})
      end
  end.

(** [matches!(inner.state, State::Checking { generation: active } if active == generation)] *)
Definition checking (g : Z) (s : Inner) : bool := match state s with SChecking active => active =? g | _ => false end.

Definition finish_announced (g : Z) (current_version : str) (id : UpdateAnnouncementId) (c : CheckedAnnouncement) (s : Inner)
    : Res UpdateOperationSnapshot * Inner :=
  if shutting_down s || negb (checking g s) then (Err update_cancelled, s) else
  let st := SAnnounced g id (ca_announcement c) (ca_context c) in
  (Ok (snapshot_for (λ _, false) st current_version), with_state st s).

Definition finish_up_to_date (g : Z) (current_version : str) (s : Inner) : Res UpdateOperationSnapshot * Inner :=
  if shutting_down s || negb (checking g s) then (Err update_cancelled, s) else
  (Ok {| us_current_version := current_version; us_phase := UPUpToDate; us_available_version := None;
         us_announcement_id := None; us_verified_artifact_id := None; us_installation_supported := false |},
   with_state SIdle s).

Definition fail_active (g : Z) (s : Inner) : Res unit * Inner :=
  (Ok tt, if checking g s then with_state SIdle s else s).

(** What the updater found, as [check] sees it: an error, nothing or an
    update. *)
Definition checked (found : option (option Update)) : Res (option CheckedAnnouncement) :=
  match found with
  | None => Err check_unavailable
  | Some None => Ok None
  | Some (Some u) =>
      match announcement_new (upd_version u) (download_url u) (upd_signature u) with
      | Err _ => Err check_unavailable
      | Ok a => Ok (Some {| ca_announcement := a; ca_context := u |})
      end
  end.

(** The end of [check]. *)
Definition check_end (lock_ok : bool) (g : Z) (current_version : str) (id : UpdateAnnouncementId) (found : option (option Update)) (s : Inner)
    : Res UpdateOperationSnapshot * Inner :=
  match checked found with
  | Ok (Some c) => with_lock lock_ok (finish_announced g current_version id c) s
  | Ok None => with_lock lock_ok (finish_up_to_date g current_version) s
  | Err error =>
      match with_lock lock_ok (fail_active g) s with
      | (Err e, s) => (Err e, s)
      | (Ok _, s) => (Err error, s)
      end
  end.

(** [begin_download], which spawns task [t] for the announcement it
    returns. *)
Definition begin_download (id : UpdateAnnouncementId) (t : N) (s : Inner) : Res (Z * PendingAnnouncement) * Inner :=
  if shutting_down s then (Err update_cancelled, s) else
  match state s with
  | SAnnounced g active a ctx =>
      if bool_decide (active = id) then (Ok (g, a), with_state (SDownloading g active (pa_version a) t ctx) s)
      else (Err update_conflict, s)
  | _ => (Err update_conflict, s)
  end.

(** How a task ended: [JoinError]s included. *)
Inductive JoinResult := JDone (r : result DownloadFailure (list Z)) | JCancelled | JPanicked.
Definition joined (j : JoinResult) : result DownloadFailure (list Z) :=
  match j with JDone r => r | JCancelled => Err FCancelled | JPanicked => Err FDownload end.

(** The part of [download] after its task ended; [vid] is the new id. *)
Definition finish_download (g : Z) (id : UpdateAnnouncementId) (version current_version : str) (vid : VerifiedArtifactId)
    (r : result DownloadFailure (list Z)) (s : Inner) : Res UpdateOperationSnapshot * Inner :=
  if shutting_down s then (Err update_cancelled, s) else
  match state s with
  | SDownloading active_generation active _ _ ctx =>
      if (active_generation =? g) && bool_decide (active = id) then
        match r with
        | Ok bytes =>
            if installation_supported && negb (is_ok (validate_installer_identity (identity ctx)))
            then (Err (download_error FVerification), with_state SIdle s)
            else
              let st := SVerified g (if installation_supported then Some vid else None) version ctx bytes in
              (Ok (snapshot_for (λ _, false) st current_version), with_state st s)
        | Err error => (Err (download_error error), with_state SIdle s)
        end
      else (Err update_cancelled, s)
  | _ => (Err update_cancelled, s)
  end.

(** The start of [shutdown]: the task it aborts and waits for. *)
Definition shutdown_begin (s : Inner) : Res (option N) * Inner :=
  let s := {| generation := generation s; shutting_down := true; state := state s |} in
  match state s with
  | SDownloading _ _ _ t _ => (Ok (Some t), s)
  | _ => (Ok None, with_state SIdle s)
  end.

Definition validate_install (id : VerifiedArtifactId) (s : Inner) : Res unit :=
  if negb installation_supported then Err install_unavailable else
  match state s with
  | SVerified _ (Some active) _ ctx _ =>
      if bool_decide (active = id) then validate_installer_identity (identity ctx) else Err update_conflict
  | _ => Err update_conflict
  end.

Definition consume_install (id : VerifiedArtifactId) (s : Inner) : Res InstallAuthority * Inner :=
  match state s with
  | SVerified g (Some active) version ctx bytes =>
      if bool_decide (active = id) then
        match validate_installer_identity (identity ctx) with
        | Err e => (Err e, with_state SIdle s)
        | Ok _ => (Ok {| ia_context := ctx; ia_bytes := bytes |}, with_state (SInstalling g version) s)
        end
      else (Err install_conflict, s)
  | _ => (Err install_conflict, s)
  end.

(** ** The service with its callers *)

(** A spawned download; [outcome] is there once its completion guard was
    dropped. *)
Record Task := { announcement : PendingAnnouncement; verifying : bool; aborted : bool; outcome : option JoinResult }.

(** A caller of [download] that awaits its task. *)
Record Waiter := { w_generation : Z; w_id : UpdateAnnouncementId; w_version : str; w_task : N }.

Record UpdSys := {
  inner : Inner;
  tasks : gmap N Task;
  checks : gmap N Z;                       (** callers of [check] and their generation *)
  waiters : gmap N Waiter;
  closing : gmap N N;                      (** callers of [shutdown] and the task they wait for *)
  closed : bool;                           (** a shutdown returned [Ok] *)
  authorities : list InstallAuthority      (** handed out by [consume_install] *)
}.
Definition upd_new : UpdSys :=
  {| inner := inner_new; tasks := ∅; checks := ∅; waiters := ∅; closing := ∅; closed := false; authorities := [] |}.

Definition set_inner (s : Inner) (y : UpdSys) : UpdSys :=
  {| inner := s; tasks := tasks y; checks := checks y; waiters := waiters y; closing := closing y; closed := closed y; authorities := authorities y |}.
Definition set_task (t : N) (k : Task) (y : UpdSys) : UpdSys :=
  {| inner := inner y; tasks := <[t := k]> (tasks y); checks := checks y; waiters := waiters y; closing := closing y; closed := closed y; authorities := authorities y |}.

(** [check], up to the updater and after it. *)
Definition sys_check (c : N) (ok : bool) (y : UpdSys) : UpdSys :=
  let '(r, s) := with_lock ok begin_check (inner y) in
  {| inner := s; tasks := tasks y; checks := (match r with Ok g => <[c := g]> (checks y) | Err _ => checks y end);
     waiters := waiters y; closing := closing y; closed := closed y; authorities := authorities y |}.
Definition sys_check_end (c : N) (ok : bool) (current : str) (id : UpdateAnnouncementId) (found : option (option Update)) (y : UpdSys) : option UpdSys :=
  g ← checks y !! c;
  Some {| inner := (check_end ok g current id found (inner y)).2; tasks := tasks y; checks := delete c (checks y);
          waiters := waiters y; closing := closing y; closed := closed y; authorities := authorities y |}.

(** [download], up to its task and after it. *)
Definition sys_download (d t : N) (ok : bool) (id : UpdateAnnouncementId) (y : UpdSys) : UpdSys :=
  let '(r, s) := with_lock ok (begin_download id t) (inner y) in
  match r with
  | Err _ => set_inner s y
  | Ok (g, a) =>
      {| inner := s; tasks := <[t := {| announcement := a; verifying := false; aborted := false; outcome := None |}]> (tasks y);
         checks := checks y;
         waiters := <[d := {| w_generation := g; w_id := id; w_version := pa_version a; w_task := t |}]> (waiters y);
         closing := closing y; closed := closed y; authorities := authorities y |}
  end.
Definition sys_download_end (d : N) (ok : bool) (current : str) (vid : VerifiedArtifactId) (y : UpdSys) : option UpdSys :=
  w ← waiters y !! d;
  k ← tasks y !! w_task w;
  j ← outcome k;
  Some {| inner := (with_lock ok (finish_download (w_generation w) (w_id w) (w_version w) current vid (joined j)) (inner y)).2;
          tasks := tasks y; checks := checks y; waiters := delete d (waiters y); closing := closing y; closed := closed y;
          authorities := authorities y |}.

(** The download task: it stores [PHASE_VERIFYING], and it ends. *)
Definition task_verifying (t : N) (y : UpdSys) : option UpdSys :=
  k ← tasks y !! t;
  match outcome k with
  | Some _ => None
  | None => Some (set_task t {| announcement := announcement k; verifying := true; aborted := aborted k; outcome := None |} y)
  end.
Definition task_end (t : N) (j : JoinResult) (y : UpdSys) : option UpdSys :=
  k ← tasks y !! t;
  match outcome k with
  | Some _ => None
  | None => Some (set_task t {| announcement := announcement k; verifying := verifying k; aborted := aborted k; outcome := Some j |} y)
  end.

(** [shutdown]: its start, and its end when the task is over or the wait timed
    out. *)
Definition sys_shutdown (c : N) (ok : bool) (y : UpdSys) : UpdSys :=
  let '(r, s) := with_lock ok shutdown_begin (inner y) in
  match r with
  | Err _ => set_inner s y
  | Ok None =>
      {| inner := s; tasks := tasks y; checks := checks y; waiters := waiters y; closing := closing y; closed := true; authorities := authorities y |}
  | Ok (Some t) =>
      {| inner := s;
         tasks := alter (λ k, {| announcement := announcement k; verifying := verifying k; aborted := true; outcome := outcome k |}) t (tasks y);
         checks := checks y; waiters := waiters y; closing := <[c := t]> (closing y); closed := closed y; authorities := authorities y |}
  end.
Definition sys_shutdown_end (c : N) (timed_out ok : bool) (y : UpdSys) : option UpdSys :=
  t ← closing y !! c;
  k ← tasks y !! t;
  let done s closed :=
    {| inner := s; tasks := tasks y; checks := checks y; waiters := waiters y; closing := delete c (closing y); closed := closed; authorities := authorities y |} in
  if timed_out then Some (done (inner y) (closed y)) else
  match outcome k with
  | None => None
  | Some _ => if ok then Some (done (with_state SIdle (inner y)) true) else Some (done (inner y) (closed y))
  end.

Definition sys_consume (ok : bool) (id : VerifiedArtifactId) (y : UpdSys) : UpdSys :=
  let '(r, s) := with_lock ok (consume_install id) (inner y) in
  {| inner := s; tasks := tasks y; checks := checks y; waiters := waiters y; closing := closing y; closed := closed y;
     authorities := (match r with Ok a => a :: authorities y | Err _ => authorities y end) |}.

(** A task ends with what its download returns, or as cancelled once it was
    aborted, or by a panic. *)
Definition may_end (k : Task) (j : JoinResult) : Prop :=
  match j with
  | JDone r => ∃ trace, runs (artifact_download (announcement k) : prog http_reply _) trace r
  | JCancelled => aborted k = true
  | JPanicked => True
  end.

Inductive upd_step : UpdSys → UpdSys → Prop :=
| up_check c ok y : checks y !! c = None → upd_step y (sys_check c ok y)
| up_check_end c ok current id found y y' : sys_check_end c ok current id found y = Some y' → upd_step y y'
| up_download d t ok id y : waiters y !! d = None → tasks y !! t = None → upd_step y (sys_download d t ok id y)
| up_download_end d ok current vid y y' : sys_download_end d ok current vid y = Some y' → upd_step y y'
| up_verifying t y y' : task_verifying t y = Some y' → upd_step y y'
| up_task_end t k j y y' : tasks y !! t = Some k → may_end k j → task_end t j y = Some y' → upd_step y y'
| up_shutdown c ok y : closing y !! c = None → upd_step y (sys_shutdown c ok y)
| up_shutdown_end c timed_out ok y y' : sys_shutdown_end c timed_out ok y = Some y' → upd_step y y'
| up_consume ok id y : upd_step y (sys_consume ok id y).

Definition upd_reachable : UpdSys → Prop := rtc upd_step upd_new.

(** ** Installing *)

Inductive install_call :=
| IAdmit | IValidate (id : VerifiedArtifactId) | IDrainOthers | IConsume (id : VerifiedArtifactId)
| IShutdownApplication | IRevokeLocalGrants | IFinalizeLogging | IInvoke (a : InstallAuthority).

(** [IInvoke] answers with the [JoinError] of its blocking task or what the
    installer returned. *)
Definition install_reply (c : install_call) : Type :=
  match c with
  | IConsume _ => Res InstallAuthority
  | IInvoke _ => option (Res unit)
  | _ => Res unit
  end.

Definition run_after_consumption (a : InstallAuthority) : io install_reply AppError unit :=
  _ ← (Do IShutdownApplication (λ r, Ret r) : io install_reply AppError unit);
  _ ← (Do IRevokeLocalGrants (λ r, Ret r) : io install_reply AppError unit);
  _ ← (Do IFinalizeLogging (λ r, Ret r) : io install_reply AppError unit);
  Do (IInvoke a) (λ r, Ret (default (Err (app_error UpdateInstall INSTALL_FAILED)) (r : option (Res unit)))).

Definition install_verified_update (id : VerifiedArtifactId) : io install_reply AppError unit :=
  _ ← (Do IAdmit (λ r, Ret r) : io install_reply AppError unit);
  _ ← (Do (IValidate id) (λ r, Ret r) : io install_reply AppError unit);
  _ ← (Do IDrainOthers (λ r, Ret r) : io install_reply AppError unit);
  a ← (Do (IConsume id) (λ r, Ret r) : io install_reply AppError InstallAuthority);
  run_after_consumption a.

End Service.
