(* ===== verification/UpdatesSafe.v ===== *)
(** What the update service promises: only verified bytes reach the installer,
    once, and nothing starts after a shutdown. *)

From S2P Require Import Prelude Str Utf8 Model Prog UpdateDownload Updates.

Section Safe.
Context {L : UpdateLib}.
Variable platform : Platform.

Abbreviation step := (upd_step platform).
Abbreviation reachable := (upd_reachable platform).

(** [a] is the accepted announcement of the update [u]. *)
Definition announces (u : Update) (a : PendingAnnouncement) : Prop :=
  announcement_new (upd_version u) (download_url u) (upd_signature u) = Ok a.

(** [bytes] were downloaded for [u]. *)
Definition downloaded (u : Update) (bytes : list Z) : Prop :=
  ∃ a trace, announces u a ∧ runs (artifact_download a : prog http_reply _) trace (Ok bytes).

Definition installable (u : Update) : Prop := validate_installer_identity platform (identity u) = Ok tt.

(** ** The invariant *)

Definition state_ok (s : Inner) (ts : gmap N Task) : Prop :=
  match state s with
  | SIdle => True
  | SChecking g => g = generation s
  | SAnnounced g _ a u => g = generation s ∧ announces u a
  | SDownloading g _ _ t u => g = generation s ∧ ∃ k, ts !! t = Some k ∧ announces u (announcement k)
  | SVerified g vid _ u bytes => g = generation s ∧ downloaded u bytes ∧ (is_Some vid → installable u)
  | SInstalling g _ => g = generation s
  end.

(** A waiter is behind the state, or waits for the current download. *)
Definition waiter_ok (s : Inner) (ts : gmap N Task) (w : Waiter) : Prop :=
  w_generation w ≤ generation s ∧ is_Some (ts !! w_task w) ∧
  match state s with
  | SChecking _ | SAnnounced _ _ _ _ => w_generation w < generation s
  | SDownloading g _ _ t _ => w_generation w = g → w_task w = t
  | _ => True
  end.

Definition downloading (s : Inner) (t : N) : Prop := ∃ g id v u, state s = SDownloading g id v t u.

(** A task that runs is the one of the current download; a result comes from a
    run of the download. *)
Definition task_ok (s : Inner) (t : N) (k : Task) : Prop :=
  match outcome k with
  | None => downloading s t
  | Some (JDone (Ok bytes)) => ∃ trace, runs (artifact_download (announcement k) : prog http_reply _) trace (Ok bytes)
  | Some _ => True
  end.

Definition authority_ok (s : Inner) (l : list InstallAuthority) : Prop :=
  match l with
  | [] => True
  | [a] => downloaded (ia_context a) (ia_bytes a) ∧ installable (ia_context a) ∧
           ((∃ g v, state s = SInstalling g v) ∨ (shutting_down s = true ∧ state s = SIdle))
  | _ => False
  end.

Record upd_inv (y : UpdSys) : Prop := {
  ui_state : state_ok (inner y) (tasks y);
  ui_waiters : ∀ d w, waiters y !! d = Some w → waiter_ok (inner y) (tasks y) w;
  ui_tasks : ∀ t k, tasks y !! t = Some k → task_ok (inner y) t k;
  ui_authorities : authority_ok (inner y) (authorities y);
  ui_shut : shutting_down (inner y) = true → state (inner y) = SIdle ∨ ∃ t, downloading (inner y) t;
  ui_closing : ∀ c t, closing y !! c = Some t →
    shutting_down (inner y) = true ∧ (state (inner y) = SIdle ∨ downloading (inner y) t) ∧ is_Some (tasks y !! t);
  ui_closed : closed y = true → shutting_down (inner y) = true ∧ state (inner y) = SIdle
}.

(** Giving up the state is always fine once no task runs. *)
Lemma idle_ok y : upd_inv y → (∀ t k, tasks y !! t = Some k → is_Some (outcome k)) →
  (shutting_down (inner y) = true ∨ authorities y = []) → upd_inv (set_inner (with_state SIdle (inner y)) y).
Proof.
  intros [I1 I2 I3 I4 I5 I6 I7] Ht Ha. split; cbn; try done; auto.
  - intros d w Hw. by destruct (I2 d w Hw) as (? & ? & _).
  - intros t k Hk. destruct (Ht t k Hk) as [j Hj]. specialize (I3 t k Hk). unfold task_ok in *. rewrite Hj in *. by destruct j as [[]| |].
  - unfold authority_ok in *. destruct (authorities y) as [|a [|]]; [done| |done].
    destruct Ha as [Ha|]; [|done]. naive_solver.
  - intros c t (? & ? & ?)%I6. auto.
  - intros [? _]%I7. auto.
Qed.

Definition quiet (y : UpdSys) : Prop := ∀ t k, tasks y !! t = Some k → is_Some (outcome k).

Lemma quiet_unless_downloading y : upd_inv y → (∀ t, ¬ downloading (inner y) t) → quiet y.
Proof.
  intros I Hn t k Hk. pose proof (ui_tasks y I t k Hk) as H. unfold task_ok in H. destruct (outcome k); [done|]. by apply Hn in H.
Qed.

Lemma quiet_when_done y t k : upd_inv y → tasks y !! t = Some k → is_Some (outcome k) → downloading (inner y) t → quiet y.
Proof.
  intros I Ht Ho (g & id & v & u & Hd) t' k' Hk'. pose proof (ui_tasks y I t' k' Hk') as H. unfold task_ok in H.
  destruct (outcome k') eqn:E; [done|]. destruct H as (? & ? & ? & ? & H). rewrite Hd in H. simplify_eq. rewrite E in Ho. by destruct Ho.
Qed.

Lemma no_authority_yet y : upd_inv y → shutting_down (inner y) = false → (∀ g v, state (inner y) ≠ SInstalling g v) → authorities y = [].
Proof.
  intros I Hs Hn. pose proof (ui_authorities y I) as H. unfold authority_ok in H. destruct (authorities y) as [|a [|]]; [done| |done].
  destruct H as (_ & _ & [(g & v & H)|[H _]]); [by apply Hn in H|]. by rewrite Hs in H.
Qed.

(** A new state of a service that runs, while no task does. *)
Lemma move s y : upd_inv y → quiet y → shutting_down (inner y) = false → authorities y = [] → shutting_down s = false →
  state_ok s (tasks y) → (∀ d w, waiters y !! d = Some w → waiter_ok s (tasks y) w) → upd_inv (set_inner s y).
Proof.
  intros [I1 I2 I3 I4 I5 I6 I7] Hq Hs Ha Hs' H1 H2. split; cbn; try done.
  - intros t k Hk. destruct (Hq t k Hk) as [j Hj]. specialize (I3 t k Hk). unfold task_ok in *. rewrite Hj in *. by destruct j as [[]| |].
  - by rewrite Ha.
  - by rewrite Hs'.
  - intros c t [H _]%I6. by rewrite Hs in H.
  - intros [H _]%I7. by rewrite Hs in H.
Qed.

(** Callers that come and go. *)
Lemma callers y cs ws : upd_inv y → (∀ d w, ws !! d = Some w → waiter_ok (inner y) (tasks y) w) →
  upd_inv {| inner := inner y; tasks := tasks y; checks := cs; waiters := ws; closing := closing y; closed := closed y; authorities := authorities y |}.
Proof. intros [I1 I2 I3 I4 I5 I6 I7] H. by split. Qed.

(** ** Checks *)

Lemma begin_check_inv y : upd_inv y → upd_inv (set_inner (begin_check (inner y)).2 y).
Proof.
  intros I. unfold begin_check. destruct (shutting_down (inner y)) eqn:Hs; [by destruct y|].
  destruct (state (inner y)) as [|g0|g0 id0 a0 u0|g0 id0 v0 t0 u0|g0 vid0 v0 u0 b0|g0 v0] eqn:Hst; cbn; try by destruct y.
  all: destruct (checked_add (generation (inner y)) 1) as [g|] eqn:Hg; cbn; [|by destruct y].
  all: apply checked_add_spec in Hg as [-> _]; apply move; cbn; try done.
  all: try (apply quiet_unless_downloading; [done|]; intros ? (? & ? & ? & ? & ?); congruence).
  all: try (apply no_authority_yet; [done|done|]; intros ? ? ?; congruence).
  all: intros d w Hw; destruct (ui_waiters y I d w Hw) as (? & ? & _); split; cbn; [lia|]; split; [done|lia].
Qed.

Lemma check_end_inv ok g current id found y : upd_inv y → upd_inv (set_inner (check_end platform ok g current id found (inner y)).2 y).
Proof.
  intros I. unfold check_end. assert (upd_inv (set_inner (inner y) y)) as I0 by (by destruct y).
  assert (checking g (inner y) = true → state (inner y) = SChecking g ∧ generation (inner y) = g) as Hc.
  { pose proof (ui_state y I) as Hs. unfold checking, state_ok in *. destruct (state (inner y)); try done. intros E. split_bools. by subst. }
  assert (∀ st, checking g (inner y) = true → shutting_down (inner y) = false →
    state_ok (with_state st (inner y)) (tasks y) → (∀ g id v t u, st ≠ SDownloading g id v t u) → upd_inv (set_inner (with_state st (inner y)) y)) as Hm.
  { intros st [Hst Hg]%Hc Hs H1 H2. apply move; try done.
    - apply quiet_unless_downloading; [done|]. intros ? (? & ? & ? & ? & ?). congruence.
    - apply no_authority_yet; [done|done|]. congruence.
    - intros d w Hw. pose proof (ui_waiters y I d w Hw) as (? & ? & H). rewrite Hst in H. split; [done|]. split; [done|]. cbn.
      destruct st as [| | |g0 id0 v0 t0 u0| |]; try done. by destruct (H2 g0 id0 v0 t0 u0). }
  destruct (checked found) as [[c|]|e] eqn:Ec; unfold with_lock; destruct ok; cbn; try done.
  - unfold finish_announced. destruct (shutting_down (inner y)) eqn:Hs; cbn; [done|]. destruct (checking g (inner y)) eqn:E; cbn; [|done].
    apply Hm; try done. destruct (Hc eq_refl) as [_ <-]. split; [done|].
    unfold checked in Ec. destruct found as [[u|]|]; try done. unfold announces. destruct (announcement_new _ _ _) eqn:Ea; simplify_eq. done.
  - unfold finish_up_to_date. destruct (shutting_down (inner y)) eqn:Hs; cbn; [done|]. destruct (checking g (inner y)) eqn:E; cbn; [|done].
    by apply Hm.
  - destruct (checking g (inner y)) eqn:E; cbn; [|done]. destruct (shutting_down (inner y)) eqn:Hs; [|by apply Hm].
    destruct (Hc eq_refl) as [Hst _]. destruct (ui_shut y I Hs) as [?|(? & ? & ? & ? & ? & ?)]; congruence.
Qed.

(** ** Downloads *)

Lemma waiter_ok_insert s ts t k w : waiter_ok s ts w → waiter_ok s (<[t := k]> ts) w.
Proof. intros (? & ? & ?). split; [done|]. split; [|done]. by apply lookup_insert_is_Some'; right. Qed.

Lemma sys_download_inv d t ok id y : upd_inv y → tasks y !! t = None → upd_inv (sys_download d t ok id y).
Proof.
  intros I Ht. assert (upd_inv (set_inner (inner y) y)) as I0 by (by destruct y).
  unfold sys_download, with_lock. destruct ok; [|done]. unfold begin_download.
  destruct (shutting_down (inner y)) eqn:Hs; [done|].
  destruct (state (inner y)) as [|g0|g0 id0 a0 u0|g0 id0 v0 t0 u0|g0 vid0 v0 u0 b0|g0 v0] eqn:Hst; try done.
  destruct (bool_decide (id0 = id)); [|done].
  assert (quiet y) as Hq by (apply quiet_unless_downloading; [done|]; intros ? (? & ? & ? & ? & ?); congruence).
  assert (authorities y = []) as Ha by (apply no_authority_yet; [done|done|congruence]).
  destruct I as [I1 I2 I3 I4 I5 I6 I7]. unfold state_ok in I1. rewrite Hst in I1. destruct I1 as [-> Hann].
  assert (downloading (with_state (SDownloading (generation (inner y)) id0 (pa_version a0) t u0) (inner y)) t) as Hd by (by repeat eexists).
  split; cbn; try done.
  - split; [done|]. eexists. split; [apply lookup_insert_eq|done].
  - intros d' w [[<- <-]|[_ Hw]]%lookup_insert_Some.
    + split; cbn; [lia|]. split; [|done]. rewrite lookup_insert_eq. eauto.
    + destruct (I2 d' w Hw) as (? & ? & H). rewrite Hst in H. split; [done|]. split; [by apply lookup_insert_is_Some'; right|]. cbn. lia.
  - intros t' k [[<- <-]|[_ Hk]]%lookup_insert_Some; [done|].
    specialize (I3 t' k Hk). destruct (Hq t' k Hk) as [j Hj]. unfold task_ok in *. rewrite Hj in *. by destruct j as [[]| |].
  - by rewrite Ha.
  - by rewrite Hs.
  - intros c t' [H _]%I6. congruence.
  - intros [H _]%I7. congruence.
Qed.

Lemma finish_download_inv w k j current vid y : upd_inv y → waiter_ok (inner y) (tasks y) w → tasks y !! w_task w = Some k → outcome k = Some j →
  upd_inv (set_inner (finish_download platform (w_generation w) (w_id w) (w_version w) current vid (joined j) (inner y)).2 y).
Proof.
  intros I Hw Hk Hj. assert (upd_inv (set_inner (inner y) y)) as I0 by (by destruct y). unfold finish_download.
  destruct (shutting_down (inner y)) eqn:Hs; [done|].
  destruct (state (inner y)) as [|g0|g0 id0 a0 u0|g0 id0 v0 t0 u0|g0 vid0 v0 u0 b0|g0 v0] eqn:Hst; try done.
  destruct (g0 =? w_generation w) eqn:Eg; [|done]. destruct (bool_decide (id0 = w_id w)); cbn; [|done]. split_bools. subst g0.
  unfold waiter_ok in Hw. rewrite Hst in Hw. destruct Hw as (_ & _ & Et). specialize (Et eq_refl). subst t0.
  pose proof (ui_state y I) as H1. unfold state_ok in H1. rewrite Hst in H1. destruct H1 as (Hg & k' & Hk' & Hann).
  rewrite Hk in Hk'. injection Hk' as <-.
  assert (quiet y) as Hq by (eapply quiet_when_done; [done|done|by rewrite Hj|by repeat eexists]).
  assert (authorities y = []) as Ha by (apply no_authority_yet; [done|done|congruence]).
  assert (∀ st, state_ok (with_state st (inner y)) (tasks y) → st = SIdle ∨ (∃ a b c d e, st = SVerified a b c d e) →
    upd_inv (set_inner (with_state st (inner y)) y)) as Hm.
  { intros st H1 H2. apply move; try done. intros d w' Hw'. destruct (ui_waiters y I d w' Hw') as (? & ? & _).
    split; [done|]. split; [done|]. cbn. by destruct H2 as [->|(? & ? & ? & ? & ? & ->)]. }
  destruct (joined j) as [bytes|e] eqn:Ej; cbn; [|apply Hm; [done|by left]].
  destruct (installation_supported platform) eqn:Esup; cbn;
    [destruct (is_ok (validate_installer_identity platform (identity u0))) eqn:Ev; cbn; [|apply Hm; [done|by left]]|].
  all: apply Hm; [|by right; repeat eexists]; cbn; split; [done|]; split; [|intros [? ?]; try done].
  1,3: pose proof (ui_tasks y I _ _ Hk) as Hr; unfold task_ok in Hr; rewrite Hj in Hr; destruct j as [r| |]; cbn in Ej; try done;
    subst r; destruct Hr as [trace Hr]; by exists (announcement k), trace.
  unfold installable. by destruct (validate_installer_identity platform (identity u0)) as [[]|].
Qed.

(** A task that changes but keeps its announcement. *)
Lemma set_task_inv t k k' y : upd_inv y → tasks y !! t = Some k → announcement k' = announcement k → task_ok (inner y) t k' →
  upd_inv (set_task t k' y).
Proof.
  intros [I1 I2 I3 I4 I5 I6 I7] Hk Ha Ht. split; cbn; try done.
  - unfold state_ok in *. destruct (state (inner y)) as [| | |g0 id0 v0 t0 u0| |]; try done. destruct I1 as (Hg & k0 & Hk0 & H). split; [done|].
    destruct (decide (t = t0)) as [->|Hne]; [|exists k0; by rewrite lookup_insert_ne].
    exists k'. rewrite lookup_insert_eq, Ha. split; [done|]. by rewrite Hk in Hk0; simplify_eq.
  - intros d w Hw. apply waiter_ok_insert. by eapply I2.
  - intros t' k0 [[<- <-]|[_ H]]%lookup_insert_Some; [done|by apply I3].
  - intros c t' (? & ? & ?)%I6. split; [done|]. split; [done|]. by apply lookup_insert_is_Some'; right.
Qed.

Lemma task_verifying_inv t y y' : upd_inv y → task_verifying t y = Some y' → upd_inv y'.
Proof.
  intros I. unfold task_verifying. destruct (tasks y !! t) as [k|] eqn:Hk; cbn; [|done]. destruct (outcome k) eqn:Ho; [done|]. intros [= <-].
  eapply set_task_inv; [done|done|done|]. pose proof (ui_tasks y I t k Hk) as H. unfold task_ok in *. by rewrite Ho in H.
Qed.

Lemma task_end_inv t k j y y' : upd_inv y → tasks y !! t = Some k → may_end k j → task_end t j y = Some y' → upd_inv y'.
Proof.
  intros I Hk Hj. unfold task_end. rewrite Hk. cbn. destruct (outcome k) eqn:Ho; [done|]. intros [= <-].
  eapply set_task_inv; [done|done|done|]. unfold task_ok. cbn. by destruct j as [[]| |].
Qed.

(** ** Shutdown and installation *)

Lemma alter_known (f : Task → Task) t (m : gmap N Task) k : m !! t = Some k → alter f t m = <[t := f k]> m.
Proof. intros H. by rewrite <-(insert_id m t k H) at 1; rewrite alter_insert_eq. Qed.

Lemma sys_shutdown_inv c ok y : upd_inv y → upd_inv (sys_shutdown c ok y).
Proof.
  intros I. unfold sys_shutdown, with_lock. destruct ok; [|by destruct y].
  assert (∀ s', generation s' = generation (inner y) → state s' = SIdle → shutting_down s' = true → (∀ t, ¬ downloading (inner y) t) →
    upd_inv {| inner := s'; tasks := tasks y; checks := checks y; waiters := waiters y; closing := closing y; closed := true; authorities := authorities y |}) as Hidle.
  { intros s' Eg Es Eh Hn. pose proof (quiet_unless_downloading y I Hn) as Hq. destruct I as [I1 I2 I3 I4 I5 I6 I7]. split; cbn; try done; auto.
    - unfold state_ok. by rewrite Es.
    - intros d w Hw. destruct (I2 d w Hw) as (? & ? & _). unfold waiter_ok. rewrite Eg, Es. done.
    - intros t k Hk. destruct (Hq t k Hk) as [j Hj]. specialize (I3 t k Hk). unfold task_ok in *. rewrite Hj in *. by destruct j as [[]| |].
    - unfold authority_ok in *. destruct (authorities y) as [|a [|]]; [done| |done]. naive_solver.
    - intros c' t (? & ? & ?)%I6. auto. }
  unfold shutdown_begin. cbn.
  destruct (state (inner y)) as [|g0|g0 id0 a0 u0|g0 id0 v0 t0 u0|g0 vid0 v0 u0 b0|g0 v0] eqn:Hst; cbn.
  1-3,5-6: apply Hidle; try done; intros ? (? & ? & ? & ? & ?); congruence.
  pose proof (ui_state y I) as H1. unfold state_ok in H1. rewrite Hst in H1. destruct H1 as (Hg & k & Hk & Hann).
  assert (downloading (inner y) t0) as Hd by (by repeat eexists).
  rewrite (alter_known _ _ _ k Hk). set (k' := {| announcement := announcement k |}).
  assert (upd_inv (set_task t0 k' y)) as [I1 I2 I3 I4 I5 I6 I7].
  { eapply set_task_inv; [done|exact Hk|done|]. exact (ui_tasks y I _ _ Hk). }
  cbn in *. split; cbn; try done.
  - unfold state_ok in *. cbn. by rewrite Hst in *.
  - intros d w Hw. specialize (I2 d w Hw). unfold waiter_ok in *. cbn. by rewrite Hst in *.
  - intros t k1 Hk1. specialize (I3 t k1 Hk1). unfold task_ok, downloading in *. cbn. by rewrite Hst in *.
  - unfold authority_ok in *. cbn. rewrite Hst in I4. destruct (authorities y) as [|a [|]]; naive_solver.
  - intros _. right. exists t0. by repeat eexists.
  - intros c' t' [[<- <-]|[_ (? & Hor & ?)%I6]]%lookup_insert_Some.
    + split; [done|]. split; [right; by repeat eexists|]. rewrite lookup_insert_eq. eauto.
    + split; [done|]. split; [|done]. unfold downloading in *. cbn. by rewrite Hst in *.
  - intros [_ H]%I7. congruence.
Qed.

Lemma sys_shutdown_end_inv c timed_out ok y y' : upd_inv y → sys_shutdown_end c timed_out ok y = Some y' → upd_inv y'.
Proof.
  intros I. unfold sys_shutdown_end. destruct (closing y !! c) as [t|] eqn:Hc; cbn; [|done].
  destruct (tasks y !! t) as [k|] eqn:Hk; cbn; [|done].
  assert (∀ z, upd_inv z → closing z = closing y → upd_inv {| inner := inner z; tasks := tasks z; checks := checks z; waiters := waiters z;
    closing := delete c (closing z); closed := closed z; authorities := authorities z |}) as Hdel.
  { intros z [I1 I2 I3 I4 I5 I6 I7] Hz. split; cbn; try done. intros c' t' [_ H]%lookup_delete_Some. by eapply I6. }
  destruct timed_out; [intros [= <-]; by apply Hdel|].
  destruct (outcome k) eqn:Ho; [|done]. destruct ok; intros [= <-]; [|by apply Hdel].
  destruct (ui_closing y I c t Hc) as (Hs & Hd & _).
  assert (quiet y) as Hq.
  { destruct Hd as [Hd|Hd]; [|eapply quiet_when_done; [done|exact Hk|by rewrite Ho|done]].
    apply quiet_unless_downloading; [done|]. intros ? (? & ? & ? & ? & ?). congruence. }
  assert (upd_inv (set_inner (with_state SIdle (inner y)) y)) as Hi by (apply idle_ok; auto).
  pose proof (Hdel _ Hi eq_refl) as [I1 I2 I3 I4 I5 I6 I7]. cbn in *. by split.
Qed.

Lemma sys_consume_inv ok id y : upd_inv y → upd_inv (sys_consume platform ok id y).
Proof.
  intros I. unfold sys_consume, with_lock. destruct ok; [|by destruct y]. unfold consume_install.
  destruct (state (inner y)) as [|g0|g0 id0 a0 u0|g0 id0 v0 t0 u0|g0 [vid0|] v0 u0 b0|g0 v0] eqn:Hst; try by destruct y.
  destruct (bool_decide (vid0 = id)); [|by destruct y].
  assert (shutting_down (inner y) = false) as Hs.
  { destruct (shutting_down (inner y)) eqn:Hs; [|done]. destruct (ui_shut y I Hs) as [?|(? & ? & ? & ? & ? & ?)]; congruence. }
  assert (quiet y) as Hq by (apply quiet_unless_downloading; [done|]; intros ? (? & ? & ? & ? & ?); congruence).
  assert (authorities y = []) as Ha by (apply no_authority_yet; [done|done|congruence]).
  pose proof (ui_state y I) as H1. unfold state_ok in H1. rewrite Hst in H1. destruct H1 as (-> & Hdl & Hin).
  destruct (validate_installer_identity platform (identity u0)) as [[]|e] eqn:Ev; [|by apply idle_ok; auto].
  assert (upd_inv (set_inner (with_state (SInstalling (generation (inner y)) v0) (inner y)) y)) as [I1 I2 I3 I4 I5 I6 I7].
  { apply move; try done. intros d w Hw. by destruct (ui_waiters y I d w Hw) as (? & ? & _). }
  split; try done. cbn. rewrite Ha. split; [done|]. split; [done|]. left. by repeat eexists.
Qed.

Lemma sys_check_inv c ok y : upd_inv y → upd_inv (sys_check c ok y).
Proof.
  intros I. unfold sys_check, with_lock. destruct ok; [|by destruct y].
  pose proof (begin_check_inv y I) as Hi. destruct (begin_check (inner y)) as [r s]. exact (callers _ _ _ Hi (ui_waiters _ Hi)).
Qed.

Lemma sys_check_end_inv c ok current id found y y' : upd_inv y → sys_check_end platform c ok current id found y = Some y' → upd_inv y'.
Proof.
  intros I. unfold sys_check_end. destruct (checks y !! c) as [g|]; cbn; [|done]. intros [= <-].
  pose proof (check_end_inv ok g current id found y I) as Hi. exact (callers _ _ _ Hi (ui_waiters _ Hi)).
Qed.

Lemma sys_download_end_inv d ok current vid y y' : upd_inv y → sys_download_end platform d ok current vid y = Some y' → upd_inv y'.
Proof.
  intros I. unfold sys_download_end. destruct (waiters y !! d) as [w|] eqn:Hw; cbn; [|done]. destruct (tasks y !! w_task w) as [k|] eqn:Hk; cbn; [|done].
  destruct (outcome k) as [j|] eqn:Hj; cbn; [|done]. intros [= <-].
  assert (∀ s, upd_inv (set_inner s y) → upd_inv {| inner := s; tasks := tasks y; checks := checks y; waiters := delete d (waiters y);
    closing := closing y; closed := closed y; authorities := authorities y |}) as Hdel.
  { intros s Hi. apply (callers _ (checks y) _ Hi). intros d' w' [_ H]%lookup_delete_Some. by apply (ui_waiters _ Hi d'). }
  apply Hdel. unfold with_lock. destruct ok; [|by destruct y]. eapply finish_download_inv; [done|by eapply ui_waiters|done|done].
Qed.

Lemma upd_step_inv y z : upd_inv y → step y z → upd_inv z.
Proof.
  intros I Hstep. destruct Hstep as [c ok x _|c ok cu id found x x' H|d t ok id x Hd Ht|d ok cu vid x x' H|t x x' H|t k j x x' Hk Hj H|c ok x _|c to ok x x' H|ok id x];
    [by apply sys_check_inv|by eapply sys_check_end_inv|by apply sys_download_inv|by eapply sys_download_end_inv
    |by eapply task_verifying_inv|by eapply task_end_inv|by apply sys_shutdown_inv|by eapply sys_shutdown_end_inv|by apply sys_consume_inv].
Qed.

Lemma upd_reachable_inv y : reachable y → upd_inv y.
Proof.
  unfold upd_reachable. revert y. apply (rtc_ind_r (λ y, upd_inv y) upd_new); [by split|]. intros y z _ Hs I. by eapply upd_step_inv.
Qed.

(** [C15] Only one installer is ever launched, with the verified bytes.  In every
    interleaving of checks, downloads, shutdowns and installations at most one
    install authority is handed out over the life of the service, and it holds
    an update the updater announced and the service accepted, whose installer
    is the one for this platform, with bytes a completed and verified download
    of exactly this announcement returned. *)
Theorem installs_only_verified y : reachable y →
  (length (authorities y) ≤ 1)%nat ∧
  ∀ a, a ∈ authorities y → installable (ia_context a) ∧
    ∃ ann trace, announces (ia_context a) ann ∧ runs (artifact_download ann : prog http_reply _) trace (Ok (ia_bytes a)) ∧
      verified_download ann PRODUCTION_PUBLIC_KEY trace (ia_bytes a).
Proof.
  intros I%upd_reachable_inv. pose proof (ui_authorities y I) as H. unfold authority_ok in H.
  destruct (authorities y) as [|a [|]]; [by split; [cbn; lia|intros ? ?%elem_of_nil]| |done].
  split; [cbn; lia|]. intros b ->%list_elem_of_singleton. destruct H as ((ann & trace & Ha & Hr) & Hi & _). split; [done|].
  exists ann, trace. split; [done|]. split; [done|]. by apply (download_runs _ _ _ _ Hr).
Qed.

(** ** After a shutdown *)

Lemma shut_stays y z : shutting_down (inner y) = true → upd_inv y → step y z →
  shutting_down (inner z) = true ∧ authorities z = authorities y ∧ (closed y = true → closed z = true).
Proof.
  intros Hs I. assert (∀ id, (consume_install platform id (inner y)).1 = Err install_conflict ∧ (consume_install platform id (inner y)).2 = inner y) as Hc.
  { intros id. unfold consume_install. destruct (ui_shut y I Hs) as [->|(t & ? & ? & ? & ? & ->)]; done. }
  intros Hstep. destruct Hstep as [c ok x _|c ok cu id found x x' H|d t ok id x Hd Ht|d ok cu vid x x' H|t x x' H|t k j x x' Hk Hj H|c ok x _|c to ok x x' H|ok id x].
  - unfold sys_check, with_lock, begin_check. rewrite Hs. by destruct ok.
  - unfold sys_check_end in H. destruct (checks x !! c); cbn in H; [|done]. injection H as <-. cbn. split; [|done].
    unfold check_end, with_lock, finish_announced, finish_up_to_date, fail_active. rewrite Hs.
    destruct (checked found) as [[]|], ok; cbn; try done. by case_match.
  - unfold sys_download, with_lock, begin_download. rewrite Hs. by destruct ok.
  - unfold sys_download_end in H. destruct (waiters x !! d) as [w|]; cbn in H; [|done]. destruct (tasks x !! w_task w) as [k|]; cbn in H; [|done].
    destruct (outcome k); cbn in H; [|done]. injection H as <-. cbn. unfold with_lock, finish_download. rewrite Hs. by destruct ok.
  - unfold task_verifying in H. destruct (tasks x !! t) as [k|]; cbn in H; [|done]. destruct (outcome k); simplify_eq. done.
  - unfold task_end in H. destruct (tasks x !! t) as [k'|]; cbn in H; [|done]. destruct (outcome k'); simplify_eq. done.
  - unfold sys_shutdown, with_lock, shutdown_begin. destruct ok; [|done]. cbn. by destruct (state (inner x)).
  - unfold sys_shutdown_end in H. destruct (closing x !! c); cbn in H; [|done]. destruct (tasks x !! _) as [k|]; cbn in H; [|done].
    destruct to; simplify_eq; [done|]. destruct (outcome k); [|done]. by destruct ok; simplify_eq.
  - unfold sys_consume, with_lock. destruct ok; [|done]. destruct (Hc id) as [H1 H2]. destruct (consume_install platform id (inner x)). cbn in *. by subst.
Qed.

(** A shutdown of the updater is final.  From the moment it began, in every
    later state no check, download or installation can begin and no install
    authority is handed out; and once it returned successfully, the service is
    idle, no download task runs, and both stay so. *)
Theorem update_shutdown_is_final y z : reachable y → shutting_down (inner y) = true → rtc step y z →
  (begin_check (inner z)).1 = Err update_cancelled ∧ (∀ id t, (begin_download id t (inner z)).1 = Err update_cancelled) ∧
  (∀ id, (consume_install platform id (inner z)).1 = Err install_conflict) ∧ authorities z = authorities y ∧
  (closed y = true → state (inner z) = SIdle ∧ ∀ t k, tasks z !! t = Some k → is_Some (outcome k)).
Proof.
  intros I%upd_reachable_inv Hs H.
  assert (upd_inv z ∧ shutting_down (inner z) = true ∧ authorities z = authorities y ∧ (closed y = true → closed z = true)) as (Iz & Hz & Ha & Hc).
  { clear -I Hs H. induction H as [|y x z Hyx _ IH]; [done|]. pose proof (upd_step_inv y x I Hyx) as Ix.
    destruct (shut_stays y x Hs I Hyx) as (Hx & Ha & Hc). destruct (IH Ix Hx) as (? & ? & E & ?). rewrite <-Ha. split; [done|]. split; [done|]. split; [done|]. intros ?. auto. }
  split; [unfold begin_check; by rewrite Hz|]. split; [intros id t; unfold begin_download; by rewrite Hz|].
  split; [intros id; unfold consume_install; by destruct (ui_shut z Iz Hz) as [->|(t & ? & ? & ? & ? & ->)]|].
  split; [done|]. intros [_ Hi]%Hc%(ui_closed z Iz). split; [done|].
  apply quiet_unless_downloading; [done|]. intros ? (? & ? & ? & ? & ?). congruence.
Qed.

(** ** The installation *)

Definition invokes (e : event install_reply) : bool := match ev_call e with IInvoke _ => true | _ => false end.

(** Every step before the installer succeeded. *)
Definition prepared (id : VerifiedArtifactId) (a : InstallAuthority) : list (event install_reply) :=
  [Ev IAdmit (Ok tt); Ev (IValidate id) (Ok tt); Ev IDrainOthers (Ok tt); Ev (IConsume id) (Ok a);
   Ev IShutdownApplication (Ok tt); Ev IRevokeLocalGrants (Ok tt); Ev IFinalizeLogging (Ok tt)].

Definition install_spec (id : VerifiedArtifactId) (t : list (event install_reply)) (r : Res unit) : Prop :=
  (forallb (λ e, negb (invokes e)) t = true ∧ ∃ e, r = Err e) ∨
  (∃ a x, t = prepared id a ++ [Ev (IInvoke a) x : event install_reply] ∧ r = default (Err (app_error UpdateInstall INSTALL_FAILED)) x).

(** The installer is launched last and once.  In every run of the install
    command either the installer is not launched and an error is returned, or
    the command was admitted, the artifact validated, all other commands
    drained, the authority consumed, the application shut down, the local
    grants revoked and the log closed, in this order and each successfully,
    before the installer of that authority was launched as the last call, whose
    answer is the answer of the command. *)
Theorem installer_runs_last id t r : runs (install_verified_update id : prog install_reply _) t r → install_spec id t r.
Proof.
  intros H. apply (wp_runs (install_verified_update id : prog install_reply _) [] t r (install_spec id)); [|done]. cbn.
  repeat (intros [?|e]; cbn; [|left; split; [done|by exists e]]).
  repeat match goal with x : unit |- _ => destruct x end.
  intros x. right. by eexists _, x.
Qed.

End Safe.

(** ** Samples *)
Module InstallSample.
Import UpdateSample.
Definition update : Update := {| upd_version := lit "2"; upd_target := lit "windows"; download_url := release; upd_signature := lit "version:v2" |}.

(** A check announces the update, it is downloaded, verified and consumed. *)
Definition y1 : UpdSys := sys_check 1 true upd_new.
Definition y2 : UpdSys := default y1 (sys_check_end WindowsX64 1 true (lit "1") 7 (Some (Some update)) y1).
Definition y3 : UpdSys := sys_download 1 1 true 7 y2.
Definition y4 : UpdSys := default y3 (task_end 1 (JDone (Ok installer)) y3).
Definition y5 : UpdSys := default y4 (sys_download_end WindowsX64 1 true (lit "1") 9 y4).
Definition y6 : UpdSys := sys_consume WindowsX64 true 9 y5.
(** Or the service is shut down while it downloads. *)
Definition z4 : UpdSys := sys_shutdown 1 true y3.

Lemma reach3 : upd_reachable WindowsX64 y3.
Proof.
  eapply rtc_l; [by apply (up_check _ 1 true upd_new)|]. fold y1.
  eapply rtc_l; [apply (up_check_end _ 1 true (lit "1") 7 (Some (Some update)) y1 y2); vm_compute; reflexivity|].
  apply rtc_once. by apply (up_download _ 1 1 true 7 y2).
Qed.

Lemma reach6 : upd_reachable WindowsX64 y6.
Proof.
  apply (rtc_trans upd_new y3 y6 reach3).
  eapply rtc_l; [apply (up_task_end _ 1 {| Updates.announcement := UpdateSample.announcement; verifying := false; aborted := false; outcome := None |} (JDone (Ok installer)) y3 y4)|].
  - vm_compute. reflexivity.
  - exists trace. apply downloads.
  - vm_compute. reflexivity.
  - eapply rtc_l; [apply (up_download_end _ 1 true (lit "1") 9 y4 y5); vm_compute; reflexivity|]. apply rtc_once. apply (up_consume _ true 9 y5).
Qed.

Lemma reach_shutdown : upd_reachable WindowsX64 z4.
Proof. eapply rtc_r; [apply reach3|]. by apply (up_shutdown _ 1 true y3). Qed.

Definition answer (c : install_call) : install_reply c :=
  match c with
  | IConsume _ => Ok {| ia_context := update; ia_bytes := installer |}
  | IInvoke _ => Some (Ok tt)
  | _ => Ok tt
  end.
End InstallSample.

Lemma installs_only_verified_witness : authorities InstallSample.y6 = [{| ia_context := InstallSample.update; ia_bytes := UpdateSample.installer |}] ∧
  installable WindowsX64 InstallSample.update.
Proof.
  split; [vm_compute; reflexivity|]. destruct (installs_only_verified WindowsX64 InstallSample.y6 InstallSample.reach6) as [_ H].
  apply (H {| ia_context := InstallSample.update; ia_bytes := UpdateSample.installer |}). by apply list_elem_of_here.
Defined.

Lemma update_shutdown_is_final_witness : shutting_down (inner InstallSample.z4) = true ∧
  (begin_check (inner InstallSample.z4)).1 = Err update_cancelled.
Proof.
  split; [vm_compute; reflexivity|].
  by apply (update_shutdown_is_final WindowsX64 InstallSample.z4 InstallSample.z4 InstallSample.reach_shutdown eq_refl (rtc_refl _ _)).
Defined.

Lemma installer_runs_last_witness :
  ∃ a x, (interp InstallSample.answer (install_verified_update 9)).1 = prepared 9 a ++ [Ev (IInvoke a) x : event install_reply].
Proof.
  destruct (installer_runs_last 9 _ _ (interp_runs InstallSample.answer (install_verified_update 9))) as [[H _]|(a & x & H & _)];
    [discriminate H|by exists a, x].
Defined.
