(* ===== verification/LocalAccess.v ===== *)
(** Local selections of the desktop application
    ([apps/desktop/src-tauri/src/local_access.rs]): the files and the folder the
    user chose in a dialog, kept as grants a later plan consumes once.

    [la_step] interleaves the commands that insert, consume, discard and revoke
    grants with the expiry timers and the clock.  Nothing panics while it holds
    the lock of the store, so the lock is never poisoned. *)

From S2P Require Import Prelude Str Model Ip RemotePath Editor Files Prog Calls FilePlans LocalFs.

Abbreviation LocalGrantId := N (only parsing).

Definition GRANT_LIFETIME : Z := 600.
Definition GRANT_CAP : Z := 64.
Definition FILE_CAP : Z := 32.

Inductive GrantValue := GUpload (items : list LocalItem) | GDownloadDirectory (directory : LocalDirectory).

Record GrantScope := { gs_host_id : HostId; gs_host_session_id : HostSessionId; gs_sftp_session_id : SftpSessionId }.
#[export] Instance GrantScope_eq_dec : EqDecision GrantScope.
Proof. solve_decision. Defined.

Record StoredGrant := { sg_value : GrantValue; sg_scope : GrantScope; sg_expires : Instant }.

Abbreviation Grants := (gmap LocalGrantId StoredGrant) (only parsing).

Inductive LocalGrantKind := UploadFiles | DownloadDirectory.
Record LocalSelectionItem := { ls_display_name : str; ls_size_bytes : option str }.
(** [expires_at] is the deadline as text and left out. *)
Record LocalSelectionGrant := { lg_id : LocalGrantId; lg_kind : LocalGrantKind; lg_items : list LocalSelectionItem }.

Definition grant_missing : AppError := local_access_error "The local selection grant is missing or was already used.".
Definition grant_expired : AppError := local_access_error "The local selection grant expired.".
Definition grant_other_session : AppError :=
  local_access_error "The local selection grant belongs to a different SFTP session.".
Definition grant_wrong_kind : AppError := local_access_error "The local grant has the wrong scope.".
Definition too_many_grants : AppError := local_access_error "Too many local selections are awaiting approval.".

(** ** The store *)

(** [insert] as grant [id]; [now] is the time of the sweep and [later] that of
    the insertion. *)
Definition insert (id : LocalGrantId) (now later : Instant) (kind : LocalGrantKind) (items : list LocalSelectionItem)
    (value : GrantValue) (scope : GrantScope) (m : Grants) : Res LocalSelectionGrant * Grants :=
  let m := retain (λ g, now <? sg_expires g) m in
  if GRANT_CAP <=? zsize m then (Err too_many_grants, m) else
  (Ok {| lg_id := id; lg_kind := kind; lg_items := items |},
   <[id := {| sg_value := value; sg_scope := scope; sg_expires := later + GRANT_LIFETIME |}]> m).

Definition consume (id : LocalGrantId) (scope : GrantScope) (now : Instant) (m : Grants) : Res GrantValue * Grants :=
  match m !! id with
  | None => (Err grant_missing, m)
  | Some grant =>
      let m := delete id m in
      if sg_expires grant <? now then (Err grant_expired, m) else
      if bool_decide (sg_scope grant ≠ scope) then (Err grant_other_session, m) else
      (Ok (sg_value grant), m)
  end.

Definition consume_upload (id : LocalGrantId) (scope : GrantScope) (now : Instant) (m : Grants) : Res (list LocalItem) * Grants :=
  match consume id scope now m with
  | (Ok (GUpload items), m) => (Ok items, m)
  | (Ok _, m) => (Err grant_wrong_kind, m)
  | (Err e, m) => (Err e, m)
  end.

Definition consume_download_directory (id : LocalGrantId) (scope : GrantScope) (now : Instant) (m : Grants) : Res LocalDirectory * Grants :=
  match consume id scope now m with
  | (Ok (GDownloadDirectory d), m) => (Ok d, m)
  | (Ok _, m) => (Err grant_wrong_kind, m)
  | (Err e, m) => (Err e, m)
  end.

Definition revoke_all (m : Grants) : Grants := ∅.
Definition revoke_session (host : HostId) (session : HostSessionId) (m : Grants) : Grants :=
  retain (λ g, bool_decide (gs_host_id (sg_scope g) ≠ host) || bool_decide (gs_host_session_id (sg_scope g) ≠ session)) m.
Definition revoke_host (host : HostId) (m : Grants) : Grants :=
  retain (λ g, bool_decide (gs_host_id (sg_scope g) ≠ host)) m.

Definition discard (id : LocalGrantId) (scope : GrantScope) (m : Grants) : Res unit * Grants :=
  match m !! id with
  | None => (Ok tt, m)
  | Some grant =>
      if bool_decide (sg_scope grant ≠ scope) then (Err grant_other_session, m) else (Ok tt, delete id m)
  end.

(** The timer of a grant, after it slept until [expires]. *)
Definition expire (id : LocalGrantId) (expires : Instant) (m : Grants) : Grants :=
  match m !! id with
  | Some grant => if sg_expires grant =? expires then delete id m else m
  | None => m
  end.

(** ** Choosing *)

(** The loop of [choose_upload_files] over the chosen paths. *)
Fixpoint choose_items (paths : list Path) : iop (list (LocalSelectionItem * LocalItem)) :=
  match paths with
  | [] => mret []
  | p :: rest =>
      name ← io_lift (ok_or (path_file_name p) (local_access_error "A selected filename cannot be represented losslessly."));
      _ ← io_lift (validate_child_name name);
      item ← open_local_source p name;
      chosen ← choose_items rest;
      mret (({| ls_display_name := display_name name; ls_size_bytes := Some (show_dec (lit_size item)) |}, item) :: chosen)
  end.

(** What [choose_upload_files] inserts, given what the dialog returned; [None]
    when it was cancelled. *)
Definition choose_upload_files (handles : option (list Path)) : iop (option (list LocalSelectionItem * GrantValue)) :=
  match handles with
  | None => mret None
  | Some handles =>
      if (zlen handles =? 0) || (FILE_CAP <? zlen handles) then io_fail (local_access_error "Choose between 1 and 32 regular files.") else
      chosen ← choose_items handles;
      mret (Some (map fst chosen, GUpload (map snd chosen)))
  end.

Section Display.
(** The platform's spelling of a path: [to_string_lossy] and [display]. *)
Context (to_string_lossy : Path → str).

Definition choose_download_directory (handle : option Path) : iop (option (list LocalSelectionItem * GrantValue)) :=
  match handle with
  | None => mret None
  | Some p =>
      directory ← open_local_directory to_string_lossy p;
      mret (Some ([{| ls_display_name := to_string_lossy p; ls_size_bytes := None |}], GDownloadDirectory directory))
  end.
End Display.

(** ** The commands together *)

(** A grant that was taken: its id, by which scope, when, and what it held. *)
Record Use := { use_id : LocalGrantId; use_scope : GrantScope; use_time : Instant; use_value : GrantValue }.

Record LaSys := {
  grants : Grants;
  clock : Instant;
  granted : Grants;            (** every grant ever inserted *)
  uses : list Use              (** the latest first *)
}.
Definition la_new : LaSys := {| grants := ∅; clock := 0; granted := ∅; uses := [] |}.
Definition set_grants (m : Grants) (y : LaSys) : LaSys := {| grants := m; clock := clock y; granted := granted y; uses := uses y |}.

Definition sys_insert (id : LocalGrantId) (later : Instant) (kind : LocalGrantKind) (items : list LocalSelectionItem)
    (value : GrantValue) (scope : GrantScope) (y : LaSys) : LaSys :=
  let '(r, m) := insert id (clock y) later kind items value scope (grants y) in
  {| grants := m; clock := later;
     granted := (match r with
                 | Ok _ => <[id := {| sg_value := value; sg_scope := scope; sg_expires := later + GRANT_LIFETIME |}]> (granted y)
                 | Err _ => granted y
                 end);
     uses := uses y |}.

Definition sys_use {A} (id : LocalGrantId) (scope : GrantScope) (value : A → GrantValue) (r : Res A * Grants) (y : LaSys) : LaSys :=
  {| grants := r.2; clock := clock y; granted := granted y;
     uses := (match r.1 with
              | Ok a => {| use_id := id; use_scope := scope; use_time := clock y; use_value := value a |} :: uses y
              | Err _ => uses y
              end) |}.

Inductive la_step : LaSys → LaSys → Prop :=
| la_tick t y : clock y ≤ t → la_step y {| grants := grants y; clock := t; granted := granted y; uses := uses y |}
| la_insert id later kind items value scope y : granted y !! id = None → clock y ≤ later →
    la_step y (sys_insert id later kind items value scope y)
| la_upload id scope y : la_step y (sys_use id scope GUpload (consume_upload id scope (clock y) (grants y)) y)
| la_directory id scope y : la_step y (sys_use id scope GDownloadDirectory (consume_download_directory id scope (clock y) (grants y)) y)
| la_discard id scope y : la_step y (set_grants (discard id scope (grants y)).2 y)
| la_revoke_all y : la_step y (set_grants (revoke_all (grants y)) y)
| la_revoke_session host session y : la_step y (set_grants (revoke_session host session (grants y)) y)
| la_revoke_host host y : la_step y (set_grants (revoke_host host (grants y)) y)
| la_expire id expires y : expires ≤ clock y → la_step y (set_grants (expire id expires (grants y)) y).

Definition la_reachable : LaSys → Prop := rtc la_step la_new.

(** ** Laws *)

Lemma retain_lookup {V} (f : V → bool) (m : gmap N V) i v : retain f m !! i = Some v ↔ m !! i = Some v ∧ f v = true.
Proof. apply map_lookup_filter_Some. Qed.

Lemma consume_grant_ok id scope now m v m' : consume id scope now m = (Ok v, m') →
  ∃ g, m !! id = Some g ∧ sg_value g = v ∧ sg_scope g = scope ∧ now ≤ sg_expires g ∧ m' = delete id m.
Proof.
  unfold consume. destruct (m !! id) as [g|]; [|done]. case_match; [done|]. case_match; [done|]. intros [= <- <-]. split_bools.
  exists g. split; [done|]. split; [done|]. split; [by apply dec_stable|]. split; [lia|done].
Qed.

Lemma consume_only_removes id scope now m : (consume id scope now m).2 ⊆ m.
Proof. unfold consume. destruct (m !! id) as [g|]; [|done]. repeat case_match; apply delete_subseteq. Qed.

Lemma consume_upload_spec id scope now m r m' : consume_upload id scope now m = (r, m') →
  m' ⊆ m ∧ ∀ items, r = Ok items → consume id scope now m = (Ok (GUpload items), m').
Proof.
  intros H. pose proof (consume_only_removes id scope now m) as Hs. unfold consume_upload in H.
  destruct (consume id scope now m) as [[[items|d]|e] m1]; injection H as <- <-; (split; [done|]); intros ? [= <-]; done.
Qed.

Lemma consume_directory_spec id scope now m r m' : consume_download_directory id scope now m = (r, m') →
  m' ⊆ m ∧ ∀ d, r = Ok d → consume id scope now m = (Ok (GDownloadDirectory d), m').
Proof.
  intros H. pose proof (consume_only_removes id scope now m) as Hs. unfold consume_download_directory in H.
  destruct (consume id scope now m) as [[[items|d]|e] m1]; injection H as <- <-; (split; [done|]); intros ? [= <-]; done.
Qed.

Lemma retain_subseteq {V} (f : V → bool) (m : gmap N V) : retain f m ⊆ m.
Proof. apply map_filter_subseteq. Qed.

Lemma discard_only_removes id scope m : (discard id scope m).2 ⊆ m.
Proof. unfold discard. destruct (m !! id); [|done]. case_match; [done|apply delete_subseteq]. Qed.

Lemma expire_only_removes id expires m : expire id expires m ⊆ m.
Proof. unfold expire. destruct (m !! id); [|done]. case_match; [apply delete_subseteq|done]. Qed.

(** Every step removes grants, uses one, or inserts one. *)
Inductive la_effect (y z : LaSys) : Prop :=
| le_remove : grants z ⊆ grants y → granted z = granted y → uses z = uses y → la_effect y z
| le_use id g : grants y !! id = Some g → grants z = delete id (grants y) → granted z = granted y → clock y ≤ sg_expires g →
    uses z = {| use_id := id; use_scope := sg_scope g; use_time := clock y; use_value := sg_value g |} :: uses y → la_effect y z
| le_insert id g : granted y !! id = None → grants z = <[id := g]> (retain (λ g, clock y <? sg_expires g) (grants y)) →
    zsize (retain (λ g, clock y <? sg_expires g) (grants y)) < GRANT_CAP → granted z = <[id := g]> (granted y) → uses z = uses y → la_effect y z.

Lemma la_step_effect y z : la_step y z → la_effect y z.
Proof.
  intros H. destruct H as [t y Ht|id later kind items value scope y Hid Hl|id scope y|id scope y|id scope y|y|h s y|h y|id e y He].
  - by apply le_remove.
  - unfold sys_insert, insert. destruct (Z.leb_spec GRANT_CAP (zsize (retain (λ g, clock y <? sg_expires g) (grants y)))).
    + apply le_remove; cbn; [apply retain_subseteq|done|done].
    + eapply le_insert; cbn; done || lia.
  - destruct (consume_upload id scope (clock y) (grants y)) as [r m] eqn:E. destruct (consume_upload_spec _ _ _ _ _ _ E) as [Hm Ho].
    destruct r as [items|e]; [|by apply le_remove]. destruct (consume_grant_ok _ _ _ _ _ _ (Ho items eq_refl)) as (g & Hg & Hv & <- & Hx & ->).
    eapply le_use; cbn; try done. by rewrite Hv.
  - destruct (consume_download_directory id scope (clock y) (grants y)) as [r m] eqn:E. destruct (consume_directory_spec _ _ _ _ _ _ E) as [Hm Ho].
    destruct r as [d|e]; [|by apply le_remove]. destruct (consume_grant_ok _ _ _ _ _ _ (Ho d eq_refl)) as (g & Hg & Hv & <- & Hx & ->).
    eapply le_use; cbn; try done. by rewrite Hv.
  - apply le_remove; cbn; [apply discard_only_removes|done|done].
  - apply le_remove; cbn; [apply map_empty_subseteq|done|done].
  - apply le_remove; cbn; [apply retain_subseteq|done|done].
  - apply le_remove; cbn; [apply retain_subseteq|done|done].
  - apply le_remove; cbn; [apply expire_only_removes|done|done].
Qed.

(** What a use took was granted to its scope and had not expired. *)
Definition proper_use (m : Grants) (u : Use) : Prop :=
  ∃ g, m !! use_id u = Some g ∧ sg_value g = use_value u ∧ sg_scope g = use_scope u ∧ use_time u ≤ sg_expires g.

Record la_inv (y : LaSys) : Prop := {
  ln_granted : grants y ⊆ granted y;
  ln_size : zsize (grants y) ≤ GRANT_CAP;
  ln_once : NoDup (map use_id (uses y));
  ln_gone : ∀ u, u ∈ uses y → grants y !! use_id u = None;
  ln_uses : ∀ u, u ∈ uses y → proper_use (granted y) u
}.

Lemma subseteq_zsize (a b : Grants) : a ⊆ b → zsize a ≤ zsize b.
Proof. intros H%subseteq_dom%subseteq_size. rewrite !size_dom in H. lia. Qed.

Lemma la_effect_inv y z : la_inv y → la_effect y z → la_inv z.
Proof.
  intros [I1 I2 I3 I4 I5] [H1 H2 H3|id g H1 H2 H3 H4 H5|id g H1 H2 H3 H4 H5].
  - split; rewrite ?H2, ?H3; try done.
    + by etrans.
    + apply subseteq_zsize in H1. lia.
    + intros u Hu. eapply lookup_weaken_None; [by apply I4|done].
  - split; rewrite ?H2, ?H3, ?H5.
    + etrans; [apply delete_subseteq|done].
    + pose proof (subseteq_zsize _ _ (delete_subseteq (grants y) id)). lia.
    + cbn. constructor; [|done]. intros (u & Hu & Hin)%list_elem_of_fmap. apply I4 in Hin. rewrite <-Hu in Hin. congruence.
    + intros u [->|Hu]%elem_of_cons; cbn; [apply lookup_delete_eq|]. apply lookup_delete_None. right. by apply I4.
    + intros u [->|Hu]%elem_of_cons; [|by apply I5]. exists g. cbn. by rewrite (lookup_weaken _ _ _ _ H1 I1).
  - assert (∀ u, u ∈ uses y → use_id u ≠ id) as Hne.
    { intros u (g' & Hg & _)%I5 <-. congruence. }
    split; rewrite ?H2, ?H4, ?H5; try done.
    + apply insert_mono. by etrans; [apply retain_subseteq|].
    + rewrite map_size_insert. case_match; cbn; lia.
    + intros u Hu. rewrite lookup_insert_ne by (apply not_eq_sym; by apply Hne). eapply lookup_weaken_None; [by apply I4|apply retain_subseteq].
    + intros u Hu. destruct (I5 u Hu) as (g' & Hg & ?). exists g'. by rewrite lookup_insert_ne by (apply not_eq_sym; by apply Hne).
Qed.

Lemma la_reachable_inv y : la_reachable y → la_inv y.
Proof.
  unfold la_reachable. revert y. apply (rtc_ind_r (λ y, la_inv y) la_new).
  - split; cbn; try done; [constructor|..]; intros u ?%elem_of_nil; done.
  - intros y z _ H%la_step_effect I. by eapply la_effect_inv.
Qed.

(** [C24] A local selection is used at most once, only for what it was made for.
    However commands and timers interleave: no grant is taken twice, everything
    taken was granted to exactly the scope that takes it, with these files or
    this folder, and had not expired; and at most 64 selections wait. *)
Theorem selection_used_once y : la_reachable y →
  NoDup (map use_id (uses y)) ∧ (∀ u, u ∈ uses y → proper_use (granted y) u) ∧ zsize (grants y) ≤ GRANT_CAP.
Proof. by intros [_ ? ? _ ?]%la_reachable_inv. Qed.

(** ** Revocation *)

Lemma gone_stays y z id : la_inv y → is_Some (granted y !! id) → grants y !! id = None → rtc la_step y z →
  grants z !! id = None ∧ ∀ u, u ∈ uses z → use_id u = id → u ∈ uses y.
Proof.
  intros I Hg Hn H. revert I Hg Hn. induction H as [|y x z Hyx _ IH]; intros I Hg Hn; [done|]. apply la_step_effect in Hyx.
  pose proof (la_effect_inv y x I Hyx) as Ix.
  assert (grants x !! id = None ∧ is_Some (granted x !! id) ∧ ∀ u, u ∈ uses x → use_id u = id → u ∈ uses y) as (H1 & H2 & H3).
  { destruct Hyx as [E1 E2 E3|id' g E1 E2 E3 E4 E5|id' g E1 E2 E3 E4 E5].
    - rewrite E2, E3. split; [by eapply lookup_weaken_None|done].
    - rewrite E2, E3, E5. split; [by apply lookup_delete_None; right|]. split; [done|]. intros u [->|Hu]%elem_of_cons; cbn; [congruence|done].
    - assert (id' ≠ id) by (intros ->; rewrite E1 in Hg; by destruct Hg). rewrite E2, E4, E5, !lookup_insert_ne by done.
      split; [eapply lookup_weaken_None; [done|apply retain_subseteq]|done]. }
  destruct (IH Ix H2 H1) as [? Hu]. split; [done|]. eauto.
Qed.

(** The revocations, and the grants each is about. *)
Inductive Revocation := RevokeAll | RevokeHost (h : HostId) | RevokeSession (h : HostId) (s : HostSessionId) | Discard (id : LocalGrantId) (scope : GrantScope).
Definition revoke (r : Revocation) (m : Grants) : Grants :=
  match r with
  | RevokeAll => revoke_all m
  | RevokeHost h => revoke_host h m
  | RevokeSession h s => revoke_session h s m
  | Discard id scope => (discard id scope m).2
  end.
Definition concerns (r : Revocation) (id : LocalGrantId) (scope : GrantScope) : Prop :=
  match r with
  | RevokeAll => True
  | RevokeHost h => gs_host_id scope = h
  | RevokeSession h s => gs_host_id scope = h ∧ gs_host_session_id scope = s
  | Discard i sc => id = i ∧ scope = sc
  end.

Lemma revoke_removes r id g m : m !! id = Some g → concerns r id (sg_scope g) → revoke r m !! id = None.
Proof.
  intros Hm. destruct r as [|h|h s|i sc]; cbn.
  - intros _. apply lookup_empty.
  - intros <-. apply map_lookup_filter_None. right. intros g' Hg'. rewrite Hm in Hg'. simplify_eq. cbn. by rewrite bool_decide_eq_false_2 by auto.
  - intros [<- <-]. apply map_lookup_filter_None. right. intros g' Hg'. rewrite Hm in Hg'. simplify_eq. cbn.
    by rewrite !bool_decide_eq_false_2 by auto.
  - intros [-> <-]. unfold discard. rewrite Hm. rewrite bool_decide_eq_false_2 by auto. apply lookup_delete_eq.
Qed.

Lemma revoke_subseteq r m : revoke r m ⊆ m.
Proof. destruct r; cbn; [apply map_empty_subseteq|apply retain_subseteq|apply retain_subseteq|apply discard_only_removes]. Qed.

(** A revoked selection is dead.  After revoking everything, a host or a
    session, or discarding a selection, no grant concerned by it that was
    not used before is used in any later state. *)
Theorem revoked_selection_is_dead r y z id g : la_reachable y → granted y !! id = Some g → concerns r id (sg_scope g) →
  rtc la_step (set_grants (revoke r (grants y)) y) z →
  grants z !! id = None ∧ ∀ u, u ∈ uses z → use_id u = id → u ∈ uses y.
Proof.
  intros I%la_reachable_inv Hg Hc H.
  assert (la_inv (set_grants (revoke r (grants y)) y)) as I'.
  { eapply la_effect_inv; [done|]. apply la_step_effect. destruct r; constructor. }
  apply (gone_stays (set_grants (revoke r (grants y)) y) z id); [done|by cbn; rewrite Hg| |done]. cbn.
  destruct (grants y !! id) as [g'|] eqn:E; [|eapply lookup_weaken_None; [done|apply revoke_subseteq]].
  rewrite (lookup_weaken _ _ _ _ E (ln_granted y I)) in Hg. simplify_eq. by eapply revoke_removes.
Qed.

(** ** Samples *)
Module SelectionSample.
Definition scope : GrantScope := {| gs_host_id := 1; gs_host_session_id := 2; gs_sftp_session_id := 3 |}.
(** Two selections are made, and one is used. *)
Definition y1 : LaSys := sys_insert 5 10 UploadFiles [] (GUpload []) scope la_new.
Definition y2 : LaSys := sys_insert 6 20 UploadFiles [] (GUpload []) scope y1.
Definition y3 : LaSys := sys_use 5 scope GUpload (consume_upload 5 scope (clock y2) (grants y2)) y2.
Lemma selection_reach3 : la_reachable y3.
Proof.
  eapply rtc_l; [by apply (la_insert 5 10 UploadFiles [] (GUpload []) scope la_new)|].
  eapply rtc_l; [by apply (la_insert 6 20 UploadFiles [] (GUpload []) scope y1)|]. apply rtc_once. apply (la_upload 5 scope y2).
Qed.
End SelectionSample.

Lemma selection_used_once_witness : map use_id (uses SelectionSample.y3) = [5%N] ∧ NoDup (map use_id (uses SelectionSample.y3)).
Proof. split; [vm_compute; reflexivity|]. by apply (selection_used_once _ SelectionSample.selection_reach3). Defined.

Lemma revoked_selection_is_dead_witness : is_Some (grants SelectionSample.y3 !! 6%N) ∧
  grants (set_grants (revoke (RevokeHost 1) (grants SelectionSample.y3)) SelectionSample.y3) !! 6%N = None.
Proof.
  split; [vm_compute; eauto|].
  by apply (revoked_selection_is_dead (RevokeHost 1) SelectionSample.y3 _ 6
    {| sg_value := GUpload []; sg_scope := SelectionSample.scope; sg_expires := 620 |} SelectionSample.selection_reach3 eq_refl eq_refl (rtc_refl _ _)).
Defined.
