(* ===== verification/AppFiles.v ===== *)
(** The application's requests for files
    ([nexus-core/src/application/files.rs]).

    A request is a program over [fcall]: each access to shared state (a session
    slot, the table of SFTP clients, the gate of the host, the plan store, the
    transfer manager, the audit log) and each await is one call.  [file_step]
    interleaves any number of requests; only the gates and the ending of host
    sessions restrict what the calls may answer. *)

From S2P Require Import Prelude Str Model Ip RemotePath Editor Files Prog Calls FilePlans LocalFs TransferRun Transfer Sessions Services.

(** ** What the requests talk to *)

Inductive fcall :=
| FRepository (h : HostId)                                      (** [repository.get(host_id)] *)
| FGate (h : HostId)                                            (** [sftp_lifecycle_gate(host_id).await.lock().await] *)
| FUngate (h : HostId)                                          (** the end of its guard's scope *)
| FSlot (h : HostId)                                            (** [self.slot(host_id)] *)
| FRead (h : HostId) (s : SlotId)                               (** [slot.data.lock().await], read and dropped *)
| FTableGet (h : HostId)                                        (** [sftp_sessions.lock().await.get(&host_id).cloned()] *)
| FTableInsert (h : HostId) (c : Client)
| FTableTake (h : HostId) (hs : HostSessionId)                  (** the block of [close_sftp] that removes the client *)
| FOpenSftp (tr : TransportId) (h : HostId) (hs : HostSessionId)
| FClose (c : Client)
| FList (c : Client) (path : str)
| FClient (c : Client) (x : call)                               (** a method of the client *)
| FValidateDirectory (d : LocalDirectory)
| FRegister (c : Client) (path : str) (revision : EditorRevision) (bytes : list Z) (newline : TextNewline) (bom : bool)
| FPlanSave (c : Client) (document : EditorDocumentId) (text : str)
| FDiscardDocument (document : EditorDocumentId) (h : HostId) (hs : HostSessionId) (sf : SftpSessionId)
| FPlanUpload (c : Client) (sources : list LocalItem) (directory : str) (policy : ConflictPolicy)
| FPlanDownload (c : Client) (paths : list str) (directory : LocalDirectory) (policy : ConflictPolicy)
| FPlanMutation (c : Client) (spec : MutationSpec)
| FConsume (id : FilePlanId) (h : HostId) (hs : HostSessionId) (sf : SftpSessionId)
| FDiscardPlan (id : FilePlanId) (h : HostId) (hs : HostSessionId) (sf : SftpSessionId)
| FRevoke (h : HostId) (hs : HostSessionId)
| FExecute (plan : InternalPlan)
| FListTransfers (h : option HostId)
| FCancel (job : TransferJobId) (h : HostId) (hs : HostSessionId) (sf : SftpSessionId)
| FRetry (job : TransferJobId) (h : HostId) (hs : HostSessionId) (sf : SftpSessionId)
| FQuiesce (h : HostId) (hs : HostSessionId)
| FAudit (h : HostId) (kind : string) (risk : OperationRisk) (outcome : AuditOutcome).

Definition freply (c : fcall) : Type :=
  match c with
  | FRepository _ => Res unit
  | FGate _ | FUngate _ | FClose _ | FRevoke _ _ => unit
  | FSlot _ => SlotId
  | FRead _ _ => SessionData
  | FTableGet _ | FTableInsert _ _ | FTableTake _ _ => option Client
  | FOpenSftp _ _ _ => Res Client
  | FList _ _ => Res DirectoryListing
  | FClient _ x => reply x
  | FValidateDirectory _ => Res unit
  | FRegister _ _ _ _ _ _ => Res EditorDocumentId
  | FPlanSave _ _ _ | FPlanUpload _ _ _ _ | FPlanDownload _ _ _ _ | FPlanMutation _ _ => Res FileOperationPlan
  | FDiscardDocument _ _ _ _ => Res unit
  | FConsume _ _ _ _ => Res InternalPlan
  | FDiscardPlan _ _ _ _ => Res bool
  | FExecute _ => Res (list TransferJob)
  | FListTransfers _ => list TransferJob
  | FCancel _ _ _ _ => Res unit
  | FRetry _ _ _ _ => Res FileOperationPlan
  | FQuiesce _ _ => Res unit
  | FAudit _ _ _ _ => Res unit
  end.

Abbreviation fio A := (io freply AppError A) (only parsing).
Abbreviation fprog A := (prog freply A) (only parsing).
Definition fask (c : fcall) : fprog (freply c) := Do c (λ r, Ret r).

(** [let _guard = gate.lock().await; body] *)
Definition gated {A} (h : HostId) (body : fio A) : fio A :=
  let! _ := fask (FGate h) in
  let! x := (body : fprog _) in
  let! _ := fask (FUngate h) in
  Ret x.

(** ** The client of a session *)

Definition file_of_old_connection : AppError :=
  app_error Connection "This file operation belongs to an old SSH connection.".
Definition open_files_again : AppError := app_error SftpUnavailable "Open the Files workspace again to start SFTP.".
Definition file_of_old_session : AppError := app_error Policy "This file operation belongs to an old SFTP session.".

(** The session [hs] is the active one of the slot. *)
Definition shows (hs : HostSessionId) (d : SessionData) : bool :=
  bool_decide (Sessions.state d = Connected) && bool_decide (connection_id d = Some hs).

Definition owned_sftp (h : HostId) (hs : HostSessionId) (sf : SftpSessionId) : fio Client :=
  let! s := fask (FSlot h) in
  let! d := fask (FRead h s) in
  _ ← io_ensure (negb (shows hs d)) file_of_old_connection;
  client ← (let! c := fask (FTableGet h) in Ret (ok_or c open_files_again));
  _ ← io_ensure (bool_decide (info_id client ≠ sf) || bool_decide (info_host_session_id client ≠ hs)) file_of_old_session;
  mret client.

Definition validate_sftp_session (h : HostId) (hs : HostSessionId) (sf : SftpSessionId) : fio unit :=
  _ ← owned_sftp h hs sf; mret tt.

(** The part of [open_sftp] that starts a client for the session it saw. *)
Definition start_sftp (h : HostId) (s : SlotId) (d : SessionData) (tr : TransportId) (hs : HostSessionId) : fio SftpSessionInfo :=
  client ← (fask (FOpenSftp tr h hs) : fio Client);
  let! d' := fask (FRead h s) in
  if bool_decide (generation d' ≠ generation d) || negb (shows hs d') then
    let! _ := fask (FClose client) in io_fail connection_cancelled
  else
    let! old := fask (FTableInsert h client) in
    match old : option Client with
    | Some o => let! _ := fask (FClose o) in mret client
    | None => mret client
    end.

Definition open_sftp (h : HostId) : fio SftpSessionInfo :=
  _ ← (fask (FRepository h) : fio unit);
  gated h (
    let! s := fask (FSlot h) in
    let! d := fask (FRead h s) in
    _ ← io_ensure (bool_decide (Sessions.state d ≠ Connected))
          (app_error SftpUnavailable "Connect this host before opening Files.");
    tr ← io_lift (ok_or (transport d) (app_error Connection "The SSH session is unavailable."));
    hs ← io_lift (ok_or (connection_id d) (app_error Connection "The SSH session identity is unavailable."));
    let! existing := fask (FTableGet h) in
    match existing : option Client with
    | Some c => if bool_decide (info_host_session_id c = hs) then mret c else start_sftp h s d tr hs
    | None => start_sftp h s d tr hs
    end).

Definition close_sftp (h : HostId) (hs : HostSessionId) : fio unit :=
  gated h (
    let! _ := fask (FRevoke h hs) in
    _ ← (fask (FQuiesce h hs) : fio unit);
    let! session := fask (FTableTake h hs) in
    match session : option Client with
    | Some c => let! _ := fask (FClose c) in mret tt
    | None => mret tt
    end).

(** ** Reading *)

Definition list_remote_directory (h : HostId) (hs : HostSessionId) (sf : SftpSessionId) (path : str) : fio DirectoryListing :=
  client ← owned_sftp h hs sf; fask (FList client path).

Definition remote_properties (h : HostId) (hs : HostSessionId) (sf : SftpSessionId) (path : str) : fio RemoteEntry :=
  client ← owned_sftp h hs sf; fask (FClient client (CStat path)).

Record RemoteTextDocument := {
  rt_id : EditorDocumentId;
  rt_host_id : HostId;
  rt_host_session_id : HostSessionId;
  rt_sftp_session_id : SftpSessionId;
  rt_path : str;
  rt_text : str;
  rt_original_bytes : Z;
  rt_newline : TextNewline;
  rt_bom : bool;
  rt_max_bytes : Z
}.

(** [x as u32] *)
Definition as_u32 (x : Z) : Z := Z.land x u32_max.

Definition open_remote_text_file (h : HostId) (hs : HostSessionId) (sf : SftpSessionId) (path : str) : fio RemoteTextDocument :=
  gated h (
    client ← owned_sftp h hs sf;
    before ← (fask (FClient client (CEditorRevision path)) : fio EditorRevision);
    bytes ← (fask (FClient client (CReadEditorBytes path)) : fio (list Z));
    after ← (fask (FClient client (CEditorRevision path)) : fio EditorRevision);
    _ ← io_ensure (bool_decide (before ≠ after) || bool_decide (ei_size (er_identity before) ≠ Some (zlen bytes)))
          (app_error Conflict "The remote text file changed while opening.");
    '(text, newline, bom) ← io_lift (decode_text bytes);
    id ← (fask (FRegister client path before bytes newline bom) : fio EditorDocumentId);
    mret {| rt_id := id; rt_host_id := h; rt_host_session_id := hs; rt_sftp_session_id := sf; rt_path := path; rt_text := text;
            rt_original_bytes := as_u32 (zlen bytes); rt_newline := newline; rt_bom := bom;
            rt_max_bytes := as_u32 MAX_REMOTE_EDITOR_BYTES |}).

(** ** Planning *)

Definition plan_remote_text_save (h : HostId) (hs : HostSessionId) (sf : SftpSessionId) (document : EditorDocumentId) (text : str) : fio FileOperationPlan :=
  gated h (client ← owned_sftp h hs sf; fask (FPlanSave client document text)).

Definition discard_remote_text_document (h : HostId) (hs : HostSessionId) (sf : SftpSessionId) (document : EditorDocumentId) : fio unit :=
  fask (FDiscardDocument document h hs sf).

Definition plan_upload (h : HostId) (hs : HostSessionId) (sf : SftpSessionId) (sources : list LocalItem) (directory : str) (policy : ConflictPolicy)
    : fio FileOperationPlan :=
  gated h (client ← owned_sftp h hs sf; fask (FPlanUpload client sources directory policy)).

Definition plan_download (h : HostId) (hs : HostSessionId) (sf : SftpSessionId) (paths : list str) (directory : LocalDirectory) (policy : ConflictPolicy)
    : fio FileOperationPlan :=
  gated h (
    client ← owned_sftp h hs sf;
    _ ← (fask (FValidateDirectory directory) : fio unit);
    fask (FPlanDownload client paths directory policy)).

Definition destination_exists : AppError := app_error Conflict "The remote destination already exists.".

Definition plan_create_directory (h : HostId) (hs : HostSessionId) (sf : SftpSessionId) (parent name : str) : fio FileOperationPlan :=
  _ ← io_lift (validate_child_name name);
  path ← io_lift (join_remote parent name);
  gated h (
    client ← owned_sftp h hs sf;
    found ← (fask (FClient client (CIdentity path)) : fio (option EntryIdentity));
    _ ← io_ensure (bool_decide (is_Some found)) destination_exists;
    fask (FPlanMutation client (MCreateDirectory path))).

Definition rename_unavailable : AppError :=
  app_error SftpUnavailable "Safe no-clobber rename is available only for regular files when hardlink@openssh.com v1 is negotiated.".

Definition plan_rename (h : HostId) (hs : HostSessionId) (sf : SftpSessionId) (source new_name : str) : fio FileOperationPlan :=
  _ ← io_lift (validate_child_name new_name);
  parent ← io_lift (parent_remote source);
  destination ← io_lift (join_remote parent new_name);
  gated h (
    client ← owned_sftp h hs sf;
    found ← (fask (FClient client (CIdentity source)) : fio (option EntryIdentity));
    identity ← io_lift (ok_or found (app_error NotFound "The remote source no longer exists."));
    _ ← io_ensure (bool_decide (ei_kind identity ≠ KFile) || negb (supports client (lit "hardlink@openssh.com") (lit "1")))
          rename_unavailable;
    taken ← (fask (FClient client (CIdentity destination)) : fio (option EntryIdentity));
    _ ← io_ensure (bool_decide (is_Some taken)) destination_exists;
    fask (FPlanMutation client (MRename source destination identity))).

Definition special_entry : AppError := app_error FilePolicy "Special or unknown entries cannot be deleted.".

Definition plan_delete (h : HostId) (hs : HostSessionId) (sf : SftpSessionId) (path : str) : fio FileOperationPlan :=
  gated h (
    client ← owned_sftp h hs sf;
    entry ← (fask (FClient client (CStat path)) : fio RemoteEntry);
    _ ← io_ensure (match re_kind entry with KOther | KUnknown => true | _ => false end) special_entry;
    found ← (fask (FClient client (CIdentity path)) : fio (option EntryIdentity));
    expected ← io_lift (ok_or found (app_error NotFound "The remote entry no longer exists."));
    fask (FPlanMutation client (MDelete path (re_kind entry) expected))).

(** ** Executing *)

(** [record]: the reviewed risk of an audit kind. *)
Definition kind_risk (kind : string) : option OperationRisk :=
  if existsb (String.eqb kind) ["connection.connect"; "connection.disconnect"; "discovery.refresh"] then Some ReadOnly else
  if existsb (String.eqb kind) ["identity.trust"; "identity.rotate"] then Some High else
  if existsb (String.eqb kind) ["host.save"; "host.delete"; "file.create_directory"] then Some Low else
  if existsb (String.eqb kind) ["file.rename"; "file.transfer.accepted"; "file.editor_save.accepted"] then Some Moderate else
  if String.eqb kind "file.delete" then Some Destructive else None.

Definition record (h : HostId) (kind : string) (outcome : AuditOutcome) : fio unit :=
  match kind_risk kind with
  | None => io_fail (app_error Policy "The audit operation kind has no reviewed risk classification.")
  | Some risk => fask (FAudit h kind risk outcome)
  end.

Definition file_audit_kind (k : FileOperationKind) : string :=
  match k with
  | OpEditText => "file.editor_save.accepted"
  | OpCreateDirectory => "file.create_directory"
  | OpRename => "file.rename"
  | OpDelete => "file.delete"
  | OpUpload | OpDownload => "file.transfer.accepted"
  end.

Definition execute_file_plan (h : HostId) (hs : HostSessionId) (sf : SftpSessionId) (id : FilePlanId) : fio (list TransferJob) :=
  gated h (
    _ ← owned_sftp h hs sf;
    plan ← (fask (FConsume id h hs sf) : fio InternalPlan);
    let! result := fask (FExecute plan) in
    _ ← record h (file_audit_kind (fp_kind (Files.view plan))) (if is_ok (result : Res (list TransferJob)) then AuditSuccess else AuditFailed);
    Ret result).

Definition discard_file_plan (h : HostId) (hs : HostSessionId) (sf : SftpSessionId) (id : FilePlanId) : fio bool :=
  fask (FDiscardPlan id h hs sf).

Definition list_transfers (h : option HostId) : fprog (list TransferJob) := fask (FListTransfers h).

Definition cancel_transfer (h : HostId) (hs : HostSessionId) (sf : SftpSessionId) (job : TransferJobId) : fio unit :=
  _ ← owned_sftp h hs sf; fask (FCancel job h hs sf).

Definition plan_retry_transfer (h : HostId) (hs : HostSessionId) (sf : SftpSessionId) (job : TransferJobId) : fio FileOperationPlan :=
  _ ← owned_sftp h hs sf; fask (FRetry job h hs sf).

(** ** All requests together *)

Inductive FileRequest :=
| QOpen (h : HostId)
| QClose (h : HostId) (hs : HostSessionId)
| QValidate (h : HostId) (hs : HostSessionId) (sf : SftpSessionId)
| QList (h : HostId) (hs : HostSessionId) (sf : SftpSessionId) (path : str)
| QProperties (h : HostId) (hs : HostSessionId) (sf : SftpSessionId) (path : str)
| QOpenText (h : HostId) (hs : HostSessionId) (sf : SftpSessionId) (path : str)
| QPlanSave (h : HostId) (hs : HostSessionId) (sf : SftpSessionId) (document : EditorDocumentId) (text : str)
| QDiscardText (h : HostId) (hs : HostSessionId) (sf : SftpSessionId) (document : EditorDocumentId)
| QPlanUpload (h : HostId) (hs : HostSessionId) (sf : SftpSessionId) (sources : list LocalItem) (directory : str) (policy : ConflictPolicy)
| QPlanDownload (h : HostId) (hs : HostSessionId) (sf : SftpSessionId) (paths : list str) (directory : LocalDirectory) (policy : ConflictPolicy)
| QCreateDirectory (h : HostId) (hs : HostSessionId) (sf : SftpSessionId) (parent name : str)
| QRename (h : HostId) (hs : HostSessionId) (sf : SftpSessionId) (source new_name : str)
| QDelete (h : HostId) (hs : HostSessionId) (sf : SftpSessionId) (path : str)
| QExecute (h : HostId) (hs : HostSessionId) (sf : SftpSessionId) (id : FilePlanId)
| QDiscard (h : HostId) (hs : HostSessionId) (sf : SftpSessionId) (id : FilePlanId)
| QTransfers (h : option HostId)
| QCancel (h : HostId) (hs : HostSessionId) (sf : SftpSessionId) (job : TransferJobId)
| QRetry (h : HostId) (hs : HostSessionId) (sf : SftpSessionId) (job : TransferJobId).

(** The program of a request, its answer dropped. *)
Definition quiet_prog {A} (p : fprog A) : fprog unit := pbind p (λ _, Ret tt).
Definition request_prog (q : FileRequest) : fprog unit :=
  match q with
  | QOpen h => quiet_prog (open_sftp h)
  | QClose h hs => quiet_prog (close_sftp h hs)
  | QValidate h hs sf => quiet_prog (validate_sftp_session h hs sf)
  | QList h hs sf p => quiet_prog (list_remote_directory h hs sf p)
  | QProperties h hs sf p => quiet_prog (remote_properties h hs sf p)
  | QOpenText h hs sf p => quiet_prog (open_remote_text_file h hs sf p)
  | QPlanSave h hs sf d t => quiet_prog (plan_remote_text_save h hs sf d t)
  | QDiscardText h hs sf d => quiet_prog (discard_remote_text_document h hs sf d)
  | QPlanUpload h hs sf s d p => quiet_prog (plan_upload h hs sf s d p)
  | QPlanDownload h hs sf s d p => quiet_prog (plan_download h hs sf s d p)
  | QCreateDirectory h hs sf p n => quiet_prog (plan_create_directory h hs sf p n)
  | QRename h hs sf s n => quiet_prog (plan_rename h hs sf s n)
  | QDelete h hs sf p => quiet_prog (plan_delete h hs sf p)
  | QExecute h hs sf id => quiet_prog (execute_file_plan h hs sf id)
  | QDiscard h hs sf id => quiet_prog (discard_file_plan h hs sf id)
  | QTransfers h => quiet_prog (list_transfers h)
  | QCancel h hs sf j => quiet_prog (cancel_transfer h hs sf j)
  | QRetry h hs sf j => quiet_prog (plan_retry_transfer h hs sf j)
  end.

Section System.
(** The host each session identity was made for. *)
Context (host_of : HostSessionId → HostId).

(** [owner] holds the gates, [over] the sessions that ended, [table] the open
    clients ([sftp_sessions]). *)
Record FileSys := {
  threads : gmap N (fprog unit);
  owner : gmap HostId N;
  over : gset HostSessionId;
  table : gmap HostId Client;
  log : list (N * event freply)
}.
Definition file_new : FileSys := {| threads := ∅; owner := ∅; over := ∅; table := ∅; log := [] |}.

(** What a call may be answered: a gate is given when it is free; an active
    session is one of this host that has not ended; a client is opened for the
    session it was asked for; the table answers with what it holds. *)
Definition held_client (h : HostId) (hs : HostSessionId) (y : FileSys) : option Client :=
  match table y !! h with
  | Some c => if bool_decide (info_host_session_id c = hs) then Some c else None
  | None => None
  end.

Definition may_answer (y : FileSys) (c : fcall) (r : freply c) : Prop :=
  match c return freply c → Prop with
  | FGate h => λ _, owner y !! h = None
  | FRead h _ => λ d, ∀ hs, shows hs d = true → host_of hs = h ∧ hs ∉ over y
  | FOpenSftp _ h hs => λ r, ∀ client, r = Ok client → info_host_id client = h ∧ info_host_session_id client = hs
  | FTableGet h | FTableInsert h _ => λ r, r = table y !! h
  | FTableTake h hs => λ r, r = held_client h hs y
  | _ => λ _, True
  end r.

Definition after_table (c : fcall) (y : FileSys) : gmap HostId Client :=
  match c with
  | FTableInsert h c => <[h := c]> (table y)
  | FTableTake h hs => if held_client h hs y then delete h (table y) else table y
  | _ => table y
  end.

Definition after_call (t : N) (c : fcall) (y : FileSys) : gmap HostId N :=
  match c with
  | FGate h => <[h := t]> (owner y)
  | FUngate h => delete h (owner y)
  | _ => owner y
  end.

Inductive file_step : FileSys → FileSys → Prop :=
| fs_start t q y : threads y !! t = None →
    file_step y {| threads := <[t := request_prog q]> (threads y); owner := owner y; over := over y; table := table y; log := log y |}
| fs_call t c k r y : threads y !! t = Some (Do c k) → may_answer y c r →
    file_step y {| threads := <[t := k r]> (threads y); owner := after_call t c y; over := over y; table := after_table c y; log := (t, Ev c r) :: log y |}
| fs_over hs y : file_step y {| threads := threads y; owner := owner y; over := {[hs]} ∪ over y; table := table y; log := log y |}.

Definition file_reachable : FileSys → Prop := rtc file_step file_new.
End System.
