(* ===== verification/AppFilesSafe.v ===== *)
(** The application's file requests: nothing of a session is opened, planned or
    executed after its end was dealt with, no client is leaked, what was
    opened is what was read, and executions are audited. *)

From S2P Require Import Prelude Str Model Ip RemotePath Editor Files Prog Calls FilePlans LocalFs TransferRun Transfer Sessions Services AppFiles.

(** ** Following one request

    A monitor reads the calls of a request: which gate it holds and which
    sessions it has seen active since it took it.  It rejects a second gate,
    and anything done for a session it has not seen active under the gate. *)

(** The session a call opens, plans or executes something for. *)
Definition touches (c : fcall) : option HostSessionId :=
  match c with
  | FTableInsert _ c | FRegister c _ _ _ _ _ | FPlanSave c _ _ | FPlanUpload c _ _ _ | FPlanDownload c _ _ _ | FPlanMutation c _ =>
      Some (info_host_session_id c)
  | FConsume _ _ hs _ => Some hs
  | _ => None
  end.

Record Mon := { m_gate : option HostId; m_seen : gset HostSessionId }.
Definition mon_free : Mon := {| m_gate := None; m_seen := ∅ |}.
Definition mon_held (h : HostId) (seen : gset HostSessionId) : Mon := {| m_gate := Some h; m_seen := seen |}.

(** The session a reading of the slot shows. *)
Definition shown (d : SessionData) : gset HostSessionId :=
  match connection_id d with
  | Some hs => if bool_decide (Sessions.state d = Connected) then {[hs]} else ∅
  | None => ∅
  end.

Definition mon_step (m : Mon) (c : fcall) (r : freply c) : option Mon :=
  match c return freply c → option Mon with
  | FGate h => λ _, match m_gate m with Some _ => None | None => Some (mon_held h ∅) end
  | FUngate h => λ _, if bool_decide (m_gate m = Some h) then Some mon_free else None
  | FRead h _ => λ d, Some (if bool_decide (m_gate m = Some h) then mon_held h (m_seen m ∪ shown d) else m)
  | c => λ _, match touches c with
              | Some hs => if bool_decide (hs ∈ m_seen m) then Some m else None
              | None => Some m
              end
  end r.

(** A client is opened for the session it was asked for. *)
Definition plausible (c : fcall) (r : freply c) : Prop :=
  match c return freply c → Prop with
  | FOpenSftp _ h hs => λ r, ∀ client, r = Ok client → info_host_id client = h ∧ info_host_session_id client = hs
  | _ => λ _, True
  end r.

Fixpoint monitored {A} (p : fprog A) (m : Mon) (Q : Mon → A → Prop) : Prop :=
  match p with
  | Ret a => Q m a
  | Do c k => ∀ r, plausible c r → ∃ m', mon_step m c r = Some m' ∧ monitored (k r) m' Q
  end.

Lemma monitored_mono {A} (p : fprog A) m (Q Q' : Mon → A → Prop) : (∀ m a, Q m a → Q' m a) → monitored p m Q → monitored p m Q'.
Proof.
  intros H. revert m. induction p as [a|c k IH]; intros m; cbn; [apply H|]. intros Hp r Hr.
  destruct (Hp r Hr) as (m' & ? & ?). exists m'. auto.
Qed.

Lemma monitored_bind {A B} (p : fprog A) (f : A → fprog B) m Q :
  monitored p m (λ m a, monitored (f a) m Q) → monitored (pbind p f) m Q.
Proof.
  revert m. induction p as [a|c k IH]; intros m; cbn; [done|]. intros Hp r Hr.
  destruct (Hp r Hr) as (m' & ? & ?). exists m'. auto.
Qed.

Lemma monitored_io_bind {A B} (p : fio A) (f : A → fio B) m Q :
  monitored (p : fprog _) m (λ m r, match r with Ok a => monitored (f a : fprog _) m Q | Err e => Q m (Err e) end) →
  monitored (p ≫= f : fprog _) m Q.
Proof. intros H. apply monitored_bind. eapply monitored_mono; [|exact H]. by intros m' [a|e]. Qed.

Lemma monitored_ret {A} (a : A) m (Q : Mon → A → Prop) : Q m a → monitored (Ret a) m Q.
Proof. done. Qed.

(** A call that neither takes a gate, reads a slot nor touches a session. *)
Definition plain (c : fcall) : bool :=
  match c with FGate _ | FUngate _ | FRead _ _ => false | c => bool_decide (touches c = None) end.

Lemma mon_plain m c r : plain c = true → mon_step m c r = Some m.
Proof. by destruct c. Qed.

Lemma mon_touch m c r hs : touches c = Some hs → hs ∈ m_seen m → mon_step m c r = Some m.
Proof. destruct c; cbn; try done; intros [= ->] H; by rewrite bool_decide_eq_true_2. Qed.

Lemma monitored_plain {A} c (k : freply c → fprog A) m Q : plain c = true →
  (∀ r, plausible c r → monitored (k r) m Q) → monitored (Do c k) m Q.
Proof. intros H1 H2 r Hr. exists m. split; [by apply mon_plain|auto]. Qed.

Lemma monitored_touch {A} c (k : freply c → fprog A) m Q hs : touches c = Some hs → hs ∈ m_seen m →
  (∀ r, plausible c r → monitored (k r) m Q) → monitored (Do c k) m Q.
Proof. intros H1 H2 H3 r Hr. exists m. split; [by eapply mon_touch|auto]. Qed.

Lemma monitored_read {A} h s (k : SessionData → fprog A) seen Q :
  (∀ d, monitored (k d) (mon_held h (seen ∪ shown d)) Q) → monitored (Do (FRead h s) k) (mon_held h seen) Q.
Proof. intros H d _. eexists. split; [|apply H]. cbn. by rewrite bool_decide_eq_true_2. Qed.

Lemma monitored_read_free {A} h s (k : SessionData → fprog A) Q :
  (∀ d, monitored (k d) mon_free Q) → monitored (Do (FRead h s) k) mon_free Q.
Proof. intros H d _. eexists. split; [|apply H]. done. Qed.

Lemma shows_shown hs d : shows hs d = true ↔ hs ∈ shown d.
Proof.
  unfold shows, shown. destruct (connection_id d) as [x|]; cbn.
  - destruct (bool_decide (Sessions.state d = Connected)); cbn; [|by rewrite elem_of_empty].
    rewrite bool_decide_eq_true, elem_of_singleton. naive_solver.
  - by rewrite andb_false_r, elem_of_empty.
Qed.

(** ** The requests *)

Definition any_answer {A} (m : Mon) (h : HostId) (r : A) : Prop := m_gate m = Some h.

Lemma gated_monitored {A} h (body : fio A) : monitored (body : fprog _) (mon_held h ∅) (λ m r, any_answer m h r) →
  monitored (gated h body : fprog _) mon_free (λ m _, m = mon_free).
Proof.
  intros H. unfold gated. apply monitored_bind. intros ? _. exists (mon_held h ∅). split; [done|]. cbn [monitored].
  apply monitored_bind. eapply monitored_mono; [|exact H]. intros m x Hm. apply monitored_bind. intros ? _. exists mon_free.
  cbn. by rewrite bool_decide_eq_true_2.
Qed.

Lemma owned_monitored h hs sf seen (Q : Mon → Res Client → Prop) :
  (∀ seen' e, Q (mon_held h seen') (Err e)) →
  (∀ seen' c, hs ∈ seen' → info_host_session_id c = hs → Q (mon_held h seen') (Ok c)) →
  monitored (owned_sftp h hs sf : fprog _) (mon_held h seen) Q.
Proof.
  intros He Ho. unfold owned_sftp. apply monitored_plain; [done|]. intros s _. apply monitored_read. intros d.
  destruct (shows hs d) eqn:Hs; cbn; [|apply He]. apply shows_shown in Hs.
  intros [c|] _; (eexists; split; [done|]); cbn; [|apply He].
  destruct (bool_decide (info_id c ≠ sf)); cbn; [apply He|].
  destruct (bool_decide (info_host_session_id c ≠ hs)) eqn:E; cbn; [apply He|]. split_bools. apply Ho; [set_solver|by apply dec_stable].
Qed.

Lemma owned_monitored_free h hs sf (Q : Mon → Res Client → Prop) : (∀ r, Q mon_free r) →
  monitored (owned_sftp h hs sf : fprog _) mon_free Q.
Proof.
  intros H. unfold owned_sftp. apply monitored_plain; [done|]. intros s _. apply monitored_read_free. intros d.
  destruct (shows hs d); cbn; [|apply H]. intros [c|] _; (eexists; split; [done|]); cbn; [|apply H].
  by destruct (_ || _); cbn; apply H.
Qed.

(** A planning request: the gate, the client, then calls on it. *)
Lemma owned_then {A} h hs sf (f : Client → fio A) :
  (∀ seen c, hs ∈ seen → info_host_session_id c = hs → monitored (f c : fprog _) (mon_held h seen) (λ m r, any_answer m h r)) →
  monitored (gated h (client ← owned_sftp h hs sf; f client) : fprog _) mon_free (λ m _, m = mon_free).
Proof.
  intros H. apply gated_monitored. apply monitored_io_bind. apply owned_monitored; [done|]. intros seen c. apply H.
Qed.


Ltac mon_plain := apply monitored_plain; [done|let r := fresh "r" in let H := fresh "Hr" in intros r H].
Ltac mon_touch := eapply monitored_touch; [reflexivity|cbn; by simplify_eq/=|let r := fresh "r" in let H := fresh "Hr" in intros r H].
(** The calls of a body under the gate, one after the other. *)
Ltac mon_calls :=
  repeat (cbn beta iota; first
    [ done
    | match goal with
      | |- monitored (pbind _ _) _ _ => apply monitored_bind
      | |- monitored (_ ≫= _) _ _ => apply monitored_io_bind
      | |- monitored (fask _) _ _ => unfold fask
      | |- monitored (Do _ _) _ _ => first [mon_plain|mon_touch]
      | |- monitored (Ret _) _ _ => apply monitored_ret
      | |- monitored (io_ensure _ _) _ _ => apply monitored_ret
      | |- monitored (io_lift _) _ _ => apply monitored_ret
      | |- monitored (io_fail _) _ _ => apply monitored_ret
      | |- monitored (mret _) _ _ => apply monitored_ret
      | |- context [match ?x with _ => _ end] => destruct x eqn:?
      end ]).

Lemma start_monitored h s d tr hs seen : shows hs d = true → hs ∈ seen →
  monitored (start_sftp h s d tr hs : fprog _) (mon_held h seen) (λ m r, any_answer m h r).
Proof.
  intros Hd Hs. unfold start_sftp. apply monitored_io_bind. unfold fask at 1. mon_plain. apply monitored_ret.
  destruct r as [client|e]; [|done]. cbn in Hr. destruct (Hr client eq_refl) as [_ Hc].
  apply monitored_bind. unfold fask at 1. apply monitored_read. intros d'. apply monitored_ret. destruct (_ || _); [by mon_calls|].
  apply monitored_bind. eapply monitored_touch; [reflexivity|cbn; rewrite Hc; set_solver|]. intros [o|] _; by mon_calls.
Qed.

Lemma open_sftp_monitored h : monitored (open_sftp h : fprog _) mon_free (λ m _, m = mon_free).
Proof.
  unfold open_sftp. apply monitored_io_bind. unfold fask at 1. mon_plain. apply monitored_ret. destruct r as [[]|]; [|done].
  apply gated_monitored. apply monitored_bind. unfold fask at 1. mon_plain. apply monitored_ret.
  apply monitored_bind. unfold fask at 1. apply monitored_read. intros d. apply monitored_ret. apply monitored_io_bind, monitored_ret.
  destruct (bool_decide (Sessions.state d ≠ Connected)) eqn:Hc; [done|]. cbn [ensure]. split_bools. apply dec_stable in Hc.
  apply monitored_io_bind, monitored_ret. destruct (transport d) as [tr|]; [|done]. apply monitored_io_bind, monitored_ret.
  destruct (connection_id d) as [hs|] eqn:Hi; [|done].
  assert (shows hs d = true) as Hs by (unfold shows; by rewrite Hc, Hi, !bool_decide_eq_true_2).
  assert (hs ∈ ∅ ∪ shown d) as Hin by (apply shows_shown in Hs; set_solver).
  cbn [ok_or]. apply monitored_bind. unfold fask at 1. mon_plain. apply monitored_ret.
  destruct r0 as [c|]; [|by apply start_monitored]. destruct (bool_decide _); [by mon_calls|by apply start_monitored].
Qed.

Lemma request_monitored q : monitored (request_prog q) mon_free (λ m _, m = mon_free).
Proof.
  assert (∀ A (p : fprog A), monitored p mon_free (λ m _, m = mon_free) → monitored (quiet_prog p) mon_free (λ m _, m = mon_free)) as Hq.
  { intros A p H. apply monitored_bind. eapply monitored_mono; [|exact H]. by intros m a ->. }
  destruct q; apply Hq.
  - apply open_sftp_monitored.
  - apply gated_monitored. mon_calls.
  - apply monitored_io_bind, owned_monitored_free. intros [c|e]; done.
  - apply monitored_io_bind, owned_monitored_free. intros [c|e]; by mon_calls.
  - apply monitored_io_bind, owned_monitored_free. intros [c|e]; by mon_calls.
  - apply owned_then. intros seen c Hs Hc. mon_calls.
  - apply owned_then. intros seen c Hs Hc. mon_calls.
  - unfold discard_remote_text_document. mon_calls.
  - apply owned_then. intros seen c Hs Hc. mon_calls.
  - apply owned_then. intros seen c Hs Hc. mon_calls.
  - apply monitored_io_bind, monitored_ret. destruct (validate_child_name _); [|done]. apply monitored_io_bind, monitored_ret.
    destruct (join_remote _ _); [|done]. apply owned_then. intros seen c Hs Hc. mon_calls.
  - apply monitored_io_bind, monitored_ret. destruct (validate_child_name _); [|done]. apply monitored_io_bind, monitored_ret.
    destruct (parent_remote _); [|done]. apply monitored_io_bind, monitored_ret. destruct (join_remote _ _); [|done].
    apply owned_then. intros seen c Hs Hc. mon_calls.
  - apply owned_then. intros seen c Hs Hc. mon_calls.
  - apply owned_then. intros seen c Hs Hc. unfold record. mon_calls.
  - unfold discard_file_plan. mon_calls.
  - unfold list_transfers. mon_calls.
  - apply monitored_io_bind, owned_monitored_free. intros [c|e]; by mon_calls.
  - apply monitored_io_bind, owned_monitored_free. intros [c|e]; by mon_calls.
Qed.

(** ** The requests together *)

Section System.
Context (host_of : HostSessionId → HostId).
Abbreviation fstep := (file_step host_of).

(** Each request is where its monitor says, and none has seen a session of
    [X] active under the gate it holds. *)
Definition thread_ok (X : gset HostSessionId) (y : FileSys) (t : N) (p : fprog unit) : Prop :=
  ∃ m, monitored p m (λ m _, m = mon_free) ∧ (∀ h, owner y !! h = Some t ↔ m_gate m = Some h) ∧
    (∀ hs, hs ∈ m_seen m → m_gate m = Some (host_of hs) ∧ hs ∉ X).

Record file_inv (X : gset HostSessionId) (y : FileSys) : Prop := {
  fv_threads : ∀ t p, threads y !! t = Some p → thread_ok X y t p;
  fv_owner : ∀ h t, owner y !! h = Some t → is_Some (threads y !! t);
  fv_over : X ⊆ over y
}.

(** How the monitor of a request moves with its call. *)
Lemma mon_step_inv X y t c r m m' : (∀ h, owner y !! h = Some t ↔ m_gate m = Some h) →
  (∀ hs, hs ∈ m_seen m → m_gate m = Some (host_of hs) ∧ hs ∉ X) → X ⊆ over y → may_answer host_of y c r → mon_step m c r = Some m' →
  (∀ h, after_call t c y !! h = Some t ↔ m_gate m' = Some h) ∧ (∀ hs, hs ∈ m_seen m' → m_gate m' = Some (host_of hs) ∧ hs ∉ X).
Proof.
  intros Ho Hs HX Ha Hm. destruct c; cbn in *; try (by repeat case_match; simplify_eq).
  - destruct (m_gate m) eqn:Eg; simplify_eq. cbn. split; [|set_solver]. intros h'. rewrite lookup_insert_Some.
    split; [intros [[-> _]|[_ H]]; [done|by apply Ho in H]|]. intros [= ->]. by left.
  - case_match eqn:E; simplify_eq. split_bools. split; [|set_solver]. intros h'. rewrite lookup_delete_Some. split; [|done].
    intros [Hne H]. apply Ho in H. congruence.
  - case_match eqn:E; simplify_eq; [|done]. split_bools. cbn. split; [intros h'; by rewrite Ho, E|].
    intros hs [H|H]%elem_of_union; [by rewrite <-E; apply Hs|]. apply shows_shown in H. destruct (Ha hs H) as [<- ?]. split; [done|set_solver].
Qed.

(** A call of one request leaves the gates of the others. *)
Lemma after_call_other y t t' c r h : owner y !! h = Some t' ∨ t' ≠ t → t' ≠ t → may_answer host_of y c r →
  (∀ h, c = FUngate h → owner y !! h = Some t) → after_call t c y !! h = Some t' ↔ owner y !! h = Some t'.
Proof.
  intros _ Hne Ha Hu. destruct c; cbn in *; try done.
  - rewrite lookup_insert_Some. split; [intros [[_ ?]|[_ ?]]; [congruence|done]|]. intros H. right. split; [|done]. intros ->. congruence.
  - rewrite lookup_delete_Some. split; [by intros [_ ?]|]. intros H. split; [|done]. intros ->. specialize (Hu h eq_refl). congruence.
Qed.

Lemma file_step_inv X y z : file_inv X y → fstep y z → file_inv X z.
Proof.
  intros [I1 I2 I3] Hs. destruct Hs as [t q y Ht|t c k r y Ht Ha|hs y].
  - split; cbn; [|intros h t' H; apply lookup_insert_is_Some'; right; by eapply I2|done].
    intros t' p [[<- <-]|[_ Hp]]%lookup_insert_Some; [|by apply I1].
    exists mon_free. split; [apply request_monitored|]. split; [|by intros ? ?%elem_of_empty]. intros h. split; [|done].
    intros H%I2. rewrite Ht in H. by destruct H.
  - destruct (I1 t _ Ht) as (m & Hm & Ho & Hseen).
    assert (plausible c r) as Hp by (by destruct c).
    destruct (Hm r Hp) as (m' & Hm' & Hk).
    assert (∀ h, c = FUngate h → owner y !! h = Some t) as Hu.
    { intros h ->. cbn in Hm'. case_match eqn:E; [|done]. split_bools. by apply Ho. }
    split; cbn; [| |done].
    + intros t' p [[<- <-]|[Hne Hp']]%lookup_insert_Some.
      * destruct (mon_step_inv X y t c r m m' Ho Hseen I3 Ha Hm') as [H1 H2]. exists m'. by split.
      * destruct (I1 t' p Hp') as (m0 & H0 & Ho0 & Hs0). exists m0. split; [done|]. split; [|done]. intros h. rewrite <-Ho0. cbn.
        by eapply after_call_other; [right|..].
    + intros h t' H. apply lookup_insert_is_Some'. destruct (decide (t = t')) as [|Hne]; [by left|right].
      apply (I2 h). eapply after_call_other in H; [done|by right|done|done|done].
  - split; cbn; [done|done|set_solver].
Qed.

(** While the gate of its host is free, nobody relies on a session that
    ended. *)
Lemma free_gate_seals X y hs : file_inv X y → owner y !! host_of hs = None → hs ∈ over y → file_inv ({[hs]} ∪ X) y.
Proof.
  intros [I1 I2 I3] Ho Hover. split; [|done|set_solver]. intros t p Hp. destruct (I1 t p Hp) as (m & Hm & Hown & Hseen).
  exists m. split; [done|]. split; [done|]. intros hs' Hin. destruct (Hseen hs' Hin) as [Hg Hn]. split; [done|].
  intros [->%elem_of_singleton|?]%elem_of_union; [|done]. apply Hown in Hg. congruence.
Qed.

Lemma touching_seen m c r m' hs : mon_step m c r = Some m' → touches c = Some hs → hs ∈ m_seen m.
Proof. destruct c; cbn; try done; intros Hm [= <-]; case_match eqn:E; by split_bools. Qed.

Lemma sealed_untouched X y z : file_inv X y → rtc fstep y z →
  ∃ new, log z = new ++ log y ∧ Forall (λ te, ∀ hs, touches (ev_call te.2) = Some hs → hs ∉ X) new.
Proof.
  intros I H. revert I. induction H as [y|y x z Hs _ IH]; intros I; [by exists []|].
  destruct (IH (file_step_inv _ _ _ I Hs)) as (new & Hlog & Hnew). destruct Hs as [t q y Ht|t c k r y Ht Ha|hs y]; cbn in Hlog; [by exists new| |by exists new].
  exists (new ++ [(t, Ev c r)]). rewrite Hlog, <-app_assoc. split; [done|]. apply Forall_app. split; [done|]. apply Forall_singleton. cbn.
  intros hs Hc. destruct (fv_threads X y I t _ Ht) as (m & Hm & _ & Hseen). assert (plausible c r) as Hp by (by destruct c).
  destruct (Hm r Hp) as (m' & Hm' & _). by apply Hseen; eapply touching_seen.
Qed.

Lemma file_reachable_inv y : file_reachable host_of y → file_inv ∅ y.
Proof.
  unfold file_reachable. revert y. apply (rtc_ind_r (λ y, file_inv ∅ y) file_new).
  - split; cbn; [intros ? ?; by rewrite lookup_empty|intros ? ?; by rewrite lookup_empty|done].
  - intros y z _ Hs I. by eapply file_step_inv.
Qed.

(** The block of [close_sftp] that takes the client of a session out of the
    table has run. *)
Definition taken_out (h : HostId) (hs : HostSessionId) (l : list (N * event freply)) : Prop :=
  Exists (λ te, ev_call te.2 = FTableTake h hs) l.

(** A table without new clients of the session: what it holds of it was there
    before, and nothing once the client was taken out. *)
Lemma table_step hs y z : fstep y z → (∃ new, log z = new ++ log y ∧ Forall (λ te, touches (ev_call te.2) ≠ Some hs) new) →
  (∀ h c, table z !! h = Some c → info_host_session_id c = hs → table y !! h = Some c ∧ ¬ (∃ t r, log z = (t, Ev (FTableTake h hs) r) :: log y)).
Proof.
  intros Hs (new & Hlog & Hnew) h c Hc Hi. destruct Hs as [t q y Ht|t c0 k r y Ht Ha|x y]; cbn in *;
    [split; [done|]; intros (t' & r & E); by apply (f_equal length) in E; cbn in E; lia| |
     split; [done|]; intros (t' & r & E); by apply (f_equal length) in E; cbn in E; lia].
  assert (new = [(t, Ev c0 r)]) as -> by (by apply (app_inv_tail (log y)); rewrite <-Hlog).
  pose proof (Forall_inv Hnew) as Hn. cbn in Hn. clear Hnew. rename Hn into Hnew.
  assert (c0 ≠ FTableTake h hs) as Hne.
  { intros ->. cbn in Hc. unfold held_client in Hc. destruct (table y !! h) as [c'|] eqn:E; [|by rewrite E in Hc].
    case_bool_decide as Hd; [by rewrite lookup_delete_eq in Hc|]. rewrite E in Hc. by injection Hc as ->. }
  split.
  - destruct c0; cbn in Hc; try done.
    + destruct (decide (h0 = h)) as [->|Hn]; [|by rewrite lookup_insert_ne in Hc]. rewrite lookup_insert_eq in Hc. injection Hc as ->.
      cbn in Hnew. congruence.
    + destruct (held_client h0 hs0 y); [|done]. by apply lookup_delete_Some in Hc as [_ ?].
  - intros (t' & r' & E). injection E as _ E. by apply Hne.
Qed.

Lemma table_run hs X y z : hs ∈ X → file_inv X y → rtc fstep y z → ∃ new, log z = new ++ log y ∧
  ∀ h c, table z !! h = Some c → info_host_session_id c = hs → table y !! h = Some c ∧ ¬ taken_out h hs new.
Proof.
  intros HX I H. revert I. induction H as [y|y x z Hs H IH]; intros I.
  { exists []. split; [done|]. intros h c Hc _. split; [done|]. by intros ?%Exists_nil. }
  destruct (IH (file_step_inv _ _ _ I Hs)) as (new & Hlog & Hnew).
  destruct (sealed_untouched X y x I (rtc_once _ _ Hs)) as (n1 & Hl1 & Hn1).
  exists (new ++ n1). rewrite Hlog, Hl1, app_assoc. split; [done|]. intros h c Hc Hi. destruct (Hnew h c Hc Hi) as [Hx Hnt].
  destruct (table_step hs y x Hs ltac:(exists n1; split; [done|]; eapply Forall_impl; [|exact Hn1]; cbn; intros te Hte E; by apply (Hte hs E))
    h c Hx Hi) as [Hy Hno].
  split; [done|]. intros [E|E]%Exists_app; [done|]. destruct Hs as [t q y Ht|t c0 k r y Ht Ha|hs' y]; cbn in Hl1.
  - apply (app_inv_tail (log y) [] n1) in Hl1 as <-. by apply Exists_nil in E.
  - apply (app_inv_tail (log y) [(t, Ev c0 r)] n1) in Hl1 as <-. apply Exists_cons in E as [E|E]; [|by apply Exists_nil in E]. cbn in E. subst c0.
    apply Hno. by exists t, r.
  - apply (app_inv_tail (log y) [] n1) in Hl1 as <-. by apply Exists_nil in E.
Qed.

(** [C10] What belongs to a session that ended stays dead.  Take any moment
    after the end of a session at which the gate of its host is free, such as
    the moment before the closing of its SFTP session takes it; a request that
    holds the gate across the end may still finish what it began.  Whatever
    file requests run and interleave from there: no client is put into the
    table for that session, no document or plan of it is registered by a
    request that holds a client, and no plan of it is consumed; a client of it
    in the table was there before; and once the closing request has taken it
    out, which it does after the transfers of the session ended, the table of
    the host holds none of that session any more. *)
Theorem ended_session_stays_dead y z hs : file_reachable host_of y → hs ∈ over y → owner y !! host_of hs = None → rtc fstep y z →
  ∃ new, log z = new ++ log y ∧ Forall (λ te, touches (ev_call te.2) ≠ Some hs) new ∧
    ∀ h c, table z !! h = Some c → info_host_session_id c = hs → table y !! h = Some c ∧ ¬ taken_out h hs new.
Proof.
  intros I%file_reachable_inv Ho Hg H. pose proof (free_gate_seals ∅ y hs I Hg Ho) as I'.
  destruct (sealed_untouched _ y z I' H) as (new & Hlog & Hnew).
  destruct (table_run hs _ y z ltac:(by apply elem_of_union_l, elem_of_singleton) I' H) as (n2 & Hl2 & Ht).
  assert (n2 = new) as -> by (apply (app_inv_tail (log y)); by rewrite <-Hlog).
  exists new. split; [done|]. split; [|done].
  eapply Forall_impl; [|exact Hnew]. cbn. intros te Hte E. apply (Hte hs E). set_solver.
Qed.

(** The gates of the file requests are locks.  In every reachable state a
    request holds at most one gate, and a request that returned holds none. *)
Theorem gates_are_given_back y t p h h' : file_reachable host_of y → threads y !! t = Some p →
  (owner y !! h = Some t → owner y !! h' = Some t → h = h') ∧ (p = Ret tt → owner y !! h ≠ Some t).
Proof.
  intros I%file_reachable_inv Ht. destruct (fv_threads _ _ I t p Ht) as (m & Hm & Hown & _). split.
  - intros H1%Hown H2%Hown. congruence.
  - intros ->. cbn in Hm. subst m. by intros H%Hown.
Qed.
End System.

(** ** Single requests *)

Definition ftrace := list (event freply).
Definition opened (t : ftrace) : list Client :=
  omap (λ e : event freply, match e with Ev (FOpenSftp _ _ _) (Ok c) => Some c | _ => None end) t.
Definition kept (t : ftrace) : list Client := omap (λ e : event freply, match e with Ev (FTableInsert _ c) _ => Some c | _ => None end) t.
Definition displaced (t : ftrace) : list Client :=
  omap (λ e : event freply, match e with Ev (FTableInsert _ _) r | Ev (FTableTake _ _) r => r | _ => None end) t.
Definition shut (t : ftrace) : list Client := omap (λ e : event freply, match e with Ev (FClose c) _ => Some c | _ => None end) t.

(** Clients come from opening or out of the table, and end in the table or
    closed. *)
Definition accounted (t : ftrace) : Prop := opened t ++ displaced t ≡ₚ kept t ++ shut t.

(** No SFTP client is leaked.  In every run of opening or closing the SFTP
    session of a host, whatever the host, the table and the other requests
    answer, the clients that were opened or taken out of the table are exactly
    those that were put into the table or closed; and the client that is
    reported open is one that is in the table. *)
Theorem clients_are_accounted h hs :
  (∀ t r, runs (open_sftp h : fprog _) t r → accounted t ∧ ∀ c, r = Ok c → c ∈ kept t ∨ (Ev (FTableGet h) (Some c) : event freply) ∈ t) ∧
  (∀ t r, runs (close_sftp h hs : fprog _) t r → accounted t).
Proof.
  split; intros t r H.
  - apply (wp_runs (open_sftp h : fprog _) [] t r (λ t r, accounted t ∧ ∀ c, r = Ok c → c ∈ kept t ∨ (Ev (FTableGet h) (Some c) : event freply) ∈ t)); [|done].
    clear. assert (∀ t (e : AppError), accounted t → accounted t ∧ ∀ c : Client, Err e = Ok c → c ∈ kept t ∨ (Ev (FTableGet h) (Some c) : event freply) ∈ t) as Herr by done.
    unfold open_sftp. cbn. intros [[]|e]; cbn; [|apply Herr; exact (Permutation_refl _)]. intros a s d.
    destruct (bool_decide (Sessions.state d ≠ Connected)); cbn; [intros ?; apply Herr; exact (Permutation_refl _)|]. destruct (transport d) as [tr|]; cbn; [|intros ?; apply Herr; exact (Permutation_refl _)].
    destruct (connection_id d) as [id|]; cbn; [|intros ?; apply Herr; exact (Permutation_refl _)].
    assert (∀ x : option Client, wp (pbind (start_sftp h s d tr id : fprog _) (λ x, Do (FUngate h) (λ _, Ret x)))
      [Ev (FRepository h) (Ok tt); Ev (FGate h) a; Ev (FSlot h) s; Ev (FRead h s) d; Ev (FTableGet h) x]
      (λ t r, accounted t ∧ ∀ c, r = Ok c → c ∈ kept t ∨ (Ev (FTableGet h) (Some c) : event freply) ∈ t)) as Hstart.
    { intros x. cbn. intros [c|e]; cbn; [|intros ?; apply Herr; exact (Permutation_refl _)]. intros d'. destruct (_ || _); cbn; [intros ? ?; apply Herr; exact (Permutation_refl _)|]. intros [o|]; cbn.
      - intros ? ?. split; [exact (Permutation_refl _)|]. intros ? [= <-]. left. by apply list_elem_of_here.
      - intros ?. split; [exact (Permutation_refl _)|]. intros ? [= <-]. left. by apply list_elem_of_here. }
    intros [c|]; [|apply Hstart]. destruct (bool_decide _); [|apply Hstart]. cbn. intros ?. split; [exact (Permutation_refl _)|]. intros ? [= <-].
    right. do 4 apply list_elem_of_further. by apply list_elem_of_here.
  - apply (wp_runs (close_sftp h hs : fprog _) [] t r (λ t _, accounted t)); [|done]. clear. unfold close_sftp. cbn.
    intros ? ? [[]|e]; cbn; [|intros ?; exact (Permutation_refl _)]. intros [c|]; cbn; intros; exact (Permutation_refl _).
Qed.

(** What a file execution leaves behind: nothing was executed, or exactly the
    plan that was consumed, and it was audited with the risk of its kind. *)
Definition executed (t : ftrace) : list InternalPlan := omap (λ e : event freply, match e with Ev (FExecute p) _ => Some p | _ => None end) t.
Definition audits (t : ftrace) : list (HostId * string * OperationRisk * AuditOutcome) :=
  omap (λ e : event freply, match e with Ev (FAudit h k r o) _ => Some (h, k, r, o) | _ => None end) t.

(** The risk a plan of a kind is made with. *)
Definition reviewed_risk (k : FileOperationKind) : OperationRisk :=
  match k with OpCreateDirectory => Low | OpDelete => Destructive | _ => Moderate end.

Lemma kind_risk_reviewed k : kind_risk (file_audit_kind k) = Some (reviewed_risk k).
Proof. by destruct k. Qed.

Definition execution_spec (h : HostId) (hs : HostSessionId) (sf : SftpSessionId) (id : FilePlanId) (t : ftrace) (r : Res (list TransferJob)) : Prop :=
  (executed t = [] ∧ audits t = [] ∧ ∃ e, r = Err e) ∨
  (∃ plan x audit t1 t2, t = t1 ++ [Ev (FConsume id h hs sf) (Ok plan); Ev (FExecute plan) x;
      Ev (FAudit h (file_audit_kind (fp_kind (Files.view plan))) (reviewed_risk (fp_kind (Files.view plan))) (if is_ok x then AuditSuccess else AuditFailed)) audit] ++ t2 ∧
    executed t = [plan] ∧ length (audits t) = 1%nat ∧ r = match audit with Ok _ => x | Err e => Err e end).

(** A file plan is executed under the session it is asked for and audited
    once.  Every run either executes nothing, audits nothing and fails, or
    consumes the plan with the host, session and SFTP session of the request,
    executes exactly that plan, audits it once with the reviewed risk of its
    kind and the outcome of the execution, and answers what the execution
    answered, or the error of the audit log. *)
Theorem file_execution_is_audited h hs sf id t r : runs (execute_file_plan h hs sf id : fprog _) t r → execution_spec h hs sf id t r.
Proof.
  intros H. apply (wp_runs (execute_file_plan h hs sf id : fprog _) [] t r (execution_spec h hs sf id)); [|done]. clear.
  unfold execute_file_plan, owned_sftp. cbn. intros ? s d. destruct (shows hs d); cbn; [|by left; split; [|split; [|eauto]]].
  intros [c|]; cbn; [|by left; split; [|split; [|eauto]]]. destruct (_ || _); cbn; [by left; split; [|split; [|eauto]]|].
  intros [plan|e]; cbn; [|by left; split; [|split; [|eauto]]]. intros x. unfold record. rewrite kind_risk_reviewed. cbn. intros audit.
  assert (∀ y : unit, execution_spec h hs sf id ([Ev (FGate h) r; Ev (FSlot h) s; Ev (FRead h s) d; Ev (FTableGet h) (Some c)] ++
    [Ev (FConsume id h hs sf) (Ok plan); Ev (FExecute plan) x;
     Ev (FAudit h (file_audit_kind (fp_kind (Files.view plan))) (reviewed_risk (fp_kind (Files.view plan))) (if is_ok x then AuditSuccess else AuditFailed)) audit]
    ++ [Ev (FUngate h) y]) (match audit with Ok _ => x | Err e => Err e end)) as Hx.
  { intros y. right. by eexists plan, x, audit, _, [Ev (FUngate h) y]. }
  destruct audit as [[]|e]; intros y; exact (Hx y).
Qed.

(** What opening a text file rests on. *)
Definition opened_spec (h : HostId) (hs : HostSessionId) (path : str) (t : ftrace) (doc : RemoteTextDocument) : Prop :=
  ∃ c rev bytes newline bom, [Ev (FClient c (CEditorRevision path)) (Ok rev); Ev (FClient c (CReadEditorBytes path)) (Ok bytes);
      Ev (FClient c (CEditorRevision path)) (Ok rev); Ev (FRegister c path rev bytes newline bom) (Ok (rt_id doc))] ⊆ t ∧
    info_host_session_id c = hs ∧ ei_size (er_identity rev) = Some (zlen bytes) ∧ decode_text bytes = Ok (rt_text doc, newline, bom) ∧
    rt_newline doc = newline ∧ rt_bom doc = bom ∧ rt_path doc = path ∧ rt_original_bytes doc = zlen bytes ∧ rt_max_bytes doc = MAX_REMOTE_EDITOR_BYTES.

Lemma as_u32_small x : 0 ≤ x ≤ u32_max → as_u32 x = x.
Proof.
  intros H. unfold as_u32. change u32_max with (Z.ones 32). rewrite Z.land_ones by lia. apply Z.mod_small. unfold u32_max in H. lia.
Qed.

(** The text that is opened is the file.  If opening a remote text file
    succeeds, the file had the same revision before and after its bytes were
    read, its size is their number, the text is their decoding, and the
    document was registered for exactly this client, path, revision and these
    bytes; the shown sizes are not truncated. *)
Theorem opened_text_is_stable h hs sf path t doc : runs (open_remote_text_file h hs sf path : fprog _) t (Ok doc) → opened_spec h hs path t doc.
Proof.
  intros H. apply (wp_runs (open_remote_text_file h hs sf path : fprog _) [] t (Ok doc) (λ t r, ∀ d, r = Ok d → opened_spec h hs path t d)); [|done|done]. clear.
  unfold open_remote_text_file, owned_sftp. cbn. intros r s d. destruct (shows hs d); cbn; [|done].
  intros [c|]; cbn; [|done]. destruct (bool_decide (info_id c ≠ sf)); cbn; [done|].
  destruct (bool_decide (info_host_session_id c ≠ hs)) eqn:Ec; cbn; [done|].
  intros [before|]; cbn; [|done]. intros [bytes|]; cbn; [|done]. intros [after|]; cbn; [|done].
  destruct (bool_decide (before ≠ after)) eqn:E1; cbn; [done|]. destruct (bool_decide (ei_size _ ≠ _)) eqn:E2; cbn; [done|].
  destruct (decode_text bytes) as [[[text newline] bom]|] eqn:Ed; cbn; [|done]. intros [id|]; cbn; [|done]. intros u doc [= <-].
  split_bools. apply dec_stable in Ec, E1, E2. subst after.
  assert (zlen bytes ≤ MAX_REMOTE_EDITOR_BYTES) as Hb.
  { unfold decode_text in Ed. apply bind_ok in Ed as (? & Hb%ensure_ok & _). split_bools. lia. }
  unfold MAX_REMOTE_EDITOR_BYTES in Hb.
  exists c, before, bytes, newline, bom. cbn. split.
  { intros e He. do 4 apply list_elem_of_further. rewrite <-(app_nil_r [_; _; _; _]) in He. set_solver. }
  repeat split; try done; apply as_u32_small; unfold u32_max, MAX_REMOTE_EDITOR_BYTES; lia.
Qed.

(** ** Samples *)
Module FileSample.
Definition host (hs : HostSessionId) : HostId := 1%N.

(** An answer to every call, for complete runs. *)
Definition info : Client := sample_info 3 1 7 [].
Definition revision : EditorRevision :=
  {| er_identity := {| ei_kind := KFile; ei_size := Some 2; ei_modified := None |}; raw_mode := 0; er_uid := 0; er_gid := 0 |}.
Definition connected : SessionData :=
  {| Sessions.view := {| hs_host_id := 1; hs_session_id := Some 7%N; hs_state := Connected; hs_error := None; hs_identity := None;
                         hs_capabilities := []; hs_discovery := None |};
     generation := 1; cancel := 1; transport := Some 4%N; connection_id := Some 7%N; refreshing := false |}.
Definition plan : InternalPlan :=
  {| Files.view := {| fp_id := 9; fp_host_id := 1; fp_host_session_id := 7; fp_sftp_session_id := 3; fp_kind := OpDelete; fp_risk := Destructive;
                      fp_conflict_policy := None; fp_items := [] |};
     payload := Mutation info (MDelete (lit "/x") KFile (er_identity revision)) |}.
Definition refused : AppError := app_error Policy "refused".
Definition client_answer (x : call) : reply x :=
  match x with
  | CEditorRevision _ => Ok revision
  | CReadEditorBytes _ => Ok [104; 105]
  | CStat _ | CIdentity _ | CPreserveEditorMetadata _ _ | CCommitNew _ _ | CCommitReplace _ _ | CCreateDir _ | CRenameNoclobber _ _
  | CRemoveFile _ | CRemoveDir _ | CRemoveOwnedStaging _ | CDownload _ | CEnterFinalizing => Err refused
  | CUploadStaged _ _ => (false, Err (NotCreated refused))
  | CSymlinkMetadata _ => Err IoOther
  | COpen _ _ | CHandleMetadata _ | CFileId _ | CTryClone _ => None
  | CExists _ | CSeekStart _ | CTempfileIn _ | CSyncAll | CPersist _ | CPersistNoclobber _ | CIsCancelled => false
  | CSetState _ | CCleanupUnconfirmed | CSpawnCleanup _ => tt
  end.
Definition answer (c : fcall) : freply c :=
  match c with
  | FSlot _ => 2%N
  | FRead _ _ => connected
  | FTableGet _ => Some info
  | FTableInsert _ _ | FTableTake _ _ => None
  | FOpenSftp _ _ _ => Ok info
  | FClient _ x => client_answer x
  | FRegister _ _ _ _ _ _ => Ok 8%N
  | FConsume _ _ _ _ => Ok plan
  | FExecute _ => Ok []
  | FListTransfers _ => []
  | FRepository _ | FValidateDirectory _ | FDiscardDocument _ _ _ _ | FCancel _ _ _ _ | FQuiesce _ _ | FAudit _ _ _ _ => Ok tt
  | FGate _ | FUngate _ | FClose _ | FRevoke _ _ => tt
  | FDiscardPlan _ _ _ _ => Ok true
  | FList _ _ | FPlanSave _ _ _ | FPlanUpload _ _ _ _ | FPlanDownload _ _ _ _ | FPlanMutation _ _ | FRetry _ _ _ _ => Err refused
  end.
Definition opened_run := interp answer (open_remote_text_file 1 7 3 (lit "/x") : fprog _).
Definition document : RemoteTextDocument :=
  {| rt_id := 8; rt_host_id := 1; rt_host_session_id := 7; rt_sftp_session_id := 3; rt_path := lit "/x"; rt_text := lit "hi";
     rt_original_bytes := 2; rt_newline := Lf; rt_bom := false; rt_max_bytes := 1048576 |}.

(** The next call of a request, answered by the parts of the system: session 7
    is active until it ended. *)
Definition respond (y : FileSys) (c : fcall) : freply c :=
  match c return freply c with
  | FRead h _ => if bool_decide (h = 1%N ∧ 7%N ∉ over y) then connected else slot_new h 0
  | FOpenSftp _ h hs => if bool_decide (h = 1%N ∧ hs = 7%N) then Ok info else Err refused
  | FTableGet h | FTableInsert h _ => table y !! h
  | FTableTake h hs => held_client h hs y
  | c => answer c
  end.

Definition blocked (c : fcall) (y : FileSys) : bool :=
  match c with FGate h => bool_decide (is_Some (owner y !! h)) | _ => false end.

Definition go (t : N) (y : FileSys) : FileSys :=
  match threads y !! t with
  | Some (Do c k) =>
      if blocked c y then y
      else {| threads := <[t := k (respond y c)]> (threads y); owner := after_call t c y; over := over y;
              table := after_table c y; log := (t, Ev c (respond y c)) :: log y |}
  | _ => y
  end.

Lemma respond_ok y c : blocked c y = false → may_answer host y c (respond y c).
Proof.
  intros Hb. destruct c; cbn in *; try done.
  - split_bools. destruct (owner y !! h); [|done]. match goal with H : ¬ _ |- _ => by destruct H end.
  - intros hs. case_bool_decide as E; [|done]. destruct E as [-> Ho]. intros Hs%shows_shown. cbn in Hs. apply elem_of_singleton in Hs as ->. done.
  - intros client. case_bool_decide as E; [|done]. destruct E as [-> ->]. by intros [= <-].
Qed.

Lemma go_once t y : rtc (file_step host) y (go t y).
Proof.
  unfold go. destruct (threads y !! t) as [[|c k]|] eqn:E; [apply rtc_refl| |apply rtc_refl].
  destruct (blocked c y) eqn:Eb; [apply rtc_refl|]. apply rtc_once. apply (fs_call host t c k); [done|by apply respond_ok].
Qed.
Lemma go_run t y n : rtc (file_step host) y (Nat.iter n (go t) y).
Proof. induction n as [|n IH]; [apply rtc_refl|]. eapply rtc_trans; [exact IH|]. apply go_once. Qed.

Definition start (t : N) (q : FileRequest) (y : FileSys) : FileSys :=
  {| threads := <[t := request_prog q]> (threads y); owner := owner y; over := over y; table := table y; log := log y |}.

(** The files of host 1 are opened in session 7, which then ends; the closing
    of its SFTP session and a request to plan a deletion follow. *)
Definition opened_files : FileSys := Nat.iter 12 (go 5) (start 5 (QOpen 1) file_new).
Definition y0 : FileSys :=
  {| threads := threads opened_files; owner := owner opened_files; over := {[7%N]} ∪ over opened_files; table := table opened_files;
     log := log opened_files |}.
Definition y1 : FileSys := Nat.iter 12 (go 8) (start 8 (QDelete 1 7 3 (lit "/x")) (Nat.iter 12 (go 6) (start 6 (QClose 1 7) y0))).

Lemma reach0 : file_reachable host y0.
Proof.
  apply (rtc_r _ opened_files); [|apply (fs_over host 7 opened_files)]. unfold file_reachable, opened_files.
  eapply rtc_trans; [apply rtc_once, (fs_start host 5 (QOpen 1) file_new); reflexivity|apply go_run].
Qed.
Lemma file_reach1 : rtc (file_step host) y0 y1.
Proof.
  unfold y1. eapply rtc_trans; [apply rtc_once, (fs_start host 6 (QClose 1 7) y0); vm_compute; reflexivity|].
  eapply rtc_trans; [apply (go_run 6 (start 6 (QClose 1 7) y0) 12)|].
  eapply rtc_trans; [apply rtc_once, (fs_start host 8 (QDelete 1 7 3 (lit "/x"))); vm_compute; reflexivity|apply go_run].
Qed.
End FileSample.

Lemma ended_session_stays_dead_witness : table FileSample.y0 !! 1%N = Some FileSample.info ∧ table FileSample.y1 !! 1%N = None ∧
  ∃ new, log FileSample.y1 = new ++ log FileSample.y0 ∧ length new = 10%nat ∧ Forall (λ te, touches (ev_call te.2) ≠ Some 7%N) new.
Proof.
  split; [vm_compute; reflexivity|]. split; [vm_compute; reflexivity|].
  destruct (ended_session_stays_dead FileSample.host FileSample.y0 FileSample.y1 7 FileSample.reach0) as (new & Hl & Hn & _);
    [by apply (bool_decide_unpack _); vm_compute|vm_compute; reflexivity|apply FileSample.file_reach1|].
  exists new. split; [done|]. split; [|done]. apply (f_equal length) in Hl. rewrite length_app in Hl.
  assert (length (log FileSample.y1) = (10 + length (log FileSample.y0))%nat) as E by (vm_compute; reflexivity). lia.
Defined.

Lemma gates_are_given_back_witness : is_Some (threads FileSample.y0 !! 5%N) ∧
  (owner FileSample.y0 !! 1%N = Some 5%N → owner FileSample.y0 !! 2%N = Some 5%N → 1%N = 2%N).
Proof.
  destruct (threads FileSample.y0 !! 5%N) as [p|] eqn:E; [|by vm_compute in E]. split; [done|].
  by apply (gates_are_given_back FileSample.host FileSample.y0 5 p 1 2 FileSample.reach0 E).
Defined.

Lemma file_execution_is_audited_witness :
  execution_spec 1 7 3 9 (interp FileSample.answer (execute_file_plan 1 7 3 9 : fprog _)).1 (Ok []).
Proof. apply file_execution_is_audited. apply interp_runs_eq. vm_compute. reflexivity. Defined.

Lemma opened_text_is_stable_witness : opened_spec 1 7 (lit "/x") FileSample.opened_run.1 FileSample.document.
Proof. apply (opened_text_is_stable 1 7 3). apply interp_runs_eq. vm_compute. reflexivity. Defined.
