(* ===== verification/Json.v ===== *)
(** JSON values and derived deserialization.

    The discovery parsers read JSON through [serde_json::from_str] into structs
    with derived [Deserialize].  The syntax of JSON is the library's and a
    parameter of the parsers; what the derives and their attributes accept is
    written out here over the value, with the keys of an object in order and
    repeated keys kept. *)

From S2P Require Import Prelude Str.

(** An integer literal keeps its value; other numbers fit no field that is
    read. *)
Inductive Json :=
| JNull
| JBool (b : bool)
| JInt (z : Z)
| JFloat
| JString (s : str)
| JArray (l : list Json)
| JObject (fields : list (str * Json)).

Definition as_string (j : Json) : option str := match j with JString s => Some s | _ => None end.
Definition as_unsigned (max : Z) (j : Json) : option Z :=
  match j with JInt z => if (0 <=? z) && (z <=? max) then Some z else None | _ => None end.
Definition as_json_u32 : Json → option Z := as_unsigned u32_max.
Definition as_json_u16 : Json → option Z := as_unsigned u16_max.
Definition as_list {A} (f : Json → option A) (j : Json) : option (list A) :=
  match j with JArray l => mapM f l | _ => None end.

(** ** Structs *)

(** The values of the declared fields, and whether they come from an array,
    which serde accepts in place of an object. *)
Record Fields := { from_array : bool; values : list (option Json) }.

(** One declared field among the keys of an object: a repeated one is an
    error. *)
Definition find_field (fields : list (str * Json)) (name : str) : option (option Json) :=
  match List.filter (λ kv, str_eqb kv.1 name) fields with
  | [] => Some None
  | [kv] => Some (Some kv.2)
  | _ => None
  end.

(** [deny] is [deny_unknown_fields]. *)
Definition struct_fields (deny : bool) (names : list str) (j : Json) : option Fields :=
  match j with
  | JObject fields =>
      if deny && existsb (λ kv, negb (str_in kv.1 names)) fields then None else
      vs ← mapM (find_field fields) names;
      Some {| from_array := false; values := vs |}
  | JArray l =>
      if (length names <? length l)%nat then None else
      Some {| from_array := true; values := map Some l ++ replicate (length names - length l) None |}
  | _ => None
  end.

Definition value_at (f : Fields) (i : nat) : option Json := default None (values f !! i).

(** A field without attributes. *)
Definition required {A} (d : Json → option A) (f : Fields) (i : nat) : option A := j ← value_at f i; d j.
(** [Option<T>] without attributes: absent or [null] is [None]. *)
Definition optional {A} (d : Json → option A) (f : Fields) (i : nat) : option (option A) :=
  match value_at f i with
  | None => if from_array f then None else Some None
  | Some JNull => Some None
  | Some j => Some <$> d j
  end.
(** [#[serde(default, deserialize_with = "present")]]: absent is [None], [null]
    is a value like any other. *)
Definition present {A} (d : Json → option A) (f : Fields) (i : nat) : option (option A) :=
  match value_at f i with
  | None => Some None
  | Some j => Some <$> d j
  end.

(** A unit variant by its name, or as an object with the name as its only
    key. *)
Definition as_variant {A} (f : str → option A) (j : Json) : option A :=
  match j with
  | JString s => f s
  | JObject [(s, JNull)] => f s
  | _ => None
  end.

(** ** Laws *)

(** What a field of an object was read from occurs in it exactly once. *)
Lemma find_field_some fields name j : find_field fields name = Some (Some j) →
  (name, j) ∈ fields ∧ ∀ j', (name, j') ∈ fields → j' = j.
Proof.
  unfold find_field. destruct (List.filter _ fields) as [|[n v] [|]] eqn:E; try done. intros [= <-]. cbn.
  assert (∀ kv, kv ∈ fields ∧ str_eqb kv.1 name = true ↔ kv = (n, v)) as H.
  { intros kv. rewrite list_elem_of_In. rewrite <-(filter_In (λ kv, str_eqb kv.1 name) kv fields), E. cbn. naive_solver. }
  assert (n = name) as -> by (by apply str_eqb_eq, (H (n, v))). split; [by apply (H (name, v))|].
  intros j' Hj'. assert ((name, j') = (name, v)) as [= ->]; [|done]. apply H. split; [done|]. by apply str_eqb_eq.
Qed.

Lemma find_field_none fields name : find_field fields name = Some None → ∀ j, (name, j) ∉ fields.
Proof.
  unfold find_field. destruct (List.filter _ fields) as [|kv [|]] eqn:E; try done. intros _ j Hj.
  assert ((name, j) ∈ List.filter (λ kv, str_eqb kv.1 name) fields) as H.
  { apply list_elem_of_In, filter_In. split; [by apply list_elem_of_In|by apply str_eqb_eq]. }
  rewrite E in H. by apply elem_of_nil in H.
Qed.

Lemma as_unsigned_bounds max j z : as_unsigned max j = Some z → j = JInt z ∧ 0 ≤ z ≤ max.
Proof. destruct j; cbn; try done. case_match eqn:E; [|done]. split_bools. intros [= ->]. split; [done|lia]. Qed.
