(* ===== verification/Interfaces.v ===== *)
(** The network interfaces of a host ([nexus-discovery/src/network.rs]). *)

From S2P Require Import Prelude Str Model Ip IpText Engine Json.

Inductive NetworkAddressFamily := Ipv4 | Ipv6.
#[export] Instance NetworkAddressFamily_eq_dec : EqDecision NetworkAddressFamily.
Proof. solve_decision. Defined.

Record NetworkAddressEntry := { na_family : NetworkAddressFamily; na_address : str; na_prefix_length : Z }.
#[export] Instance NetworkAddressEntry_eq_dec : EqDecision NetworkAddressEntry.
Proof. solve_decision. Defined.

Record NetworkInterfaceEntry := {
  ni_ifindex : Z;
  ni_name : str;
  ni_oper_state : option str;
  ni_mtu : option Z;
  ni_addresses : list NetworkAddressEntry
}.

Record NetworkSnapshot := {
  ns_host_id : HostId;
  ns_host_session_id : HostSessionId;
  ns_observed_at : str;
  ns_entries : list NetworkInterfaceEntry
}.

Definition MAX_INTERFACES : Z := 128.
Definition MAX_ADDRESSES : Z := 512.
Definition MAX_IFNAME_BYTES : Z := 64.
Definition MAX_STATE_BYTES : Z := 32.
Definition MAX_RAW_IP_BYTES : Z := 64.

Definition network_invalid : AppError := app_error Discovery "The host returned an invalid network inventory.".

(** ** The raw records *)

Record RawAddress := { ra_family : option str; ra_family_index : option Z; ra_local : option str; ra_prefixlen : option Z }.
Definition raw_address (j : Json) : option RawAddress :=
  f ← struct_fields false [lit "family"; lit "family_index"; lit "local"; lit "prefixlen"] j;
  family ← present as_string f 0;
  family_index ← present as_json_u32 f 1;
  local ← optional as_string f 2;
  prefixlen ← optional as_json_u16 f 3;
  Some {| ra_family := family; ra_family_index := family_index; ra_local := local; ra_prefixlen := prefixlen |}.

Record RawInterface := {
  ri_ifindex : Z; ri_ifname : str; ri_addr_info : list RawAddress; ri_mtu : option Z; ri_operstate : option str }.
Definition raw_interface (j : Json) : option RawInterface :=
  f ← struct_fields false [lit "ifindex"; lit "ifname"; lit "addr_info"; lit "mtu"; lit "operstate"] j;
  ifindex ← required as_json_u32 f 0;
  ifname ← required as_string f 1;
  addr_info ← required (as_list raw_address) f 2;
  mtu ← optional as_json_u32 f 3;
  operstate ← optional as_string f 4;
  Some {| ri_ifindex := ifindex; ri_ifname := ifname; ri_addr_info := addr_info; ri_mtu := mtu; ri_operstate := operstate |}.

(** ** Validation *)

Definition unsafe_token_char (c : char) : bool :=
  is_control c || is_whitespace c
  || (c =? 0x61c) || (c =? 0x200e) || (c =? 0x200f) || between 0x202a 0x202e c || between 0x2066 0x2069 c
  || between 0x200b 0x200d c || (c =? 0x2060) || (c =? 0xfeff).

Definition display_token (value : str) (max_bytes : Z) : Res unit :=
  ensure (is_empty value || (max_bytes <? len value) || existsb unsafe_token_char value) network_invalid.

Definition ip_family (a : IpAddr) : NetworkAddressFamily := match a with V4 _ _ _ _ => Ipv4 | V6 _ => Ipv6 end.
Definition family_width (f : NetworkAddressFamily) : Z := match f with Ipv4 => 32 | Ipv6 => 128 end.

Definition parse_address (raw : RawAddress) : Res (option NetworkAddressEntry) :=
  let check family :=
    local ← ok_or (ra_local raw) network_invalid;
    prefix ← ok_or (ra_prefixlen raw) network_invalid;
    _ ← ensure (is_empty local || (MAX_RAW_IP_BYTES <? len local)) network_invalid;
    address ← ok_or (parse_ip local) network_invalid;
    _ ← ensure (negb (bool_decide (ip_family address = family) && (prefix <=? family_width family))) network_invalid;
    prefix_length ← ok_or (if prefix <=? u8_max then Some prefix else None) network_invalid;
    Ok (Some {| na_family := family; na_address := show_ip address; na_prefix_length := prefix_length |}) in
  match ra_family raw, ra_family_index raw with
  | Some f, None =>
      if str_eqb f (lit "inet") then check Ipv4 else
      if str_eqb f (lit "inet6") then check Ipv6 else Ok None
  | None, Some _ => Ok None
  | _, _ => Err network_invalid
  end.

(** The loop over the addresses of one interface; [seen] are its accepted
    ones. *)
Fixpoint parse_addresses (raw : list RawAddress) (seen : list NetworkAddressEntry) : Res (list NetworkAddressEntry) :=
  match raw with
  | [] => Ok []
  | r :: rest =>
      a ← parse_address r;
      match a with
      | None => parse_addresses rest seen
      | Some a =>
          _ ← ensure (bool_decide (a ∈ seen)) network_invalid;
          more ← parse_addresses rest (a :: seen);
          Ok (a :: more)
      end
  end.

(** The loop over the interfaces. *)
Fixpoint parse_interfaces (raw : list RawInterface) (indexes : list Z) (names : list str) (count : Z) : Res (list NetworkInterfaceEntry) :=
  match raw with
  | [] => Ok []
  | i :: rest =>
      _ ← display_token (ri_ifname i) MAX_IFNAME_BYTES;
      _ ← ensure ((ri_ifindex i =? 0) || bool_decide (ri_ifindex i ∈ indexes) || bool_decide (ri_ifname i ∈ names)) network_invalid;
      _ ← match ri_operstate i with Some state => display_token state MAX_STATE_BYTES | None => Ok tt end;
      count ← ok_or (checked_add count (zlen (ri_addr_info i))) network_invalid;
      _ ← ensure (MAX_ADDRESSES <? count) network_invalid;
      addresses ← parse_addresses (ri_addr_info i) [];
      entries ← parse_interfaces rest (ri_ifindex i :: indexes) (ri_ifname i :: names) count;
      Ok ({| ni_ifindex := ri_ifindex i; ni_name := ri_ifname i; ni_oper_state := ri_operstate i; ni_mtu := ri_mtu i;
             ni_addresses := addresses |} :: entries)
  end.

Section Parser.
(** [serde_json::from_str] as far as the syntax goes. *)
Context (json : str → option Json).

Definition parse_network (output : str) : Res (list NetworkInterfaceEntry) :=
  raw ← ok_or (json output ≫= as_list raw_interface) network_invalid;
  _ ← ensure (MAX_INTERFACES <? zlen raw) network_invalid;
  parse_interfaces raw [] [] 0.

Definition observe_network (session : Session) (cancelled : bool) (uuid observed_at : str) (h : HostId) (hs : HostSessionId) : Res NetworkSnapshot :=
  output ← (execute engine_default session (engine_plan uuid NetworkAddresses) cancelled).1;
  entries ← parse_network output;
  Ok {| ns_host_id := h; ns_host_session_id := hs; ns_observed_at := observed_at; ns_entries := entries |}.
End Parser.

(** ** What is accepted *)

Definition safe_text (max : Z) (v : str) : Prop := v ≠ [] ∧ len v ≤ max ∧ ∀ c, c ∈ v → unsafe_token_char c = false.

Lemma display_token_ok v max u : display_token v max = Ok u ↔ safe_text max v.
Proof.
  unfold display_token, safe_text. rewrite ensure_ok, !orb_false_iff, is_empty_false, existsb_false, Z.ltb_ge. naive_solver.
Qed.

(** A canonical address with a prefix that fits its family. *)
Definition canonical_address (a : NetworkAddressEntry) : Prop :=
  ∃ ip, ip_ok ip ∧ ip_family ip = na_family a ∧ na_address a = show_ip ip ∧ parse_ip (na_address a) = Some ip ∧
    na_prefix_length a ≤ family_width (na_family a) ∧ na_prefix_length a ≤ u8_max.

Record interface_ok (i : NetworkInterfaceEntry) : Prop := {
  io_index : ni_ifindex i ≠ 0;
  io_name : safe_text MAX_IFNAME_BYTES (ni_name i);
  io_state : ∀ s, ni_oper_state i = Some s → safe_text MAX_STATE_BYTES s;
  io_addresses : Forall canonical_address (ni_addresses i);
  io_distinct : NoDup (ni_addresses i)
}.

Lemma parse_address_ok raw a : parse_address raw = Ok (Some a) → canonical_address a.
Proof.
  unfold parse_address. destruct (ra_family raw) as [f|]; [|by destruct (ra_family_index raw)].
  destruct (ra_family_index raw); [done|].
  assert (∀ fam, (local ← ok_or (ra_local raw) network_invalid; prefix ← ok_or (ra_prefixlen raw) network_invalid;
    _ ← ensure (is_empty local || (MAX_RAW_IP_BYTES <? len local)) network_invalid; address ← ok_or (parse_ip local) network_invalid;
    _ ← ensure (negb (bool_decide (ip_family address = fam) && (prefix <=? family_width fam))) network_invalid;
    prefix_length ← ok_or (if prefix <=? u8_max then Some prefix else None) network_invalid;
    Ok (Some {| na_family := fam; na_address := show_ip address; na_prefix_length := prefix_length |})) = Ok (Some a) → canonical_address a) as H.
  { intros fam (local & _ & (prefix & _ & (? & _ & (ip & Hip%ok_or_ok & (? & Hf%ensure_ok & (p & Hp & [= <-])%bind_ok)%bind_ok)%bind_ok)%bind_ok)%bind_ok)%bind_ok.
    apply ok_or_ok in Hp. case_match; simplify_eq. split_bools. exists ip. cbn. pose proof (parse_ip_ok _ _ Hip) as Hok.
    split; [done|]. split; [done|]. split; [done|]. split; [by apply ip_text_roundtrip|]. by subst. }
  destruct (str_eqb f (lit "inet")); [apply H|]. destruct (str_eqb f (lit "inet6")); [apply H|done].
Qed.

Lemma parse_addresses_ok raw seen l : parse_addresses raw seen = Ok l →
  Forall canonical_address l ∧ NoDup l ∧ (∀ a, a ∈ l → a ∉ seen) ∧ zlen l ≤ zlen raw.
Proof.
  revert seen l. induction raw as [|r raw IH]; intros seen l; cbn; [intros [= <-]; repeat split; [constructor|constructor|by intros ? ?%elem_of_nil|done]|].
  intros ([a|] & Ha & H)%bind_ok.
  - apply bind_ok in H as (? & Hd%ensure_ok & (more & Hm & [= <-])%bind_ok). apply IH in Hm as (H1 & H2 & H3 & H4). split_bools.
    split; [constructor; [by eapply parse_address_ok|done]|]. split; [constructor; [|done]|].
    { intros Hin. apply (H3 a Hin). apply list_elem_of_here. }
    split; [|cbn; lia]. intros b [->|Hb]%elem_of_cons; [done|]. intros Hs. apply (H3 b Hb). by apply list_elem_of_further.
  - apply IH in H as (H1 & H2 & H3 & H4). repeat split; try done. lia.
Qed.

Lemma parse_interfaces_ok raw ixs nms n l : parse_interfaces raw ixs nms n = Ok l → 0 ≤ n ≤ MAX_ADDRESSES →
  Forall interface_ok l ∧ NoDup (map ni_ifindex l) ∧ NoDup (map ni_name l) ∧
  (∀ i, i ∈ l → ni_ifindex i ∉ ixs ∧ ni_name i ∉ nms) ∧ length l = length raw ∧
  n + zlen (concat (map ni_addresses l)) ≤ MAX_ADDRESSES.
Proof.
  revert ixs nms n l. induction raw as [|i raw IH]; intros ixs nms n l; cbn.
  - intros [= <-] Hn. cbn. split; [constructor|]. split; [constructor|]. split; [constructor|]. split; [by intros ? ?%elem_of_nil|]. split; [done|lia].
  - intros ([] & Hname%display_token_ok & (? & Hd%ensure_ok & (u & Hst & (c & Hc & (? & Hmax%ensure_ok & (addrs & Ha & (more & Hm & [= <-])%bind_ok)%bind_ok)%bind_ok)%bind_ok)%bind_ok)%bind_ok)%bind_ok Hn.
    apply ok_or_ok, checked_add_spec in Hc as [-> _]. split_bools. apply IH in Hm as (M1 & M2 & M3 & M4 & M5 & M6); [|unfold MAX_ADDRESSES in *; lia].
    apply parse_addresses_ok in Ha as (A1 & A2 & _ & A4).
    split; [constructor; [|done]; split; cbn; try done; intros s Es; rewrite Es in Hst; by eapply display_token_ok|].
    assert (∀ j, j ∈ more → ni_ifindex j ≠ ri_ifindex i ∧ ni_name j ≠ ri_ifname i) as Hne.
    { intros j [Hj1 Hj2]%M4. split; intros E; rewrite E in *; [apply Hj1|apply Hj2]; apply list_elem_of_here. }
    split; [cbn; constructor; [intros (j & E & Hj)%list_elem_of_fmap; by destruct (Hne j Hj)|done]|].
    split; [cbn; constructor; [intros (j & E & Hj)%list_elem_of_fmap; by destruct (Hne j Hj)|done]|].
    split; [|split; [cbn; lia|cbn; rewrite length_app; lia]].
    intros j [->|Hj]%elem_of_cons; cbn; [by split|]. destruct (M4 j Hj) as [Hj1 Hj2]. split; intros Hin; [apply Hj1|apply Hj2]; by apply list_elem_of_further.
Qed.

(** [C25] A published network inventory is well-formed.  Whatever the host
    prints and however the library reads it, an accepted inventory has at most
    128 interfaces and 512 addresses, distinct non-zero indexes and distinct
    names without control, white-space or invisible characters; every address
    is the canonical text of an address of its family with a prefix of its
    width, and no interface has one twice. *)
Theorem network_inventory_well_formed json output l : parse_network json output = Ok l →
  Forall interface_ok l ∧ NoDup (map ni_ifindex l) ∧ NoDup (map ni_name l) ∧
  zlen l ≤ MAX_INTERFACES ∧ zlen (concat (map ni_addresses l)) ≤ MAX_ADDRESSES.
Proof.
  intros (raw & _ & (? & Hm%ensure_ok & H)%bind_ok)%bind_ok. split_bools.
  apply parse_interfaces_ok in H as (M1 & M2 & M3 & _ & M5 & M6); [|unfold MAX_ADDRESSES; lia].
  split; [done|]. split; [done|]. split; [done|]. split; [rewrite M5; lia|lia].
Qed.

(** Two interfaces, one of them with an address of each family and one of a
    family that is skipped. *)
Definition sample_interfaces : Json :=
  JArray [
    JObject [(lit "ifindex", JInt 1); (lit "ifname", JString (lit "lo"));
      (lit "addr_info", JArray [JObject [(lit "family", JString (lit "inet")); (lit "local", JString (lit "127.0.0.1")); (lit "prefixlen", JInt 8)]])];
    JObject [(lit "ifindex", JInt 2); (lit "ifname", JString (lit "eth0")); (lit "mtu", JInt 1500); (lit "operstate", JString (lit "UP"));
      (lit "link_type", JString (lit "ether"));
      (lit "addr_info", JArray [
        JObject [(lit "family", JString (lit "inet6")); (lit "local", JString (lit "2001:0db8::1")); (lit "prefixlen", JInt 64)];
        JObject [(lit "family_index", JInt 19)]])]].

Lemma network_inventory_well_formed_witness : ∃ l, parse_network (λ _, Some sample_interfaces) [] = Ok l ∧ NoDup (map ni_name l) ∧ length l = 2%nat.
Proof. eexists. split; [vm_compute; reflexivity|]. split; [|reflexivity]. apply (network_inventory_well_formed (λ _, Some sample_interfaces) []). vm_compute. reflexivity. Defined.
