(* ===== verification/Routes.v ===== *)
(** The main-table routes of a host ([nexus-discovery/src/routes.rs]).

    The destination of a route is read as an address and a prefix length and
    published in canonical form; the text of a published destination is read
    back as itself. *)

From S2P Require Import Prelude Str Model Ip IpText Engine Json Interfaces.

Record NetworkRouteEntry := {
  rt_family : NetworkAddressFamily;
  rt_destination : str;
  rt_gateway : option str;
  rt_interface : str;
  rt_metric : option Z;
  rt_on_link : bool;
  rt_link_down : bool;
  rt_preference : option str
}.
#[export] Instance NetworkRouteEntry_eq_dec : EqDecision NetworkRouteEntry.
Proof. solve_decision. Defined.

Record NetworkRouteSnapshot := {
  rs_host_id : HostId;
  rs_host_session_id : HostSessionId;
  rs_observed_at : str;
  rs_entries : list NetworkRouteEntry
}.

Definition MAX_ROUTES : Z := 128.
Definition MAX_ROUTE_OUTPUT_BYTES : Z := 64 * 1024.

Definition routes_invalid : AppError :=
  app_error Discovery "The host returned an invalid or unsupported main-table route inventory.".
Definition routes_cancelled : AppError := app_error Cancelled "The route observation was cancelled.".

(** ** The raw records *)

(** [Protocol] and [Table] are untagged: a string or a [u32]. *)
Inductive NameOrNumber := Name (s : str) | Number (n : Z).
Definition name_or_number (j : Json) : option NameOrNumber :=
  match as_string j with Some s => Some (Name s) | None => Number <$> as_json_u32 j end.

Record RawRoute := {
  rr_dst : str; rr_dev : str; rr_gateway : option str; rr_metric : option Z; rr_kind : option str;
  rr_protocol : option NameOrNumber; rr_scope : option str; rr_prefsrc : option str; rr_table : option NameOrNumber;
  rr_flags : option (list str); rr_pref : option str }.

Definition route_fields : list str :=
  [lit "dst"; lit "dev"; lit "gateway"; lit "metric"; lit "type"; lit "protocol"; lit "scope"; lit "prefsrc"; lit "table"; lit "flags"; lit "pref"].

Definition raw_route (j : Json) : option RawRoute :=
  f ← struct_fields true route_fields j;
  dst ← required as_string f 0;
  dev ← required as_string f 1;
  gateway ← present as_string f 2;
  metric ← present as_json_u32 f 3;
  kind ← present as_string f 4;
  protocol ← present name_or_number f 5;
  scope ← present as_string f 6;
  prefsrc ← present as_string f 7;
  table ← present name_or_number f 8;
  flags ← present (as_list as_string) f 9;
  pref ← present as_string f 10;
  Some {| rr_dst := dst; rr_dev := dev; rr_gateway := gateway; rr_metric := metric; rr_kind := kind; rr_protocol := protocol;
          rr_scope := scope; rr_prefsrc := prefsrc; rr_table := table; rr_flags := flags; rr_pref := pref |}.

(** ** Tokens, addresses and destinations *)

Definition token (value : str) (bound : Z) : bool :=
  negb (is_empty value) && (len value <=? bound) &&
  forallb (λ c, is_ascii_alphanumeric c || (c =? ch "_") || (c =? ch "-") || (c =? ch ".") || (c =? ch ":") || (c =? ch "@")) value.

Definition address (value : str) (family : NetworkAddressFamily) : Res IpAddr :=
  _ ← ensure (64 <? len value) routes_invalid;
  ip ← ok_or (parse_ip value) routes_invalid;
  _ ← ensure (negb (bool_decide (ip_family ip = family))) routes_invalid;
  Ok ip.

(** [max - prefix] bits of ones; the code writes the full 128 separately
    because the shift would overflow [u128]. *)
Definition host_mask (bits : Z) : Z := if bits =? 128 then 2 ^ 128 - 1 else Z.shiftl 1 bits - 1.

Definition destination (value : str) (family : NetworkAddressFamily) : Res str :=
  if str_eqb value (lit "default") then Ok value else
  _ ← ensure (68 <? len value) routes_invalid;
  let max := family_width family in
  rp ← match split_once (ch "/") value with
       | Some (raw, prefix) =>
           _ ← ensure (is_empty prefix || negb (forallb is_ascii_digit prefix)) routes_invalid;
           p ← ok_or (parse_u32 prefix) routes_invalid;
           Ok (raw, p)
       | None => Ok (value, max)
       end;
  let '(raw, prefix) := rp in
  _ ← ensure (max <? prefix) routes_invalid;
  ip ← address raw family;
  _ ← ensure (negb (Z.land (ip_bits ip) (host_mask (max - prefix)) =? 0)) routes_invalid;
  Ok (if prefix =? 0 then lit "default" else show_ip ip ++ ch "/" :: show_dec prefix).

(** ** Rows *)

Definition known (allowed : list str) (value : option str) : bool :=
  match value with Some v => str_in v allowed | None => true end.

Fixpoint route_flags (flags : list str) (seen : list str) : Res (list str) :=
  match flags with
  | [] => Ok seen
  | flag :: rest =>
      _ ← ensure (negb (str_in flag [lit "onlink"; lit "linkdown"]) || str_in flag seen) routes_invalid;
      route_flags rest (flag :: seen)
  end.

(** The checks of one row, in the order of the code, and its entry. *)
Definition parse_route (family : NetworkAddressFamily) (r : RawRoute) : Res NetworkRouteEntry :=
  _ ← ensure (negb (token (rr_dev r) 64) || negb (known [lit "unicast"] (rr_kind r))) routes_invalid;
  _ ← match rr_protocol r with
      | Some (Name n) => ensure (negb (token n 32)) routes_invalid
      | Some (Number n) => ensure (255 <? n) routes_invalid
      | None => Ok tt
      end;
  _ ← ensure (negb (known [lit "global"; lit "universe"; lit "link"; lit "host"] (rr_scope r))) routes_invalid;
  _ ← match rr_prefsrc r with Some source => _ ← address source family; Ok tt | None => Ok tt end;
  _ ← match rr_table r with
      | Some (Name n) => ensure (negb (str_eqb n (lit "main"))) routes_invalid
      | Some (Number n) => ensure (negb (n =? 254)) routes_invalid
      | None => Ok tt
      end;
  flags ← route_flags (default [] (rr_flags r)) [];
  _ ← ensure (match rr_pref r with
              | Some _ => negb (bool_decide (family = Ipv6)) || negb (known [lit "low"; lit "medium"; lit "high"] (rr_pref r))
              | None => false
              end) routes_invalid;
  dest ← destination (rr_dst r) family;
  gateway ← match rr_gateway r with Some g => ip ← address g family; Ok (Some (show_ip ip)) | None => Ok None end;
  Ok {| rt_family := family; rt_destination := dest; rt_gateway := gateway; rt_interface := rr_dev r; rt_metric := rr_metric r;
        rt_on_link := str_in (lit "onlink") flags; rt_link_down := str_in (lit "linkdown") flags; rt_preference := rr_pref r |}.

Definition route_identity (e : NetworkRouteEntry) : str * option str * str * option Z :=
  (rt_destination e, rt_gateway e, rt_interface e, rt_metric e).

Fixpoint parse_rows (family : NetworkAddressFamily) (raw : list RawRoute) (identities : list (str * option str * str * option Z))
    : Res (list NetworkRouteEntry) :=
  match raw with
  | [] => Ok []
  | r :: rest =>
      e ← parse_route family r;
      _ ← ensure (bool_decide (route_identity e ∈ identities)) routes_invalid;
      more ← parse_rows family rest (route_identity e :: identities);
      Ok (e :: more)
  end.

Section Parser.
(** [serde_json::from_str] as far as the syntax goes. *)
Context (json : str → option Json).

Definition parse_routes (output : str) (family : NetworkAddressFamily) : Res (list NetworkRouteEntry) :=
  _ ← ensure (MAX_ROUTE_OUTPUT_BYTES <? len output) routes_invalid;
  raw ← ok_or (json output ≫= as_list raw_route) routes_invalid;
  _ ← ensure (MAX_ROUTES <? zlen raw) routes_invalid;
  parse_rows family raw [].

(** Whether the observation is cancelled is read at each command and at the
    end. *)
Definition observe_routes (session : Session) (c4 c6 c_end : bool) (uuid4 uuid6 observed_at : str) (h : HostId) (hs : HostSessionId)
    : Res NetworkRouteSnapshot :=
  out4 ← (execute engine_default session (engine_plan uuid4 NetworkRoutesV4) c4).1;
  v4 ← parse_routes out4 Ipv4;
  _ ← ensure (MAX_ROUTES <? zlen v4) routes_invalid;
  out6 ← (execute engine_default session (engine_plan uuid6 NetworkRoutesV6) c6).1;
  v6 ← parse_routes out6 Ipv6;
  let entries := v4 ++ v6 in
  _ ← ensure (MAX_ROUTES <? zlen entries) routes_invalid;
  _ ← ensure c_end routes_cancelled;
  Ok {| rs_host_id := h; rs_host_session_id := hs; rs_observed_at := observed_at; rs_entries := entries |}.
End Parser.

(** ** Canonical destinations *)

Lemma host_mask_ones n : 0 ≤ n ≤ 128 → host_mask n = Z.ones n.
Proof.
  intros Hn. unfold host_mask. rewrite Z.ones_equiv, Z.shiftl_mul_pow2 by lia. case_match eqn:E; [|lia]. apply Z.eqb_eq in E as ->. lia.
Qed.

(** No bit of the address is set below the prefix. *)
Definition network_of (ip : IpAddr) (prefix : Z) : Prop := ip_bits ip mod 2 ^ (ip_width ip - prefix) = 0.

Lemma host_bits_clear ip prefix : 0 ≤ prefix ≤ ip_width ip →
  Z.land (ip_bits ip) (host_mask (ip_width ip - prefix)) = 0 ↔ network_of ip prefix.
Proof.
  intros Hp. assert (ip_width ip ≤ 128) by (destruct ip; cbn; lia). rewrite host_mask_ones, Z.land_ones by lia. done.
Qed.

(** The destinations that are published. *)
Definition canonical_destination (family : NetworkAddressFamily) (d : str) : Prop :=
  d = lit "default" ∨
  ∃ ip prefix, ip_ok ip ∧ ip_family ip = family ∧ 0 < prefix ≤ family_width family ∧ network_of ip prefix ∧
    d = show_ip ip ++ ch "/" :: show_dec prefix.

Lemma ip_width_family ip : ip_width ip = family_width (ip_family ip).
Proof. by destruct ip. Qed.

Lemma address_ok v f ip : address v f = Ok ip ↔ len v ≤ 64 ∧ parse_ip v = Some ip ∧ ip_family ip = f.
Proof.
  unfold address. split.
  - intros (? & H1%ensure_ok & (x & H2%ok_or_ok & (? & H3%ensure_ok & [= ->])%bind_ok)%bind_ok)%bind_ok. split_bools. done.
  - intros (H1 & -> & <-). rewrite (proj2 (Z.ltb_ge _ _)) by done. cbn. by rewrite bool_decide_eq_true_2.
Qed.

Lemma destination_canonical v f d : destination v f = Ok d → canonical_destination f d.
Proof.
  unfold destination. destruct (str_eqb v (lit "default")) eqn:Ed; [apply str_eqb_eq in Ed as ->; intros [= <-]; by left|].
  intros (? & _ & ([raw prefix] & Hrp & (? & Hp%ensure_ok & (ip & Hip%address_ok & (? & Hb%ensure_ok & [= <-])%bind_ok)%bind_ok)%bind_ok)%bind_ok)%bind_ok.
  assert (0 ≤ prefix) as Hpos.
  { destruct (split_once (ch "/") v) as [[r p]|]; [|injection Hrp as <- <-; by destruct f].
    apply bind_ok in Hrp as (? & _ & (q & Hq%ok_or_ok & [= <- <-])%bind_ok). apply parse_unsigned_bounds in Hq; lia. }
  destruct Hip as (_ & Hip & Hf). split_bools. destruct (Z.eqb_spec prefix 0) as [E0|E0]; [by left|]. right.
  exists ip, prefix. split; [by eapply parse_ip_ok|]. split; [done|]. split; [lia|]. split; [|done].
  apply host_bits_clear; rewrite ip_width_family, Hf; [lia|done].
Qed.

Lemma slash_not_in_ip ip : ip_ok ip → ch "/" ∉ show_ip ip.
Proof.
  intros H Hin. pose proof (show_ip_chars ip H) as Hc. rewrite forallb_true in Hc. by apply Hc in Hin.
Qed.

Lemma slash_in_default : ch "/" ∉ lit "default".
Proof. apply (bool_decide_unpack _). vm_compute. exact I. Qed.

Lemma destination_of_canonical f d : canonical_destination f d → destination d f = Ok d.
Proof.
  unfold destination. intros [->|(ip & prefix & Hok & Hf & Hp & Hn & Ed)]; [reflexivity|].
  destruct (str_eqb d (lit "default")) eqn:E; [done|]. clear E.
  assert (family_width f ≤ 128) by (destruct f; cbn; lia).
  destruct (show_dec_byte prefix ltac:(lia)) as (D1 & D2 & D3 & D4).
  assert (len d ≤ 46) as Hlen.
  { rewrite Ed, len_app. pose proof (show_ip_len ip Hok). cbn [len]. rewrite (len_ascii (show_dec prefix)); [change (utf8_width (ch "/")) with 1; lia|].
    rewrite forallb_true in *. intros c Hc%D1. revert Hc. unfold is_ascii_digit, is_ascii, between. lia. }
  rewrite (proj2 (Z.ltb_ge 68 _)) by lia.
  assert (split_once (ch "/") d = Some (show_ip ip, show_dec prefix)) as -> by (apply split_once_some; split; [done|by apply slash_not_in_ip]).
  rewrite (proj2 (is_empty_false _) D3), D1. cbn [orb negb ensure mbind result_bind].
  assert (parse_u32 (show_dec prefix) = Some prefix) as ->.
  { unfold parse_u32. rewrite parse_unsigned_digits, D4 by done. cbn. by rewrite (proj2 (Z.leb_le _ _)) by (unfold u32_max; lia). }
  cbn [ok_or mbind result_bind]. rewrite (proj2 (Z.ltb_ge _ prefix)) by lia. cbn [ensure mbind result_bind].
  assert (address (show_ip ip) f = Ok ip) as -> by (apply address_ok; pose proof (show_ip_len ip Hok); split; [lia|]; split; [by apply ip_text_roundtrip|done]).
  cbn [mbind result_bind]. apply host_bits_clear in Hn; [|rewrite ip_width_family, Hf; lia]. rewrite ip_width_family, Hf in Hn. rewrite Hn. cbn.
  rewrite (proj2 (Z.eqb_neq prefix 0)) by lia. by rewrite Ed.
Qed.

(** [C27] Published destinations are exactly the canonical ones: the default
    route, or the canonical text of a network address of the family with no bit
    set below its prefix length.  Each of them is read back as itself, so that
    two texts of one network are recognised as the same destination. *)
Theorem published_destinations f d :
  ((∃ v, destination v f = Ok d) ↔ canonical_destination f d) ∧ ((∃ v, destination v f = Ok d) ↔ destination d f = Ok d).
Proof.
  split; split.
  - intros [v H]. by eapply destination_canonical.
  - intros H. exists d. by apply destination_of_canonical.
  - intros [v H]. by eapply destination_of_canonical, destination_canonical.
  - intros H. by exists d.
Qed.

(** ** Whole inventories *)

Record route_ok (f : NetworkAddressFamily) (r : RawRoute) (e : NetworkRouteEntry) : Prop := {
  ro_family : rt_family e = f;
  ro_destination : canonical_destination f (rt_destination e) ∧ destination (rr_dst r) f = Ok (rt_destination e);
  ro_gateway : match rr_gateway r with
               | Some g => ∃ ip, parse_ip g = Some ip ∧ ip_family ip = f ∧ rt_gateway e = Some (show_ip ip)
               | None => rt_gateway e = None
               end;
  ro_metric : rt_metric e = rr_metric r;
  ro_device : rt_interface e = rr_dev r ∧ token (rt_interface e) 64 = true;
  ro_flags : (rt_on_link e = true ↔ lit "onlink" ∈ default [] (rr_flags r)) ∧ (rt_link_down e = true ↔ lit "linkdown" ∈ default [] (rr_flags r));
  ro_table : match rr_table r with Some (Name n) => n = lit "main" | Some (Number n) => n = 254 | None => True end;
  ro_preference : rt_preference e = rr_pref r ∧ (rt_preference e ≠ None → f = Ipv6)
}.

Lemma route_flags_ok flags seen l : route_flags flags seen = Ok l → ∀ x, x ∈ l ↔ x ∈ seen ∨ x ∈ flags.
Proof.
  revert seen. induction flags as [|a flags IH]; cbn; intros seen; [intros [= <-] x; rewrite elem_of_nil; tauto|].
  intros (u & _ & H)%bind_ok x. rewrite (IH _ H x), !elem_of_cons. tauto.
Qed.

Lemma parse_route_ok f r e : parse_route f r = Ok e → route_ok f r e.
Proof.
  intros (? & Hdev%ensure_ok & (? & _ & (? & _ & (? & _ & (u & Ht & (flags & Hf & (? & Hp%ensure_ok & (dest & Hd & (gw & Hg & [= <-])%bind_ok)%bind_ok)%bind_ok)%bind_ok)%bind_ok)%bind_ok)%bind_ok)%bind_ok)%bind_ok.
  apply orb_false_iff in Hdev as [Hdev%negb_false_iff _]. pose proof (route_flags_ok _ _ _ Hf) as Hfl.
  split; cbn; try done.
  - split; [by eapply destination_canonical|done].
  - destruct (rr_gateway r) as [g|]; [|by injection Hg as <-]. apply bind_ok in Hg as (ip & (_ & Hip & Hfam)%address_ok & [= <-]). eauto.
  - rewrite !str_in_true, !Hfl. rewrite !elem_of_nil. tauto.
  - destruct (rr_table r) as [[n|n]|]; [| |done]; apply ensure_ok in Ht; split_bools; [by apply str_eqb_eq|done].
  - split; [done|]. destruct (rr_pref r); [|done]. intros _. apply orb_false_iff in Hp as [Hp _]. by split_bools.
Qed.

Lemma parse_rows_ok f raw ids l : parse_rows f raw ids = Ok l →
  Forall2 (route_ok f) raw l ∧ NoDup (map route_identity l) ∧ ∀ e, e ∈ l → route_identity e ∉ ids.
Proof.
  revert ids l. induction raw as [|r raw IH]; intros ids l; cbn; [intros [= <-]; split; [constructor|]; split; [constructor|by intros ? ?%elem_of_nil]|].
  intros (e & He%parse_route_ok & (? & Hd%ensure_ok & (more & (H1 & H2 & H3)%IH & [= <-])%bind_ok)%bind_ok)%bind_ok. split_bools.
  split; [by constructor|]. split.
  - cbn. constructor; [|done]. intros (e' & E & Hin)%list_elem_of_fmap. apply (H3 e' Hin). rewrite <-E. apply list_elem_of_here.
  - intros e' [->|Hin]%elem_of_cons; [done|]. intros Hs. apply (H3 e' Hin). by apply list_elem_of_further.
Qed.

(** [C26] No row is omitted or merged.  An accepted inventory has one entry per
    row of the host's output, in order: the canonical destination and gateway of
    that row, its device, its metric, its flags, and its router preference, which
    only IPv6 has; the rows are of the main table, at most 128, and no two have
    the same destination, gateway, device and metric. *)
Theorem routes_are_complete json output f l : parse_routes json output f = Ok l →
  ∃ raw, (json output ≫= as_list raw_route) = Some raw ∧ Forall2 (route_ok f) raw l ∧ NoDup (map route_identity l) ∧ zlen l ≤ MAX_ROUTES.
Proof.
  intros (? & _ & (raw & Hraw%ok_or_ok & (? & Hm%ensure_ok & H)%bind_ok)%bind_ok)%bind_ok. exists raw. split; [done|].
  destruct (parse_rows_ok _ _ _ _ H) as (H1 & H2 & _). split; [done|]. split; [done|]. rewrite <-(Forall2_length H1). split_bools. lia.
Qed.

Definition sample_routes : Json :=
  JArray [
    JObject [(lit "dst", JString (lit "default")); (lit "gateway", JString (lit "192.0.2.1")); (lit "dev", JString (lit "eth0")); (lit "flags", JArray [JString (lit "onlink")])];
    JObject [(lit "dst", JString (lit "0.0.0.0/0")); (lit "gateway", JString (lit "198.51.100.1")); (lit "dev", JString (lit "eth1")); (lit "metric", JInt 200)];
    JObject [(lit "dst", JString (lit "203.0.113.1")); (lit "dev", JString (lit "eth2")); (lit "type", JString (lit "unicast")); (lit "table", JInt 254)]].

Lemma routes_are_complete_witness : ∃ l, parse_routes (λ _, Some sample_routes) [] Ipv4 = Ok l ∧
  map rt_destination l = [lit "default"; lit "default"; lit "203.0.113.1/32"] ∧ map rt_metric l = [None; Some 200; None] ∧ NoDup (map route_identity l).
Proof.
  eexists. split; [vm_compute; reflexivity|]. split; [reflexivity|]. split; [reflexivity|].
  match goal with |- NoDup (map route_identity ?l) =>
    destruct (routes_are_complete (λ _, Some sample_routes) [] Ipv4 l) as (? & _ & _ & H & _); [vm_compute; reflexivity|exact H] end.
Defined.
