(* ===== verification/ListeningPorts.v ===== *)
(** The listening sockets of a host ([nexus-discovery/src/listening_ports.rs]):
    the six columns of [ss -H -lntu], read into canonical entries.  A canonical
    row printed from an entry is read back as that entry. *)

From S2P Require Import Prelude Str Model Ip IpText Engine.

Inductive ListeningSocketProtocol := Tcp | Udp.
Inductive ListeningSocketFamily := SocketIpv4 | SocketIpv6 | SocketUnknown.
Inductive ListeningSocketState := Listen | Unconn.
#[export] Instance ListeningSocketProtocol_eq_dec : EqDecision ListeningSocketProtocol.
Proof. solve_decision. Defined.
#[export] Instance ListeningSocketFamily_eq_dec : EqDecision ListeningSocketFamily.
Proof. solve_decision. Defined.
#[export] Instance ListeningSocketState_eq_dec : EqDecision ListeningSocketState.
Proof. solve_decision. Defined.

Record ListeningSocketEntry := {
  ls_protocol : ListeningSocketProtocol;
  ls_family : ListeningSocketFamily;
  ls_local_address : str;
  ls_port : Z;
  ls_state : ListeningSocketState
}.
#[export] Instance ListeningSocketEntry_eq_dec : EqDecision ListeningSocketEntry.
Proof. solve_decision. Defined.

Record ListeningPortSnapshot := {
  lp_host_id : HostId;
  lp_host_session_id : HostSessionId;
  lp_observed_at : str;
  lp_entries : list ListeningSocketEntry
}.

Definition MAX_PORTS_OUTPUT : Z := 64 * 1024.
Definition MAX_PORTS_LINE : Z := 512.
Definition MAX_ENDPOINT : Z := 128.
Definition MAX_PORT_ROWS : Z := 256.

Definition ports_invalid : AppError :=
  app_error Discovery "The host returned an invalid or unsupported listening-port inventory.".
Definition ports_cancelled : AppError := app_error Cancelled "The listening-port observation was cancelled.".

(** ** Fields *)

Definition decimal (value : str) : Res Z :=
  _ ← ensure (is_empty value || (20 <? len value) || negb (forallb is_ascii_digit value)) ports_invalid;
  ok_or (parse_u64 value) ports_invalid.

(** [s.split_once(p)] of a string pattern. *)
Fixpoint split_once_str (p s : str) : option (str * str) :=
  if starts_with p s then Some ([], drop (length p) s) else
  match s with
  | [] => None
  | x :: s => match split_once_str p s with Some (a, b) => Some (x :: a, b) | None => None end
  end.

Definition endpoint (value : str) : Res (str * str * bool) :=
  _ ← ensure (MAX_ENDPOINT <? len value) ports_invalid;
  match value with
  | 91 :: rest => '(address, port) ← ok_or (split_once_str (lit "]:") rest) ports_invalid; Ok (address, port, true)
  | _ => '(address, port) ← ok_or (rsplit_once (ch ":") value) ports_invalid; Ok (address, port, false)
  end.

Definition scope_char (c : char) : bool := is_ascii_alphanumeric c || (c =? ch "_") || (c =? ch "-") || (c =? ch ".").

Definition socket_address (value : str) (bracketed : bool) : Res (str * ListeningSocketFamily) :=
  if str_eqb value (lit "*") && negb bracketed then Ok (value, SocketUnknown) else
  rs ← match split_once (ch "%") value with
       | Some (raw, scope) =>
           _ ← ensure (is_empty scope || (32 <? len scope) || negb (forallb scope_char scope)) ports_invalid;
           _ ← ensure (forallb is_ascii_digit scope && match parse_u32 scope with None => true | Some index => index =? 0 end) ports_invalid;
           Ok (raw, Some scope)
       | None => Ok (value, None)
       end;
  let '(raw, scope) := rs in
  _ ← ensure (64 <? len raw) ports_invalid;
  ip ← ok_or (parse_ip raw) ports_invalid;
  family ← match ip, bracketed with
           | V4 _ _ _ _, false => Ok SocketIpv4
           | V6 _, _ => Ok SocketIpv6
           | _, _ => Err ports_invalid
           end;
  scope ← match scope with
          | Some v => if forallb is_ascii_digit v then n ← ok_or (parse_u32 v) ports_invalid; Ok (Some (show_dec n)) else Ok (Some v)
          | None => Ok None
          end;
  Ok (match scope with Some s => show_ip ip ++ ch "%" :: s | None => show_ip ip end, family).

Definition local_and_peer (local peer : str) : Res (str * ListeningSocketFamily * Z) :=
  '(raw, port, bracketed) ← endpoint local;
  '(local_address, family) ← socket_address raw bracketed;
  port ← decimal port;
  port ← ok_or (if port <=? u16_max then Some port else None) ports_invalid;
  _ ← ensure (port =? 0) ports_invalid;
  '(raw_peer, peer_port, bracketed_peer) ← endpoint peer;
  _ ← ensure (negb (str_in peer_port [lit "*"; lit "0"]) || contains_char (ch "%") raw_peer) ports_invalid;
  '(peer_address, peer_family) ← socket_address raw_peer bracketed_peer;
  _ ← ensure (negb (str_in peer_address [lit "*"; lit "0.0.0.0"; lit "::"])) ports_invalid;
  _ ← ensure (negb (bool_decide (family = SocketUnknown)) && negb (bool_decide (peer_family = SocketUnknown)) &&
              negb (bool_decide (family = peer_family))) ports_invalid;
  if bool_decide (family = SocketUnknown) && negb (bool_decide (peer_family = SocketUnknown))
  then Ok (peer_address, peer_family, port)
  else Ok (local_address, family, port).

(** ** Rows *)

Definition is_ascii_whitespace (c : char) : bool := (c =? 32) || (c =? 9) || (c =? 10) || (c =? 12) || (c =? 13).
Definition split_ascii_whitespace (s : str) : list str := List.filter (λ w, negb (is_empty w)) (split_on is_ascii_whitespace s).

Fixpoint stray_cr (s : str) : bool :=
  match s with
  | [] => false
  | c :: rest => (c =? 13) && negb (match rest with 10 :: _ => true | _ => false end) || stray_cr rest
  end.

Definition printable (c : char) : bool := (c =? 9) || between 0x20 0x7E c.

(** One line: [None] is a blank one. *)
Definition parse_socket_line (line : str) : Res (option ListeningSocketEntry) :=
  let line := strip_cr line in
  _ ← ensure ((MAX_PORTS_LINE <? len line) || existsb (λ c, negb (printable c)) line) ports_invalid;
  match split_ascii_whitespace line with
  | [] => Ok None
  | [protocol; state; recv_q; send_q; local; peer] =>
      '(protocol, state) ← ok_or (if str_eqb protocol (lit "tcp") && str_eqb state (lit "LISTEN") then Some (Tcp, Listen)
                                  else if str_eqb protocol (lit "udp") && str_eqb state (lit "UNCONN") then Some (Udp, Unconn)
                                  else None) ports_invalid;
      _ ← decimal recv_q;
      _ ← decimal send_q;
      '(local_address, family, port) ← local_and_peer local peer;
      Ok (Some {| ls_protocol := protocol; ls_family := family; ls_local_address := local_address; ls_port := port; ls_state := state |})
  | _ => Err ports_invalid
  end.

Fixpoint parse_socket_lines (ls : list str) (entries : list ListeningSocketEntry) : Res (list ListeningSocketEntry) :=
  match ls with
  | [] => Ok entries
  | l :: rest =>
      e ← parse_socket_line l;
      match e with
      | None => parse_socket_lines rest entries
      | Some e =>
          _ ← ensure ((zlen entries =? MAX_PORT_ROWS) || bool_decide (e ∈ entries)) ports_invalid;
          parse_socket_lines rest (entries ++ [e])
      end
  end.

Definition parse_listening_ports (output : str) : Res (list ListeningSocketEntry) :=
  _ ← ensure ((MAX_PORTS_OUTPUT <? len output) || stray_cr output) ports_invalid;
  parse_socket_lines (split 10 output) [].

(** Whether the observation is cancelled is read at the command and after the
    parse. *)
Definition observe_listening_ports (session : Session) (c c_end : bool) (uuid observed_at : str) (h : HostId) (hs : HostSessionId)
    : Res ListeningPortSnapshot :=
  output ← (execute engine_default session (engine_plan uuid ListeningPorts) c).1;
  entries ← parse_listening_ports output;
  _ ← ensure c_end ports_cancelled;
  Ok {| lp_host_id := h; lp_host_session_id := hs; lp_observed_at := observed_at; lp_entries := entries |}.

(** ** The accepted entries *)

(** A scope in canonical form: a non-zero index without leading zeros, or a
    name. *)
Definition scope_ok (s : str) : Prop :=
  s ≠ [] ∧ len s ≤ 32 ∧ forallb scope_char s = true ∧
  (forallb is_ascii_digit s = true → ∃ n, 0 < n ≤ u32_max ∧ s = show_dec n).

Definition family_of (ip : IpAddr) : ListeningSocketFamily := match ip with V4 _ _ _ _ => SocketIpv4 | V6 _ => SocketIpv6 end.

Definition socket_address_ok (a : str) (f : ListeningSocketFamily) : Prop :=
  (a = lit "*" ∧ f = SocketUnknown) ∨
  ∃ ip, ip_ok ip ∧ f = family_of ip ∧ (a = show_ip ip ∨ ∃ s, scope_ok s ∧ a = show_ip ip ++ ch "%" :: s).

Record socket_ok (e : ListeningSocketEntry) : Prop := {
  so_address : socket_address_ok (ls_local_address e) (ls_family e);
  so_port : 0 < ls_port e ≤ u16_max;
  so_state : (ls_protocol e = Tcp ∧ ls_state e = Listen) ∨ (ls_protocol e = Udp ∧ ls_state e = Unconn)
}.

(** The canonical row of an entry. *)
Definition show_socket (e : ListeningSocketEntry) : str :=
  join 32 [match ls_protocol e with Tcp => lit "tcp" | Udp => lit "udp" end;
           match ls_state e with Listen => lit "LISTEN" | Unconn => lit "UNCONN" end;
           lit "0"; lit "0"; ls_local_address e ++ ch ":" :: show_dec (ls_port e); lit "*:*"].
Definition show_sockets (l : list ListeningSocketEntry) : str := join 10 (map show_socket l).

(** ** Splitting what was joined *)

Lemma split_on_clean p s : (∀ c, c ∈ s → p c = false) → split_on p s = [s].
Proof.
  induction s as [|c s IH]; [done|]. intros H. cbn. rewrite (H c) by apply list_elem_of_here.
  rewrite IH; [done|]. intros x Hx. apply H. by apply list_elem_of_further.
Qed.

Lemma split_on_sep p a c s : (∀ x, x ∈ a → p x = false) → p c = true → split_on p (a ++ c :: s) = a :: split_on p s.
Proof.
  induction a as [|x a IH]; intros H Hc; cbn; [by rewrite Hc|]. rewrite (H x) by apply list_elem_of_here.
  rewrite IH; [done| |done]. intros y Hy. apply H. by apply list_elem_of_further.
Qed.

Lemma split_on_join p c ws : p c = true → ws ≠ [] → (∀ w x, w ∈ ws → x ∈ w → p x = false) → split_on p (join c ws) = ws.
Proof.
  intros Hc. induction ws as [|w ws IH]; [done|]. intros _ H. destruct ws as [|v ws]; cbn [join].
  - apply split_on_clean. intros x. by apply H, list_elem_of_here.
  - rewrite split_on_sep; [|intros x; by apply H, list_elem_of_here|done]. f_equal. apply IH; [done|].
    intros w' x Hw. by apply H, list_elem_of_further.
Qed.

(** ** Addresses *)

Lemma digit_scope c : is_ascii_digit c = true → scope_char c = true.
Proof. unfold scope_char, is_ascii_alphanumeric. by intros ->. Qed.

Lemma digits_ascii s : forallb is_ascii_digit s = true → forallb is_ascii s = true.
Proof. rewrite !forallb_true. intros H c Hc%H. revert Hc. unfold is_ascii_digit, is_ascii, between. lia. Qed.

Lemma scope_ok_number n : 0 < n ≤ u32_max → scope_ok (show_dec n).
Proof.
  intros Hn. destruct (show_dec_spec n 10 ltac:(unfold u32_max in *; cbn; lia) ltac:(lia)) as (H1 & H2 & H3).
  split; [by intros E; rewrite E in H2; cbn in H2; lia|]. split; [rewrite len_ascii by (by apply digits_ascii); lia|].
  split; [|eauto]. rewrite forallb_true in *. intros c Hc. by apply digit_scope, H1.
Qed.

Lemma socket_address_canonical v b a f : socket_address v b = Ok (a, f) → socket_address_ok a f.
Proof.
  unfold socket_address. case_match eqn:Es; [apply andb_prop in Es as [->%str_eqb_eq _]; intros [= <- <-]; by left|].
  intros ([raw scope] & Hrs & (? & _ & (ip & Hip%ok_or_ok%parse_ip_ok & (fam & Hf & (sc & Hsc & [= <- <-])%bind_ok)%bind_ok)%bind_ok)%bind_ok)%bind_ok.
  right. exists ip. split; [done|]. split; [by destruct ip, b; simplify_eq|].
  destruct scope as [s|]; [right|injection Hsc as <-; by left]. destruct (split_once (ch "%") v) as [[r s']|]; [|done].
  apply bind_ok in Hrs as (? & H1%ensure_ok & (? & H2%ensure_ok & [= <- <-])%bind_ok).
  apply orb_false_iff in H1 as [[H1 H3]%orb_false_iff H4%negb_false_iff]. apply is_empty_false in H1. apply Z.ltb_ge in H3.
  destruct (forallb is_ascii_digit s') eqn:Ed; [|injection Hsc as <-; exists s'; split; [|done]; split; [done|]; split; [done|]; split; [done|]; by rewrite Ed].
  apply bind_ok in Hsc as (n & Hn%ok_or_ok & [= <-]). rewrite Hn in H2. cbn in H2. apply Z.eqb_neq in H2.
  exists (show_dec n). split; [|done]. apply scope_ok_number. apply parse_unsigned_bounds in Hn. lia.
Qed.

Lemma percent_not_in_ip ip : ip_ok ip → ch "%" ∉ show_ip ip.
Proof. intros H Hin. pose proof (show_ip_chars ip H) as Hc. rewrite forallb_true in Hc. by apply Hc in Hin. Qed.

Lemma ip_not_star ip t : ip_ok ip → str_eqb (show_ip ip ++ t) (lit "*") = false.
Proof.
  intros H. apply not_true_is_false. intros E%str_eqb_eq. pose proof (ip_text_roundtrip ip H) as Hr. pose proof (show_ip_chars ip H) as Hc.
  destruct (show_ip ip) as [|c s]; [done|]. injection E as -> _. done.
Qed.

Lemma socket_address_of_canonical a f : socket_address_ok a f → socket_address a false = Ok (a, f).
Proof.
  intros [[-> ->]|(ip & Hok & -> & Ha)]; [reflexivity|]. unfold socket_address.
  pose proof (show_ip_len ip Hok) as Hlen. pose proof (ip_text_roundtrip ip Hok) as Hrt. pose proof (percent_not_in_ip ip Hok) as Hno.
  destruct Ha as [->|(s & (S1 & S2 & S3 & S4) & ->)].
  - rewrite <-(app_nil_r (show_ip ip)) at 1. rewrite ip_not_star by done. cbn [andb]. rewrite (proj2 (split_once_none _ _) Hno). cbn [mbind result_bind].
    rewrite (proj2 (Z.ltb_ge 64 _)), Hrt by lia. by destruct ip.
  - rewrite ip_not_star by done. cbn [andb]. rewrite (proj2 (split_once_some _ _ _ _) (conj eq_refl Hno)).
    rewrite (proj2 (is_empty_false _) S1), (proj2 (Z.ltb_ge 32 _)), S3 by lia. cbn [orb negb ensure mbind result_bind].
    destruct (forallb is_ascii_digit s) eqn:Ed; cbn [andb ensure mbind result_bind].
    + destruct (S4 eq_refl) as (n & Hn & Es). assert (parse_u32 s = Some n) as Hpu.
      { unfold parse_u32. rewrite parse_unsigned_digits, Es by done.
        destruct (show_dec_spec n 10 ltac:(unfold u32_max in *; cbn; lia) ltac:(lia)) as (_ & _ & ->). cbn. by rewrite (proj2 (Z.leb_le _ _)) by lia. }
      rewrite Hpu, (proj2 (Z.eqb_neq n 0)) by lia. cbn [ensure mbind result_bind]. rewrite (proj2 (Z.ltb_ge 64 _)), Hrt by lia.
      cbn [ensure ok_or mbind result_bind]. rewrite Ed, Hpu, Es. by destruct ip.
    + rewrite (proj2 (Z.ltb_ge 64 _)), Hrt by lia. cbn [ensure ok_or mbind result_bind]. rewrite Ed. by destruct ip.
Qed.

(** ** One row *)

Definition socket_char (c : char) : bool := ip_char c || scope_char c || (c =? ch "%") || (c =? ch "*").

Lemma socket_char_plain c : socket_char c = true → printable c = true ∧ is_ascii_whitespace c = false ∧ is_ascii c = true ∧ c ≠ 91 ∧ c ≠ 10 ∧ c ≠ 13.
Proof.
  unfold socket_char, ip_char, scope_char, is_ascii_hexdigit, is_ascii_alphanumeric, is_ascii_digit, is_ascii_upper, is_ascii_lower, printable, is_ascii_whitespace, is_ascii, between.
  change (ch "%") with 37. change (ch "*") with 42. change (ch ":") with 58. change (ch ".") with 46. change (ch "_") with 95. change (ch "-") with 45. lia.
Qed.

Lemma socket_address_text a f : socket_address_ok a f → forallb socket_char a = true ∧ zlen a ≤ 75.
Proof.
  intros [[-> _]|(ip & Hok & _ & Ha)]; [by vm_compute|].
  pose proof (show_ip_chars ip Hok) as Hc. pose proof (show_ip_len ip Hok) as Hl. pose proof (len_length (show_ip ip)) as Hll.
  assert (forallb socket_char (show_ip ip) = true) as Hi.
  { rewrite forallb_true in *. intros c H%Hc. unfold socket_char. by rewrite H. }
  destruct Ha as [->|(s & (_ & S2 & S3 & _) & ->)]; [split; [done|lia]|].
  rewrite forallb_app, Hi, length_app. cbn [forallb length]. pose proof (len_length s) as Hs. split; [|lia].
  change (socket_char (ch "%")) with true. cbn [andb]. rewrite forallb_true in *. intros c H%S3. unfold socket_char. rewrite H. by rewrite orb_true_r.
Qed.

Lemma decimal_show n : 0 ≤ n ≤ u64_max → decimal (show_dec n) = Ok n.
Proof.
  intros Hn. destruct (show_dec_spec n 20 ltac:(unfold u64_max in *; cbn; lia) ltac:(lia)) as (H1 & H2 & H3). unfold decimal.
  rewrite H1, (len_ascii _ (digits_ascii _ H1)), (proj2 (Z.ltb_ge 20 _)), (proj2 (is_empty_false _)) by (try lia; intros E; rewrite E in H2; cbn in H2; lia).
  cbn [orb negb ensure mbind result_bind]. unfold parse_u64. rewrite parse_unsigned_digits, H3 by done. cbn. by rewrite (proj2 (Z.leb_le _ _)) by lia.
Qed.

Lemma show_port p : 0 < p ≤ u16_max → forallb is_ascii_digit (show_dec p) = true ∧ zlen (show_dec p) ≤ 5.
Proof. intros Hp. destruct (show_dec_spec p 5 ltac:(unfold u16_max in *; cbn; lia) ltac:(lia)) as (H1 & H2 & _). split; [done|lia]. Qed.

Definition endpoint_text (a : str) (p : Z) : str := a ++ ch ":" :: show_dec p.

Lemma endpoint_text_chars a f p : socket_address_ok a f → 0 < p ≤ u16_max →
  forallb socket_char (endpoint_text a p) = true ∧ zlen (endpoint_text a p) ≤ 81.
Proof.
  intros [Ha Hl]%socket_address_text [Hd Hn]%show_port. unfold endpoint_text. rewrite forallb_app, Ha, length_app. cbn [forallb length]. split; [|lia].
  change (socket_char (ch ":")) with true. cbn [andb]. rewrite forallb_true in *. intros c H%Hd%digit_scope. unfold socket_char. rewrite H. by rewrite orb_true_r.
Qed.

Lemma socket_len s : forallb socket_char s = true → len s = zlen s.
Proof. intros H. apply len_ascii. rewrite forallb_true in *. intros c Hc%H. by apply socket_char_plain. Qed.

Lemma endpoint_of_text a f p : socket_address_ok a f → 0 < p ≤ u16_max → endpoint (endpoint_text a p) = Ok (a, show_dec p, false).
Proof.
  intros Ha Hp. destruct (endpoint_text_chars a f p Ha Hp) as [Hc Hl]. unfold endpoint.
  rewrite (socket_len _ Hc), (proj2 (Z.ltb_ge MAX_ENDPOINT _)) by (unfold MAX_ENDPOINT; lia). cbn [ensure mbind result_bind].
  assert (rsplit_once (ch ":") (endpoint_text a p) = Some (a, show_dec p)) as Hr.
  { apply rsplit_once_some. split; [done|]. destruct (show_port p Hp) as [Hd _]. rewrite forallb_true in Hd. intros H%Hd. by vm_compute in H. }
  rewrite Hr. rewrite forallb_true in Hc. destruct (endpoint_text a p) as [|c s]; [done|].
  destruct (socket_char_plain c (Hc c (list_elem_of_here _ _))) as (_ & _ & _ & H91 & _). repeat (case_match; try done).
Qed.

Lemma local_and_peer_of_text a f p : socket_address_ok a f → 0 < p ≤ u16_max → local_and_peer (endpoint_text a p) (lit "*:*") = Ok (a, f, p).
Proof.
  intros Ha Hp. unfold local_and_peer. rewrite (endpoint_of_text a f p Ha Hp). cbn [mbind result_bind]. rewrite (socket_address_of_canonical a f Ha). cbn [mbind result_bind].
  rewrite decimal_show by (unfold u64_max, u16_max in *; lia). cbn [mbind result_bind]. rewrite (proj2 (Z.leb_le p _)) by lia. cbn [ok_or mbind result_bind].
  rewrite (proj2 (Z.eqb_neq p 0)) by lia. cbn [ensure mbind result_bind].
  replace (endpoint (lit "*:*")) with (Ok (E:=AppError) (lit "*", lit "*", false)) by (vm_compute; reflexivity).
  destruct f; vm_compute; reflexivity.
Qed.

Lemma socket_char_row : forallb (λ w, forallb socket_char w) [lit "tcp"; lit "udp"; lit "LISTEN"; lit "UNCONN"; lit "0"; lit "*:*"] = true.
Proof. vm_compute. reflexivity. Qed.

Definition row_fields (e : ListeningSocketEntry) : list str :=
  [match ls_protocol e with Tcp => lit "tcp" | Udp => lit "udp" end;
   match ls_state e with Listen => lit "LISTEN" | Unconn => lit "UNCONN" end;
   lit "0"; lit "0"; endpoint_text (ls_local_address e) (ls_port e); lit "*:*"].

Lemma row_fields_ok e : socket_ok e → Forall (λ w, forallb socket_char w = true ∧ w ≠ []) (row_fields e).
Proof.
  intros [Ha Hp _]. destruct (endpoint_text_chars _ _ _ Ha Hp) as [Hc _]. unfold row_fields.
  assert (endpoint_text (ls_local_address e) (ls_port e) ≠ []) as Hne by (unfold endpoint_text; by destruct (ls_local_address e)).
  constructor; [destruct (ls_protocol e); by vm_compute|]. constructor; [destruct (ls_state e); by vm_compute|].
  constructor; [by vm_compute|]. constructor; [by vm_compute|]. constructor; [done|]. constructor; [by vm_compute|constructor].
Qed.

Lemma join_chars (P : char → Prop) c ws : P c → Forall (Forall P) ws → Forall P (join c ws).
Proof.
  intros Hc. induction 1 as [|w ws Hw Hws IH]; [constructor|]. destruct ws; cbn [join]; [done|]. apply Forall_app. split; [done|]. by constructor.
Qed.

Definition row_char (c : char) : Prop := socket_char c = true ∨ c = 32.

Lemma row_char_plain c : row_char c → printable c = true ∧ is_ascii c = true ∧ c ≠ 10 ∧ c ≠ 13.
Proof. intros [H| ->]; [|by split_and!]. by destruct (socket_char_plain c H) as (? & _ & ? & _ & ? & ?). Qed.

Lemma show_socket_chars e : socket_ok e → Forall row_char (show_socket e) ∧ zlen (show_socket e) ≤ 100.
Proof.
  intros H. pose proof (row_fields_ok e H) as Hf. split.
  - apply (join_chars row_char 32 (row_fields e)); [by right|]. eapply Forall_impl; [|exact Hf]. cbn. intros w [Hw _].
    apply list.Forall_forall. intros c Hc. left. rewrite forallb_true in Hw. by apply Hw.
  - destruct H as [Ha Hp _]. destruct (endpoint_text_chars _ _ _ Ha Hp) as [_ Hl]. unfold endpoint_text in Hl. rewrite length_app in Hl. cbn [length] in Hl.
    unfold show_socket. cbn [join]. repeat (rewrite length_app || (progress cbn [length])).
    change (length (lit "0")) with 1%nat. change (length (lit "*:*")) with 3%nat.
    assert (length (match ls_protocol e with Tcp => lit "tcp" | Udp => lit "udp" end) = 3%nat) as -> by (by destruct (ls_protocol e)).
    assert (length (match ls_state e with Listen => lit "LISTEN" | Unconn => lit "UNCONN" end) = 6%nat) as -> by (by destruct (ls_state e)). lia.
Qed.

Lemma strip_cr_plain l : 13 ∉ l → strip_cr l = l.
Proof.
  intros H. unfold strip_cr. destruct (rev l) as [|c r] eqn:E; [done|]. assert (c ≠ 13) as Hc.
  { intros ->. apply H. rewrite <-elem_of_rev, E. apply list_elem_of_here. }
  repeat (case_match; try done).
Qed.

Lemma parse_socket_line_show e : socket_ok e → parse_socket_line (show_socket e) = Ok (Some e).
Proof.
  intros H. destruct (show_socket_chars e H) as [Hc Hl]. rewrite list.Forall_forall in Hc. unfold parse_socket_line.
  rewrite strip_cr_plain by (by intros (_ & _ & _ & ?)%Hc%row_char_plain).
  rewrite len_ascii by (apply forallb_true; by intros c (_ & ? & _)%Hc%row_char_plain).
  rewrite (proj2 (Z.ltb_ge MAX_PORTS_LINE _)) by (unfold MAX_PORTS_LINE; lia).
  assert (existsb (λ c, negb (printable c)) (show_socket e) = false) as ->.
  { apply existsb_false. intros c [Hp _]%Hc%row_char_plain. by rewrite Hp. }
  cbn [orb ensure mbind result_bind].
  assert (split_ascii_whitespace (show_socket e) = row_fields e) as ->.
  { pose proof (row_fields_ok e H) as Hf. rewrite list.Forall_forall in Hf. change (show_socket e) with (join 32 (row_fields e)). unfold split_ascii_whitespace.
    rewrite (split_on_join is_ascii_whitespace 32 (row_fields e)); [|done|done|].
    - apply List.forallb_filter_id. apply forallb_true. intros w [_ Hw]%Hf. destruct w; done.
    - intros w x [Hw _]%Hf Hx. rewrite forallb_true in Hw. by apply socket_char_plain, Hw. }
  destruct H as [Ha Hp Hs]. unfold row_fields. cbv iota.
  change (decimal (lit "0")) with (Ok (E:=AppError) 0).
  rewrite (local_and_peer_of_text _ _ _ Ha Hp). destruct e as [p f a q st]. cbn in *. destruct Hs as [[-> ->]|[-> ->]]; reflexivity.
Qed.

Lemma local_and_peer_ok l p a f port : local_and_peer l p = Ok (a, f, port) → socket_address_ok a f ∧ 0 < port ≤ u16_max.
Proof.
  intros ([[raw q] b] & _ & ([la fam] & Ha & (n & Hn & (m & Hm%ok_or_ok & (? & H0%ensure_ok & H)%bind_ok)%bind_ok)%bind_ok)%bind_ok)%bind_ok.
  apply bind_ok in H as ([[rp pp] bp] & _ & (? & _ & ([pa pf] & Hp & (? & _ & (? & _ & H)%bind_ok)%bind_ok)%bind_ok)%bind_ok).
  apply bind_ok in Hn as (? & _ & Hn%ok_or_ok%parse_unsigned_bounds). destruct (Z.leb_spec n u16_max); [|done]. simplify_eq. split_bools.
  apply socket_address_canonical in Ha, Hp. destruct (_ && _); simplify_eq; (split; [done|lia]).
Qed.

Lemma parse_socket_line_ok l e : parse_socket_line l = Ok (Some e) → socket_ok e.
Proof.
  unfold parse_socket_line. intros (? & _ & H)%bind_ok.
  destruct (split_ascii_whitespace _) as [|w1 [|w2 [|w3 [|w4 [|w5 [|w6 [|]]]]]]]; try done.
  apply bind_ok in H as ([pr st] & Hps%ok_or_ok & (? & _ & (? & _ & ([[a f] p] & [Hl Hp]%local_and_peer_ok & [= <-])%bind_ok)%bind_ok)%bind_ok).
  split; cbn; [done|done|]. destruct (_ && _); [|destruct (_ && _)]; simplify_eq; eauto.
Qed.

(** ** Whole inventories *)

Lemma parse_socket_lines_ok ls acc l : parse_socket_lines ls acc = Ok l → Forall socket_ok acc → NoDup acc → zlen acc ≤ MAX_PORT_ROWS →
  Forall socket_ok l ∧ NoDup l ∧ zlen l ≤ MAX_PORT_ROWS.
Proof.
  revert acc. induction ls as [|x ls IH]; cbn; intros acc H Ha Hd Hn; [by injection H as <-|].
  apply bind_ok in H as ([e|] & He & H); [|by eapply IH]. apply bind_ok in H as (? & Hc%ensure_ok & H). apply orb_false_iff in Hc as [Hc1%Z.eqb_neq Hc2%bool_decide_eq_false].
  apply (IH _ H).
  - apply Forall_app. split; [done|]. constructor; [by eapply parse_socket_line_ok|constructor].
  - apply list.NoDup_app. split; [done|]. split; [|apply NoDup_singleton]. by intros y Hy ->%list_elem_of_singleton.
  - rewrite length_app. cbn [length]. lia.
Qed.

Lemma parse_socket_lines_show l acc : Forall socket_ok l → NoDup (acc ++ l) → zlen (acc ++ l) ≤ MAX_PORT_ROWS →
  parse_socket_lines (map show_socket l) acc = Ok (acc ++ l).
Proof.
  revert acc. induction l as [|e l IH]; intros acc Ho Hd Hn; cbn [map parse_socket_lines]; [by rewrite app_nil_r|].
  apply Forall_cons_iff in Ho as [He Ho]. rewrite parse_socket_line_show by done. cbn [mbind result_bind].
  rewrite length_app in Hn. cbn [length] in Hn. rewrite (proj2 (Z.eqb_neq _ _)) by lia.
  rewrite bool_decide_eq_false_2 by (apply list.NoDup_app in Hd as (_ & Hd & _); intros Hin; apply (Hd e Hin), list_elem_of_here).
  cbn [orb ensure mbind result_bind]. rewrite IH; rewrite <-?app_assoc; try done. rewrite length_app. cbn [length app]. lia.
Qed.

Lemma no_stray_cr s : 13 ∉ s → stray_cr s = false.
Proof.
  induction s as [|c s IH]; [done|]. intros H. cbn [stray_cr]. rewrite (proj2 (Z.eqb_neq c 13)) by (intros ->; apply H, list_elem_of_here). cbn [andb orb].
  apply IH. intros Hs. apply H. by apply list_elem_of_further.
Qed.

Lemma show_sockets_chars l : Forall socket_ok l → Forall (λ c, row_char c ∨ c = 10) (show_sockets l) ∧ zlen (show_sockets l) ≤ 101 * zlen l.
Proof.
  intros H. split.
  - apply join_chars; [by right|]. apply Forall_map. eapply Forall_impl; [|exact H]. intros e He. destruct (show_socket_chars e He) as [Hc _].
    eapply Forall_impl; [|exact Hc]. cbn. by left.
  - induction H as [|e l He Hl IH]; [done|]. destruct (show_socket_chars e He) as [_ Hn]. unfold show_sockets in *. destruct l; cbn [map join length] in *; [lia|].
    rewrite length_app. cbn [length] in *. lia.
Qed.

Lemma parse_show_sockets l : Forall socket_ok l → NoDup l → zlen l ≤ MAX_PORT_ROWS → parse_listening_ports (show_sockets l) = Ok l.
Proof.
  intros Ho Hd Hn. destruct (show_sockets_chars l Ho) as [Hc Hl]. rewrite list.Forall_forall in Hc. unfold parse_listening_ports.
  rewrite len_ascii. 2: { apply forallb_true. intros c [H%row_char_plain| ->]%Hc; [by destruct H as (_ & ? & _)|done]. }
  rewrite (proj2 (Z.ltb_ge MAX_PORTS_OUTPUT _)) by (unfold MAX_PORTS_OUTPUT, MAX_PORT_ROWS in *; lia).
  rewrite no_stray_cr by (intros [H%row_char_plain|H]%Hc; [by destruct H as (_ & _ & _ & ?)|done]). cbn [orb ensure mbind result_bind].
  destruct l as [|e l]; [reflexivity|]. unfold show_sockets, split. rewrite split_on_join; [by apply (parse_socket_lines_show _ [])|done|done|].
  intros w c (x & -> & Hx)%list_elem_of_fmap Hw. rewrite list.Forall_forall in Ho. destruct (show_socket_chars x (Ho x Hx)) as [Hx' _].
  rewrite list.Forall_forall in Hx'. apply Z.eqb_neq. intros <-. by destruct (row_char_plain _ (Hx' _ Hw)) as (_ & _ & ? & _).
Qed.

Lemma parse_listening_ports_ok output l : parse_listening_ports output = Ok l → Forall socket_ok l ∧ NoDup l ∧ zlen l ≤ MAX_PORT_ROWS.
Proof.
  intros (? & _ & H)%bind_ok. eapply parse_socket_lines_ok; [done|constructor|constructor|]. unfold MAX_PORT_ROWS. cbn. lia.
Qed.

(** [C30] The socket inventories that can be published are exactly the lists of
    at most 256 distinct canonical entries: a protocol with its state, a port
    from 1 to 65535 and a canonical address of its family, scoped or not, or the
    wildcard of unknown family.  Printed as rows of [ss] they are read back
    unchanged. *)
Theorem listening_ports_roundtrip l :
  ((∃ output, parse_listening_ports output = Ok l) ↔ Forall socket_ok l ∧ NoDup l ∧ zlen l ≤ MAX_PORT_ROWS) ∧
  ((∃ output, parse_listening_ports output = Ok l) ↔ parse_listening_ports (show_sockets l) = Ok l).
Proof.
  split; split; [intros [o H]; by eapply parse_listening_ports_ok| | |intros H; by exists (show_sockets l)].
  - intros (Ho & Hd & Hn). exists (show_sockets l). by apply parse_show_sockets.
  - intros [o (Ho & Hd & Hn)%parse_listening_ports_ok]. by apply parse_show_sockets.
Qed.

Example listening_ports_sample :
  map (λ e, (ls_local_address e, ls_family e, ls_port e)) <$>
    (match parse_listening_ports (lit "tcp LISTEN 0 1 *:80 0.0.0.0:*" ++ 10 :: lit "udp UNCONN 0 0 [2001:db8::1%0002]:65535 [::]:*" ++ [13; 10]) with Ok l => Some l | Err _ => None end)
  = Some [(lit "0.0.0.0", SocketIpv4, 80); (lit "2001:db8::1%2", SocketIpv6, 65535)].
Proof. vm_compute. reflexivity. Qed.
