(* ===== verification/Dns.v ===== *)
(** The resolver configuration of a host ([nexus-discovery/src/dns.rs]): the
    selected directives of [/etc/resolv.conf], with bounded lists of canonical
    values. *)

From S2P Require Import Prelude Str Model Ip IpText Engine Interfaces ListeningPorts.

Inductive DnsSearchDirective := Search | Domain.

Record DnsNameserverEntry := { dn_address : str; dn_family : NetworkAddressFamily }.
Record DnsSortlistEntry := { ds_address : str; ds_family : NetworkAddressFamily; ds_netmask : option str }.

Record ParsedDnsConfiguration := {
  pd_nameservers : list DnsNameserverEntry;
  pd_search_directive : option DnsSearchDirective;
  pd_search_domains : list str;
  pd_options : list str;
  pd_sortlist : list DnsSortlistEntry
}.

(** The snapshot carries the fields of the parsed configuration. *)
Record DnsConfigurationSnapshot := {
  dc_host_id : HostId;
  dc_host_session_id : HostSessionId;
  dc_observed_at : str;
  dc_configuration : ParsedDnsConfiguration
}.

Definition DNS_MAX_OUTPUT_BYTES : Z := 64 * 1024.
Definition DNS_MAX_LINES : Z := 256.
Definition DNS_MAX_LINE_BYTES : Z := 512.
Definition DNS_MAX_TOKENS_PER_LINE : Z := 32.
Definition MAX_NAMESERVERS : Z := 16.
Definition MAX_SEARCH_DOMAINS : Z := 31.
Definition MAX_OPTIONS : Z := 32.
Definition MAX_SORTLIST_ENTRIES : Z := 16.
Definition MAX_DNS_NAME_BYTES : Z := 253.
Definition MAX_OPTION_BYTES : Z := 64.
Definition MAX_SCOPE_BYTES : Z := 32.

Definition dns_invalid : AppError :=
  app_error Discovery "The host returned an invalid or unsupported /etc/resolv.conf DNS configuration.".
Definition dns_cancelled : AppError := app_error Cancelled "The DNS configuration observation was cancelled.".

(** ** Values *)

Definition is_ipv6 (a : IpAddr) : bool := match a with V6 _ => true | _ => false end.

Definition nameserver (value : str) : Res DnsNameserverEntry :=
  rs ← match split_once (ch "%") value with
       | Some (raw, scope) =>
           _ ← ensure (is_empty scope || (MAX_SCOPE_BYTES <? len scope) || negb (forallb scope_char scope)) dns_invalid;
           scope ← (if forallb is_ascii_digit scope
                    then index ← ok_or (parse_u32 scope) dns_invalid; _ ← ensure (index =? 0) dns_invalid; Ok (show_dec index)
                    else Ok scope);
           Ok (raw, Some scope)
       | None => Ok (value, None)
       end;
  let '(raw, scope) := rs in
  address ← ok_or (parse_ip raw) dns_invalid;
  _ ← ensure (match scope with Some _ => negb (is_ipv6 address) | None => false end) dns_invalid;
  Ok {| dn_address := match scope with Some s => show_ip address ++ ch "%" :: s | None => show_ip address end;
        dn_family := ip_family address |}.

Definition valid_label (label : str) : bool :=
  negb (is_empty label) && (len label <=? 63) &&
  forallb (λ c, is_ascii_alphanumeric c || (c =? ch "-")) label &&
  match label with c :: _ => is_ascii_alphanumeric c | [] => false end &&
  match rev label with c :: _ => is_ascii_alphanumeric c | [] => false end &&
  (negb (starts_with (lit "xn--") (map to_ascii_lower label)) || (4 <? len label)).

Definition strip_suffix (c : char) (s : str) : option str :=
  match rev s with x :: r => if x =? c then Some (rev r) else None | [] => None end.

Definition valid_dns_suffix (value : str) : bool :=
  if str_eqb value (lit ".") then true else
  if is_empty value || (MAX_DNS_NAME_BYTES <? len value) || negb (forallb is_ascii value) then false else
  let name := default value (strip_suffix (ch ".") value) in
  if is_empty name then false else forallb valid_label (split (ch ".") name).

Definition option_char (c : char) : bool := is_ascii_alphanumeric c || (c =? ch "-") || (c =? ch "_").

Definition valid_option (value : str) : bool :=
  if is_empty value || (MAX_OPTION_BYTES <? len value) || negb (forallb is_ascii value) then false else
  match split (ch ":") value with
  | [name] => negb (is_empty name) && forallb option_char name
  | [name; argument] => negb (is_empty name) && forallb option_char name && negb (is_empty argument) && forallb option_char argument
  | _ => false
  end.

(** The arithmetic is that of [u128]. *)
Definition u128_wrap (z : Z) : Z := z mod 2 ^ 128.
Definition contiguous_mask (mask : IpAddr) : bool :=
  let bits := ip_bits mask in
  let relevant := if ip_width mask =? 32 then u128_wrap (Z.shiftl bits 96) else bits in
  let inverted := 2 ^ 128 - 1 - relevant in
  (inverted =? 0) || (Z.land inverted (u128_wrap (inverted + 1)) =? 0).

Definition parse_sortlist (value : str) : Res DnsSortlistEntry :=
  _ ← ensure ((129 <? len value) || (1 <? matches_count (lit "/") value)%nat) dns_invalid;
  let '(address, netmask) := match split_once (ch "/") value with Some (a, n) => (a, Some n) | None => (value, None) end in
  address ← ok_or (parse_ip address) dns_invalid;
  netmask ← match netmask with Some n => mask ← ok_or (parse_ip n) dns_invalid; Ok (Some mask) | None => Ok None end;
  _ ← ensure (match netmask with
              | Some mask => negb (bool_decide (ip_family mask = ip_family address)) || negb (contiguous_mask mask)
              | None => false
              end) dns_invalid;
  Ok {| ds_address := show_ip address; ds_family := ip_family address; ds_netmask := show_ip <$> netmask |}.

(** ** The file *)

Definition dns_byte (c : char) : bool := (c =? 13) || (c =? 10) || printable c.

Definition validate_file_shape (output : str) : Res unit :=
  _ ← ensure (DNS_MAX_OUTPUT_BYTES <? len output) dns_invalid;
  let line_count := zlen (List.filter (Z.eqb 10) output) + (if negb (is_empty output) && negb (ends_with [10] output) then 1 else 0) in
  _ ← ensure (DNS_MAX_LINES <? line_count) dns_invalid;
  ensure (stray_cr output || existsb (λ c, negb (dns_byte c)) output) dns_invalid.

(** The text before the first [#] or [;]. *)
Fixpoint before_comment (line : str) : str :=
  match line with
  | [] => []
  | c :: line => if (c =? ch "#") || (c =? ch ";") then [] else c :: before_comment line
  end.

Fixpoint push_sortlist (entries : list str) (acc : list DnsSortlistEntry) : Res (list DnsSortlistEntry) :=
  match entries with
  | [] => Ok acc
  | e :: rest => x ← parse_sortlist e; push_sortlist rest (acc ++ [x])
  end.

Definition dns_directive (fields : list str) (p : ParsedDnsConfiguration) : Res ParsedDnsConfiguration :=
  match fields with
  | [] => Err dns_invalid
  | keyword :: args =>
      if str_eqb keyword (lit "nameserver") then
        match args with
        | [value] =>
            _ ← ensure (zlen (pd_nameservers p) =? MAX_NAMESERVERS) dns_invalid;
            n ← nameserver value;
            Ok {| pd_nameservers := pd_nameservers p ++ [n]; pd_search_directive := pd_search_directive p;
                  pd_search_domains := pd_search_domains p; pd_options := pd_options p; pd_sortlist := pd_sortlist p |}
        | _ => Err dns_invalid
        end
      else if str_eqb keyword (lit "search") then
        match args with
        | [] => Err dns_invalid
        | _ =>
            _ ← ensure ((MAX_SEARCH_DOMAINS <? zlen args) || existsb (λ d, negb (valid_dns_suffix d)) args) dns_invalid;
            Ok {| pd_nameservers := pd_nameservers p; pd_search_directive := Some Search; pd_search_domains := args;
                  pd_options := pd_options p; pd_sortlist := pd_sortlist p |}
        end
      else if str_eqb keyword (lit "domain") then
        match args with
        | [domain] =>
            _ ← ensure (negb (valid_dns_suffix domain)) dns_invalid;
            Ok {| pd_nameservers := pd_nameservers p; pd_search_directive := Some Domain; pd_search_domains := [domain];
                  pd_options := pd_options p; pd_sortlist := pd_sortlist p |}
        | _ => Err dns_invalid
        end
      else if str_eqb keyword (lit "options") then
        match args with
        | [] => Err dns_invalid
        | _ =>
            _ ← ensure ((MAX_OPTIONS <? zlen (pd_options p) + zlen args) || existsb (λ o, negb (valid_option o)) args) dns_invalid;
            Ok {| pd_nameservers := pd_nameservers p; pd_search_directive := pd_search_directive p;
                  pd_search_domains := pd_search_domains p; pd_options := pd_options p ++ args; pd_sortlist := pd_sortlist p |}
        end
      else if str_eqb keyword (lit "sortlist") then
        match args with
        | [] => Err dns_invalid
        | _ =>
            _ ← ensure (MAX_SORTLIST_ENTRIES <? zlen (pd_sortlist p) + zlen args) dns_invalid;
            l ← push_sortlist args (pd_sortlist p);
            Ok {| pd_nameservers := pd_nameservers p; pd_search_directive := pd_search_directive p;
                  pd_search_domains := pd_search_domains p; pd_options := pd_options p; pd_sortlist := l |}
        end
      else Err dns_invalid
  end.

Fixpoint dns_lines (ls : list str) (p : ParsedDnsConfiguration) : Res ParsedDnsConfiguration :=
  match ls with
  | [] => Ok p
  | line :: rest =>
      let line := strip_cr line in
      _ ← ensure (DNS_MAX_LINE_BYTES <? len line) dns_invalid;
      let active := trim (before_comment line) in
      if is_empty active then dns_lines rest p else
      let fields := split_ascii_whitespace active in
      _ ← ensure (DNS_MAX_TOKENS_PER_LINE <? zlen fields) dns_invalid;
      p ← dns_directive fields p;
      dns_lines rest p
  end.

Definition dns_empty : ParsedDnsConfiguration :=
  {| pd_nameservers := []; pd_search_directive := None; pd_search_domains := []; pd_options := []; pd_sortlist := [] |}.

Definition parse_dns_configuration (output : str) : Res ParsedDnsConfiguration :=
  _ ← validate_file_shape output;
  dns_lines (split 10 output) dns_empty.

Definition observe_dns_configuration (session : Session) (c c_end : bool) (uuid observed_at : str) (h : HostId) (hs : HostSessionId)
    : Res DnsConfigurationSnapshot :=
  output ← (execute engine_default session (engine_plan uuid DnsConfiguration) c).1;
  parsed ← parse_dns_configuration output;
  _ ← ensure c_end dns_cancelled;
  Ok {| dc_host_id := h; dc_host_session_id := hs; dc_observed_at := observed_at; dc_configuration := parsed |}.

(** ** Netmasks *)

(** A number and its successor share no bit exactly when it is a run of ones. *)
Lemma land_succ_zero x : 0 ≤ x → Z.land x (x + 1) = 0 ↔ ∃ k, 0 ≤ k ∧ x = 2 ^ k - 1.
Proof.
  intros Hx. split.
  - intros H. destruct (decide (x = 0)) as [->|Hne]; [by exists 0|].
    pose proof (Z.log2_spec x ltac:(lia)) as [Hlo Hhi]. pose proof (Z.log2_nonneg x) as Hk. rewrite Z.pow_succ_r in Hhi by lia.
    exists (Z.succ (Z.log2 x)). split; [lia|]. rewrite Z.pow_succ_r by lia. destruct (decide (x + 1 = 2 * 2 ^ Z.log2 x)); [lia|exfalso].
    assert (Z.log2 (x + 1) = Z.log2 x) as Hlog by (apply Z.log2_unique; [lia|rewrite Z.pow_succ_r by lia; lia]).
    assert (Z.testbit (Z.land x (x + 1)) (Z.log2 x) = true) as Hb by (rewrite Z.land_spec, Z.bit_log2, <-Hlog, Z.bit_log2 by lia; done).
    by rewrite H, Z.testbit_0_l in Hb.
  - intros (k & Hk & ->). rewrite Z.land_comm. replace (2 ^ k - 1) with (Z.ones k) at 2 by (rewrite Z.ones_equiv; lia).
    rewrite Z.land_ones by lia. replace (2 ^ k - 1 + 1) with (2 ^ k) by lia. apply Z.mod_same. lia.
Qed.

(** [C32] A netmask is accepted exactly when it is one: [p] ones followed by
    zeros over the width of its family, the empty and the full mask included. *)
Theorem contiguous_mask_spec mask (H : ip_ok mask) :
  contiguous_mask mask = true ↔ ∃ p, 0 ≤ p ≤ ip_width mask ∧ ip_bits mask = 2 ^ ip_width mask - 2 ^ (ip_width mask - p).
Proof.
  pose proof (ip_bits_bounds mask H) as Hb. set (w := ip_width mask) in *. assert (w = 32 ∨ w = 128) as Hw by (destruct mask; cbn in w; auto).
  set (r := ip_bits mask * 2 ^ (128 - w)).
  assert (0 ≤ r < 2 ^ 128) as Hr.
  { assert (2 ^ 128 = 2 ^ w * 2 ^ (128 - w)) by (rewrite <-Z.pow_add_r by lia; f_equal; lia). assert (0 < 2 ^ (128 - w)) by (apply Z.pow_pos_nonneg; lia). nia. }
  assert (contiguous_mask mask = ((2 ^ 128 - 1 - r =? 0) || (Z.land (2 ^ 128 - 1 - r) (u128_wrap (2 ^ 128 - 1 - r + 1)) =? 0))) as ->.
  { unfold contiguous_mask. fold w. assert (r = if w =? 32 then u128_wrap (Z.shiftl (ip_bits mask) 96) else ip_bits mask) as <-; [|done].
    unfold r, u128_wrap. destruct Hw as [-> | ->]; cbn [Z.eqb Pos.eqb]; [|lia]. rewrite Z.shiftl_mul_pow2 by lia. symmetry. apply Z.mod_small. exact Hr. }
  assert (0 < 2 ^ (128 - w)) as Hpos by (apply Z.pow_pos_nonneg; lia).
  rewrite orb_true_iff, !Z.eqb_eq. unfold u128_wrap. split.
  - intros Hc. assert (∃ k, 0 ≤ k ∧ 2 ^ 128 - 1 - r = 2 ^ k - 1) as (k & Hk & Ek).
    { destruct Hc as [E|E]; [exists 0; lia|]. destruct (decide (r = 0)) as [->|]; [exists 128; lia|].
      rewrite Z.mod_small in E by lia. apply land_succ_zero in E; [done|lia]. }
    assert (k ≤ 128) as Hk2 by (apply (Z.pow_le_mono_r_iff 2); lia).
    assert (2 ^ 128 = 2 ^ w * 2 ^ (128 - w)) as E128 by (rewrite <-Z.pow_add_r by lia; f_equal; lia).
    assert (128 - w ≤ k) as Hk3.
    { apply (Z.pow_le_mono_r_iff 2); [lia|lia|]. apply Z.divide_pos_le; [lia|]. exists (2 ^ w - ip_bits mask). unfold r in Ek. lia. }
    exists (128 - k). split; [lia|]. assert (2 ^ k = 2 ^ (w - (128 - k)) * 2 ^ (128 - w)) as E2 by (rewrite <-Z.pow_add_r by lia; f_equal; lia).
    apply (Z.mul_reg_r _ _ (2 ^ (128 - w))); [lia|]. unfold r in Ek. lia.
  - intros (p & Hp & Eb). assert (r = 2 ^ 128 - 2 ^ (128 - p)) as Er.
    { unfold r. rewrite Eb, Z.mul_sub_distr_r, <-!Z.pow_add_r by lia. f_equal; f_equal; lia. }
    right. rewrite Er. replace (2 ^ 128 - 1 - (2 ^ 128 - 2 ^ (128 - p)) + 1) with (2 ^ (128 - p)) by lia.
    destruct (decide (p = 0)) as [->|]; [reflexivity|]. rewrite Z.mod_small by (split; [lia|apply Z.pow_lt_mono_r; lia]).
    replace (2 ^ 128 - 1 - (2 ^ 128 - 2 ^ (128 - p))) with (2 ^ (128 - p) - 1) by lia.
    replace (2 ^ (128 - p)) with (2 ^ (128 - p) - 1 + 1) at 2 by lia. apply land_succ_zero; [assert (0 < 2 ^ (128 - p)) by (apply Z.pow_pos_nonneg; lia); lia|].
    exists (128 - p). lia.
Qed.

Lemma contiguous_mask_spec_witness : contiguous_mask (V4 255 255 255 128) = true ∧ contiguous_mask (V4 255 0 255 0) = false.
Proof.
  split; [|reflexivity]. apply (contiguous_mask_spec (V4 255 255 255 128)).
  - cbn. repeat constructor; lia.
  - exists 25. split; [cbn; lia|reflexivity].
Defined.

(** ** Bounded configurations *)

Definition nameserver_ok (n : DnsNameserverEntry) : Prop :=
  ∃ ip, ip_ok ip ∧ dn_family n = ip_family ip ∧
    (dn_address n = show_ip ip ∨ (ip_family ip = Ipv6 ∧ ∃ s, scope_ok s ∧ dn_address n = show_ip ip ++ ch "%" :: s)).

Definition sortlist_ok (e : DnsSortlistEntry) : Prop :=
  ∃ ip, ip_ok ip ∧ ds_family e = ip_family ip ∧ ds_address e = show_ip ip ∧
    ∀ m, ds_netmask e = Some m → ∃ mask, ip_ok mask ∧ ip_family mask = ip_family ip ∧ m = show_ip mask ∧ contiguous_mask mask = true.

Record dns_ok (p : ParsedDnsConfiguration) : Prop := {
  do_nameservers : zlen (pd_nameservers p) ≤ MAX_NAMESERVERS ∧ Forall nameserver_ok (pd_nameservers p);
  do_search : match pd_search_directive p with
              | None => pd_search_domains p = []
              | Some Search => 1 ≤ zlen (pd_search_domains p) ≤ MAX_SEARCH_DOMAINS
              | Some Domain => zlen (pd_search_domains p) = 1
              end;
  do_domains : forallb valid_dns_suffix (pd_search_domains p) = true;
  do_options : zlen (pd_options p) ≤ MAX_OPTIONS ∧ forallb valid_option (pd_options p) = true;
  do_sortlist : zlen (pd_sortlist p) ≤ MAX_SORTLIST_ENTRIES ∧ Forall sortlist_ok (pd_sortlist p)
}.

Lemma existsb_negb {A} (f : A → bool) l : existsb (λ x, negb (f x)) l = false → forallb f l = true.
Proof. rewrite existsb_false, forallb_true. intros H x Hx. by apply negb_false_iff, H. Qed.

Lemma nameserver_canonical v n : nameserver v = Ok n → nameserver_ok n.
Proof.
  intros ([raw scope] & Hrs & (ip & Hip%ok_or_ok%parse_ip_ok & (? & Hs%ensure_ok & [= <-])%bind_ok)%bind_ok)%bind_ok.
  exists ip. split; [done|]. split; [done|]. cbn. destruct scope as [s|]; [right|by left].
  split; [by destruct ip|]. exists s. split; [|done]. destruct (split_once (ch "%") v) as [[r s']|]; [|done].
  apply bind_ok in Hrs as (? & H1%ensure_ok & (s'' & Hs'' & [= <- <-])%bind_ok).
  apply orb_false_iff in H1 as [[H1 H3]%orb_false_iff H4%negb_false_iff]. apply is_empty_false in H1. apply Z.ltb_ge in H3.
  destruct (forallb is_ascii_digit s') eqn:Ed.
  - apply bind_ok in Hs'' as (n & Hn%ok_or_ok%parse_unsigned_bounds & (? & H0%ensure_ok & [= <-])%bind_ok). apply Z.eqb_neq in H0. apply scope_ok_number. lia.
  - injection Hs'' as <-. split; [done|]. split; [done|]. split; [done|]. by rewrite Ed.
Qed.

Lemma parse_sortlist_ok v e : parse_sortlist v = Ok e → sortlist_ok e.
Proof.
  intros (? & _ & H)%bind_ok. destruct (match split_once (ch "/") v with Some (a, n) => (a, Some n) | None => (v, None) end) as [a nm].
  apply bind_ok in H as (ip & Hip%ok_or_ok%parse_ip_ok & (mask & Hm & (? & Hc%ensure_ok & [= <-])%bind_ok)%bind_ok).
  exists ip. split; [done|]. split; [done|]. split; [done|]. cbn. intros m Em. destruct mask as [mk|]; [|done]. injection Em as <-.
  destruct nm; [|done]. apply bind_ok in Hm as (mk' & Hmk%ok_or_ok%parse_ip_ok & [= ->]). apply orb_false_iff in Hc as [Hf Hc]. split_bools. eauto.
Qed.

Lemma push_sortlist_ok es acc l : push_sortlist es acc = Ok l → Forall sortlist_ok acc → Forall sortlist_ok l ∧ zlen l = zlen acc + zlen es.
Proof.
  revert acc. induction es as [|e es IH]; cbn; intros acc H Ha; [injection H as <-; split; [done|lia]|].
  apply bind_ok in H as (x & Hx%parse_sortlist_ok & H). apply IH in H as [H1 H2]; [|apply Forall_app; split; [done|by constructor]].
  split; [done|]. rewrite length_app in H2. cbn [length] in H2. lia.
Qed.

Lemma dns_directive_ok fields p q : dns_directive fields p = Ok q → dns_ok p → dns_ok q.
Proof.
  unfold dns_directive. intros H [[N1 N2] S D [O1 O2] [L1 L2]]. destruct fields as [|k args]; [done|].
  destruct (str_eqb k _).
  { destruct args as [|v [|]]; try done. apply bind_ok in H as (? & Hn%ensure_ok & (n & Hv%nameserver_canonical & [= <-])%bind_ok). apply Z.eqb_neq in Hn.
    split; cbn; try done. rewrite length_app. split; [cbn; lia|]. apply Forall_app. split; [done|by constructor]. }
  destruct (str_eqb k _).
  { destruct args as [|v l]; [done|]. apply bind_ok in H as (? & [Hn%Z.ltb_ge Hd%existsb_negb]%ensure_ok%orb_false_iff & [= <-]). split; cbn [pd_search_directive pd_search_domains]; try done.
    cbn [length] in *. lia. }
  destruct (str_eqb k _).
  { destruct args as [|v [|]]; try done. apply bind_ok in H as (? & Hd%ensure_ok%negb_false_iff & [= <-]). split; cbn; try done. by rewrite Hd. }
  destruct (str_eqb k _).
  { destruct args as [|v l]; [done|]. apply bind_ok in H as (? & [Hn%Z.ltb_ge Hd%existsb_negb]%ensure_ok%orb_false_iff & [= <-]). split; cbn [pd_options]; try done.
    rewrite length_app, forallb_app, O2, Hd. split; [lia|done]. }
  destruct (str_eqb k _); [|done].
  destruct args as [|v l]; [done|]. apply bind_ok in H as (? & Hn%ensure_ok%Z.ltb_ge & (l' & [Hl1 Hl2]%push_sortlist_ok & [= <-])%bind_ok); [|done].
  split; cbn [pd_sortlist]; try done. split; [lia|done].
Qed.

Lemma dns_lines_ok ls p q : dns_lines ls p = Ok q → dns_ok p → dns_ok q.
Proof.
  revert p. induction ls as [|l ls IH]; cbn; intros p H Hp; [by injection H as <-|].
  apply bind_ok in H as (? & _ & H). case_match; [by eapply IH|]. apply bind_ok in H as (? & _ & (p' & Hd & H)%bind_ok).
  eapply IH; [done|]. by eapply dns_directive_ok.
Qed.

(** [C33] A published resolver configuration is bounded and canonical: at most
    16 name servers, 31 search domains, 32 options and 16 sort entries, name
    servers in canonical text with a scope only on IPv6, domains and options of
    the allowed alphabet, and contiguous netmasks of the family of their
    address. *)
Theorem dns_configuration_bounded output p : parse_dns_configuration output = Ok p → dns_ok p.
Proof.
  intros (? & _ & H)%bind_ok. apply (dns_lines_ok _ _ _ H). split; cbn; try done; (split; [unfold MAX_NAMESERVERS, MAX_OPTIONS, MAX_SORTLIST_ENTRIES; lia|by try constructor]).
Qed.

Definition sample_resolv : str :=
  lit "# stub" ++ 10 :: lit "nameserver 127.0.0.53 # local" ++ [13; 10] ++ lit "nameserver fe80::1%0002" ++ 10 :: lit "domain old.example" ++ 10 ::
  lit "search example.com xn--p1ai." ++ 10 :: lit "options edns0 ndots:2" ++ 10 :: lit "sortlist 192.0.2.0/255.255.255.0" ++ [10].

Lemma dns_configuration_bounded_witness : ∃ p, parse_dns_configuration sample_resolv = Ok p ∧
  map dn_address (pd_nameservers p) = [lit "127.0.0.53"; lit "fe80::1%2"] ∧ pd_search_domains p = [lit "example.com"; lit "xn--p1ai."] ∧ dns_ok p.
Proof.
  eexists. split; [vm_compute; reflexivity|]. split; [reflexivity|]. split; [reflexivity|].
  apply (dns_configuration_bounded sample_resolv). vm_compute. reflexivity.
Defined.
