(* ===== verification/Journal.v ===== *)
(** The recent entries of the system journal ([nexus-discovery/src/logs.rs]).

    Messages are published with their unsafe characters escaped; the escaped
    text determines the message. *)

From S2P Require Import Prelude Str Model Ip IpText Engine Json.

Inductive JournalPriority := Emergency | Alert | Critical | Error | Warning | Notice | Info | Debug.
Inductive SystemJournalMessageState := Text | Missing | Omitted.

Record SystemJournalEntry := {
  je_timestamp : str;
  je_priority : option JournalPriority;
  je_unit : option str;
  je_identifier : option str;
  je_message_state : SystemJournalMessageState;
  je_message : option str
}.

Record SystemJournalSnapshot := {
  sj_host_id : HostId;
  sj_host_session_id : HostSessionId;
  sj_observed_at : str;
  sj_entries : list SystemJournalEntry
}.

Definition i64_max : Z := 2 ^ 63 - 1.

Definition JOURNAL_MAX_RECORDS : Z := 10.
Definition JOURNAL_MAX_RAW_BYTES : Z := 64 * 1024.
Definition MAX_MESSAGE_BYTES : Z := 4096.
Definition MAX_DISPLAY_BYTES : Z := 8192.

Definition journal_unavailable : AppError :=
  app_error Discovery "System journal entries are unavailable for this connection.".

(** ** The raw record *)

(** [None] is [Field::Missing]. *)
Abbreviation Field := (option Json) (only parsing).

Record RawEntry := { re_timestamp : str; re_message : Field; re_priority : Field; re_unit : Field; re_identifier : Field }.

Definition raw_entry (j : Json) : option RawEntry :=
  f ← struct_fields false [lit "__REALTIME_TIMESTAMP"; lit "MESSAGE"; lit "PRIORITY"; lit "_SYSTEMD_UNIT"; lit "SYSLOG_IDENTIFIER"] j;
  timestamp ← required as_string f 0;
  message ← present Some f 1;
  priority ← present Some f 2;
  unit ← present Some f 3;
  identifier ← present Some f 4;
  Some {| re_timestamp := timestamp; re_message := message; re_priority := priority; re_unit := unit; re_identifier := identifier |}.

(** ** Fields *)

Definition unsafe_display (c : char) : bool :=
  is_control c || (c =? 0xad) || (c =? 0x34f) || (c =? 0x61c) || (c =? 0x115f) || (c =? 0x1160)
  || (c =? 0x17b4) || (c =? 0x17b5) || between 0x180b 0x180f c
  || between 0x200b 0x200f c || between 0x2028 0x202e c
  || between 0x2060 0x206f c || (c =? 0x3164) || between 0xfe00 0xfe0f c
  || (c =? 0xfeff) || (c =? 0xffa0) || between 0xfff9 0xfffb c
  || between 0x1bca0 0x1bca3 c || between 0x1d173 0x1d17a c || between 0xe0000 0xe0fff c.

Definition optional_text (field : Field) (bound : Z) (token : bool) : Res (option str) :=
  match field with
  | None | Some JNull | Some (JArray _) | Some (JObject _) => Ok None
  | Some (JString value) =>
      _ ← ensure (is_empty value || (bound <? len value) || existsb (λ c, unsafe_display c || (token && is_whitespace c)) value) journal_unavailable;
      Ok (Some value)
  | Some _ => Err journal_unavailable
  end.

Definition priority (field : Field) : Res (option JournalPriority) :=
  match field with
  | None | Some JNull | Some (JArray _) | Some (JObject _) => Ok None
  | Some (JString [48]) => Ok (Some Emergency)
  | Some (JString [49]) => Ok (Some Alert)
  | Some (JString [50]) => Ok (Some Critical)
  | Some (JString [51]) => Ok (Some Error)
  | Some (JString [52]) => Ok (Some Warning)
  | Some (JString [53]) => Ok (Some Notice)
  | Some (JString [54]) => Ok (Some Info)
  | Some (JString [55]) => Ok (Some Debug)
  | Some _ => Err journal_unavailable
  end.

(** [{:04x}] *)
Definition show_hex4 (n : Z) : str := let s := show_hex n in replicate (4 - length s) 48 ++ s.

(** What one character of a message is displayed as. *)
Definition escape_char (c : char) : str :=
  if c =? 10 then lit "\n" else if c =? 13 then lit "\r" else if c =? 9 then lit "\t" else if c =? ch "\" then lit "\\" else
  if unsafe_display c then lit "\u{" ++ show_hex4 c ++ lit "}" else [c].

(** The loop over the characters: [None] when the display grows too long. *)
Fixpoint escape_loop (value display : str) : option str :=
  match value with
  | [] => Some display
  | c :: rest =>
      let display := display ++ escape_char c in
      if MAX_DISPLAY_BYTES <? len display then None else escape_loop rest display
  end.

Definition journal_message (field : Field) : Res (SystemJournalMessageState * option str) :=
  match field with
  | None => Ok (Missing, None)
  | Some (JString value) =>
      _ ← ensure (MAX_MESSAGE_BYTES <? len value) journal_unavailable;
      match escape_loop value [] with
      | None => Ok (Omitted, None)
      | Some display => Ok (Text, Some display)
      end
  | Some _ => Ok (Omitted, None)
  end.

Section Parser.
(** [serde_json::from_str] as far as the syntax goes, and the dates of
    [chrono]. *)
Context (json : str → option Json) {DateTime : Type} (from_timestamp_micros : Z → option DateTime) (year : DateTime → Z) (to_rfc3339_micros : DateTime → str).

Definition timestamp (raw : str) : Res str :=
  _ ← ensure (is_empty raw || (20 <? len raw) || negb (forallb is_ascii_digit raw)) journal_unavailable;
  micros ← ok_or (parse_u64 raw) journal_unavailable;
  micros ← ok_or (if micros <=? i64_max then Some micros else None) journal_unavailable;
  date ← ok_or (date ← from_timestamp_micros micros; if year date <=? 9999 then Some date else None) journal_unavailable;
  Ok (to_rfc3339_micros date).

Definition journal_entry (line : str) : Res SystemJournalEntry :=
  raw ← ok_or (json line ≫= raw_entry) journal_unavailable;
  '(state, message) ← journal_message (re_message raw);
  ts ← timestamp (re_timestamp raw);
  p ← priority (re_priority raw);
  unit ← optional_text (re_unit raw) 255 true;
  identifier ← optional_text (re_identifier raw) 128 false;
  Ok {| je_timestamp := ts; je_priority := p; je_unit := unit; je_identifier := identifier; je_message_state := state; je_message := message |}.

Fixpoint journal_lines (ls : list str) (entries : list SystemJournalEntry) : Res (list SystemJournalEntry) :=
  match ls with
  | [] => Ok entries
  | line :: rest =>
      _ ← ensure ((zlen entries =? JOURNAL_MAX_RECORDS) || negb (starts_with (lit "{") (trim_start_matches is_whitespace line))) journal_unavailable;
      e ← journal_entry line;
      journal_lines rest (entries ++ [e])
  end.

Definition parse_system_journal (output : str) : Res (list SystemJournalEntry) :=
  _ ← ensure ((JOURNAL_MAX_RAW_BYTES <? len output) || contains_char 0 output) journal_unavailable;
  journal_lines (split_terminator 10 output) [].

Definition observe_system_journal (session : Session) (c : bool) (uuid observed_at : str) (h : HostId) (hs : HostSessionId) : Res SystemJournalSnapshot :=
  output ← match (execute engine_default session (engine_plan uuid SystemJournal) c).1 with
           | Ok output => Ok output
           | Err e => Err {| code := code e; Model.message := Model.message journal_unavailable; host_key := None |}
           end;
  entries ← parse_system_journal output;
  Ok {| sj_host_id := h; sj_host_session_id := hs; sj_observed_at := observed_at; sj_entries := entries |}.
End Parser.

(** ** Escaping *)

Definition escape (s : str) : str := concat (map escape_char s).

(** A reader of escaped text, one character at a time. *)
Inductive Unescape := Plain | Slash | Open | Digits (acc : Z).
Fixpoint unescape (st : Unescape) (s : str) : option str :=
  match s with
  | [] => match st with Plain => Some [] | _ => None end
  | c :: rest =>
      match st with
      | Plain => if c =? ch "\" then unescape Slash rest else cons c <$> unescape Plain rest
      | Slash =>
          if c =? ch "n" then cons 10 <$> unescape Plain rest else if c =? ch "r" then cons 13 <$> unescape Plain rest else
          if c =? ch "t" then cons 9 <$> unescape Plain rest else if c =? ch "\" then cons (ch "\") <$> unescape Plain rest else
          if c =? ch "u" then unescape Open rest else None
      | Open => if c =? ch "{" then unescape (Digits 0) rest else None
      | Digits acc =>
          if c =? ch "}" then cons acc <$> unescape Plain rest else
          match to_digit 16 c with Some d => unescape (Digits (16 * acc + d)) rest | None => None end
      end
  end.

Lemma read_digits_all r a k s v n : read_digits r a k s = (v, n, []) → forallb (λ c, bool_decide (is_Some (to_digit r c))) s = true.
Proof.
  revert a k. induction s as [|c s IH]; [done|]. cbn. intros a k. destruct (to_digit r c); [|done]. rewrite bool_decide_eq_true_2 by eauto. apply IH.
Qed.

Lemma unescape_digits s a k rest : forallb (λ c, bool_decide (is_Some (to_digit 16 c))) s = true →
  unescape (Digits a) (s ++ ch "}" :: rest) = cons (read_digits 16 a k s).1.1 <$> unescape Plain rest.
Proof.
  revert a k. induction s as [|c s IH]; intros a k H; [reflexivity|]. cbn [forallb app unescape read_digits] in *. apply andb_prop in H as [Hc H].
  apply bool_decide_eq_true in Hc as [d Hd]. assert ((c =? ch "}") = false) as -> by (apply Z.eqb_neq; intros ->; by vm_compute in Hd).
  rewrite Hd. by rewrite (IH _ (S k) H), (Z.mul_comm 16 a).
Qed.

Lemma read_zeros n a k s : read_digits 16 a k (replicate n 48 ++ s) = read_digits 16 (a * 16 ^ Z.of_nat n) (n + k) s.
Proof.
  revert a k. induction n as [|n IH]; intros a k; cbn [replicate app read_digits]; [f_equal; lia|]. change (to_digit 16 48) with (Some 0). cbv iota.
  rewrite IH. f_equal; [|lia]. rewrite Nat2Z.inj_succ, Z.pow_succ_r by lia. lia.
Qed.

Lemma unescape_hex4 c rest : 0 ≤ c < 16 ^ 16 → unescape (Digits 0) (show_hex4 c ++ ch "}" :: rest) = cons c <$> unescape Plain rest.
Proof.
  intros Hc. destruct (show_radix_digits 16 16 c [] 16 ltac:(lia) Hc ltac:(lia)) as (ds & Hs & _ & Hf & Hread).
  unfold show_hex4, show_hex. rewrite Hs, app_nil_r. specialize (Hread 0 (4 - length ds + 0)%nat []). rewrite app_nil_r in Hread. cbn [read_digits] in Hread.
  rewrite (unescape_digits _ 0 0).
  - rewrite read_zeros, Z.mul_0_l, Hread. cbn [fst]. by rewrite Z.mul_0_l, Z.add_0_l.
  - rewrite forallb_app, Hf, andb_true_r. clear. induction (4 - length ds)%nat as [|n IH]; [done|]. cbn [replicate forallb]. by rewrite IH.
Qed.

Lemma unsafe_display_bounds c : unsafe_display c = true → 0 ≤ c ≤ 0xe0fff.
Proof. unfold unsafe_display, is_control, between. lia. Qed.

Lemma unescape_char c rest : unescape Plain (escape_char c ++ rest) = cons c <$> unescape Plain rest.
Proof.
  unfold escape_char. destruct (Z.eqb_spec c 10) as [->|]; [reflexivity|]. destruct (Z.eqb_spec c 13) as [->|]; [reflexivity|].
  destruct (Z.eqb_spec c 9) as [->|]; [reflexivity|]. destruct (Z.eqb_spec c (ch "\")) as [->|Hb]; [reflexivity|].
  destruct (unsafe_display c) eqn:Hu.
  - apply unsafe_display_bounds in Hu. rewrite <-app_assoc. change (unescape Plain (lit "\u{" ++ ?s)) with (unescape (Digits 0) s).
    rewrite <-app_assoc. apply unescape_hex4. lia.
  - cbn [app unescape]. by rewrite (proj2 (Z.eqb_neq _ _) Hb).
Qed.

Lemma unescape_escape s : unescape Plain (escape s) = Some s.
Proof. induction s as [|c s IH]; [reflexivity|]. unfold escape in *. cbn [map concat]. by rewrite unescape_char, IH. Qed.

Lemma hex_display_safe c : is_Some (to_digit 16 c) → unsafe_display c = false.
Proof.
  intros [d H%to_digit_char]. revert H. unfold ip_char, is_ascii_hexdigit, is_ascii_digit, unsafe_display, is_control, between.
  change (ch ":") with 58. change (ch ".") with 46. lia.
Qed.

Lemma escape_char_safe c x : x ∈ escape_char c → unsafe_display x = false.
Proof.
  assert (∀ l, existsb unsafe_display l = false → x ∈ l → unsafe_display x = false) as Hl by (intros l H; by apply existsb_false).
  unfold escape_char. destruct (c =? 10); [by apply Hl|]. destruct (c =? 13); [by apply Hl|]. destruct (c =? 9); [by apply Hl|]. destruct (c =? ch "\"); [by apply Hl|].
  destruct (unsafe_display c) eqn:Hu; [|by intros ->%list_elem_of_singleton]. apply unsafe_display_bounds in Hu.
  rewrite !elem_of_app. intros [H|[H|H]]; [by revert H; apply Hl| |by revert H; apply Hl].
  unfold show_hex4 in H. apply elem_of_app in H as [[-> _]%elem_of_replicate|H]; [done|].
  destruct (show_radix_digits 16 16 c [] 16 ltac:(lia) ltac:(cbn; lia) ltac:(lia)) as (ds & Hs & _ & Hf & _).
  unfold show_hex in H. rewrite Hs, app_nil_r in H. rewrite forallb_true in Hf. specialize (Hf x H). apply bool_decide_eq_true in Hf. by apply hex_display_safe.
Qed.

Lemma escaped_is_safe s x : x ∈ escape s → unsafe_display x = false.
Proof. unfold escape. rewrite list_elem_of_In, in_concat. intros (l & (c & <- & _)%in_map_iff & Hx). rewrite <-list_elem_of_In in Hx. by eapply escape_char_safe. Qed.

(** The early exit of the loop is the bound on the whole text. *)
Lemma escape_loop_spec s acc : len acc ≤ MAX_DISPLAY_BYTES →
  escape_loop s acc = if MAX_DISPLAY_BYTES <? len (acc ++ escape s) then None else Some (acc ++ escape s).
Proof.
  revert acc. induction s as [|c s IH]; intros acc Ha; cbn [escape_loop].
  - change (escape []) with (@nil char). rewrite app_nil_r. by rewrite (proj2 (Z.ltb_ge _ _)).
  - change (escape (c :: s)) with (escape_char c ++ escape s). rewrite app_assoc. destruct (Z.ltb_spec MAX_DISPLAY_BYTES (len (acc ++ escape_char c))) as [Hl|Hl]; [|by apply IH].
    rewrite (proj2 (Z.ltb_lt _ _)); [done|]. rewrite len_app. pose proof (len_nonneg (escape s)). lia.
Qed.

Lemma journal_message_text v : len v ≤ MAX_MESSAGE_BYTES →
  journal_message (Some (JString v)) = Ok (if MAX_DISPLAY_BYTES <? len (escape v) then (Omitted, None) else (Text, Some (escape v))).
Proof.
  intros Hv. unfold journal_message. rewrite (proj2 (Z.ltb_ge _ _) Hv). cbn [ensure mbind result_bind]. rewrite escape_loop_spec by (unfold MAX_DISPLAY_BYTES; cbn; lia).
  cbn [app]. by destruct (_ <? _).
Qed.

(** [C31] A displayed message is safe and exact.  A published text has at most
    8192 bytes and no control or invisible character, and the message it stands
    for can be read back from it, so that different messages are never displayed
    alike; a text is left out only when its escaped form is too long. *)
Theorem journal_message_exact f state shown : journal_message f = Ok (state, shown) →
  match f, shown with
  | None, _ => state = Missing ∧ shown = None
  | Some (JString v), Some d => state = Text ∧ unescape Plain d = Some v ∧ len d ≤ MAX_DISPLAY_BYTES ∧ ∀ c, c ∈ d → unsafe_display c = false
  | Some (JString v), None => state = Omitted ∧ MAX_DISPLAY_BYTES < len (escape v)
  | Some _, _ => state = Omitted ∧ shown = None
  end.
Proof.
  destruct f as [[| | | |v| |]|]; try (intros [= <- <-]; by split). intros H. destruct (Z.le_gt_cases (len v) MAX_MESSAGE_BYTES) as [Hv|Hv].
  - rewrite journal_message_text in H by done. destruct (Z.ltb_spec MAX_DISPLAY_BYTES (len (escape v))) as [Hl|Hl]; injection H as <- <-; [done|].
    split; [done|]. split; [apply unescape_escape|]. split; [done|]. apply escaped_is_safe.
  - unfold journal_message in H. by rewrite (proj2 (Z.ltb_lt _ _) Hv) in H.
Qed.

Lemma journal_message_exact_witness :
  journal_message (Some (JString [104; 10; 27; 0x202e; 92])) = Ok (Text, Some (lit "h\n\u{001b}\u{202e}\\")) ∧
  unescape Plain (lit "h\n\u{001b}\u{202e}\\") = Some [104; 10; 27; 0x202e; 92].
Proof.
  split; [vm_compute; reflexivity|].
  apply (journal_message_exact (Some (JString [104; 10; 27; 0x202e; 92])) Text (Some (lit "h\n\u{001b}\u{202e}\\"))). vm_compute. reflexivity.
Defined.
