(* ===== verification/Containers.v ===== *)
(** The Docker containers of a host ([nexus-discovery/src/containers.rs]). *)

From S2P Require Import Prelude Str Model Engine Json Journal.

Inductive ContainerProvider := DockerSystem.
Inductive ContainerState := Created | Restarting | Running | Removing | Paused | Exited | Dead.

Record ContainerEntry := {
  ce_id : str; ce_name : str; ce_image : str; ce_state : ContainerState; ce_status : str; ce_ports : str; ce_networks : str }.

Record ContainerSnapshot := {
  cs_host_id : HostId;
  cs_host_session_id : HostSessionId;
  cs_observed_at : str;
  cs_provider : ContainerProvider;
  cs_entries : list ContainerEntry
}.

Definition CONTAINER_MAX_RECORDS : Z := 64.
Definition CONTAINER_MAX_RAW_BYTES : Z := 64 * 1024.

Definition containers_unavailable : AppError :=
  app_error Discovery "Docker container inventory is unavailable for this connection.".

(** ** The raw record *)

Definition container_state (s : str) : option ContainerState :=
  if str_eqb s (lit "created") then Some Created else if str_eqb s (lit "restarting") then Some Restarting else
  if str_eqb s (lit "running") then Some Running else if str_eqb s (lit "removing") then Some Removing else
  if str_eqb s (lit "paused") then Some Paused else if str_eqb s (lit "exited") then Some Exited else
  if str_eqb s (lit "dead") then Some Dead else None.

Record RawContainer := {
  rc_id : str; rc_image : str; rc_name : str; rc_state : ContainerState; rc_status : str; rc_ports : str; rc_networks : str }.

Definition raw_container (j : Json) : option RawContainer :=
  f ← struct_fields true [lit "id"; lit "image"; lit "name"; lit "state"; lit "status"; lit "ports"; lit "networks"] j;
  id ← required as_string f 0;
  image ← required as_string f 1;
  name ← required as_string f 2;
  state ← required (as_variant container_state) f 3;
  status ← required as_string f 4;
  ports ← required as_string f 5;
  networks ← required as_string f 6;
  Some {| rc_id := id; rc_image := image; rc_name := name; rc_state := state; rc_status := status; rc_ports := ports; rc_networks := networks |}.

(** ** Validation *)

Definition display_text (value : str) (max_bytes : Z) (required : bool) : Res unit :=
  ensure ((required && is_empty value) || (max_bytes <? len value) || existsb unsafe_display value) containers_unavailable.

Definition container_try_from (raw : RawContainer) : Res ContainerEntry :=
  _ ← ensure (negb (len (rc_id raw) =? 64) || negb (forallb (λ c, is_ascii_digit c || between (ch "a") (ch "f") c) (rc_id raw))) containers_unavailable;
  _ ← display_text (rc_name raw) 255 true;
  _ ← display_text (rc_image raw) 512 true;
  _ ← display_text (rc_status raw) 512 true;
  _ ← display_text (rc_ports raw) 1024 false;
  _ ← display_text (rc_networks raw) 1024 false;
  Ok {| ce_id := rc_id raw; ce_name := rc_name raw; ce_image := rc_image raw; ce_state := rc_state raw; ce_status := rc_status raw;
        ce_ports := rc_ports raw; ce_networks := rc_networks raw |}.

Section Parser.
(** [serde_json::from_str] as far as the syntax goes. *)
Context (json : str → option Json).

Fixpoint container_lines (ls : list str) (entries : list ContainerEntry) : Res (list ContainerEntry) :=
  match ls with
  | [] => Ok entries
  | line :: rest =>
      _ ← ensure ((zlen entries =? CONTAINER_MAX_RECORDS) || negb (starts_with (lit "{") (trim_start_matches is_whitespace line))) containers_unavailable;
      raw ← ok_or (json line ≫= raw_container) containers_unavailable;
      e ← container_try_from raw;
      container_lines rest (entries ++ [e])
  end.

Definition parse_docker_containers (output : str) : Res (list ContainerEntry) :=
  _ ← ensure ((CONTAINER_MAX_RAW_BYTES <? len output) || contains_char 0 output) containers_unavailable;
  container_lines (split_terminator 10 output) [].

Definition observe_docker_containers (session : Session) (c : bool) (uuid observed_at : str) (h : HostId) (hs : HostSessionId) : Res ContainerSnapshot :=
  output ← match (execute engine_default session (engine_plan uuid DockerContainers) c).1 with
           | Ok output => Ok output
           | Err e => Err {| code := code e; Model.message := Model.message containers_unavailable; host_key := None |}
           end;
  entries ← parse_docker_containers output;
  Ok {| cs_host_id := h; cs_host_session_id := hs; cs_observed_at := observed_at; cs_provider := DockerSystem; cs_entries := entries |}.
End Parser.

(** ** What is accepted *)

Definition shown_text (v : str) (max : Z) : Prop := len v ≤ max ∧ ∀ c, c ∈ v → unsafe_display c = false.

Record container_ok (e : ContainerEntry) : Prop := {
  co_id : zlen (ce_id e) = 64 ∧ ∀ c, c ∈ ce_id e → is_ascii_digit c || between (ch "a") (ch "f") c = true;
  co_named : ce_name e ≠ [] ∧ ce_image e ≠ [] ∧ ce_status e ≠ [];
  co_texts : shown_text (ce_name e) 255 ∧ shown_text (ce_image e) 512 ∧ shown_text (ce_status e) 512 ∧ shown_text (ce_ports e) 1024 ∧ shown_text (ce_networks e) 1024
}.

Lemma display_text_ok v m r u : display_text v m r = Ok u → shown_text v m ∧ (r = true → v ≠ []).
Proof.
  intros [[H1 H2]%orb_false_iff H3]%ensure_ok%orb_false_iff. apply Z.ltb_ge in H2. split; [split; [done|by apply existsb_false]|].
  intros ->. by apply is_empty_false.
Qed.

Lemma container_try_from_ok raw e : container_try_from raw = Ok e → container_ok e.
Proof.
  intros (? & Hid%ensure_ok & (? & N%display_text_ok & (? & I%display_text_ok & (? & S%display_text_ok & (? & P%display_text_ok & (? & W%display_text_ok & [= <-])%bind_ok)%bind_ok)%bind_ok)%bind_ok)%bind_ok)%bind_ok.
  apply orb_false_iff in Hid as [Hl%negb_false_iff%Z.eqb_eq Hc%negb_false_iff]. rewrite forallb_true in Hc.
  destruct N as [N N'], I as [I I'], S as [S S'], P as [P _], W as [W _]. split; cbn; [split; [|done]|by auto|done].
  rewrite <-Hl. symmetry. apply len_ascii. apply forallb_true. intros c H%Hc. revert H. unfold is_ascii, is_ascii_digit, between.
  change (ch "a") with 97. change (ch "f") with 102. lia.
Qed.

Lemma container_lines_ok json ls acc l : container_lines json ls acc = Ok l → Forall container_ok acc → zlen acc ≤ CONTAINER_MAX_RECORDS →
  Forall container_ok l ∧ zlen l ≤ CONTAINER_MAX_RECORDS ∧ length l = (length acc + length ls)%nat.
Proof.
  revert acc. induction ls as [|x ls IH]; cbn; intros acc H Ha Hn; [injection H as <-; split; [done|]; split; [done|lia]|].
  apply bind_ok in H as (? & Hc%ensure_ok & (raw & _ & (e & He%container_try_from_ok & H)%bind_ok)%bind_ok). apply orb_false_iff in Hc as [Hc%Z.eqb_neq _].
  apply IH in H as (H1 & H2 & H3); [|apply Forall_app; split; [done|by constructor]|rewrite length_app; cbn [length]; lia].
  split; [done|]. split; [done|]. rewrite length_app in H3. cbn [length] in H3. lia.
Qed.

(** A container inventory is whole and safe to display: one entry per line
    of the output, at most 64, each with a 64-digit lower-case hexadecimal
    identifier, a name, an image and a status, and texts within their bounds
    and without control or invisible characters. *)
Theorem containers_are_safe json output l : parse_docker_containers json output = Ok l →
  Forall container_ok l ∧ zlen l ≤ CONTAINER_MAX_RECORDS ∧ length l = length (split_terminator 10 output).
Proof. intros (? & _ & H)%bind_ok. apply container_lines_ok in H; [done|constructor|]. unfold CONTAINER_MAX_RECORDS. cbn. lia. Qed.

Definition sample_container : Json :=
  JObject [(lit "id", JString (replicate 64 (ch "a"))); (lit "image", JString (lit "nginx:latest")); (lit "name", JString (lit "web"));
    (lit "state", JString (lit "running")); (lit "status", JString (lit "Up 2 hours")); (lit "ports", JString (lit "")); (lit "networks", JString (lit "bridge"))].

Lemma containers_are_safe_witness : ∃ l, parse_docker_containers (λ _, Some sample_container) (lit "{}") = Ok l ∧ map ce_name l = [lit "web"] ∧ Forall container_ok l.
Proof.
  eexists. split; [vm_compute; reflexivity|]. split; [reflexivity|].
  apply (containers_are_safe (λ _, Some sample_container) (lit "{}")). vm_compute. reflexivity.
Defined.
