(* ===== verification/F64.v ===== *)
(** IEEE 754 double precision, as far as the program uses it.

    Values are those of the Standard Library's [SpecFloat] with 53 bits of
    precision and maximal exponent 1024, which rounds to nearest, ties to even,
    like the hardware.  [parse_f64] is [str::parse::<f64>()]. *)

From Stdlib Require Import SpecFloat.
From S2P Require Import Prelude Str.

Abbreviation F64 := spec_float (only parsing).

Definition f64_normalize (m e : Z) : F64 := binary_normalize 53 1024 m e false.
(** [n as f64] *)
Definition f64_of_u64 (n : Z) : F64 := f64_normalize n 0.
Definition f64_div : F64 → F64 → F64 := SFdiv 53 1024.
Definition f64_mul : F64 → F64 → F64 := SFmul 53 1024.
Definition f64_add : F64 → F64 → F64 := SFadd 53 1024.
Definition f64_lt : F64 → F64 → bool := SFltb.
Definition f64_le : F64 → F64 → bool := SFleb.
Definition is_finite (x : F64) : bool := match x with S754_zero _ | S754_finite _ _ _ => true | _ => false end.
(** [x.clamp(min, max)] for ordered bounds. *)
Definition f64_clamp (x lo hi : F64) : F64 := let x := if f64_lt x lo then lo else x in if f64_lt hi x then hi else x.

(** The positive rational [n / d], correctly rounded: enough quotient bits, and
    the remainder as the last one. *)
Definition f64_of_ratio (n d : Z) : F64 :=
  let s := Z.max 0 (70 + Z.log2 d - Z.log2 n) in
  let n := Z.shiftl n s in
  f64_normalize (2 * (n / d) + (if n mod d =? 0 then 0 else 1)) (- (s + 1)).

(** [m * 10 ^ e] for a natural [m]. *)
Definition f64_of_decimal (m e : Z) : F64 :=
  if m =? 0 then S754_zero false else if 0 <=? e then f64_of_ratio (m * 10 ^ e) 1 else f64_of_ratio m (10 ^ (- e)).

(** The bit pattern. *)
Definition f64_bits (x : F64) : Z :=
  let sign (s : bool) := if s then 2 ^ 63 else 0 in
  match x with
  | S754_zero s => sign s
  | S754_infinity s => sign s + Z.shiftl 0x7ff 52
  | S754_nan => 0x7ff8000000000000
  | S754_finite s m e => sign s + (if Zpos m <? 2 ^ 52 then Zpos m else Z.shiftl (e + 1075) 52 + (Zpos m - 2 ^ 52))
  end.

(** ** Decimal text *)

(** The leading digits: value, count and rest. *)
Fixpoint scan_digits (acc count : Z) (s : str) : Z * Z * str :=
  match s with
  | c :: rest => if is_ascii_digit c then scan_digits (10 * acc + (c - 48)) (count + 1) rest else (acc, count, s)
  | [] => (acc, count, [])
  end.

Definition parse_exponent (s : str) : option Z :=
  match s with
  | [] => Some 0
  | c :: rest =>
      if (c =? ch "e") || (c =? ch "E") then
        let '(negative, rest) := match rest with 45 :: r => (true, r) | 43 :: r => (false, r) | _ => (false, rest) end in
        let '(v, n, rest) := scan_digits 0 0 rest in
        if (n =? 0) || negb (is_empty rest) then None else Some (if negative then - v else v)
      else None
  end.

Definition parse_unsigned_f64 (s : str) : option F64 :=
  let lower := map to_ascii_lower s in
  if str_eqb lower (lit "nan") then Some S754_nan else
  if str_eqb lower (lit "inf") || str_eqb lower (lit "infinity") then Some (S754_infinity false) else
  let '(whole, n, rest) := scan_digits 0 0 s in
  let '(mantissa, total, rest) := match rest with 46 :: rest => scan_digits whole n rest | _ => (whole, n, rest) end in
  if total =? 0 then None else
  e ← parse_exponent rest;
  Some (f64_of_decimal mantissa (e - (total - n))).

Definition parse_f64 (s : str) : option F64 :=
  match s with
  | 45 :: r => SFopp <$> parse_unsigned_f64 r
  | 43 :: r => parse_unsigned_f64 r
  | _ => parse_unsigned_f64 s
  end.

(** ** Known values *)

Example f64_tenth : f64_bits <$> parse_f64 (lit "0.1") = Some 0x3FB999999999999A.
Proof. vm_compute. reflexivity. Qed.
Example f64_uptime : f64_bits <$> parse_f64 (lit "12345.67") = Some 0x40C81CD5C28F5C29.
Proof. vm_compute. reflexivity. Qed.
Example f64_tie : f64_bits <$> parse_f64 (lit "9007199254740993") = Some 0x4340000000000000.
Proof. vm_compute. reflexivity. Qed.
Example f64_least : f64_bits <$> parse_f64 (lit "5e-324") = Some 1.
Proof. vm_compute. reflexivity. Qed.
Example f64_overflow : f64_bits <$> parse_f64 (lit "-1.8e308") = Some 0xFFF0000000000000.
Proof. vm_compute. reflexivity. Qed.
Example f64_rejects : map parse_f64 [lit ""; lit "."; lit "e5"; lit "1e"; lit "+"; lit "0x1"; lit "1_0"] = [None; None; None; None; None; None; None].
Proof. vm_compute. reflexivity. Qed.

(** ** Order *)

Lemma SFcompare_swap x y : SFcompare y x = CompOpp <$> SFcompare x y.
Proof.
  destruct x as [sx|sx| |sx mx ex], y as [sy|sy| |sy my ey]; try (by destruct sx); try (by destruct sy); try done; try (by destruct sx, sy).
  cbn. rewrite (Z.compare_antisym ex ey). change (Pos.compare_cont Eq my mx) with (my ?= mx)%positive. change (Pos.compare_cont Eq mx my) with (mx ?= my)%positive.
  rewrite (Pos.compare_antisym mx my). destruct sx, sy, (ex ?= ey), (mx ?= my)%positive; done.
Qed.

Lemma SFcompare_some x y : x ≠ S754_nan → y ≠ S754_nan → is_Some (SFcompare x y).
Proof. destruct x as [[]|[]| |[] mx ex], y as [[]|[]| |[] my ey]; try done; intros _ _; cbn; eauto. Qed.

Lemma f64_le_not_lt x y : x ≠ S754_nan → y ≠ S754_nan → f64_lt x y = false → f64_le y x = true.
Proof.
  intros Hx Hy. unfold f64_lt, f64_le, SFltb, SFleb. rewrite (SFcompare_swap x y). destruct (SFcompare_some x y Hx Hy) as [[] ->]; done.
Qed.

Lemma f64_lt_le x y : f64_lt x y = true → f64_le x y = true.
Proof. unfold f64_lt, f64_le, SFltb, SFleb. by destruct (SFcompare x y) as [[]|]. Qed.

(** A clamped number is between the bounds. *)
Lemma f64_clamp_bounds x lo hi : x ≠ S754_nan → lo ≠ S754_nan → hi ≠ S754_nan → f64_le lo lo = true → f64_le hi hi = true → f64_le lo hi = true →
  f64_le lo (f64_clamp x lo hi) = true ∧ f64_le (f64_clamp x lo hi) hi = true.
Proof.
  intros Hx Hl Hh Ll Lh Llh. unfold f64_clamp. destruct (f64_lt x lo) eqn:E1; destruct (f64_lt hi _) eqn:E2; split; try done;
    try (apply f64_le_not_lt; done).
Qed.
