(* ===== verification/Parsers.v ===== *)
(** The parsers of the discovery probes ([nexus-discovery/src/parsers.rs]). *)

From S2P Require Import Prelude Str Model F64.

Definition probe_invalid : AppError := app_error Discovery "The host returned an unsupported discovery value.".

Definition scalar (output : str) : Res str :=
  let value := trim output in
  _ ← ensure (is_empty value || (256 <? len value) || existsb is_control value) probe_invalid;
  Ok value.

Definition first_number (output : str) : Res F64 :=
  word ← ok_or (head (split_whitespace output)) probe_invalid;
  number ← ok_or (parse_f64 word) probe_invalid;
  _ ← ensure (negb (is_finite number) || f64_lt number (SpecFloat.S754_zero false)) probe_invalid;
  Ok number.

(** ** [os-release] assignments *)

(** The text between double quotes: only a few characters can be escaped. *)
Fixpoint unquote (inner : str) : Res str :=
  match inner with
  | [] => Ok []
  | c :: rest =>
      if c =? 34 then Err probe_invalid else
      if c =? ch "\" then
        match rest with
        | [] => Err probe_invalid
        | next :: rest' =>
            if (next =? ch "$") || (next =? ch "`") || (next =? 34) || (next =? ch "\")
            then r ← unquote rest'; Ok (next :: r)
            else r ← unquote rest; Ok (c :: r)
        end
      else r ← unquote rest; Ok (c :: r)
  end.

Definition assignment_value (input : str) : Res str :=
  match input with
  | [] => Ok []
  | quote :: tail =>
      value ← (if (quote =? 34) || (quote =? 39) then
                 _ ← ensure ((len input <? 2) || negb (ends_with [quote] input)) probe_invalid;
                 let inner := removelast tail in
                 if quote =? 39 then _ ← ensure (contains_char 39 inner) probe_invalid; Ok inner else unquote inner
               else
                 _ ← ensure (existsb is_whitespace input || contains_char 39 input || contains_char 34 input) probe_invalid;
                 Ok input);
      if is_empty value then Ok value else scalar value
  end.

Definition os_keys : list str := [lit "NAME"; lit "ID"; lit "VERSION_ID"; lit "VERSION"].

Fixpoint os_release_lines (ls : list str) (values : gmap str str) : Res (gmap str str) :=
  match ls with
  | [] => Ok values
  | line :: rest =>
      let line := trim line in
      if is_empty line || starts_with (lit "#") line then os_release_lines rest values else
      match split_once (ch "=") line with
      | None => os_release_lines rest values
      | Some (key, value) =>
          if str_in key os_keys then v ← assignment_value (trim value); os_release_lines rest (<[key := v]> values)
          else os_release_lines rest values
      end
  end.

Definition or_else {A} (a b : option A) : option A := match a with Some _ => a | None => b end.

Definition os_release (output : str) : Res (str * option str) :=
  values ← os_release_lines (lines output) ∅;
  name ← ok_or (or_else (values !! lit "NAME") (values !! lit "ID")) probe_invalid;
  _ ← ensure (is_empty name) probe_invalid;
  let version := or_else (values !! lit "VERSION_ID") (values !! lit "VERSION") in
  Ok (name, match version with Some v => if is_empty v then None else Some v | None => None end).

(** ** Memory and the root file system *)

Definition kib_bytes (value : str) : Res Z :=
  v ← ok_or (parse_u64 value) probe_invalid;
  ok_or (checked_mul v 1024) probe_invalid.

Definition memory_keys : list str :=
  [lit "MemTotal"; lit "MemAvailable"; lit "MemFree"; lit "Buffers"; lit "Cached"; lit "SReclaimable"; lit "Shmem"].

Fixpoint memory_lines (ls : list str) (values : gmap str Z) : Res (gmap str Z) :=
  match ls with
  | [] => Ok values
  | line :: rest =>
      match split_once (ch ":") line with
      | None => memory_lines rest values
      | Some (key, value) =>
          if negb (str_in key memory_keys) then memory_lines rest values else
          match split_whitespace value with
          | [number; unit] =>
              _ ← ensure (negb (str_eqb unit (lit "kB"))) probe_invalid;
              bytes ← kib_bytes number;
              _ ← ensure (bool_decide (is_Some (values !! key))) probe_invalid;
              memory_lines rest (<[key := bytes]> values)
          | _ => Err probe_invalid
          end
      end
  end.

Definition memory (output : str) : Res (Z * Z) :=
  values ← memory_lines (lines output) ∅;
  total ← ok_or (values !! lit "MemTotal") probe_invalid;
  _ ← ensure (total =? 0) probe_invalid;
  available ← match values !! lit "MemAvailable" with
              | Some available => Ok available
              | None =>
                  free ← ok_or (values !! lit "MemFree") probe_invalid;
                  e ← ok_or (checked_add free (default 0 (values !! lit "Buffers"))) probe_invalid;
                  e ← ok_or (checked_add e (default 0 (values !! lit "Cached"))) probe_invalid;
                  e ← ok_or (checked_add e (default 0 (values !! lit "SReclaimable"))) probe_invalid;
                  Ok (Z.min (saturating_sub e (default 0 (values !! lit "Shmem"))) total)
              end;
  used ← ok_or (checked_sub total available) probe_invalid;
  Ok (total, used).

Definition is_root_row (line : str) : bool :=
  match rev (split_whitespace line) with w :: _ => str_eqb w (lit "/") | [] => false end.

Definition root_filesystem (output : str) : Res (Z * Z) :=
  row ← ok_or (List.find is_root_row (lines output)) probe_invalid;
  match rev (split_whitespace row) with
  | _ :: capacity :: available :: used :: total :: device :: _ =>
      _ ← ensure (negb (ends_with (lit "%") capacity)) probe_invalid;
      _ ← ok_or (parse_i128 available) probe_invalid;
      used ← kib_bytes used;
      total ← kib_bytes total;
      _ ← ensure ((total =? 0) || (total <? used)) probe_invalid;
      Ok (total, used)
  | _ => Err probe_invalid
  end.

(** ** Laws *)

Lemma kib_bytes_u64 v n : kib_bytes v = Ok n → is_u64 n.
Proof.
  intros (x & Hx%ok_or_ok%parse_unsigned_bounds & (-> & Hc)%ok_or_ok%checked_mul_spec)%bind_ok. unfold is_u64. lia.
Qed.

Lemma memory_lines_u64 ls m m' : memory_lines ls m = Ok m' → map_Forall (λ _, is_u64) m → map_Forall (λ _, is_u64) m'.
Proof.
  revert m. induction ls as [|l ls IH]; cbn; intros m; [by intros [= <-]|].
  destruct (split_once _ l) as [[key value]|]; [|apply IH]. destruct (negb _); [apply IH|].
  destruct (split_whitespace value) as [|number [|unit [|]]]; try done.
  intros (? & _ & (b & Hb%kib_bytes_u64 & (? & _ & H)%bind_ok)%bind_ok)%bind_ok Hm. apply (IH _ H). by apply map_Forall_insert_2.
Qed.

Lemma default_u64 (m : gmap str Z) k : map_Forall (λ _, is_u64) m → is_u64 (default 0 (m !! k)).
Proof. intros H. destruct (m !! k) eqn:E; [by apply (H k)|]. cbn. unfold is_u64, u64_max. lia. Qed.

Lemma memory_bounds output t u : memory output = Ok (t, u) → 0 < t ≤ u64_max ∧ 0 ≤ u ≤ t.
Proof.
  intros (m & Hm%memory_lines_u64 & (total & Ht%ok_or_ok & (? & H0%ensure_ok%Z.eqb_neq & (a & Ha & (used & [-> Hle]%ok_or_ok%checked_sub_spec & [= <- <-])%bind_ok)%bind_ok)%bind_ok)%bind_ok)%bind_ok; [|done].
  pose proof (Hm _ _ Ht) as Htu. unfold is_u64 in Htu. assert (0 ≤ a); [|lia].
  destruct (m !! lit "MemAvailable") as [av|] eqn:Ev; [injection Ha as <-; pose proof (Hm _ _ Ev) as Hv; unfold is_u64 in Hv; lia|].
  apply bind_ok in Ha as (f & _ & (e1 & _ & (e2 & _ & (e3 & _ & [= <-])%bind_ok)%bind_ok)%bind_ok). unfold saturating_sub. lia.
Qed.

Lemma root_filesystem_bounds output t u : root_filesystem output = Ok (t, u) → 0 < t ≤ u64_max ∧ 0 ≤ u ≤ t.
Proof.
  intros (row & _ & H)%bind_ok. repeat (case_match; try done; []).
  apply bind_ok in H as (? & _ & (? & _ & (us & Hu%kib_bytes_u64 & (tt & Ht%kib_bytes_u64 & (? & Hc%ensure_ok & [= <- <-])%bind_ok)%bind_ok)%bind_ok)%bind_ok).
  unfold is_u64 in *. split_bools. lia.
Qed.

(** ** Quoting *)

Definition os_special (c : char) : bool := (c =? ch "$") || (c =? ch "`") || (c =? 34) || (c =? ch "\").
(** A value between double quotes, as [os-release] files write it. *)
Definition os_escape (v : str) : str := concat (map (λ c, if os_special c then [ch "\"; c] else [c]) v).
Definition os_quote (v : str) : str := 34 :: os_escape v ++ [34].

Lemma unquote_escape v : unquote (os_escape v) = Ok v.
Proof.
  induction v as [|c v IH]; [reflexivity|]. unfold os_escape in *. cbn [map concat]. destruct (os_special c) eqn:E; cbn [app unquote].
  - change (ch "\" =? 34) with false. change (ch "\" =? ch "\") with true. cbv iota. fold (os_special c). rewrite E. by rewrite IH.
  - unfold os_special in E. rewrite !orb_false_iff in E. destruct E as [[[_ _] E1] E2]. rewrite E1, E2. by rewrite IH.
Qed.

(** The value of an assignment is never reinterpreted: a value written in
    double quotes with its special characters escaped is read as exactly that
    value, and refused only when it is no scalar. *)
Theorem os_release_quoting v : assignment_value (os_quote v) = if is_empty v then Ok v else scalar v.
Proof.
  unfold assignment_value, os_quote. change ((34 =? 34) || (34 =? 39)) with true. change (34 =? 39) with false. cbv iota zeta.
  assert ((len (34 :: os_escape v ++ [34]) <? 2) = false) as ->.
  { apply Z.ltb_ge. cbn [len]. rewrite len_app. pose proof (len_nonneg (os_escape v)). change (utf8_width 34) with 1. change (len [34]) with 1. lia. }
  assert (ends_with [34] (34 :: os_escape v ++ [34]) = true) as -> by (apply ends_with_true; by exists (34 :: os_escape v)).
  cbn [orb negb ensure mbind result_bind]. rewrite removelast_last, unquote_escape. reflexivity.
Qed.
