(* ===== verification/Discovery.v ===== *)
(** Discovery of a host: the probes, their loop and the capability registry
    ([nexus-discovery/src/probes.rs], [lib.rs], [capabilities.rs]). *)

From S2P Require Import Prelude Str Model F64 Engine Parsers Hosts KnownHosts Sessions.

(** [format!] of ASCII text. *)
Definition ascii_text (s : str) : string := String.string_of_list_ascii (map (λ c, Ascii.ascii_of_N (Z.to_N c)) s).

(** ** The probes *)

Definition set_hostname (v : str) (s : DiscoverySnapshot) : DiscoverySnapshot :=
  {| ds_hostname := Some v; ds_os := ds_os s; ds_os_version := ds_os_version s; ds_kernel := ds_kernel s; ds_architecture := ds_architecture s;
     ds_uptime_seconds := ds_uptime_seconds s; ds_load_one := ds_load_one s; ds_memory_total_bytes := ds_memory_total_bytes s;
     ds_memory_used_bytes := ds_memory_used_bytes s; ds_root_total_bytes := ds_root_total_bytes s; ds_root_used_bytes := ds_root_used_bytes s;
     ds_observed_at := ds_observed_at s; ds_warnings := ds_warnings s |}.
Definition set_os (name : str) (version : option str) (s : DiscoverySnapshot) : DiscoverySnapshot :=
  {| ds_hostname := ds_hostname s; ds_os := Some name; ds_os_version := version; ds_kernel := ds_kernel s; ds_architecture := ds_architecture s;
     ds_uptime_seconds := ds_uptime_seconds s; ds_load_one := ds_load_one s; ds_memory_total_bytes := ds_memory_total_bytes s;
     ds_memory_used_bytes := ds_memory_used_bytes s; ds_root_total_bytes := ds_root_total_bytes s; ds_root_used_bytes := ds_root_used_bytes s;
     ds_observed_at := ds_observed_at s; ds_warnings := ds_warnings s |}.
Definition set_kernel (v : str) (s : DiscoverySnapshot) : DiscoverySnapshot :=
  {| ds_hostname := ds_hostname s; ds_os := ds_os s; ds_os_version := ds_os_version s; ds_kernel := Some v; ds_architecture := ds_architecture s;
     ds_uptime_seconds := ds_uptime_seconds s; ds_load_one := ds_load_one s; ds_memory_total_bytes := ds_memory_total_bytes s;
     ds_memory_used_bytes := ds_memory_used_bytes s; ds_root_total_bytes := ds_root_total_bytes s; ds_root_used_bytes := ds_root_used_bytes s;
     ds_observed_at := ds_observed_at s; ds_warnings := ds_warnings s |}.
Definition set_architecture (v : str) (s : DiscoverySnapshot) : DiscoverySnapshot :=
  {| ds_hostname := ds_hostname s; ds_os := ds_os s; ds_os_version := ds_os_version s; ds_kernel := ds_kernel s; ds_architecture := Some v;
     ds_uptime_seconds := ds_uptime_seconds s; ds_load_one := ds_load_one s; ds_memory_total_bytes := ds_memory_total_bytes s;
     ds_memory_used_bytes := ds_memory_used_bytes s; ds_root_total_bytes := ds_root_total_bytes s; ds_root_used_bytes := ds_root_used_bytes s;
     ds_observed_at := ds_observed_at s; ds_warnings := ds_warnings s |}.
Definition set_numbers (uptime load : option f64) (s : DiscoverySnapshot) : DiscoverySnapshot :=
  {| ds_hostname := ds_hostname s; ds_os := ds_os s; ds_os_version := ds_os_version s; ds_kernel := ds_kernel s; ds_architecture := ds_architecture s;
     ds_uptime_seconds := uptime; ds_load_one := load; ds_memory_total_bytes := ds_memory_total_bytes s;
     ds_memory_used_bytes := ds_memory_used_bytes s; ds_root_total_bytes := ds_root_total_bytes s; ds_root_used_bytes := ds_root_used_bytes s;
     ds_observed_at := ds_observed_at s; ds_warnings := ds_warnings s |}.
Definition set_memory (m : Z * Z) (s : DiscoverySnapshot) : DiscoverySnapshot :=
  {| ds_hostname := ds_hostname s; ds_os := ds_os s; ds_os_version := ds_os_version s; ds_kernel := ds_kernel s; ds_architecture := ds_architecture s;
     ds_uptime_seconds := ds_uptime_seconds s; ds_load_one := ds_load_one s; ds_memory_total_bytes := Some m.1;
     ds_memory_used_bytes := Some m.2; ds_root_total_bytes := ds_root_total_bytes s; ds_root_used_bytes := ds_root_used_bytes s;
     ds_observed_at := ds_observed_at s; ds_warnings := ds_warnings s |}.
Definition set_root (m : Z * Z) (s : DiscoverySnapshot) : DiscoverySnapshot :=
  {| ds_hostname := ds_hostname s; ds_os := ds_os s; ds_os_version := ds_os_version s; ds_kernel := ds_kernel s; ds_architecture := ds_architecture s;
     ds_uptime_seconds := ds_uptime_seconds s; ds_load_one := ds_load_one s; ds_memory_total_bytes := ds_memory_total_bytes s;
     ds_memory_used_bytes := ds_memory_used_bytes s; ds_root_total_bytes := Some m.1; ds_root_used_bytes := Some m.2;
     ds_observed_at := ds_observed_at s; ds_warnings := ds_warnings s |}.
Definition add_warning (w : AppError) (s : DiscoverySnapshot) : DiscoverySnapshot :=
  {| ds_hostname := ds_hostname s; ds_os := ds_os s; ds_os_version := ds_os_version s; ds_kernel := ds_kernel s; ds_architecture := ds_architecture s;
     ds_uptime_seconds := ds_uptime_seconds s; ds_load_one := ds_load_one s; ds_memory_total_bytes := ds_memory_total_bytes s;
     ds_memory_used_bytes := ds_memory_used_bytes s; ds_root_total_bytes := ds_root_total_bytes s; ds_root_used_bytes := ds_root_used_bytes s;
     ds_observed_at := ds_observed_at s; ds_warnings := ds_warnings s ++ [w] |}.
Definition set_observed_at (t : str) (s : DiscoverySnapshot) : DiscoverySnapshot :=
  {| ds_hostname := ds_hostname s; ds_os := ds_os s; ds_os_version := ds_os_version s; ds_kernel := ds_kernel s; ds_architecture := ds_architecture s;
     ds_uptime_seconds := ds_uptime_seconds s; ds_load_one := ds_load_one s; ds_memory_total_bytes := ds_memory_total_bytes s;
     ds_memory_used_bytes := ds_memory_used_bytes s; ds_root_total_bytes := ds_root_total_bytes s; ds_root_used_bytes := ds_root_used_bytes s;
     ds_observed_at := t; ds_warnings := ds_warnings s |}.

Definition not_a_probe : AppError := app_error Policy "On-demand commands are not discovery probes.".

(** [LinuxProbe::parse]: the snapshot is only changed on success. *)
Definition probe_parse (c : ReadOnlyCommand) (output : str) (s : DiscoverySnapshot) : Res DiscoverySnapshot :=
  match c with
  | Hostname => v ← scalar output; Ok (set_hostname v s)
  | OsRelease => '(name, version) ← os_release output; Ok (set_os name version s)
  | Kernel => v ← scalar output; Ok (set_kernel v s)
  | Architecture => v ← scalar output; Ok (set_architecture v s)
  | Uptime => n ← first_number output; Ok (set_numbers (Some (f64_bits n)) (ds_load_one s) s)
  | LoadAverage => n ← first_number output; Ok (set_numbers (ds_uptime_seconds s) (Some (f64_bits n)) s)
  | Memory => m ← memory output; Ok (set_memory m s)
  | RootFilesystem => m ← root_filesystem output; Ok (set_root m s)
  | _ => Err not_a_probe
  end.

Definition BUILTIN_PROBES : list ReadOnlyCommand :=
  [Hostname; OsRelease; Kernel; Architecture; Uptime; LoadAverage; Memory; RootFilesystem].

(** ** The loop *)

Definition discovery_cancelled : AppError := app_error Cancelled "Host discovery was cancelled.".
Definition probe_warning (c : ReadOnlyCommand) (e : AppError) : AppError :=
  app_error (code e) (ascii_text (kind c) ++ " discovery is unavailable.").

Definition empty_snapshot (now : str) : DiscoverySnapshot :=
  {| ds_hostname := None; ds_os := None; ds_os_version := None; ds_kernel := None; ds_architecture := None; ds_uptime_seconds := None;
     ds_load_one := None; ds_memory_total_bytes := None; ds_memory_used_bytes := None; ds_root_total_bytes := None; ds_root_used_bytes := None;
     ds_observed_at := now; ds_warnings := [] |}.

(** The token as it is read: at the head of an iteration, by the engine, and
    after a failure. *)
Record Reads := { at_head : bool; at_engine : bool; at_failure : bool }.

Definition probe_result (session : Session) (r : Reads) (c : ReadOnlyCommand) (s : DiscoverySnapshot) : Res DiscoverySnapshot :=
  output ← (execute engine_default session (engine_plan [] c) (at_engine r)).1; probe_parse c output s.

Fixpoint discover_loop (session : Session) (token : ReadOnlyCommand → Reads) (probes : list ReadOnlyCommand) (s : DiscoverySnapshot)
    : Res DiscoverySnapshot :=
  match probes with
  | [] => Ok s
  | c :: rest =>
      _ ← ensure (at_head (token c)) discovery_cancelled;
      match probe_result session (token c) c s with
      | Ok s => discover_loop session token rest s
      | Err e =>
          _ ← ensure (bool_decide (code e = Cancelled) || at_failure (token c)) discovery_cancelled;
          discover_loop session token rest (add_warning (probe_warning c e) s)
      end
  end.

Definition discover (session : Session) (token : ReadOnlyCommand → Reads) (at_end : bool) (start finish : str) : Res DiscoverySnapshot :=
  s ← discover_loop session token BUILTIN_PROBES (empty_snapshot start);
  _ ← ensure at_end discovery_cancelled;
  Ok (set_observed_at finish s).

(** ** The capability registry *)

Definition invalid_capability : AppError :=
  app_error Validation "Capability identifiers must be lowercase names of at most 64 characters.".

(** Sorted by identifier, as a [BTreeMap] iterates. *)
Definition CapabilityRegistry := list (str * bool).

Fixpoint str_compare (a b : str) : comparison :=
  match a, b with
  | [], [] => Eq
  | [], _ => Lt
  | _, [] => Gt
  | x :: a, y :: b => match x ?= y with Eq => str_compare a b | c => c end
  end.

Fixpoint registry_insert (id : str) (available : bool) (r : CapabilityRegistry) : CapabilityRegistry :=
  match r with
  | [] => [(id, available)]
  | (k, v) :: rest =>
      match str_compare id k with
      | Lt => (id, available) :: r
      | Eq => (id, available) :: rest
      | Gt => (k, v) :: registry_insert id available rest
      end
  end.

Definition capability_char (c : char) : bool := is_ascii_lower c || is_ascii_digit c || (c =? ch "-") || (c =? ch ".").

Definition register (id : str) (available : bool) (r : CapabilityRegistry) : Res CapabilityRegistry :=
  _ ← ensure (is_empty id || (64 <? len id) || negb (match id with c :: _ => is_ascii_lower c | [] => false end) ||
              negb (forallb capability_char id) || negb (match rev id with c :: _ => is_ascii_alphanumeric c | [] => false end)) invalid_capability;
  Ok (registry_insert id available r).

Definition registry_snapshot (r : CapabilityRegistry) : list HostCapability :=
  map (λ kv, {| hc_id := kv.1; hc_available := kv.2 |}) r.

(** ** What a snapshot holds *)

Definition scalar_ok (v : str) : Prop := v ≠ [] ∧ len v ≤ 256 ∧ ∀ c, c ∈ v → is_control c = false.
Definition usage_ok (total used : option Z) : Prop :=
  match total, used with
  | Some t, Some u => 0 < t ≤ u64_max ∧ 0 ≤ u ≤ t
  | None, None => True
  | _, _ => False
  end.

Definition text_ok (v : option str) : Prop := match v with Some t => scalar_ok t | None => True end.

(** The bits of a finite number that is not negative. *)
Definition number_ok (v : option f64) : Prop :=
  match v with Some bits => ∃ x, bits = f64_bits x ∧ is_finite x = true ∧ f64_le (SpecFloat.S754_zero false) x = true | None => True end.

Record snapshot_ok (s : DiscoverySnapshot) : Prop := {
  sk_texts : Forall text_ok [ds_hostname s; ds_os s; ds_os_version s; ds_kernel s; ds_architecture s];
  sk_numbers : Forall number_ok [ds_uptime_seconds s; ds_load_one s];
  sk_memory : usage_ok (ds_memory_total_bytes s) (ds_memory_used_bytes s);
  sk_root : usage_ok (ds_root_total_bytes s) (ds_root_used_bytes s)
}.

(** What a reader makes of the output of one command: nothing when the command
    failed or its output was refused. *)
Definition answer {A} (session : Session) (token : ReadOnlyCommand → Reads) (c : ReadOnlyCommand) (parse : str → Res A) : option A :=
  match output ← (execute engine_default session (engine_plan [] c) (at_engine (token c))).1; parse output with Ok v => Some v | Err _ => None end.

(** Every value comes from the output of its own command. *)
Record observed (session : Session) (token : ReadOnlyCommand → Reads) (s : DiscoverySnapshot) : Prop := {
  ob_hostname : ds_hostname s = answer session token Hostname scalar;
  ob_os : ds_os s = fst <$> answer session token OsRelease os_release;
  ob_os_version : ds_os_version s = answer session token OsRelease os_release ≫= snd;
  ob_kernel : ds_kernel s = answer session token Kernel scalar;
  ob_architecture : ds_architecture s = answer session token Architecture scalar;
  ob_uptime : ds_uptime_seconds s = f64_bits <$> answer session token Uptime first_number;
  ob_load : ds_load_one s = f64_bits <$> answer session token LoadAverage first_number;
  ob_memory_total : ds_memory_total_bytes s = fst <$> answer session token Memory memory;
  ob_memory_used : ds_memory_used_bytes s = snd <$> answer session token Memory memory;
  ob_root_total : ds_root_total_bytes s = fst <$> answer session token RootFilesystem root_filesystem;
  ob_root_used : ds_root_used_bytes s = snd <$> answer session token RootFilesystem root_filesystem
}.

Lemma first_number_gives o n : first_number o = Ok n → number_ok (Some (f64_bits n)).
Proof.
  intros (w & _ & (x & _ & (? & [Hf Hl]%ensure_ok%orb_false_iff & [= <-])%bind_ok)%bind_ok)%bind_ok. apply negb_false_iff in Hf.
  exists x. split; [done|]. split; [done|]. apply f64_le_not_lt; [by intros ->|done|done].
Qed.

Lemma scalar_gives o v : scalar o = Ok v → scalar_ok v.
Proof.
  intros (? & [[H1 H2]%orb_false_iff H3]%ensure_ok%orb_false_iff & [= <-])%bind_ok. split; [by apply is_empty_false|]. split; [by apply Z.ltb_ge|].
  by apply existsb_false.
Qed.

Lemma assignment_gives i v : assignment_value i = Ok v → v = [] ∨ scalar_ok v.
Proof.
  destruct i as [|q t]; [intros [= <-]; by left|]. intros (w & _ & H)%bind_ok. destruct (is_empty w) eqn:E.
  - injection H as <-. left. by apply is_empty_true.
  - right. by eapply scalar_gives.
Qed.

Lemma os_lines_gives ls m m' : os_release_lines ls m = Ok m' → map_Forall (λ _ v, v = [] ∨ scalar_ok v) m → map_Forall (λ _ v, v = [] ∨ scalar_ok v) m'.
Proof.
  revert m. induction ls as [|l ls IH]; intros m; [by intros [= <-]|]. cbn [os_release_lines]. case_match; [apply IH|]. destruct (split_once _ _) as [[k v]|]; [|apply IH].
  destruct (str_in k os_keys); [|apply IH]. intros (x & Hx%assignment_gives & Hr)%bind_ok Hm. apply (IH _ Hr). by apply map_Forall_insert_2.
Qed.

Lemma or_else_some {A} (a b : option A) x : or_else a b = Some x → a = Some x ∨ b = Some x.
Proof. destruct a; cbn; auto. Qed.

Lemma os_release_gives o n v : os_release o = Ok (n, v) → scalar_ok n ∧ text_ok v.
Proof.
  intros (m & Hm%os_lines_gives & (name & Hn%ok_or_ok%or_else_some & (? & He%ensure_ok%is_empty_false & [= <- <-])%bind_ok)%bind_ok)%bind_ok; [|by intros ? ? ?%lookup_empty_Some].
  split; [destruct Hn as [Hn|Hn]; by destruct (Hm _ _ Hn)|]. 
  destruct (or_else (m !! lit "VERSION_ID") _) as [w|] eqn:Ew; [|done]. destruct (is_empty w) eqn:Ee; [done|]. apply is_empty_false in Ee.
  apply or_else_some in Ew as [Ew|Ew]; by destruct (Hm _ _ Ew).
Qed.

Ltac snapshot_part := split; [split; cbn; try done; repeat (constructor; [done|]); constructor|done].

Lemma probe_parse_ok c o s s' : probe_parse c o s = Ok s' → snapshot_ok s → snapshot_ok s' ∧ ds_warnings s' = ds_warnings s.
Proof.
  intros H [Ht Hn Hm Hr]. decompose_Forall. destruct c; cbn in H; try done.
  - apply bind_ok in H as (v & Hv%scalar_gives & [= <-]). snapshot_part.
  - apply bind_ok in H as ([n v] & [Hn Hv]%os_release_gives & [= <-]). snapshot_part.
  - apply bind_ok in H as (v & Hv%scalar_gives & [= <-]). snapshot_part.
  - apply bind_ok in H as (v & Hv%scalar_gives & [= <-]). snapshot_part.
  - apply bind_ok in H as (v & Hv%first_number_gives & [= <-]). snapshot_part.
  - apply bind_ok in H as (v & Hv%first_number_gives & [= <-]). snapshot_part.
  - apply bind_ok in H as ([t u] & Hb%memory_bounds & [= <-]). snapshot_part.
  - apply bind_ok in H as ([t u] & Hb%root_filesystem_bounds & [= <-]). snapshot_part.
Qed.

(** Whether a probe fails does not depend on what was discovered before. *)
Definition probe_failure (session : Session) (r : Reads) (c : ReadOnlyCommand) : option AppError :=
  match probe_result session r c (empty_snapshot []) with Ok _ => None | Err e => Some e end.

Lemma bind_err_ext {A B} (m : Res A) (f g : A → Res B) e : (∀ a e, f a = Err e ↔ g a = Err e) → (m ≫= f) = Err e ↔ (m ≫= g) = Err e.
Proof. intros H. destruct m; cbn; [apply H|done]. Qed.

Lemma probe_result_err session r c s s' e : probe_result session r c s = Err e ↔ probe_result session r c s' = Err e.
Proof.
  apply bind_err_ext. intros o e'. destruct c; cbn; try done; apply bind_err_ext; by try intros [].
Qed.

Lemma probe_failure_some session r c s e : probe_result session r c s = Err e ↔ probe_failure session r c = Some e.
Proof.
  unfold probe_failure. rewrite (probe_result_err session r c s (empty_snapshot [])). destruct (probe_result _ _ _ _); split; intros H; simplify_eq; done.
Qed.

Definition failures (session : Session) (token : ReadOnlyCommand → Reads) (probes : list ReadOnlyCommand) : list AppError :=
  omap (λ c, probe_warning c <$> probe_failure session (token c) c) probes.

(** A reason to stop at a probe. *)
Definition stopped_at (session : Session) (token : ReadOnlyCommand → Reads) (c : ReadOnlyCommand) : Prop :=
  at_head (token c) = true ∨ ∃ e, probe_failure session (token c) c = Some e ∧ (code e = Cancelled ∨ at_failure (token c) = true).

Lemma discover_loop_spec session token probes s : snapshot_ok s →
  match discover_loop session token probes s with
  | Ok s' => snapshot_ok s' ∧ ds_warnings s' = ds_warnings s ++ failures session token probes ∧ ∀ c, c ∈ probes → ¬ stopped_at session token c
  | Err e => e = discovery_cancelled ∧ ∃ c, c ∈ probes ∧ stopped_at session token c
  end.
Proof.
  revert s. induction probes as [|c probes IH]; intros s Hs; cbn; [split; [done|]; split; [by rewrite app_nil_r|by intros ? ?%elem_of_nil]|].
  destruct (at_head (token c)) eqn:Eh; cbn; [split; [done|]; exists c; split; [apply list_elem_of_here|by left]|].
  destruct (probe_result session (token c) c s) as [s'|e] eqn:Er.
  - assert (probe_failure session (token c) c = None) as Hf.
    { destruct (probe_failure session (token c) c) as [e|] eqn:Ef; [|done]. apply (probe_failure_some session (token c) c s) in Ef. by rewrite Er in Ef. }
    apply bind_ok in Er as (o & _ & [Hs' Hw]%probe_parse_ok); [|done]. specialize (IH s' Hs').
    destruct (discover_loop session token probes s') as [s''|e].
    + destruct IH as (H1 & H2 & H3). split; [done|]. rewrite H2, Hw, Hf. split; [done|].
      intros x [->|Hx]%elem_of_cons; [|by apply H3]. unfold stopped_at. rewrite Eh, Hf. naive_solver.
    + destruct IH as (-> & x & Hx & Hst). split; [done|]. exists x. split; [by apply list_elem_of_further|done].
  - apply probe_failure_some in Er as Ef. destruct (bool_decide (code e = Cancelled) || at_failure (token c)) eqn:Ec; cbn.
    + split; [done|]. exists c. split; [apply list_elem_of_here|]. right. exists e. split; [done|]. apply orb_true_iff in Ec as [?%bool_decide_eq_true|?]; auto.
    + assert (snapshot_ok (add_warning (probe_warning c e) s)) as Hs' by (by destruct Hs). specialize (IH _ Hs').
      apply orb_false_iff in Ec as [Ec1%bool_decide_eq_false Ec2].
      destruct (discover_loop session token probes _) as [s''|e'].
      * destruct IH as (H1 & H2 & H3). split; [done|]. rewrite H2, Ef. cbn. split; [by rewrite <-app_assoc|].
        intros x [->|Hx]%elem_of_cons; [|by apply H3]. unfold stopped_at. rewrite Eh, Ec2, Ef. naive_solver.
      * destruct IH as (-> & x & Hx & Hst). split; [done|]. exists x. split; [by apply list_elem_of_further|done].
Qed.

(** ** Where the values come from *)

(** The part of a snapshot that a probe fills, and what it fills it with. *)
Definition part (c : ReadOnlyCommand) (s : DiscoverySnapshot) : list (option (str + Z)) :=
  match c with
  | Hostname => [inl <$> ds_hostname s]
  | OsRelease => [inl <$> ds_os s; inl <$> ds_os_version s]
  | Kernel => [inl <$> ds_kernel s]
  | Architecture => [inl <$> ds_architecture s]
  | Uptime => [inr <$> ds_uptime_seconds s]
  | LoadAverage => [inr <$> ds_load_one s]
  | Memory => [inr <$> ds_memory_total_bytes s; inr <$> ds_memory_used_bytes s]
  | RootFilesystem => [inr <$> ds_root_total_bytes s; inr <$> ds_root_used_bytes s]
  | _ => []
  end.

Definition part_read (session : Session) (token : ReadOnlyCommand → Reads) (c : ReadOnlyCommand) : list (option (str + Z)) :=
  match c with
  | Hostname | Kernel | Architecture => [inl <$> answer session token c scalar]
  | OsRelease => let r := answer session token c os_release in [inl <$> (fst <$> r); inl <$> (r ≫= snd)]
  | Uptime | LoadAverage => [inr <$> (f64_bits <$> answer session token c first_number)]
  | Memory => let r := answer session token c memory in [inr <$> (fst <$> r); inr <$> (snd <$> r)]
  | RootFilesystem => let r := answer session token c root_filesystem in [inr <$> (fst <$> r); inr <$> (snd <$> r)]
  | _ => []
  end.

(** One turn of the loop, when it goes on. *)
Definition turn (session : Session) (token : ReadOnlyCommand → Reads) (s : DiscoverySnapshot) (c : ReadOnlyCommand) : DiscoverySnapshot :=
  match probe_result session (token c) c s with Ok s' => s' | Err e => add_warning (probe_warning c e) s end.

Lemma discover_loop_turns session token probes s s' : discover_loop session token probes s = Ok s' → s' = foldl (turn session token) s probes.
Proof.
  revert s. induction probes as [|c probes IH]; intros s; cbn; [by intros [= <-]|]. intros (? & _ & H)%bind_ok. unfold turn at 2.
  destruct (probe_result session (token c) c s); [by apply IH|]. apply bind_ok in H as (? & _ & H). by apply IH.
Qed.

(** A probe fills its own part, and no other. *)
Lemma turn_part session token s c d : part c (turn session token s d) =
  if bool_decide (c = d) then match probe_failure session (token c) c with None => part_read session token c | Some _ => part c s end else part c s.
Proof.
  unfold turn, probe_failure, probe_result, part_read, answer. case_bool_decide as E.
  - subst d. destruct (execute _ _ _ _).1 as [o|]; cbn; [|by destruct c].
    destruct c; cbn; try done; first [by destruct (scalar o)|by destruct (os_release o) as [[]|]|by destruct (first_number o)
      |by destruct (memory o)|by destruct (root_filesystem o)].
  - destruct (execute _ _ _ _).1 as [o|]; cbn; [|by destruct c].
    destruct d; cbn; try (by destruct c); first [by destruct (scalar o), c|by destruct (os_release o) as [[]|], c|by destruct (first_number o), c
      |by destruct (memory o), c|by destruct (root_filesystem o), c].
Qed.

(** A probe that failed has nothing to show. *)
Lemma part_read_failed session token c e now : probe_failure session (token c) c = Some e → part c (empty_snapshot now) = part_read session token c.
Proof.
  unfold probe_failure, probe_result, part_read, answer. destruct (execute _ _ _ _).1 as [o|]; cbn; [|by destruct c].
  destruct c; cbn; try done; first [by destruct (scalar o)|by destruct (os_release o) as [[]|]|by destruct (first_number o)
      |by destruct (memory o)|by destruct (root_filesystem o)].
Qed.

Lemma turns_part session token now probes c s : part c s = part c (empty_snapshot now) → c ∈ probes → NoDup probes →
  part c (foldl (turn session token) s probes) = part_read session token c.
Proof.
  assert (∀ probes s, c ∉ probes → part c (foldl (turn session token) s probes) = part c s) as Hout.
  { clear. induction probes as [|d probes IH]; intros s H; [done|]. apply not_elem_of_cons in H as [H1 H2]. cbn.
    rewrite IH by done. rewrite turn_part. by rewrite bool_decide_eq_false_2. }
  revert s. induction probes as [|d probes IH]; intros s Hs Hin Hnd; [by apply elem_of_nil in Hin|]. apply list.NoDup_cons in Hnd as [Hd Hnd]. cbn.
  destruct (decide (c = d)) as [<-|Hne].
  - rewrite Hout by done. rewrite turn_part, bool_decide_eq_true_2 by done.
    destruct (probe_failure session (token c) c) as [e|] eqn:E; [|done]. rewrite Hs. by eapply part_read_failed.
  - apply IH; [|by apply elem_of_cons in Hin as [|]|done]. rewrite turn_part. by rewrite bool_decide_eq_false_2.
Qed.

Lemma discover_loop_observed session token now s : discover_loop session token BUILTIN_PROBES (empty_snapshot now) = Ok s → observed session token s.
Proof.
  intros ->%discover_loop_turns. set (t := foldl _ _ _).
  assert (∀ c, c ∈ BUILTIN_PROBES → part c t = part_read session token c) as H.
  { intros c Hc. by apply (turns_part session token now); [|done|apply (bool_decide_unpack _)]. }
  pose proof (H Hostname ltac:(repeat constructor)) as H1. pose proof (H OsRelease ltac:(repeat constructor)) as H2. pose proof (H Kernel ltac:(repeat constructor)) as H3.
  pose proof (H Architecture ltac:(repeat constructor)) as H4. pose proof (H Uptime ltac:(repeat constructor)) as H5. pose proof (H LoadAverage ltac:(repeat constructor)) as H6.
  pose proof (H Memory ltac:(repeat constructor)) as H7. pose proof (H RootFilesystem ltac:(repeat constructor)) as H8. clearbody t. clear H. cbn in *.
  destruct t as [h o v k a u l mt mu rt ru n w]. unfold part_read in *. cbn in *.
  simplify_list_eq. by split.
Qed.

(** [C29] Discovery degrades and never misreports.  It ends with a snapshot or,
    for a cancellation alone, with the cancellation error.  The snapshot has one
    warning, in order, for each probe that failed and none else.  Every value is
    what its own parser reads in the output of its own command, and is missing
    when that command failed or its output was refused.  The texts are short and
    free of control characters, uptime and load are finite and not negative, and
    for memory and the root file system there are both numbers or neither, the
    used one at most the total. *)
Theorem discovery_degrades session token at_end start finish :
  match discover session token at_end start finish with
  | Ok s => snapshot_ok s ∧ observed session token s ∧ ds_observed_at s = finish ∧ ds_warnings s = failures session token BUILTIN_PROBES
  | Err e => e = discovery_cancelled ∧ (at_end = true ∨ ∃ c, c ∈ BUILTIN_PROBES ∧ stopped_at session token c)
  end.
Proof.
  unfold discover. assert (snapshot_ok (empty_snapshot start)) as He by (split; cbn; try done; repeat (constructor; [done|]); constructor).
  pose proof (discover_loop_spec session token BUILTIN_PROBES _ He) as H. destruct (discover_loop _ _ _ _) as [s|e] eqn:E; cbn.
  - destruct H as ([Ht Hn Hm Hr] & Hw & _). destruct at_end; cbn; [by split; [|left]|]. split; [by split|].
    apply discover_loop_observed in E as []. by split.
  - destruct H as [-> H]. split; [done|by right].
Qed.
