(* ===== verification/Monitoring.v ===== *)
(** Monitoring readings and the samples derived from them
    ([nexus-discovery/src/monitoring.rs]). *)

From Stdlib Require Import SpecFloat.
From S2P Require Import Prelude Str Model F64 Engine Parsers Discovery.

Definition MAX_CPU_FIELDS : Z := 16.
Definition MONITOR_MAX_INTERFACES : Z := 128.
Definition MAX_INTERFACE_NAME : Z := 64.

Record CpuCounters := { cpu_fields : list Z }.
(** A sorted map in the source: its order only decides in which order counters
    are summed. *)
Record NetworkCounters := { nc_interfaces : gmap str (Z * Z) }.

Record MonitorReading := {
  mr_observed_at : str;
  mr_cpu : option CpuCounters;
  mr_memory : option (Z * Z);
  mr_swap : option (Z * Z);
  mr_root : option (Z * Z);
  mr_network : option NetworkCounters;
  mr_warnings : list AppError
}.

Record MonitorBaseline := { mb_cpu : option CpuCounters; mb_network : option NetworkCounters }.

Record HostMonitorSample := {
  hm_host_id : HostId;
  hm_host_session_id : HostSessionId;
  hm_observed_at : str;
  hm_cpu_usage_percent : option F64;
  hm_memory : option (Z * Z);                       (** total and used bytes *)
  hm_swap : option (Z * Z);
  hm_root : option (Z * Z);
  hm_network : option F64 * option F64;            (** received and sent bytes per second *)
  hm_warnings : list AppError
}.

Definition monitor_invalid : AppError := app_error Discovery "The host returned an unsupported monitoring value.".

(** ** Parsers *)

Definition parse_counters (words : list str) : Res (list Z) := ok_or (mapM parse_u64 words) monitor_invalid.

(** [try_fold] with [checked_add]. *)
Fixpoint checked_sum (acc : Z) (l : list Z) : option Z :=
  match l with [] => Some acc | v :: l => acc ← checked_add acc v; checked_sum acc l end.

Definition parse_cpu (output : str) : Res CpuCounters :=
  row ← ok_or (List.find (starts_with (lit "cpu ")) (lines output)) monitor_invalid;
  values ← parse_counters (drop 1 (split_whitespace row));
  _ ← ensure ((zlen values <? 4) || (MAX_CPU_FIELDS <? zlen values)) monitor_invalid;
  _ ← ok_or (checked_sum 0 (take 8 values)) monitor_invalid;
  Ok {| cpu_fields := values |}.

Fixpoint swap_lines (ls : list str) (total free : option Z) : Res (option Z * option Z) :=
  match ls with
  | [] => Ok (total, free)
  | line :: rest =>
      match split_once (ch ":") line with
      | None => swap_lines rest total free
      | Some (key, value) =>
          let is_total := str_eqb key (lit "SwapTotal") in
          if negb is_total && negb (str_eqb key (lit "SwapFree")) then swap_lines rest total free else
          match split_whitespace value with
          | [number; unit] =>
              v ← ok_or (parse_u64 number) monitor_invalid;
              bytes ← ok_or (checked_mul v 1024) monitor_invalid;
              _ ← ensure (negb (str_eqb unit (lit "kB"))) monitor_invalid;
              _ ← ensure (bool_decide (is_Some (if is_total then total else free))) monitor_invalid;
              if is_total then swap_lines rest (Some bytes) free else swap_lines rest total (Some bytes)
          | _ => Err monitor_invalid
          end
      end
  end.

Definition parse_swap (output : str) : Res (Z * Z) :=
  '(total, free) ← swap_lines (lines output) None None;
  total ← ok_or total monitor_invalid;
  free ← ok_or free monitor_invalid;
  used ← ok_or (checked_sub total free) monitor_invalid;
  Ok (total, used).

(** Both sums over the interfaces other than the loopback. *)
Definition aggregate_step (name : str) (c : Z * Z) (acc : option (Z * Z)) : option (Z * Z) :=
  a ← acc;
  if str_eqb name (lit "lo") then Some a else
  rx ← checked_add a.1 c.1;
  tx ← checked_add a.2 c.2;
  Some (rx, tx).
Definition aggregate_network (m : gmap str (Z * Z)) : Res (Z * Z) := ok_or (map_fold aggregate_step (Some (0, 0)) m) monitor_invalid.

Fixpoint network_lines (ls : list str) (m : gmap str (Z * Z)) : Res (gmap str (Z * Z)) :=
  match ls with
  | [] => Ok m
  | line :: rest =>
      _ ← ensure (MONITOR_MAX_INTERFACES <=? zsize m) monitor_invalid;
      '(name, counters) ← ok_or (split_once (ch ":") line) monitor_invalid;
      let name := trim name in
      _ ← ensure (is_empty name || (MAX_INTERFACE_NAME <? len name) || existsb (λ c, is_control c || is_whitespace c) name) monitor_invalid;
      values ← parse_counters (split_whitespace counters);
      _ ← ensure (negb (zlen values =? 16)) monitor_invalid;
      _ ← ensure (bool_decide (is_Some (m !! name))) monitor_invalid;
      network_lines rest (<[name := (nth 0 values 0, nth 8 values 0)]> m)
  end.

Definition parse_net_dev (output : str) : Res NetworkCounters :=
  m ← network_lines (List.filter (λ l, negb (is_empty (trim l))) (drop 2 (lines output))) ∅;
  _ ← ensure (bool_decide (m = ∅)) monitor_invalid;
  _ ← aggregate_network m;
  Ok {| nc_interfaces := m |}.

(** ** Differences between readings *)

Definition f64_100 : F64 := f64_of_u64 100.
Definition f64_tolerance : F64 := f64_of_decimal 1 (-9).

Definition deltas (current previous : list Z) : option (list Z) := mapM (λ p, checked_sub p.1 p.2) (zip current previous).

(** [deltas[3]] exists: [parse_cpu] wants four fields at least. *)
Definition cpu_percent (current previous : CpuCounters) : option F64 :=
  if negb (length (cpu_fields current) =? length (cpu_fields previous))%nat then None else
  ds ← deltas (take 8 (cpu_fields current)) (take 8 (cpu_fields previous));
  total ← checked_sum 0 ds;
  if total =? 0 then None else
  fourth ← ds !! 3%nat;
  idle ← checked_add fourth (default 0 (ds !! 4%nat));
  busy ← checked_sub total idle;
  let value := f64_mul (f64_div (f64_of_u64 busy) (f64_of_u64 total)) f64_100 in
  if is_finite value && f64_le (SFopp f64_tolerance) value && f64_le value (f64_add f64_100 f64_tolerance)
  then Some (f64_clamp value (S754_zero false) f64_100) else None.

(** [Duration::as_secs_f64] *)
Definition as_secs_f64 (d : Duration) : F64 :=
  f64_add (f64_of_u64 (d / 1000000000)) (f64_div (f64_of_u64 (d mod 1000000000)) (f64_of_u64 1000000000)).

Definition rate_step (previous : gmap str (Z * Z)) (name : str) (c : Z * Z) (acc : option (Z * Z)) : option (Z * Z) :=
  a ← acc;
  old ← previous !! name;
  drx ← checked_sub c.1 old.1;
  dtx ← checked_sub c.2 old.2;
  if str_eqb name (lit "lo") then Some a else
  rx ← checked_add a.1 drx;
  tx ← checked_add a.2 dtx;
  Some (rx, tx).

Definition network_rates (current previous : NetworkCounters) (elapsed : Duration) : option (F64 * F64) :=
  if elapsed =? 0 then None else
  if negb (bool_decide (dom (nc_interfaces current) =@{gset str} dom (nc_interfaces previous))) then None else
  d ← map_fold (rate_step (nc_interfaces previous)) (Some (0, 0)) (nc_interfaces current);
  let seconds := as_secs_f64 elapsed in
  if negb (is_finite seconds) || f64_le seconds (S754_zero false) then None else
  let rx := f64_div (f64_of_u64 d.1) seconds in
  let tx := f64_div (f64_of_u64 d.2) seconds in
  if is_finite rx && is_finite tx then Some (rx, tx) else None.

(** ** Observing *)

Definition metric_warning (metric : str) (c : ErrorCode) : AppError :=
  let name := if str_eqb metric (lit "monitor.cpu") then "CPU"%string else if str_eqb metric (lit "discovery.memory") then "memory"%string else
    if str_eqb metric (lit "swap") then "swap"%string else if str_eqb metric (lit "discovery.root_filesystem") then "root filesystem"%string else
    if str_eqb metric (lit "monitor.network") then "network"%string else "monitoring"%string in
  app_error c (name ++ " monitoring is unavailable.").

Definition monitor_cancelled : AppError := app_error Cancelled "Host monitoring was cancelled.".

Definition empty_reading (now : str) : MonitorReading :=
  {| mr_observed_at := now; mr_cpu := None; mr_memory := None; mr_swap := None; mr_root := None; mr_network := None; mr_warnings := [] |}.

Definition warn (w : list AppError) (r : MonitorReading) : MonitorReading :=
  {| mr_observed_at := mr_observed_at r; mr_cpu := mr_cpu r; mr_memory := mr_memory r; mr_swap := mr_swap r; mr_root := mr_root r;
     mr_network := mr_network r; mr_warnings := mr_warnings r ++ w |}.

(** The metric of a command, read into the reading. *)
Definition read_metric (c : ReadOnlyCommand) (output : str) (r : MonitorReading) : Res MonitorReading :=
  match c with
  | CpuStat => v ← parse_cpu output;
      Ok {| mr_observed_at := mr_observed_at r; mr_cpu := Some v; mr_memory := mr_memory r; mr_swap := mr_swap r; mr_root := mr_root r; mr_network := mr_network r; mr_warnings := mr_warnings r |}
  | Memory => v ← memory output;
      Ok {| mr_observed_at := mr_observed_at r; mr_cpu := mr_cpu r; mr_memory := Some v; mr_swap := mr_swap r; mr_root := mr_root r; mr_network := mr_network r; mr_warnings := mr_warnings r |}
  | RootFilesystem => v ← root_filesystem output;
      Ok {| mr_observed_at := mr_observed_at r; mr_cpu := mr_cpu r; mr_memory := mr_memory r; mr_swap := mr_swap r; mr_root := Some v; mr_network := mr_network r; mr_warnings := mr_warnings r |}
  | NetworkDevices => v ← parse_net_dev output;
      Ok {| mr_observed_at := mr_observed_at r; mr_cpu := mr_cpu r; mr_memory := mr_memory r; mr_swap := mr_swap r; mr_root := mr_root r; mr_network := Some v; mr_warnings := mr_warnings r |}
  | _ => Ok r
  end.

Definition read_swap (output : str) (r : MonitorReading) : MonitorReading :=
  match parse_swap output with
  | Ok v => {| mr_observed_at := mr_observed_at r; mr_cpu := mr_cpu r; mr_memory := mr_memory r; mr_swap := Some v; mr_root := mr_root r; mr_network := mr_network r; mr_warnings := mr_warnings r |}
  | Err e => warn [metric_warning (lit "swap") (code e)] r
  end.

Definition is_memory (c : ReadOnlyCommand) : bool := match c with Memory => true | _ => false end.

(** The warning of the swap metric comes before that of the command. *)
Definition read_output (c : ReadOnlyCommand) (output : str) (r : MonitorReading) : MonitorReading :=
  let parsed := read_metric c output r in
  let r := match parsed with Ok r => r | Err _ => r end in
  let r := if is_memory c then read_swap output r else r in
  match parsed with Ok _ => r | Err e => warn [metric_warning (kind c) (code e)] r end.

Fixpoint monitor_loop (session : Session) (token : ReadOnlyCommand → Reads) (cs : list ReadOnlyCommand) (r : MonitorReading) : Res MonitorReading :=
  match cs with
  | [] => Ok r
  | c :: rest =>
      _ ← ensure (at_head (token c)) monitor_cancelled;
      match (execute engine_default session (engine_plan [] c) (at_engine (token c))).1 with
      | Ok output => monitor_loop session token rest (read_output c output r)
      | Err e =>
          if bool_decide (code e = Cancelled) || at_failure (token c) then Err monitor_cancelled else
          if bool_decide (code e = Connection) then Err e else
          monitor_loop session token rest
            (warn ((if is_memory c then [metric_warning (lit "swap") (code e)] else []) ++ [metric_warning (kind c) (code e)]) r)
      end
  end.

Definition monitor_commands : list ReadOnlyCommand := [CpuStat; Memory; RootFilesystem; NetworkDevices].

Definition observe_monitor (session : Session) (token : ReadOnlyCommand → Reads) (start finish : str) : Res MonitorReading :=
  r ← monitor_loop session token monitor_commands (empty_reading start);
  Ok {| mr_observed_at := finish; mr_cpu := mr_cpu r; mr_memory := mr_memory r; mr_swap := mr_swap r; mr_root := mr_root r;
        mr_network := mr_network r; mr_warnings := mr_warnings r |}.

Definition derive_sample (h : HostId) (hs : HostSessionId) (reading : MonitorReading) (previous : option MonitorBaseline) (elapsed : option Duration)
    : HostMonitorSample * MonitorBaseline :=
  let cpu := old ← previous; a ← mr_cpu reading; b ← mb_cpu old; cpu_percent a b in
  let net := old ← previous; a ← mr_network reading; b ← mb_network old; d ← elapsed; network_rates a b d in
  ({| hm_host_id := h; hm_host_session_id := hs; hm_observed_at := mr_observed_at reading; hm_cpu_usage_percent := cpu;
      hm_memory := mr_memory reading; hm_swap := mr_swap reading; hm_root := mr_root reading;
      hm_network := match net with Some (rx, tx) => (Some rx, Some tx) | None => (None, None) end; hm_warnings := mr_warnings reading |},
   {| mb_cpu := mr_cpu reading; mb_network := mr_network reading |}).

(** ** Rates are real *)

Lemma deltas_le c p ds : deltas c p = Some ds → length c = length p → Forall2 Z.le p c.
Proof.
  revert p ds. induction c as [|x c IH]; intros [|y p] ds H Hl; try done. unfold deltas in H. cbn in H.
  destruct (checked_sub x y) as [d|] eqn:E; [|done]. cbn in H. apply checked_sub_spec in E as [_ Hle].
  destruct (mapM _ (zip c p)) as [ds'|] eqn:E2; [|done]. constructor; [done|]. apply (IH p ds'); [exact E2|]. cbn in Hl. lia.
Qed.

Lemma cpu_percent_sound cur prev v : cpu_percent cur prev = Some v →
  f64_le (S754_zero false) v = true ∧ f64_le v f64_100 = true ∧ length (cpu_fields cur) = length (cpu_fields prev) ∧
  Forall2 Z.le (take 8 (cpu_fields prev)) (take 8 (cpu_fields cur)).
Proof.
  unfold cpu_percent. destruct (Nat.eqb_spec (length (cpu_fields cur)) (length (cpu_fields prev))) as [Hl|Hl]; cbn [negb]; [|done].
  intros (ds & Hds & (total & _ & H)%bind_Some)%bind_Some. destruct (total =? 0); [done|].
  apply bind_Some in H as (f & _ & (i & _ & (b & _ & H)%bind_Some)%bind_Some). cbv zeta in H.
  set (x := f64_mul _ _) in H. destruct (is_finite x) eqn:Ef; [|done]. destruct (_ && _ && _); [|done]. injection H as <-.
  assert (x ≠ S754_nan) as Hx by (by intros E; rewrite E in Ef).
  assert (f64_le (S754_zero false) (f64_clamp x (S754_zero false) f64_100) = true ∧ f64_le (f64_clamp x (S754_zero false) f64_100) f64_100 = true) as [H1 H2]
    by (by apply f64_clamp_bounds).
  split; [done|]. split; [done|]. split; [done|]. eapply deltas_le; [exact Hds|]. rewrite !length_take. lia.
Qed.

Lemma rate_fold_sound prev m d : map_fold (rate_step prev) (Some (0, 0)) m = Some d →
  ∀ n c, m !! n = Some c → ∃ old, prev !! n = Some old ∧ old.1 ≤ c.1 ∧ old.2 ≤ c.2.
Proof.
  revert d. apply (map_fold_weak_ind (λ r m, ∀ d, r = Some d → ∀ n c, m !! n = Some c → ∃ old, prev !! n = Some old ∧ old.1 ≤ c.1 ∧ old.2 ≤ c.2)).
  - by intros d _ n c ?%lookup_empty_Some.
  - intros i x m' r _ IH d (a & Ha & (old & Ho & (drx & [_ H1]%checked_sub_spec & (dtx & [_ H2]%checked_sub_spec & _)%bind_Some)%bind_Some)%bind_Some)%bind_Some n c.
    rewrite lookup_insert_Some. intros [[<- <-]|[_ Hn]]; [by exists old|by eapply IH].
Qed.

Lemma network_rates_sound cur prev e rx tx : network_rates cur prev e = Some (rx, tx) →
  e ≠ 0 ∧ is_finite rx = true ∧ is_finite tx = true ∧ (dom (nc_interfaces cur) : gset str) = dom (nc_interfaces prev) ∧
  ∀ n c, nc_interfaces cur !! n = Some c → ∃ old, nc_interfaces prev !! n = Some old ∧ old.1 ≤ c.1 ∧ old.2 ≤ c.2.
Proof.
  unfold network_rates. destruct (Z.eqb_spec e 0); [done|]. destruct (bool_decide _) eqn:Ed; cbn [negb]; [|done]. apply bool_decide_eq_true in Ed.
  intros (d & Hd & H)%bind_Some. cbv zeta in H. destruct (_ || _); [done|]. destruct (is_finite (f64_div (f64_of_u64 d.1) _)) eqn:E1; [|done]. cbn [andb] in H.
  destruct (is_finite (f64_div (f64_of_u64 d.2) _)) eqn:E2; [|done]. injection H as <- <-.
  split; [done|]. split; [done|]. split; [done|]. split; [done|]. by eapply rate_fold_sound.
Qed.

(** ** Readings *)

Definition pair_ok (v : option (Z * Z)) : Prop := match v with Some (t, u) => 0 ≤ u ≤ t ∧ t ≤ u64_max | None => True end.
Record reading_ok (r : MonitorReading) : Prop := {
  rk_memory : pair_ok (mr_memory r);
  rk_swap : pair_ok (mr_swap r);
  rk_root : pair_ok (mr_root r);
  rk_cpu : ∀ c, mr_cpu r = Some c → 4 ≤ zlen (cpu_fields c) ≤ MAX_CPU_FIELDS
}.

Lemma swap_lines_ok ls t f t' f' : swap_lines ls t f = Ok (t', f') → (∀ x, t = Some x ∨ f = Some x → 0 ≤ x ≤ u64_max) → ∀ x, t' = Some x ∨ f' = Some x → 0 ≤ x ≤ u64_max.
Proof.
  revert t f. induction ls as [|l ls IH]; intros t f; cbn [swap_lines]; [by intros [= <- <-]|]. destruct (split_once _ l) as [[k v]|]; [|apply IH].
  cbv zeta. destruct (negb _ && negb _); [apply IH|]. destruct (split_whitespace v) as [|n [|u [|]]]; try done.
  intros (w & Hw%ok_or_ok%parse_unsigned_bounds & (b & [-> Hb]%ok_or_ok%checked_mul_spec & (u1 & _ & (u2 & _ & H)%bind_ok)%bind_ok)%bind_ok)%bind_ok Hx.
  destruct (str_eqb k _); apply (IH _ _ H); intros y [E|E]; simplify_eq; first [lia | apply Hx; auto].
Qed.

Lemma parse_swap_ok o t u : parse_swap o = Ok (t, u) → 0 ≤ u ≤ t ∧ t ≤ u64_max.
Proof.
  intros ([t' f'] & Hs & (total & Ht%ok_or_ok & (free & Hf%ok_or_ok & (used & [-> Hle]%ok_or_ok%checked_sub_spec & [= <- <-])%bind_ok)%bind_ok)%bind_ok)%bind_ok.
  pose proof (swap_lines_ok _ _ _ _ _ Hs) as H. pose proof (H ltac:(naive_solver) total ltac:(auto)). pose proof (H ltac:(naive_solver) free ltac:(auto)). lia.
Qed.

Lemma parse_cpu_ok o c : parse_cpu o = Ok c → 4 ≤ zlen (cpu_fields c) ≤ MAX_CPU_FIELDS.
Proof. intros (row & _ & (vs & _ & (? & Hl%ensure_ok & (? & _ & [= <-])%bind_ok)%bind_ok)%bind_ok)%bind_ok. split_bools. cbn. lia. Qed.

Lemma read_metric_ok c o r r' : read_metric c o r = Ok r' → reading_ok r → reading_ok r'.
Proof.
  intros H [Hm Hs Hr Hc]. destruct c; cbn in H; try (by injection H as <-).
  - apply bind_ok in H as ([t u] & Hb%memory_bounds & [= <-]). split; cbn; try done. lia.
  - apply bind_ok in H as ([t u] & Hb%root_filesystem_bounds & [= <-]). split; cbn; try done. lia.
  - apply bind_ok in H as (v & Hv%parse_cpu_ok & [= <-]). split; cbn; try done. by intros ? [= <-].
  - apply bind_ok in H as (v & _ & [= <-]). by split.
Qed.

Lemma read_output_ok c o r : reading_ok r → reading_ok (read_output c o r).
Proof.
  intros Hr. unfold read_output. assert (∀ w r, reading_ok r → reading_ok (warn w r)) as Hw by (intros w r' []; by split).
  assert (∀ r, reading_ok r → reading_ok (read_swap o r)) as Hs.
  { intros r' H. unfold read_swap. destruct (parse_swap o) as [[t u]|e] eqn:E; [|by apply Hw]. apply parse_swap_ok in E. destruct H. by split. }
  destruct (read_metric c o r) as [r'|e] eqn:E; [apply read_metric_ok in E; [|done]|]; cbv zeta; destruct (is_memory c); auto.
Qed.

Lemma monitor_loop_ok session token cs r : reading_ok r →
  match monitor_loop session token cs r with
  | Ok r' => reading_ok r'
  | Err e => e = monitor_cancelled ∨ code e = Connection
  end.
Proof.
  revert r. induction cs as [|c cs IH]; intros r Hr; cbn [monitor_loop]; [done|]. destruct (at_head (token c)); cbn; [by left|].
  destruct (execute _ _ _ _).1 as [o|e]; [by apply IH, read_output_ok|]. destruct (_ || _); [by left|]. destruct (bool_decide _) eqn:E; [right; by apply bool_decide_eq_true in E|].
  apply IH. destruct Hr. by split.
Qed.

(** A monitoring reading is consistent or absent.  Whatever the host
    prints, the observation ends with a reading, or fails because it was
    cancelled or the connection is gone; in a reading the used memory, swap and
    root space are at most their totals, and the processor counters have between
    4 and 16 fields. *)
Theorem monitor_reading_consistent session token start finish :
  match observe_monitor session token start finish with
  | Ok r => reading_ok r
  | Err e => e = monitor_cancelled ∨ code e = Connection
  end.
Proof.
  unfold observe_monitor. assert (reading_ok (empty_reading start)) as He by (by split).
  pose proof (monitor_loop_ok session token monitor_commands _ He) as H. destruct (monitor_loop _ _ _ _); cbn; [|done]. destruct H. by split.
Qed.

(** Half of the time idle. *)
Example cpu_half : f64_bits <$> cpu_percent {| cpu_fields := [110; 0; 40; 100; 0] |} {| cpu_fields := [100; 0; 0; 50; 0] |} = Some (f64_bits (f64_of_u64 50)).
Proof. vm_compute. reflexivity. Qed.
Example cpu_backwards : cpu_percent {| cpu_fields := [90; 0; 40; 100] |} {| cpu_fields := [100; 0; 0; 50] |} = None.
Proof. vm_compute. reflexivity. Qed.
