(* ===== verification/AppRequests.v ===== *)
(** The application's requests for monitoring samples and terminals
    ([nexus-core/src/application/monitoring.rs], [terminal.rs]).

    As in [Services], a request is a program whose calls are its accesses to
    shared state and to the components below; a theorem on all its runs holds
    for every interleaving with other requests. *)

From S2P Require Import Prelude Str Model F64 Prog Parsers Discovery Monitoring Terminal Sessions.

(** ** Monitoring *)

Record MonitorState := { ms_session_id : HostSessionId; ms_baseline : MonitorBaseline; ms_observed_at : Instant }.

Inductive mcall :=
| MRepository (h : HostId)                           (** [repository.get(host_id)] *)
| MGate (h : HostId)                                 (** the lock of the host's monitor gate *)
| MUngate (h : HostId)                               (** the end of its scope *)
| MSlot (h : HostId)
| MRead (s : SlotId)                                 (** [slot.data.lock().await], read and dropped *)
| MObserve (tr : TransportId) (token : TokenId)      (** [observe_monitor] *)
| MNow                                               (** [Instant::now()] *)
| MLock (s : SlotId) (token : TokenId)               (** the data, held to the end, and whether the token is cancelled *)
| MBaseline (h : HostId)                             (** [baselines.get(&host_id)] *)
| MInsert (h : HostId) (st : MonitorState)
| MRemove (h : HostId)
| MRemoveGate (h : HostId).

Definition mreply (c : mcall) : Type :=
  match c with
  | MRepository _ => Res unit
  | MGate _ | MUngate _ | MInsert _ _ | MRemove _ | MRemoveGate _ => unit
  | MSlot _ => SlotId
  | MRead _ => SessionData
  | MObserve _ _ => Res MonitorReading
  | MNow => Instant
  | MLock _ _ => SessionData * bool
  | MBaseline _ => option MonitorState
  end.

Abbreviation mio A := (io mreply AppError A) (only parsing).
Abbreviation mprog A := (prog mreply A) (only parsing).
Definition mask (c : mcall) : mprog (mreply c) := Do c (λ r, Ret r).

Definition stale_session : AppError :=
  app_error Conflict "The monitoring request does not belong to the active host session.".

(** The part of [sample_host_monitor] that holds the gate of the host. *)
Definition sample_gated (h : HostId) (hs : HostSessionId) : mio HostMonitorSample :=
  let! s := mask (MSlot h) in
  let! d := mask (MRead s) in
  _ ← io_ensure (bool_decide (Sessions.state d ≠ Connected) || bool_decide (connection_id d ≠ Some hs) ||
                 bool_decide (hs_session_id (Sessions.view d) ≠ Some hs)) stale_session;
  transport ← io_lift (ok_or (Sessions.transport d) stale_session);
  reading ← (mask (MObserve transport (cancel d)) : mio MonitorReading);
  let! observed := mask MNow in
  let! dc := mask (MLock s (cancel d)) in
  let '(d', cancelled) := dc : SessionData * bool in
  _ ← io_ensure (cancelled || bool_decide (generation d' ≠ generation d) || bool_decide (Sessions.state d' ≠ Connected) ||
                 bool_decide (connection_id d' ≠ Some hs)) connection_cancelled;
  let! found := mask (MBaseline h) in
  let previous := (st ← found; if bool_decide (ms_session_id st = hs) then Some st else None) : option MonitorState in
  let elapsed := (λ st, Z.max 0 (observed - ms_observed_at st)) <$> previous in
  let '(sample, baseline) := derive_sample h hs reading (ms_baseline <$> previous) elapsed in
  let! _ := mask (MInsert h {| ms_session_id := hs; ms_baseline := baseline; ms_observed_at := observed |}) in
  mret sample.

Definition sample_host_monitor (h : HostId) (hs : HostSessionId) : mio HostMonitorSample :=
  _ ← (mask (MRepository h) : mio unit);
  let! _ := mask (MGate h) in
  let! x := (sample_gated h hs : mprog _) in
  let! _ := mask (MUngate h) in
  Ret x.

Definition clear_monitor (h : HostId) : mprog unit := mask (MRemove h).
Definition remove_monitor (h : HostId) : mprog unit := pbind (mask (MRemove h)) (λ _, mask (MRemoveGate h)).

(** ** Terminals *)

Inductive tcall :=
| TRepository (h : HostId)
| TSlot (h : HostId)
| TRead (s : SlotId)                                 (** the data, and whether its transport is closed *)
| TList (h : HostId)
| TOpen (h : HostId) (hs : HostSessionId) (tr : TransportId) (size : TerminalSize)
| TPoll (key : Ownership)
| TWrite (key : Ownership) (data_base64 : str)
| TResize (key : Ownership) (size : TerminalSize)
| TRename (key : Ownership) (label : str)
| TClose (key : Ownership).

Definition treply (c : tcall) : Type :=
  match c with
  | TRepository _ => Res unit
  | TSlot _ => SlotId
  | TRead _ => SessionData * bool
  | TList _ => list TerminalSession
  | TOpen _ _ _ _ | TRename _ _ => Res TerminalSession
  | TPoll _ => Res (TerminalOutputBatch str)
  | TWrite _ _ | TResize _ _ | TClose _ => Res unit
  end.

Abbreviation tio A := (io treply AppError A) (only parsing).
Abbreviation tprog A := (prog treply A) (only parsing).
Definition task (c : tcall) : tprog (treply c) := Do c (λ r, Ret r).

Definition terminal_unavailable : AppError :=
  app_error TerminalUnavailable "The SSH session is unavailable. Reconnect and open a new terminal.".

Definition list_terminals (h : HostId) : tio (list TerminalSession) :=
  _ ← (task (TRepository h) : tio unit);
  let! l := task (TList h) in mret l.

Definition open_terminal (h : HostId) (size : TerminalSize) : tio TerminalSession :=
  _ ← (task (TRepository h) : tio unit);
  let! s := task (TSlot h) in
  let! dc := task (TRead s) in
  let '(d, closed) := dc : SessionData * bool in
  _ ← io_ensure (bool_decide (Sessions.state d ≠ Connected)) terminal_unavailable;
  hs ← io_lift (ok_or (connection_id d) terminal_unavailable);
  tr ← io_lift (ok_or (Sessions.transport d) terminal_unavailable);
  _ ← io_ensure closed terminal_unavailable;
  (task (TOpen h hs tr size) : tio TerminalSession).

Definition require_current_connection (h : HostId) (hs : HostSessionId) : tio unit :=
  _ ← (task (TRepository h) : tio unit);
  let! s := task (TSlot h) in
  let! dc := task (TRead s) in
  let '(d, closed) := dc : SessionData * bool in
  io_ensure (bool_decide (Sessions.state d ≠ Connected) || bool_decide (connection_id d ≠ Some hs) ||
             match Sessions.transport d with None => true | Some _ => closed end) terminal_unavailable.

Definition poll_terminal (h : HostId) (hs : HostSessionId) (id : TerminalSessionId) : tio (TerminalOutputBatch str) :=
  _ ← (task (TRepository h) : tio unit);
  (task (TPoll (key_of (h, hs, id))) : tio _).

Definition write_terminal (h : HostId) (hs : HostSessionId) (id : TerminalSessionId) (data_base64 : str) : tio unit :=
  _ ← require_current_connection h hs;
  (task (TWrite (key_of (h, hs, id)) data_base64) : tio unit).

Definition resize_terminal (h : HostId) (hs : HostSessionId) (id : TerminalSessionId) (size : TerminalSize) : tio unit :=
  _ ← require_current_connection h hs;
  (task (TResize (key_of (h, hs, id)) size) : tio unit).

Definition rename_terminal (h : HostId) (hs : HostSessionId) (id : TerminalSessionId) (label : str) : tio TerminalSession :=
  _ ← (task (TRepository h) : tio unit);
  (task (TRename (key_of (h, hs, id)) label) : tio TerminalSession).

Definition close_terminal (h : HostId) (hs : HostSessionId) (id : TerminalSessionId) : tio unit :=
  _ ← (task (TRepository h) : tio unit);
  (task (TClose (key_of (h, hs, id))) : tio unit).

(** ** Samples compare readings of one session *)

(** The data shows the session [hs] as connected. *)
Definition connected_as (hs : HostSessionId) (d : SessionData) : Prop := Sessions.state d = Connected ∧ connection_id d = Some hs.

(** What a rate in a sample rests on: an earlier reading of the same session,
    whose counters have not gone backwards. *)
Definition compared (hs : HostSessionId) (reading : MonitorReading) (found : option MonitorState) (sample : HostMonitorSample) : Prop :=
  (∀ v, hm_cpu_usage_percent sample = Some v → ∃ st cur prev, found = Some st ∧ ms_session_id st = hs ∧
     mr_cpu reading = Some cur ∧ mb_cpu (ms_baseline st) = Some prev ∧
     Forall2 Z.le (take 8 (cpu_fields prev)) (take 8 (cpu_fields cur)) ∧
     f64_le (SpecFloat.S754_zero false) v = true ∧ f64_le v f64_100 = true) ∧
  (hm_network sample ≠ (None, None) → ∃ st cur prev, found = Some st ∧ ms_session_id st = hs ∧
     mr_network reading = Some cur ∧ mb_network (ms_baseline st) = Some prev ∧
     (dom (nc_interfaces cur) : gset str) = dom (nc_interfaces prev) ∧
     ∀ n c, nc_interfaces cur !! n = Some c → ∃ old, nc_interfaces prev !! n = Some old ∧ old.1 ≤ c.1 ∧ old.2 ≤ c.2).

Lemma derive_sample_compared h hs reading found now sample baseline :
  let previous := (st ← found; if bool_decide (ms_session_id st = hs) then Some st else None) : option MonitorState in
  derive_sample h hs reading (ms_baseline <$> previous) ((λ st, Z.max 0 (now - ms_observed_at st)) <$> previous) = (sample, baseline) →
  compared hs reading found sample ∧ baseline = {| mb_cpu := mr_cpu reading; mb_network := mr_network reading |}.
Proof.
  intros previous. subst previous. unfold derive_sample. intros [= <- <-]. split; [|done].
  destruct found as [st|]; [|split; cbn; [done|by intros H]]. cbn. case_bool_decide as Hs; [|split; cbn; [done|by intros H]]. cbn. split; cbn.
  - intros v (cur & Hc & (prev & Hp & (H1 & H2 & _ & H3)%cpu_percent_sound)%bind_Some)%bind_Some. by exists st, cur, prev.
  - destruct (mr_network reading) as [cur|] eqn:Ec; cbn; [|by intros H]. destruct (mb_network (ms_baseline st)) as [prev|] eqn:Ep; cbn; [|by intros H].
    destruct (network_rates _ _ _) as [[rx tx]|] eqn:En; [|by intros H]. intros _. apply network_rates_sound in En as (_ & _ & _ & Hd & Hr). by exists st, cur, prev.
Qed.

(** The run of a request that succeeds. *)
Definition sample_run (h : HostId) (hs : HostSessionId) (t : list (event mreply)) (sample : HostMonitorSample) : Prop :=
  ∃ s d tr reading now d' found,
    t = [Ev (MRepository h) (Ok tt); Ev (MGate h) tt; Ev (MSlot h) s; Ev (MRead s) d; Ev (MObserve tr (cancel d)) (Ok reading); Ev MNow now;
         Ev (MLock s (cancel d)) (d', false); Ev (MBaseline h) found;
         Ev (MInsert h {| ms_session_id := hs; ms_baseline := {| mb_cpu := mr_cpu reading; mb_network := mr_network reading |}; ms_observed_at := now |}) tt;
         Ev (MUngate h) tt] ∧
    connected_as hs d ∧ Sessions.transport d = Some tr ∧ connected_as hs d' ∧ generation d' = generation d ∧
    hm_host_id sample = h ∧ hm_host_session_id sample = hs ∧ compared hs reading found sample.

(** A monitoring sample belongs to the session it names.  When a request
    for a sample succeeds, the reading was made over the transport that the slot
    had for that session, the slot still shows it, uncancelled and of the same
    generation, when the sample is made; its rates compare this reading only
    with an earlier one of the same session, with the same interfaces and no
    counter gone backwards; and this reading, under this session, is the next
    baseline, stored before the gate of the host is given back. *)
Theorem sample_compares_one_session h hs t sample :
  runs (sample_host_monitor h hs : mprog _) t (Ok sample) → sample_run h hs t sample.
Proof.
  intros H. refine (wp_runs _ [] t (Ok sample) (λ t r, ∀ sample, r = Ok sample → sample_run h hs t sample) _ H sample eq_refl). clear t sample H.
  unfold sample_host_monitor. cbn. intros [[]|e]; [|by intros]. cbn. intros [] s d.
  destruct (bool_decide (Sessions.state d ≠ Connected)) eqn:E1; [by intros []|]. destruct (bool_decide (connection_id d ≠ Some hs)) eqn:E2; [by intros []|].
  destruct (bool_decide (hs_session_id (Sessions.view d) ≠ Some hs)); [by intros []|]. cbn.
  destruct (Sessions.transport d) as [tr|] eqn:Et; cbn; [|by intros []]. intros [reading|e]; cbn; [|by intros []]. intros now [d' cancelled].
  destruct cancelled; [by intros []|]. destruct (bool_decide (generation d' ≠ generation d)) eqn:E3; [by intros []|].
  destruct (bool_decide (Sessions.state d' ≠ Connected)) eqn:E4; [by intros []|]. destruct (bool_decide (connection_id d' ≠ Some hs)) eqn:E5; [by intros []|].
  cbn. intros found [] [] sample [= <-]. apply bool_decide_eq_false in E1, E2, E3, E4, E5.
  apply dec_stable in E1, E2, E3, E4, E5. exists s, d, tr, reading, now, d', found. split; [reflexivity|]. split; [done|]. split; [done|]. split; [done|].
  split; [done|]. split; [done|]. split; [done|]. apply (derive_sample_compared h hs reading found now _ _ eq_refl).
Qed.

(** ** Terminal input needs the current session *)

(** The requests that reach the shell of a terminal. *)
Definition reaches_shell (c : tcall) : bool := match c with TOpen _ _ _ _ | TWrite _ _ | TResize _ _ => true | _ => false end.

(** The slot of [h] showed, among the events [t], a connected session over an
    open transport, and the call names that session and transport. *)
Definition shown_current (h : HostId) (t : list (event treply)) (c : tcall) : Prop :=
  ∃ s d tr, Ev (TSlot h) s ∈ t ∧ Ev (TRead s) (d, false) ∈ t ∧ Sessions.state d = Connected ∧ Sessions.transport d = Some tr ∧
    match c with
    | TOpen h' hs tr' _ => h' = h ∧ connection_id d = Some hs ∧ tr' = tr
    | TWrite key _ | TResize key _ => own_host key = h ∧ connection_id d = Some (own_session key)
    | _ => True
    end.

(** Every call of the run that reaches a shell comes after such events. *)
Definition current_before (h : HostId) (t : list (event treply)) : Prop :=
  ∀ t1 c r t2, t = t1 ++ Ev c r :: t2 → reaches_shell c = true → shown_current h t1 c.

Fixpoint all_current (h : HostId) (seen t : list (event treply)) : Prop :=
  match t with
  | [] => True
  | Ev c r :: t => (reaches_shell c = true → shown_current h seen c) ∧ all_current h (seen ++ [Ev c r]) t
  end.

Lemma all_current_before h t : all_current h [] t → current_before h t.
Proof.
  intros H t1 c r t2 -> Hr. change t1 with ([] ++ t1). revert H. generalize (@nil (event treply)) as seen. induction t1 as [|[c' r'] t1 IH]; intros seen H.
  - rewrite app_nil_r. by apply H.
  - destruct H as [_ H]. apply IH in H. by rewrite <-app_assoc in H.
Qed.

Inductive TerminalRequest :=
| ListTerminals (h : HostId)
| OpenTerminal (h : HostId) (size : TerminalSize)
| PollTerminal (h : HostId) (hs : HostSessionId) (id : TerminalSessionId)
| WriteTerminal (h : HostId) (hs : HostSessionId) (id : TerminalSessionId) (data_base64 : str)
| ResizeTerminal (h : HostId) (hs : HostSessionId) (id : TerminalSessionId) (size : TerminalSize)
| RenameTerminal (h : HostId) (hs : HostSessionId) (id : TerminalSessionId) (label : str)
| CloseTerminal (h : HostId) (hs : HostSessionId) (id : TerminalSessionId).

Definition terminal_host (q : TerminalRequest) : HostId :=
  match q with
  | ListTerminals h | OpenTerminal h _ | PollTerminal h _ _ | WriteTerminal h _ _ _ | ResizeTerminal h _ _ _ | RenameTerminal h _ _ _ | CloseTerminal h _ _ => h
  end.

(** Whether a request succeeds; its answer does not matter here. *)
Definition terminal_request (q : TerminalRequest) : tprog bool :=
  match q with
  | ListTerminals h => pbind (list_terminals h) (λ r, Ret (is_ok r))
  | OpenTerminal h size => pbind (open_terminal h size) (λ r, Ret (is_ok r))
  | PollTerminal h hs id => pbind (poll_terminal h hs id) (λ r, Ret (is_ok r))
  | WriteTerminal h hs id d => pbind (write_terminal h hs id d) (λ r, Ret (is_ok r))
  | ResizeTerminal h hs id size => pbind (resize_terminal h hs id size) (λ r, Ret (is_ok r))
  | RenameTerminal h hs id l => pbind (rename_terminal h hs id l) (λ r, Ret (is_ok r))
  | CloseTerminal h hs id => pbind (close_terminal h hs id) (λ r, Ret (is_ok r))
  end.

(** The check of [require_current_connection] on what was read. *)
Lemma require_shown hs d (closed : bool) :
  let bad := bool_decide (Sessions.state d ≠ Connected) || bool_decide (connection_id d ≠ Some hs) || match Sessions.transport d with None => true | Some _ => closed end in
  ensure bad terminal_unavailable = Err terminal_unavailable ∨
  (∃ tr, closed = false ∧ ensure bad terminal_unavailable = Ok tt ∧ Sessions.state d = Connected ∧ Sessions.transport d = Some tr ∧ connection_id d = Some hs).
Proof.
  intros bad. subst bad. destruct (bool_decide (Sessions.state d ≠ Connected)) eqn:E1; [by left|].
  destruct (bool_decide (connection_id d ≠ Some hs)) eqn:E2; [by left|]. destruct (Sessions.transport d) as [tr|] eqn:Et; [|by left].
  destruct closed; [by left|]. right. exists tr. apply bool_decide_eq_false, dec_stable in E1, E2. done.
Qed.

(** Terminal input needs the current session.  Whatever the other
    requests do meanwhile, a request opens a terminal, or lets input or a new
    size reach one, only after the slot of its host showed the session it names
    as connected, over an open transport; a terminal is opened on that transport. *)
Theorem terminals_need_current_session q t b : runs (terminal_request q) t b → current_before (terminal_host q) t.
Proof.
  intros H. refine (wp_runs _ [] t b (λ t _, current_before (terminal_host q) t) _ H). clear t b H.
  destruct q; cbn; (intros [[]|e]; cbn; [|by apply all_current_before; cbn]); try (intros; by apply all_current_before; cbn).
  - intros s [d closed]. destruct (bool_decide (Sessions.state d ≠ Connected)) eqn:E1; cbn; [by apply all_current_before; cbn|].
    destruct (connection_id d) as [hs|] eqn:Ec; cbn; [|by apply all_current_before; cbn]. destruct (Sessions.transport d) as [tr|] eqn:Et; cbn; [|by apply all_current_before; cbn].
    destruct closed; cbn; [by apply all_current_before; cbn|]. intros r. apply all_current_before. cbn. split_and!; try done. intros _.
    exists s, d, tr. apply bool_decide_eq_false, dec_stable in E1. split; [set_solver|]. split; [set_solver|done].
  - intros s [d closed]. cbn. destruct (require_shown hs d closed) as [->|(tr & -> & -> & E1 & Et & Ec)]; cbn; [by apply all_current_before; cbn|].
    intros r. apply all_current_before. cbn. split_and!; try done. intros _. exists s, d, tr. split; [set_solver|]. by split; [set_solver|].
  - intros s [d closed]. cbn. destruct (require_shown hs d closed) as [->|(tr & -> & -> & E1 & Et & Ec)]; cbn; [by apply all_current_before; cbn|].
    intros r. apply all_current_before. cbn. split_and!; try done. intros _. exists s, d, tr. split; [set_solver|]. by split; [set_solver|].
Qed.

(** A connected session whose terminal is written to. *)
Definition connected_data (h : HostId) : SessionData :=
  {| Sessions.view := {| hs_host_id := h; hs_session_id := Some 7%N; hs_state := Connected; hs_error := None; hs_identity := None; hs_capabilities := []; hs_discovery := None |};
     generation := 1; cancel := 3%N; Sessions.transport := Some 5%N; connection_id := Some 7%N; refreshing := false |}.

Definition sample_reading : MonitorReading :=
  {| mr_observed_at := lit "2024-01-01T00:00:10+00:00"; mr_cpu := Some {| cpu_fields := [110; 0; 40; 100; 0] |}; mr_memory := Some (1024, 512);
     mr_swap := None; mr_root := None; mr_network := None; mr_warnings := [] |}.
Definition sample_baseline : MonitorState :=
  {| ms_session_id := 7%N; ms_baseline := {| mb_cpu := Some {| cpu_fields := [100; 0; 0; 50; 0] |}; mb_network := None |}; ms_observed_at := 0 |}.

Definition monitor_answers (c : mcall) : mreply c :=
  match c with
  | MRepository _ => Ok tt
  | MGate _ | MUngate _ | MInsert _ _ | MRemove _ | MRemoveGate _ => tt
  | MSlot _ => 2%N
  | MRead _ => connected_data 1
  | MObserve _ _ => Ok sample_reading
  | MNow => from_secs 10
  | MLock _ _ => (connected_data 1, false)
  | MBaseline _ => Some sample_baseline
  end.

Lemma sample_compares_one_session_witness : ∃ t sample, runs (sample_host_monitor 1 7 : mprog _) t (Ok sample) ∧
  f64_bits <$> hm_cpu_usage_percent sample = Some (f64_bits (f64_of_u64 50)) ∧ sample_run 1 7 t sample.
Proof.
  exists (interp monitor_answers (sample_host_monitor 1 7)).1. eexists.
  assert (runs (sample_host_monitor 1 7 : mprog _) (interp monitor_answers (sample_host_monitor 1 7)).1 (Ok _)) as H
    by (apply interp_runs_eq; vm_compute; reflexivity).
  split; [exact H|]. split; [vm_compute; reflexivity|]. apply (sample_compares_one_session 1 7 _ _ H).
Defined.

Definition terminal_answers (c : tcall) : treply c :=
  match c with
  | TRepository _ | TWrite _ _ | TResize _ _ | TClose _ => Ok tt
  | TSlot _ => 2%N
  | TRead _ => (connected_data 1, false)
  | TList _ => []
  | TOpen _ _ _ _ | TRename _ _ => Err terminal_unavailable
  | TPoll _ => Err terminal_unavailable
  end.

Lemma terminals_need_current_session_witness : ∃ t, runs (terminal_request (WriteTerminal 1 7 9 (lit "bHM="))) t true ∧
  Ev (TWrite (key_of (1%N, 7%N, 9%N)) (lit "bHM=")) (Ok tt) ∈ t ∧ current_before 1 t.
Proof.
  exists (interp terminal_answers (terminal_request (WriteTerminal 1 7 9 (lit "bHM=")))).1.
  assert (runs (terminal_request (WriteTerminal 1 7 9 (lit "bHM="))) (interp terminal_answers (terminal_request (WriteTerminal 1 7 9 (lit "bHM=")))).1 true) as H
    by (apply interp_runs_eq; vm_compute; reflexivity).
  split; [exact H|]. split; [|apply (terminals_need_current_session (WriteTerminal 1 7 9 (lit "bHM=")) _ _ H)].
  cbn. do 3 apply list_elem_of_further. apply list_elem_of_here.
Defined.
