(* ===== verification/AuditLog.v ===== *)
(** The audit log ([nexus-audit/src/event.rs], [storage.rs]): JSON lines in one
    file with one rotated backup.

    The lock serializes the records of the process, so a record is one function
    of the two files.  Each operation on the file system may fail; a write that
    fails may have written a part.  The text of an event is [serde_json]'s and
    the syntax of dates is [chrono]'s: both are parameters. *)

From S2P Require Import Prelude Str Model SystemdUnit Services AppFiles.

Inductive AuditActor := ActorUser | ActorAI | ActorPlugin | ActorAutomation.

Record AuditEvent := {
  ev_host : HostId;
  ev_timestamp : str;
  ev_operation : Operation;
  ev_actor : AuditActor;
  ev_outcome : AuditOutcome;
  ev_duration_ms : Z
}.

Definition DEFAULT_MAX_BYTES : Z := 4 * 1024 * 1024.

Definition invalid_metadata : AppError := app_error Validation "Audit metadata contains an invalid identifier or timestamp.".
Definition storage_error : AppError := app_error Persistence "The local audit record could not be saved.".
Definition limit_too_small : AppError := app_error Validation "The audit file limit must be at least 1 KiB.".
Definition event_too_large : AppError := app_error Validation "The audit event exceeds the local record limit.".

Definition metadata_identifier (value : str) : bool :=
  negb (is_empty value) && (len value <=? 128) &&
  forallb (λ c, is_ascii_alphanumeric c || (c =? ch ".") || (c =? ch "_") || (c =? ch ":") || (c =? ch "-")) value.

Abbreviation bytes := (list Z) (only parsing).

(** The two files; [None] when there is none. *)
Record AuditFiles := { current : option bytes; backup : option bytes }.

(** Which operations fail, and how much a failing write has written. *)
Record Faults := {
  no_directory : bool; poisoned : bool; no_metadata : bool; no_remove : bool; no_rename : bool; no_open : bool; torn : option nat; no_sync : bool }.
Definition no_faults : Faults :=
  {| no_directory := false; poisoned := false; no_metadata := false; no_remove := false; no_rename := false; no_open := false; torn := None; no_sync := false |}.

Definition open_append (io : Faults) (f : AuditFiles) : Res unit * AuditFiles :=
  if no_open io then (Err storage_error, f) else (Ok tt, {| current := Some (default [] (current f)); backup := backup f |}).

(** [open_with_limit]: the limit of the log, and the files. *)
Definition open_with_limit (io : Faults) (max_bytes : Z) (f : AuditFiles) : Res Z * AuditFiles :=
  if max_bytes <? 1024 then (Err limit_too_small, f) else
  if no_directory io then (Err storage_error, f) else
  match open_append io f with
  | (Ok _, f) => (Ok max_bytes, f)
  | (Err e, f) => (Err e, f)
  end.
Definition open (io : Faults) (f : AuditFiles) : Res Z * AuditFiles := open_with_limit io DEFAULT_MAX_BYTES f.

(** The rotation: the backup is removed, if there is one, and the current file
    becomes the backup. *)
Definition rotate (io : Faults) (f : AuditFiles) : Res unit * AuditFiles :=
  if no_remove io then (Err storage_error, f) else
  let f := {| current := current f; backup := None |} in
  if no_rename io then (Err storage_error, f) else
  match current f with
  | None => (Err storage_error, f)
  | Some c => (Ok tt, {| current := None; backup := Some c |})
  end.

(** [AuditEvent::new] at the time [now]. *)
Definition event_new (now : str) (host : HostId) (operation : Operation) (actor : AuditActor) (outcome : AuditOutcome) (duration_ms : Z) : AuditEvent :=
  {| ev_host := host; ev_timestamp := now; ev_operation := operation; ev_actor := actor; ev_outcome := outcome; ev_duration_ms := duration_ms |}.

(** The event that [Application::record_with_risk] records: [fresh] is the text
    of a new identifier, [elapsed_ms] the time since the start, as [u128]. *)
Definition record_with_risk (now fresh : str) (host : HostId) (kind : string) (risk : OperationRisk) (outcome : AuditOutcome) (elapsed_ms : Z) : AuditEvent :=
  event_new now host {| op_id := fresh; op_kind := lit kind; op_risk := risk |} ActorUser outcome (Z.min elapsed_ms u64_max).

Section Log.
Context (encode : AuditEvent → bytes) (parse_from_rfc3339 : str → bool).

(** [serde_json::to_vec] and the line feed. *)
Definition line (e : AuditEvent) : bytes := encode e ++ [10].

Definition event_validate (e : AuditEvent) : Res unit :=
  ensure (negb (parse_from_rfc3339 (ev_timestamp e)) || negb (metadata_identifier (op_id (ev_operation e))) ||
          negb (metadata_identifier (op_kind (ev_operation e)))) invalid_metadata.

(** [record] up to the open file. *)
Definition record_open (io : Faults) (max_bytes : Z) (e : AuditEvent) (f : AuditFiles) : Res unit * AuditFiles :=
  match (_ ← event_validate e; _ ← ensure (max_bytes <? zlen (line e)) event_too_large; ensure (poisoned io) storage_error) with
  | Err err => (Err err, f)
  | Ok _ =>
      match current f with
      | None => (Err storage_error, f)
      | Some c =>
          if no_metadata io then (Err storage_error, f) else
          match (if max_bytes <? saturating_add (zlen c) (zlen (line e)) then rotate io f else (Ok tt, f)) with
          | (Err err, f) => (Err err, f)
          | (Ok _, f) => open_append io f
          end
      end
  end.

Definition append (f : AuditFiles) (data : bytes) : AuditFiles := {| current := Some (default [] (current f) ++ data); backup := backup f |}.

Definition record_event (io : Faults) (max_bytes : Z) (e : AuditEvent) (f : AuditFiles) : Res unit * AuditFiles :=
  match record_open io max_bytes e f with
  | (Err err, f) => (Err err, f)
  | (Ok _, f) =>
      match torn io with
      | Some n => (Err storage_error, append f (take n (line e)))
      | None => (if no_sync io then Err storage_error else Ok tt, append f (line e))
      end
  end.

(** The events of the application pass the validation: those of the kinds with
    a reviewed risk and those of the service operations.  Their duration fits
    its width. *)
Lemma application_events_are_valid now fresh h kind risk outcome elapsed :
  is_Some (kind_risk kind) ∨ (∃ o, kind = audit_kind o) → parse_from_rfc3339 now = true → metadata_identifier fresh = true → 0 ≤ elapsed →
  event_validate (record_with_risk now fresh h kind risk outcome elapsed) = Ok tt ∧
  0 ≤ ev_duration_ms (record_with_risk now fresh h kind risk outcome elapsed) ≤ u64_max.
Proof.
  intros Hk Hn Hf He. split; [|cbn; unfold u64_max; lia]. assert (metadata_identifier (lit kind) = true) as Hm.
  { destruct Hk as [[r Hk]|[o ->]]; [|by destruct o].
    unfold kind_risk in Hk. cbn [existsb] in Hk. rewrite !orb_false_r in Hk.
    repeat match type of Hk with context [if ?b then _ else _] => destruct b eqn:?; [|] end; try done;
      repeat match goal with H : (_ || _) = true |- _ => apply orb_true_iff in H as [H|H] end;
      match goal with H : String.eqb _ _ = true |- _ => apply String.eqb_eq in H as -> end; reflexivity. }
  unfold event_validate. cbn [record_with_risk event_new ev_timestamp ev_operation op_id op_kind]. by rewrite Hn, Hf, Hm.
Qed.

(** ** Runs of the log *)

(** A record wrote its line in full, or only a part of it. *)
Definition writes (io : Faults) (max_bytes : Z) (e : AuditEvent) (f : AuditFiles) : bool :=
  is_ok (record_open io max_bytes e f).1 && bool_decide (torn io = None).
Definition tears (io : Faults) (max_bytes : Z) (e : AuditEvent) (f : AuditFiles) : bool :=
  is_ok (record_open io max_bytes e f).1 && bool_decide (torn io ≠ None).

(** The files after any number of starts of the application and records, with
    the events it was asked to record and those whose line was written in full,
    in order; whether no write was torn. *)
Inductive logged (max_bytes : Z) : bool → list AuditEvent → list AuditEvent → AuditFiles → Prop :=
| logged_new : logged max_bytes true [] [] {| current := None; backup := None |}
| logged_open whole tried w f io r f' : logged max_bytes whole tried w f → open_with_limit io max_bytes f = (r, f') →
    logged max_bytes whole tried w f'
| logged_record whole tried w f io e r f' : logged max_bytes whole tried w f → record_event io max_bytes e f = (r, f') →
    logged max_bytes (whole && negb (tears io max_bytes e f)) (tried ++ [e])
      (w ++ if writes io max_bytes e f then [e] else []) f'.

Definition file_size (f : option bytes) : Z := zlen (default [] f).

Lemma rotate_cases io f r f' : rotate io f = (r, f') →
  (r = Ok tt ∧ ∃ c, current f = Some c ∧ f' = {| current := None; backup := Some c |}) ∨
  (is_ok r = false ∧ current f' = current f ∧ (backup f' = backup f ∨ backup f' = None)).
Proof.
  unfold rotate. destruct f as [c b]. cbn. destruct (no_remove io); [intros [= <- <-]; right; cbn; by auto|].
  destruct (no_rename io); [intros [= <- <-]; right; cbn; by auto|]. destruct c as [c|]; intros [= <- <-]; [left; eauto|right; cbn; auto].
Qed.

(** What precedes a write: the file has room for the line, and the files are as
    before, or it had no room and they are without the backup, or rotated. *)
Lemma record_open_cases io max e f r f' : record_open io max e f = (r, f') → 0 ≤ max < u64_max →
  (is_ok r = true → file_size (current f') + zlen (line e) ≤ max) ∧
  ((default [] (current f') = default [] (current f) ∧ backup f' = backup f) ∨
   zlen (line e) ≤ max < file_size (current f) + zlen (line e) ∧
   (is_ok r = false ∧ current f' = current f ∧ backup f' = None ∨ backup f' = current f ∧ default [] (current f') = [])).
Proof.
  unfold record_open. intros H Hmax. destruct (_ ≫= _) as [u|err] eqn:Ev; [|injection H as <- <-; split; [done|left; auto]].
  apply bind_ok in Ev as (u1 & _ & (u2 & Hl%ensure_ok%Z.ltb_ge & _)%bind_ok).
  destruct (current f) as [c|] eqn:Ec; [|injection H as <- <-; split; [done|left; by rewrite Ec]].
  destruct (no_metadata io); [injection H as <- <-; split; [done|left; by rewrite Ec]|].
  destruct (Z.ltb_spec max (saturating_add (zlen c) (zlen (line e)))) as [Hs|Hs].
  - assert (zlen (line e) ≤ max < file_size (Some c) + zlen (line e)) as Hx by (unfold saturating_add in Hs; unfold file_size; cbn; lia).
    destruct (rotate io f) as [r1 f1] eqn:Er. apply rotate_cases in Er as [(-> & c' & Ec' & ->)|(Hr & Hc & Hb)].
    + rewrite Ec in Ec'. injection Ec' as <-. unfold open_append in H. destruct (no_open io); injection H as <- <-; cbn; (split; [done|]); right; auto.
    + destruct r1; [done|]. injection H as <- <-. split; [done|]. rewrite Hc, Ec. destruct Hb as [->| ->]; [by left|right]. auto.
  - unfold saturating_add in Hs. unfold open_append in H. destruct (no_open io); injection H as <- <-; cbn; rewrite ?Ec.
    + split; [done|left; auto].
    + split; [|left; auto]. intros _. unfold file_size. cbn. lia.
Qed.

(** The three ways a record ends. *)
Lemma record_event_cases io max e f r f' : record_event io max e f = (r, f') →
  (is_ok (record_open io max e f).1 = false ∧ f' = (record_open io max e f).2 ∧ writes io max e f = false ∧ tears io max e f = false ∧ is_ok r = false) ∨
  (is_ok (record_open io max e f).1 = true ∧ f' = append (record_open io max e f).2 (line e) ∧ writes io max e f = true ∧ tears io max e f = false) ∨
  (is_ok (record_open io max e f).1 = true ∧ (∃ n, f' = append (record_open io max e f).2 (take n (line e))) ∧ writes io max e f = false ∧
   tears io max e f = true ∧ is_ok r = false).
Proof.
  unfold record_event, writes, tears. destruct (record_open io max e f) as [[u|err] f1]; cbn; [|intros [= <- <-]; by left].
  destruct (torn io) as [n|]; intros [= <- <-]; [right; right; split; [done|]; split; [by exists n|done]|right; by left].
Qed.

Definition sizes_ok (max : Z) (f : AuditFiles) : Prop := file_size (current f) ≤ max ∧ file_size (backup f) ≤ max.

Lemma record_open_sizes io max e f : 0 ≤ max < u64_max → sizes_ok max f → sizes_ok max (record_open io max e f).2.
Proof.
  intros Hm [Hc Hb]. destruct (record_open io max e f) as [r f'] eqn:E. unfold sizes_ok, file_size in *. cbn.
  apply record_open_cases in E as [_ [[-> ->]|(_ & [(_ & -> & ->)|[-> ->]])]]; [done|split; [done|cbn; lia]|split; [cbn; lia|done]|done].
Qed.

Lemma append_sizes io max e f data : 0 ≤ max < u64_max → sizes_ok max f → is_ok (record_open io max e f).1 = true → zlen data ≤ zlen (line e) →
  sizes_ok max (append (record_open io max e f).2 data).
Proof.
  intros Hm Hs Hok Hd. pose proof (record_open_sizes io max e f Hm Hs) as [_ Hb]. destruct (record_open io max e f) as [r f'] eqn:E.
  apply record_open_cases in E as [Hroom _]; [|done]. specialize (Hroom Hok). unfold sizes_ok, append, file_size in *. cbn in *. rewrite length_app. split; [lia|done].
Qed.

(** The recorded events that the files still hold: what is lost is oldest, and
    only lost when the files were too full for a line that was to be recorded. *)
Definition holds (max : Z) (tried w : list AuditEvent) (f : AuditFiles) : Prop :=
  ∃ dropped old recent, w = dropped ++ old ++ recent ∧ default [] (backup f) = concat (map line old) ∧ default [] (current f) = concat (map line recent) ∧
    (dropped = [] ∨ ∃ e, e ∈ tried ∧ zlen (line e) ≤ max < file_size (backup f) + file_size (current f) + zlen (line e)).

Lemma record_open_holds io max e f tried w : 0 ≤ max < u64_max → holds max tried w f → holds max (tried ++ [e]) w (record_open io max e f).2.
Proof.
  intros Hm (dropped & old & recent & -> & Ho & Hr & Hd). destruct (record_open io max e f) as [r f'] eqn:E.
  apply record_open_cases in E as [_ [[E1 E2]|(Hx & E)]]; [| |done]; cbn.
  - exists dropped, old, recent. unfold file_size in *. rewrite E1, E2. split; [done|]. split; [done|]. split; [done|].
    destruct Hd as [->|(e' & Hin & Hl)]; [by left|right]. exists e'. split; [set_solver|done].
  - destruct E as [(_ & E1 & E2)|[E1 E2]].
    + exists (dropped ++ old), [], recent. unfold file_size in *. rewrite E1, E2, <-app_assoc. split; [done|]. split; [done|]. split; [done|].
      right. exists e. split; [set_solver|]. cbn. lia.
    + exists (dropped ++ old), recent, []. unfold file_size in *. rewrite E1, E2, app_nil_r, <-app_assoc. split; [done|]. split; [done|]. split; [done|].
      right. exists e. split; [set_solver|]. cbn. lia.
Qed.

Lemma open_files io max f r f' : open_with_limit io max f = (r, f') → default [] (current f') = default [] (current f) ∧ backup f' = backup f.
Proof.
  unfold open_with_limit. destruct (max <? 1024); [by intros [= <- <-]|]. destruct (no_directory io); [by intros [= <- <-]|].
  unfold open_append. by destruct (no_open io); intros [= <- <-].
Qed.

Lemma logged_holds max whole tried w f : 1024 ≤ max < u64_max → logged max whole tried w f → whole = true → holds max tried w f.
Proof.
  intros Hm. induction 1 as [|whole tried w f io r f' _ IH Ho|whole tried w f io e r f' _ IH Hr]; intros Hw.
  - exists [], [], []. cbn. auto.
  - destruct (IH Hw) as (d & o & rc & -> & Hb & Hc & Hd). apply open_files in Ho as [E1 E2]. exists d, o, rc. unfold file_size in *. by rewrite E1, E2.
  - apply andb_true_iff in Hw as [Hw Ht]. pose proof (record_open_holds io max e f tried w ltac:(lia) (IH Hw)) as H.
    apply record_event_cases in Hr as [(_ & -> & Hwr & _)|[(_ & -> & Hwr & _)|(_ & _ & _ & E & _)]]; [| |by rewrite E in Ht]; rewrite Hwr.
    + by rewrite app_nil_r.
    + destruct H as (d & o & rc & -> & Hb & Hc & Hd). exists d, o, (rc ++ [e]). cbn [backup current append default from_option id].
      rewrite Hc, map_app, concat_app. cbn [map concat]. rewrite app_nil_r, <-!app_assoc. split; [done|]. split; [done|]. split; [done|].
      destruct Hd as [->|(e' & Hin & Hl)]; [by left|right]. exists e'. split; [done|]. unfold file_size in *. cbn. rewrite Hc in Hl.
      rewrite length_app. lia.
Qed.

(** A record that succeeded: the line follows the current file, or the current
    file had no room for it and is the backup now. *)
Lemma recorded_files io max e f f' : 0 ≤ max < u64_max → record_event io max e f = (Ok tt, f') →
  if bool_decide (file_size (current f) + zlen (line e) ≤ max)
  then current f' = Some (default [] (current f) ++ line e) ∧ backup f' = backup f
  else current f' = Some (line e) ∧ backup f' = current f.
Proof.
  intros Hm H. apply record_event_cases in H as [(_ & _ & _ & _ & ?)|[(Hok & -> & _)|(_ & _ & _ & _ & ?)]]; [done| |done].
  destruct (record_open io max e f) as [r f1] eqn:E. apply record_open_cases in E as [Hroom E]; [|done]. specialize (Hroom Hok). cbn.
  destruct E as [[E1 E2]|[Hx [(En & _)|[E1 E2]]]].
  - unfold file_size in *. rewrite E1 in *. rewrite bool_decide_eq_true_2 by done. by rewrite E2.
  - cbn in Hok. by rewrite En in Hok.
  - rewrite bool_decide_eq_false_2 by lia. by rewrite E1, E2.
Qed.
End Log.

(** The audit log is bounded.  Whatever fails, and however often, neither
    the current file nor the backup grows over the limit. *)
Theorem audit_log_bounded encode rfc3339 max whole tried w f :
  1024 ≤ max < u64_max → logged encode rfc3339 max whole tried w f → sizes_ok max f.
Proof.
  intros Hm. induction 1 as [|whole tried w f io r f' _ IH Ho|whole tried w f io e r f' _ IH Hr].
  - unfold sizes_ok, file_size. cbn. lia.
  - apply open_files in Ho as [E1 E2]. unfold sizes_ok, file_size in *. by rewrite E1, E2.
  - pose proof (record_open_sizes encode rfc3339 io max e f ltac:(lia) IH) as H.
    apply record_event_cases in Hr as [(_ & -> & _)|[(Hok & -> & _)|(Hok & [n ->] & _)]]; [done| |];
      (apply append_sizes; [lia|done|done|rewrite ?length_take; lia]).
Qed.

(** [C28] The audit log is the recent history, over any number of starts of the
    application, from the first.  As long as no write was torn, the backup
    followed by the current file is exactly a suffix of the lines of the events
    written so far, whole and in order: a failed record, a failed rotation and a
    rotation lose only the oldest ones, and nothing is lost unless the files
    were too full for one of the lines to record, so that they hold at least the
    limit less that line.  A record that succeeds puts its line after the
    current file, or, only if that has no room for it, begins a new file and
    keeps the current one, complete, as the backup. *)
Theorem audit_log_is_recent_history encode rfc3339 max tried w f :
  1024 ≤ max < u64_max → logged encode rfc3339 max true tried w f →
  holds encode max tried w f ∧
  ∀ io e f', record_event encode rfc3339 io max e f = (Ok tt, f') →
    logged encode rfc3339 max true (tried ++ [e]) (w ++ [e]) f' ∧
    if bool_decide (file_size (current f) + zlen (line encode e) ≤ max)
    then current f' = Some (default [] (current f) ++ line encode e) ∧ backup f' = backup f
    else current f' = Some (line encode e) ∧ backup f' = current f.
Proof.
  intros Hm H. split; [by eapply logged_holds|]. intros io e f' Hr. split; [|eapply recorded_files; [lia|exact Hr]].
  pose proof (logged_record _ _ _ _ _ _ _ _ _ _ _ H Hr) as Hl.
  apply record_event_cases in Hr as [(_ & _ & _ & _ & ?)|[(_ & _ & Hwr & Ht)|(_ & _ & _ & _ & ?)]]; [done| |done]. by rewrite Hwr, Ht in Hl.
Qed.

(** A log of 1 KiB: two records of 600 bytes, the second of which rotates. *)
Definition sample_event (k : str) : AuditEvent :=
  {| ev_host := 1%N; ev_timestamp := lit "2024-01-01T00:00:00+00:00"; ev_operation := {| op_id := lit "op-1"; op_kind := k; op_risk := ReadOnly |};
     ev_actor := ActorUser; ev_outcome := AuditSuccess; ev_duration_ms := 12 |}.
Definition sample_encode (e : AuditEvent) : list Z := replicate 599 (default 0 (head (op_kind (ev_operation e)))).
Definition sample_rfc3339 (_ : str) : bool := true.
Definition first_event : AuditEvent := sample_event (lit "a.b").
Definition second_event : AuditEvent := sample_event (lit "c.d").
Definition rotated_files : AuditFiles :=
  {| current := Some (line sample_encode second_event); backup := Some (line sample_encode first_event) |}.

Lemma sample_logged : logged sample_encode sample_rfc3339 1024 true [first_event; second_event] [first_event; second_event] rotated_files.
Proof.
  pose proof (logged_open _ _ 1024 true [] [] _ no_faults (Ok 1024) _ (logged_new sample_encode sample_rfc3339 1024) eq_refl) as H0.
  pose proof (logged_record _ _ _ _ _ _ _ no_faults first_event (Ok tt) {| current := Some (line sample_encode first_event); backup := None |} H0
    ltac:(vm_compute; reflexivity)) as H1.
  pose proof (logged_open _ _ _ _ _ _ _ no_faults (Ok 1024) _ H1 ltac:(vm_compute; reflexivity)) as H2.
  exact (logged_record _ _ _ _ _ _ _ no_faults second_event (Ok tt) rotated_files H2 ltac:(vm_compute; reflexivity)).
Qed.

Lemma audit_log_bounded_witness : sizes_ok 1024 rotated_files.
Proof.
  apply (audit_log_bounded sample_encode sample_rfc3339 1024 true [first_event; second_event] [first_event; second_event]);
    [unfold u64_max; lia|apply sample_logged].
Defined.

Lemma audit_log_is_recent_history_witness : holds sample_encode 1024 [first_event; second_event] [first_event; second_event] rotated_files ∧
  ∃ f', record_event sample_encode sample_rfc3339 no_faults 1024 first_event rotated_files = (Ok tt, f') ∧ backup f' = current rotated_files.
Proof.
  destruct (audit_log_is_recent_history sample_encode sample_rfc3339 1024 [first_event; second_event] [first_event; second_event] rotated_files)
    as [H1 H2]; [unfold u64_max; lia|apply sample_logged|]. split; [exact H1|]. eexists. split; [vm_compute; reflexivity|].
  destruct (H2 no_faults first_event _ ltac:(vm_compute; reflexivity)) as [_ H]. rewrite bool_decide_eq_false_2 in H by (apply Z.lt_nge; vm_compute; reflexivity).
  apply H.
Defined.
