(* ===== verification/Repository.v ===== *)
(** The repository of hosts ([nexus-core/src/repository.rs]).

    The database is SQLite: what its statements do to a table is an interface
    with laws ([HostTable]), of which one instance is given; the text of an
    identifier is the [uuid] crate's and a parameter. *)

From S2P Require Import Prelude Str Model Ip Hosts.

Record StoredHost := { sh_host : Host; sh_credential_id : HostId }.

(** A row of the table [hosts]. *)
Record HostRow := {
  row_id : str; row_display_name : str; row_hostname : str; row_port : Z; row_username : str; row_authentication : str; row_credential_id : str }.

(** The [CHECK] constraints of the table. *)
Definition row_allowed (r : HostRow) : bool :=
  (1 <=? row_port r) && (row_port r <=? 65535) && str_in (row_authentication r) [lit "password"; lit "privateKey"].

(** The statements the repository uses. *)
Class HostTable (Db : Type) := {
  select_host : str → Db → option HostRow;                 (** [SELECT ... WHERE id=?1] *)
  select_hosts : Db → list HostRow;                        (** [SELECT ... ORDER BY ...] *)
  upsert_host : HostRow → Db → Db;                         (** [INSERT ... ON CONFLICT(id) DO UPDATE] *)
  delete_row : str → Db → Db;                              (** [DELETE FROM hosts WHERE id=?1] *)
  select_setting : str → Db → option str;
  insert_setting : str → str → Db → Db                     (** [INSERT OR IGNORE INTO settings] *)
}.

Class HostTableLaws Db {T : HostTable Db} := {
  select_upsert : ∀ r db id, select_host id (upsert_host r db) = if str_eqb id (row_id r) then Some r else select_host id db;
  select_delete : ∀ k db id, select_host id (delete_row k db) = if str_eqb id k then None else select_host id db;
  select_all : ∀ r db, r ∈ select_hosts db ↔ select_host (row_id r) db = Some r;
  setting_insert : ∀ k v db k', select_setting k' (insert_setting k v db) =
    if str_eqb k' k then Some (default v (select_setting k db)) else select_setting k' db
}.

Definition repository_failure : AppError := app_error Persistence "Cannot read or save local host metadata.".
Definition newer_version : AppError := app_error Persistence "This data was created by a newer NexusOps version.".
Definition host_not_found : AppError := app_error NotFound "Host no longer exists.".

Section Repository.
Context {Db : Type} `{T : HostTable Db} (show_id : HostId → str) (parse_id : str → option HostId).

(** [open], after the connection is there: [version] is the stored schema
    version, [fails] whether creating the schema does. *)
Definition repo_open (version : Res Z) (fails : bool) : Res unit :=
  v ← version;
  _ ← ensure (1 <? v) newer_version;
  ensure fails repository_failure.

(** [read_host] *)
Definition read_host (r : HostRow) : option StoredHost :=
  authentication ← (if str_eqb (row_authentication r) (lit "password") then Some Password else
                    if str_eqb (row_authentication r) (lit "privateKey") then Some PrivateKey else None);
  id ← parse_id (row_id r);
  port ← (if (0 <=? row_port r) && (row_port r <=? u16_max) then Some (row_port r) else None);
  credential ← parse_id (row_credential_id r);
  Some {| sh_host := {| host_id := id; display_name := row_display_name r;
                        connection := {| hostname := row_hostname r; port := port; username := row_username r; authentication := authentication |} |};
          sh_credential_id := credential |}.

(** In each operation, [fails] is a poisoned lock or a failing statement, which
    has no effect on the table, as SQLite documents of a statement that does not
    complete; [reading] is the failure of a second statement. *)
Definition repo_profile_id (fails reading : bool) (fresh : HostId) (db : Db) : Res str * Db :=
  if fails then (Err repository_failure, db) else
  let db := insert_setting (lit "profile_id") (show_id fresh) db in
  (if reading then Err repository_failure else ok_or (select_setting (lit "profile_id") db) repository_failure, db).

Definition repo_list (fails : bool) (db : Db) : Res (list Host) :=
  _ ← ensure fails repository_failure;
  ok_or (mapM (λ r, sh_host <$> read_host r) (select_hosts db)) repository_failure.

Definition repo_get (fails : bool) (id : HostId) (db : Db) : Res StoredHost :=
  _ ← ensure fails repository_failure;
  match select_host (show_id id) db with
  | None => Err host_not_found
  | Some r => ok_or (read_host r) repository_failure
  end.

Definition host_row (s : StoredHost) : HostRow :=
  {| row_id := show_id (host_id (sh_host s)); row_display_name := display_name (sh_host s); row_hostname := hostname (connection (sh_host s));
     row_port := port (connection (sh_host s)); row_username := username (connection (sh_host s));
     row_authentication := match authentication (connection (sh_host s)) with Password => lit "password" | PrivateKey => lit "privateKey" end;
     row_credential_id := show_id (sh_credential_id s) |}.

Definition repo_save (fails : bool) (s : StoredHost) (db : Db) : Res unit * Db :=
  match host_validate (connection (sh_host s)) with
  | Err e => (Err e, db)
  | Ok _ => if fails || negb (row_allowed (host_row s)) then (Err repository_failure, db) else (Ok tt, upsert_host (host_row s) db)
  end.

Definition repo_delete (fails : bool) (id : HostId) (db : Db) : Res unit * Db :=
  if fails then (Err repository_failure, db) else (Ok tt, delete_row (show_id id) db).

(** ** Round trip *)

Context {L : HostTableLaws Db} (Hid : ∀ id, parse_id (show_id id) = Some id).

Lemma show_id_inj a b : show_id a = show_id b → a = b.
Proof. intros E. pose proof (Hid a) as Ha. rewrite E, Hid in Ha. by injection Ha. Qed.

Lemma read_host_row s : row_allowed (host_row s) = true → read_host (host_row s) = Some s.
Proof.
  unfold row_allowed. intros [[H1 H2]%andb_prop _]%andb_prop. apply Z.leb_le in H1, H2. unfold read_host. cbn in *.
  assert ((0 <=? port (connection (sh_host s))) && (port (connection (sh_host s)) <=? u16_max) = true) as Hp by (unfold u16_max; lia).
  destruct s as [[id name [hn p un au]] cred]; cbn in *. destruct au; cbn; rewrite !Hid, Hp; reflexivity.
Qed.

Lemma repo_get_cases id db db' s : repo_save false s db = (Ok tt, db') →
  repo_get false id db' = if bool_decide (id = host_id (sh_host s)) then Ok s else repo_get false id db.
Proof.
  unfold repo_save. destruct (host_validate _); [|done]. cbn. destruct (row_allowed (host_row s)) eqn:Ha; [|done]. cbn. intros [= <-].
  unfold repo_get. cbn. rewrite select_upsert. cbn [row_id host_row]. case_bool_decide as Hb.
  - subst id. rewrite (proj2 (str_eqb_eq _ _) eq_refl). change (read_host _) with (read_host (host_row s)). by rewrite read_host_row.
  - destruct (str_eqb (show_id id) _) eqn:E; [|done]. by apply str_eqb_eq, show_id_inj in E.
Qed.

Lemma repo_get_deleted id k db db' : repo_delete false k db = (Ok tt, db') →
  repo_get false id db' = if bool_decide (id = k) then Err host_not_found else repo_get false id db.
Proof.
  unfold repo_delete. intros [= <-]. unfold repo_get. cbn. rewrite select_delete. case_bool_decide as Hb.
  - subst id. by rewrite (proj2 (str_eqb_eq _ _) eq_refl).
  - destruct (str_eqb (show_id id) _) eqn:E; [|done]. by apply str_eqb_eq, show_id_inj in E.
Qed.

Lemma repo_profile_stable fresh1 fresh2 db db1 db2 p1 r2 : repo_profile_id false false fresh1 db = (Ok p1, db1) → repo_profile_id false false fresh2 db1 = (r2, db2) → r2 = Ok p1.
Proof.
  unfold repo_profile_id. rewrite !setting_insert, (proj2 (str_eqb_eq _ _) eq_refl). cbn. intros [= <- <-]. rewrite !setting_insert.
  rewrite !(proj2 (str_eqb_eq _ _) eq_refl). cbn. by intros [= <- <-].
Qed.

(** ** The table as a map *)

(** A call that changes the table; [fails] as above. *)
Inductive RepoCall :=
| CallSave (fails : bool) (s : StoredHost)
| CallDelete (fails : bool) (id : HostId).

Definition repo_do (c : RepoCall) : Db → Res unit * Db :=
  match c with CallSave fails s => repo_save fails s | CallDelete fails id => repo_delete fails id end.
Definition repo_run (cs : list RepoCall) (db : Db) : Db := foldl (λ db c, (repo_do c db).2) db cs.

(** The port of a host is a [u16]. *)
Definition u16_ports (c : RepoCall) : Prop := match c with CallSave _ s => 0 ≤ port (connection (sh_host s)) ≤ u16_max | CallDelete _ _ => True end.

(** The calls that are answered with success, and what is kept after calls. *)
Definition succeeds (c : RepoCall) : bool :=
  match c with CallSave fails s => negb fails && is_ok (host_validate (connection (sh_host s))) | CallDelete fails _ => negb fails end.
Definition keep (m : gmap HostId StoredHost) (c : RepoCall) : gmap HostId StoredHost :=
  if succeeds c then match c with CallSave _ s => <[host_id (sh_host s) := s]> m | CallDelete _ id => delete id m end else m.
Definition kept (cs : list RepoCall) : gmap HostId StoredHost := foldl keep ∅ cs.

(** The rows are those of the hosts kept. *)
Record represents (db : Db) (m : gmap HostId StoredHost) : Prop := {
  rp_row : ∀ id s, m !! id = Some s → select_host (show_id id) db = Some (host_row s) ∧ host_id (sh_host s) = id ∧ row_allowed (host_row s) = true;
  rp_host : ∀ k r, select_host k db = Some r → ∃ id s, k = show_id id ∧ m !! id = Some s ∧ r = host_row s
}.

Lemma valid_row s u : host_validate (connection (sh_host s)) = Ok u → 0 ≤ port (connection (sh_host s)) ≤ u16_max → row_allowed (host_row s) = true.
Proof.
  intros (? & _ & (? & Hp%ensure_ok%Z.eqb_neq & _)%bind_ok)%bind_ok Hr. unfold row_allowed, u16_max in *. cbn.
  rewrite !andb_true_iff, !Z.leb_le. split; [lia|]. by destruct (authentication _).
Qed.

Lemma repo_do_kept c db m : u16_ports c → represents db m → is_ok (repo_do c db).1 = succeeds c ∧ represents (repo_do c db).2 (keep m c).
Proof.
  intros Hu [H1 H2]. destruct c as [fails s|fails id]; cbn in *; unfold keep, repo_save, repo_delete; cbn [succeeds].
  - destruct (host_validate _) as [u|e] eqn:Ev; [|by rewrite andb_false_r]. rewrite (valid_row _ _ Ev Hu). destruct fails; [by split|]. cbn. split; [done|].
    pose proof (valid_row _ _ Ev Hu) as Ha. split.
    + intros id x. rewrite lookup_insert, select_upsert. cbn. intros Hx. case_decide as Hd.
      * injection Hx as <-. by rewrite Hd, (proj2 (str_eqb_eq _ _) eq_refl).
      * destruct (str_eqb _ _) eqn:E; [by apply str_eqb_eq, show_id_inj in E|by apply H1].
    + intros k r. rewrite select_upsert. cbn. destruct (str_eqb k _) eqn:E; intros Hr.
      * apply str_eqb_eq in E. injection Hr as <-. exists (host_id (sh_host s)), s. by rewrite lookup_insert_eq.
      * destruct (H2 _ _ Hr) as (id & x & -> & Hx & ->). exists id, x. rewrite lookup_insert_ne; [done|]. intros <-.
        by rewrite (proj2 (str_eqb_eq _ _) eq_refl) in E.
  - destruct fails; [by split|]. cbn. split; [done|]. split.
    + intros k x [Hd Hx]%lookup_delete_Some. rewrite select_delete. destruct (str_eqb _ _) eqn:E; [by apply str_eqb_eq, show_id_inj in E|by apply H1].
    + intros k r. rewrite select_delete. destruct (str_eqb k _) eqn:E; [done|]. intros (k' & x & -> & Hx & ->)%H2. exists k', x.
      rewrite lookup_delete_ne; [done|]. intros <-. by rewrite (proj2 (str_eqb_eq _ _) eq_refl) in E.
Qed.

Lemma repo_run_kept cs db m : Forall u16_ports cs → represents db m → represents (repo_run cs db) (foldl keep m cs).
Proof.
  intros H. revert db m. induction H as [|c cs Hc _ IH]; intros db m Hr; [done|]. apply IH. by apply repo_do_kept.
Qed.

Lemma represents_get db m id : represents db m → repo_get false id db = match m !! id with Some s => Ok s | None => Err host_not_found end.
Proof.
  intros [H1 H2]. unfold repo_get. cbn. destruct (m !! id) as [s|] eqn:E.
  - destruct (H1 _ _ E) as (-> & _ & Ha). by rewrite read_host_row.
  - destruct (select_host (show_id id) db) as [r|] eqn:Er; [|done]. destruct (H2 _ _ Er) as (id' & s & Hs%show_id_inj & Hm & _). subst. by rewrite E in Hm.
Qed.

Lemma represents_list db m : represents db m → ∃ hs, repo_list false db = Ok hs ∧ ∀ h, h ∈ hs ↔ sh_host <$> m !! host_id h = Some h.
Proof.
  intros [H1 H2]. unfold repo_list. cbn.
  assert (∀ r, r ∈ select_hosts db → ∃ s, m !! host_id (sh_host s) = Some s ∧ r = host_row s) as Hrow.
  { intros r (id & s & _ & Hm & ->)%select_all%H2. exists s. destruct (H1 _ _ Hm) as (_ & -> & _). done. }
  assert (∀ s, m !! host_id (sh_host s) = Some s → host_row s ∈ select_hosts db) as Hall.
  { intros s Hm. apply select_all. by apply (H1 _ _ Hm). }
  destruct (mapM (λ r, sh_host <$> read_host r) (select_hosts db)) as [hs|] eqn:E.
  - exists hs. split; [done|]. apply mapM_Some in E. intros h. split.
    + intros (i & Hi)%list_elem_of_lookup. destruct (Forall2_lookup_r _ _ _ _ _ E Hi) as (r & Hr & Hh).
      destruct (Hrow r) as (s & Hs & ->); [by eapply list_elem_of_lookup_2|]. rewrite read_host_row in Hh by (by apply (H1 _ _ Hs)).
      cbn in Hh. injection Hh as <-. by rewrite Hs.
    + intros (s & Hm & ->)%fmap_Some. apply Hall in Hm as Hr. apply list_elem_of_lookup in Hr as (i & Hi).
      destruct (Forall2_lookup_l _ _ _ _ _ E Hi) as (h & Hh & Hx). rewrite read_host_row in Hx by (by apply (H1 _ _ Hm)). cbn in Hx.
      injection Hx as <-. by eapply list_elem_of_lookup_2.
  - exfalso. apply mapM_None in E. apply Exists_exists in E as (r & Hin & Hr). destruct (Hrow r) as (s & Hs & ->); [by apply list_elem_of_In|].
    by rewrite read_host_row in Hr by (by apply (H1 _ _ Hs)).
Qed.
End Repository.

(** [C34] What is saved is what is loaded.  For any database that obeys the laws
    of the statements and has no hosts to begin with, after any calls of [save]
    and [delete], in which any statement may fail without effect, [get] returns
    for each host exactly what the last successful save of it stored, credential
    identity included, and not found if there was none or a successful delete
    came after it; [list] returns those hosts and no other; and the next call
    succeeds exactly when its statement does not fail and a host to save has a
    valid connection, so the constraints of the table refuse no valid host. *)
Theorem repository_roundtrip {Db} `{HostTableLaws Db} show_id parse_id (db : Db) (cs : list RepoCall) :
  (∀ id, parse_id (show_id id) = Some id) → (∀ k, select_host k db = None) → Forall u16_ports cs →
  let db' := repo_run show_id cs db in
  (∀ id, repo_get show_id parse_id false id db' = match kept cs !! id with Some s => Ok s | None => Err host_not_found end) ∧
  (∃ hs, repo_list parse_id false db' = Ok hs ∧ ∀ h, h ∈ hs ↔ sh_host <$> kept cs !! host_id h = Some h) ∧
  (∀ c, u16_ports c → is_ok (repo_do show_id c db').1 = succeeds c).
Proof.
  intros Hid He Hu db'. assert (represents show_id db' (kept cs)) as Hr.
  { apply (repo_run_kept show_id parse_id Hid); [done|]. split; [by intros ? ? ?%lookup_empty_Some|]. intros k r Hr. by rewrite He in Hr. }
  split; [intros id; by apply represents_get|]. split; [by eapply represents_list|]. intros c Hc. by eapply repo_do_kept.
Qed.

(** ** An instance *)

Record MapDb := { db_hosts : gmap str HostRow; db_settings : gmap str str }.

#[export] Instance MapDb_table : HostTable MapDb := {
  select_host id db := db_hosts db !! id;
  select_hosts db := map (λ kv, kv.2) (filter (λ kv, kv.1 = row_id kv.2) (map_to_list (db_hosts db)));
  upsert_host r db := {| db_hosts := <[row_id r := r]> (db_hosts db); db_settings := db_settings db |};
  delete_row k db := {| db_hosts := delete k (db_hosts db); db_settings := db_settings db |};
  select_setting k db := db_settings db !! k;
  insert_setting k v db := {| db_hosts := db_hosts db; db_settings := <[k := default v (db_settings db !! k)]> (db_settings db) |}
}.

#[export] Instance MapDb_laws : HostTableLaws MapDb.
Proof.
  split; cbn.
  - intros r db id. destruct (str_eqb id (row_id r)) eqn:E; [apply str_eqb_eq in E as ->; apply lookup_insert_eq|].
    apply lookup_insert_ne. intros <-. by rewrite (proj2 (str_eqb_eq _ _) eq_refl) in E.
  - intros k db id. destruct (str_eqb id k) eqn:E; [apply str_eqb_eq in E as ->; apply lookup_delete_eq|].
    apply lookup_delete_ne. intros <-. by rewrite (proj2 (str_eqb_eq _ _) eq_refl) in E.
  - intros r db. split.
    + intros ([k r'] & -> & [Hk Hin]%list_elem_of_filter)%list_elem_of_fmap. cbn in *. subst k. by apply elem_of_map_to_list.
    + intros Hr. apply list_elem_of_fmap. exists (row_id r, r). split; [done|].
      apply list_elem_of_filter. split; [done|]. by apply elem_of_map_to_list.
  - intros k v db k'. destruct (str_eqb k' k) eqn:E; [apply str_eqb_eq in E as ->; apply lookup_insert_eq|].
    apply lookup_insert_ne. intros <-. by rewrite (proj2 (str_eqb_eq _ _) eq_refl) in E.
Qed.

Definition sample_show_id (id : HostId) : str := [Z.of_N id].
Definition sample_parse_id (s : str) : option HostId := match s with [z] => Some (Z.to_N z) | _ => None end.
Definition sample_stored : StoredHost :=
  {| sh_host := {| host_id := 4%N; display_name := lit "Host A"; connection := {| hostname := lit "localhost"; port := 22; username := lit "root"; authentication := PrivateKey |} |};
     sh_credential_id := 9%N |}.
Definition empty_db : MapDb := {| db_hosts := ∅; db_settings := ∅ |}.

(** Saved, saved again under another name by a call that fails, and deleted. *)
Definition sample_renamed : StoredHost :=
  {| sh_host := {| host_id := 4%N; display_name := lit "Renamed"; connection := connection (sh_host sample_stored) |}; sh_credential_id := 9%N |}.
Definition sample_calls : list RepoCall := [CallDelete false 4%N; CallSave false sample_stored; CallSave true sample_renamed].

Lemma repository_roundtrip_witness :
  repo_get sample_show_id sample_parse_id false 4%N (repo_run sample_show_id sample_calls empty_db) = Ok sample_stored ∧
  repo_get sample_show_id sample_parse_id false 4%N (repo_run sample_show_id (sample_calls ++ [CallDelete false 4%N]) empty_db) = Err host_not_found.
Proof.
  assert (∀ id, sample_parse_id (sample_show_id id) = Some id) as Hid by (intros id; cbn; by rewrite N2Z.id).
  split.
  - destruct (repository_roundtrip sample_show_id sample_parse_id empty_db sample_calls Hid) as (H & _); [done| |rewrite H; vm_compute; reflexivity].
    repeat constructor; vm_compute; discriminate.
  - destruct (repository_roundtrip sample_show_id sample_parse_id empty_db (sample_calls ++ [CallDelete false 4%N]) Hid) as (H & _); [done| |rewrite H; vm_compute; reflexivity].
    repeat constructor; vm_compute; discriminate.
Defined.
