(* ===== verification/Commands.v ===== *)
(** The commands of the desktop shell ([apps/desktop/src-tauri/src/commands.rs]).

    Each command is admitted by the lifecycle, holds its permit while it works
    and gives it back when it returns; most only forward a request to the
    application, the ones for files also go through the grants for local files
    that the user selected.  A command is a program over [dcall].  What the
    application answers to a request that is only forwarded is a parameter. *)

From S2P Require Import Prelude Str Model SystemdUnit Hosts Prog Files FilePlans KnownHosts Observations Sessions Services AppFiles AppRequests LocalAccess Terminal.

(** ** Requests *)

Inductive AppRequest :=
| AListHosts
| ASaveHost (input : HostInput) (credential : option Credential)
| ADeleteHost (h : HostId)
| AConnect (h : HostId)
| ADisconnect (h : HostId)
| AReconnect (h : HostId)
| AGetSession (h : HostId)
| AGetTrust (h : HostId)
| ATrust (h : HostId) (challenge : HostKeyChallenge)
| APlanRotation (h : HostId)
| AExecuteRotation (h : HostId) (plan : N)
| ARefresh (h : HostId)
| AMonitor (h : HostId) (hs : HostSessionId)
| AListServices (h : HostId) (hs : HostSessionId)
| APlanService (o : NativeOp) (h : HostId) (hs : HostSessionId) (id : N)
| ADiscardService (o : NativeOp) (h : HostId) (hs : HostSessionId) (id : N)
| AExecuteService (o : NativeOp) (h : HostId) (hs : HostSessionId) (id : N)
| AInventory (i : Inventory) (h : HostId) (hs : HostSessionId)
| ATerminal (q : TerminalRequest)
| AFile (q : FileRequest).

Inductive UpdateRequest := UCheck | USnapshot | UDownload (announcement : N).

Section Commands.
(** The types of the answers that commands forward. *)
Context (Answer : AppRequest → Type) (Update : Type).

Inductive dcall :=
| DAdmit                                             (** [lifecycle.admit()] *)
| DRelease                                           (** the end of the permit's scope *)
| DApp (q : AppRequest)
| DUpdate (u : UpdateRequest)
| DRevokeHost (h : HostId)
| DRevokeSession (h : HostId) (hs : HostSessionId)
| DChoose (kind : LocalGrantKind) (scope : GrantScope)
| DConsumeUpload (id : LocalGrantId) (scope : GrantScope)
| DConsumeDownload (id : LocalGrantId) (scope : GrantScope)
| DDiscardGrant (id : LocalGrantId) (scope : GrantScope).

Definition dreply (c : dcall) : Type :=
  match c with
  | DAdmit => Res unit
  | DRelease | DRevokeHost _ | DRevokeSession _ _ => unit
  | DApp q => Res (Answer q)
  | DUpdate _ => Res Update
  | DChoose _ _ => Res (option LocalSelectionGrant)
  | DConsumeUpload _ _ => Res (list LocalItem)
  | DConsumeDownload _ _ => Res LocalDirectory
  | DDiscardGrant _ _ => Res unit
  end.

Abbreviation dio A := (io dreply AppError A) (only parsing).
Abbreviation dprog A := (prog dreply A) (only parsing).
Definition dask (c : dcall) : dprog (dreply c) := Do c (λ r, Ret r).
Definition forward (q : AppRequest) : dio (Answer q) := dask (DApp q).

(** [let _permit = lifecycle.admit()?; body] *)
Definition permitted {A} (body : dio A) : dio A :=
  _ ← (dask DAdmit : dio unit);
  let! x := (body : dprog _) in
  let! _ := dask DRelease in
  Ret x.

(** ** Updates, hosts and sessions *)

Definition check_for_update : dio Update := permitted (dask (DUpdate UCheck) : dio Update).
Definition get_update_state : dio Update := permitted (dask (DUpdate USnapshot) : dio Update).
Definition download_announced_update (id : N) : dio Update := permitted (dask (DUpdate (UDownload id)) : dio Update).

Definition list_hosts : dio _ := permitted (forward AListHosts).
Definition save_host (i : HostInput) (c : option Credential) : dio _ := permitted (forward (ASaveHost i c)).
Definition delete_host (h : HostId) : dio _ := permitted (forward (ADeleteHost h)).
Definition connect_host (h : HostId) : dio _ := permitted (forward (AConnect h)).
Definition disconnect_host (h : HostId) : dio _ := permitted (let! _ := dask (DRevokeHost h) in forward (ADisconnect h)).
Definition reconnect_host (h : HostId) : dio _ := permitted (let! _ := dask (DRevokeHost h) in forward (AReconnect h)).
Definition get_session (h : HostId) : dio _ := permitted (forward (AGetSession h)).
Definition get_host_ssh_trust (h : HostId) : dio _ := permitted (forward (AGetTrust h)).
Definition trust_host_key (h : HostId) (c : HostKeyChallenge) : dio _ := permitted (forward (ATrust h c)).
Definition plan_host_key_rotation (h : HostId) : dio _ := permitted (forward (APlanRotation h)).
Definition execute_host_key_rotation (h : HostId) (p : N) : dio _ := permitted (forward (AExecuteRotation h p)).
Definition refresh_host (h : HostId) : dio _ := permitted (forward (ARefresh h)).
Definition sample_host_monitor (h : HostId) (hs : HostSessionId) : dio _ := permitted (forward (AMonitor h hs)).

(** ** Services and inventories *)

Definition list_host_services (h : HostId) (hs : HostSessionId) : dio _ := permitted (forward (AListServices h hs)).
Definition plan_service_reset_failed (h : HostId) (hs : HostSessionId) (id : N) : dio _ := permitted (forward (APlanService SystemdResetFailed h hs id)).
Definition discard_service_reset_failed (h : HostId) (hs : HostSessionId) (id : N) : dio _ := permitted (forward (ADiscardService SystemdResetFailed h hs id)).
Definition execute_service_reset_failed (h : HostId) (hs : HostSessionId) (id : N) : dio _ := permitted (forward (AExecuteService SystemdResetFailed h hs id)).
Definition plan_service_try_restart (h : HostId) (hs : HostSessionId) (id : N) : dio _ := permitted (forward (APlanService SystemdTryRestart h hs id)).
Definition discard_service_try_restart (h : HostId) (hs : HostSessionId) (id : N) : dio _ := permitted (forward (ADiscardService SystemdTryRestart h hs id)).
Definition execute_service_try_restart (h : HostId) (hs : HostSessionId) (id : N) : dio _ := permitted (forward (AExecuteService SystemdTryRestart h hs id)).
Definition plan_service_reload (h : HostId) (hs : HostSessionId) (id : N) : dio _ := permitted (forward (APlanService SystemdReload h hs id)).
Definition discard_service_reload (h : HostId) (hs : HostSessionId) (id : N) : dio _ := permitted (forward (ADiscardService SystemdReload h hs id)).
Definition execute_service_reload (h : HostId) (hs : HostSessionId) (id : N) : dio _ := permitted (forward (AExecuteService SystemdReload h hs id)).
Definition plan_service_start (h : HostId) (hs : HostSessionId) (id : N) : dio _ := permitted (forward (APlanService SystemdStart h hs id)).
Definition discard_service_start (h : HostId) (hs : HostSessionId) (id : N) : dio _ := permitted (forward (ADiscardService SystemdStart h hs id)).
Definition execute_service_start (h : HostId) (hs : HostSessionId) (id : N) : dio _ := permitted (forward (AExecuteService SystemdStart h hs id)).

Definition list_host_network (h : HostId) (hs : HostSessionId) : dio _ := permitted (forward (AInventory INetwork h hs)).
Definition list_host_routes (h : HostId) (hs : HostSessionId) : dio _ := permitted (forward (AInventory IRoutes h hs)).
Definition list_host_listening_ports (h : HostId) (hs : HostSessionId) : dio _ := permitted (forward (AInventory IListeningPorts h hs)).
Definition list_host_dns_configuration (h : HostId) (hs : HostSessionId) : dio _ := permitted (forward (AInventory IDnsConfiguration h hs)).
Definition list_host_logs (h : HostId) (hs : HostSessionId) : dio _ := permitted (forward (AInventory ISystemJournal h hs)).
Definition list_host_containers (h : HostId) (hs : HostSessionId) : dio _ := permitted (forward (AInventory IDockerContainers h hs)).

(** ** Terminals *)

Definition list_terminals (h : HostId) : dio _ := permitted (forward (ATerminal (ListTerminals h))).
Definition open_terminal (h : HostId) (size : TerminalSize) : dio _ := permitted (forward (ATerminal (OpenTerminal h size))).
Definition poll_terminal (h : HostId) (hs : HostSessionId) (id : TerminalSessionId) : dio _ := permitted (forward (ATerminal (PollTerminal h hs id))).
Definition write_terminal (h : HostId) (hs : HostSessionId) (id : TerminalSessionId) (d : str) : dio _ := permitted (forward (ATerminal (WriteTerminal h hs id d))).
Definition resize_terminal (h : HostId) (hs : HostSessionId) (id : TerminalSessionId) (size : TerminalSize) : dio _ :=
  permitted (forward (ATerminal (ResizeTerminal h hs id size))).
Definition rename_terminal (h : HostId) (hs : HostSessionId) (id : TerminalSessionId) (l : str) : dio _ := permitted (forward (ATerminal (RenameTerminal h hs id l))).
Definition close_terminal (h : HostId) (hs : HostSessionId) (id : TerminalSessionId) : dio _ := permitted (forward (ATerminal (CloseTerminal h hs id))).

(** ** Files *)

Definition scope_of (h : HostId) (hs : HostSessionId) (sf : SftpSessionId) : GrantScope :=
  {| gs_host_id := h; gs_host_session_id := hs; gs_sftp_session_id := sf |}.

Definition open_sftp (h : HostId) : dio _ := permitted (forward (AFile (QOpen h))).
Definition list_remote_directory (h : HostId) (hs : HostSessionId) (sf : SftpSessionId) (p : str) : dio _ := permitted (forward (AFile (QList h hs sf p))).
Definition remote_properties (h : HostId) (hs : HostSessionId) (sf : SftpSessionId) (p : str) : dio _ := permitted (forward (AFile (QProperties h hs sf p))).

(** The session is checked before and after the user chooses; when it ended
    meanwhile, the selections of the session are revoked. *)
Definition choose (kind : LocalGrantKind) (h : HostId) (hs : HostSessionId) (sf : SftpSessionId) : dio (option LocalSelectionGrant) :=
  permitted (
    _ ← forward (AFile (QValidate h hs sf));
    grant ← (dask (DChoose kind (scope_of h hs sf)) : dio (option LocalSelectionGrant));
    let! again := dask (DApp (AFile (QValidate h hs sf))) in
    match again : Res (Answer (AFile (QValidate h hs sf))) with
    | Err e => let! _ := dask (DRevokeSession h hs) in io_fail e
    | Ok _ => mret grant
    end).
Definition choose_upload_files : HostId → HostSessionId → SftpSessionId → dio (option LocalSelectionGrant) := choose UploadFiles.
Definition choose_download_directory : HostId → HostSessionId → SftpSessionId → dio (option LocalSelectionGrant) := choose DownloadDirectory.

Record PlanUploadRequest := {
  pu_host_id : HostId; pu_host_session_id : HostSessionId; pu_sftp_session_id : SftpSessionId; pu_grant_id : LocalGrantId;
  pu_remote_directory : str; pu_conflict_policy : ConflictPolicy }.
Record PlanDownloadRequest := {
  pq_host_id : HostId; pq_host_session_id : HostSessionId; pq_sftp_session_id : SftpSessionId; pq_grant_id : LocalGrantId;
  pq_remote_paths : list str; pq_conflict_policy : ConflictPolicy }.

(** The answer's type depends on what was selected: only success is kept. *)
Definition ask_app (q : AppRequest) : dio unit := pbind (dask (DApp q)) (λ r, Ret (match r with Ok _ => Ok tt | Err e => Err e end)).

Definition plan_upload (r : PlanUploadRequest) : dio unit :=
  permitted (
    sources ← (dask (DConsumeUpload (pu_grant_id r) (scope_of (pu_host_id r) (pu_host_session_id r) (pu_sftp_session_id r))) : dio (list LocalItem));
    ask_app (AFile (QPlanUpload (pu_host_id r) (pu_host_session_id r) (pu_sftp_session_id r) sources (pu_remote_directory r) (pu_conflict_policy r)))).

Definition plan_download (r : PlanDownloadRequest) : dio unit :=
  permitted (
    directory ← (dask (DConsumeDownload (pq_grant_id r) (scope_of (pq_host_id r) (pq_host_session_id r) (pq_sftp_session_id r))) : dio LocalDirectory);
    ask_app (AFile (QPlanDownload (pq_host_id r) (pq_host_session_id r) (pq_sftp_session_id r) (pq_remote_paths r) directory (pq_conflict_policy r)))).

Definition plan_create_directory (h : HostId) (hs : HostSessionId) (sf : SftpSessionId) (p n : str) : dio _ := permitted (forward (AFile (QCreateDirectory h hs sf p n))).
Definition plan_rename (h : HostId) (hs : HostSessionId) (sf : SftpSessionId) (s n : str) : dio _ := permitted (forward (AFile (QRename h hs sf s n))).
Definition plan_delete (h : HostId) (hs : HostSessionId) (sf : SftpSessionId) (p : str) : dio _ := permitted (forward (AFile (QDelete h hs sf p))).
Definition open_remote_text_file (h : HostId) (hs : HostSessionId) (sf : SftpSessionId) (p : str) : dio _ := permitted (forward (AFile (QOpenText h hs sf p))).
Definition plan_remote_text_save (h : HostId) (hs : HostSessionId) (sf : SftpSessionId) (d : EditorDocumentId) (t : str) : dio _ :=
  permitted (forward (AFile (QPlanSave h hs sf d t))).
Definition discard_remote_text_document (h : HostId) (hs : HostSessionId) (sf : SftpSessionId) (d : EditorDocumentId) : dio _ :=
  permitted (forward (AFile (QDiscardText h hs sf d))).
Definition execute_file_plan (h : HostId) (hs : HostSessionId) (sf : SftpSessionId) (id : FilePlanId) : dio _ := permitted (forward (AFile (QExecute h hs sf id))).
Definition discard_file_plan (h : HostId) (hs : HostSessionId) (sf : SftpSessionId) (id : FilePlanId) : dio _ := permitted (forward (AFile (QDiscard h hs sf id))).
Definition discard_local_grant (h : HostId) (hs : HostSessionId) (sf : SftpSessionId) (id : LocalGrantId) : dio unit :=
  permitted (_ ← forward (AFile (QValidate h hs sf)); (dask (DDiscardGrant id (scope_of h hs sf)) : dio unit)).
Definition list_transfers (h : option HostId) : dio _ := permitted (forward (AFile (QTransfers h))).
Definition cancel_transfer (h : HostId) (hs : HostSessionId) (sf : SftpSessionId) (j : TransferJobId) : dio _ := permitted (forward (AFile (QCancel h hs sf j))).
Definition plan_retry_transfer (h : HostId) (hs : HostSessionId) (sf : SftpSessionId) (j : TransferJobId) : dio _ := permitted (forward (AFile (QRetry h hs sf j))).

(** ** All commands *)

Inductive Command :=
| CCheckForUpdate
| CGetUpdateState
| CDownloadAnnouncedUpdate (id : N)
| CListHosts
| CSaveHost (i : HostInput) (c : option Credential)
| CDeleteHost (h : HostId)
| CConnectHost (h : HostId)
| CDisconnectHost (h : HostId)
| CReconnectHost (h : HostId)
| CGetSession (h : HostId)
| CGetHostSshTrust (h : HostId)
| CTrustHostKey (h : HostId) (c : HostKeyChallenge)
| CPlanHostKeyRotation (h : HostId)
| CExecuteHostKeyRotation (h : HostId) (p : N)
| CRefreshHost (h : HostId)
| CSampleHostMonitor (h : HostId) (hs : HostSessionId)
| CListHostServices (h : HostId) (hs : HostSessionId)
| CPlanServiceResetFailed (h : HostId) (hs : HostSessionId) (id : N)
| CDiscardServiceResetFailed (h : HostId) (hs : HostSessionId) (id : N)
| CExecuteServiceResetFailed (h : HostId) (hs : HostSessionId) (id : N)
| CPlanServiceTryRestart (h : HostId) (hs : HostSessionId) (id : N)
| CDiscardServiceTryRestart (h : HostId) (hs : HostSessionId) (id : N)
| CExecuteServiceTryRestart (h : HostId) (hs : HostSessionId) (id : N)
| CPlanServiceReload (h : HostId) (hs : HostSessionId) (id : N)
| CDiscardServiceReload (h : HostId) (hs : HostSessionId) (id : N)
| CExecuteServiceReload (h : HostId) (hs : HostSessionId) (id : N)
| CPlanServiceStart (h : HostId) (hs : HostSessionId) (id : N)
| CDiscardServiceStart (h : HostId) (hs : HostSessionId) (id : N)
| CExecuteServiceStart (h : HostId) (hs : HostSessionId) (id : N)
| CListHostNetwork (h : HostId) (hs : HostSessionId)
| CListHostRoutes (h : HostId) (hs : HostSessionId)
| CListHostListeningPorts (h : HostId) (hs : HostSessionId)
| CListHostDnsConfiguration (h : HostId) (hs : HostSessionId)
| CListHostLogs (h : HostId) (hs : HostSessionId)
| CListHostContainers (h : HostId) (hs : HostSessionId)
| CListTerminals (h : HostId)
| COpenTerminal (h : HostId) (size : TerminalSize)
| CPollTerminal (h : HostId) (hs : HostSessionId) (id : TerminalSessionId)
| CWriteTerminal (h : HostId) (hs : HostSessionId) (id : TerminalSessionId) (d : str)
| CResizeTerminal (h : HostId) (hs : HostSessionId) (id : TerminalSessionId) (size : TerminalSize)
| CRenameTerminal (h : HostId) (hs : HostSessionId) (id : TerminalSessionId) (l : str)
| CCloseTerminal (h : HostId) (hs : HostSessionId) (id : TerminalSessionId)
| COpenSftp (h : HostId)
| CListRemoteDirectory (h : HostId) (hs : HostSessionId) (sf : SftpSessionId) (p : str)
| CRemoteProperties (h : HostId) (hs : HostSessionId) (sf : SftpSessionId) (p : str)
| CPlanUpload (r : PlanUploadRequest)
| CPlanDownload (r : PlanDownloadRequest)
| CPlanCreateDirectory (h : HostId) (hs : HostSessionId) (sf : SftpSessionId) (p : str) (n : str)
| CPlanRename (h : HostId) (hs : HostSessionId) (sf : SftpSessionId) (s : str) (n : str)
| CPlanDelete (h : HostId) (hs : HostSessionId) (sf : SftpSessionId) (p : str)
| COpenRemoteTextFile (h : HostId) (hs : HostSessionId) (sf : SftpSessionId) (p : str)
| CPlanRemoteTextSave (h : HostId) (hs : HostSessionId) (sf : SftpSessionId) (d : EditorDocumentId) (t : str)
| CDiscardRemoteTextDocument (h : HostId) (hs : HostSessionId) (sf : SftpSessionId) (d : EditorDocumentId)
| CExecuteFilePlan (h : HostId) (hs : HostSessionId) (sf : SftpSessionId) (id : FilePlanId)
| CDiscardFilePlan (h : HostId) (hs : HostSessionId) (sf : SftpSessionId) (id : FilePlanId)
| CDiscardLocalGrant (h : HostId) (hs : HostSessionId) (sf : SftpSessionId) (id : LocalGrantId)
| CListTransfers (h : option HostId)
| CCancelTransfer (h : HostId) (hs : HostSessionId) (sf : SftpSessionId) (j : TransferJobId)
| CPlanRetryTransfer (h : HostId) (hs : HostSessionId) (sf : SftpSessionId) (j : TransferJobId)
| CChooseUploadFiles (h : HostId) (hs : HostSessionId) (sf : SftpSessionId)
| CChooseDownloadDirectory (h : HostId) (hs : HostSessionId) (sf : SftpSessionId).

(** Whether a command succeeds; its answer is forwarded. *)
Definition outcome {A} (p : dio A) : dprog bool := pbind p (λ r, Ret (is_ok r)).
Definition command_prog (c : Command) : dprog bool :=
  match c with
  | CCheckForUpdate => outcome (check_for_update)
  | CGetUpdateState => outcome (get_update_state)
  | CDownloadAnnouncedUpdate id => outcome (download_announced_update id)
  | CListHosts => outcome (list_hosts)
  | CSaveHost i c => outcome (save_host i c)
  | CDeleteHost h => outcome (delete_host h)
  | CConnectHost h => outcome (connect_host h)
  | CDisconnectHost h => outcome (disconnect_host h)
  | CReconnectHost h => outcome (reconnect_host h)
  | CGetSession h => outcome (get_session h)
  | CGetHostSshTrust h => outcome (get_host_ssh_trust h)
  | CTrustHostKey h c => outcome (trust_host_key h c)
  | CPlanHostKeyRotation h => outcome (plan_host_key_rotation h)
  | CExecuteHostKeyRotation h p => outcome (execute_host_key_rotation h p)
  | CRefreshHost h => outcome (refresh_host h)
  | CSampleHostMonitor h hs => outcome (sample_host_monitor h hs)
  | CListHostServices h hs => outcome (list_host_services h hs)
  | CPlanServiceResetFailed h hs id => outcome (plan_service_reset_failed h hs id)
  | CDiscardServiceResetFailed h hs id => outcome (discard_service_reset_failed h hs id)
  | CExecuteServiceResetFailed h hs id => outcome (execute_service_reset_failed h hs id)
  | CPlanServiceTryRestart h hs id => outcome (plan_service_try_restart h hs id)
  | CDiscardServiceTryRestart h hs id => outcome (discard_service_try_restart h hs id)
  | CExecuteServiceTryRestart h hs id => outcome (execute_service_try_restart h hs id)
  | CPlanServiceReload h hs id => outcome (plan_service_reload h hs id)
  | CDiscardServiceReload h hs id => outcome (discard_service_reload h hs id)
  | CExecuteServiceReload h hs id => outcome (execute_service_reload h hs id)
  | CPlanServiceStart h hs id => outcome (plan_service_start h hs id)
  | CDiscardServiceStart h hs id => outcome (discard_service_start h hs id)
  | CExecuteServiceStart h hs id => outcome (execute_service_start h hs id)
  | CListHostNetwork h hs => outcome (list_host_network h hs)
  | CListHostRoutes h hs => outcome (list_host_routes h hs)
  | CListHostListeningPorts h hs => outcome (list_host_listening_ports h hs)
  | CListHostDnsConfiguration h hs => outcome (list_host_dns_configuration h hs)
  | CListHostLogs h hs => outcome (list_host_logs h hs)
  | CListHostContainers h hs => outcome (list_host_containers h hs)
  | CListTerminals h => outcome (list_terminals h)
  | COpenTerminal h size => outcome (open_terminal h size)
  | CPollTerminal h hs id => outcome (poll_terminal h hs id)
  | CWriteTerminal h hs id d => outcome (write_terminal h hs id d)
  | CResizeTerminal h hs id size => outcome (resize_terminal h hs id size)
  | CRenameTerminal h hs id l => outcome (rename_terminal h hs id l)
  | CCloseTerminal h hs id => outcome (close_terminal h hs id)
  | COpenSftp h => outcome (open_sftp h)
  | CListRemoteDirectory h hs sf p => outcome (list_remote_directory h hs sf p)
  | CRemoteProperties h hs sf p => outcome (remote_properties h hs sf p)
  | CPlanUpload r => outcome (plan_upload r)
  | CPlanDownload r => outcome (plan_download r)
  | CPlanCreateDirectory h hs sf p n => outcome (plan_create_directory h hs sf p n)
  | CPlanRename h hs sf s n => outcome (plan_rename h hs sf s n)
  | CPlanDelete h hs sf p => outcome (plan_delete h hs sf p)
  | COpenRemoteTextFile h hs sf p => outcome (open_remote_text_file h hs sf p)
  | CPlanRemoteTextSave h hs sf d t => outcome (plan_remote_text_save h hs sf d t)
  | CDiscardRemoteTextDocument h hs sf d => outcome (discard_remote_text_document h hs sf d)
  | CExecuteFilePlan h hs sf id => outcome (execute_file_plan h hs sf id)
  | CDiscardFilePlan h hs sf id => outcome (discard_file_plan h hs sf id)
  | CDiscardLocalGrant h hs sf id => outcome (discard_local_grant h hs sf id)
  | CListTransfers h => outcome (list_transfers h)
  | CCancelTransfer h hs sf j => outcome (cancel_transfer h hs sf j)
  | CPlanRetryTransfer h hs sf j => outcome (plan_retry_transfer h hs sf j)
  | CChooseUploadFiles h hs sf => outcome (choose_upload_files h hs sf)
  | CChooseDownloadDirectory h hs sf => outcome (choose_download_directory h hs sf)
  end.

(** ** Permits *)

Definition work (c : dcall) : bool := match c with DAdmit | DRelease => false | _ => true end.

(** What the trace of a command is. *)
Definition under_permit (t : list (event dreply)) (r : bool) : Prop :=
  (∃ e, t = [Ev DAdmit (Err e)] ∧ r = false) ∨
  ∃ t', t = Ev DAdmit (Ok tt) :: t' ++ [Ev DRelease tt] ∧ Forall (λ e, work (ev_call e) = true) t'.

Lemma permitted_runs {A} (body : dio A) t r : only work (body : dprog _) → runs (outcome (permitted body)) t r → under_permit t r.
Proof.
  intros Ho H. unfold outcome, permitted in H. apply runs_bind in H as (x & t1 & t2 & H & [-> ->]%runs_ret_inv & ->). rewrite app_nil_r.
  cbn in H. apply runs_do_inv in H as (a & t' & -> & H). destruct a as [[]|e]; cbn in H.
  - right. apply runs_bind in H as (y & t3 & t4 & Hb & H & ->). apply runs_do_inv in H as ([] & t5 & -> & [-> _]%runs_ret_inv).
    exists t3. split; [done|]. by eapply only_runs.
  - apply runs_ret_inv in H as [-> ->]. left. by exists e.
Qed.

(** Every command asks to be admitted before anything else; one that is
    refused makes no other call and fails; one that is admitted does all its
    work between the admission and the release of its permit, which it gives
    back exactly once, whether it succeeds or fails. *)
Theorem commands_hold_permits c t r : runs (command_prog c) t r → under_permit t r.
Proof.
  intros H. destruct c; (eapply permitted_runs; [|exact H]); cbn; repeat (split; [done|]; intros []; cbn); done.
Qed.

(** ** Selections *)

(** What a request needs before it is sent: a plan for local files needs a
    selection of the same session that was just consumed and gave exactly
    those files; the end of a session needs its selections revoked. *)
Definition needs (before : list (event dreply)) (c : dcall) : Prop :=
  match c with
  | DApp (AFile (QPlanUpload h hs sf sources _ _)) => ∃ id, Ev (DConsumeUpload id (scope_of h hs sf)) (Ok sources) ∈ before
  | DApp (AFile (QPlanDownload h hs sf _ directory _)) => ∃ id, Ev (DConsumeDownload id (scope_of h hs sf)) (Ok directory) ∈ before
  | DApp (ADisconnect h) | DApp (AReconnect h) => Ev (DRevokeHost h) tt ∈ before
  | _ => True
  end.

Fixpoint prepared (before t : list (event dreply)) : Prop :=
  match t with
  | [] => True
  | e :: t' => needs before (ev_call e) ∧ prepared (before ++ [e]) t'
  end.

Lemma prepared_at t1 e t2 before : prepared before (t1 ++ e :: t2) → needs (before ++ t1) (ev_call e).
Proof.
  revert before. induction t1 as [|x t1 IH]; intros before; cbn.
  - rewrite app_nil_r. by intros [H _].
  - intros [_ H]. apply IH in H. by rewrite <-app_assoc in H.
Qed.

(** Every reply of the environment, one after the other. *)
Ltac go := repeat match goal with |- wp _ _ _ => cbn | |- ∀ x : ?T, _ => let r := fresh "r" in intros r; cbn in r; try (destruct r as [r|r]); try (destruct r); cbn end.

Lemma command_prepared c t r : runs (command_prog c) t r → prepared [] t.
Proof.
  intros H. refine (wp_runs _ [] t r (λ t _, prepared [] t) _ H). clear H.
  destruct c; cbn; go; repeat split; try done; try (eexists; set_solver); set_solver.
Qed.

(** Whatever the application, the user and the grants answer: a command
    that sends local files to be uploaded or a local directory to be written
    has before that consumed a selection of the same host, host session and
    file session that gave exactly those files or that directory, and a
    command that ends a session has revoked the selections of its host. *)
Theorem selections_are_scoped c t r : runs (command_prog c) t r →
  ∀ t1 e t2, t = t1 ++ e :: t2 → needs t1 (ev_call e).
Proof. intros H t1 e t2 ->. apply command_prepared in H. by apply prepared_at in H. Qed.

(** How a choice of local files ends. *)
Definition choice_trace (kind : LocalGrantKind) (h : HostId) (hs : HostSessionId) (sf : SftpSessionId)
    (t : list (event dreply)) (r : Res (option LocalSelectionGrant)) : Prop :=
  let check x := Ev (DApp (AFile (QValidate h hs sf))) x in
  let chosen x := Ev (DChoose kind (scope_of h hs sf)) x in
  let around l := Ev DAdmit (Ok tt) :: l ++ [Ev DRelease tt] in
  match r with
  | Ok g => ∃ a b, t = around [check (Ok a); chosen (Ok g); check (Ok b)]
  | Err e => t = [Ev DAdmit (Err e)] ∨ t = around [check (Err e)] ∨ (∃ a, t = around [check (Ok a); chosen (Err e)]) ∨
      ∃ a g, t = around [check (Ok a); chosen (Ok g); check (Err e); Ev (DRevokeSession h hs) tt]
  end.

(** A selection of local files is handed out only when the file session
    was current before the user was asked and still is afterwards; when it
    ended meanwhile, every selection of that session is revoked. *)
Theorem choices_are_revalidated kind h hs sf t r :
  runs (choose kind h hs sf : dprog _) t r → choice_trace kind h hs sf t r.
Proof.
  intros H. refine (wp_runs _ [] t r (λ t r, choice_trace kind h hs sf t r) _ H). clear H.
  cbn; go; rewrite ?app_nil_l; eauto 10.
Qed.
End Commands.

(** ** Runs *)

Definition example_answer (c : dcall) : dreply (λ _, unit) unit c :=
  match c with
  | DAdmit => Ok tt
  | DRelease | DRevokeHost _ | DRevokeSession _ _ => tt
  | DApp _ => Ok tt
  | DUpdate _ => Ok tt
  | DChoose _ _ => Ok None
  | DConsumeUpload _ _ => Ok []
  | DConsumeDownload _ _ => Err grant_missing
  | DDiscardGrant _ _ => Ok tt
  end.

Definition example_upload : Command :=
  CPlanUpload {| pu_host_id := 1%N; pu_host_session_id := 2%N; pu_sftp_session_id := 3%N; pu_grant_id := 4%N;
    pu_remote_directory := lit "/srv"; pu_conflict_policy := PSkip |}.

Lemma commands_hold_permits_witness :
  let t := (interp example_answer (command_prog _ _ example_upload)).1 in length t = 4%nat ∧ under_permit _ _ t true.
Proof. split; [reflexivity|]. eapply (commands_hold_permits _ _ example_upload). by apply interp_runs_eq. Defined.

Lemma selections_are_scoped_witness :
  needs (λ _, unit) unit [Ev DAdmit (Ok tt); Ev (DConsumeUpload 4%N (scope_of 1%N 2%N 3%N)) (Ok [])]
    (DApp (AFile (QPlanUpload 1%N 2%N 3%N [] (lit "/srv") PSkip))).
Proof.
  eapply (selections_are_scoped (λ _, unit) unit example_upload _ true
    (interp_runs_eq example_answer (command_prog _ _ example_upload) true eq_refl) _ (Ev (DApp (AFile (QPlanUpload 1%N 2%N 3%N [] (lit "/srv") PSkip))) (Ok tt))). reflexivity.
Defined.

Lemma choices_are_revalidated_witness :
  let t := (interp example_answer (choose _ _ UploadFiles 1%N 2%N 3%N)).1 in
  length t = 5%nat ∧ choice_trace _ _ UploadFiles 1%N 2%N 3%N t (Ok None).
Proof. split; [reflexivity|]. apply choices_are_revalidated. by apply interp_runs_eq. Defined.
