(* ===== verification/Vault.v ===== *)
(** The encrypted store of credentials ([nexus-secrets/src/vault.rs]): sealed
    credentials in a database, the key that seals them in the key store of the
    operating system.

    The lock serializes the operations, so each one is a function of the two
    tables and the key store.  [KeyProvider] is the trait of the source, with
    its promises as laws; the platform's provider and a fixed key obey them.
    AES-GCM and the JSON codec are parameters with the laws they document, and
    the database is its tables: a statement may fail, a transaction that is not
    committed leaves the tables as they were. *)

From S2P Require Import Prelude Str Model Hosts KnownHosts.

Abbreviation bytes := (list Z) (only parsing).

Definition vault_failure : AppError :=
  app_error SecureStorage "Secure credential storage is unavailable or locked. Unlock your OS keychain and try again.".

(** [getrandom::fill] of [n] bytes with what the generator gives. *)
Definition fill (n : nat) (random : nat → Z) : bytes := map random (seq 0 n).

(** ** The key *)

Record KeyFaults := { gate_poisoned : bool; no_entry : bool; no_get : bool; no_key_random : bool; no_set : bool }.
Definition no_key_faults : KeyFaults := {| gate_poisoned := false; no_entry := false; no_get := false; no_key_random := false; no_set := false |}.

Class KeyProvider (K : Type) := {
  key : KeyFaults → K → Res bytes;
  initialize : KeyFaults → (nat → Z) → K → Res bytes * K;
  held : K → option bytes           (** the key that the provider gives when nothing fails *)
}.

(** A key is loaded as it is held, and initializing never replaces one. *)
Class KeyProviderLaws K {P : KeyProvider K} := {
  key_is_held io k b : key io k = Ok b → held k = Some b;
  held_is_key k b : held k = Some b → key no_key_faults k = Ok b;
  initialized_is_held io rng k b k' : initialize io rng k = (Ok b, k') → held k' = Some b;
  initialize_keeps io rng k b : held k = Some b → held (initialize io rng k).2 = Some b;
  held_length k b : held k = Some b → zlen b = 32
}.

(** [PlatformKeyProvider::load] on the entry of the key store. *)
Definition load (allow_creation : bool) (io : KeyFaults) (random : nat → Z) (entry : option bytes) : Res bytes * option bytes :=
  if gate_poisoned io || no_entry io || no_get io then (Err vault_failure, entry) else
  let checked k := if zlen k =? 32 then Ok k else Err vault_failure in
  match entry with
  | Some k => (checked k, entry)
  | None =>
      if negb allow_creation || no_key_random io || no_set io then (Err vault_failure, None) else
      let k := fill 32 random in (checked k, Some k)
  end.

#[export] Instance PlatformKeyProvider : KeyProvider (option bytes) := {
  key io k := (load false io (λ _, 0) k).1;
  initialize := load true;
  held k := b ← k; if zlen b =? 32 then Some b else None
}.

Lemma fill_length n rng : zlen (fill n rng) = Z.of_nat n.
Proof. unfold fill. by rewrite length_map, length_seq. Qed.

(** A loaded key is in the key store, which keeps the one it has. *)
Lemma load_ok allow io rng e b e' : load allow io rng e = (Ok b, e') → e' = Some b ∧ zlen b = 32 ∧ (allow = false → e = Some b).
Proof.
  unfold load. destruct (_ || _ || _); [done|]. destruct e as [k|].
  - destruct (Z.eqb_spec (zlen k) 32); [|done]. by intros [= <- <-].
  - destruct allow; cbn [negb orb]; [|done]. destruct (_ || _); [done|]. rewrite fill_length. cbn -[fill]. intros [= <- <-].
    by rewrite fill_length.
Qed.

Lemma load_keeps allow io rng k : (load allow io rng (Some k)).2 = Some k.
Proof. unfold load. by destruct (_ || _ || _). Qed.

Lemma platform_held k b : held k = Some b ↔ k = Some b ∧ zlen b = 32.
Proof. destruct k as [k|]; cbn; [|naive_solver]. destruct (Z.eqb_spec (zlen k) 32); naive_solver. Qed.

#[export] Instance PlatformKeyProvider_laws : KeyProviderLaws (option bytes).
Proof.
  split.
  - intros io k b Hk. cbn in Hk. destruct (load false io (λ _, 0) k) as [r k'] eqn:E. cbn in Hk. subst r.
    apply load_ok in E as (_ & Hl & Hk). apply platform_held. auto.
  - intros k b [-> Hl]%platform_held. cbn. by rewrite (proj2 (Z.eqb_eq _ _) Hl).
  - intros io rng k b k' (-> & Hl & _)%load_ok. by apply platform_held.
  - intros io rng k b [-> Hl]%platform_held. cbn [initialize PlatformKeyProvider]. rewrite load_keeps. by apply platform_held.
  - by intros k b [_ Hl]%platform_held.
Qed.

(** A provider with a fixed key, with the trait's own [initialize]. *)
Definition default_initialize {K} (key : KeyFaults → K → Res bytes) (io : KeyFaults) (random : nat → Z) (k : K) : Res bytes * K := (key io k, k).

Record FixedKey := { fixed : bytes; fixed_length : zlen fixed = 32 }.
#[export] Instance FixedKeyProvider : KeyProvider FixedKey := {
  key io k := Ok (fixed k);
  initialize := default_initialize (λ io k, Ok (fixed k));
  held k := Some (fixed k)
}.
#[export] Instance FixedKeyProvider_laws : KeyProviderLaws FixedKey.
Proof.
  split; cbn; [| | | |intros k b [= <-]; apply fixed_length].
  all: unfold default_initialize; naive_solver.
Qed.

(** ** The store *)

Definition MAX_CIPHERTEXT_BYTES : Z := 3 * 65536 * 6 + 256.

Record VaultFaults := {
  v_poisoned : bool; v_no_begin : bool; v_no_state : bool; v_key : KeyFaults; v_no_nonce : bool; v_no_insert : bool; v_no_mark : bool;
  v_no_commit : bool; v_no_select : bool; v_no_delete : bool }.
Definition no_vault_faults : VaultFaults :=
  {| v_poisoned := false; v_no_begin := false; v_no_state := false; v_key := no_key_faults; v_no_nonce := false; v_no_insert := false; v_no_mark := false;
     v_no_commit := false; v_no_select := false; v_no_delete := false |}.

(** The libraries that seal and write a credential. *)
Class Sealing := {
  Cipher : Type;
  new_from_slice : bytes → option Cipher;
  encrypt : Cipher → bytes → bytes → bytes → option bytes;   (** nonce, associated data, message *)
  decrypt : Cipher → bytes → bytes → bytes → option bytes;
  to_vec : Credential → option bytes;
  from_slice : bytes → option Credential;
  show_host_id : HostId → bytes
}.

Definition field_bytes (v : option str) : Z := match v with Some s => len s | None => 0 end.

(** AES-256-GCM takes 32 bytes of key and adds a tag of 16 bytes; JSON writes
    at most six bytes for a byte of text, and at most 53 around the three
    fields. *)
Class SealingLaws {S : Sealing} := {
  new_from_32 k : zlen k = 32 → is_Some (new_from_slice k);
  encrypt_total c n a m : zlen n = 12 → zlen m ≤ 2 ^ 36 → is_Some (encrypt c n a m);
  encrypt_length c n a m ct : encrypt c n a m = Some ct → zlen ct = zlen m + 16;
  decrypt_encrypt c n a m ct : encrypt c n a m = Some ct → decrypt c n a ct = Some m;
  to_vec_total v : is_Some (to_vec v);
  to_vec_length v b : to_vec v = Some b → zlen b ≤ 6 * (field_bytes (password v) + field_bytes (private_key v) + field_bytes (passphrase v)) + 53;
  from_to_vec v b : to_vec v = Some b → from_slice b = Some v
}.

(** The tables and the key store. *)
Record Vault (K : Type) := { secrets : gmap HostId (bytes * bytes); initialized : bool; keys : K }.
Arguments secrets {K} _.
Arguments initialized {K} _.
Arguments keys {K} _.

Section Store.
Context {K : Type} `{KeyProvider K} `{Sealing}.

Definition aad (id : HostId) : bytes := lit "nexusops:v1:" ++ show_host_id id.

(** [open] of the tables as they are in the file. *)
Definition vault_open (fails : bool) (s : Vault K) : Res unit * Vault K :=
  if fails then (Err vault_failure, s) else
  (Ok tt, {| secrets := secrets s; initialized := initialized s || negb (bool_decide (secrets s = ∅)); keys := keys s |}).

Definition auth_method (c : Credential) : AuthenticationMethod := if bool_decide (private_key c = None) then Password else PrivateKey.

(** What [put] writes: the nonce and the ciphertext under a loaded key. *)
Definition seal (io : VaultFaults) (random : nat → Z) (id : HostId) (credential : Credential) (k : bytes) : Res (bytes * bytes) :=
  cipher ← ok_or (new_from_slice k) vault_failure;
  _ ← ensure (v_no_nonce io) vault_failure;
  let nonce := fill 12 random in
  plaintext ← ok_or (to_vec credential) vault_failure;
  ciphertext ← ok_or (encrypt cipher nonce (aad id) plaintext) vault_failure;
  Ok (nonce, ciphertext).

Definition put (io : VaultFaults) (key_random random : nat → Z) (id : HostId) (credential : Credential) (s : Vault K) : Res unit * Vault K :=
  match credential_validate credential (auth_method credential) with
  | Err e => (Err e, s)
  | Ok _ =>
      if v_poisoned io || v_no_begin io || v_no_state io then (Err vault_failure, s) else
      let '(loaded, keys') := if initialized s then (key (v_key io) (keys s), keys s) else initialize (v_key io) key_random (keys s) in
      let s := {| secrets := secrets s; initialized := initialized s; keys := keys' |} in
      match k ← loaded; seal io random id credential k with
      | Err e => (Err e, s)
      | Ok row =>
          if bool_decide (is_Some (secrets s !! id)) || v_no_insert io || v_no_mark io || v_no_commit io then (Err vault_failure, s) else
          (Ok tt, {| secrets := <[id := row]> (secrets s); initialized := true; keys := keys' |})
      end
  end.

Definition select_secret (id : HostId) (s : Vault K) : option (bytes * bytes) :=
  row ← secrets s !! id; if (zlen row.1 =? 12) && (zlen row.2 <=? MAX_CIPHERTEXT_BYTES) then Some row else None.

Definition get (io : VaultFaults) (id : HostId) (s : Vault K) : Res Credential :=
  k ← key (v_key io) (keys s);
  _ ← ensure (v_poisoned io || v_no_select io) vault_failure;
  row ← ok_or (select_secret id s) vault_failure;
  _ ← ensure (negb (zlen row.1 =? 12)) vault_failure;
  cipher ← ok_or (new_from_slice k) vault_failure;
  plaintext ← ok_or (decrypt cipher row.1 (aad id) row.2) vault_failure;
  ok_or (from_slice plaintext) vault_failure.

Definition delete_secret (io : VaultFaults) (id : HostId) (s : Vault K) : Res unit * Vault K :=
  if v_poisoned io || v_no_delete io then (Err vault_failure, s) else
  (Ok tt, {| secrets := delete id (secrets s); initialized := initialized s; keys := keys s |}).
End Store.

(** ** What the store promises: a map of credentials *)

Inductive VaultOp (K : Type) :=
| OPut (io : VaultFaults) (key_random random : nat → Z) (id : HostId) (c : Credential)
| OGet (io : VaultFaults) (id : HostId)
| ODelete (io : VaultFaults) (id : HostId)
| OOpen (fails : bool)
| OLock (k : K).             (** the user locks, removes or restores the key *)
Arguments OPut {K} _ _ _ _ _.
Arguments OGet {K} _ _.
Arguments ODelete {K} _ _.
Arguments OOpen {K} _.
Arguments OLock {K} _.

Inductive VaultReply := RDone (r : Res unit) | RCredential (r : Res Credential).

(** No credential is overwritten, a failed operation changes nothing, and what
    is read was stored. *)
Definition map_op {K} (op : VaultOp K) (r : VaultReply) (m m' : gmap HostId Credential) : Prop :=
  match op, r with
  | OPut _ _ _ id c, RDone (Ok _) => m !! id = None ∧ m' = <[id := c]> m
  | ODelete _ id, RDone (Ok _) => m' = delete id m
  | OGet _ id, RCredential (Ok c) => m !! id = Some c ∧ m' = m
  | OGet _ _, RCredential (Err _) => m' = m
  | OPut _ _ _ _ _, RDone (Err _) | ODelete _ _, RDone (Err _) | OOpen _, RDone _ | OLock _, RDone _ => m' = m
  | _, _ => False
  end.

Fixpoint map_run {K} (ops : list (VaultOp K)) (rs : list VaultReply) (m m' : gmap HostId Credential) : Prop :=
  match ops, rs with
  | [], [] => m' = m
  | op :: ops, r :: rs => ∃ m1, map_op op r m m1 ∧ map_run ops rs m1 m'
  | _, _ => False
  end.

Section Refinement.
Context {K : Type} `{KeyProviderLaws K} `{SealingLaws}.

Definition vault_op (op : VaultOp K) (s : Vault K) : VaultReply * Vault K :=
  match op with
  | OPut io kr r id c => let '(x, s') := put io kr r id c s in (RDone x, s')
  | OGet io id => (RCredential (get io id s), s)
  | ODelete io id => let '(x, s') := delete_secret io id s in (RDone x, s')
  | OOpen fails => let '(x, s') := vault_open fails s in (RDone x, s')
  | OLock k =>
      (RDone (Ok tt),
       if bool_decide (held k = None ∨ held k = held (keys s)) then {| secrets := secrets s; initialized := initialized s; keys := k |} else s)
  end.

Fixpoint vault_run (ops : list (VaultOp K)) (s : Vault K) : list VaultReply * Vault K :=
  match ops with
  | [] => ([], s)
  | op :: ops => let '(r, s1) := vault_op op s in let '(rs, s2) := vault_run ops s1 in (r :: rs, s2)
  end.

(** A row that gives [c] back under the key [k]. *)
Definition sealed (k : bytes) (id : HostId) (row : bytes * bytes) (c : Credential) : Prop :=
  zlen row.1 = 12 ∧ zlen row.2 ≤ MAX_CIPHERTEXT_BYTES ∧
  ∃ cipher p, new_from_slice k = Some cipher ∧ to_vec c = Some p ∧ encrypt cipher row.1 (aad id) p = Some row.2.

(** Every row is sealed by one key, the one that is held if any is. *)
Definition implements (k : bytes) (s : Vault K) (m : gmap HostId Credential) : Prop :=
  (∀ id, option_Forall2 (sealed k id) (secrets s !! id) (m !! id)) ∧
  (initialized s = false → secrets s = ∅) ∧
  (initialized s = true → ∀ b, held (keys s) = Some b → b = k).

(** The bound of the read is enough for every accepted credential. *)
Lemma validated_fields c m u : credential_validate c m = Ok u →
  field_bytes (password c) ≤ 65536 ∧ field_bytes (private_key c) ≤ 65536 ∧ field_bytes (passphrase c) ≤ 65536.
Proof.
  unfold credential_validate. rewrite bind_ok. intros (? & _ & Hs%ensure_ok).
  unfold oversized, field_bytes in *. destruct (password c), (private_key c), (passphrase c); cbn in Hs; lia.
Qed.

Lemma seal_sealed io rng id c m u k row : credential_validate c m = Ok u → seal io rng id c k = Ok row → sealed k id row c.
Proof.
  intros Hv%validated_fields. unfold seal. rewrite bind_ok. intros (cipher & Hc%ok_or_ok & H3).
  apply bind_ok in H3 as (? & _ & H3). apply bind_ok in H3 as (p & Hp%ok_or_ok & H3). apply bind_ok in H3 as (ct & Hct%ok_or_ok & [= <-]).
  split; [apply fill_length|]. split; [|by exists cipher, p].
  pose proof (encrypt_length _ _ _ _ _ Hct). pose proof (to_vec_length _ _ Hp). cbn [snd]. unfold MAX_CIPHERTEXT_BYTES. lia.
Qed.

Lemma get_sealed io id s k row c : secrets s !! id = Some row → sealed k id row c → key (v_key io) (keys s) = Ok k →
  get io id s = (_ ← ensure (v_poisoned io || v_no_select io) vault_failure; Ok c).
Proof.
  intros Hr (Hn & Hm & cipher & p & Hk & Hp & He) Eb. unfold get. rewrite Eb. cbn. destruct (ensure _ _) as [[]|e]; cbn; [|done].
  unfold select_secret. rewrite Hr. cbn. rewrite (proj2 (Z.eqb_eq _ _) Hn), (proj2 (Z.leb_le _ _) Hm). cbn. rewrite Hn. cbn.
  rewrite Hk. cbn. rewrite (decrypt_encrypt _ _ _ _ _ He). cbn. by rewrite (from_to_vec _ _ Hp).
Qed.

Lemma get_ok io id s c : get io id s = Ok c → ∃ k row, key (v_key io) (keys s) = Ok k ∧ secrets s !! id = Some row.
Proof.
  unfold get. rewrite bind_ok. intros (k & Hk & H3). apply bind_ok in H3 as (? & _ & H3). apply bind_ok in H3 as (row & Hr%ok_or_ok & _).
  exists k. unfold select_secret in Hr. destruct (secrets s !! id) as [row'|]; [|done]. by exists row'.
Qed.

Lemma implements_key k s m id row b : implements k s m → secrets s !! id = Some row → held (keys s) = Some b → b = k.
Proof.
  intros (_ & He & Hk) Hr. apply Hk. destruct (initialized s); [done|]. by rewrite He in Hr.
Qed.

(** What a stored credential reads as when nothing fails. *)
Lemma implements_get k s m b id : implements k s m → held (keys s) = Some b →
  get no_vault_faults id s = match m !! id with Some c => Ok c | None => Err vault_failure end.
Proof.
  intros HI Hb. pose proof HI as (Hm & _). specialize (Hm id). pose proof (held_is_key _ _ Hb) as Hkey. inversion Hm as [row c Hs Hr Hc|Hr Hc].
  - symmetry in Hr. pose proof (implements_key _ _ _ _ _ _ HI Hr Hb) as ->. by rewrite (get_sealed no_vault_faults id s k row c Hr Hs Hkey).
  - unfold get. cbn [v_key no_vault_faults]. rewrite Hkey. cbn. unfold select_secret. by rewrite <-Hr.
Qed.

(** The keys may change to ones that hold nothing else. *)
Lemma implements_keys k s m keys' : implements k s m → (initialized s = true → held keys' = None ∨ held keys' = held (keys s)) →
  implements k {| secrets := secrets s; initialized := initialized s; keys := keys' |} m.
Proof.
  intros (Hm & He & Hk) Hh. split; [done|]. split; [done|]. cbn. intros Hi b Hb. destruct (Hh Hi) as [Hn|Hn]; rewrite Hn in Hb; [done|auto].
Qed.

(** The key that a new credential is sealed with. *)
Lemma put_key io rng k s m b keys' :
  implements k s m → (if initialized s then (key io (keys s), keys s) else initialize io rng (keys s)) = (Ok b, keys') →
  held keys' = Some b ∧ ∀ id, option_Forall2 (sealed b id) (secrets s !! id) (m !! id).
Proof.
  intros (Hm & He & Hk) E. destruct (initialized s) eqn:Ei.
  - injection E as Hb <-. apply key_is_held in Hb. split; [done|]. by rewrite (Hk eq_refl _ Hb).
  - apply initialized_is_held in E. split; [done|]. intros id. specialize (Hm id).
    rewrite (He eq_refl), lookup_empty in *. inversion Hm. constructor.
Qed.

Lemma put_refines io kr r id c s s' x k m : implements k s m → put io kr r id c s = (x, s') →
  ∃ k' m', map_op (OPut io kr r id c : VaultOp K) (RDone x) m m' ∧ implements k' s' m'.
Proof.
  intros HI. unfold put. destruct (credential_validate _ _) as [[]|e] eqn:Ev; [|intros [= <- <-]; by exists k, m].
  destruct (_ || _ || _); [intros [= <- <-]; by exists k, m|].
  destruct (if initialized s then _ else _) as [loaded keys'] eqn:El.
  assert (implements k {| secrets := secrets s; initialized := initialized s; keys := keys' |} m) as HI'.
  { apply implements_keys; [done|]. intros Hi. rewrite Hi in El. injection El as _ <-. by right. }
  destruct loaded as [b|e]; cbn; [|intros [= <- <-]; by exists k, m].
  destruct (seal _ _ _ _ _) as [row|e] eqn:Es; [|intros [= <- <-]; by exists k, m].
  case_bool_decide as Hid; cbn; [intros [= <- <-]; by exists k, m|].
  destruct (_ || _ || _); intros [= <- <-]; [by exists k, m|].
  apply (put_key _ _ k _ m) in El as [Hh Hm]; [|done]. exists b, (<[id := c]> m).
  apply eq_None_not_Some in Hid. split.
  - split; [|done]. specialize (Hm id). rewrite Hid in Hm. by inversion Hm.
  - split; [|split; [done|]]; cbn [secrets initialized keys].
    + intros id'. destruct (decide (id' = id)) as [->|Hne]; [|by rewrite !lookup_insert_ne].
      rewrite !lookup_insert_eq. constructor. by eapply seal_sealed.
    + intros _ b' Hb'. rewrite Hh in Hb'. by injection Hb'.
Qed.

Lemma vault_op_refines op s s' r k m : implements k s m → vault_op op s = (r, s') →
  ∃ k' m', map_op op r m m' ∧ implements k' s' m'.
Proof.
  intros HI. pose proof HI as (Hm & He & Hk). destruct op as [io kr rn id c|io id|io id|fails|keys']; cbn [vault_op].
  - destruct (put _ _ _ _ _ _) as [x s1] eqn:E. intros [= <- <-]. by eapply put_refines.
  - intros [= <- <-]. exists k, m. split; [|done]. destruct (get io id s) as [c|e] eqn:Eg; [|done]. split; [|done].
    pose proof (get_ok _ _ _ _ Eg) as (b & row & Hb & Hr). specialize (Hm id). rewrite Hr in Hm. inversion Hm as [? c' Hs Hrow Hc|]; subst.
    pose proof (implements_key _ _ _ _ _ _ HI Hr (key_is_held _ _ _ Hb)) as ->. rewrite (get_sealed io id s k row c' Hr Hs Hb) in Eg.
    by apply bind_ok in Eg as (? & _ & [= ->]).
  - destruct (delete_secret _ _ _) as [x s1] eqn:E. unfold delete_secret in E. destruct (_ || _); injection E as <- <-; intros [= <- <-].
    { by exists k, m. }
    exists k, (delete id m). split; [done|]. split; [|split; [|done]]; cbn.
    + intros id'. destruct (decide (id' = id)) as [->|Hne]; [rewrite !lookup_delete_eq; constructor|by rewrite !lookup_delete_ne].
    + intros Hi. by rewrite (He Hi), delete_empty.
  - destruct fails; intros [= <- <-]; exists k, m; (split; [done|]); [done|]. split; [done|]. split; cbn.
    + by intros [Hi _]%orb_false_iff; auto.
    + intros Hi b Hb. destruct (initialized s); [by apply Hk|]. rewrite (He eq_refl), bool_decide_eq_true_2 in Hi; done.
  - intros [= <- <-]. exists k, m. split; [done|]. case_bool_decide as Hc; [|done]. by apply implements_keys.
Qed.

(** [C9] The encrypted store is a map.  From an empty store, after any
    operations with any failures of the database, the generator and the key
    store: a stored credential is never overwritten, an operation that fails
    changes nothing, what is read under an identity is the credential stored
    under it; and as long as the key store gives its key, every stored
    credential (of any accepted size) reads back exactly, all of them under the
    one key, which is created only while the store has never held anything. *)
Theorem vault_refines_map ops (keys0 : K) rs s :
  vault_run ops {| secrets := ∅; initialized := false; keys := keys0 |} = (rs, s) →
  ∃ m, map_run ops rs ∅ m ∧
    ∀ b id, held (keys s) = Some b → get no_vault_faults id s = match m !! id with Some c => Ok c | None => Err vault_failure end.
Proof.
  assert (implements [] {| secrets := ∅; initialized := false; keys := keys0 |} ∅) as HI by (split; [intros id; constructor|done]).
  revert HI. generalize (@nil Z) as k. generalize (∅ : gmap HostId Credential) as m. generalize {| secrets := ∅; initialized := false; keys := keys0 |} as s0.
  revert rs. induction ops as [|op ops IH]; intros rs s0 m k HI; cbn.
  - intros [= <- <-]. exists m. split; [done|]. intros b id Hb. by eapply implements_get.
  - destruct (vault_op op s0) as [r s1] eqn:Eo. destruct (vault_run ops s1) as [rs' s2] eqn:Er. intros [= <- <-].
    apply (vault_op_refines _ _ _ _ k m) in Eo as (k' & m' & Hop & HI'); [|done].
    destruct (IH rs' s1 m' k' HI' Er) as (m2 & Hrun & Hget). exists m2. split; [|done]. by exists m'.
Qed.

Lemma seal_total io rng id c m u k : credential_validate c m = Ok u → zlen k = 32 → v_no_nonce io = false → ∃ row, seal io rng id c k = Ok row.
Proof.
  intros Hv%validated_fields Hk Hio. unfold seal. destruct (new_from_32 k Hk) as [cipher ->]. cbn -[fill]. rewrite Hio. cbn -[fill]. destruct (to_vec_total c) as [p Hp].
  rewrite Hp. cbn -[fill]. pose proof (to_vec_length _ _ Hp). destruct (encrypt_total cipher (fill 12 rng) (aad id) p) as [ct ->]; [apply fill_length|lia|]. cbn -[fill]. eauto.
Qed.

(** When nothing fails, every credential that passes validation can be
    stored under a new identity, in a store that has its key or that can still
    make one, and reads back exactly. *)
Theorem credential_roundtrip kr rng id c (s : Vault K) b :
  is_ok (credential_validate c (auth_method c)) = true → secrets s !! id = None →
  (if initialized s then held (keys s) = Some b else (initialize no_key_faults kr (keys s)).1 = Ok b) →
  ∃ s', put no_vault_faults kr rng id c s = (Ok tt, s') ∧ get no_vault_faults id s' = Ok c.
Proof.
  intros Hv Hid Hk. destruct (credential_validate c _) as [[]|] eqn:Ev; [clear Hv|done].
  assert (∃ keys', (if initialized s then (key no_key_faults (keys s), keys s) else initialize no_key_faults kr (keys s)) = (Ok b, keys') ∧ held keys' = Some b)
    as (keys' & El & Hh).
  { destruct (initialized s).
    - exists (keys s). by rewrite (held_is_key _ _ Hk).
    - destruct (initialize no_key_faults kr (keys s)) as [r k'] eqn:Ei. cbn in Hk. subst r. exists k'. split; [done|]. by apply initialized_is_held in Ei. }
  destruct (seal_total no_vault_faults rng id c _ _ b Ev (held_length _ _ Hh) eq_refl) as [row Hrow].
  exists {| secrets := <[id := row]> (secrets s); initialized := true; keys := keys' |}. split.
  - unfold put. rewrite Ev. cbn -[put]. rewrite El. cbn. rewrite Hrow, Hid. by rewrite bool_decide_eq_false_2 by (by intros []).
  - rewrite (get_sealed no_vault_faults id _ b row c); [done|apply lookup_insert_eq|by eapply seal_sealed|by apply held_is_key].
Qed.
End Refinement.

(** ** An instance *)

(** A cipher that appends a tag and a codec that writes the lengths. *)
Definition sample_field (v : option str) : bytes := match v with None => [-1] | Some s => zlen s :: s end.
Definition sample_read (b : bytes) : option str * bytes :=
  match b with
  | [] => (None, [])
  | n :: b => if n <? 0 then (None, b) else (Some (take (Z.to_nat n) b), drop (Z.to_nat n) b)
  end.
Definition sample_tag : bytes := repeat 0 16.

#[export] Instance sample_sealing : Sealing := {
  Cipher := unit;
  new_from_slice k := if zlen k =? 32 then Some tt else None;
  encrypt _ _ _ m := Some (m ++ sample_tag);
  decrypt _ _ _ ct := Some (take (length ct - 16) ct);
  to_vec v := Some (sample_field (password v) ++ sample_field (private_key v) ++ sample_field (passphrase v));
  from_slice b :=
    let '(p, b) := sample_read b in let '(k, b) := sample_read b in let '(f, _) := sample_read b in
    Some {| password := p; private_key := k; passphrase := f |};
  show_host_id id := [Z.of_N id]
}.

Lemma sample_read_field v b : sample_read (sample_field v ++ b) = (v, b).
Proof.
  destruct v as [s|]; [|done]. cbn [sample_field sample_read app]. destruct (Z.ltb_spec (zlen s) 0) as [E|_]; [lia|].
  by rewrite Nat2Z.id, take_app_length, drop_app_length.
Qed.

Lemma sample_field_length v : zlen (sample_field v) ≤ 1 + field_bytes v.
Proof. destruct v as [s|]; cbn; [|lia]. pose proof (len_length s). cbn [length]. lia. Qed.

Lemma field_bytes_nonneg v : 0 ≤ field_bytes v.
Proof. destruct v as [s|]; cbn; [apply len_nonneg|lia]. Qed.

#[export] Instance sample_sealing_laws : SealingLaws.
Proof.
  split; cbn.
  - intros k ->. cbn. eauto.
  - eauto.
  - intros _ _ _ m ct [= <-]. unfold sample_tag. rewrite length_app. cbn. lia.
  - intros _ _ _ m ct [= <-]. f_equal. rewrite length_app. cbn [length sample_tag repeat]. rewrite Nat.add_sub. apply take_app_length.
  - eauto.
  - intros v b [= <-]. rewrite !length_app, !Nat2Z.inj_add.
    pose proof (sample_field_length (password v)). pose proof (sample_field_length (private_key v)). pose proof (sample_field_length (passphrase v)).
    pose proof (field_bytes_nonneg (password v)). pose proof (field_bytes_nonneg (private_key v)). pose proof (field_bytes_nonneg (passphrase v)).
    lia.
  - intros v b [= <-]. rewrite !sample_read_field. rewrite <-(app_nil_r (sample_field (passphrase v))), sample_read_field. by destruct v.
Qed.

Definition sample_credential : Credential := {| password := Some (lit "pw"); private_key := None; passphrase := None |}.
Definition sample_ops : list (VaultOp (option bytes)) :=
  [OGet no_vault_faults 1%N; OPut no_vault_faults (λ n, Z.of_nat n) (λ _, 7) 1%N sample_credential; OGet no_vault_faults 1%N;
   OPut no_vault_faults (λ n, 0) (λ _, 8) 1%N sample_credential; OLock None; OPut no_vault_faults (λ n, 0) (λ _, 8) 2%N sample_credential].
Definition sample_vault : Vault (option bytes) := {| secrets := ∅; initialized := false; keys := None |}.

(** A second credential of one identity is refused, and so is one after the
    key was removed: no second key is made. *)
Lemma vault_refines_map_witness :
  (vault_run sample_ops sample_vault).1 =
    [RCredential (Err vault_failure); RDone (Ok tt); RCredential (Ok sample_credential); RDone (Err vault_failure); RDone (Ok tt); RDone (Err vault_failure)] ∧
  ∃ m, map_run sample_ops (vault_run sample_ops sample_vault).1 ∅ m.
Proof.
  split; [vm_compute; reflexivity|].
  destruct (vault_refines_map sample_ops None (vault_run sample_ops sample_vault).1 (vault_run sample_ops sample_vault).2) as (m & Hm & _).
  - apply surjective_pairing.
  - by exists m.
Defined.

Lemma credential_roundtrip_witness :
  ∃ s', put no_vault_faults (λ n, Z.of_nat n) (λ _, 7) 1%N sample_credential sample_vault = (Ok tt, s') ∧ get no_vault_faults 1%N s' = Ok sample_credential.
Proof. apply credential_roundtrip with (b := fill 32 (λ n, Z.of_nat n)); vm_compute; reflexivity. Defined.
