(* ===== verification/AppHosts.v ===== *)
(** The host records of the application
    ([nexus-core/src/application/hosts.rs], [security.rs] and [establish] of
    [connection.rs]): the metadata of the hosts in one database, their
    credentials in another, and nothing that commits both at once.

    Every handler is a program over [hcall].  [answer] says what the two
    databases and the generator of identities may reply and how they change;
    [hstep] interleaves any number of handlers, at most one for a host (the
    lifecycle guard), and may end the process between any two calls. *)

From S2P Require Import Prelude Str Model Hosts Prog KnownHosts Sessions Services Repository.

Record SshEndpointTrust := {
  et_host_id : HostId; et_hostname : str; et_port : Z; et_authentication : AuthenticationMethod; et_endpoint_pin : option HostFingerprint }.

Inductive hcall :=
| HGuard (h : HostId) | HUnguard (h : HostId)          (** [lifecycle_guard] *)
| HLock | HUnlock                                      (** [mutation] *)
| HGet (h : HostId) | HList
| HSave (s : StoredHost) | HDelete (h : HostId)
| HState (h : HostId)                                  (** the state of the host's session *)
| HFresh                                               (** [HostId::new()] *)
| HPutSecret (id : HostId) (c : Credential)
| HGetSecret (id : HostId)
| HDeleteSecret (id : HostId)
| HRevokeOperations (h : HostId) | HRevokeObservations (h : HostId)
| HRemoveRotation (h : HostId) | HResetSession (h : HostId)
| HClearMonitor (h : HostId) | HRemoveMonitor (h : HostId) | HRemoveTerminals (h : HostId) | HRemoveGates (h : HostId) (** the gates and the session of the host *)
| HPrepareDisconnect (h : HostId) | HFinishDisconnect (h : HostId)
| HRecord (h : HostId) (kind : string)
| HConnect (h : Host) (c : Credential) | HDiscover | HIsClosed | HFingerprint (hostname : str) (port : Z).

Definition hreply (c : hcall) : Type :=
  match c with
  | HGet _ => Res StoredHost
  | HList => Res (list Host)
  | HState _ => ConnectionState
  | HFresh => HostId
  | HGetSecret _ => Res Credential
  | HDiscover => Res DiscoverySnapshot
  | HIsClosed => bool
  | HFingerprint _ _ => Res (option HostFingerprint)
  | HUnguard _ | HLock | HUnlock | HRemoveRotation _ | HResetSession _ | HClearMonitor _ | HRemoveMonitor _ | HRemoveTerminals _ | HRemoveGates _ => unit
  | _ => Res unit
  end.

Abbreviation hio A := (io hreply AppError A) (only parsing).
Abbreviation hprog A := (prog hreply A) (only parsing).
Definition hask (c : hcall) : hprog (hreply c) := Do c (λ r, Ret r).

(** A guard that is dropped when its scope ends. *)
Definition guarded {A} (h : HostId) (body : hio A) : hio A :=
  _ ← (hask (HGuard h) : hio unit);
  let! x := (body : hprog _) in
  let! _ := hask (HUnguard h) in
  Ret x.
Definition locked {A} (body : hio A) : hio A :=
  let! _ := hask HLock in
  let! x := (body : hprog _) in
  let! _ := hask HUnlock in
  Ret x.

Definition busy_host : AppError := app_error Conflict "Disconnect this host before editing its configuration.".
Definition credentials_required : AppError := app_error Validation "Credentials are required for a new host or authentication method.".

Definition list_hosts : hio (list Host) := hask HList.

(** [remove_secret]; the reply also stands for a failed task. *)
Definition remove_secret (id : HostId) : hio unit := hask (HDeleteSecret id).

Definition other_method (previous : option StoredHost) (h : Host) : bool :=
  match previous with
  | None => true
  | Some p => bool_decide (authentication (connection (sh_host p)) ≠ authentication (connection h))
  end.
Definition other_credential (previous : option StoredHost) (id : HostId) : bool :=
  match previous with None => true | Some p => bool_decide (sh_credential_id p ≠ id) end.

(** The identity of the credential: a new one under a new identity, or the
    previous one. *)
Definition save_secret (previous : option StoredHost) (h : Host) (credential : option Credential) : hio HostId :=
  match credential with
  | Some input =>
      value ← io_lift (into_credential input (authentication (connection h)));
      let! id := hask HFresh in
      _ ← (hask (HPutSecret id value) : hio unit);
      mret id
  | None =>
      match previous with
      | None => io_fail (app_error Validation "Credentials are required.")
      | Some p => mret (sh_credential_id p)
      end
  end.

(** What follows the commit of the metadata. *)
Definition save_rest (previous : option StoredHost) (h : Host) (credential_id : HostId) : hio Host :=
  _ ← (hask (HRevokeOperations (host_id h)) : hio unit);
  _ ← (hask (HRevokeObservations (host_id h)) : hio unit);
  let! _ := hask (HRemoveRotation (host_id h)) in
  let! _ := hask (HResetSession (host_id h)) in
  let! _ := hask (HClearMonitor (host_id h)) in
  let! _ := (match previous with Some _ => hask (HRemoveTerminals (host_id h)) | None => Ret tt end : hprog unit) in
  _ ← match previous with
      | Some old => if bool_decide (sh_credential_id old ≠ credential_id) then remove_secret (sh_credential_id old) else mret tt
      | None => mret tt
      end;
  _ ← (hask (HRecord (host_id h) "host.save") : hio unit);
  mret h.

Definition save_body (fresh : HostId) (input : HostInput) (credential : option Credential) : hio Host :=
  previous ← match in_id input with
             | Some id => s ← (hask (HGet id) : hio StoredHost); mret (Some s)
             | None => mret None
             end;
  h ← io_lift (into_host fresh input);
  let! state := hask (HState (host_id h)) in
  _ ← io_ensure (busy_state state) busy_host;
  _ ← io_ensure (bool_decide (credential = None) && other_method previous h) credentials_required;
  credential_id ← save_secret previous h credential;
  let! saved := hask (HSave {| sh_host := h; sh_credential_id := credential_id |}) in
  match saved with
  | Err e => if other_credential previous credential_id then _ ← remove_secret credential_id; io_fail e else io_fail e
  | Ok _ => save_rest previous h credential_id
  end.

(** [fresh] is the identity of a new host; nobody else has it, so it needs no
    guard. *)
Definition save_host (fresh : HostId) (input : HostInput) (credential : option Credential) : hio Host :=
  match in_id input with
  | Some id => guarded id (locked (save_body fresh input credential))
  | None => locked (save_body fresh input credential)
  end.

Definition delete_host (id : HostId) : hio unit :=
  guarded id (
    stored ← locked (
      stored ← (hask (HGet id) : hio StoredHost);
      _ ← (hask (HPrepareDisconnect id) : hio unit);
      mret stored);
    _ ← (hask (HFinishDisconnect id) : hio unit);
    _ ← locked (
      _ ← (hask (HDelete id) : hio unit);
      let! _ := hask (HRemoveRotation id) in
      let! _ := hask (HRemoveGates id) in
      mret tt);
    _ ← remove_secret (sh_credential_id stored);
    let! _ := hask (HRemoveMonitor id) in
    let! _ := hask (HRemoveTerminals id) in
    (hask (HRecord id "host.delete") : hio unit)).

(** ** Connecting and reading the trust of a host *)

Definition closed_during_discovery : AppError := app_error Connection "The SSH connection closed during discovery.".

(** [establish]; a reply also stands for a cancellation that came first. *)
Definition establish (stored : StoredHost) : hio (DiscoverySnapshot * option HostIdentity) :=
  let c := connection (sh_host stored) in
  credential ← (hask (HGetSecret (sh_credential_id stored)) : hio Credential);
  _ ← io_lift (credential_validate credential (authentication c));
  _ ← (hask (HConnect (sh_host stored) credential) : hio unit);
  snapshot ← (hask HDiscover : hio DiscoverySnapshot);
  let! closed := hask HIsClosed in
  _ ← io_ensure closed closed_during_discovery;
  fingerprint ← (hask (HFingerprint (hostname c) (port c)) : hio (option HostFingerprint));
  mret (snapshot, (λ f, {| hi_hostname := hostname c; hi_fingerprint := f |}) <$> fingerprint).

Definition invalid_endpoint : AppError := app_error Persistence "The stored SSH endpoint configuration is invalid.".
Definition get_host_ssh_trust (id : HostId) : hio SshEndpointTrust :=
  guarded id (locked (
    stored ← (hask (HGet id) : hio StoredHost);
    let h := sh_host stored in
    _ ← io_lift (match host_validate (connection h) with Ok _ => Ok tt | Err _ => Err invalid_endpoint end);
    pin ← (hask (HFingerprint (hostname (connection h)) (port (connection h))) : hio (option HostFingerprint));
    mret {| et_host_id := host_id h; et_hostname := hostname (connection h); et_port := port (connection h);
            et_authentication := authentication (connection h); et_endpoint_pin := pin |})).

(** ** The two databases *)

(** [owner] remembers the host for which the identity of a credential was
    drawn. *)
Record World := { repo : gmap HostId StoredHost; vault : gmap HostId Credential; owner : gmap HostId HostId }.

Definition set_repo (w : World) r : World := {| repo := r; vault := vault w; owner := owner w |}.
Definition set_vault (w : World) v : World := {| repo := repo w; vault := v; owner := owner w |}.

(** What may be replied to a call of a handler of host [h], and what it does.
    A commit that fails has no effect; the tasks that store and remove a secret
    may fail after they did their work. *)
Definition answer (h : HostId) (c : hcall) (w : World) : hreply c → World → Prop :=
  match c return hreply c → World → Prop with
  | HGet k => λ r w', w' = w ∧ match r with Ok s => repo w !! k = Some s | Err _ => True end
  | HSave s => λ r w', match r with Ok _ => w' = set_repo w (<[host_id (sh_host s) := s]> (repo w)) | Err _ => w' = w end
  | HDelete k => λ r w', match r with Ok _ => w' = set_repo w (delete k (repo w)) | Err _ => w' = w end
  | HFresh => λ id w', owner w !! id = None ∧ w' = {| repo := repo w; vault := vault w; owner := <[id := h]> (owner w) |}
  | HPutSecret id c => λ r w', w' = set_vault w (<[id := c]> (vault w)) ∨ (is_ok r = false ∧ w' = w)
  | HDeleteSecret id => λ r w', w' = set_vault w (delete id (vault w)) ∨ (is_ok r = false ∧ w' = w)
  | HGetSecret id => λ r w', w' = w ∧ match r with Ok c => vault w !! id = Some c | Err _ => True end
  | _ => λ _ w', w' = w
  end.

(** The record of [h] is usable: its credential is stored, belongs to it and
    matches its authentication method. *)
Definition usable (h : HostId) (w : World) : Prop :=
  ∀ s, repo w !! h = Some s → host_id (sh_host s) = h ∧ owner w !! sh_credential_id s = Some h ∧
    ∃ c, vault w !! sh_credential_id s = Some c ∧ is_ok (credential_validate c (authentication (connection (sh_host s)))) = true.

(** Handlers of all hosts, interleaved. *)
Inductive Handler := SaveHost (fresh : HostId) (input : HostInput) (credential : option Credential) | DeleteHost (id : HostId).
Definition handler_host (x : Handler) : HostId := match x with SaveHost fresh input _ => default fresh (in_id input) | DeleteHost id => id end.
Definition handler_prog (x : Handler) : hprog bool :=
  match x with
  | SaveHost fresh input credential => pbind (save_host fresh input credential) (λ r, Ret (is_ok r))
  | DeleteHost id => pbind (delete_host id) (λ r, Ret (is_ok r))
  end.

Record HostSys := { world : World; handlers : gmap HostId (hprog bool) }.

Inductive hstep : HostSys → HostSys → Prop :=
| h_start x y : handlers y !! handler_host x = None →
    hstep y {| world := world y; handlers := <[handler_host x := handler_prog x]> (handlers y) |}
| h_call h c k r w' y : handlers y !! h = Some (Do c k) → answer h c (world y) r w' →
    hstep y {| world := w'; handlers := <[h := k r]> (handlers y) |}
| h_end h b y : handlers y !! h = Some (Ret b) → hstep y {| world := world y; handlers := delete h (handlers y) |}
| h_crash y : hstep y {| world := world y; handlers := ∅ |}.

(** ** A handler only touches its own host *)

Definition same_slice (h : HostId) (w w' : World) : Prop :=
  repo w' !! h = repo w !! h ∧ (∀ i, owner w' !! i = Some h ↔ owner w !! i = Some h) ∧
  ∀ i, owner w !! i = Some h → vault w' !! i = vault w !! i.

Definition touches (h : HostId) (w : World) (c : hcall) : Prop :=
  match c with
  | HSave s => host_id (sh_host s) = h
  | HDelete k => k = h
  | HPutSecret id _ | HDeleteSecret id => owner w !! id = Some h
  | _ => True
  end.

(** The rest of a handler of [h] is safe: whatever happens to other hosts
    between its calls, after each of them the record of [h] is usable, and it
    returns an [a] with [Q a]. *)
Fixpoint safe {A} (h : HostId) (p : hprog A) (Q : A → World → Prop) (w : World) : Prop :=
  match p with
  | Ret a => Q a w
  | Do c k => touches h w c ∧ ∀ w1 r w2, same_slice h w w1 → answer h c w1 r w2 → usable h w2 ∧ safe h (k r) Q w2
  end.
#[global] Arguments safe : simpl never.

(** A statement about the slice of [h] only. *)
Definition stable {A} (h : HostId) (Q : A → World → Prop) : Prop := ∀ a w w', same_slice h w w' → Q a w → Q a w'.

Lemma same_slice_refl h w : same_slice h w w.
Proof. by split. Qed.
Lemma same_slice_trans h w1 w2 w3 : same_slice h w1 w2 → same_slice h w2 w3 → same_slice h w1 w3.
Proof.
  intros (R1 & O1 & V1) (R2 & O2 & V2). split; [congruence|]. split; [intros i; by rewrite O2|].
  intros i Hi. rewrite V2 by (by apply O1). auto.
Qed.

Lemma same_slice_usable h w w' : same_slice h w w' → usable h w → usable h w'.
Proof.
  intros (R & O & V) Hu s Hs. rewrite R in Hs. destruct (Hu s Hs) as (Hh & Ho & c & Hc & Hv). split; [done|]. split; [by apply O|].
  exists c. by rewrite V.
Qed.

Lemma safe_stable {A} h (p : hprog A) Q w w' : stable h Q → same_slice h w w' → safe h p Q w → safe h p Q w'.
Proof.
  intros HQ. destruct p as [b|c k]; [by apply HQ|]. intros Hs [Ht Hk]. split.
  - destruct c; try done; cbn in *; by apply Hs.
  - intros w1 r w2 H1. apply Hk. by eapply same_slice_trans.
Qed.

Lemma safe_bind {A B} h (p : hprog A) (f : A → hprog B) Q w : safe h p (λ a w, safe h (f a) Q w) w → safe h (pbind p f) Q w.
Proof.
  revert w. induction p as [a|c k IH]; intros w; [done|]. intros [Ht Hk]. split; [done|].
  intros w1 r w2 Hs Ha. destruct (Hk w1 r w2 Hs Ha). split; [done|]. by apply IH.
Qed.

(** A call of one host leaves the others as they are. *)
Lemma answer_frame h h' c w r w' : h' ≠ h → touches h w c → answer h c w r w' → same_slice h' w w'.
Proof.
  intros Hne Ht Ha. destruct c; cbn in Ha, Ht; try (subst w'; apply same_slice_refl); try (destruct Ha as [-> _]; apply same_slice_refl).
  - destruct r; subst w'; [|apply same_slice_refl]. split; [|done]. cbn. by rewrite Ht, lookup_insert_ne.
  - destruct r; subst w'; [|apply same_slice_refl]. split; [|done]. cbn. by rewrite Ht, lookup_delete_ne.
  - destruct Ha as [Hf ->]. split; [done|]. split; [|done]. intros i. cbn.
    destruct (decide (i = r)) as [->|Hi]; [rewrite lookup_insert_eq, Hf; naive_solver|by rewrite lookup_insert_ne].
  - destruct Ha as [->|[_ ->]]; [|apply same_slice_refl]. split; [done|]. split; [done|]. intros i Hi. cbn. apply lookup_insert_ne. congruence.
  - destruct Ha as [->|[_ ->]]; [|apply same_slice_refl]. split; [done|]. split; [done|]. intros i Hi. cbn. apply lookup_delete_ne. congruence.
Qed.

(** ** The calls of a handler, one by one *)

Definition neutral (c : hcall) : bool :=
  match c with HSave _ | HDelete _ | HFresh | HPutSecret _ _ | HDeleteSecret _ | HGet _ => false | _ => true end.

Section Handler.
Context {A : Type} (h : HostId) (Q : A → World → Prop) (HQ : stable h Q).

(** Nothing of [h] changes but its secret [id]. *)
Definition only_secret (id : HostId) (w w' : World) : Prop :=
  repo w' !! h = repo w !! h ∧ ∀ i, owner w !! i = Some h → i ≠ id → owner w' !! i = Some h ∧ vault w' !! i = vault w !! i.

(** [id] is not the credential of the record of [h]. *)
Definition spare (id : HostId) (w : World) : Prop := ∀ s, repo w !! h = Some s → sh_credential_id s ≠ id.

Lemma only_secret_usable id w w' : only_secret id w w' → spare id w → usable h w → usable h w'.
Proof.
  intros [R V] Hsp Hu s Hs. rewrite R in Hs. destruct (Hu s Hs) as (Hh & Ho & c & Hc & Hv). split; [done|].
  destruct (V _ Ho (Hsp s Hs)) as [? Hv']. split; [done|]. exists c. by rewrite Hv'.
Qed.

Lemma only_secret_spare id w w' : only_secret id w w' → spare id w → spare id w'.
Proof. intros [R _] Hsp s Hs. apply Hsp. by rewrite <-R. Qed.

Lemma safe_neutral c k w : neutral c = true → usable h w → (∀ r, safe h (k r) Q w) → safe h (Do c k) Q w.
Proof.
  intros Hn Hu Hk. split; [by destruct c|]. intros w1 r w2 Hs Ha.
  assert (w2 = w1) as -> by (destruct c; cbn in Ha; naive_solver). split; [by eapply same_slice_usable|].
  eapply safe_stable; [done|done|]. apply Hk.
Qed.

Lemma safe_get k w : usable h w → (∀ r : Res StoredHost, (∀ s, r = Ok s → repo w !! h = Some s) → safe h (k r) Q w) → safe h (Do (HGet h) k) Q w.
Proof.
  intros Hu Hk. split; [done|]. intros w1 r w2 Hs [-> Hr]. split; [by eapply same_slice_usable|].
  eapply safe_stable; [done|done|]. apply Hk. intros s ->. cbn in Hr. destruct Hs as [<- _]. done.
Qed.

Lemma safe_fresh k w : usable h w →
  (∀ id w', usable h w' → only_secret id w w' → owner w' !! id = Some h → spare id w' → safe h (k id) Q w') → safe h (Do HFresh k) Q w.
Proof.
  intros Hu Hk. split; [done|]. intros w1 id w2 Hs [Hf ->]. cbn in id.
  assert (usable h w1) as Hu1 by (by eapply same_slice_usable).
  assert (spare id w1) as Hsp by (intros s Hw <-; destruct (Hu1 s Hw) as (_ & Ho & _); pose proof (eq_trans (eq_sym Ho) Hf); done).
  assert (only_secret id w1 {| repo := repo w1; vault := vault w1; owner := <[id := h]> (owner w1) |}) as Hos.
  { split; [done|]. intros i Hi Hne. cbn. by rewrite lookup_insert_ne. }
  assert (usable h {| repo := repo w1; vault := vault w1; owner := <[id := h]> (owner w1) |}) as Hu2 by (by eapply only_secret_usable).
  split; [done|]. apply Hk; [done| |apply lookup_insert_eq|by eapply only_secret_spare].
  destruct Hs as (R & O & V). split; [done|]. intros i Hi Hne. cbn. rewrite lookup_insert_ne by done. split; [by apply O|auto].
Qed.

(** A secret that the record does not use is stored or removed. *)
Lemma safe_secret c k w id (v : option Credential) :
  (∀ w r w', answer h c w r w' → w' = set_vault w (partial_alter (λ _, v) id (vault w)) ∨ w' = w) → touches h w c → owner w !! id = Some h →
  usable h w → spare id w →
  (∀ r w' w1, answer h c w1 r w' → usable h w' → only_secret id w w' → owner w' !! id = Some h → spare id w' → safe h (k r) Q w') → safe h (Do c k) Q w.
Proof.
  intros Hc Ht Ho Hu Hsp Hk. split; [done|]. intros w1 r w2 Hs Ha.
  assert (only_secret id w w1 ∧ owner w1 !! id = Some h) as [Ho1 Hi1].
  { destruct Hs as (R & O & V). split; [|by apply O]. split; [done|]. intros i Hi _. split; [by apply O|auto]. }
  assert (only_secret id w w2 ∧ owner w2 !! id = Some h) as [Ho2 Hi2].
  { destruct (Hc _ _ _ Ha) as [->| ->]; [|done]. split; [|done]. destruct Ho1 as [R V]. split; [done|]. intros i Hi Hne. cbn.
    rewrite lookup_partial_alter_ne by done. auto. }
  assert (usable h w2) as Hu2 by (by eapply only_secret_usable).
  split; [done|]. apply (Hk r w2 w1 Ha); [done|done|done|by eapply only_secret_spare].
Qed.

Lemma same_slice_set_repo w w1 (f : gmap HostId StoredHost → gmap HostId StoredHost) x :
  (∀ m, f m !! h = x) → same_slice h w w1 → same_slice h (set_repo w (f (repo w))) (set_repo w1 (f (repo w1))).
Proof. intros Hf (R & O & V). split; [|done]. cbn. by rewrite !Hf. Qed.

(** The record of [h] is replaced or removed. *)
Lemma safe_save s k w : host_id (sh_host s) = h → usable h w → usable h (set_repo w (<[h := s]> (repo w))) →
  (∀ u, safe h (k (Ok u)) Q (set_repo w (<[h := s]> (repo w)))) → (∀ e, safe h (k (Err e)) Q w) → safe h (Do (HSave s) k) Q w.
Proof.
  intros Hh Hu Hu' Hok Herr. split; [done|]. intros w1 r w2 Hs Ha. destruct r as [u|e]; cbn in Ha; subst w2.
  - rewrite Hh. pose proof (same_slice_set_repo w w1 (λ m, <[h := s]> m) (Some s) ltac:(intros; apply lookup_insert_eq) Hs) as Hs2.
    split; [by eapply same_slice_usable|]. by eapply safe_stable.
  - split; [by eapply same_slice_usable|]. by eapply safe_stable.
Qed.

Lemma usable_deleted w : usable h (set_repo w (delete h (repo w))).
Proof. intros s. cbn. by rewrite lookup_delete_eq. Qed.

Lemma safe_delete k w : usable h w →
  (∀ u, safe h (k (Ok u)) Q (set_repo w (delete h (repo w)))) → (∀ e, safe h (k (Err e)) Q w) → safe h (Do (HDelete h) k) Q w.
Proof.
  intros Hu Hok Herr. split; [done|]. intros w1 r w2 Hs Ha. destruct r as [u|e]; cbn in Ha; subst w2.
  - pose proof (same_slice_set_repo w w1 (delete h) None ltac:(intros; apply lookup_delete_eq) Hs) as Hs2.
    split; [apply usable_deleted|]. by eapply safe_stable.
  - split; [by eapply same_slice_usable|]. by eapply safe_stable.
Qed.

(** Removing a secret that the record does not use. *)
Lemma safe_remove id k w : owner w !! id = Some h → usable h w → spare id w → (∀ r w', usable h w' → safe h (k r) Q w') → safe h (Do (HDeleteSecret id) k) Q w.
Proof.
  intros Ho Hu Hsp Hk. eapply (safe_secret _ _ _ id None); [|done|done|done|done|].
  - cbn. intros w1 r w2 [->|[_ ->]]; [left; done|by right].
  - intros r w' w1 _ Hu' _ _ _. by apply Hk.
Qed.
End Handler.

(** ** The handlers *)

Lemma safe_mono {A} h (p : hprog A) (Q Q' : A → World → Prop) w : (∀ a w, Q a w → Q' a w) → safe h p Q w → safe h p Q' w.
Proof.
  intros HQ. revert w. induction p as [a|c k IH]; intros w; [apply HQ|]. intros [Ht Hk]. split; [done|].
  intros w1 r w2 Hs Ha. destruct (Hk w1 r w2 Hs Ha). auto.
Qed.

Definition kept {A} (h : HostId) (_ : A) (w : World) : Prop := usable h w.

Lemma kept_stable {A} h : stable h (@kept A h).
Proof. intros a w w' Hs Hu. by eapply same_slice_usable. Qed.
#[local] Hint Resolve kept_stable : core.

(** One call that changes nothing. *)
Ltac neutral_step := apply safe_neutral; [assumption || apply kept_stable|reflexivity|assumption|intros ?r].

Ltac last_step := apply safe_neutral; [assumption || apply kept_stable|reflexivity|assumption|by intros []].

Section Scopes.
Context {A : Type} (h : HostId) (Q : result AppError A → World → Prop) (HQ : stable h Q) (Hkeep : ∀ a w, Q a w → usable h w).

Lemma safe_locked (body : hio A) w : usable h w → safe h (body : hprog _) Q w → safe h (locked body : hprog _) Q w.
Proof.
  intros Hu Hb. unfold locked, hask. cbn. neutral_step. apply safe_bind. eapply safe_mono; [|exact Hb].
  intros a w' Hq. apply safe_neutral; [done|done|by eapply Hkeep|]. by intros [].
Qed.

Lemma safe_guarded k (body : hio A) w : (∀ e w, usable h w → Q (Err e) w) → usable h w → safe h (body : hprog _) Q w → safe h (guarded k body : hprog _) Q w.
Proof.
  intros He Hu Hb. unfold guarded, hask. cbn. neutral_step. destruct r as [u|e]; [|by apply He]. cbn. apply safe_bind. eapply safe_mono; [|exact Hb].
  intros a w' Hq. apply safe_neutral; [done|done|by eapply Hkeep|]. by intros [].
Qed.
End Scopes.

(** What the choice of the credential leaves: an identity that the record may
    be committed with, and that it does not use when it is a new one. *)
Definition chosen (h : HostId) (previous : option StoredHost) (m : AuthenticationMethod) (r : result AppError HostId) (w : World) : Prop :=
  usable h w ∧ (∀ p, previous = Some p → repo w !! h = Some p) ∧
  ∀ id, r = Ok id → owner w !! id = Some h ∧ (∃ c, vault w !! id = Some c ∧ is_ok (credential_validate c m) = true) ∧
    (other_credential previous id = true → spare h id w).

Lemma chosen_stable h previous m : stable h (chosen h previous m).
Proof.
  intros r w w' Hs (Hu & Hp & Hr). split; [by eapply same_slice_usable|]. destruct Hs as (R & O & V). split; [intros p ->; rewrite R; auto|].
  intros id Hid. destruct (Hr id Hid) as (Ho & (c & Hc & Hv) & Hsp). split; [by apply O|]. split; [exists c; by rewrite V|].
  intros Hne s Hs. rewrite R in Hs. by apply Hsp.
Qed.

Lemma into_credential_ok c m v : into_credential c m = Ok v → is_ok (credential_validate v m) = true.
Proof. unfold into_credential. rewrite bind_ok. intros (u & Hu & [= <-]). by rewrite Hu. Qed.

Lemma save_secret_safe h previous hh credential w : usable h w → (∀ p, previous = Some p → repo w !! h = Some p) →
  (credential = None → other_method previous hh = false) →
  safe h (save_secret previous hh credential : hprog _) (chosen h previous (authentication (connection hh))) w.
Proof.
  intros Hu Hp Hm. unfold save_secret. destruct credential as [input|].
  - destruct (into_credential _ _) as [value|e] eqn:Ev; cbn; [|by split]. apply into_credential_ok in Ev.
    apply safe_fresh; [done|]. intros id w1 Hu1 [R1 V1] Ho1 Hsp1. cbn.
    eapply (safe_secret h _ _ _ _ id (Some value)); [|done|done|done|done|].
    { cbn. intros w2 r w3 [->|[_ ->]]; [left; done|by right]. }
    intros r w3 w2 Ha Hu3 [R3 V3] Ho3 Hsp3. destruct r as [u|e]; cbn.
    + split; [done|]. split; [intros p ->; rewrite R3, R1; auto|]. intros ? [= <-]. split; [done|]. split; [|done].
      exists value. split; [|done]. cbn in Ha. destruct Ha as [->|[? _]]; [|done]. apply lookup_insert_eq.
    + split; [done|]. split; [intros p ->; rewrite R3, R1; auto|]. done.
  - destruct previous as [p|]; cbn; [|by split]. specialize (Hm eq_refl). cbn in Hm. apply bool_decide_eq_false in Hm. apply dec_stable in Hm.
    split; [done|]. split; [done|]. intros id [= <-]. destruct (Hu p (Hp p eq_refl)) as (_ & Ho & c & Hc & Hv).
    split; [done|]. split; [exists c; by rewrite <-Hm|]. cbn. by rewrite bool_decide_eq_false_2 by auto.
Qed.

Lemma save_rest_safe h previous hh id w : usable h w →
  (∀ p, previous = Some p → owner w !! sh_credential_id p = Some h ∧ (sh_credential_id p ≠ id → spare h (sh_credential_id p) w)) →
  safe h (save_rest previous hh id : hprog _) (kept h) w.
Proof.
  intros Hu Hp. unfold save_rest, hask. cbn. neutral_step. destruct r as [u|e]; [|done]. cbn. neutral_step. destruct r as [u'|e]; [|done]. cbn.
  neutral_step. neutral_step. neutral_step. destruct previous as [p|]; cbn.
  - neutral_step. destruct (Hp p eq_refl) as [Ho Hsp]. case_bool_decide as Hne; cbn.
    + apply safe_remove; [done|done|auto|]. intros r' w' Hu'. destruct r'; [|done]. cbn. last_step.
    + last_step.
  - last_step.
Qed.

Lemma into_host_id fresh input hh : into_host fresh input = Ok hh → host_id hh = default fresh (in_id input).
Proof. unfold into_host. rewrite bind_ok. intros (u & _ & H). by apply bind_ok in H as (u' & _ & [= <-]). Qed.

(** The commit of the metadata, and what follows. *)
Lemma save_commit_safe h previous hh id w (p := hask (HSave {| sh_host := hh; sh_credential_id := id |})) :
  host_id hh = h → chosen h previous (authentication (connection hh)) (Ok id) w →
  safe h (pbind p (λ saved, match saved with
    | Err e => if other_credential previous id then _ ← remove_secret id; io_fail e else io_fail e
    | Ok _ => save_rest previous hh id
    end : hprog _)) (kept h) w.
Proof.
  intros Hh (Hu & Hp & Hx). destruct (Hx id eq_refl) as (Ho & (c & Hc & Hv) & Hsp). cbn. apply safe_save; [apply kept_stable|done|done| | |].
  - intros s. cbn. rewrite lookup_insert_eq. intros [= <-]. cbn. eauto.
  - intros u. apply save_rest_safe.
    + intros s. cbn. rewrite lookup_insert_eq. intros [= <-]. cbn. eauto.
    + intros q ->. destruct (Hu q (Hp q eq_refl)) as (_ & Hoq & _). split; [done|]. intros Hne s. cbn. rewrite lookup_insert_eq. intros [= <-]. cbn. auto.
  - intros e. destruct (other_credential previous id); [|done]. unfold remove_secret. cbn. apply safe_remove; [done|done|auto|]. by intros [].
Qed.

Lemma save_body_safe h fresh input credential w : default fresh (in_id input) = h → usable h w →
  safe h (save_body fresh input credential : hprog _) (kept h) w.
Proof.
  intros Hh Hu. unfold save_body. apply safe_bind.
  apply (safe_mono _ _ (λ r w, usable h w ∧ ∀ p, r = Ok (Some p) → repo w !! h = Some p)).
  - intros r w1 [Hu1 Hp]. destruct r as [previous|e]; [|done]. destruct (into_host fresh input) as [hh|e] eqn:Ei; [|done].
    apply into_host_id in Ei. rewrite Hh in Ei. cbn. neutral_step. destruct (busy_state r); cbn; [done|].
    destruct (bool_decide (credential = None) && other_method previous hh) eqn:Em; cbn; [done|].
    apply safe_bind. eapply safe_mono; [|apply save_secret_safe; [done|intros p ->; auto|]].
    + intros [id|e] w2 Hx; [|apply Hx]. by apply save_commit_safe.
    + intros ->. by destruct (other_method previous hh).
  - destruct (in_id input) as [id|]; [|by split]. cbn in Hh. subst id. cbn. apply safe_get; [|done|].
    + intros r w1 w2 Hs [Hu1 Hp]. split; [by eapply same_slice_usable|]. destruct Hs as [-> _]. done.
    + intros [s|e] Hs; (split; [done|]); [|done]. intros p [= <-]. auto.
Qed.

Lemma save_host_safe h fresh input credential w : default fresh (in_id input) = h → usable h w →
  safe h (save_host fresh input credential : hprog _) (kept h) w.
Proof.
  intros Hh Hu. unfold save_host. destruct (in_id input) as [id|] eqn:Ei; cbn in Hh.
  - apply safe_guarded; [apply kept_stable|done|done|done|]. apply safe_locked; [apply kept_stable|done|done|]. apply save_body_safe; [by rewrite Ei|done].
  - apply safe_locked; [apply kept_stable|done|done|]. apply save_body_safe; [by rewrite Ei|done].
Qed.

(** What the first part of a deletion found. *)
Definition found (h : HostId) (r : result AppError StoredHost) (w : World) : Prop := usable h w ∧ ∀ s, r = Ok s → owner w !! sh_credential_id s = Some h.

Lemma found_stable h : stable h (found h).
Proof. intros r w w' Hs [Hu Hr]. split; [by eapply same_slice_usable|]. destruct Hs as (_ & O & _). intros s ->. apply O. auto. Qed.

Lemma delete_host_safe h w : usable h w → safe h (delete_host h : hprog _) (kept h) w.
Proof.
  intros Hu. unfold delete_host. apply safe_guarded; [apply kept_stable|done|done|done|]. apply safe_bind.
  apply (safe_mono _ _ (found h)).
  - intros [stored|e] w1 [Hu1 Ho]; [|done]. specialize (Ho stored eq_refl). cbn. neutral_step. destruct r as [u|e]; [|done]. cbn. neutral_step.
    apply safe_delete; [apply kept_stable|done| |].
    + intros u'. cbn. pose proof (usable_deleted h w1) as Hd. neutral_step. cbn. neutral_step. cbn. neutral_step. cbn.
      apply safe_remove; [done|done| |].
      * intros s. cbn. by rewrite lookup_delete_eq.
      * intros [] w2 Hu2; [|done]. cbn. neutral_step. cbn. neutral_step. cbn. last_step.
    + intros e. cbn. last_step.
  - apply safe_locked; [apply found_stable|by intros ?? []|done|]. cbn. apply safe_get; [apply found_stable|done|].
    intros [s|e] Hs; [|by split]. cbn. apply safe_neutral; [apply found_stable|done|done|]. intros [u|e]; cbn; [|by split].
    split; [done|]. intros ? [= <-]. by destruct (Hu s (Hs s eq_refl)) as (_ & ? & _).
Qed.

Lemma handler_safe x w : usable (handler_host x) w → safe (handler_host x) (handler_prog x) (λ _ _, True) w.
Proof.
  intros Hu. destruct x as [fresh input credential|id]; cbn [handler_host handler_prog] in *; apply safe_bind.
  - eapply safe_mono; [|by apply save_host_safe]. done.
  - eapply safe_mono; [|by apply delete_host_safe]. done.
Qed.

(** ** Every state *)

Definition sys_ok (y : HostSys) : Prop :=
  (∀ h, usable h (world y)) ∧ ∀ h p, handlers y !! h = Some p → safe h p (λ _ _, True) (world y).

Lemma hstep_ok y y' : hstep y y' → sys_ok y → sys_ok y'.
Proof.
  intros Hstep [Hu Hh]. destruct Hstep as [x y Hx|h c k r w' y Hc Ha|h b y Hb|y]; split; cbn; try done.
  - intros h p. rewrite lookup_insert_Some. intros [[<- <-]|[_ Hp]]; [by apply handler_safe|auto].
  - destruct (Hh h _ Hc) as [Ht Hk]. destruct (Hk _ _ _ (same_slice_refl h (world y)) Ha) as [Hu' _].
    intros h'. destruct (decide (h' = h)) as [->|Hne]; [done|]. eapply same_slice_usable; [by eapply answer_frame|done].
  - destruct (Hh h _ Hc) as [Ht Hk]. destruct (Hk _ _ _ (same_slice_refl h (world y)) Ha) as [_ Hs].
    intros h' p. rewrite lookup_insert_Some. intros [[<- <-]|[Hne Hp]]; [done|].
    eapply (safe_stable h'); [done|by eapply (answer_frame h)|auto].
  - intros h' p. rewrite lookup_delete_Some. intros [_ Hp]. auto.
Qed.

(** No host ever refers to a credential that is gone.  Start with no
    hosts, or with any usable ones, and let any number of handlers save and
    delete hosts, one at a time for each host, interleaved in any order, with
    any failure of either database and the process ended anywhere: in every
    state, the credential of every stored host is stored, and it passes the
    validation for the authentication method of that host. *)
Theorem no_dangling_credentials y y' : (∀ h, usable h (world y)) → handlers y = ∅ → rtc hstep y y' → ∀ h, usable h (world y').
Proof.
  intros Hu He Hr. assert (sys_ok y) as Hok by (split; [done|]; intros h p; by rewrite He, lookup_empty).
  revert Hok. clear Hu He. induction Hr as [y|y y1 y2 H1 _ IH]; [by intros []|]. intros Hok. apply IH. by eapply hstep_ok.
Qed.

(** A host is saved and deleted. *)
Definition sample_input : HostInput :=
  {| in_id := None; in_display_name := lit "Web"; in_connection := {| hostname := lit "localhost"; port := 22; username := lit "root"; authentication := Password |} |}.
Definition sample_secret : Credential := {| password := Some (lit "pw"); private_key := None; passphrase := None |}.
Definition sample_sys : HostSys := {| world := {| repo := ∅; vault := ∅; owner := ∅ |}; handlers := ∅ |}.

(** One environment, in which everything succeeds. *)
Definition respond (h : HostId) (c : hcall) (w : World) : hreply c * World :=
  match c return hreply c * World with
  | HGet k => (match repo w !! k with Some s => Ok s | None => Err host_not_found end, w)
  | HSave s => (Ok tt, set_repo w (<[host_id (sh_host s) := s]> (repo w)))
  | HDelete k => (Ok tt, set_repo w (delete k (repo w)))
  | HState _ => (Disconnected, w)
  | HFresh => let id := stdpp.base.fresh (dom (owner w)) in (id, {| repo := repo w; vault := vault w; owner := <[id := h]> (owner w) |})
  | HPutSecret id c => (Ok tt, set_vault w (<[id := c]> (vault w)))
  | HDeleteSecret id => (Ok tt, set_vault w (delete id (vault w)))
  | HGetSecret id => (match vault w !! id with Some c => Ok c | None => Err host_not_found end, w)
  | HList => (Ok [], w)
  | HDiscover => (Err host_not_found, w)
  | HIsClosed => (false, w)
  | HFingerprint _ _ => (Ok None, w)
  | HUnguard _ | HLock | HUnlock | HRemoveRotation _ | HResetSession _ | HClearMonitor _ | HRemoveMonitor _ | HRemoveTerminals _ | HRemoveGates _ => (tt, w)
  | HGuard _ | HRevokeOperations _ | HRevokeObservations _ | HPrepareDisconnect _ | HFinishDisconnect _ | HRecord _ _ | HConnect _ _ => (Ok tt, w)
  end.

Lemma respond_answer h c w : answer h c w (respond h c w).1 (respond h c w).2.
Proof.
  destruct c; cbn; try done; try (by left).
  - split; [done|]. by destruct (repo w !! h0).
  - split; [|done]. apply not_elem_of_dom, stdpp.fin_sets.is_fresh.
  - split; [done|]. by destruct (vault w !! id).
Qed.

Lemma handler_rtc h p w m :
  rtc hstep {| world := w; handlers := <[h := p]> m |} {| world := (serve (respond h) p w).2; handlers := delete h m |}.
Proof.
  eapply rtc_r; [apply (serve_rtc (respond h) hstep (λ p w, {| world := w; handlers := <[h := p]> m |}))|].
  - intros c k w'. pose proof (h_call h c k _ _ {| world := w'; handlers := <[h := Do c k]> m |} (lookup_insert_eq _ _ _) (respond_answer h c w')) as H1.
    cbn [handlers] in H1. by rewrite insert_insert_eq in H1.
  - set (w' := (serve _ _ _).2). set (b := (serve _ _ _).1).
    pose proof (h_end h b {| world := w'; handlers := <[h := Ret b]> m |} (lookup_insert_eq _ _ _)) as H1. cbn [handlers world] in H1.
    by rewrite delete_insert_eq in H1.
Qed.

Definition sample_saved : World := (serve (respond 9%N) (handler_prog (SaveHost 9%N sample_input (Some sample_secret))) (world sample_sys)).2.

Lemma no_dangling_credentials_witness : (sh_credential_id <$> repo sample_saved !! 9%N) = Some 0%N ∧ usable 9%N sample_saved.
Proof.
  split; [vm_compute; reflexivity|].
  apply (no_dangling_credentials sample_sys {| world := sample_saved; handlers := delete 9%N ∅ |}); [|reflexivity|].
  - intros h s. cbn. by rewrite lookup_empty.
  - eapply rtc_l; [apply (h_start (SaveHost 9%N sample_input (Some sample_secret))); reflexivity|]. apply handler_rtc.
Defined.

(** A connection is made with the stored credential of that very host,
    after it passed the validation for the host's authentication method; and
    what is published was discovered over a connection that was still open. *)
Theorem establish_uses_stored_credential stored t x :
  runs (establish stored : hprog _) t (Ok x) →
  ∃ c f, is_ok (credential_validate c (authentication (connection (sh_host stored)))) = true ∧
    t = [Ev (HGetSecret (sh_credential_id stored)) (Ok c); Ev (HConnect (sh_host stored) c) (Ok tt); Ev HDiscover (Ok x.1); Ev HIsClosed false;
         Ev (HFingerprint (hostname (connection (sh_host stored))) (port (connection (sh_host stored)))) (Ok f)].
Proof.
  intros H. unfold establish, hask in H. cbn in H.
  apply runs_do_inv in H as ([c|e] & t1 & -> & H); cbn in H; [|by apply runs_ret_inv in H as [_ ?]].
  destruct (credential_validate _ _) as [u|e] eqn:Ev; cbn in H; [|by apply runs_ret_inv in H as [_ ?]].
  apply runs_do_inv in H as ([[]|e] & t2 & -> & H); cbn in H; [|by apply runs_ret_inv in H as [_ ?]].
  apply runs_do_inv in H as ([d|e] & t3 & -> & H); cbn in H; [|by apply runs_ret_inv in H as [_ ?]].
  apply runs_do_inv in H as ([] & t4 & -> & H); cbn in H; [by apply runs_ret_inv in H as [_ ?]|].
  apply runs_do_inv in H as ([f|e] & t5 & -> & H); cbn in H; apply runs_ret_inv in H as [-> H]; [|done].
  injection H as ->. exists c, f. split; [by rewrite Ev|done].
Qed.
