(* ===== verification/AppProcess.v ===== *)
(** The process around the application ([Application::open] and
    [Application::shutdown], [nexus-core/src/application.rs]).

    A profile is a directory with a lock file; [open] takes the lock before it
    touches a database and keeps it for as long as the application lives.
    [pstep] interleaves any number of processes of one profile.  The lock of
    the operating system is its documented behaviour: it is given to one
    process at a time and released when the process lets go of the file. *)

From S2P Require Import Prelude Str Model Prog Sessions.

(** ** Opening a profile *)

Definition persistence_error : AppError := app_error Persistence "Cannot open the NexusOps data directory.".
Definition profile_in_use : AppError := app_error Conflict "This NexusOps profile is already open in another process.".

Inductive ocall :=
| OCreateDirectory | OSetPermissions | OOpenLockFile
| OTryLock
| OCloseLockFile                  (** the lock file is dropped *)
| ORepository | OProfileId | OSecrets (profile_id : str) | OKnownHosts | OAudit.

Definition oreply (c : ocall) : Type :=
  match c with
  | OCreateDirectory | OSetPermissions | OOpenLockFile | OTryLock => bool
  | OCloseLockFile => unit
  | OProfileId => Res str
  | _ => Res unit
  end.

Definition oask (c : ocall) : prog oreply (oreply c) := Do c (λ r, Ret r).

(** The databases and the log, under the lock; a failure drops the lock file. *)
Definition open_stores : io oreply AppError unit :=
  _ ← (oask ORepository : io oreply AppError unit);
  profile ← (oask OProfileId : io oreply AppError str);
  _ ← (oask (OSecrets profile) : io oreply AppError unit);
  _ ← (oask OKnownHosts : io oreply AppError unit);
  (oask OAudit : io oreply AppError unit).

Definition application_open (unix : bool) : io oreply AppError unit :=
  let! created := oask OCreateDirectory in
  _ ← io_ensure (negb created) persistence_error;
  let! permitted := (if unix then oask OSetPermissions else Ret true : prog oreply bool) in
  _ ← io_ensure (negb permitted) persistence_error;
  let! opened := oask OOpenLockFile in
  _ ← io_ensure (negb opened) persistence_error;
  let! taken := oask OTryLock in
  if negb taken then let! _ := oask OCloseLockFile in io_fail profile_in_use else
  let! r := (open_stores : prog oreply _) in
  match r with
  | Ok _ => mret tt
  | Err e => let! _ := oask OCloseLockFile in io_fail e
  end.

(** ** Processes *)

Abbreviation Pid := N (only parsing).
Abbreviation Opening := (prog oreply (result AppError unit)) (only parsing).

Record Profile := { lock : option Pid; processes : gmap Pid Opening }.

Definition oanswer (p : Pid) (c : ocall) (l : option Pid) : oreply c → option Pid → Prop :=
  match c return oreply c → option Pid → Prop with
  | OTryLock => λ r l', if (r : bool) then l = None ∧ l' = Some p else l' = l
  | OCloseLockFile => λ _ l', l' = if bool_decide (l = Some p) then None else l
  | _ => λ _ l', l' = l
  end.

Inductive pstep : Profile → Profile → Prop :=
| p_start p unix y : processes y !! p = None → pstep y {| lock := lock y; processes := <[p := (application_open unix : Opening)]> (processes y) |}
| p_call p c k r l' y : processes y !! p = Some (Do c k) → oanswer p c (lock y) r l' →
    pstep y {| lock := l'; processes := <[p := k r]> (processes y) |}
(** A process ends, by itself or not; its files are closed. *)
| p_exit p x y : processes y !! p = Some x →
    pstep y {| lock := if bool_decide (lock y = Some p) then None else lock y; processes := delete p (processes y) |}.

(** The process works with the stores of the profile: the application is open,
    or its next call opens one of them. *)
Definition in_profile (x : Opening) : bool :=
  match x with
  | Ret r => is_ok r
  | Do (ORepository | OProfileId | OSecrets _ | OKnownHosts | OAudit) _ => true
  | _ => false
  end.

(** What a process may still do when it holds the lock ([b]) or not. *)
Fixpoint disciplined (b : bool) (x : Opening) : Prop :=
  match x with
  | Ret r => b = is_ok r
  | Do c k =>
      match c return (oreply c → Opening) → Prop with
      | OTryLock => λ k, b = false ∧ disciplined true (k true) ∧ disciplined false (k false)
      | OCloseLockFile => λ k, disciplined false (k tt)
      | ORepository | OKnownHosts | OAudit | OSecrets _ | OProfileId => λ k, b = true ∧ ∀ r, disciplined b (k r)
      | _ => λ k, ∀ r, disciplined b (k r)
      end k
  end.

Lemma application_open_disciplined unix : disciplined false (application_open unix).
Proof. destruct unix; cbn; repeat (first [intros []|split]; cbn); done. Qed.

Lemma disciplined_in b x : disciplined b x → in_profile x = true → b = true.
Proof. destruct x as [r|c k]; cbn; [by intros ->|]. destruct c; cbn; try done; by intros []. Qed.

(** One call of a process, for the process itself and for the others. *)
Lemma disciplined_call p c k r l l' : disciplined (bool_decide (l = Some p)) (Do c k) → oanswer p c l r l' → disciplined (bool_decide (l' = Some p)) (k r).
Proof.
  intros Hd Ha. destruct c; cbn in Hd, Ha; try (subst l'; by apply Hd).
  - destruct r; [destruct Ha as [-> ->]; rewrite bool_decide_eq_true_2 by done; apply Hd|]. subst l'. destruct Hd as (-> & _ & Hf). done.
  - subst l'. destruct r. rewrite bool_decide_eq_false_2; [done|]. by destruct (bool_decide_reflect (l = Some p)).
Qed.

Lemma oanswer_other p q c l r l' : q ≠ p → oanswer p c l r l' → bool_decide (l' = Some q) = bool_decide (l = Some q).
Proof.
  intros Hne Ha. destruct c; cbn in Ha; try (by subst l').
  - destruct r; [|by subst l']. destruct Ha as [-> ->]. apply bool_decide_ext. naive_solver.
  - subst l'. destruct (bool_decide_reflect (l = Some p)) as [->|]; [|done]. apply bool_decide_ext. naive_solver.
Qed.

Definition profile_ok (y : Profile) : Prop := ∀ p x, processes y !! p = Some x → disciplined (bool_decide (lock y = Some p)) x.

Lemma pstep_ok y y' : (∀ p, lock y = Some p → is_Some (processes y !! p)) → pstep y y' → profile_ok y →
  profile_ok y' ∧ ∀ p, lock y' = Some p → is_Some (processes y' !! p).
Proof.
  intros Hl Hstep Hok. destruct Hstep as [p unix y Hp|p c k r l' y Hp Ha|p x y Hp]; (split; [intros q z|intros q]); cbn.
  - rewrite lookup_insert_Some. intros [[<- <-]|[Hne Hq]]; [|by apply Hok].
    rewrite bool_decide_eq_false_2; [apply application_open_disciplined|]. intros E. destruct (Hl p E). congruence.
  - intros E. rewrite lookup_insert_is_Some. right. split; [intros <-|by apply Hl]. destruct (Hl p E). congruence.
  - rewrite lookup_insert_Some. intros [[<- <-]|[Hne Hq]]; [by eapply disciplined_call; [apply Hok|]|].
    rewrite (oanswer_other p q c (lock y) r l') by done. by apply Hok.
  - intros ->. rewrite lookup_insert_is_Some. destruct (decide (p = q)) as [|Hne]; [by left|right]. split; [done|]. apply Hl.
    pose proof (oanswer_other p q c (lock y) r (Some q) ltac:(done) Ha) as E. rewrite bool_decide_eq_true_2 in E by done. symmetry in E. by apply bool_decide_eq_true in E.
  - rewrite lookup_delete_Some. intros [Hne Hq]. apply Hok in Hq. destruct (bool_decide_reflect (lock y = Some p)) as [Hb|]; [|done].
    rewrite Hb, bool_decide_eq_false_2 in Hq by congruence. by rewrite bool_decide_eq_false_2.
  - destruct (bool_decide_reflect (lock y = Some p)) as [|Hb]; [done|]. intros E. rewrite lookup_delete_ne by congruence. by apply Hl.
Qed.

Lemma profile_reach_ok y : rtc pstep {| lock := None; processes := ∅ |} y → profile_ok y.
Proof.
  intros Hr. apply (proj1 (B := ∀ p, lock y = Some p → is_Some (processes y !! p))). revert y Hr. apply (rtc_ind_r _); [by split|].
  intros y1 y2 _ Hs [Hok Hl]. by eapply pstep_ok.
Qed.

(** [C18] One process at a time works with a profile.  Let any number of
    processes open the profile, fail to, run and end, in any interleaving: two
    that have the application open, or are about to open a database or the log
    of the profile, are the same process. *)
Theorem profile_is_exclusive y p q x z :
  rtc pstep {| lock := None; processes := ∅ |} y → processes y !! p = Some x → processes y !! q = Some z →
  in_profile x = true → in_profile z = true → p = q.
Proof.
  intros Hr Hp Hq Hx Hz.
  assert (profile_ok y) as Hok by (by apply profile_reach_ok).
  pose proof (disciplined_in _ _ (Hok _ _ Hp) Hx) as H1%bool_decide_eq_true. pose proof (disciplined_in _ _ (Hok _ _ Hq) Hz) as H2%bool_decide_eq_true.
  congruence.
Qed.

(** One environment: every call succeeds but the lock that is taken. *)
Definition orespond (p : Pid) (c : ocall) (l : option Pid) : oreply c * option Pid :=
  match c return oreply c * option Pid with
  | OCreateDirectory | OSetPermissions | OOpenLockFile => (true, l)
  | OTryLock => match l with None => (true, Some p) | Some _ => (false, l) end
  | OCloseLockFile => (tt, if bool_decide (l = Some p) then None else l)
  | OProfileId => (Ok (lit "profile"), l)
  | ORepository | OSecrets _ | OKnownHosts | OAudit => (Ok tt, l)
  end.

Lemma opening_rtc p x l m :
  rtc pstep {| lock := l; processes := <[p := x]> m |}
    {| lock := (serve (orespond p) x l).2; processes := <[p := Ret (serve (orespond p) x l).1]> m |}.
Proof.
  apply (serve_rtc (orespond p) pstep (λ x l, {| lock := l; processes := <[p := x]> m |})). intros c k l'.
  assert (oanswer p c l' (orespond p c l').1 (orespond p c l').2) as Ha by (by destruct c, l').
  pose proof (p_call p c k _ _ {| lock := l'; processes := <[p := Do c k]> m |} (lookup_insert_eq _ _ _) Ha) as H1. cbn [processes] in H1.
  by rewrite insert_insert_eq in H1.
Qed.

(** A process that opens the profile to the end. *)
Lemma open_rtc p unix l m (x := (application_open unix : Opening)) : m !! p = None →
  rtc pstep {| lock := l; processes := m |} {| lock := (serve (orespond p) x l).2; processes := <[p := Ret (serve (orespond p) x l).1]> m |}.
Proof. intros Hp. eapply rtc_l; [by apply (p_start p unix {| lock := l; processes := m |})|]. apply opening_rtc. Qed.

(** The first process has the profile, the second is refused. *)
Definition two_processes : Profile :=
  {| lock := Some 1%N; processes := <[2%N := Ret (Err profile_in_use)]> (<[1%N := Ret (Ok tt)]> ∅) |}.

Lemma profile_is_exclusive_witness :
  rtc pstep {| lock := None; processes := ∅ |} two_processes ∧ ∀ q z, processes two_processes !! q = Some z → in_profile z = true → 1%N = q.
Proof.
  assert (rtc pstep {| lock := None; processes := ∅ |} two_processes) as Hr.
  { etrans; [apply (open_rtc 1%N true); reflexivity|]. apply (open_rtc 2%N true (Some 1%N)). reflexivity. }
  split; [done|]. intros q z Hq Hz. exact (profile_is_exclusive two_processes 1%N q (Ret (Ok tt)) z Hr eq_refl Hq eq_refl Hz).
Defined.

(** ** Shutting down *)

Inductive scall :=
| SBeginOperations | SSealObservations               (** no operation and no observation from now on *)
| SLock | SUnlock
| SClearRotations | SSlots | SMark (s : SlotId)
| STransfers                                         (** [transfers.shutdown] *)
| SFileSessions | SCloseFiles (h : HostId) (hs : HostSessionId)
| SQuiesce | SRevokePlans | SClearStartups | STerminals | SClearMonitors | SClearGates
| SClear (s : SlotId).

Definition sreply (c : scall) : Type :=
  match c with
  | SSlots => list SlotId
  | SFileSessions => list (HostId * HostSessionId)
  | SBeginOperations | SSealObservations | SCloseFiles _ _ | SQuiesce | SRevokePlans => Res unit
  | _ => unit
  end.

Definition sask (c : scall) : prog sreply (sreply c) := Do c (λ r, Ret r).

(** [for x in l { p(x)? }] *)
Fixpoint each {A} (p : A → io sreply AppError unit) (l : list A) : io sreply AppError unit :=
  match l with [] => mret tt | x :: l => _ ← p x; each p l end.

Definition mark (s : SlotId) : io sreply AppError unit := let! _ := sask (SMark s) in mret tt.
Definition clear (s : SlotId) : io sreply AppError unit := let! _ := sask (SClear s) in mret tt.
Definition close_files (s : HostId * HostSessionId) : io sreply AppError unit := sask (SCloseFiles s.1 s.2).

(** Everything before the last loop over the sessions. *)
Definition stop_work : io sreply AppError (list SlotId) :=
  _ ← (sask SBeginOperations : io sreply AppError unit);
  _ ← (sask SSealObservations : io sreply AppError unit);
  let! _ := sask SLock in
  let! _ := sask SClearRotations in
  let! slots := sask SSlots in
  _ ← each mark slots;
  let! _ := sask SUnlock in
  let! _ := sask STransfers in
  let! sessions := sask SFileSessions in
  _ ← each close_files sessions;
  _ ← (sask SQuiesce : io sreply AppError unit);
  _ ← (sask SRevokePlans : io sreply AppError unit);
  let! _ := sask SClearStartups in
  let! _ := sask STerminals in
  let! _ := sask SClearMonitors in
  let! _ := sask SClearGates in
  mret slots.

Definition application_shutdown : io sreply AppError unit :=
  slots ← stop_work;
  each clear slots.

(** A run of a loop that goes through. *)
Lemma each_ok {A} (p : A → io sreply AppError unit) (f : A → event sreply) l t :
  (∀ x t, runs (p x : prog sreply _) t (Ok tt) → t = [f x]) → runs (each p l : prog sreply _) t (Ok tt) → t = map f l.
Proof.
  intros Hp. revert t. induction l as [|x l IH]; intros t; cbn.
  - by intros [-> _]%runs_ret_inv.
  - intros ([] & t1 & t2 & H1 & H2 & ->)%runs_io_ok. by rewrite (Hp x t1 H1), (IH t2 H2).
Qed.

Definition keeps_sessions (c : scall) : bool := match c with SClear _ => false | _ => true end.

Lemma only_each {A} (P : scall → bool) (p : A → io sreply AppError unit) l : (∀ x, only P (p x : prog sreply _)) → only P (each p l : prog sreply _).
Proof. intros Hp. induction l as [|x l IH]; cbn; [done|]. apply only_io_bind; [done|]. by intros []. Qed.

(** The calls of a shutdown that goes through. *)
Definition shutdown_trace (slots : list SlotId) (sessions : list (HostId * HostSessionId)) : list (event sreply) :=
  [Ev SBeginOperations (Ok tt); Ev SSealObservations (Ok tt); Ev SLock tt; Ev SClearRotations tt; Ev SSlots slots] ++
  map (λ s, Ev (SMark s) tt) slots ++ [Ev SUnlock tt; Ev STransfers tt; Ev SFileSessions sessions] ++
  map (λ s, Ev (SCloseFiles s.1 s.2) (Ok tt)) sessions ++
  [Ev SQuiesce (Ok tt); Ev SRevokePlans (Ok tt); Ev SClearStartups tt; Ev STerminals tt; Ev SClearMonitors tt; Ev SClearGates tt] ++
  map (λ s, Ev (SClear s) tt) slots.

Lemma mark_runs s t x : runs (mark s : prog sreply _) t x → t = [Ev (SMark s) tt].
Proof. intros ([] & t1 & -> & [-> _]%runs_ret_inv)%runs_do_inv. done. Qed.
Lemma clear_runs s t x : runs (clear s : prog sreply _) t x → t = [Ev (SClear s) tt] ∧ x = Ok tt.
Proof. intros ([] & t1 & -> & [-> ->]%runs_ret_inv)%runs_do_inv. done. Qed.
Lemma close_files_runs s t x : runs (close_files s : prog sreply _) t x → t = [Ev (SCloseFiles s.1 s.2) x].
Proof. intros (r & t1 & -> & [-> ->]%runs_ret_inv)%runs_do_inv. done. Qed.

Lemma each_clear_never_fails l t e : ¬ runs (each clear l : prog sreply _) t (Err e).
Proof.
  revert t. induction l as [|s l IH]; intros t H; cbn in H; [by apply runs_ret_inv in H as [_ ?]|].
  apply runs_do_inv in H as ([] & t1 & _ & H). by apply IH in H.
Qed.

(** One call that must succeed, or that always does, of a run that goes through. *)
Ltac next H := apply runs_do_inv in H as ([[]|] & ? & -> & H); cbn [pbind] in H; [|by apply runs_ret_inv in H as [_ ?]].
Ltac next_unit H := apply runs_do_inv in H as ([] & ? & -> & H); cbn [pbind] in H.

Lemma stop_work_ok t slots : runs (stop_work : prog sreply _) t (Ok slots) →
  ∃ sessions, t ++ map (λ s, Ev (SClear s) tt) slots = shutdown_trace slots sessions.
Proof.
  intros H. unfold stop_work in H. next H. next H. next_unit H. next_unit H. apply runs_do_inv in H as (l & t1 & -> & H). cbn [pbind] in H.
  apply runs_io_ok in H as ([] & t2 & t3 & H2 & H & ->). apply (each_ok mark (λ s, Ev (SMark s) tt)) in H2 as ->; [|intros; by eapply mark_runs].
  next_unit H. next_unit H. apply runs_do_inv in H as (sessions & t4 & -> & H). cbn [pbind] in H.
  apply runs_io_ok in H as ([] & t5 & t6 & H5 & H & ->).
  apply (each_ok close_files (λ s, Ev (SCloseFiles s.1 s.2) (Ok tt))) in H5 as ->; [|intros; by apply close_files_runs].
  next H. next H. next_unit H. next_unit H. next_unit H. next_unit H. apply runs_ret_inv in H as [-> [= ->]].
  exists sessions. unfold shutdown_trace. cbn [app]. rewrite <-app_assoc. cbn [app]. by rewrite <-app_assoc.
Qed.

Lemma stop_work_keeps t r : runs (stop_work : prog sreply _) t r → Forall (λ e, keeps_sessions (ev_call e) = true) t.
Proof.
  apply only_runs. unfold stop_work. repeat first [apply only_each; by intros | apply only_io_bind; [|intros] | split; [done|intros]]; try done.
Qed.

(** Shutting down happens in one order: operations and observations are
    refused first, then no transfer is admitted, every file session is closed,
    every transfer is over and every file plan revoked before a session loses
    its connection.  When it succeeds, every session was marked and cleared and
    every file session closed; when a step fails, no session was cleared. *)
Theorem shutdown_in_order t r : runs (application_shutdown : prog sreply _) t r →
  match r with
  | Ok _ => ∃ slots sessions, t = shutdown_trace slots sessions
  | Err _ => Forall (λ e, keeps_sessions (ev_call e) = true) t
  end.
Proof.
  intros (x & t1 & t2 & H1 & H2 & ->)%runs_bind. destruct x as [slots|e].
  - destruct r as [[]|e]; [|by apply each_clear_never_fails in H2].
    apply (each_ok clear (λ s, Ev (SClear s) tt)) in H2 as ->; [|intros; by eapply clear_runs].
    apply stop_work_ok in H1 as [sessions Hs]. by exists slots, sessions.
  - apply runs_ret_inv in H2 as [-> ->]. rewrite app_nil_r. by eapply stop_work_keeps.
Qed.

Definition sample_answers (c : scall) : sreply c :=
  match c with
  | SSlots => [1%N; 2%N]
  | SFileSessions => [(1%N, 7%N)]
  | SBeginOperations | SSealObservations | SCloseFiles _ _ | SQuiesce | SRevokePlans => Ok tt
  | _ => tt
  end.

Lemma shutdown_in_order_witness :
  let t := (interp sample_answers application_shutdown).1 in length t = 19%nat ∧ ∃ slots sessions, t = shutdown_trace slots sessions.
Proof. split; [reflexivity|]. apply (shutdown_in_order _ (Ok tt)). by apply interp_runs_eq. Defined.
