(* ===== verification/HostStack.v ===== *)
(** The host records over their databases.

    [AppHosts] shows that no host refers to a credential that is gone, for two
    stores that do what [answer] says.  Here the calls of the same handlers are
    answered by the host repository ([Repository]) and the encrypted store
    ([Vault]) themselves, over any database that obeys [HostTableLaws], any key
    provider that obeys [KeyProviderLaws] and any libraries that obey
    [SealingLaws].  The system over the databases is simulated by the one over
    the abstract stores. *)

From S2P Require Import Prelude Str Model Hosts Prog KnownHosts Sessions Services Repository Vault AppHosts.

Section Stack.
Context {Db K : Type} `{HostTableLaws Db} `{KeyProviderLaws K} `{SealingLaws}.
Context (show_id : HostId → str) (parse_id : str → option HostId) (Hid : ∀ id, parse_id (show_id id) = Some id).

(** The two databases, the key store, and the identities drawn so far with the
    host they were drawn for. *)
Record Disk := { hosts_db : Db; credentials_db : Vault K; issued : gmap HostId HostId }.

(** The blocking task that works on the secret store may be lost after its
    work, before it or never. *)
Definition task {A} (done : Res unit * A) (before : A) (r : Res unit) (after : A) : Prop :=
  (r, after) = done ∨ (is_ok r = false ∧ (after = done.2 ∨ after = before)).

(** What the components answer to a call of a handler of host [h]. *)
Definition disk_answer (h : HostId) (c : hcall) (d : Disk) : hreply c → Disk → Prop :=
  match c return hreply c → Disk → Prop with
  | HGet k => λ r d', d' = d ∧ ∃ fails, r = repo_get show_id parse_id fails k (hosts_db d)
  | HSave s => λ r d', ∃ fails db', (r, db') = repo_save show_id fails s (hosts_db d) ∧
      d' = {| hosts_db := db'; credentials_db := credentials_db d; issued := issued d |}
  | HDelete k => λ r d', ∃ fails db', (r, db') = repo_delete show_id fails k (hosts_db d) ∧
      d' = {| hosts_db := db'; credentials_db := credentials_db d; issued := issued d |}
  | HFresh => λ id d', issued d !! id = None ∧
      d' = {| hosts_db := hosts_db d; credentials_db := credentials_db d; issued := <[id := h]> (issued d) |}
  | HPutSecret id c => λ r d', ∃ io kr rng v', task (put io kr rng id c (credentials_db d)) (credentials_db d) r v' ∧
      d' = {| hosts_db := hosts_db d; credentials_db := v'; issued := issued d |}
  | HDeleteSecret id => λ r d', ∃ io v', task (delete_secret io id (credentials_db d)) (credentials_db d) r v' ∧
      d' = {| hosts_db := hosts_db d; credentials_db := v'; issued := issued d |}
  | HGetSecret id => λ r d', d' = d ∧ ((∃ io, r = get io id (credentials_db d)) ∨ is_ok r = false)
  | _ => λ _ d', d' = d
  end.

Record Stack := { disk : Disk; running : gmap HostId (prog hreply bool) }.

Definition with_vault (d : Disk) (v : Vault K) : Disk := {| hosts_db := hosts_db d; credentials_db := v; issued := issued d |}.

Inductive cstep : Stack → Stack → Prop :=
| c_start x y : running y !! handler_host x = None →
    cstep y {| disk := disk y; running := <[handler_host x := handler_prog x]> (running y) |}
| c_call h c k r d' y : running y !! h = Some (Do c k) → disk_answer h c (disk y) r d' →
    cstep y {| disk := d'; running := <[h := k r]> (running y) |}
| c_end h b y : running y !! h = Some (Ret b) → cstep y {| disk := disk y; running := delete h (running y) |}
(** The process ends and the profile is opened again. *)
| c_restart fails y : cstep y {| disk := with_vault (disk y) (vault_open fails (credentials_db (disk y))).2; running := ∅ |}
(** The user locks, removes or restores the key of the store. *)
| c_keys k y : cstep y {| disk := with_vault (disk y) (vault_op (OLock k) (credentials_db (disk y))).2; running := running y |}.

(** ** Simulation *)

(** The databases hold what the abstract stores hold. *)
Definition on_disk (d : Disk) (w : World) : Prop :=
  (∀ k s, repo_get show_id parse_id false k (hosts_db d) = Ok s ↔ repo w !! k = Some s) ∧
  (∃ key, implements key (credentials_db d) (vault w)) ∧ issued d = owner w.

Lemma repo_get_any fails k db s : repo_get show_id parse_id fails k db = Ok s → repo_get show_id parse_id false k db = Ok s.
Proof. by destruct fails. Qed.
Lemma repo_save_ok fails s (db db' : Db) : (Ok tt, db') = repo_save show_id fails s db → repo_save show_id false s db = (Ok tt, db').
Proof. unfold repo_save. destruct (host_validate _); [|done]. by destruct fails. Qed.
Lemma repo_save_err fails s (db db' : Db) e : (Err e, db') = repo_save show_id fails s db → db' = db.
Proof. unfold repo_save. destruct (host_validate _); [|by intros [= _ ->]]. destruct (_ || _); [by intros [= _ ->]|done]. Qed.
Lemma repo_delete_ok fails k (db db' : Db) : (Ok tt, db') = repo_delete show_id fails k db → repo_delete show_id false k db = (Ok tt, db').
Proof. unfold repo_delete. by destruct fails. Qed.
Lemma repo_delete_err fails k (db db' : Db) e : (Err e, db') = repo_delete show_id fails k db → db' = db.
Proof. unfold repo_delete. destruct fails; [by intros [= _ ->]|done]. Qed.

(** Saving and removing a record. *)
Lemma on_disk_save d w s db' : on_disk d w → repo_save show_id false s (hosts_db d) = (Ok tt, db') →
  on_disk {| hosts_db := db'; credentials_db := credentials_db d; issued := issued d |} (set_repo w (<[host_id (sh_host s) := s]> (repo w))).
Proof.
  intros (Hr & Hv & Ho) Hs. split; [|done]. intros k s'. cbn [hosts_db repo set_repo]. rewrite (repo_get_cases show_id parse_id Hid k _ _ s Hs).
  case_bool_decide as Hk; [subst k; rewrite lookup_insert_eq; naive_solver|]. rewrite lookup_insert_ne by done. apply Hr.
Qed.
Lemma on_disk_delete d w k db' : on_disk d w → repo_delete show_id false k (hosts_db d) = (Ok tt, db') →
  on_disk {| hosts_db := db'; credentials_db := credentials_db d; issued := issued d |} (set_repo w (delete k (repo w))).
Proof.
  intros (Hr & Hv & Ho) Hs. split; [|done]. intros k' s'. cbn [hosts_db repo set_repo]. rewrite (repo_get_deleted show_id parse_id Hid k' _ _ _ Hs).
  case_bool_decide as Hk; [subst k'; by rewrite lookup_delete_eq|]. rewrite lookup_delete_ne by done. apply Hr.
Qed.

(** An operation of the encrypted store. *)
Lemma on_disk_vault d w op : on_disk d w → ∃ m', map_op op (vault_op op (credentials_db d)).1 (vault w) m' ∧
  on_disk (with_vault d (vault_op op (credentials_db d)).2) (set_vault w m').
Proof.
  intros (Hr & (key & Hv) & Ho). destruct (vault_op op (credentials_db d)) as [r v'] eqn:E.
  apply (vault_op_refines _ _ _ _ key (vault w)) in E as (key' & m' & Hm & Hv'); [|done]. exists m'. split; [done|].
  split; [done|]. split; [|done]. by exists key'.
Qed.

Lemma set_vault_same w : set_vault w (vault w) = w.
Proof. by destruct w. Qed.
Lemma with_vault_same d : with_vault d (credentials_db d) = d.
Proof. by destruct d. Qed.

(** A task on the encrypted store either did its work or failed. *)
Lemma task_on_disk d w x v1 r v' m1 m2 : on_disk d w → on_disk (with_vault d v1) (set_vault w m1) →
  (match x with Ok _ => m1 = m2 | Err _ => m1 = vault w end) → task (x, v1) (credentials_db d) r v' →
  ∃ w', (w' = set_vault w m2 ∨ (is_ok r = false ∧ w' = w)) ∧ on_disk (with_vault d v') w'.
Proof.
  intros Hd Hd1 Hx [[= -> ->]|[Hr [->| ->]]]; [|cbn|].
  - exists (set_vault w m1). split; [|done]. destruct x as [u|e]; subst m1; [by left|right]. by rewrite set_vault_same.
  - exists (set_vault w m1). split; [|done]. destruct x as [u|e]; subst m1; [by left|right]. by rewrite set_vault_same.
  - exists w. split; [by right|]. by rewrite with_vault_same.
Qed.

(** A call over the databases is a call over the abstract stores. *)
Lemma disk_call h c d w r d' : on_disk d w → disk_answer h c d r d' → ∃ w', answer h c w r w' ∧ on_disk d' w'.
Proof.
  intros Hd Ha. destruct c; cbn in Ha; try (subst d'; by exists w).
  - destruct Ha as [-> [fails ->]]. exists w. split; [|done]. split; [done|]. destruct (repo_get _ _ _ _ _) as [s|] eqn:E; [|done].
    apply repo_get_any in E. by apply Hd in E.
  - destruct Ha as (fails & db' & Hs & ->). destruct r as [[]|e].
    + exists (set_repo w (<[host_id (sh_host s) := s]> (repo w))). split; [done|]. apply repo_save_ok in Hs. by apply on_disk_save.
    + apply repo_save_err in Hs as ->. exists w. split; [done|]. by destruct d.
  - destruct Ha as (fails & db' & Hs & ->). destruct r as [[]|e].
    + exists (set_repo w (delete h0 (repo w))). split; [done|]. apply repo_delete_ok in Hs. by apply on_disk_delete.
    + apply repo_delete_err in Hs as ->. exists w. split; [done|]. by destruct d.
  - destruct Ha as [Hf ->]. destruct Hd as (Hr & Hv & Ho). eexists. split; [split; [by rewrite <-Ho|reflexivity]|]. split; [done|]. split; [done|].
    cbn. by rewrite Ho.
  - destruct Ha as (io & kr & rng & v' & Ht & ->). destruct (on_disk_vault d w (OPut io kr rng id c) Hd) as (m1 & Hm & Hd1). cbn [vault_op] in Hm, Hd1.
    destruct (put io kr rng id c (credentials_db d)) as [x v1]. apply (task_on_disk d w x v1 r v' m1 _); [done|done| |done].
    destruct x; [by destruct Hm|done].
  - destruct Ha as [-> [[io ->]|Hr]]; exists w; (split; [split; [done|]|done]); [|by destruct r].
    destruct (on_disk_vault d w (OGet io id) Hd) as (m1 & Hm & _). cbn [vault_op fst] in Hm. destruct (get _ _ _); [by destruct Hm|done].
  - destruct Ha as (io & v' & Ht & ->). destruct (on_disk_vault d w (ODelete io id) Hd) as (m1 & Hm & Hd1). cbn [vault_op] in Hm, Hd1.
    destruct (delete_secret io id (credentials_db d)) as [x v1]. apply (task_on_disk d w x v1 r v' m1 _); [done|done| |done].
    by destruct x.
Qed.

Lemma cstep_simulates y y' (z : HostSys) : on_disk (disk y) (world z) → running y = handlers z → cstep y y' →
  ∃ z', rtc hstep z z' ∧ on_disk (disk y') (world z') ∧ running y' = handlers z'.
Proof.
  intros Hd Hr Hstep. destruct Hstep as [x y Hx|h c k r d' y Hc Ha|h b y Hb|fails y|k y]; cbn.
  - eexists. split; [apply rtc_once, (h_start x z); by rewrite <-Hr|]. cbn. by rewrite Hr.
  - destruct (disk_call h c _ _ r d' Hd Ha) as (w' & Ha' & Hd'). eexists. split; [apply rtc_once; eapply (h_call h c k r w' z); [by rewrite <-Hr|done]|].
    cbn. by rewrite Hr.
  - eexists. split; [apply rtc_once, (h_end h b z); by rewrite <-Hr|]. cbn. by rewrite Hr.
  - eexists. split; [apply rtc_once, (h_crash z)|]. split; [|done]. cbn.
    destruct (on_disk_vault _ _ (OOpen fails) Hd) as (m1 & Hm & Hd1). cbn [vault_op] in Hm, Hd1.
    destruct (vault_open fails (credentials_db (disk y))) as [x v1]. cbn in Hm. subst m1. by rewrite set_vault_same in Hd1.
  - exists z. split; [done|]. split; [|done]. destruct (on_disk_vault _ _ (OLock k) Hd) as (m1 & Hm & Hd1). cbn in Hm. subst m1. by rewrite set_vault_same in Hd1.
Qed.

Lemma stack_simulates y y' (z : HostSys) : rtc cstep y y' → on_disk (disk y) (world z) → running y = handlers z →
  ∃ z', rtc hstep z z' ∧ on_disk (disk y') (world z').
Proof.
  intros Hs. revert z. induction Hs as [y|y y1 y2 Hy _ IH]; intros z Hd Hr; [by exists z|].
  destruct (cstep_simulates y y1 z Hd Hr Hy) as (z1 & Hz & Hd1 & Hr1). destruct (IH z1 Hd1 Hr1) as (z2 & Hz2 & Hd2).
  exists z2. split; [by etrans|done].
Qed.

(** [C7] Every saved host can be connected with.  Start with an empty profile
    and let handlers save and delete hosts over the databases themselves, in any
    interleaving, with failing statements, generators and key stores, lost
    tasks, restarts, and a key that is locked and unlocked: whenever the
    repository gives a host, it gives it under its own identity, and while the
    key store gives its key, the encrypted store gives a credential for it that
    passes the validation for its authentication method. *)
Theorem saved_hosts_can_connect (db0 : Db) (keys0 : K) y k s b :
  (∀ k, is_ok (repo_get show_id parse_id false k db0) = false) →
  rtc cstep {| disk := {| hosts_db := db0; credentials_db := {| secrets := ∅; initialized := false; keys := keys0 |}; issued := ∅ |}; running := ∅ |} y →
  repo_get show_id parse_id false k (hosts_db (disk y)) = Ok s → held (keys (credentials_db (disk y))) = Some b →
  host_id (sh_host s) = k ∧
  ∃ c, get no_vault_faults (sh_credential_id s) (credentials_db (disk y)) = Ok c ∧
    is_ok (credential_validate c (authentication (connection (sh_host s)))) = true.
Proof.
  intros He Hy Hs Hb. apply (stack_simulates _ _ {| world := {| repo := ∅; vault := ∅; owner := ∅ |}; handlers := ∅ |}) in Hy as (z & Hz & Hr & (key & Hv) & _).
  - apply Hr in Hs.
    eapply no_dangling_credentials in Hz; [|intros h s'; cbn; by rewrite lookup_empty|done].
    destruct (Hz s Hs) as (Hh & _ & c & Hc & Hval). split; [done|]. exists c. split; [|done].
    by rewrite (implements_get key _ _ b _ Hv Hb), Hc.
  - split; [|split; [|done]]; cbn [disk hosts_db credentials_db world repo vault].
    + intros k' s'. rewrite lookup_empty. split; [|done]. intros E. specialize (He k'). by rewrite E in He.
    + exists []. split; [intros id; constructor|done].
  - done.
Qed.
End Stack.

(** ** A run *)

(** Everything succeeds. *)
Section Run.
Context {Db K : Type} `{HostTable Db} `{KeyProvider K} `{Sealing} (show_id : HostId → str) (parse_id : str → option HostId) (rng : nat → Z).

Definition disk_respond (h : HostId) (c : hcall) (d : @Disk Db K) : hreply c * Disk :=
  match c return hreply c * Disk with
  | HGet k => (repo_get show_id parse_id false k (hosts_db d), d)
  | HSave s => let '(r, db') := repo_save show_id false s (hosts_db d) in (r, {| hosts_db := db'; credentials_db := credentials_db d; issued := issued d |})
  | HDelete k => let '(r, db') := repo_delete show_id false k (hosts_db d) in (r, {| hosts_db := db'; credentials_db := credentials_db d; issued := issued d |})
  | HFresh => let id := stdpp.base.fresh (dom (issued d)) in
      (id, {| hosts_db := hosts_db d; credentials_db := credentials_db d; issued := <[id := h]> (issued d) |})
  | HPutSecret id c => let '(r, v') := put no_vault_faults rng rng id c (credentials_db d) in (r, with_vault d v')
  | HDeleteSecret id => let '(r, v') := delete_secret no_vault_faults id (credentials_db d) in (r, with_vault d v')
  | HGetSecret id => (get no_vault_faults id (credentials_db d), d)
  | c => ((respond h c {| repo := ∅; vault := ∅; owner := ∅ |}).1, d)
  end.

Lemma disk_respond_answer h c d : disk_answer show_id parse_id h c d (disk_respond h c d).1 (disk_respond h c d).2.
Proof.
  destruct c; cbn; try done.
  - split; [done|]. by exists false.
  - destruct (repo_save _ _ _ _) as [r db'] eqn:E. by exists false, db'.
  - by exists false, (delete_row (show_id h0) (hosts_db d)).
  - split; [|done]. apply not_elem_of_dom, stdpp.fin_sets.is_fresh.
  - destruct (put _ _ _ _ _ _) as [r v'] eqn:E. exists no_vault_faults, rng, rng, v'. split; [left; by rewrite E|done].
  - split; [done|]. left. by exists no_vault_faults.
  - eexists no_vault_faults, _. split; [by left|done].
Qed.

Lemma stack_rtc h p d m :
  rtc (cstep show_id parse_id) {| disk := d; running := <[h := p]> m |} {| disk := (serve (disk_respond h) p d).2; running := delete h m |}.
Proof.
  eapply rtc_r; [apply (serve_rtc (disk_respond h) (cstep show_id parse_id) (λ p d, {| disk := d; running := <[h := p]> m |}))|].
  - intros c k d'.
    pose proof (c_call show_id parse_id h c k _ _ {| disk := d'; running := <[h := Do c k]> m |} (lookup_insert_eq _ _ _) (disk_respond_answer h c d')) as Hs.
    cbn [running] in Hs. by rewrite insert_insert_eq in Hs.
  - set (d' := (serve _ _ _).2). set (b := (serve _ _ _).1).
    pose proof (c_end show_id parse_id h b {| disk := d'; running := <[h := Ret b]> m |} (lookup_insert_eq _ _ _)) as Hs. cbn [running disk] in Hs.
    by rewrite delete_insert_eq in Hs.
Qed.
End Run.

Definition empty_disk : Disk := {| hosts_db := empty_db; credentials_db := {| secrets := ∅; initialized := false; keys := (None : option (list Z)) |}; issued := ∅ |}.
Definition saved_disk : Disk :=
  (serve (disk_respond sample_show_id sample_parse_id (λ n, Z.of_nat n) 9%N) (handler_prog (SaveHost 9%N sample_input (Some sample_secret))) empty_disk).2.

Lemma saved_hosts_can_connect_witness :
  (sh_credential_id <$> res_ok (repo_get sample_show_id sample_parse_id false 9%N (hosts_db saved_disk))) = Some 0%N ∧
  ∃ c, get no_vault_faults 0%N (credentials_db saved_disk) = Ok c ∧ is_ok (credential_validate c Password) = true.
Proof.
  split; [vm_compute; reflexivity|].
  destruct (repo_get sample_show_id sample_parse_id false 9%N (hosts_db saved_disk)) as [s|] eqn:Es; [|vm_compute in Es; discriminate Es].
  pose proof Es as Es'. vm_compute in Es'. injection Es' as <-.
  refine (proj2 (saved_hosts_can_connect sample_show_id sample_parse_id _ empty_db None {| disk := saved_disk; running := delete 9%N ∅ |} 9%N _ (fill 32 (λ n, Z.of_nat n)) _ _ Es _)).
  - intros id. cbn. by rewrite N2Z.id.
  - intros k. reflexivity.
  - eapply rtc_l; [apply (c_start sample_show_id sample_parse_id (SaveHost 9%N sample_input (Some sample_secret))); reflexivity|]. apply stack_rtc.
  - vm_compute. reflexivity.
Defined.
