(* ===== verification/Shell.v ===== *)
(** The desktop shell: its commands, their permits and the local selections
    together.

    [Commands] gives each command as a program over calls to the lifecycle, the
    local selections and the application.  Here any number of commands run at
    once and the calls are answered by the components: admission and release of
    a permit by [Lifecycle], choosing, consuming, discarding and revoking
    selections by [LocalAccess]; what the user chooses in a dialog becomes a
    selection by the programs of [LocalAccess] that open and check it.  What the
    application answers stays open.
    Drains, their deadlines, the install command (which has a permit of its
    own), the clock and the timers of the selections run beside them. *)

From S2P Require Import Prelude Str Model Prog Lifecycle LifecycleSafe Files Calls FilePlans LocalFs LocalAccess AppFiles Commands.

Section Shell.
Context (Answer : AppRequest → Type) (Update : Type) (to_string_lossy : Path → str).
Abbreviation dreply := (dreply Answer Update) (only parsing).
Abbreviation command_prog := (command_prog Answer Update) (only parsing).

Record Shell := {
  coordinator : LifeSys;
  selections : LaSys;
  started : gset N;                                  (** the commands so far *)
  commands : gmap N (prog dreply bool);              (** those that are running *)
  calls : list (N * event dreply)                    (** what they called, the latest first *)
}.
Definition shell_new : Shell := {| coordinator := life_new; selections := la_new; started := ∅; commands := ∅; calls := [] |}.

Definition granted_kind (v : GrantValue) : LocalGrantKind := match v with GUpload _ => UploadFiles | GDownloadDirectory _ => DownloadDirectory end.

(** The shown items and the selection that a dialog led to: the files, or the
    folder, the user chose in it, opened and checked. *)
Definition from_dialog (items : list LocalSelectionItem) (value : GrantValue) : Prop :=
  match value with
  | GUpload _ => ∃ handles t, runs (LocalAccess.choose_upload_files (Some handles) : prg _) t (Ok (Some (items, value)))
  | GDownloadDirectory _ => ∃ handle t, runs (LocalAccess.choose_download_directory to_string_lossy (Some handle) : prg _) t (Ok (Some (items, value)))
  end.

(** What the components answer to a call of command [p], and what it does to
    them. *)
Definition shell_answer (p : N) (c : dcall) (l : LifeSys) (s : LaSys) : dreply c → LifeSys → LaSys → Prop :=
  match c return dreply c → LifeSys → LaSys → Prop with
  | DAdmit => λ r l' s', (r, l') = sys_admit p l ∧ s' = s
  | DRelease => λ _ l' s', l' = sys_drop p l ∧ s' = s
  | DRevokeHost h => λ _ l' s', l' = l ∧ s' = set_grants (revoke_host h (grants s)) s
  | DRevokeSession h hs => λ _ l' s', l' = l ∧ s' = set_grants (revoke_session h hs (grants s)) s
  | DConsumeUpload id scope => λ r l' s', l' = l ∧
      let x := consume_upload id scope (clock s) (grants s) in r = x.1 ∧ s' = sys_use id scope GUpload x s
  | DConsumeDownload id scope => λ r l' s', l' = l ∧
      let x := consume_download_directory id scope (clock s) (grants s) in r = x.1 ∧ s' = sys_use id scope GDownloadDirectory x s
  | DDiscardGrant id scope => λ r l' s', l' = l ∧ let x := discard id scope (grants s) in r = x.1 ∧ s' = set_grants x.2 s
  | DChoose kind scope => λ r l' s', l' = l ∧
      ((s' = s ∧ match r with Ok (Some _) => False | _ => True end) ∨
       ∃ id later items value, granted s !! id = None ∧ clock s ≤ later ∧ granted_kind value = kind ∧ from_dialog items value ∧
         r = (Some <$> (insert id (clock s) later kind items value scope (grants s)).1) ∧ s' = sys_insert id later kind items value scope s)
  | DApp _ | DUpdate _ => λ _ l' s', l' = l ∧ s' = s
  end.

(** Nobody but a command itself gives back or borrows its permit. *)
Definition apart (cs : gmap N (prog dreply bool)) (l l' : LifeSys) : Prop :=
  ∀ p, is_Some (cs !! p) → (p ∈ permits l' ↔ p ∈ permits l) ∧ ∀ t k ph, drains l' !! t = Some (k, ph) → borrows k p = false.

Inductive shell_step : Shell → Shell → Prop :=
| s_start p c y : p ∉ started y → p ∉ permits (coordinator y) →
    shell_step y {| coordinator := coordinator y; selections := selections y; started := {[p]} ∪ started y;
                    commands := <[p := command_prog c]> (commands y); calls := calls y |}
| s_call p c k r l' s' y : commands y !! p = Some (Do c k) → shell_answer p c (coordinator y) (selections y) r l' s' →
    shell_step y {| coordinator := l'; selections := s'; started := started y; commands := <[p := k r]> (commands y); calls := (p, Ev c r) :: calls y |}
| s_end p b y : commands y !! p = Some (Ret b) →
    shell_step y {| coordinator := coordinator y; selections := selections y; started := started y; commands := delete p (commands y); calls := calls y |}
(** Drains, deadlines and the install command. *)
| s_life l' y : life_step (coordinator y) l' → apart (commands y) (coordinator y) l' →
    shell_step y {| coordinator := l'; selections := selections y; started := started y; commands := commands y; calls := calls y |}
(** The clock, the timers, and the revocation at the exit. *)
| s_local s' y : la_step (selections y) s' → uses s' = uses (selections y) → granted s' = granted (selections y) →
    shell_step y {| coordinator := coordinator y; selections := s'; started := started y; commands := commands y; calls := calls y |}.

Definition shell_reachable : Shell → Prop := rtc shell_step shell_new.

(** ** Permits *)

(** What a command may still do when it holds its permit ([b]) or not. *)
Fixpoint permit_ok (b : bool) (x : prog dreply bool) : Prop :=
  match x with
  | Ret _ => b = false
  | Do c k =>
      match c return (dreply c → prog dreply bool) → Prop with
      | DAdmit => λ k, b = false ∧ permit_ok true (k (Ok tt)) ∧ ∀ e, permit_ok false (k (Err e))
      | DRelease => λ k, b = true ∧ permit_ok false (k tt)
      | _ => λ k, b = true ∧ ∀ r, permit_ok true (k r)
      end k
  end.

Lemma permit_ok_work {A} (p : prog dreply A) (f : A → prog dreply bool) : only work p → (∀ a, permit_ok true (f a)) → permit_ok true (pbind p f).
Proof. intros Hp Hf. induction p as [a|c k IH]; [apply Hf|]. destruct Hp as [Hc Hk]. destruct c; cbn in Hc; try done; (split; [done|]; auto). Qed.

Lemma pbind_pbind_permit {A B} b (p : prog dreply A) (f : A → prog dreply B) (g : B → prog dreply bool) :
  permit_ok b (pbind p (λ a, pbind (f a) g)) → permit_ok b (pbind (pbind p f) g).
Proof.
  revert b. induction p as [a|c k IH]; intros b; [exact id|]. destruct c; cbn; intuition auto.
Qed.

Lemma permitted_ok {A} (body : io dreply AppError A) : only work (body : prog dreply _) → permit_ok false (outcome Answer Update (permitted Answer Update body)).
Proof.
  intros Ho. cbn. split; [done|]. split; [|done]. apply pbind_pbind_permit, permit_ok_work; [done|]. intros x. cbn. done.
Qed.

Lemma command_permit_ok c : permit_ok false (command_prog c).
Proof. destruct c; (apply permitted_ok; cbn; repeat (split; [done|]; intros []; cbn); done). Qed.

(** ** The components keep their own reachability *)

Record shell_inv (y : Shell) : Prop := {
  si_life : life_reachable (coordinator y);
  si_local : la_reachable (selections y);
  si_command : ∀ p x, commands y !! p = Some x → permit_ok (bool_decide (p ∈ permits (coordinator y))) x;
  si_borrow : ∀ p t k ph, is_Some (commands y !! p) → drains (coordinator y) !! t = Some (k, ph) → borrows k p = false
}.

Lemma drains_notified t k ph d : notify_waiters d !! t = Some (k, ph) → ∃ ph', d !! t = Some (k, ph').
Proof. intros (ph' & H & _)%notified_kind. by exists ph'. Qed.

Lemma admit_facts p l r l' : (r, l') = sys_admit p l → 
  permits l' = (if is_ok r then {[p]} ∪ permits l else permits l) ∧ ∀ t k ph, drains l' !! t = Some (k, ph) → ∃ ph', drains l !! t = Some (k, ph').
Proof.
  unfold sys_admit. destruct (poisoned l); [intros [= -> ->]; cbn; eauto|]. destruct (admit_command (life l)) as [[r1 s1] woken]. intros [= -> ->]. cbn.
  split; [done|]. intros t k ph. destruct woken; [apply drains_notified|eauto].
Qed.

Lemma drop_facts p l : permits (sys_drop p l) = permits l ∖ {[p]} ∧
  ∀ t k ph, drains (sys_drop p l) !! t = Some (k, ph) → ∃ ph', drains l !! t = Some (k, ph').
Proof. unfold sys_drop. destruct (poisoned l); cbn; (split; [done|]); [eauto|]. intros t k ph. apply drains_notified. Qed.

(** What a call does to the two components is a step of each. *)
Lemma call_life p c k l s r l' s' : life_reachable l → permit_ok (bool_decide (p ∈ permits l)) (Do c k) →
  (∀ t k ph, drains l !! t = Some (k, ph) → borrows k p = false) → shell_answer p c l s r l' s' →
  rtc life_step l l' ∧ permit_ok (bool_decide (p ∈ permits l')) (k r) ∧ (∀ q, q ≠ p → q ∈ permits l' ↔ q ∈ permits l) ∧
  ∀ t k ph, drains l' !! t = Some (k, ph) → ∃ ph', drains l !! t = Some (k, ph').
Proof.
  intros Hl Hp Hb Ha. destruct c; cbn in Ha, Hp; try (destruct Ha as [-> _], Hp as [Hb' Hp]; split; [done|]; split; [by rewrite Hb'|]; split; [done|by eauto]).
  - destruct Ha as [Hs _]. destruct Hp as (Hn & Hok & Herr). apply bool_decide_eq_false in Hn. destruct (admit_facts _ _ _ _ Hs) as [Hperm Hd].
    split; [|split; [|split; [|done]]].
    + apply rtc_once. replace l' with (sys_admit p l).2 by (by rewrite <-Hs). by apply ls_admit.
    + destruct r as [[]|e]; cbn in Hperm; rewrite Hperm; [rewrite bool_decide_eq_true_2 by set_solver|rewrite bool_decide_eq_false_2 by done]; done.
    + intros q Hq. rewrite Hperm. destruct r; cbn; set_solver.
  - destruct Ha as [-> _]. destruct Hp as [Hn Hok]. apply bool_decide_eq_true in Hn. destruct (drop_facts p l) as [Hperm Hd].
    split; [apply rtc_once; by apply ls_drop|]. split; [|split; [|done]].
    + rewrite Hperm, bool_decide_eq_false_2 by set_solver. by destruct r.
    + intros q Hq. rewrite Hperm. set_solver.
Qed.

Lemma call_local p c l s r l' s' : shell_answer p c l s r l' s' → rtc la_step s s'.
Proof.
  intros Ha. destruct c; cbn in Ha; try (destruct Ha as [_ ->]; done).
  - destruct Ha as [_ ->]. apply rtc_once, la_revoke_host.
  - destruct Ha as [_ ->]. apply rtc_once, la_revoke_session.
  - destruct Ha as [_ [[-> _]|(id & later & items & value & Hg & Hl & _ & _ & _ & ->)]]; [done|]. by apply rtc_once, la_insert.
  - destruct Ha as (_ & _ & ->). apply rtc_once, la_upload.
  - destruct Ha as (_ & _ & ->). apply rtc_once, la_directory.
  - destruct Ha as (_ & _ & ->). apply rtc_once, la_discard.
Qed.

Lemma shell_step_inv y y' : shell_step y y' → shell_inv y → shell_inv y'.
Proof.
  intros Hs [I1 I2 I3 I4]. destruct Hs as [p c y Hp Hn|p c k r l' s' y Hc Ha|p b y Hb|l' y Hl Hap|s' y Hl Hu Hg].
  - split; cbn; try done.
    + intros q x. rewrite lookup_insert_Some. intros [[<- <-]|[_ Hq]]; [|by apply I3]. rewrite bool_decide_eq_false_2 by done. apply command_permit_ok.
    + intros q t k ph. rewrite lookup_insert_is_Some. intros [<-|[_ Hq]] Hd; [|by eapply I4]. destruct k as [|p']; [done|]. cbn.
      apply bool_decide_eq_false_2. intros ->. apply Hn. by eapply (li_borrow _ (life_reachable_inv _ I1)).
  - destruct (call_life p c k _ _ r l' s' I1 (I3 _ _ Hc) (λ t k ph, I4 p t k ph (mk_is_Some _ _ Hc)) Ha) as (H1 & H2 & H3 & H4).
    split; cbn.
    + unfold life_reachable. by etrans.
    + unfold la_reachable. etrans; [done|]. by eapply call_local.
    + intros q x. rewrite lookup_insert_Some. intros [[<- <-]|[Hne Hq]]; [done|]. rewrite (bool_decide_ext _ _ (H3 q (not_eq_sym Hne))). by apply I3.
    + intros q t k' ph. rewrite lookup_insert_is_Some. intros Hq (ph' & Hd)%H4. eapply I4; [|done]. destruct Hq as [<-|[_ Hq]]; [by eexists|done].
  - split; cbn; try done.
    + intros q x. rewrite lookup_delete_Some. intros [_ Hq]. by apply I3.
    + intros q t k ph. rewrite lookup_delete_is_Some. intros [_ Hq]. by apply I4.
  - split; cbn; try done.
    + unfold life_reachable. by eapply rtc_r.
    + intros q x Hq. rewrite (bool_decide_ext _ _ (proj1 (Hap q (mk_is_Some _ _ Hq)))). by apply I3.
    + intros q t k ph Hq. by apply (Hap q Hq).
  - split; cbn; try done. unfold la_reachable. by eapply rtc_r.
Qed.

Lemma shell_reachable_inv y : shell_reachable y → shell_inv y.
Proof.
  unfold shell_reachable. revert y. apply (rtc_ind_r (λ y, shell_inv y) shell_new).
  - split; cbn; [apply rtc_refl|apply rtc_refl|by intros p x; rewrite lookup_empty|by intros p t k ph; rewrite !lookup_empty].
  - intros y z _ Hs Hi. by eapply shell_step_inv.
Qed.

(** A command that is over, or that has not been admitted yet. *)
Definition idle (x : prog dreply bool) : bool := match x with Ret _ | Do DAdmit _ => true | _ => false end.

Lemma permit_ok_idle x : permit_ok false x → idle x = true.
Proof. destruct x as [b|c k]; [done|]. destruct c; cbn; try done; by intros []. Qed.

(** One step of a drained shell. *)
Definition drained (y : Shell) : Prop := ∃ t, ended (coordinator y) !! t = Some (DrainAll, Ok tt).

Lemma drained_life l l' t : life_reachable l → ended l !! t = Some (DrainAll, Ok tt) → rtc life_step l l' → ended l' !! t = Some (DrainAll, Ok tt).
Proof.
  intros Hl Ht Hr. apply life_reachable_inv in Hl. induction Hr as [|l l1 l2 Hs _ IH]; [done|]. apply IH; [by eapply life_step_inv|by eapply ended_stays].
Qed.

Lemma drained_idle y : shell_inv y → drained y → ∀ p x, commands y !! p = Some x → permit_ok false x.
Proof.
  intros [I1 I2 I3 I4] [t Ht] p x Hx. destruct (drained_stays_drained _ _ t DrainAll I1 Ht (rtc_refl _ _)) as (_ & Hp & _).
  specialize (I3 p x Hx). rewrite Hp, bool_decide_eq_false_2 in I3; [done|]. set_solver.
Qed.

Lemma drained_step y y' : shell_inv y → drained y → shell_step y y' →
  drained y' ∧ (calls y' = calls y ∨ ∃ p e, calls y' = (p, Ev DAdmit (Err e)) :: calls y).
Proof.
  intros Hi Hd Hs. pose proof (drained_idle y Hi Hd) as Hidle. pose proof Hi as [I1 I2 I3 I4]. destruct Hd as [t Ht].
  destruct Hs as [p c y Hp Hn|p c k r l' s' y Hc Ha|p b y Hb|l' y Hl Hap|s' y Hl Hu Hg]; cbn; try (split; [by exists t|by left]).
  - destruct (call_life p c k _ _ r l' s' I1 (I3 _ _ Hc) (λ t k ph, I4 p t k ph (mk_is_Some _ _ Hc)) Ha) as (H1 & _).
    split; [exists t; cbn; by eapply drained_life|]. right. specialize (Hidle p _ Hc). destruct c; cbn in Hidle; try (by destruct Hidle).
    destruct (drained_stays_drained _ _ t DrainAll I1 Ht (rtc_refl _ _)) as (Hadm & _). cbn in Ha. destruct Ha as [Ha _].
    specialize (Hadm p). rewrite <-Ha in Hadm. cbn in Hadm. subst r. by eexists _, _.
  - split; [|by left]. exists t. cbn. eapply drained_life; [done|done|by apply rtc_once].
Qed.

(** [C11] A drained shell is quiet.  From the moment a drain of all commands has
    succeeded, whatever commands are started and however everything interleaves:
    no command calls anything but the admission, which refuses it; so neither
    the application, nor the updater, nor the selections are touched by a
    command ever again, and no command is in the middle of its work. *)
Theorem drained_shell_is_quiet y z t : shell_reachable y → ended (coordinator y) !! t = Some (DrainAll, Ok tt) → rtc shell_step y z →
  (∃ new, calls z = new ++ calls y ∧ Forall (λ pe, ∃ e, pe.2 = Ev DAdmit (Err e)) new) ∧
  ∀ p x, commands z !! p = Some x → idle x = true.
Proof.
  intros Hi%shell_reachable_inv Ht Hr.
  assert (drained y) as Hd by (by exists t). clear t Ht.
  assert (shell_inv z ∧ drained z ∧ ∃ new, calls z = new ++ calls y ∧ Forall (λ pe, ∃ e, pe.2 = Ev DAdmit (Err e)) new) as (Hz & Hdz & Hnew).
  { revert z Hr. apply (rtc_ind_r _); [split; [done|]; split; [done|]; by exists []|]. intros z1 z2 _ Hs (Hi1 & Hd1 & new & Hn & Hf).
    split; [by eapply shell_step_inv|]. destruct (drained_step z1 z2 Hi1 Hd1 Hs) as [Hd2 Hc]. split; [done|].
    destruct Hc as [->|(p & e & ->)]; [by exists new|]. exists ((p, Ev DAdmit (Err e)) :: new). rewrite Hn. split; [done|]. constructor; [by exists e|done]. }
  split; [done|]. intros p x Hx. apply permit_ok_idle. by eapply drained_idle.
Qed.

(** ** Selections *)

(** A command in the middle of its program. *)
Inductive partial : prog dreply bool → list (event dreply) → prog dreply bool → Prop :=
| partial_nil x : partial x [] x
| partial_snoc x t c k r : partial x t (Do c k) → partial x (t ++ [Ev c r]) (k r).

(** What command [p] called so far, in order. *)
Fixpoint calls_of (p : N) (l : list (N * event dreply)) : list (event dreply) :=
  match l with
  | [] => []
  | (q, e) :: l => if bool_decide (q = p) then calls_of p l ++ [e] else calls_of p l
  end.

Lemma calls_of_elem p e l : e ∈ calls_of p l ↔ (p, e) ∈ l.
Proof.
  induction l as [|[q e'] l IH]; cbn; [set_solver|]. case_bool_decide as Hq.
  - subst q. rewrite elem_of_app, list_elem_of_singleton, IH, elem_of_cons. naive_solver.
  - rewrite IH, elem_of_cons. naive_solver.
Qed.

(** Some reply to each call: every command can run to its end. *)
Definition some_reply (c : dcall) : dreply c :=
  match c with
  | DAdmit | DApp _ | DUpdate _ | DChoose _ _ | DConsumeUpload _ _ | DConsumeDownload _ _ | DDiscardGrant _ _ => Err closing_error
  | DRelease | DRevokeHost _ | DRevokeSession _ _ => tt
  end.

Lemma partial_runs x t x' t' r : partial x t x' → runs x' t' r → runs x (t ++ t') r.
Proof.
  intros Hp. revert t' r. induction Hp as [x|x t c k rp Hp IH]; intros t' r Hr; [done|]. rewrite <-app_assoc. apply IH. by constructor.
Qed.

Lemma partial_needs c t x : partial (command_prog c) t x → ∀ t1 e t2, t = t1 ++ e :: t2 → needs Answer Update t1 (ev_call e).
Proof.
  intros Hp t1 e t2 ->. pose proof (partial_runs _ _ _ _ _ Hp (interp_runs some_reply x)) as Hr. apply command_prepared in Hr.
  rewrite <-app_assoc in Hr. by apply prepared_at in Hr.
Qed.

(** The selections taken by the calls, the latest first. *)
Definition taken_by (pe : N * event dreply) : option LocalGrantId :=
  match pe.2 with
  | Ev (DConsumeUpload id _) (Ok _) | Ev (DConsumeDownload id _) (Ok _) => Some id
  | _ => None
  end.

(** The selection [id] is one that a command had the user choose: it holds what
    the dialog led to, and the command was shown the same items. *)
Definition chosen_by_user (id : LocalGrantId) (g : StoredGrant) (l : list (N * event dreply)) : Prop :=
  let kind := granted_kind (sg_value g) in
  ∃ q items, (q, Ev (DChoose kind (sg_scope g)) (Ok (Some {| lg_id := id; lg_kind := kind; lg_items := items |}))) ∈ l ∧
    from_dialog items (sg_value g).

(** A successful consumption is a use. *)
Definition used_as (us : list Use) (id : LocalGrantId) (scope : GrantScope) (v : GrantValue) : Prop :=
  ∃ u, u ∈ us ∧ use_id u = id ∧ use_scope u = scope ∧ use_value u = v.
Definition used_by (us : list Use) (e : event dreply) : Prop :=
  match e with
  | Ev (DConsumeUpload id scope) (Ok items) => used_as us id scope (GUpload items)
  | Ev (DConsumeDownload id scope) (Ok d) => used_as us id scope (GDownloadDirectory d)
  | _ => True
  end.

Record calls_inv (y : Shell) : Prop := {
  ci_program : ∀ p, calls_of p (calls y) ≠ [] ∨ is_Some (commands y !! p) →
    p ∈ started y ∧ ∃ c x, partial (command_prog c) (calls_of p (calls y)) x ∧ (∀ x', commands y !! p = Some x' → x' = x);
  ci_taken : omap taken_by (calls y) = map use_id (uses (selections y));
  ci_used : ∀ p e, (p, e) ∈ calls y → used_by (uses (selections y)) e;
  ci_granted : ∀ id g, granted (selections y) !! id = Some g → chosen_by_user id g (calls y)
}.

(** What a call adds to the uses. *)
Lemma call_uses p c l s r l' s' : shell_answer p c l s r l' s' →
  ∃ new, uses s' = new ++ uses s ∧
    match c return dreply c → Prop with
    | DConsumeUpload id scope => λ r, match r with
        | Ok items => ∃ u, new = [u] ∧ use_id u = id ∧ use_scope u = scope ∧ use_value u = GUpload items | Err _ => new = [] end
    | DConsumeDownload id scope => λ r, match r with
        | Ok d => ∃ u, new = [u] ∧ use_id u = id ∧ use_scope u = scope ∧ use_value u = GDownloadDirectory d | Err _ => new = [] end
    | _ => λ _, new = []
    end r.
Proof.
  intros Ha. destruct c; cbn in Ha |- *; try (destruct Ha as [_ ->]; by exists []).
  - destruct Ha as [_ [[-> _]|(id & later & items & value & _ & _ & _ & _ & _ & ->)]]; exists []; [done|]. unfold sys_insert. by destruct (insert _ _ _ _ _ _ _ _).
  - destruct Ha as (_ & -> & ->). unfold sys_use. cbn. destruct (consume_upload _ _ _ _) as [[items|e] m]; cbn; [|by exists []].
    eexists [_]. split; [done|]. by eexists.
  - destruct Ha as (_ & -> & ->). unfold sys_use. cbn. destruct (consume_download_directory _ _ _ _) as [[d|e] m]; cbn; [|by exists []].
    eexists [_]. split; [done|]. by eexists.
  - destruct Ha as (_ & _ & ->). by exists [].
Qed.

Lemma taken_new p c l s r l' s' : shell_answer p c l s r l' s' → omap taken_by [(p, Ev c r)] ++ map use_id (uses s) = map use_id (uses s').
Proof.
  intros (new & -> & Hn)%call_uses. rewrite map_app. f_equal.
  destruct c; try (subst new; done); destruct r; cbn in Hn |- *; [|by subst new| |by subst new]; by destruct Hn as (u & -> & <- & _).
Qed.

Lemma call_granted p c l s r l' s' id g : shell_answer p c l s r l' s' → granted s' !! id = Some g →
  granted s !! id = Some g ∨ chosen_by_user id g [(p, Ev c r)].
Proof.
  intros Ha. destruct c; cbn in Ha; try (destruct Ha as [_ ->]; by left); try (destruct Ha as (_ & _ & ->); by left).
  destruct Ha as [_ [[-> _]|(id' & later & items & value & _ & _ & <- & Hfd & -> & ->)]]; [by left|].
  unfold sys_insert. unfold insert. destruct (_ <=? _); cbn; [by left|]. rewrite lookup_insert_Some.
  intros [[-> <-]|[_ Hg]]; [right|by left]. unfold chosen_by_user. cbn. exists p, items. split; [by apply list_elem_of_singleton|done].
Qed.

Lemma used_more new us e : used_by us e → used_by (new ++ us) e.
Proof. destruct e as [[] r]; cbn; try done; destruct r; try done; intros (u & Hin & Hx); exists u; (split; [apply elem_of_app; by right|done]). Qed.

Lemma calls_inv_new : calls_inv shell_new.
Proof.
  split; cbn; [intros p [?|[x Hx]]; [done|by rewrite lookup_empty in Hx]|done|by intros p e Hn%elem_of_nil|].
  intros id g. by rewrite lookup_empty.
Qed.

(** Steps of the others. *)
Lemma calls_inv_other y l' s' : calls_inv y → uses s' = uses (selections y) → granted s' = granted (selections y) →
  calls_inv {| coordinator := l'; selections := s'; started := started y; commands := commands y; calls := calls y |}.
Proof. intros [I1 I2 I3 I4] Hu Hg. split; cbn; rewrite ?Hu, ?Hg; done. Qed.

Lemma calls_inv_call p c k r l' s' y : calls_inv y → commands y !! p = Some (Do c k) → shell_answer p c (coordinator y) (selections y) r l' s' →
  calls_inv {| coordinator := l'; selections := s'; started := started y; commands := <[p := k r]> (commands y); calls := (p, Ev c r) :: calls y |}.
Proof.
  intros [I1 I2 I3 I4] Hc Ha. destruct (call_uses _ _ _ _ _ _ _ Ha) as (new & Hu & Hn). split; cbn [commands started calls selections].
  - intros q. cbn [calls_of]. case_bool_decide as Hq.
    + subst q. intros _. destruct (I1 p) as (Hst & c0 & x & Hp & Hx); [by right|]. split; [done|]. rewrite <-(Hx _ Hc) in Hp.
      exists c0, (k r). split; [by constructor|]. intros x'. rewrite lookup_insert_eq. by intros [= ->].
    + rewrite lookup_insert_ne by done. apply I1.
  - change ((p, Ev c r) :: calls y) with ([(p, Ev c r)] ++ calls y). rewrite omap_app, I2. by eapply taken_new.
  - intros q e [E|Hin]%elem_of_cons.
    + injection E as -> ->. rewrite Hu. destruct c; try done; destruct r; try done; destruct Hn as (u & -> & Hx); exists u; (split; [apply list_elem_of_here|done]).
    + rewrite Hu. by apply used_more, I3 with q.
  - intros id g [Hg|(q & items & Hin & Hfd)]%(call_granted _ _ _ _ _ _ _ _ _ Ha).
    + destruct (I4 _ _ Hg) as (q & items & Hin & Hfd). exists q, items. split; [by apply list_elem_of_further|done].
    + exists q, items. split; [|done]. apply list_elem_of_singleton in Hin as ->. by apply list_elem_of_here.
Qed.

Lemma calls_step_inv y y' : shell_step y y' → calls_inv y → calls_inv y'.
Proof.
  intros Hs Hi. destruct Hs as [p c y Hp Hn|p c k r l' s' y Hc Ha|p b y Hb|l' y Hl Hap|s' y Hl Hu Hg]; try by apply calls_inv_other.
  - destruct Hi as [I1 I2 I3 I4]. split; cbn; try done. intros q Hq. destruct (decide (q = p)) as [->|Hne].
    + split; [set_solver|]. assert (calls_of p (calls y) = []) as ->.
      { destruct (calls_of p (calls y)) eqn:E; [done|]. exfalso. apply Hp. apply I1. left. by rewrite E. }
      exists c, (command_prog c). split; [constructor|]. intros x'. rewrite lookup_insert_eq. by intros [= <-].
    + rewrite lookup_insert_ne in Hq |- * by done. destruct (I1 q Hq) as (Hst & Hx). split; [set_solver|done].
  - by apply calls_inv_call.
  - destruct Hi as [I1 I2 I3 I4]. split; cbn; try done. intros q Hq. destruct (decide (q = p)) as [->|Hne].
    + rewrite lookup_delete_eq in Hq |- *. destruct (I1 p) as (Hst & c & x & Hpx & _); [by right|]. split; [done|]. by exists c, x.
    + rewrite lookup_delete_ne in Hq |- * by done. by apply I1.
Qed.

Lemma calls_reachable_inv y : shell_reachable y → calls_inv y.
Proof.
  unfold shell_reachable. revert y. apply (rtc_ind_r (λ y, calls_inv y) shell_new); [apply calls_inv_new|].
  intros y z _ Hs Hi. by eapply calls_step_inv.
Qed.

(** What a request of [p] needed was called by [p] itself. *)
Lemma calls_needs y p c r : calls_inv y → (p, Ev c r) ∈ calls y → ∃ before, needs Answer Update before c ∧ ∀ e, e ∈ before → (p, e) ∈ calls y.
Proof.
  intros Hi Hin. apply calls_of_elem in Hin. destruct (ci_program _ Hi p) as (_ & c0 & x & Hp & _).
  { left. intros E. rewrite E in Hin. by apply elem_of_nil in Hin. }
  apply list_elem_of_split in Hin as (t1 & t2 & E). exists t1. split; [by eapply (partial_needs _ _ _ Hp _ (Ev c r))|].
  intros e He. apply calls_of_elem. rewrite E. set_solver.
Qed.

(** A selection that was used was granted, and the grant was chosen. *)
Lemma used_was_chosen y id scope v : shell_reachable y → used_as (uses (selections y)) id scope v →
  ∃ g, granted (selections y) !! id = Some g ∧ sg_value g = v ∧ sg_scope g = scope ∧ chosen_by_user id g (calls y).
Proof.
  intros Hy (u & Hin & <- & <- & <-). destruct (ln_uses _ (la_reachable_inv _ (si_local _ (shell_reachable_inv _ Hy))) u Hin) as (g & Hg & Hv & Hs & _).
  exists g. split; [done|]. split; [done|]. split; [done|]. by apply (ci_granted _ (calls_reachable_inv _ Hy)).
Qed.

(** [C12] Local files leave the machine only as the user chose.  However
    commands, timers and drains interleave, whatever the application answers:
    the files that a command hands over to be uploaded, and the directory that
    one hands over to be written, are exactly what the selection that it took
    was stored with, for that host, host session and file session; the selection
    came from a dialog that a command opened for that scope and answered with
    its identity, and holds the files, or the folder, that the user chose there,
    opened and checked; and no selection is ever taken twice. *)
Theorem files_leave_as_chosen y : shell_reachable y →
  (∀ p h hs sf sources dir policy r, (p, Ev (DApp (AFile (QPlanUpload h hs sf sources dir policy))) r) ∈ calls y →
     ∃ id g, (p, Ev (DConsumeUpload id (scope_of h hs sf)) (Ok sources)) ∈ calls y ∧
       granted (selections y) !! id = Some g ∧ sg_value g = GUpload sources ∧ sg_scope g = scope_of h hs sf ∧ chosen_by_user id g (calls y)) ∧
  (∀ p h hs sf paths directory policy r, (p, Ev (DApp (AFile (QPlanDownload h hs sf paths directory policy))) r) ∈ calls y →
     ∃ id g, (p, Ev (DConsumeDownload id (scope_of h hs sf)) (Ok directory)) ∈ calls y ∧
       granted (selections y) !! id = Some g ∧ sg_value g = GDownloadDirectory directory ∧ sg_scope g = scope_of h hs sf ∧ chosen_by_user id g (calls y)) ∧
  NoDup (omap taken_by (calls y)).
Proof.
  intros Hy. pose proof (calls_reachable_inv _ Hy) as Hi. split; [|split].
  - intros p h hs sf sources dir policy r (before & [id Hb] & Hin)%(calls_needs _ _ _ _ Hi). apply Hin in Hb.
    destruct (used_was_chosen y _ _ _ Hy (ci_used _ Hi _ _ Hb)) as (g & Hg). by exists id, g.
  - intros p h hs sf paths directory policy r (before & [id Hb] & Hin)%(calls_needs _ _ _ _ Hi). apply Hin in Hb.
    destruct (used_was_chosen y _ _ _ Hy (ci_used _ Hi _ _ Hb)) as (g & Hg). by exists id, g.
  - rewrite (ci_taken _ Hi). apply (ln_once _ (la_reachable_inv _ (si_local _ (shell_reachable_inv _ Hy)))).
Qed.
End Shell.

(** ** A run *)

Module ShellSample.
Abbreviation reply := (dreply (λ _, unit) unit).
Definition lossy (p : Path) : str := [].

(** The user chooses the file [C:\f.txt]. *)
Definition chosen_path : Path := [RootDir (lit "C:"); Normal (lit "f.txt")].
Definition disk (c : call) : Calls.reply c :=
  sample_answer (λ _, None) (λ p, if bool_decide (p = chosen_path) then Some false
                                  else if bool_decide (p = [RootDir (lit "C:")]) then Some true else None)
    {| er_identity := {| ei_kind := KFile; ei_size := Some 4; ei_modified := None |}; raw_mode := 0; er_uid := 0; er_gid := 0 |} [] c.
Definition dialog : Res (option (list LocalSelectionItem * GrantValue)) := (interp disk (LocalAccess.choose_upload_files (Some [chosen_path]) : prg _)).2.
Definition shown : list LocalSelectionItem := match dialog with Ok (Some (items, _)) => items | _ => [] end.
Definition files : list LocalItem := match dialog with Ok (Some (_, GUpload f)) => f | _ => [] end.

Lemma shown_from_dialog : from_dialog lossy shown (GUpload files).
Proof.
  exists [chosen_path], (interp disk (LocalAccess.choose_upload_files (Some [chosen_path]) : prg _)).1. apply interp_runs_eq.
  vm_compute. reflexivity.
Qed.

(** The user chooses whenever asked, and the application accepts everything. *)
Definition answer (p : N) (c : dcall) (l : LifeSys) (s : LaSys) : reply c * (LifeSys * LaSys) :=
  match c return reply c * (LifeSys * LaSys) with
  | DAdmit => let '(r, l') := sys_admit p l in (r, (l', s))
  | DRelease => (tt, (sys_drop p l, s))
  | DRevokeHost h => (tt, (l, set_grants (revoke_host h (grants s)) s))
  | DRevokeSession h hs => (tt, (l, set_grants (revoke_session h hs (grants s)) s))
  | DConsumeUpload id scope => let x := consume_upload id scope (clock s) (grants s) in (x.1, (l, sys_use id scope GUpload x s))
  | DConsumeDownload id scope => let x := consume_download_directory id scope (clock s) (grants s) in (x.1, (l, sys_use id scope GDownloadDirectory x s))
  | DDiscardGrant id scope => let x := discard id scope (grants s) in (x.1, (l, set_grants x.2 s))
  | DChoose UploadFiles scope =>
      let id := stdpp.base.fresh (dom (granted s)) in
      (Some <$> (insert id (clock s) (clock s) UploadFiles shown (GUpload files) scope (grants s)).1, (l, sys_insert id (clock s) UploadFiles shown (GUpload files) scope s))
  | DChoose DownloadDirectory scope => (Ok None, (l, s))
  | DApp _ | DUpdate _ => (Ok tt, (l, s))
  end.

Lemma answer_ok p c l s : shell_answer _ _ lossy p c l s (answer p c l s).1 (answer p c l s).2.1 (answer p c l s).2.2.
Proof.
  destruct c as [| | | | | |kind scope| | |]; try done.
  - cbn. by destruct (sys_admit p l).
  - destruct kind; cbn; (split; [done|]); [right|by left].
    eexists _, _, shown, (GUpload files). split; [apply not_elem_of_dom, stdpp.fin_sets.is_fresh|]. split; [reflexivity|].
    split; [done|]. split; [apply shown_from_dialog|done].
Qed.

(** What a command does to the shell when it runs alone. *)
Definition respond (p : N) (c : dcall) (st : LifeSys * LaSys * list (N * event reply)) : reply c * (LifeSys * LaSys * list (N * event reply)) :=
  let '(l, s, t) := st in let x := answer p c l s in (x.1, (x.2, (p, Ev c x.1) :: t)).

Definition run (p : N) (c : Command) (y : Shell (λ _, unit) unit) : Shell (λ _, unit) unit :=
  let '(l, s, t) := (serve (respond p) (command_prog _ _ c) (coordinator _ _ y, selections _ _ y, calls _ _ y)).2 in
  {| coordinator := l; selections := s; started := {[p]} ∪ started _ _ y; commands := commands _ _ y; calls := t |}.

Lemma run_rtc p c y : p ∉ started _ _ y → p ∉ permits (coordinator _ _ y) → commands _ _ y !! p = None → rtc (shell_step _ _ lossy) y (run p c y).
Proof.
  intros Hp Hn Hc. eapply rtc_l; [by apply (s_start _ _ lossy p c y)|].
  set (f := λ x (st : LifeSys * LaSys * list (N * event reply)),
    {| coordinator := st.1.1; selections := st.1.2; started := {[p]} ∪ started _ _ y; commands := <[p := x]> (commands _ _ y); calls := st.2 |} : Shell _ _).
  pose proof (serve_rtc (respond p) (shell_step _ _ lossy) f) as Hrun. eapply rtc_r.
  - apply (Hrun) with (p := command_prog _ _ c) (s := (coordinator _ _ y, selections _ _ y, calls _ _ y)). intros c' k [[l s] t].
    pose proof (s_call _ _ lossy p c' k _ _ _ (f (Do c' k) (l, s, t)) (lookup_insert_eq _ _ _) (answer_ok p c' l s)) as H1. cbn [commands calls started f] in H1.
    rewrite insert_insert_eq in H1. unfold respond, f. cbn [fst snd]. destruct (answer p c' l s) as [r [l' s']]. exact H1.
  - unfold run. destruct (serve _ _ _) as [b [[l s] t]]. cbn [fst snd].
    pose proof (s_end _ _ lossy p b (f (Ret b) (l, s, t)) (lookup_insert_eq _ _ _)) as H1. cbn [f commands coordinator selections started calls fst snd] in H1.
    by rewrite delete_insert_id in H1.
Qed.
End ShellSample.

Definition after_choice : Shell (λ _, unit) unit := ShellSample.run 1%N (CChooseUploadFiles 1%N 2%N 3%N) (shell_new _ _).
Definition after_plan : Shell (λ _, unit) unit :=
  ShellSample.run 2%N (CPlanUpload {| pu_host_id := 1%N; pu_host_session_id := 2%N; pu_sftp_session_id := 3%N; pu_grant_id := 0%N;
    pu_remote_directory := lit "/srv"; pu_conflict_policy := PSkip |}) after_choice.

Lemma files_leave_as_chosen_witness :
  map lit_path ShellSample.files = [ShellSample.chosen_path] ∧
  ∃ id, (2%N, Ev (DConsumeUpload id (scope_of 1%N 2%N 3%N)) (Ok ShellSample.files)) ∈ calls _ _ after_plan ∧
    ∃ q items, (q, Ev (DChoose UploadFiles (scope_of 1%N 2%N 3%N)) (Ok (Some {| lg_id := id; lg_kind := UploadFiles; lg_items := items |}))) ∈ calls _ _ after_plan
      ∧ from_dialog ShellSample.lossy items (GUpload ShellSample.files).
Proof.
  split; [vm_compute; reflexivity|].
  assert (shell_reachable _ _ ShellSample.lossy after_plan) as Hr.
  { unfold shell_reachable. etrans; [apply (ShellSample.run_rtc 1%N (CChooseUploadFiles 1%N 2%N 3%N)); [set_solver|set_solver|reflexivity]|].
    apply ShellSample.run_rtc; [apply (bool_decide_unpack _); vm_compute; reflexivity|apply (bool_decide_unpack _); vm_compute; reflexivity|reflexivity]. }
  destruct (files_leave_as_chosen _ _ ShellSample.lossy after_plan Hr) as [H _].
  destruct (H 2%N 1%N 2%N 3%N ShellSample.files (lit "/srv") PSkip (Ok tt)) as (id & g & Hc & _ & Hv & Hs & q & items & Hq & Hd).
  - do 1 apply list_elem_of_further. apply list_elem_of_here.
  - exists id. split; [done|]. rewrite Hv, Hs in Hq. rewrite Hv in Hd. by exists q, items.
Defined.

(** The shell is drained, then a command is tried. *)
Definition drained_life_sys : LifeSys :=
  default life_new (drain_step 5%N (default life_new (drain_step 5%N (drain_begin 5%N DrainAll life_new)))).
Definition drained_shell : Shell (λ _, unit) unit :=
  {| coordinator := drained_life_sys; selections := la_new; started := ∅; commands := ∅; calls := [] |}.

Lemma drained_shell_reachable : shell_reachable _ _ ShellSample.lossy drained_shell.
Proof.
  assert (∀ l l', life_step l l' → shell_step (λ _, unit) unit ShellSample.lossy
    {| coordinator := l; selections := la_new; started := ∅; commands := ∅; calls := [] |}
    {| coordinator := l'; selections := la_new; started := ∅; commands := ∅; calls := [] |}) as Hs.
  { intros l l' Hl. apply (s_life _ _ ShellSample.lossy l' {| coordinator := l; selections := la_new; started := ∅; commands := ∅; calls := [] |}); [done|].
    intros p Hx. cbn in Hx. by apply lookup_empty_is_Some in Hx. }
  eapply rtc_l; [apply Hs, (ls_drain 5%N DrainAll); [done|done|done]|]. eapply rtc_l; [apply Hs, (ls_step 5%N); reflexivity|].
  apply rtc_once, Hs, (ls_step 5%N). reflexivity.
Qed.

Lemma drained_shell_is_quiet_witness :
  let z := ShellSample.run 7%N CListHosts drained_shell in
  (∃ new, calls _ _ z = new ∧ new ≠ [] ∧ Forall (λ pe, ∃ e, pe.2 = Ev DAdmit (Err e)) new).
Proof.
  destruct (drained_shell_is_quiet _ _ ShellSample.lossy drained_shell (ShellSample.run 7%N CListHosts drained_shell) 5%N) as [(new & Hn & Hf) _].
  - apply drained_shell_reachable.
  - reflexivity.
  - apply ShellSample.run_rtc; [set_solver|apply (bool_decide_unpack _); vm_compute; reflexivity|reflexivity].
  - exists new. rewrite Hn, app_nil_r. split; [done|]. split; [|done]. intros ->. vm_compute in Hn. discriminate Hn.
Defined.
